(* ===== verification/_CoqProject ===== *)
-Q . S2P
Prelude.v
Text.v
Float.v
Codec.v
Packet.v
Framing.v
Handshake.v
Pairing.v
Media.v
Input.v
Parity.v
Control.v
Transport.v
TlsStream.v
UdpGcm.v
Assembler.v
HostSender.v
AudioReassembler.v
ReceiverStats.v
ClipboardImage.v
ClientSession.v
Pipeline.v
Admission.v
Guests.v
HostState.v
HostSession.v
HostSafety.v
HostLiveness.v
HostTermination.v
HostSpeech.v
FrameQueue.v
RelayProto.v
Relay.v
AgentInput.v
AgentHttp.v
AgentServer.v
ClientStore.v
StoreFile.v
ClientRuntime.v
ClientConnect.v
ClientSafety.v
ClientSupervisor.v
ClientReconnect.v
AudioQueue.v
Stun.v
Signaling.v
Touch.v
RelayBridge.v
HostServer.v
NativePipeline.v
DesktopMedia.v
DesktopAudio.v
HostList.v
