(* ===== verification/Prelude.v ===== *)
(** * MahoRD: a verification library

    MahoRD is a remote desktop: a host captures a screen, encodes it and sends
    it in encrypted datagrams, a client reassembles and decodes the frames and
    sends input back over a TLS connection.  This library models the part of
    the program where bytes, sequence numbers and permissions are handled, in
    [clients/rust/] of the repository, and proves what makes it correct.

    ** The program and the files of the library

    A message travels through these layers; each is a file, which requires the
    files above it that it calls.

    - [Prelude]: results, machine integers, bytes and their little- and
      big-endian encodings, saturating clocks, [slice::chunks], UTF-8; tactics
      and hint databases ([len], [maho], [limits]).
    - [Codec] ([maho-proto/src/codec.rs], [error.rs], [lib.rs]): the [Decoder]
      as a state and error monad over the remaining bytes, the [push_*]
      helpers, and the [WireCodec] trait as a class, with the laws a codec has
      to satisfy as the classes [WireLaws], [WireCanonical], [WireBounded].
    - [Packet], [Handshake], [Pairing], [Media], [Input], [Parity], [Control]
      ([maho-proto/src/*.rs]): the data types and the codec of every message of
      protocol version 3, each with an instance of those classes.
    - [Framing] ([framing.rs]): the length-prefixed frames of the TCP channel.
    - [Transport] ([maho-host/src/session.rs]: [split_packet],
      [send_tcp_control]): control messages as packets in frames.
    - [TlsStream] ([maho-net/src/tls_psk.rs], [TlsPskStream]): the frames over a
      TLS session that accepts and returns bytes as it likes, with a bounded
      queue and partial writes.
    - [UdpGcm] ([maho-net/src/udp_gcm.rs]): sealed datagrams, nonces, the replay
      window.
    - [HostSender] ([maho-host/src/session.rs], [UdpSender]): frames, audio and
      cursor updates cut into datagrams.
    - [Assembler] ([maho-app/src/media.rs]), [AudioReassembler] ([audio.rs]),
      [ReceiverStats] ([receiver_stats.rs], [latency.rs]): what the client makes
      of the datagrams.
    - [ClipboardImage] ([session_parity.rs], the host's [clipboard_image.rs]):
      images sent in pieces and reassembled at either end.
    - [ClientSession] ([maho-app/src/session.rs]): the client's state, its
      handling of every packet, and the checks on everything it sends.
    - [Pipeline]: the composition, from the host's [send_frame] to the event
      the client's application receives.
    - [Admission] ([tls_psk.rs]: [PskIdentity], [BootstrapLockout];
      [maho-host/src/session.rs]: [PairingStore], [current_psks]): who may
      connect, the lockout, and the two files of the store as the writes of
      each operation.
    - [Guests] ([maho-host/src/guests.rs]): the registry of connected guests, over
      a store of channels.
    - [HostState], [HostSession] ([maho-host/src/session.rs],
      [handle_connection]): the host's end of a session.  Its local variables are
      the record [HostSession]; its body is written in a monad with the exits
      [continue], [break] and [return Err]; what it does is a log of effects.
    - [HostSafety], [HostLiveness], [HostTermination], [HostSpeech]: what holds of
      every run of it, what a run reaches, when it ends, what it says.
    - [FrameQueue] ([maho-app/src/frame_queue.rs]): the queue between the receiver
      and the decoder.
    - [RelayProto] ([maho-proto/src/relay.rs]), [Relay] ([maho-relay/src/lib.rs]):
      the relay's frames and tokens, and its server: every socket is a task, the
      tasks interleave between any two accesses to the shared maps.

    - [Text], [Float]: the functions of the standard library on strings and on
      single-precision numbers (over [SpecFloat]) that the next files use.
    - [AgentInput] ([maho-app/src/agent_input.rs], [input.rs]): an agent's action as
      input events, and the tracker of what is held.
    - [AgentHttp], [AgentServer] ([maho-app/src/agent_server.rs]): the reading of a
      request; the server, whose connections, jobs and watchdog interleave.

    - [ClientStore], [StoreFile] ([maho-app/src/pairing.rs]): the records of the
      hosts a client is paired with, and the file that keeps them: each operation
      is a program of system calls, which interleave with those of other
      processes, fail, or are the last ones of a process that dies.

    - [ClientRuntime], [ClientConnect], [ClientSupervisor]
      ([maho-app/src/session.rs]): the slots through which the runtime hands its
      events on; connecting, pairing, the handshake, the relay fallback and
      disconnecting, in a monad with errors over an environment; the thread that
      owns the connection and the one that connects again.
    - [ClientSafety], [ClientReconnect]: what holds of them, in every environment.

    - [RelayBridge] ([maho-app/src/relay.rs], [maho-host/src/relay.rs]): the relay's
      two clients, whose loops take their arms in any order, and the tunnel they
      make with [Relay].
    - [HostServer] ([maho-host/src/session.rs]): the accept loop, the threads of
      the connections and their watchdogs, in any order.
    - [Stun], [Signaling] ([maho-net/src/stun.rs], [signaling.rs]): how an end finds
      its public address and its peer.
    - [AudioQueue] ([maho-render/src/audio.rs]), [Touch]
      ([maho-mobile/src/touch.rs]): the client's audio output and touch gestures.
    - [NativePipeline] ([maho-host/src/native_pipeline.rs]): the hand-off between the
      host's capture, session and encoder threads, and its newest audio block.
    - [DesktopMedia], [DesktopAudio], [HostList]
      ([tauri-shell/src-tauri/src/lib.rs], [hidden_hosts.rs],
      [maho-app/src/error.rs]): the desktop client around the library: its decoder
      thread and frames, its audio device, its list of hosts, and how it connects.

    ** How the code is modelled

    Integers are [Z] with the wrap-around, saturation or check of the source
    written out; bytes are [Byte.byte]; a [f32] field is its 32 bits; a string
    is its UTF-8 bytes.  [Instant] and [Duration] are [Z] (nanoseconds, and
    instants on one clock).  [Result] is [result], a method that changes [self]
    returns the new state, and a method that takes a lock is one step.
    Hash maps and B-tree maps are [gmap], iterated in key order where the
    source iterates a B-tree.  Definitions have the names of the code; where
    one function of the code is several definitions (a loop, an early return
    in the middle), the doc comments say so.

    The host's session asks the outside for clock readings, packets, answers of
    the user, the injector, the store: each answer is a function of the number
    of questions asked before ([HostEnv], and [ClientEnv] for the client), so that two readings may differ and
    other threads may have changed the store or the policy in between.  A
    theorem that holds for every environment holds for every such behaviour.

    Code outside the repository is a parameter: the AEAD ([encrypt], [decrypt]),
    HKDF, the TLS session (a function that answers each read and write), the
    socket, the clocks, the PNG decoders.  What is assumed of it are named
    hypotheses: [aead_lengths] and [aead_inverse] (AES-256-GCM keeps lengths,
    has a 16-byte tag, and decrypts what it encrypted), and for the TLS session
    that it accepts at most what it is offered.  Each theorem that uses them
    has a witness with a concrete function.

    ** What the theorems show

    - The host's session, whatever the peer and the outside do: nothing is
      served before a pairing was found or granted whose identity the connection
      was made with ([host_admits_only_paired]); input is injected and clipboard
      data exchanged only under the permissions in force, which are within the
      host's policy ([host_acts_only_as_permitted]); what the peer holds is
      released when it loses the permission and when the session ends
      ([host_releases_input]).  A paired device whose host works is served
      ([paired_device_is_served]); a session whose peer is silent ends
      ([silent_session_ends]); the host sends only what the peer announced to
      understand ([host_says_what_peer_understands]).
    - The relay: sessions are isolated from each other, in every interleaving
      ([relay_isolates_sessions]), connected ends exchange frames
      ([relay_forwards_both_ways]), connects are limited ([connects_rate_limited]),
      tokens are compared exactly ([token_comparison_exact]).  With its two clients
      it is a tunnel: packets come out as they went in ([relay_is_a_tunnel]), and
      neither bridge invents any ([client_bridge_faithful]).
    - The host's server: its connections are bounded and counted
      ([connections_are_bounded]); its watchdog aborts exactly the sessions that
      stall ([watchdog_aborts_stalled]).
    - The host's encoder is given the newest frame, with every key frame request and the
      last bitrate ([encoder_gets_newest]), and goes on ([pipeline_progresses]); a
      revoked audio permission silences the session for good
      ([audio_ends_when_revoked]).
    - The desktop client feeds its decoder what it can decode
      ([codec_gets_decodable_frames]) and ends when it is told to
      ([media_pipeline_ends]); frames are framed as the webview reads them
      ([frame_buffer_framed]); what a device plays is what was selected
      ([desktop_audio_plays_selected]); its list of hosts is exact
      ([merged_hosts_exact]); connecting leaves one session or none
      ([connect_leaves_one_session]).
    - An end finds its address from any well-formed answer of the server
      ([stun_finds_address]), and only from the server ([stun_answer_authentic]); two
      ends with one PIN learn each other's candidates ([candidates_cross]).
    - The agent server: in every interleaving, whatever is held down is on record
      unless a release and a reset were both refused ([held_inputs_recorded]);
      nothing is sent after a disconnect was announced ([disconnect_is_final]) nor
      for a request without the token ([inputs_are_authorized]); connections and
      jobs are bounded ([agent_load_bounded]).  A request is read and taken apart
      however it arrives ([request_read_in_any_chunks], [request_parts_agree]); an
      agent's pointer stays on the screen ([agent_pointer_on_screen]); four
      characters are lost ([text_drops_four_characters]).
    - The frame queue: what the decoder is given can be decoded
      ([decoder_gets_decodable_frames]), a loss costs one request
      ([key_frame_requested_once]).
    - The client's connection: a session is ready only with a host that proved to
      hold the key of its pairing, and as that host and its user agreed
      ([client_ready_is_authenticated]); only pairings the host granted are kept
      ([only_authorized_pairings_stored]); connecting returns, and a failure spares
      the session that runs ([connect_returns_and_spares]); a disconnect leaves
      nothing ([disconnect_is_complete]).  A lost connection is made again when the
      error allows it, and the consumer learns when not ([recover_outcome]), within
      ten attempts and a minute ([reconnection_bounded]); a runtime told to stop ends
      ([runtime_stops]); its events arrive as they were promised
      ([runtime_events_delivered]).
    - The client's pairing store: whatever interleaves, fails or dies, the file
      holds the result of the writes one after the other
      ([pairing_store_serializable]); what was saved is found
      ([saved_pairing_found]).
    - Admission: the identities offered are the authorized ones
      ([psk_identities_authorized]), a guest is never promoted, wherever an
      operation of the store stops ([guest_never_promoted]), five failures lock
      the bootstrap path ([bootstrap_locks_after_five]); the registry delivers
      every command to the sessions it is meant for ([registry_refines_inboxes]).
    - Wire format: decoders accept exactly the encodings of well-formed values
      ([packet_header_wire_format], [handshake_wire_format],
      [frame_header_wire_format], [control_message_canonical]), encoding and
      decoding are inverse ([control_message_round_trips],
      [gamepad_events_round_trip]) and limits hold of what was decoded
      ([clipboard_chunk_in_bounds]); messages are gated by negotiated
      capabilities ([control_capability_gating]).
    - The TCP channel: however bytes are cut, the frames and messages sent
      arrive ([framing_chunking_invariant], [framing_push_refines_stream],
      [framing_invalid_length_resets], [control_channel_delivers]); the TLS
      stream writes the admitted frames in order, within its bounds
      ([tls_stream_writes_admitted_frames], [tls_stream_queue_bounds],
      [tls_stream_end_to_end]).
    - Datagrams: the bitmap window refines the set of accepted counters
      ([replay_window_refines_spec], [replay_never_twice]), nothing is delivered
      twice or altered ([datagrams_delivered_once]), nonces are unique
      ([seal_nonces_distinct]), and every datagram fits its budget
      ([sender_datagram_budget]).
    - Media: memory is bounded ([assembler_stays_bounded]), nothing is invented
      ([assembler_returns_sent_chunks], [audio_returns_sent_fragments]), order
      of arrival does not matter ([frame_delivered_in_any_order]), losses are
      counted exactly ([loss_counts_exact]); and, end to end, the client
      is handed the host's frame exactly once if its packets arrive, in any
      order and with duplicates ([host_frame_reaches_client]).
    - Sessions: only permitted data is sent ([session_sends_only_permitted]),
      revocations take effect ([clipboard_revocation_drops_images],
      [revoked_input_is_reset]), the end of a session is final
      ([session_end_is_final]).
    - Clipboard images arrive intact and within bounds
      ([host_receives_image], [client_receives_image], [host_image_bounded]).
    - The audio queue is a bounded queue of stereo frames
      ([audio_queue_refines_frames]); no sequence of touches leaves the host's
      mouse button down ([touch_never_sticks]).
    - One theorem states a defect: audio stops when its frame numbers wrap
      ([audio_stops_at_wrap]).

    ** Fuel and bounds

    The loop of [TcpFrameReader::push] has the length of its buffer as fuel
    (every turn consumes at least five bytes); the loops of the TLS stream have
    the length of what is left to write or read.  The lemmas of those files
    show the fuel is never exhausted.  The client's wait for a connection has a slice
    of 25 ms as a turn, its reconnection eleven delays as fuel, which are longer than
    its minute ([connect_returns_and_spares], [recover_outcome]).  Eleven polls are
    enough for an exchange of candidates, whose deadline is ten seconds.  [host_frame_reaches_client] is stated for frames of at most
    4094 chunks, so that the packets of a frame fit the replay window of 4096.

    ** What is not modelled

    The reactors, the host's sender thread, the builds for Windows and macOS of
    the host's session, operating-system capture, encoding, rendering, input
    injection and storage, discovery, the MCP server, the iOS shell and what the desktop
    shell has beside connection, host list, media and audio.  Trace logs are not state and are left out.
    Where a method of the client session releases its lock between two parts,
    the interleavings with other threads are not modelled. *)

From stdpp Require Export base tactics numbers list option strings gmap fin_maps.
From Stdlib Require Export ZArith Lia.
From Stdlib Require Export NArith Strings.Byte.

#[export] Set Default Goal Selector "!".

Open Scope Z_scope.

(** ** Results *)

(** Rust's [Result<A, E>]. *)
Inductive result (E A : Type) : Type :=
| Ok (a : A)
| Err (e : E).
Arguments Ok {E A} a.
Arguments Err {E A} e.

#[export] Instance result_ret E : MRet (result E) := fun A a => Ok a.
#[export] Instance result_bind E : MBind (result E) :=
  fun A B f r => match r with Ok a => f a | Err e => Err e end.
#[export] Instance result_fmap E : FMap (result E) :=
  fun A B f r => match r with Ok a => Ok (f a) | Err e => Err e end.

(** [is_ok], as a boolean the code branches on. *)
Definition result_is_ok {E A} (r : result E A) : bool :=
  match r with Ok _ => true | Err _ => false end.

(** [Result::map_err]. *)
Definition map_err {E F A} (f : E -> F) (r : result E A) : result F A :=
  match r with Ok a => Ok a | Err e => Err (f e) end.

(** [Option::ok_or]. *)
Definition ok_or {E A} (o : option A) (e : E) : result E A :=
  match o with Some a => Ok a | None => Err e end.

(** ** Machine integers

    An unsigned [w]-bit integer is a [Z] in [0, 2^w); arithmetic that the
    source wraps is written with its [mod]. *)

Definition u8_ok (v : Z) : Prop := 0 <= v < 256.
Definition u16_ok (v : Z) : Prop := 0 <= v < 65536.
Definition u32_ok (v : Z) : Prop := 0 <= v < 4294967296.
Definition u64_ok (v : Z) : Prop := 0 <= v < 18446744073709551616.
Definition i32_ok (v : Z) : Prop := -2147483648 <= v < 2147483648.

#[export] Instance u8_ok_dec v : Decision (u8_ok v).
Proof. unfold u8_ok; apply _. Defined.
#[export] Instance u16_ok_dec v : Decision (u16_ok v).
Proof. unfold u16_ok; apply _. Defined.
#[export] Instance u32_ok_dec v : Decision (u32_ok v).
Proof. unfold u32_ok; apply _. Defined.
#[export] Instance u64_ok_dec v : Decision (u64_ok v).
Proof. unfold u64_ok; apply _. Defined.
#[export] Instance i32_ok_dec v : Decision (i32_ok v).
Proof. unfold i32_ok; apply _. Defined.

Definition U8_MAX : Z := 255.
Definition U16_MAX : Z := 65535.
Definition U32_MAX : Z := 4294967295.
Definition U64_MAX : Z := 18446744073709551615.

(** [u32::wrapping_add], [u32::wrapping_sub]. *)
Definition wrapping_add32 (a b : Z) : Z := (a + b) mod 4294967296.
Definition wrapping_sub32 (a b : Z) : Z := (a - b) mod 4294967296.

(** [saturating_sub] and [saturating_add] at 64 bits. *)
Definition saturating_sub64 (a b : Z) : Z := Z.max 0 (a - b).
Definition saturating_add64 (a b : Z) : Z := Z.min U64_MAX (a + b).

(** [u64::checked_add]. *)
Definition checked_add64 (a b : Z) : option Z :=
  if a + b <=? U64_MAX then Some (a + b) else None.

(** An [Instant] is a number of nanoseconds on one monotonic clock; a
    [Duration] is a non-negative number of nanoseconds. *)
Abbreviation Instant := Z (only parsing).
Abbreviation Duration := Z (only parsing).
Definition from_secs (s : Z) : Duration := s * 1000000000.
Definition from_millis (s : Z) : Duration := s * 1000000.

(** [Instant::saturating_duration_since], [checked_duration_since]. *)
Definition saturating_duration_since (later earlier : Instant) : Duration :=
  Z.max 0 (later - earlier).
Definition checked_duration_since (later earlier : Instant) : option Duration :=
  if earlier <=? later then Some (later - earlier) else None.

(** [slice.len()] as a machine integer. *)
Definition len {A} (l : list A) : Z := Z.of_nat (length l).

(** ** Bytes *)

Definition byte_to_Z (b : byte) : Z := Z.of_N (Byte.to_N b).
Definition Z_to_byte (z : Z) : byte :=
  match Byte.of_N (Z.to_N (z mod 256)) with Some b => b | None => Byte.x00 end.

#[export] Instance byte_eq_dec : EqDecision byte := Byte.byte_eq_dec.
(** Bytes as keys of maps. *)
#[export] Instance byte_countable : Countable byte.
Proof.
  refine (inj_countable Byte.to_N Byte.of_N _). intros b. apply Byte.of_to_N.
Defined.

(** Little-endian ([to_le_bytes]/[from_le_bytes]) and big-endian codings. *)
Fixpoint le_bytes (n : nat) (z : Z) : list byte :=
  match n with
  | O => []
  | S n => Z_to_byte z :: le_bytes n (z / 256)
  end.

Fixpoint le_value (bs : list byte) : Z :=
  match bs with
  | [] => 0
  | b :: bs => byte_to_Z b + 256 * le_value bs
  end.

Definition be_bytes (n : nat) (z : Z) : list byte := rev (le_bytes n z).
Definition be_value (bs : list byte) : Z := le_value (rev bs).

(** [output[start..start + src.len()].copy_from_slice(src)] on a buffer that
    is long enough. *)
Definition copy_into (output : list byte) (start : nat) (src : list byte) : list byte :=
  take start output ++ src ++ drop (start + length src) output.

(** A string literal as its bytes ([b"..."], [str::as_bytes]). *)
Definition str_bytes (s : string) : list byte := String.list_byte_of_string s.

(** ** UTF-8

    [std::str::from_utf8] accepts exactly the well-formed byte sequences of
    the Unicode standard (table 3-7): no overlong forms, no surrogates,
    nothing above U+10FFFF. *)
Definition is_cont (b : byte) : bool :=
  (128 <=? byte_to_Z b) && (byte_to_Z b <=? 191).

Definition byte_in (lo hi : Z) (b : byte) : bool :=
  (lo <=? byte_to_Z b) && (byte_to_Z b <=? hi).

Fixpoint utf8_valid (bs : list byte) : bool :=
  match bs with
  | [] => true
  | b0 :: r0 =>
    if byte_in 0 127 b0 then utf8_valid r0
    else match r0 with
    | [] => false
    | b1 :: r1 =>
      if byte_in 194 223 b0 then is_cont b1 && utf8_valid r1
      else match r1 with
      | [] => false
      | b2 :: r2 =>
        if byte_in 224 239 b0 then
          (if byte_to_Z b0 =? 224 then byte_in 160 191 b1
           else if byte_to_Z b0 =? 237 then byte_in 128 159 b1
           else is_cont b1)
          && is_cont b2 && utf8_valid r2
        else match r2 with
        | [] => false
        | b3 :: r3 =>
          if byte_in 240 244 b0 then
            (if byte_to_Z b0 =? 240 then byte_in 144 191 b1
             else if byte_to_Z b0 =? 244 then byte_in 128 143 b1
             else is_cont b1)
            && is_cont b2 && is_cont b3 && utf8_valid r3
          else false
        end
      end
    end
  end.

(** A Rust [String] is its bytes together with UTF-8 validity, which the
    [_wf] predicates of the components carry. *)
Abbreviation rstring := (list byte) (only parsing).

(** ** Tactics *)

(** The limits and constants of the source, unfolded before linear arithmetic. *)
Create HintDb limits.

(** Unfolds the width predicates and the limits before linear arithmetic. *)
Ltac width_lia :=
  try autounfold with limits in *;
  unfold u8_ok, u16_ok, u32_ok, u64_ok, i32_ok, U8_MAX, U16_MAX, U32_MAX, U64_MAX,
    wrapping_add32, wrapping_sub32, saturating_sub64, saturating_add64,
    saturating_duration_since, from_secs, from_millis in *; lia.

(** Turns the boolean tests of the code into propositions. *)
Ltac bool_prop :=
  repeat match goal with
  | H : (_ && _) = true |- _ => apply andb_true_iff in H as [? ?]
  | H : (_ || _) = false |- _ => apply orb_false_iff in H as [? ?]
  | H : (_ || _) = true |- _ => apply orb_true_iff in H
  | H : (_ && _) = false |- _ => apply andb_false_iff in H
  | H : negb _ = true |- _ => apply negb_true_iff in H
  | H : negb _ = false |- _ => apply negb_false_iff in H
  | H : (_ <? _) = true |- _ => apply Z.ltb_lt in H
  | H : (_ <? _) = false |- _ => apply Z.ltb_ge in H
  | H : (_ <=? _) = true |- _ => apply Z.leb_le in H
  | H : (_ <=? _) = false |- _ => apply Z.leb_gt in H
  | H : (_ =? _) = true |- _ => apply Z.eqb_eq in H
  | H : (_ =? _) = false |- _ => apply Z.eqb_neq in H
  | H : bool_decide _ = true |- _ => apply bool_decide_eq_true in H
  | H : bool_decide _ = false |- _ => apply bool_decide_eq_false in H
  end.

(** Splits on the test of an [if] or the scrutinee of a [match] in the goal,
    keeping the equation. *)
Ltac case_if :=
  match goal with
  | |- context [if ?b then _ else _] =>
      lazymatch type of b with bool => destruct b eqn:? | _ => destruct b end
  end; bool_prop.

Ltac case_if_in H :=
  match type of H with
  | context [if ?b then _ else _] =>
      lazymatch type of b with bool => destruct b eqn:? | _ => destruct b end
  end; bool_prop.

(** Injectivity of [Ok] without reducing the values. *)
Lemma Ok_inj {E A} (a b : A) : @Ok E A a = Ok b -> a = b.
Proof. congruence. Qed.

(** Peels a successful monadic computation [H : (m ≫= k) = Ok v]. *)
Ltac inv_result H :=
  repeat match type of H with
  | mbind _ ?m = Ok _ =>
      let r := fresh "r" in
      let E := fresh "E" in
      destruct m as [r|r] eqn:E; cbn in H; [|discriminate H]
  end.

(** ** Lists and lengths *)

Create HintDb maho discriminated.
Create Rewrite HintDb len.

Lemma len_nonneg {A} (l : list A) : 0 <= len l.
Proof. unfold len; lia. Qed.

Lemma len_nil {A} : len (@nil A) = 0.
Proof. done. Qed.

Lemma len_cons {A} (x : A) l : len (x :: l) = 1 + len l.
Proof. unfold len; cbn [length]; lia. Qed.

Lemma len_app {A} (l k : list A) : len (l ++ k) = len l + len k.
Proof. unfold len; rewrite length_app; lia. Qed.

Lemma len_take {A} (l : list A) n : len (take n l) = Z.min (Z.of_nat n) (len l).
Proof. unfold len; rewrite length_take; lia. Qed.

Lemma len_drop {A} (l : list A) n : len (drop n l) = Z.max 0 (len l - Z.of_nat n).
Proof. unfold len; rewrite length_drop; lia. Qed.

Lemma len_fmap {A B} (f : A -> B) l : len (f <$> l) = len l.
Proof. unfold len; by rewrite length_fmap. Qed.

Lemma to_nat_len {A} (l : list A) : Z.to_nat (len l) = length l.
Proof. unfold len; lia. Qed.

#[export] Hint Rewrite @len_nil @len_cons @len_app @len_take @len_drop @len_fmap : len.
#[export] Hint Resolve len_nonneg : maho.

(** Adds [0 <= len l] for the lengths of the goal and the hypotheses. *)
Ltac len_facts :=
  repeat match goal with
  | |- context [len ?l] =>
      lazymatch goal with H : 0 <= len l |- _ => fail | _ => pose proof (len_nonneg l) end
  | _ : context [len ?l] |- _ =>
      lazymatch goal with H : 0 <= len l |- _ => fail | _ => pose proof (len_nonneg l) end
  end.

(** Two lists with a common concatenation and equally long heads. *)
Lemma app_inv_len {A} (a b c d : list A) :
  a ++ b = c ++ d -> len a = len c -> a = c /\ b = d.
Proof. unfold len; intros E L. apply app_inj_1 in E; [done | lia]. Qed.

(** ** Byte and integer codings *)

Lemma byte_to_Z_range b : 0 <= byte_to_Z b < 256.
Proof. destruct b; vm_compute; split; congruence. Qed.

Lemma Z_to_byte_to_Z b : Z_to_byte (byte_to_Z b) = b.
Proof. destruct b; reflexivity. Qed.

Lemma byte_to_Z_to_byte z : byte_to_Z (Z_to_byte z) = z mod 256.
Proof.
  unfold Z_to_byte, byte_to_Z. pose proof (Z.mod_pos_bound z 256 ltac:(lia)).
  destruct (Byte.of_N (Z.to_N (z mod 256))) as [b|] eqn:E.
  - apply Byte.to_of_N in E. rewrite E. lia.
  - apply Byte.of_N_None_iff in E. lia.
Qed.

Lemma byte_to_Z_inj b c : byte_to_Z b = byte_to_Z c -> b = c.
Proof. intros E. by rewrite <- (Z_to_byte_to_Z b), E, Z_to_byte_to_Z. Qed.

Lemma le_bytes_length n z : length (le_bytes n z) = n.
Proof. revert z; induction n; intros z; cbn; [done | by rewrite IHn]. Qed.

Lemma len_le_bytes n z : len (le_bytes n z) = Z.of_nat n.
Proof. unfold len; by rewrite le_bytes_length. Qed.

Lemma le_value_le_bytes n z : le_value (le_bytes n z) = z mod 256 ^ Z.of_nat n.
Proof.
  revert z; induction n as [|n IH]; intros z.
  - cbn. by rewrite Z.mod_1_r.
  - cbn [le_bytes le_value]. rewrite IH, byte_to_Z_to_byte.
    replace (Z.of_nat (S n)) with (1 + Z.of_nat n) by lia.
    rewrite Z.pow_add_r, Z.pow_1_r by lia.
    rewrite Z.rem_mul_r; lia.
Qed.

Lemma le_bytes_le_value bs : le_bytes (length bs) (le_value bs) = bs.
Proof.
  induction bs as [|b bs IH]; [done|]. cbn [length le_value le_bytes].
  pose proof (byte_to_Z_range b). f_equal.
  - apply byte_to_Z_inj. rewrite byte_to_Z_to_byte.
    rewrite Z.mul_comm, Z.mod_add, Z.mod_small; lia.
  - rewrite (Z.mul_comm 256), Z.div_add, Z.div_small by lia. exact IH.
Qed.

Lemma le_value_range bs : 0 <= le_value bs < 256 ^ len bs.
Proof.
  induction bs as [|b bs IH]; [done|]. rewrite len_cons. cbn [le_value].
  pose proof (byte_to_Z_range b). rewrite Z.pow_add_r, Z.pow_1_r by (auto with maho lia).
  lia.
Qed.

Lemma le_value_le_bytes_small n z :
  0 <= z < 256 ^ Z.of_nat n -> le_value (le_bytes n z) = z.
Proof. intros. rewrite le_value_le_bytes. by apply Z.mod_small. Qed.

Lemma le_bytes_inj n a b :
  0 <= a < 256 ^ Z.of_nat n -> 0 <= b < 256 ^ Z.of_nat n ->
  le_bytes n a = le_bytes n b -> a = b.
Proof.
  intros Ha Hb E. apply (f_equal le_value) in E.
  by rewrite !le_value_le_bytes_small in E.
Qed.

Lemma be_value_be_bytes n z :
  0 <= z < 256 ^ Z.of_nat n -> be_value (be_bytes n z) = z.
Proof. intros. unfold be_value, be_bytes. rewrite rev_involutive. by apply le_value_le_bytes_small. Qed.

Lemma be_bytes_length n z : length (be_bytes n z) = n.
Proof. unfold be_bytes. by rewrite length_rev, le_bytes_length. Qed.

Lemma be_bytes_be_value bs : be_bytes (length bs) (be_value bs) = bs.
Proof.
  unfold be_bytes, be_value. rewrite <- (length_rev bs), le_bytes_le_value. apply rev_involutive.
Qed.

#[export] Hint Rewrite len_le_bytes : len.

Lemma le_bytes_mod n z : le_bytes n (z mod 256 ^ Z.of_nat n) = le_bytes n z.
Proof.
  rewrite <- le_value_le_bytes. rewrite <- (le_bytes_length n z) at 1. apply le_bytes_le_value.
Qed.

Lemma le_bytes_add n k z :
  le_bytes (n + k) z = le_bytes n z ++ le_bytes k (z / 256 ^ Z.of_nat n).
Proof.
  revert z. induction n as [|n IH]; intros z; cbn [Nat.add le_bytes app].
  - by rewrite Z.div_1_r.
  - rewrite IH, Z.div_div by lia. do 2 f_equal.
    rewrite Nat2Z.inj_succ, Z.pow_succ_r by lia. done.
Qed.

(** The first [n] bytes of a string are the coding of their value. *)
Lemma le_bytes_prefix n bs :
  Z.of_nat n <= len bs -> bs = le_bytes n (le_value (take n bs)) ++ drop n bs.
Proof.
  intros L. rewrite <- (take_drop n bs) at 1. f_equal. symmetry.
  rewrite <- (le_bytes_le_value (take n bs)) at 2. f_equal.
  rewrite length_take. unfold len in L. lia.
Qed.

Lemma exists_len {A} (a : A) n : 0 <= n -> exists l : list A, len l = n.
Proof. intros. exists (replicate (Z.to_nat n) a). unfold len. rewrite length_replicate. lia. Qed.

Lemma len_0_nil {A} (l : list A) : len l <= 0 -> l = [].
Proof. destruct l; [done|]. rewrite len_cons. pose proof (len_nonneg l). lia. Qed.

Lemma drop_len_app {A} (a b : list A) : drop (Z.to_nat (len a)) (a ++ b) = b.
Proof. rewrite to_nat_len. apply drop_app_length. Qed.

(** ** Modular arithmetic on 32-bit serial numbers *)

Lemma wrapping_sub32_range a b : u32_ok (wrapping_sub32 a b).
Proof. unfold u32_ok, wrapping_sub32. apply Z.mod_pos_bound; lia. Qed.

Lemma wrapping_add32_range a b : u32_ok (wrapping_add32 a b).
Proof. unfold u32_ok, wrapping_add32. apply Z.mod_pos_bound; lia. Qed.

#[export] Hint Resolve wrapping_sub32_range wrapping_add32_range byte_to_Z_range : maho.

(** ** Splitting a slice *)

(** [usize::div_ceil] and [slice::chunks], for a positive size. *)
Definition div_ceil (n k : Z) : Z := (n + k - 1) / k.
Fixpoint chunks_fuel (fuel : nat) (k : nat) (bytes : list byte) : list (list byte) :=
  match fuel, bytes with
  | S fuel, _ :: _ => take k bytes :: chunks_fuel fuel k (drop k bytes)
  | _, _ => []
  end.
Definition chunks (bytes : list byte) (k : Z) : list (list byte) :=
  chunks_fuel (length bytes) (Z.to_nat k) bytes.

Lemma chunks_fuel_spec fuel k bytes :
  (0 < k)%nat -> (length bytes <= fuel)%nat ->
  concat (chunks_fuel fuel k bytes) = bytes /\
  Forall (fun c => (1 <= length c <= k)%nat) (chunks_fuel fuel k bytes) /\
  Z.of_nat (length (chunks_fuel fuel k bytes)) = div_ceil (len bytes) (Z.of_nat k).
Proof.
  intros Hk. revert bytes. induction fuel as [|fuel IH]; intros bytes Hf.
  - apply Nat.le_0_r, nil_length_inv in Hf as ->. cbn. split_and!; [done..|].
    unfold div_ceil. change (len (@nil byte)) with 0. rewrite Z.div_small; lia.
  - destruct bytes as [|b bs]; cbn [chunks_fuel].
    { split_and!; [done..|]. unfold div_ceil. change (len (@nil byte)) with 0. rewrite Z.div_small; cbn; lia. }
    set (l := b :: bs) in *. assert (Hl : (1 <= length l)%nat) by (cbn; lia).
    destruct (IH (drop k l)) as (C & F & N); [rewrite length_drop; lia|].
    cbn [concat length]. rewrite C, take_drop. split_and!; [done| |].
    + constructor; [|done]. rewrite length_take. lia.
    + rewrite Nat2Z.inj_succ, N. unfold div_ceil, len. rewrite length_drop.
      destruct (le_lt_dec (length l) k) as [L|L].
      * replace (Z.of_nat (length l - k)) with 0 by lia. rewrite Z.div_small by lia.
        replace (Z.of_nat (length l) + Z.of_nat k - 1) with (Z.of_nat (length l) - 1 + 1 * Z.of_nat k) by lia.
        rewrite Z.div_add by lia. rewrite Z.div_small by lia. lia.
      * replace (Z.of_nat (length l) + Z.of_nat k - 1)
          with (Z.of_nat (length l - k) + Z.of_nat k - 1 + 1 * Z.of_nat k) by lia.
        rewrite Z.div_add by lia. lia.
Qed.

Lemma chunks_spec bytes k :
  0 < k ->
  concat (chunks bytes k) = bytes /\ Forall (fun c => 1 <= len c <= k) (chunks bytes k) /\
  len (chunks bytes k) = div_ceil (len bytes) k.
Proof.
  intros Hk. destruct (chunks_fuel_spec (length bytes) (Z.to_nat k) bytes) as (C & F & N); [lia..|].
  unfold chunks. split_and!; [done| |].
  - eapply Forall_impl; [exact F|]. cbn. unfold len. lia.
  - unfold len in *. rewrite N, Z2Nat.id by lia. done.
Qed.

Lemma div_ceil_bound n k : 0 <= n -> 0 < k -> n <= div_ceil n k * k /\ 0 <= div_ceil n k.
Proof.
  intros Hn Hk. unfold div_ceil. pose proof (Z.div_mod (n + k - 1) k ltac:(lia)).
  pose proof (Z.mod_pos_bound (n + k - 1) k Hk). split; [nia|]. apply Z.div_pos; lia.
Qed.

(** Every piece but the last has the full size. *)
Lemma chunks_fuel_prefix fuel k bytes pre rest :
  (0 < k)%nat -> (length bytes <= fuel)%nat -> chunks_fuel fuel k bytes = pre ++ rest -> rest <> [] ->
  length (concat pre) = (length pre * k)%nat.
Proof.
  intros Hk. revert bytes pre. induction fuel as [|fuel IH]; intros bytes pre Hf E Hr.
  - cbn in E. symmetry in E. apply app_nil in E as [-> ->]. done.
  - destruct bytes as [|b bs]; cbn [chunks_fuel] in E.
    { symmetry in E. apply app_nil in E as [-> ->]. done. }
    set (l := b :: bs) in *. destruct pre as [|p pre]; [done|].
    cbn [app] in E. injection E as Ep E. assert (Hl : (length l <= S fuel)%nat) by done.
    assert (Hd : (length (drop k l) <= fuel)%nat) by (rewrite length_drop; lia).
    specialize (IH (drop k l) pre Hd E Hr). cbn [concat length]. rewrite length_app, IH.
    enough (length p = k) by lia. rewrite <- Ep, length_take.
    enough (drop k l <> []) by (destruct (le_lt_dec (length l) k); [by rewrite drop_ge in H by lia | lia]).
    intros N. rewrite N in E. destruct fuel; cbn in E; symmetry in E; apply app_nil in E as [-> ->]; done.
Qed.

Lemma chunks_prefix bytes k pre rest :
  0 < k -> chunks bytes k = pre ++ rest -> rest <> [] -> len (concat pre) = len pre * k.
Proof.
  intros Hk E Hr. apply chunks_fuel_prefix in E; [|lia|lia|done]. unfold len. rewrite E. lia.
Qed.

#[global] Arguments le_bytes : simpl never.
#[global] Arguments le_value : simpl never.
#[global] Arguments utf8_valid : simpl never.
#[global] Arguments len : simpl never.
