(* ===== verification/Text.v ===== *)
(** * Strings

    What the code uses of [str] and [u8]: a string is its UTF-8 bytes, and
    these functions are those of the Rust standard library on the bytes of
    well-formed strings. *)

From S2P Require Import Prelude.

(** ** ASCII *)

Definition is_ascii_alphanumeric (b : byte) : bool := byte_in 48 57 b || byte_in 65 90 b || byte_in 97 122 b.
Definition is_ascii_hexdigit (b : byte) : bool := byte_in 48 57 b || byte_in 65 70 b || byte_in 97 102 b.
Definition to_ascii_lowercase (b : byte) : byte := if byte_in 65 90 b then Z_to_byte (byte_to_Z b + 32) else b.

Definition is_ascii_digit (b : byte) : bool := byte_in 48 57 b.
Definition is_ascii_uppercase (b : byte) : bool := byte_in 65 90 b.
Definition is_ascii_alphabetic (b : byte) : bool := byte_in 65 90 b || byte_in 97 122 b.
Definition to_ascii_uppercase (b : byte) : byte := if byte_in 97 122 b then Z_to_byte (byte_to_Z b - 32) else b.

Definition lowercase (s : rstring) : rstring := map to_ascii_lowercase s.
Definition eq_ignore_ascii_case (a b : rstring) : bool := bool_decide (lowercase a = lowercase b).

(** One of the literals of a pattern. *)
Definition one_of (s : rstring) (literals : list string) : bool :=
  existsb (fun l => bool_decide (s = str_bytes l)) literals.

(** ** Whitespace: the characters with the Unicode property White_Space *)

Definition ws1 (b : byte) : bool := byte_in 9 13 b || (byte_to_Z b =? 32).
Definition ws2 (b0 b1 : byte) : bool :=
  (byte_to_Z b0 =? 194) && ((byte_to_Z b1 =? 133) || (byte_to_Z b1 =? 160)).
Definition ws3 (b0 b1 b2 : byte) : bool :=
  let z1 := byte_to_Z b1 in let z2 := byte_to_Z b2 in
  match byte_to_Z b0 with
  | 225 => (z1 =? 154) && (z2 =? 128)
  | 226 => (z1 =? 128) && (byte_in 128 138 b2 || (z2 =? 168) || (z2 =? 169) || (z2 =? 175)) || (z1 =? 129) && (z2 =? 159)
  | 227 => (z1 =? 128) && (z2 =? 128)
  | _ => false
  end.

Fixpoint trim_start (s : rstring) : rstring :=
  match s with
  | b0 :: r0 =>
    if ws1 b0 then trim_start r0 else
    match r0 with
    | b1 :: r1 =>
      if ws2 b0 b1 then trim_start r1 else
      match r1 with
      | b2 :: r2 => if ws3 b0 b1 b2 then trim_start r2 else s
      | [] => s
      end
    | [] => s
    end
  | [] => s
  end.
(** The same on the reversed bytes. *)
Fixpoint trim_reversed (s : rstring) : rstring :=
  match s with
  | b0 :: r0 =>
    if ws1 b0 then trim_reversed r0 else
    match r0 with
    | b1 :: r1 =>
      if ws2 b1 b0 then trim_reversed r1 else
      match r1 with
      | b2 :: r2 => if ws3 b2 b1 b0 then trim_reversed r2 else s
      | [] => s
      end
    | [] => s
    end
  | [] => s
  end.
Definition trim (s : rstring) : rstring := rev (trim_reversed (rev (trim_start s))).

(** [split_whitespace]; [word] is the word so far. *)
Definition end_word (word : rstring) (rest : list rstring) : list rstring :=
  if len word =? 0 then rest else word :: rest.
Fixpoint words_from (word s : rstring) : list rstring :=
  match s with
  | b0 :: r0 =>
    if ws1 b0 then end_word word (words_from [] r0) else
    match r0 with
    | b1 :: r1 =>
      if ws2 b0 b1 then end_word word (words_from [] r1) else
      match r1 with
      | b2 :: r2 => if ws3 b0 b1 b2 then end_word word (words_from [] r2) else words_from (word ++ [b0]) r0
      | [] => words_from (word ++ [b0]) r0
      end
    | [] => words_from (word ++ [b0]) r0
    end
  | [] => end_word word []
  end.
Definition split_whitespace (s : rstring) : list rstring := words_from [] s.

(** ** Searching and splitting *)

Fixpoint starts_with (prefix s : rstring) : bool :=
  match prefix, s with
  | [], _ => true
  | p :: prefix, b :: s => bool_decide (p = b) && starts_with prefix s
  | _ :: _, [] => false
  end.
Definition strip_prefix_str (prefix s : rstring) : option rstring :=
  if starts_with prefix s then Some (drop (length prefix) s) else None.

(** The index of the first occurrence: [find], and [windows(n).position]. *)
Fixpoint find_str (pattern s : rstring) : option nat :=
  if starts_with pattern s then Some 0%nat
  else match s with [] => None | _ :: s => S <$> find_str pattern s end.
Definition contains_str (pattern s : rstring) : bool := bool_decide (is_Some (find_str pattern s)).

Definition split_once (separator : byte) (s : rstring) : option (rstring * rstring) :=
  i ← find_str [separator] s; Some (take i s, drop (S i) s).

Fixpoint split_from (separator : byte) (piece s : rstring) : list rstring :=
  match s with
  | [] => [piece]
  | b :: s =>
    if bool_decide (b = separator) then piece :: split_from separator [] s
    else split_from separator (piece ++ [b]) s
  end.
Definition split (separator : byte) (s : rstring) : list rstring := split_from separator [] s.

Definition LF : byte := Byte.x0a.
Definition CR : byte := Byte.x0d.

Definition strip_cr (line : rstring) : rstring :=
  match last line with Some b => if bool_decide (b = CR) then removelast line else line | None => line end.
(** [lines]: a line ends with a line feed, and a carriage return before it belongs
    to the end. *)
Fixpoint lines_from (line s : rstring) : list rstring :=
  match s with
  | [] => if len line =? 0 then [] else [line]
  | b :: s => if bool_decide (b = LF) then strip_cr line :: lines_from [] s else lines_from (line ++ [b]) s
  end.
Definition lines (s : rstring) : list rstring := lines_from [] s.

(** ** Numbers: [parse::<usize>] and [parse::<u64>] *)

Fixpoint digits_value (s : rstring) (value : Z) : option Z :=
  match s with
  | [] => Some value
  | b :: s => if is_ascii_digit b then digits_value s (10 * value + (byte_to_Z b - 48)) else None
  end.
Definition parse_u64 (s : rstring) : option Z :=
  let digits := match s with b :: rest => if byte_to_Z b =? 43 then rest else s | [] => s end in
  if len digits =? 0 then None
  else value ← digits_value digits 0; if value <=? U64_MAX then Some value else None.

(** ** Characters *)

(** [chars] of a well-formed string: its scalar values. *)
Definition cont_bits (b : byte) : Z := Z.land (byte_to_Z b) 63.
Fixpoint chars (s : rstring) : list Z :=
  match s with
  | [] => []
  | b0 :: r0 =>
    let z0 := byte_to_Z b0 in
    if z0 <? 128 then z0 :: chars r0 else
    match r0 with
    | [] => []
    | b1 :: r1 =>
      if z0 <? 224 then Z.lor (Z.shiftl (Z.land z0 31) 6) (cont_bits b1) :: chars r1 else
      match r1 with
      | [] => []
      | b2 :: r2 =>
        if z0 <? 240
        then Z.lor (Z.shiftl (Z.land z0 15) 12) (Z.lor (Z.shiftl (cont_bits b1) 6) (cont_bits b2)) :: chars r2 else
        match r2 with
        | [] => []
        | b3 :: r3 =>
          Z.lor (Z.shiftl (Z.land z0 7) 18)
            (Z.lor (Z.shiftl (cont_bits b1) 12) (Z.lor (Z.shiftl (cont_bits b2) 6) (cont_bits b3))) :: chars r3
        end
      end
    end
  end.
(** [encode_utf16] *)
Definition encode_utf16 (c : Z) : list Z :=
  if c <? 65536 then [c]
  else [Z.lor 55296 (Z.shiftr (c - 65536) 10); Z.lor 56320 (Z.land (c - 65536) 1023)].

(** ** [String::from_utf8_lossy] *)

(** U+FFFD. *)
Definition REPLACEMENT : rstring := [Byte.xef; Byte.xbf; Byte.xbd].

(** The second byte a lead byte of three, or four, allows. *)
Definition second3 (b0 b1 : byte) : bool :=
  match byte_to_Z b0 with
  | 224 => byte_in 160 191 b1
  | 237 => byte_in 128 159 b1
  | _ => is_cont b1
  end.
Definition second4 (b0 b1 : byte) : bool :=
  match byte_to_Z b0 with
  | 240 => byte_in 144 191 b1
  | 244 => byte_in 128 143 b1
  | _ => is_cont b1
  end.

(** A maximal prefix of a character that does not become one is replaced. *)
Fixpoint from_utf8_lossy (s : list byte) : rstring :=
  match s with
  | [] => []
  | b0 :: r0 =>
    if byte_in 0 127 b0 then b0 :: from_utf8_lossy r0
    else if byte_in 194 223 b0 then
      match r0 with
      | b1 :: r1 => if is_cont b1 then b0 :: b1 :: from_utf8_lossy r1 else REPLACEMENT ++ from_utf8_lossy r0
      | [] => REPLACEMENT
      end
    else if byte_in 224 239 b0 then
      match r0 with
      | b1 :: r1 =>
        if second3 b0 b1 then
          match r1 with
          | b2 :: r2 => if is_cont b2 then b0 :: b1 :: b2 :: from_utf8_lossy r2 else REPLACEMENT ++ from_utf8_lossy r1
          | [] => REPLACEMENT
          end
        else REPLACEMENT ++ from_utf8_lossy r0
      | [] => REPLACEMENT
      end
    else if byte_in 240 244 b0 then
      match r0 with
      | b1 :: r1 =>
        if second4 b0 b1 then
          match r1 with
          | b2 :: r2 =>
            if is_cont b2 then
              match r2 with
              | b3 :: r3 =>
                if is_cont b3 then b0 :: b1 :: b2 :: b3 :: from_utf8_lossy r3 else REPLACEMENT ++ from_utf8_lossy r2
              | [] => REPLACEMENT
              end
            else REPLACEMENT ++ from_utf8_lossy r1
          | [] => REPLACEMENT
          end
        else REPLACEMENT ++ from_utf8_lossy r0
      | [] => REPLACEMENT
      end
    else REPLACEMENT ++ from_utf8_lossy r0
  end.

(** * Lemmas *)

Lemma starts_with_app prefix s : starts_with prefix (prefix ++ s) = true.
Proof. induction prefix as [|p prefix IH]; cbn; [done|]. by rewrite bool_decide_true, IH. Qed.
Lemma starts_with_spec prefix s : starts_with prefix s = true <-> exists rest, s = prefix ++ rest.
Proof.
  split; [|intros [rest ->]; apply starts_with_app].
  revert s. induction prefix as [|p prefix IH]; intros s; [by exists s|]. destruct s as [|b s]; cbn; [done|].
  intros [->%bool_decide_eq_true E]%andb_true_iff. destruct (IH _ E) as [rest ->]. by exists rest.
Qed.

Lemma encode_utf16_len c : 1 <= len (encode_utf16 c) <= 2.
Proof. unfold encode_utf16. case_match; by vm_compute. Qed.

(** What is well-formed is copied. *)
Lemma from_utf8_lossy_app x : forall s, utf8_valid s = true -> from_utf8_lossy (s ++ x) = s ++ from_utf8_lossy x.
Proof.
  fix IH 1. intros [|b0 r0]; [done|]. unfold utf8_valid; fold utf8_valid. cbn [from_utf8_lossy app].
  destruct (byte_in 0 127 b0); [intros V; f_equal; by apply IH|].
  destruct r0 as [|b1 r1]; [done|]. cbn [app].
  destruct (byte_in 194 223 b0); [intros [-> V]%andb_true_iff; do 2 f_equal; by apply IH|].
  destruct r1 as [|b2 r2]; [done|]. cbn [app]. destruct (byte_in 224 239 b0) eqn:L3.
  - intros [[S2 C2]%andb_true_iff V]%andb_true_iff.
    assert (second3 b0 b1 = true) as ->.
    { revert S2. unfold second3. repeat case_match; try done; bool_prop; lia. }
    rewrite C2. do 3 f_equal. by apply IH.
  - destruct r2 as [|b3 r3]; [done|]. cbn [app]. destruct (byte_in 240 244 b0) eqn:L4; [|done].
    intros [[[S2 C2]%andb_true_iff C3]%andb_true_iff V]%andb_true_iff.
    assert (second4 b0 b1 = true) as ->.
    { revert S2. unfold second4. repeat case_match; try done; bool_prop; lia. }
    rewrite C2, C3. do 4 f_equal. by apply IH.
Qed.
Lemma from_utf8_lossy_valid s : utf8_valid s = true -> from_utf8_lossy s = s.
Proof. intros V. rewrite <- (app_nil_r s) at 1. by rewrite from_utf8_lossy_app, app_nil_r. Qed.
