(* ===== verification/Float.v ===== *)
(** * Floating point

    [f32] and [f64] as the Standard Library's [spec_float], the reference model
    of IEEE 754 binary formats (rounding to nearest, ties to even; no NaN
    payloads).  The wire formats hold an [f32] as its 32 bits; [f32_of_bits] and
    [f32_bits] go between the two.  Comparisons with NaN are false and [clamp],
    [min] and casts are those of Rust's standard library. *)

From Stdlib Require Import SpecFloat.
From S2P Require Import Prelude.

(** A binary format: its precision and its largest exponent. *)
Record format : Type := mkFormat { fmt_prec : Z; fmt_emax : Z }.
Definition binary32 : format := mkFormat 24 128.
Definition binary64 : format := mkFormat 53 1024.

Section Operations.

Context (f : format).

Definition fadd : spec_float -> spec_float -> spec_float := SFadd (fmt_prec f) (fmt_emax f).
Definition fsub : spec_float -> spec_float -> spec_float := SFsub (fmt_prec f) (fmt_emax f).
Definition fmul : spec_float -> spec_float -> spec_float := SFmul (fmt_prec f) (fmt_emax f).
Definition fdiv : spec_float -> spec_float -> spec_float := SFdiv (fmt_prec f) (fmt_emax f).

(** [n as f32], [n as f64] of an integer, and a literal [m * 2^e]. *)
Definition of_int (n : Z) : spec_float := binary_normalize (fmt_prec f) (fmt_emax f) n 0 false.
Definition literal (m e : Z) : spec_float := binary_normalize (fmt_prec f) (fmt_emax f) m e false.

(** A decimal literal [n/d], rounded once. *)
Definition decimal (n d : positive) : spec_float :=
  let '(m, e, l) := SFdiv_core_binary (fmt_prec f) (fmt_emax f) (Zpos n) 0 (Zpos d) 0 in
  binary_round_aux (fmt_prec f) (fmt_emax f) false m e l.

End Operations.

Definition is_nan (x : spec_float) : bool := match x with S754_nan => true | _ => false end.
Definition is_finite (x : spec_float) : bool :=
  match x with S754_zero _ | S754_finite _ _ _ => true | _ => false end.

(** [x.clamp(lo, hi)], [x.max(y)], [x.min(y)]. *)
Definition clamp (lo hi x : spec_float) : spec_float :=
  let x := if SFltb x lo then lo else x in
  if SFltb hi x then hi else x.
Definition fmax (x y : spec_float) : spec_float :=
  if is_nan x then y else if is_nan y then x else if SFltb x y then y else x.
Definition fmin (x y : spec_float) : spec_float :=
  if is_nan x then y else if is_nan y then x else if SFltb y x then y else x.

(** The integer part, towards zero; casts saturate, and NaN is 0. *)
Definition trunc (x : spec_float) : Z :=
  match x with
  | S754_finite s m e =>
    let v := if 0 <=? e then Zpos m * 2 ^ e else Zpos m / 2 ^ (- e) in
    if s then - v else v
  | _ => 0
  end.
Definition to_int (lo hi : Z) (x : spec_float) : Z :=
  match x with
  | S754_infinity s => if s then lo else hi
  | _ => Z.max lo (Z.min hi (trunc x))
  end.

(** The 32 bits of an [f32]; a NaN is the quiet one. *)
Definition f32_bits (x : spec_float) : Z :=
  let sign (s : bool) := if s then 2 ^ 31 else 0 in
  match x with
  | S754_zero s => sign s
  | S754_infinity s => sign s + 255 * 2 ^ 23
  | S754_nan => 255 * 2 ^ 23 + 2 ^ 22
  | S754_finite s m e =>
    if Zpos m <? 2 ^ 23 then sign s + Zpos m else sign s + (e + 150) * 2 ^ 23 + (Zpos m - 2 ^ 23)
  end.
Definition f32_of_bits (b : Z) : spec_float :=
  let s := Z.testbit b 31 in
  let exponent := Z.land (Z.shiftr b 23) 255 in
  let mantissa := Z.land b (2 ^ 23 - 1) in
  if exponent =? 0 then
    match mantissa with Zpos m => S754_finite s m (-149) | _ => S754_zero s end
  else if exponent =? 255 then (if mantissa =? 0 then S754_infinity s else S754_nan)
  else S754_finite s (Z.to_pos (mantissa + 2 ^ 23)) (exponent - 150).

Definition f32_0 : spec_float := S754_zero false.
Definition f32_1 : spec_float := literal binary32 1 0.

(** * Lemmas *)

Definition fle (x y : spec_float) : Prop := SFleb x y = true.

Lemma SFcompare_antisym x y : SFcompare y x = CompOpp <$> SFcompare x y.
Proof.
  destruct x as [s|s| |s m e], y as [s'|s'| |s' m' e']; cbn; try done; try (by destruct s); try (by destruct s');
    try (by destruct s, s'). 
  rewrite (Z.compare_antisym e e'). destruct (e ?= e')%Z; destruct s, s'; cbn; try done;
    rewrite (Pos.compare_cont_antisym m m' Eq); cbn; by rewrite ?CompOpp_involutive.
Qed.

Lemma SFcompare_nan x y : is_nan x = false -> is_nan y = false -> SFcompare x y <> None.
Proof. by destruct x, y. Qed.

Lemma fle_not_lt x y : is_nan x = false -> is_nan y = false -> SFltb x y = false -> fle y x.
Proof.
  intros Nx Ny L. unfold fle, SFleb, SFltb in *. rewrite SFcompare_antisym.
  pose proof (SFcompare_nan x y Nx Ny) as N. destruct (SFcompare x y) as [[]|]; done.
Qed.
Lemma fle_refl x : is_nan x = false -> fle x x.
Proof.
  intros N. unfold fle, SFleb. assert (E : SFcompare x x = Some Eq); [|by rewrite E].
  destruct x as [s|s| |s m e]; try done; cbn; [by destruct s|].
  rewrite Z.compare_refl, Pos.compare_cont_refl. by destruct s.
Qed.

(** [clamp] of a number is a number between the bounds. *)
Lemma clamp_range lo hi x :
  fle lo hi -> is_nan x = false -> is_nan lo = false -> is_nan hi = false ->
  is_nan (clamp lo hi x) = false /\ fle lo (clamp lo hi x) /\ fle (clamp lo hi x) hi.
Proof.
  intros LH Nx Nl Nh. unfold clamp. destruct (SFltb x lo) eqn:L.
  - destruct (SFltb hi lo) eqn:HL; split_and!; auto using fle_refl, fle_not_lt.
  - destruct (SFltb hi x) eqn:HX; split_and!; auto using fle_refl, fle_not_lt.
Qed.

(** ** Rounding never makes a NaN *)

Definition mrs_nonneg (r : shr_record) : Prop := 0 <= shr_m r.

Lemma shr_1_nonneg r : mrs_nonneg r -> mrs_nonneg (shr_1 r).
Proof. unfold mrs_nonneg. destruct r as [m r s]; cbn. by destruct m as [|[]|[]]; cbn; intros; try lia. Qed.
Lemma iter_pos_ind {A} (P : A -> Prop) (g : A -> A) n x : (forall y, P y -> P (g y)) -> P x -> P (SpecFloat.iter_pos g n x).
Proof. intros G. revert x. induction n; cbn; auto. Qed.
Lemma shr_nonneg r e n : mrs_nonneg r -> mrs_nonneg (shr r e n).1.
Proof. destruct n; cbn; auto. apply iter_pos_ind, shr_1_nonneg. Qed.
Lemma shr_fexp_nonneg p x m e l : 0 <= m -> mrs_nonneg (shr_fexp p x m e l).1.
Proof. intros M. apply shr_nonneg. unfold mrs_nonneg. by destruct l as [|[]]. Qed.
Lemma round_nearest_nonneg m l : 0 <= m -> 0 <= round_nearest_even m l.
Proof. intros M. destruct l as [|[]]; cbn; try case_match; lia. Qed.

Lemma binary_round_aux_nan p x s m e l : 0 <= m -> is_nan (binary_round_aux p x s m e l) = false.
Proof.
  intros M. unfold binary_round_aux. pose proof (shr_fexp_nonneg p x m e l M) as N1.
  destruct (shr_fexp p x m e l) as [r e1]. cbn in N1.
  pose proof (shr_fexp_nonneg p x _ e1 loc_Exact (round_nearest_nonneg _ (loc_of_shr_record r) N1)) as N2.
  destruct (shr_fexp p x _ e1 loc_Exact) as [r2 e2]. cbn in N2. unfold mrs_nonneg in N2.
  destruct (shr_m r2); try case_match; try done; lia.
Qed.
Lemma binary_normalize_nan p x m e s : is_nan (binary_normalize p x m e s) = false.
Proof.
  unfold binary_normalize, binary_round. destruct m; [done|..];
    destruct (shl_align _ _ _) as [mz ez]; by apply binary_round_aux_nan.
Qed.
Lemma of_int_nan f n : is_nan (of_int f n) = false.
Proof. apply binary_normalize_nan. Qed.

Lemma fdiv_nan f x y :
  is_nan x = false -> is_nan y = false -> (is_finite x || is_finite y) = true ->
  SFeqb y f32_0 = false -> is_nan (fdiv f x y) = false.
Proof.
  unfold fdiv. intros Nx Ny F Z.
  destruct x as [s|s| |s m e], y as [s'|s'| |s' m' e']; try done; try (by destruct s, s'). cbn.
  unfold SFdiv_core_binary. set (m1 := match _ with Z0 => _ | Zpos _ => _ | Zneg _ => _ end).
  pose proof (Z_div_mod m1 (Zpos m')) as D. destruct (Z.div_eucl m1 (Zpos m')) as [q r].
  apply binary_round_aux_nan. destruct D as [D R]; [done|].
  assert (0 <= m1) by (unfold m1; case_match; [done|by apply Z.shiftl_nonneg|done]). nia.
Qed.
Lemma fsub_nan f x y : is_nan x = false -> is_nan y = false -> (is_finite x || is_finite y) = true ->
  is_nan (fsub f x y) = false.
Proof.
  unfold fsub. intros Nx Ny F. destruct x as [s|s| |s m e], y as [s'|s'| |s' m' e']; try done; try (by destruct s, s').
  cbn. apply binary_normalize_nan.
Qed.

(** ** Positions in the unit square *)

Definition on_screen (pos : spec_float * spec_float) : Prop :=
  (fle f32_0 pos.1 /\ fle pos.1 f32_1) /\ (fle f32_0 pos.2 /\ fle pos.2 f32_1).

Lemma clamp_unit_range x : is_nan x = false -> fle f32_0 (clamp f32_0 f32_1 x) /\ fle (clamp f32_0 f32_1 x) f32_1.
Proof. intros N. by apply (clamp_range f32_0 f32_1 x). Qed.
Lemma finite_not_nan x : is_finite x = true -> is_nan x = false.
Proof. by destruct x. Qed.
