(* ===== verification/Codec.v ===== *)
(** * The codec kernel of maho-proto

    [clients/rust/maho-proto/src/error.rs] (the error type) and
    [clients/rust/maho-proto/src/codec.rs] (the bounded reader [Decoder] and
    the [push_*] writers).  A reader is a state-passing function that either
    fails with a [CodecError] or returns a value and the advanced decoder.

    The second half is the library every message file uses: [parses m G] says
    that the reader [m] accepts exactly the byte strings the grammar [G]
    relates to its result, whatever follows them, and [accepts m G] says the
    same of a reader that looks at the rest of the input.  Both are closed
    under [bind], so the theorem of a message is the composition of the lemmas
    of its fields, in both directions at once. *)

From S2P Require Import Prelude.

(** ** Errors (error.rs) *)

Inductive CodecError : Type :=
| Truncated (field : string) (needed remaining : Z)
| InvalidMagic (found : Z)
| UnknownPacketType (v : Z)
| UnsupportedVersion (v : Z)
| UnknownInputEventType (v : Z)
| UnknownControlMessageType (v : Z)
| UnknownPairingRejectReason (v : Z)
| UnknownStreamConfigurationErrorCode (v : Z)
| UnknownClipboardDirection (v : Z)
| UnknownClipboardOrigin (v : Z)
| UnknownColorRange (v : Z)
| UnknownColorMatrix (v : Z)
| UnknownChromaSubsampling (v : Z)
| InvalidUtf8 (field : string)
| InvalidLength (field : string) (actual expected : Z)
| LengthLimit (field : string) (actual max : Z)
| InvalidValue (field : string) (value : Z)
| TrailingBytes (field : string) (remaining : Z)
| InvalidFrameLength (v : Z)
| UnknownRelayChannel (v : Z).

(** [Result<A, CodecError>]. *)
Abbreviation cresult := (result CodecError).

(** ** The reader (codec.rs) *)

Record Decoder : Type := mkDecoder { dec_input : list byte; dec_offset : nat }.

Definition decoder (A : Type) : Type := Decoder -> cresult (A * Decoder).

#[export] Instance decoder_ret : MRet decoder := fun A a d => Ok (a, d).
#[export] Instance decoder_bind : MBind decoder :=
  fun A B f m d => match m d with Ok (a, d') => f a d' | Err e => Err e end.

(** [return Err(e)], and [?] on a result that does not read the input. *)
Definition dfail {A} (e : CodecError) : decoder A := fun _ => Err e.
Definition dlift {A} (r : cresult A) : decoder A :=
  fun d => match r with Ok a => Ok (a, d) | Err e => Err e end.

Definition Decoder_new (input : list byte) : Decoder := mkDecoder input 0.

Definition Decoder_remaining (d : Decoder) : Z :=
  len (dec_input d) - Z.of_nat (dec_offset d).

(** [decoder.remaining()] as a step of a reader. *)
Definition remaining : decoder Z := fun d => Ok (Decoder_remaining d, d).

Definition finish (field : string) : decoder unit :=
  fun d =>
    if Decoder_remaining d =? 0 then Ok (tt, d)
    else Err (TrailingBytes field (Decoder_remaining d)).

Definition take_bytes (length : Z) (field : string) : decoder (list byte) :=
  fun d =>
    if Decoder_remaining d <? length
    then Err (Truncated field length (Decoder_remaining d))
    else
      let start := dec_offset d in
      Ok (take (Z.to_nat length) (drop start (dec_input d)),
          mkDecoder (dec_input d) (start + Z.to_nat length)).

Definition take_remaining : decoder (list byte) :=
  fun d =>
    Ok (drop (dec_offset d) (dec_input d),
        mkDecoder (dec_input d) (length (dec_input d))).

Definition read_u8 (field : string) : decoder Z :=
  bytes ← take_bytes 1 field; mret (le_value bytes).

Definition read_u16 (field : string) : decoder Z :=
  bytes ← take_bytes 2 field; mret (le_value bytes).

Definition read_u32 (field : string) : decoder Z :=
  bytes ← take_bytes 4 field; mret (le_value bytes).

(** Two's complement reading of 32 bits. *)
Definition i32_of_u32 (v : Z) : Z := if v <? 2147483648 then v else v - 4294967296.
Definition u32_of_i32 (v : Z) : Z := v mod 4294967296.

Definition read_i32 (field : string) : decoder Z :=
  bytes ← take_bytes 4 field; mret (i32_of_u32 (le_value bytes)).

Definition read_u64 (field : string) : decoder Z :=
  bytes ← take_bytes 8 field; mret (le_value bytes).

(** An [f32] is kept as its bit pattern: [from_bits] and [to_bits] are the
    identity on it. *)
Definition read_f32 (field : string) : decoder Z :=
  bits ← read_u32 field; mret bits.

Definition read_utf8 (length : Z) (field : string) : decoder (list byte) :=
  bytes ← take_bytes length field;
  if utf8_valid bytes then mret bytes else dfail (InvalidUtf8 field).

(** Runs a reader on a whole input: the shape of every [decode]. *)
Definition run_decoder {A} (m : decoder A) (input : list byte) : cresult A :=
  match m (Decoder_new input) with Ok (a, _) => Ok a | Err e => Err e end.

(** [for _ in 0..count { push(read()?) }] *)
Fixpoint read_many {A} (count : nat) (m : decoder A) : decoder (list A) :=
  match count with
  | O => mret []
  | S count => x ← m; xs ← read_many count m; mret (x :: xs)
  end.

(** ** The writers (codec.rs) *)

Definition checked_bytes (value : rstring) (field : string) (max : Z) : cresult (list byte) :=
  if max <? len value then Err (LengthLimit field (len value) max) else Ok value.

Definition push_u8 (output : list byte) (value : Z) : list byte := output ++ le_bytes 1 value.
Definition push_u16 (output : list byte) (value : Z) : list byte := output ++ le_bytes 2 value.
Definition push_u32 (output : list byte) (value : Z) : list byte := output ++ le_bytes 4 value.
Definition push_i32 (output : list byte) (value : Z) : list byte :=
  output ++ le_bytes 4 (u32_of_i32 value).
Definition push_u64 (output : list byte) (value : Z) : list byte := output ++ le_bytes 8 value.
Definition push_f32 (output : list byte) (bits : Z) : list byte := push_u32 output bits.

Definition usize_to_u8 (value : Z) (field : string) : cresult Z :=
  if value <=? U8_MAX then Ok value else Err (LengthLimit field value U8_MAX).
Definition usize_to_u16 (value : Z) (field : string) : cresult Z :=
  if value <=? U16_MAX then Ok value else Err (LengthLimit field value U16_MAX).
Definition usize_to_u32 (value : Z) (field : string) : cresult Z :=
  if value <=? U32_MAX then Ok value else Err (LengthLimit field value U32_MAX).

(** [bool as u8]. *)
Definition bool_u8 (b : bool) : Z := if b then 1 else 0.

(** ** The codec interface ([trait WireCodec], lib.rs)

    [WireCodec] is the trait; [WireLaws] is what a component that sends and
    receives a message type relies on. *)
Class WireCodec (A : Type) : Type := {
  encode : A -> cresult (list byte);
  decode : list byte -> cresult A
}.

Class WireLaws (A : Type) {W : WireCodec A} : Type := {
  wire_wf : A -> Prop;
  wire_encode_total : forall v, wire_wf v -> exists bs, encode v = Ok bs;
  wire_round_trip : forall v bs, wire_wf v -> encode v = Ok bs -> decode bs = Ok v;
  wire_decode_wf : forall bs v, decode bs = Ok v -> wire_wf v
}.

(** A codec that accepts no second encoding of a value. *)
Class WireCanonical (A : Type) {W : WireCodec A} : Prop :=
  wire_canonical : forall bs (v : A), decode bs = Ok v -> encode v = Ok bs.

(** The encodings of well-formed values are at most [k] bytes long. *)
Class WireBounded (A : Type) {W : WireCodec A} {L : WireLaws A} (k : Z) : Prop :=
  wire_bounded : forall (v : A) bs, wire_wf v -> encode v = Ok bs -> len bs <= k.

(** The laws from the two facts proved of each message. *)
Definition wire_laws_of {A} {W : WireCodec A} (wf : A -> Prop) (bytes : A -> list byte)
    (encode_eq : forall v, wf v -> encode v = Ok (bytes v))
    (decode_iff : forall bs v, decode bs = Ok v <-> wf v /\ encode v = Ok bs) : WireLaws A.
Proof.
  refine {| wire_wf := wf |}.
  - intros v Hv. exists (bytes v). auto.
  - intros v bs Hv E. by apply decode_iff.
  - intros bs v E. by apply decode_iff in E as [? _].
Defined.

Lemma wire_canonical_of {A} {W : WireCodec A} (wf : A -> Prop)
    (decode_iff : forall bs v, decode bs = Ok v <-> wf v /\ encode v = Ok bs) : WireCanonical A.
Proof. intros bs v E. by apply decode_iff in E as [_ ?]. Qed.

(** ** Reader states *)

Definition dec_wf (d : Decoder) : Prop := (dec_offset d <= length (dec_input d))%nat.
Definition bytes_left (d : Decoder) : list byte := drop (dec_offset d) (dec_input d).
Definition advance (n : nat) (d : Decoder) : Decoder :=
  mkDecoder (dec_input d) (dec_offset d + n).

Lemma dec_wf_new input : dec_wf (Decoder_new input).
Proof. unfold dec_wf; cbn; lia. Qed.

Lemma bytes_left_new input : bytes_left (Decoder_new input) = input.
Proof. done. Qed.

Lemma remaining_left d : dec_wf d -> Decoder_remaining d = len (bytes_left d).
Proof. unfold dec_wf, Decoder_remaining, bytes_left. intros. rewrite len_drop. unfold len in *. lia. Qed.

Lemma bytes_left_advance n d : bytes_left (advance n d) = drop n (bytes_left d).
Proof. unfold bytes_left, advance; cbn. by rewrite drop_drop. Qed.

Lemma dec_wf_advance d bs rest :
  dec_wf d -> bytes_left d = bs ++ rest -> dec_wf (advance (length bs) d).
Proof.
  unfold dec_wf, bytes_left, advance; cbn. intros ? E.
  apply (f_equal length) in E. rewrite length_drop, length_app in E. lia.
Qed.

Lemma bytes_left_advance_app d bs rest :
  bytes_left d = bs ++ rest -> bytes_left (advance (length bs) d) = rest.
Proof. intros E. rewrite bytes_left_advance, E. apply drop_app_length. Qed.

Lemma advance_0 d : advance 0 d = d.
Proof. destruct d. unfold advance; cbn. by rewrite Nat.add_0_r. Qed.

Lemma advance_advance n k d : advance n (advance k d) = advance (k + n) d.
Proof. unfold advance; cbn. by rewrite Nat.add_assoc. Qed.

#[export] Hint Resolve dec_wf_new dec_wf_advance : maho.

(** ** Grammars *)

(** [m] succeeds on a decoder exactly when the rest of its input starts with a
    string of [G], and then consumes that string and nothing else. *)
Definition parses {A} (m : decoder A) (G : A -> list byte -> Prop) : Prop :=
  forall d, dec_wf d -> forall v d',
    m d = Ok (v, d') <->
    exists bs rest, bytes_left d = bs ++ rest /\ G v bs /\ d' = advance (length bs) d.

(** [m] succeeds on a decoder exactly when [G] holds of the whole rest. *)
Definition accepts {A} (m : decoder A) (G : A -> list byte -> Prop) : Prop :=
  forall d, dec_wf d -> forall v, (exists d', m d = Ok (v, d')) <-> G v (bytes_left d).

Lemma bind_run {A B} (m : decoder A) (k : A -> decoder B) d :
  (m ≫= k) d = match m d with Ok (a, d') => k a d' | Err e => Err e end.
Proof. done. Qed.

Lemma parses_ext {A} (m : decoder A) G H :
  parses m G -> (forall v bs, G v bs <-> H v bs) -> parses m H.
Proof.
  intros Pm E d Wd v d'. rewrite (Pm d Wd v d').
  split; intros (bs & rest & ? & ? & ?); exists bs, rest; rewrite ?E in *; naive_solver.
Qed.

Lemma accepts_ext {A} (m : decoder A) G H :
  accepts m G -> (forall v bs, G v bs <-> H v bs) -> accepts m H.
Proof. intros Am E d Wd v. rewrite (Am d Wd v). apply E. Qed.

Lemma parses_ret {A} (a : A) : parses (mret a) (fun v bs => v = a /\ bs = []).
Proof.
  intros d Wd v d'. cbn. split.
  - intros [= <- <-]. exists [], (bytes_left d). cbn. by rewrite advance_0.
  - intros (bs & rest & ? & [-> ->] & ->). cbn. by rewrite advance_0.
Qed.

Lemma parses_fail {A} e : parses (@dfail A e) (fun _ _ => False).
Proof. intros d Wd v d'. split; [done | naive_solver]. Qed.

Lemma parses_lift {A} (r : cresult A) : parses (dlift r) (fun v bs => r = Ok v /\ bs = []).
Proof. destruct r; [eapply parses_ext; [apply (parses_ret a)|] | eapply parses_ext; [apply parses_fail|]]; naive_solver. Qed.

Lemma parses_bind {A B} (m : decoder A) (k : A -> decoder B) G H :
  parses m G -> (forall v bs, G v bs -> parses (k v) (H v)) ->
  parses (m ≫= k) (fun w bs => exists v b1 b2, bs = b1 ++ b2 /\ G v b1 /\ H v w b2).
Proof.
  intros Pm Pk d Wd w d''. rewrite bind_run. split.
  - destruct (m d) as [[v d']|] eqn:Em; [|done]. intros Ek.
    apply (Pm d Wd) in Em as (b1 & r1 & E1 & G1 & ->).
    apply (Pk v b1 G1) in Ek as (b2 & r2 & E2 & G2 & ->); [|eauto with maho].
    rewrite (bytes_left_advance_app _ _ _ E1) in E2. subst r1.
    exists (b1 ++ b2), r2. rewrite E1, <- app_assoc, length_app, advance_advance. naive_solver.
  - intros (bs & rest & E & (v & b1 & b2 & -> & G1 & G2) & ->).
    rewrite <- app_assoc in E.
    assert (Em : m d = Ok (v, advance (length b1) d)) by (apply (Pm d Wd); eauto).
    rewrite Em. apply (Pk v b1 G1); [eauto with maho|].
    exists b2, rest. rewrite (bytes_left_advance_app _ _ _ E), length_app, advance_advance. done.
Qed.

Lemma parses_if {A} (b : bool) (m1 m2 : decoder A) G1 G2 :
  parses m1 G1 -> parses m2 G2 ->
  parses (if b then m1 else m2) (fun v bs => if b then G1 v bs else G2 v bs).
Proof. by destruct b. Qed.

Lemma accepts_bind {A B} (m : decoder A) (k : A -> decoder B) G H :
  parses m G -> (forall v bs, G v bs -> accepts (k v) (H v)) ->
  accepts (m ≫= k) (fun w bs => exists v b1 b2, bs = b1 ++ b2 /\ G v b1 /\ H v w b2).
Proof.
  intros Pm Ak d Wd w. rewrite bind_run. split.
  - intros [d'' Ek]. destruct (m d) as [[v d']|] eqn:Em; [|done].
    apply (Pm d Wd) in Em as (b1 & r1 & E1 & G1 & ->).
    exists v, b1, r1. split_and!; [done..|].
    rewrite <- (bytes_left_advance_app _ _ _ E1). eapply Ak; eauto with maho.
  - intros (v & b1 & b2 & E & G1 & G2).
    assert (Em : m d = Ok (v, advance (length b1) d)) by (apply (Pm d Wd); eauto).
    rewrite Em. eapply (Ak v b1 G1); [eauto with maho|]. by rewrite (bytes_left_advance_app _ _ _ E).
Qed.

Lemma accepts_ret {A} (a : A) : accepts (mret a) (fun v _ => v = a).
Proof. intros d Wd v. cbn. split; [by intros [? [= <- _]] | intros ->; eauto]. Qed.

Lemma accepts_lift {A} (r : cresult A) : accepts (dlift r) (fun v _ => r = Ok v).
Proof.
  intros d Wd v. unfold dlift. destruct r; split; naive_solver.
Qed.

Lemma accepts_fail {A} e : accepts (@dfail A e) (fun _ _ => False).
Proof. intros d Wd v. split; [by intros [??] | done]. Qed.

Lemma accepts_if {A} (b : bool) (m1 m2 : decoder A) G1 G2 :
  accepts m1 G1 -> accepts m2 G2 ->
  accepts (if b then m1 else m2) (fun v bs => if b then G1 v bs else G2 v bs).
Proof. by destruct b. Qed.

Lemma accepts_finish {A} field (k : unit -> decoder A) H :
  accepts (k tt) H ->
  accepts (finish field ≫= k) (fun w bs => bs = [] /\ H w []).
Proof.
  intros Ak d Wd w. rewrite bind_run. unfold finish.
  rewrite remaining_left by done. case_if.
  - assert (L : bytes_left d = []) by (apply nil_length_inv; unfold len in *; lia).
    rewrite (Ak d Wd w), L. naive_solver.
  - split; [by intros [??]|]. intros [E _]. by rewrite E in *.
Qed.

Lemma accepts_take_remaining {A} (k : list byte -> decoder A) H :
  (forall r, accepts (k r) (H r)) ->
  accepts (take_remaining ≫= k) (fun w bs => H bs w []).
Proof.
  intros Ak d Wd w. rewrite bind_run. unfold take_remaining.
  set (d' := mkDecoder _ _).
  assert (Wd' : dec_wf d') by (unfold dec_wf; cbn; lia).
  assert (L : bytes_left d' = []) by (unfold bytes_left; cbn; by rewrite drop_all).
  fold (bytes_left d). rewrite (Ak _ d' Wd' w), L. done.
Qed.

Lemma accepts_remaining {A} (k : Z -> decoder A) H :
  (forall r, accepts (k r) (H r)) ->
  accepts (remaining ≫= k) (fun w bs => H (len bs) w bs).
Proof.
  intros Ak d Wd w. rewrite bind_run. unfold remaining.
  rewrite remaining_left by done. apply Ak. done.
Qed.

Lemma run_accepts {A} (m : decoder A) G input v :
  accepts m G -> run_decoder m input = Ok v <-> G v input.
Proof.
  intros Am. rewrite <- (bytes_left_new input) at 2. rewrite <- (Am _ (dec_wf_new input) v).
  unfold run_decoder. destruct (m _) as [[w d']|]; split; naive_solver.
Qed.

(** *** The primitive readers *)

Lemma parses_take n field :
  0 <= n -> parses (take_bytes n field) (fun v bs => bs = v /\ len v = n).
Proof.
  intros Hn d Wd v d'. unfold take_bytes. rewrite remaining_left by done.
  fold (bytes_left d). case_if.
  - split; [done|]. intros (bs & rest & E & [-> L] & _).
    rewrite E, len_app in *. pose proof (len_nonneg rest). lia.
  - split.
    + intros [= <- <-]. exists (take (Z.to_nat n) (bytes_left d)), (drop (Z.to_nat n) (bytes_left d)).
      rewrite take_drop, len_take. split_and!; [done | done | lia |].
      unfold advance. rewrite length_take. f_equal. unfold len in *. lia.
    + intros (bs & rest & E & [-> L] & ->). rewrite E.
      replace (Z.to_nat n) with (length v) by (unfold len in L; lia).
      by rewrite take_app_length.
Qed.

Lemma parses_le {B} (n : nat) field (f : Z -> B) :
  parses (bytes ← take_bytes (Z.of_nat n) field; mret (f (le_value bytes)))
    (fun v bs => exists z, v = f z /\ 0 <= z < 256 ^ Z.of_nat n /\ bs = le_bytes n z).
Proof.
  eapply parses_ext.
  { eapply parses_bind; [apply parses_take; lia | intros; apply parses_ret]. }
  intros v bs; cbn. split.
  - intros (bytes & b1 & b2 & -> & [-> L] & -> & ->). rewrite app_nil_r.
    exists (le_value bytes). pose proof (le_value_range bytes) as R. rewrite L in R.
    split_and!; [done | lia.. |].
    rewrite <- (le_bytes_le_value bytes) at 1. f_equal. unfold len in L. lia.
  - intros (z & -> & R & ->). exists (le_bytes n z), (le_bytes n z), [].
    rewrite app_nil_r, len_le_bytes, le_value_le_bytes_small by done. done.
Qed.

Lemma parses_u8 field : parses (read_u8 field) (fun v bs => u8_ok v /\ bs = le_bytes 1 v).
Proof. eapply parses_ext; [apply (parses_le 1 field (fun z => z))|]. cbn. unfold u8_ok; naive_solver lia. Qed.

Lemma parses_u16 field : parses (read_u16 field) (fun v bs => u16_ok v /\ bs = le_bytes 2 v).
Proof. eapply parses_ext; [apply (parses_le 2 field (fun z => z))|]. cbn. unfold u16_ok; naive_solver lia. Qed.

Lemma parses_u32 field : parses (read_u32 field) (fun v bs => u32_ok v /\ bs = le_bytes 4 v).
Proof. eapply parses_ext; [apply (parses_le 4 field (fun z => z))|]. cbn. unfold u32_ok; naive_solver lia. Qed.

Lemma parses_u64 field : parses (read_u64 field) (fun v bs => u64_ok v /\ bs = le_bytes 8 v).
Proof. eapply parses_ext; [apply (parses_le 8 field (fun z => z))|]. cbn. unfold u64_ok; naive_solver lia. Qed.

Lemma parses_f32 field : parses (read_f32 field) (fun v bs => u32_ok v /\ bs = le_bytes 4 v).
Proof.
  eapply parses_ext; [eapply parses_bind; [apply parses_u32 | intros; apply parses_ret]|].
  cbn. intros v bs. split.
  - intros (? & ? & ? & -> & [? ->] & -> & ->). by rewrite app_nil_r.
  - intros [? ->]. exists v, (le_bytes 4 v), []. by rewrite app_nil_r.
Qed.

Lemma i32_u32_inverse v : i32_ok v -> i32_of_u32 (u32_of_i32 v) = v.
Proof.
  unfold i32_ok, i32_of_u32, u32_of_i32. intros.
  assert (v < 0 \/ 0 <= v) as [] by lia.
  - replace (v mod 4294967296) with (v + 4294967296)
      by (rewrite <- (Z.mod_add v 1) by lia; rewrite Z.mod_small; lia).
    case_if; lia.
  - rewrite Z.mod_small by lia. case_if; lia.
Qed.

Lemma u32_i32_inverse z : u32_ok z -> i32_ok (i32_of_u32 z) /\ u32_of_i32 (i32_of_u32 z) = z.
Proof.
  unfold u32_ok, i32_ok, i32_of_u32, u32_of_i32. intros. case_if.
  - rewrite Z.mod_small; lia.
  - replace (z - 4294967296) with (z + (-1) * 4294967296) by lia.
    rewrite Z.mod_add, Z.mod_small; lia.
Qed.

Lemma parses_i32 field :
  parses (read_i32 field) (fun v bs => i32_ok v /\ bs = le_bytes 4 (u32_of_i32 v)).
Proof.
  eapply parses_ext; [apply (parses_le 4 field i32_of_u32)|]. cbn. intros v bs. split.
  - intros (z & -> & ? & ->). destruct (u32_i32_inverse z) as [? ->]; [unfold u32_ok; lia|]. done.
  - intros [? ->]. exists (u32_of_i32 v). rewrite i32_u32_inverse by done.
    split_and!; [done|..|done]; unfold u32_of_i32; apply Z.mod_pos_bound; lia.
Qed.

Lemma parses_utf8 n field :
  0 <= n ->
  parses (read_utf8 n field) (fun v bs => bs = v /\ len v = n /\ utf8_valid v = true).
Proof.
  intros Hn. eapply parses_ext.
  { eapply parses_bind; [by apply parses_take|].
    intros. apply parses_if; [apply parses_ret | apply parses_fail]. }
  cbn. intros v bs. split.
  - intros (w & b1 & b2 & -> & [-> ?] & Hw). destruct (utf8_valid w) eqn:?; [|done].
    destruct Hw as [-> ->]. by rewrite app_nil_r.
  - intros (-> & ? & U). exists v, v, []. rewrite U, app_nil_r. done.
Qed.

Lemma parses_many {A} (m : decoder A) G n :
  parses m G ->
  parses (read_many n m)
    (fun vs bs => length vs = n /\ exists bss, bs = concat bss /\ Forall2 G vs bss).
Proof.
  intros Pm. induction n as [|n IH].
  - eapply parses_ext; [apply parses_ret|]. cbn. intros vs bs. split.
    + intros [-> ->]. split; [done|]. by exists [].
    + intros (L & bss & -> & F). apply nil_length_inv in L as ->. by inversion F.
  - eapply parses_ext.
    { eapply parses_bind; [exact Pm|]. intros v ? _.
      eapply parses_bind; [exact IH | intros; apply parses_ret]. }
    cbn. intros vs bs. split.
    + intros (v & b1 & b2 & -> & Gv & ws & b3 & b4 & -> & (L & bss & -> & F) & -> & ->).
      rewrite app_nil_r. cbn. split; [lia|]. exists (b1 :: bss). split; [done | by constructor].
    + intros (L & bss & -> & F). destruct vs as [|v vs]; [done|].
      inversion F as [|? b1 ? bss' Gv F']; subst. injection L as L.
      exists v, b1, (concat bss'). split_and!; [done..|].
      exists vs, (concat bss'), []. rewrite app_nil_r. split_and!; eauto.
Qed.

Create HintDb parses discriminated.
#[export] Hint Resolve parses_u8 parses_u16 parses_u32 parses_u64 parses_i32 parses_f32
  parses_ret parses_fail parses_lift : parses.

(** *** Prefix-freeness *)

(** No string of the grammar is a proper prefix of another. *)
Definition prefix_free {A} (G : A -> list byte -> Prop) : Prop :=
  forall v w bs t, G v bs -> G w (bs ++ t) -> t = [] /\ v = w.

(** Any reader of a grammar makes it prefix-free: it would otherwise have two
    results on one input. *)
Lemma parses_prefix_free {A} (m : decoder A) G : parses m G -> prefix_free G.
Proof.
  intros Pm v w bs t Gv Gw. set (d := Decoder_new (bs ++ t)).
  assert (E1 : m d = Ok (v, advance (length bs) d))
    by (apply Pm; [apply dec_wf_new | exists bs, t; done]).
  assert (E2 : m d = Ok (w, advance (length (bs ++ t)) d))
    by (apply Pm; [apply dec_wf_new | exists (bs ++ t), []; by rewrite app_nil_r]).
  rewrite E1 in E2. injection E2 as -> E2. split; [|done].
  cbn in E2. rewrite length_app in E2. apply nil_length_inv. lia.
Qed.

(** *** Readers with one encoding per value

    [parses_as m P e]: the value read satisfies [P] and was read from its
    encoding [e]. *)

Definition parses_as {A} (m : decoder A) (P : A -> Prop) (e : A -> list byte) : Prop :=
  parses m (fun v bs => P v /\ bs = e v).

Lemma as_u8 field : parses_as (read_u8 field) u8_ok (le_bytes 1).
Proof. apply parses_u8. Qed.
Lemma as_u16 field : parses_as (read_u16 field) u16_ok (le_bytes 2).
Proof. apply parses_u16. Qed.
Lemma as_u32 field : parses_as (read_u32 field) u32_ok (le_bytes 4).
Proof. apply parses_u32. Qed.
Lemma as_u64 field : parses_as (read_u64 field) u64_ok (le_bytes 8).
Proof. apply parses_u64. Qed.
Lemma as_f32 field : parses_as (read_f32 field) u32_ok (le_bytes 4).
Proof. apply parses_f32. Qed.
Lemma as_i32 field :
  parses_as (read_i32 field) i32_ok (fun v => le_bytes 4 (u32_of_i32 v)).
Proof. apply parses_i32. Qed.

Lemma as_ret {A} (a : A) : parses_as (mret a) (fun v => v = a) (fun _ => []).
Proof. apply parses_ret. Qed.

Lemma as_lift {A} (r : cresult A) : parses_as (dlift r) (fun v => r = Ok v) (fun _ => []).
Proof. apply parses_lift. Qed.

Lemma as_take n field :
  0 <= n -> parses_as (take_bytes n field) (fun v => len v = n) (fun v => v).
Proof. intros. eapply parses_ext; [by apply parses_take | cbn; naive_solver]. Qed.

Lemma as_utf8 n field :
  0 <= n ->
  parses_as (read_utf8 n field) (fun v => len v = n /\ utf8_valid v = true) (fun v => v).
Proof. intros. eapply parses_ext; [by apply parses_utf8 | cbn; naive_solver]. Qed.

(** Reading an enum: [T::try_from(decoder.u8(field)?)?]. *)
Definition read_enum {A} (try_from : Z -> cresult A) (field : string) : decoder A :=
  b ← read_u8 field; dlift (try_from b).

Lemma as_enum {A} (try_from : Z -> cresult A) (u8 : A -> Z) field :
  (forall v t, try_from v = Ok t <-> v = u8 t) -> (forall t, u8_ok (u8 t)) ->
  parses_as (read_enum try_from field) (fun _ => True) (fun t => le_bytes 1 (u8 t)).
Proof.
  intros Hf Hu. eapply parses_ext.
  { eapply parses_bind; [apply as_u8 | intros; apply as_lift]. }
  cbn beta. intros t bs. split.
  - intros (b & b1 & b2 & -> & [? ->] & E & ->). apply Hf in E as ->. done.
  - intros [_ ->]. exists (u8 t), (le_bytes 1 (u8 t)), [].
    split_and!; [done | apply Hu | done | by apply Hf | done].
Qed.

Lemma as_many {A} (m : decoder A) P e n :
  parses_as m P e ->
  parses_as (read_many n m) (fun vs => length vs = n /\ Forall P vs)
    (fun vs => concat (e <$> vs)).
Proof.
  intros Pm. eapply parses_ext; [by apply parses_many|]. cbn beta. intros vs bs.
  split.
  - intros (L & bss & -> & F).
    assert (Forall P vs /\ concat bss = concat (e <$> vs)) as [? ->]; [|done].
    clear L. induction F as [|v b vs bss [Pv ->] F [IHP IHe]]; [done|].
    cbn. rewrite IHe. auto.
  - intros [[L F] ->]. split; [done|]. exists (e <$> vs). split; [done|].
    clear L. induction F; cbn; constructor; auto.
Qed.

Lemma parses_bind_as {A B} (m : decoder A) (k : A -> decoder B) P e H :
  parses_as m P e -> (forall v, P v -> parses (k v) (H v)) ->
  parses (m ≫= k) (fun w bs => exists v b2, bs = e v ++ b2 /\ P v /\ H v w b2).
Proof.
  intros Pm Pk. eapply parses_ext; [apply parses_bind; [exact Pm | by intros ?? [? _]; apply Pk]|]. cbn. intros w bs. split.
  - intros (v & b1 & b2 & -> & [? ->] & ?). eauto.
  - intros (v & b2 & -> & ? & ?). exists v, (e v), b2. auto.
Qed.

Lemma accepts_bind_as {A B} (m : decoder A) (k : A -> decoder B) P e H :
  parses_as m P e -> (forall v, P v -> accepts (k v) (H v)) ->
  accepts (m ≫= k) (fun w bs => exists v b2, bs = e v ++ b2 /\ P v /\ H v w b2).
Proof.
  intros Pm Pk. eapply accepts_ext; [apply accepts_bind; [exact Pm | by intros ?? [? _]; apply Pk]|]. cbn. intros w bs. split.
  - intros (v & b1 & b2 & -> & [? ->] & ?). eauto.
  - intros (v & b2 & -> & ? & ?). exists v, (e v), b2. auto.
Qed.

Lemma parses_guard {A} (b : bool) e (m : decoder A) G :
  parses m G -> parses (if b then dfail e else m) (fun v bs => b = false /\ G v bs).
Proof. destruct b; intros Pm; [eapply parses_ext; [apply parses_fail|] | eapply parses_ext; [exact Pm|]]; naive_solver. Qed.

Lemma accepts_guard {A} (b : bool) e (m : decoder A) G :
  accepts m G -> accepts (if b then dfail e else m) (fun v bs => b = false /\ G v bs).
Proof. destruct b; intros Pm; [eapply accepts_ext; [apply accepts_fail|] | eapply accepts_ext; [exact Pm|]]; naive_solver. Qed.

#[export] Hint Resolve as_u8 as_u16 as_u32 as_u64 as_i32 as_f32 as_ret as_lift : parses.

(** *** Automation

    [solve_parses] builds the grammar of a reader from its steps, leaving the
    grammar as a nested existential; [grammar_fwd] takes such a hypothesis
    apart and [grammar_bwd] proves such a goal. *)

Ltac wire_nonneg := cbn beta in *; width_lia.

Ltac parses_step :=
  lazymatch goal with
  | |- forall _, _ => intros
  | |- parses_as (read_utf8 _ _) _ _ => apply as_utf8; wire_nonneg
  | |- parses_as (take_bytes _ _) _ _ => apply as_take; wire_nonneg
  | |- parses_as (read_many _ _) _ _ => apply as_many
  | |- parses_as _ _ _ => solve [eauto with parses nocore]
  | |- parses (mbind _ _) _ => eapply parses_bind_as
  | |- parses (if _ then dfail _ else _) _ => apply parses_guard
  | |- parses (if _ then _ else _) _ => apply parses_if
  | |- parses (mret _) _ => apply parses_ret
  | |- parses (dlift _) _ => apply parses_lift
  | |- parses (dfail _) _ => apply parses_fail
  | |- parses _ _ => solve [eauto with parses nocore]
  | |- accepts (finish _ ≫= _) _ => refine (accepts_finish _ _ _ _)
  | |- accepts (take_remaining ≫= _) _ => refine (accepts_take_remaining _ _ _)
  | |- accepts (remaining ≫= _) _ => refine (accepts_remaining _ _ _)
  | |- accepts (mbind _ _) _ => eapply accepts_bind_as
  | |- accepts (if _ then dfail _ else _) _ => apply accepts_guard
  | |- accepts (if _ then _ else _) _ => apply accepts_if
  | |- accepts (mret _) _ => apply accepts_ret
  | |- accepts (dlift _) _ => apply accepts_lift
  | |- accepts (dfail _) _ => apply accepts_fail
  end.

Ltac solve_parses := repeat parses_step.

Ltac grammar_fwd :=
  repeat match goal with
  | H : exists _, _ |- _ => destruct H
  | H : _ /\ _ |- _ => destruct H
  | H : False |- _ => destruct H
  | H : Ok _ = Ok _ |- _ => injection H as H
  | H : Err _ = Ok _ |- _ => discriminate H
  | H : Ok _ = Err _ |- _ => discriminate H
  end;
  subst; bool_prop; subst.

(** The value equation fixes the fields, then the byte equations the strings. *)
Ltac grammar_bwd :=
  repeat match goal with
  | |- exists _, _ => eexists
  | |- _ /\ _ => split
  end;
  [> try lazymatch goal with
     | |- @eq (list byte) _ _ => fail
     | |- @eq bool _ _ => fail
     | |- @eq Z _ _ => fail
     | |- _ = _ => reflexivity
     end .. ];
  [> try lazymatch goal with |- @eq (list byte) _ _ => reflexivity end .. ].

(** The conversion of an enum with explicit discriminants: [try_from] is the
    inverse of the cast, and everything else is an error. *)
Ltac solve_enum :=
  split;
  [ let H := fresh in intros H; cbv beta delta in H; repeat case_match; simplify_eq; done
  | intros ->; match goal with t : _ |- _ => destruct t; done end ].

(** *** Writers under their bounds *)

Lemma bind_ok {A B} (f : A -> cresult B) a : (Ok a ≫= f) = f a.
Proof. done. Qed.

Lemma checked_bytes_ok value field max :
  len value <= max -> checked_bytes value field max = Ok value.
Proof. intros. unfold checked_bytes. case_if; [lia | done]. Qed.

Lemma usize_to_u8_ok value field : value <= U8_MAX -> usize_to_u8 value field = Ok value.
Proof. intros. unfold usize_to_u8. case_if; [done | lia]. Qed.

Lemma usize_to_u16_ok value field : value <= U16_MAX -> usize_to_u16 value field = Ok value.
Proof. intros. unfold usize_to_u16. case_if; [done | lia]. Qed.

Lemma usize_to_u32_ok value field : value <= U32_MAX -> usize_to_u32 value field = Ok value.
Proof. intros. unfold usize_to_u32. case_if; [done | lia]. Qed.

(** Runs the checks of an encoder whose bounds are in the context, and
    normalises the bytes it pushed. *)
Ltac run_encode :=
  repeat first
    [ rewrite bind_ok
    | rewrite Z.eqb_refl; cbn [negb]
    | rewrite checked_bytes_ok by width_lia
    | rewrite usize_to_u8_ok by width_lia
    | rewrite usize_to_u16_ok by width_lia
    | rewrite usize_to_u32_ok by width_lia ];
  unfold push_u8, push_u16, push_u32, push_i32, push_u64, push_f32, push_u32;
  rewrite ?app_nil_l; rewrite <- ?app_assoc; rewrite ?app_nil_r.

(** The two directions of [decode bs = Ok v <-> wf v /\ encode v = Ok bs], from
    the equation [encode_eq : wf v -> encode v = Ok (bytes v)]. *)
Ltac wire_side :=
  cbn in *; autorewrite with len in *;
  first
    [ done
    | rewrite ?app_nil_r; done
    | apply Z.ltb_ge; width_lia
    | apply Z.leb_gt; width_lia
    | apply negb_false_iff, Z.eqb_eq; first [done | width_lia]
    | symmetry; apply to_nat_len
    | len_facts; width_lia
    | eassumption ].

Ltac wire_fwd encode_eq :=
  intros; grammar_fwd;
  lazymatch goal with
  | |- ?W /\ _ =>
      let H := fresh in
      assert (H : W); [red; cbn; split_and?; wire_side|];
      split; [exact H | rewrite encode_eq by exact H]
  end;
  f_equal;
  lazymatch goal with |- ?b _ = _ => unfold b; cbn end;
  repeat match goal with H : len _ = _ |- _ => rewrite H end;
  rewrite ?app_nil_r; first [done | rewrite <- ?app_assoc; done].

Ltac wire_bwd encode_eq :=
  let W := fresh in let E := fresh in
  intros [W E]; rewrite encode_eq in E by exact W; injection E as <-;
  lazymatch type of W with _ ?v => try (is_var v; destruct v) end;
  red in W; cbn in W |- *; destruct_and?; subst;
  grammar_bwd; wire_side.

Ltac solve_wire encode_eq :=
  erewrite run_accepts; [|solve_parses];
  split; [wire_fwd encode_eq | wire_bwd encode_eq].

(** [parses_as m wf bytes] of a nested reader. *)
Ltac solve_as m wf bytes :=
  unfold parses_as; eapply parses_ext; [unfold m; solve_parses|]; cbn beta;
  let v := fresh "v" in let W := fresh "W" in
  intros v ?; split;
  [ intros; grammar_fwd;
    split; [ red; cbn; split_and?; wire_side
           | unfold bytes; cbn; rewrite ?app_nil_r, <- ?app_assoc; done ]
  | intros [W ->]; destruct v; unfold wf, bytes in *; cbn in W |- *; destruct_and?;
    grammar_bwd; wire_side ].

(** [wf v -> encode v = Ok (bytes v)], by running the encoder. *)
Ltac solve_encode :=
  let W := fresh "W" in
  intros W;
  lazymatch goal with
  | |- ?e ?v = Ok (?b ?v) => unfold e, b; try (is_var v; destruct v)
  end;
  red in W; cbn in W |- *; destruct_and?; subst; run_encode; done.

(** [WireBounded] from the equation of the encoder. *)
Ltac solve_bounded encode_eq :=
  let v := fresh "v" in let W := fresh "W" in let E := fresh "E" in
  intros v ? W E; pose proof (encode_eq v W) as Eq;
  let E2 := fresh in
  lazymatch type of Eq with
  | _ = Ok ?b => assert (E2 : @Ok CodecError _ b = Ok _) by (etransitivity; [symmetry; exact Eq | exact E])
  end;
  injection E2 as <-; clear E Eq.
