(* ===== verification/Packet.v ===== *)
(** * Packet header

    [clients/rust/maho-proto/src/packet.rs]: the packet types and the 12-byte
    header that starts every TCP payload and every UDP datagram. *)

From S2P Require Import Prelude Codec.

Definition MAGIC : Z := 0xec1d.
Definition PROTOCOL_VERSION : Z := 3.

Inductive PacketType : Type :=
| PT_Handshake | PT_HandshakeAck | PT_FrameHeader | PT_FrameChunk | PT_CursorUpdate
| PT_InputEvent | PT_Control | PT_Ping | PT_AudioFrame | PT_PairingRequest
| PT_PairingGrant | PT_PairingReject.

#[export] Instance PacketType_eq_dec : EqDecision PacketType.
Proof. solve_decision. Defined.

(** [self as u8]. *)
Definition PacketType_u8 (t : PacketType) : Z :=
  match t with
  | PT_Handshake => 0 | PT_HandshakeAck => 1 | PT_FrameHeader => 2 | PT_FrameChunk => 3
  | PT_CursorUpdate => 4 | PT_InputEvent => 5 | PT_Control => 6 | PT_Ping => 7
  | PT_AudioFrame => 8 | PT_PairingRequest => 9 | PT_PairingGrant => 10
  | PT_PairingReject => 11
  end.

Definition PacketType_ALL : list PacketType :=
  [PT_Handshake; PT_HandshakeAck; PT_FrameHeader; PT_FrameChunk; PT_CursorUpdate;
   PT_InputEvent; PT_Control; PT_Ping; PT_AudioFrame; PT_PairingRequest;
   PT_PairingGrant; PT_PairingReject].

Definition PacketType_try_from (value : Z) : cresult PacketType :=
  match value with
  | 0 => Ok PT_Handshake
  | 1 => Ok PT_HandshakeAck
  | 2 => Ok PT_FrameHeader
  | 3 => Ok PT_FrameChunk
  | 4 => Ok PT_CursorUpdate
  | 5 => Ok PT_InputEvent
  | 6 => Ok PT_Control
  | 7 => Ok PT_Ping
  | 8 => Ok PT_AudioFrame
  | 9 => Ok PT_PairingRequest
  | 10 => Ok PT_PairingGrant
  | 11 => Ok PT_PairingReject
  | unknown => Err (UnknownPacketType unknown)
  end.

Record PacketHeader : Type := mkPacketHeader {
  ph_packet_type : PacketType;
  ph_sequence : Z;
  ph_timestamp_ms : Z;
  ph_flags : Z
}.

Definition PacketHeader_SIZE : nat := 12.

Definition PacketHeader_to_bytes (h : PacketHeader) : list byte :=
  let output := replicate PacketHeader_SIZE (Z_to_byte 0) in
  let output := copy_into output 0 (le_bytes 2 MAGIC) in
  let output := <[2%nat := Z_to_byte (PacketType_u8 (ph_packet_type h))]> output in
  let output := copy_into output 3 (le_bytes 4 (ph_sequence h)) in
  let output := copy_into output 7 (le_bytes 4 (ph_timestamp_ms h)) in
  <[11%nat := Z_to_byte (ph_flags h)]> output.

#[global] Arguments PacketHeader_to_bytes : simpl never.

Definition PacketHeader_encode (h : PacketHeader) : cresult (list byte) :=
  Ok (PacketHeader_to_bytes h).

Definition PacketHeader_decode : list byte -> cresult PacketHeader :=
  run_decoder (
    magic ← read_u16 "packet magic";
    if negb (magic =? MAGIC) then dfail (InvalidMagic magic) else
    packet_type ← read_enum PacketType_try_from "packet type";
    sequence ← read_u32 "packet sequence";
    timestamp_ms ← read_u32 "packet timestamp";
    flags ← read_u8 "packet flags";
    _ ← finish "packet header";
    mret (mkPacketHeader packet_type sequence timestamp_ms flags)).

#[export] Instance PacketHeader_codec : WireCodec PacketHeader :=
  { encode := PacketHeader_encode; decode := PacketHeader_decode }.

Definition PacketHeader_wf (h : PacketHeader) : Prop :=
  u32_ok (ph_sequence h) /\ u32_ok (ph_timestamp_ms h) /\ u8_ok (ph_flags h).

Lemma PacketType_try_from_iff v t : PacketType_try_from v = Ok t <-> v = PacketType_u8 t.
Proof. solve_enum. Qed.

Lemma PacketType_u8_ok t : u8_ok (PacketType_u8 t).
Proof. by destruct t. Qed.

Lemma as_PacketType field :
  parses_as (read_enum PacketType_try_from field) (fun _ => True)
    (fun t => le_bytes 1 (PacketType_u8 t)).
Proof. apply as_enum; [apply PacketType_try_from_iff | apply PacketType_u8_ok]. Qed.
#[export] Hint Resolve as_PacketType : parses.

Lemma PacketHeader_to_bytes_fields h :
  PacketHeader_to_bytes h =
  le_bytes 2 MAGIC ++ le_bytes 1 (PacketType_u8 (ph_packet_type h)) ++
  le_bytes 4 (ph_sequence h) ++ le_bytes 4 (ph_timestamp_ms h) ++ le_bytes 1 (ph_flags h) ++ [].
Proof. done. Qed.

Lemma PacketHeader_decode_iff bs h :
  PacketHeader_decode bs = Ok h <-> PacketHeader_wf h /\ PacketHeader_to_bytes h = bs.
Proof.
  unfold PacketHeader_decode. erewrite run_accepts; [|solve_parses]. split.
  - intros. grammar_fwd. done.
  - rewrite PacketHeader_to_bytes_fields. destruct h as [ty sq ts fl].
    intros [(? & ? & ?) <-]. grammar_bwd; done.
Qed.

Lemma PacketHeader_encode_eq h :
  PacketHeader_wf h -> PacketHeader_encode h = Ok (PacketHeader_to_bytes h).
Proof. done. Qed.

Lemma PacketHeader_wire_iff bs h :
  PacketHeader_decode bs = Ok h <-> PacketHeader_wf h /\ PacketHeader_encode h = Ok bs.
Proof. rewrite PacketHeader_decode_iff. unfold PacketHeader_encode. naive_solver. Qed.

#[export] Instance PacketHeader_laws : WireLaws PacketHeader :=
  wire_laws_of PacketHeader_wf PacketHeader_to_bytes PacketHeader_encode_eq PacketHeader_wire_iff.
#[export] Instance PacketHeader_canonical : WireCanonical PacketHeader :=
  wire_canonical_of PacketHeader_wf PacketHeader_wire_iff.

(** ** Property *)

(** the packet header is exactly twelve bytes, magic, type, sequence,
    timestamp and flags in little-endian order.  Decoding accepts a byte string
    if and only if it is the encoding of a header whose fields fit their widths,
    so any other magic, type or length is rejected and no header has two
    encodings. *)
Theorem packet_header_wire_format (bs : list byte) (h : PacketHeader) :
  PacketHeader_decode bs = Ok h <->
  PacketHeader_wf h /\ PacketHeader_encode h = Ok bs /\ length bs = PacketHeader_SIZE /\
  bs = le_bytes 2 MAGIC ++ le_bytes 1 (PacketType_u8 (ph_packet_type h)) ++
    le_bytes 4 (ph_sequence h) ++ le_bytes 4 (ph_timestamp_ms h) ++ le_bytes 1 (ph_flags h).
Proof.
  rewrite PacketHeader_decode_iff. unfold PacketHeader_encode. split; [|naive_solver].
  intros [W <-]. split_and!; done.
Qed.
