(* ===== verification/Framing.v ===== *)
(** * TCP framing

    [clients/rust/maho-proto/src/framing.rs]: the length-prefix writer and the
    incremental reader.  [frame_stream] is the reference: what a byte stream
    means, independently of how it is cut into [push] calls. *)

From S2P Require Import Prelude Codec.

Definition MAX_TCP_FRAME_SIZE : Z := 16 * 1024 * 1024.
#[export] Hint Unfold MAX_TCP_FRAME_SIZE : limits.

(** [u32::try_from(len).unwrap_or(u32::MAX)] *)
Definition clamp_u32 (v : Z) : Z := if v <=? U32_MAX then v else U32_MAX.

Definition TcpFrameWriter_encode (payload : list byte) : cresult (list byte) :=
  if (len payload =? 0) || (MAX_TCP_FRAME_SIZE <? len payload)
  then Err (InvalidFrameLength (clamp_u32 (len payload))) else
  length ← usize_to_u32 (len payload) "TCP frame";
  Ok (le_bytes 4 length ++ payload).

Inductive TcpFrameEvent : Type :=
| Frame (payload : list byte)
| DroppedInvalidLength (length : Z).

#[export] Instance TcpFrameEvent_eq_dec : EqDecision TcpFrameEvent.
Proof. solve_decision. Defined.

(** The state of a [TcpFrameReader] is its buffer. *)
Abbreviation TcpFrameReader := (list byte) (only parsing).

Definition TcpFrameReader_new : TcpFrameReader := [].
Definition buffered_len (buffer : TcpFrameReader) : Z := len buffer.
Definition TcpFrameReader_clear (buffer : TcpFrameReader) : TcpFrameReader := [].

(** The code after the loop: [clear] or [drain(..offset)]. *)
Definition compact (buffer : TcpFrameReader) (offset : Z) : TcpFrameReader :=
  if offset =? len buffer then []
  else if 0 <? offset then drop (Z.to_nat offset) buffer
  else buffer.

(** The loop of [push].  Each turn either leaves the loop or moves [offset]
    forward, so one unit of fuel per buffered byte is enough. *)
Fixpoint push_loop (fuel : nat) (buffer : TcpFrameReader) (offset : Z)
    (events : list TcpFrameEvent) : TcpFrameReader * list TcpFrameEvent :=
  match fuel with
  | O => (compact buffer offset, events)
  | S fuel =>
    if 4 <=? len buffer - offset then
      let length := le_value (take 4 (drop (Z.to_nat offset) buffer)) in
      if (length =? 0) || (MAX_TCP_FRAME_SIZE <? length) then
        ([], events ++ [DroppedInvalidLength length])
      else
        let frame_end := 4 + length in
        if len buffer - offset <? frame_end then (compact buffer offset, events)
        else
          let payload := take (Z.to_nat length) (drop (Z.to_nat (offset + 4)) buffer) in
          push_loop fuel buffer (offset + frame_end) (events ++ [Frame payload])
    else (compact buffer offset, events)
  end.

Definition TcpFrameReader_push (buffer : TcpFrameReader) (input : list byte)
    : TcpFrameReader * list TcpFrameEvent :=
  let buffer := buffer ++ input in
  push_loop (S (length buffer)) buffer 0 [].

#[global] Arguments TcpFrameReader_push : simpl never.

(** The events of a sequence of reads, as a connection loop collects them. *)
Fixpoint push_all (buffer : TcpFrameReader) (inputs : list (list byte))
    : TcpFrameReader * list TcpFrameEvent :=
  match inputs with
  | [] => (buffer, [])
  | input :: inputs =>
    let '(buffer, events) := TcpFrameReader_push buffer input in
    let '(buffer, later) := push_all buffer inputs in
    (buffer, events ++ later)
  end.

(** ** The reference: the meaning of a byte stream *)

Definition payload_ok (payload : list byte) : Prop :=
  1 <= len payload <= MAX_TCP_FRAME_SIZE.

Definition framed (payload : list byte) : list byte :=
  le_bytes 4 (len payload) ++ payload.

(** A strict prefix of a well-formed frame. *)
Definition incomplete (s : list byte) : Prop :=
  exists rest payload, payload_ok payload /\ s ++ rest = framed payload /\ rest <> [].

Inductive frame_stream : list byte -> list TcpFrameEvent -> list byte -> Prop :=
| fs_tail s : incomplete s -> frame_stream s [] s
| fs_frame payload s events tail :
    payload_ok payload -> frame_stream s events tail ->
    frame_stream (framed payload ++ s) (Frame payload :: events) tail
| fs_invalid length s :
    u32_ok length -> (length = 0 \/ MAX_TCP_FRAME_SIZE < length) ->
    frame_stream (le_bytes 4 length ++ s) [DroppedInvalidLength length] [].

(** ** The writer *)

Lemma TcpFrameWriter_encode_iff payload bs :
  TcpFrameWriter_encode payload = Ok bs <-> payload_ok payload /\ framed payload = bs.
Proof.
  unfold TcpFrameWriter_encode, payload_ok, framed. case_if.
  - split; [done|]. intros [? _]. destruct Heqb; bool_prop; lia.
  - len_facts. run_encode. naive_solver lia.
Qed.

(** ** Incomplete frames, as the code tests them *)

Lemma framed_app_len payload s : len (framed payload ++ s) = 4 + len payload + len s.
Proof. unfold framed. autorewrite with len. lia. Qed.

Lemma le_value_prefix4 z s : u32_ok z -> le_value (take 4 (le_bytes 4 z ++ s)) = z.
Proof.
  intros. rewrite take_app_length' by by rewrite le_bytes_length.
  apply le_value_le_bytes_small. width_lia.
Qed.

Lemma payload_ok_u32 payload : payload_ok payload -> u32_ok (len payload).
Proof. unfold payload_ok. width_lia. Qed.
#[local] Hint Resolve payload_ok_u32 : maho.

(** Fewer than four bytes can always be completed to a frame. *)
Lemma incomplete_short s : len s < 4 -> incomplete s.
Proof.
  intros L. set (v := le_value s). set (l := if v =? 0 then 256 ^ len s else v).
  pose proof (le_value_range s) as R. fold v in R. pose proof (len_nonneg s) as N.
  assert (Hl : 1 <= l <= MAX_TCP_FRAME_SIZE).
  { assert (256 ^ len s <= 256 ^ 3) by (apply Z.pow_le_mono_r; lia).
    pose proof (Z.pow_pos_nonneg 256 (len s) ltac:(lia) N).
    subst l. case_if; width_lia. }
  destruct (exists_len Byte.x00 l) as [p Hp]; [lia|].
  exists (le_bytes (4 - length s) (l / 256 ^ len s) ++ p), p. split_and!.
  - unfold payload_ok; lia.
  - unfold framed. rewrite Hp, app_assoc. f_equal.
    replace 4%nat with (length s + (4 - length s))%nat at 2 by (unfold len in L; lia).
    rewrite le_bytes_add. f_equal. rewrite <- (le_bytes_mod _ l). fold (len s).
    replace (l mod 256 ^ len s) with v; [symmetry; apply le_bytes_le_value|].
    subst l. case_if; [rewrite Z_mod_same_full; lia | rewrite Z.mod_small; lia].
  - intros E. apply (f_equal len) in E. autorewrite with len in E. lia.
Qed.

Lemma incomplete_cut l s :
  1 <= l <= MAX_TCP_FRAME_SIZE -> len s < l -> incomplete (le_bytes 4 l ++ s).
Proof.
  intros Hl L. destruct (exists_len Byte.x00 (l - len s)) as [r Hr]; [lia|].
  exists r, (s ++ r). unfold payload_ok, framed. autorewrite with len. split_and!.
  - lia.
  - lia.
  - rewrite Hr, <- app_assoc. do 2 f_equal. lia.
  - intros ->. rewrite len_nil in Hr. lia.
Qed.

Lemma incomplete_inv s :
  incomplete s ->
  len s < 4 \/ exists l s', s = le_bytes 4 l ++ s' /\ 1 <= l <= MAX_TCP_FRAME_SIZE /\ len s' < l.
Proof.
  intros (rest & p & Hp & E & Hr).
  destruct (decide (len s < 4)) as [|L]; [by left|]. right.
  exists (len p), (drop 4 s). pose proof (le_bytes_prefix 4 s ltac:(lia)) as Es.
  assert (take 4 s = le_bytes 4 (len p)) as T.
  { apply (f_equal (take 4)) in E. unfold framed in E.
    rewrite take_app_le in E by (unfold len in L; lia).
    rewrite E. apply take_app_length'. by rewrite le_bytes_length. }
  rewrite T, le_value_le_bytes_small in Es by (apply payload_ok_u32 in Hp; width_lia).
  split_and!; [done | apply Hp | apply Hp |].
  assert (0 < len rest) by (destruct rest; [done | rewrite len_cons; len_facts; lia]).
  apply (f_equal len) in E. unfold framed in E. autorewrite with len in *. lia.
Qed.

(** ** The loop computes the reference *)

Lemma compact_drop pre s : compact (pre ++ s) (len pre) = s.
Proof.
  unfold compact. autorewrite with len. case_if.
  - symmetry. apply len_0_nil. lia.
  - case_if; [apply drop_len_app|].
    rewrite (len_0_nil pre) by lia. done.
Qed.

Lemma push_loop_spec fuel pre s events :
  (length s < fuel)%nat ->
  exists evs tail, frame_stream s evs tail /\
    push_loop fuel (pre ++ s) (len pre) events = (tail, events ++ evs).
Proof.
  revert pre s events. induction fuel as [|fuel IH]; intros pre s events Hf; [lia|].
  cbn [push_loop]. autorewrite with len. rewrite drop_len_app.
  replace (len pre + len s - len pre) with (len s) by lia. case_if.
  2: { exists [], s. rewrite compact_drop, app_nil_r. split; [constructor|done].
       apply incomplete_short. lia. }
  pose proof (le_bytes_prefix 4 s ltac:(lia)) as Es.
  pose proof (le_value_range (take 4 s)) as R.
  set (l := le_value (take 4 s)) in *. set (s' := drop 4 s) in *.
  assert (Ls : len s = 4 + len s') by (rewrite Es; autorewrite with len; done).
  assert (Ul : u32_ok l).
  { assert (256 ^ len (take 4 s) <= 256 ^ 4)
      by (apply Z.pow_le_mono_r; rewrite ?len_take; lia). width_lia. }
  case_if.
  { exists [DroppedInvalidLength l], []. split; [|done]. rewrite Es.
    constructor; [done|]. destruct Heqb0; bool_prop; auto. }
  case_if.
  { exists [], s. rewrite compact_drop, app_nil_r. split; [constructor|done].
    rewrite Es. apply incomplete_cut; lia. }
  assert (D : drop (Z.to_nat (len pre + 4)) (pre ++ s) = s').
  { rewrite Es. replace (len pre + 4) with (len (pre ++ le_bytes 4 l)) by (autorewrite with len; lia).
    rewrite app_assoc. apply drop_len_app. }
  rewrite D. set (p := take (Z.to_nat l) s'). set (s'' := drop (Z.to_nat l) s').
  assert (Lp : len p = l) by (unfold p; rewrite len_take; lia).
  assert (Hp : payload_ok p) by (unfold payload_ok; lia).
  assert (E'' : s = framed p ++ s'').
  { rewrite Es at 1. unfold framed. rewrite Lp, <- app_assoc. f_equal. symmetry. apply take_drop. }
  rewrite E'', app_assoc. replace (len pre + (4 + l)) with (len (pre ++ framed p))
    by (unfold framed; autorewrite with len; lia).
  destruct (IH (pre ++ framed p) s'' (events ++ [Frame p])) as (evs & tail & Fs & ->).
  { apply (f_equal length) in E''. unfold framed in E''.
    rewrite !length_app, le_bytes_length in E''. lia. }
  exists (Frame p :: evs), tail. split; [by constructor|]. by rewrite <- app_assoc.
Qed.

Lemma push_spec buffer input tail events :
  TcpFrameReader_push buffer input = (tail, events) ->
  frame_stream (buffer ++ input) events tail.
Proof.
  unfold TcpFrameReader_push. intros E.
  destruct (push_loop_spec (S (length (buffer ++ input))) [] (buffer ++ input) [])
    as (evs & t & F & E'); [lia|].
  rewrite len_nil, !app_nil_l in E'. rewrite E' in E. by injection E as <- <-.
Qed.

(** ** The reference is a function *)

Lemma framed_inj p q s t :
  payload_ok p -> payload_ok q -> framed p ++ s = framed q ++ t -> p = q /\ s = t.
Proof.
  intros Hp Hq E. assert (L : len p = len q).
  { apply (f_equal (fun b => le_value (take 4 b))) in E. unfold framed in E.
    rewrite <- !app_assoc, !le_value_prefix4 in E by auto with maho. done. }
  unfold framed in E. rewrite L, <- !app_assoc in E. apply app_inv_head in E.
  by apply app_inv_len.
Qed.

Lemma incomplete_not_framed p s : payload_ok p -> ~ incomplete (framed p ++ s).
Proof.
  intros Hp (rest & q & Hq & E & Hr). rewrite <- app_assoc, <- (app_nil_r (framed q)) in E.
  apply framed_inj in E as [_ E]; [|done..]. by apply app_nil in E as [_ ?].
Qed.

Lemma incomplete_not_invalid l s :
  u32_ok l -> l = 0 \/ MAX_TCP_FRAME_SIZE < l -> ~ incomplete (le_bytes 4 l ++ s).
Proof.
  intros Ul Hl (rest & q & Hq & E & _). unfold framed in E. rewrite <- app_assoc in E.
  apply (f_equal (fun b => le_value (take 4 b))) in E.
  rewrite !le_value_prefix4 in E by auto with maho. unfold payload_ok in Hq. lia.
Qed.

Lemma framed_not_invalid p l s t :
  payload_ok p -> u32_ok l -> l = 0 \/ MAX_TCP_FRAME_SIZE < l ->
  framed p ++ s = le_bytes 4 l ++ t -> False.
Proof.
  intros Hp Ul Hl E. apply (f_equal (fun b => le_value (take 4 b))) in E.
  unfold framed in E. rewrite <- app_assoc, !le_value_prefix4 in E by auto with maho.
  unfold payload_ok in Hp. lia.
Qed.

Lemma frame_stream_inv s e t :
  frame_stream s e t ->
  (incomplete s /\ e = [] /\ t = s) \/
  (exists p s' e', s = framed p ++ s' /\ payload_ok p /\ e = Frame p :: e' /\ frame_stream s' e' t) \/
  (exists l s', s = le_bytes 4 l ++ s' /\ u32_ok l /\ (l = 0 \/ MAX_TCP_FRAME_SIZE < l) /\
    e = [DroppedInvalidLength l] /\ t = []).
Proof.
  destruct 1 as [s I|p s e t Hp F|l s Ul Hl]; [by left | right; left | right; right].
  - by exists p, s, e.
  - by exists l, s.
Qed.

Lemma frame_stream_det s e1 t1 e2 t2 :
  frame_stream s e1 t1 -> frame_stream s e2 t2 -> e1 = e2 /\ t1 = t2.
Proof.
  intros F1. revert e2 t2. induction F1 as [s I|p s e t Hp F1 IH|l s Ul Hl]; intros e2 t2 F2;
    apply frame_stream_inv in F2 as
      [(I2 & -> & ->) | [(q & s' & e' & E & Hq & -> & F2) | (l' & s' & E & Ul' & Hl' & -> & ->)]].
  - done.
  - subst s. by apply incomplete_not_framed in I.
  - subst s. by apply incomplete_not_invalid in I.
  - by apply incomplete_not_framed in I2.
  - apply framed_inj in E as [-> ->]; [|done..]. by destruct (IH _ _ F2) as [-> ->].
  - exfalso. eapply framed_not_invalid; [exact Hp| exact Ul' | exact Hl' | exact E].
  - by apply incomplete_not_invalid in I2.
  - exfalso. eapply framed_not_invalid; [exact Hq | exact Ul | exact Hl | symmetry; exact E].
  - apply (f_equal (fun b => le_value (take 4 b))) in E.
    rewrite !le_value_prefix4 in E by done. by subst.
Qed.

Lemma push_iff buffer input tail events :
  TcpFrameReader_push buffer input = (tail, events) <->
  frame_stream (buffer ++ input) events tail.
Proof.
  split; [apply push_spec|]. intros F.
  destruct (TcpFrameReader_push buffer input) as [t e] eqn:E. apply push_spec in E.
  destruct (frame_stream_det _ _ _ _ _ F E) as [-> ->]. done.
Qed.

(** ** Cutting a stream into reads *)

Definition is_frame (e : TcpFrameEvent) : Prop :=
  match e with Frame _ => True | DroppedInvalidLength _ => False end.

Lemma frame_stream_app s e t s' e' t' :
  frame_stream s e t -> Forall is_frame e -> frame_stream (t ++ s') e' t' ->
  frame_stream (s ++ s') (e ++ e') t'.
Proof.
  intros F. revert e'. induction F as [s I|p s e t Hp F IH|l s Ul Hl]; intros e' Hf F'.
  - done.
  - apply Forall_cons in Hf as [_ Hf]. rewrite <- app_assoc. cbn [app].
    constructor; auto.
  - by apply Forall_cons in Hf as [? _].
Qed.

Lemma incomplete_nil : incomplete [].
Proof. by apply incomplete_short. Qed.

(** The buffer a [push] leaves is an unfinished frame. *)
Lemma frame_stream_tail s e t : frame_stream s e t -> incomplete t.
Proof. induction 1; auto using incomplete_nil. Qed.

Lemma incomplete_len s : incomplete s -> len s < 4 + MAX_TCP_FRAME_SIZE.
Proof.
  intros [?|(l & s' & -> & ? & ?)]%incomplete_inv; autorewrite with len; width_lia.
Qed.

Lemma frame_stream_frames payloads :
  Forall payload_ok payloads ->
  frame_stream (concat (framed <$> payloads)) (Frame <$> payloads) [].
Proof.
  induction 1 as [|p ps Hp _ IH]; cbn; constructor; [apply incomplete_nil | done..].
Qed.

(** A prefix of a stream of frames has no dropped length. *)
Lemma frame_stream_prefix s e t s' e' t' :
  frame_stream s e t -> frame_stream (s ++ s') e' t' -> Forall is_frame e' -> Forall is_frame e.
Proof.
  intros F. revert e' t'. induction F as [s I|p s e t Hp F IH|l s Ul Hl]; intros e' t' F' Hf.
  - constructor.
  - rewrite <- app_assoc in F'. constructor; [done|].
    apply frame_stream_inv in F' as
      [(I2 & -> & ->) | [(q & s2 & e2 & E & Hq & -> & F2) | (l' & s2 & E & Ul' & Hl' & -> & ->)]].
    + by apply incomplete_not_framed in I2.
    + apply framed_inj in E as [-> <-]; [|done..]. apply Forall_cons in Hf as [_ ?]. eauto.
    + by apply Forall_cons in Hf as [? _].
  - rewrite <- app_assoc in F'. exfalso.
    pose proof (fs_invalid l (s ++ s') Ul Hl) as F2.
    destruct (frame_stream_det _ _ _ _ _ F' F2) as [-> _].
    by apply Forall_cons in Hf as [? _].
Qed.

Lemma frame_stream_split s e1 t s' e t' :
  frame_stream s e1 t -> frame_stream (s ++ s') e t' -> Forall is_frame e1 ->
  exists e2, e = e1 ++ e2 /\ frame_stream (t ++ s') e2 t'.
Proof.
  intros F. revert e. induction F as [s I|p s e1 t Hp F IH|l s Ul Hl]; intros e F' Hf.
  - by exists e.
  - apply Forall_cons in Hf as [_ Hf]. rewrite <- app_assoc in F'.
    apply frame_stream_inv in F' as
      [(I2 & -> & ->) | [(q & s2 & e2 & E & Hq & -> & F2) | (l' & s2 & E & Ul' & Hl' & -> & ->)]].
    + by apply incomplete_not_framed in I2.
    + apply framed_inj in E as [-> <-]; [|done..].
      destruct (IH _ F2 Hf) as (e3 & -> & ?). by exists e3.
    + exfalso. by eapply framed_not_invalid.
  - by apply Forall_cons in Hf as [? _].
Qed.

Lemma push_all_frames inputs buffer events tail :
  frame_stream (buffer ++ concat inputs) events tail -> Forall is_frame events ->
  incomplete buffer -> push_all buffer inputs = (tail, events).
Proof.
  revert buffer events. induction inputs as [|i inputs IH]; intros buffer events F Hf I.
  - cbn in *. rewrite app_nil_r in F.
    destruct (frame_stream_det _ _ _ _ _ F (fs_tail _ I)) as [-> ->]. done.
  - cbn [push_all concat] in *. rewrite app_assoc in F.
    destruct (TcpFrameReader_push buffer i) as [b e1] eqn:E1. apply push_spec in E1.
    assert (Hf1 : Forall is_frame e1) by (eapply frame_stream_prefix; eauto).
    destruct (push_all b inputs) as [b' e2] eqn:E2.
    assert (exists e3, events = e1 ++ e3 /\ frame_stream (b ++ concat inputs) e3 tail) as (e3 & -> & F3).
    { eapply frame_stream_split; eauto. }
    apply Forall_app in Hf as [_ Hf]. apply IH in F3; [|done| by eapply frame_stream_tail].
    rewrite E2 in F3. by injection F3 as -> ->.
Qed.

(** ** Properties *)

(** However the bytes of a sequence of written frames are cut into reads,
    the reader reports exactly those payloads, in order, and ends with an empty
    buffer. *)
Theorem framing_chunking_invariant payloads encoded inputs :
  Forall2 (fun p bs => TcpFrameWriter_encode p = Ok bs) payloads encoded ->
  concat inputs = concat encoded ->
  push_all TcpFrameReader_new inputs = ([], Frame <$> payloads).
Proof.
  intros F E.
  assert (Forall payload_ok payloads /\ encoded = framed <$> payloads) as [Hp ->].
  { clear E. induction F as [|p bs ps bss [Hp <-]%TcpFrameWriter_encode_iff F [IHp ->]]; [done|].
    split; [by constructor | done]. }
  apply push_all_frames; [|by apply Forall_fmap, Forall_true|apply incomplete_nil].
  unfold TcpFrameReader_new. cbn [app]. rewrite E. by apply frame_stream_frames.
Qed.

Lemma framing_chunking_invariant_witness :
  push_all TcpFrameReader_new
    [le_bytes 2 2; le_bytes 2 0 ++ str_bytes "h"; str_bytes "i"; framed (str_bytes "xyz")]
  = ([], Frame <$> [str_bytes "hi"; str_bytes "xyz"]).
Proof.
  apply (framing_chunking_invariant [str_bytes "hi"; str_bytes "xyz"]
           [framed (str_bytes "hi"); framed (str_bytes "xyz")]).
  - repeat constructor.
  - reflexivity.
Defined.

(** One [push] reports exactly the events of the buffered bytes followed by
    the new ones, and keeps exactly the unfinished frame at their end (nothing
    after an invalid length). *)
Theorem framing_push_refines_stream buffer input tail events :
  TcpFrameReader_push buffer input = (tail, events) <->
  frame_stream (buffer ++ input) events tail.
Proof. apply push_iff. Qed.

(** Whatever is pushed, the buffer afterwards holds less than one frame of
    the maximal size with its prefix. *)
Lemma framing_buffer_bound buffer input :
  buffered_len (fst (TcpFrameReader_push buffer input)) < 4 + MAX_TCP_FRAME_SIZE.
Proof.
  destruct (TcpFrameReader_push buffer input) as [t e] eqn:E. apply push_spec in E.
  apply incomplete_len. by eapply frame_stream_tail.
Qed.

(** An invalid length (zero or above the maximum) behind any number of good
    frames reports those frames, then the invalid length, and discards the rest
    of the buffer. *)
Theorem framing_invalid_length_resets payloads l junk :
  Forall payload_ok payloads -> u32_ok l -> l = 0 \/ MAX_TCP_FRAME_SIZE < l ->
  TcpFrameReader_push TcpFrameReader_new
    (concat (framed <$> payloads) ++ le_bytes 4 l ++ junk) =
  ([], (Frame <$> payloads) ++ [DroppedInvalidLength l]).
Proof.
  intros Hp Ul Hl. apply push_iff. cbn [TcpFrameReader_new app].
  induction Hp as [|p ps Hp _ IH]; cbn [fmap list_fmap concat app].
  - by apply fs_invalid.
  - rewrite <- app_assoc. by constructor.
Qed.

Lemma framing_invalid_length_resets_witness :
  TcpFrameReader_push TcpFrameReader_new
    (concat (framed <$> [str_bytes "hi"]) ++ le_bytes 4 0 ++ str_bytes "junk") =
  ([], (Frame <$> [str_bytes "hi"]) ++ [DroppedInvalidLength 0]).
Proof.
  apply (framing_invalid_length_resets [str_bytes "hi"] 0 (str_bytes "junk")).
  - repeat constructor; vm_compute; congruence.
  - split; reflexivity || lia.
  - by left.
Defined.
