(* ===== verification/Handshake.v ===== *)
(** * Handshake

    [clients/rust/maho-proto/src/handshake.rs]: the capability bit set and the
    [Handshake] message both peers open a session with. *)

From S2P Require Import Prelude Codec Packet.

Definition MAX_HANDSHAKE_NAME_BYTES : Z := 1024.
Definition MAX_PAIRING_ID_BYTES : Z := 256.
Definition SESSION_SALT_SIZE : Z := 16.
#[export] Hint Unfold MAX_HANDSHAKE_NAME_BYTES MAX_PAIRING_ID_BYTES SESSION_SALT_SIZE : limits.

(** ** Capabilities: a [u64] bit set *)

Abbreviation Capabilities := Z (only parsing).

Definition CAP_STREAM_CONFIGURATION : Capabilities := Z.shiftl 1 0.
Definition CAP_CLIPBOARD_SYNC : Capabilities := Z.shiftl 1 1.
Definition CAP_TEXT_CLIPBOARD_SYNC : Capabilities := Z.shiftl 1 2.
Definition CAP_COLOR_444 : Capabilities := Z.shiftl 1 3.
Definition CAP_COLOR_HDR : Capabilities := Z.shiftl 1 4.
Definition CAP_GAMEPAD : Capabilities := Z.shiftl 1 5.
Definition CAP_PEN_INPUT : Capabilities := Z.shiftl 1 6.
Definition CAP_AUTHENTICATED_UDP_REGISTRATION : Capabilities := Z.shiftl 1 7.
Definition CAP_STREAM_OPTIONS : Capabilities := Z.shiftl 1 8.
Definition CAP_SECURE_ATTENTION : Capabilities := Z.shiftl 1 9.
Definition CAP_HOST_STATUS : Capabilities := Z.shiftl 1 10.
Definition CAP_SESSION_ENDED : Capabilities := Z.shiftl 1 11.
Definition CAP_GUEST_PERMISSIONS : Capabilities := Z.shiftl 1 12.
Definition CAP_PAIRING_TRUST : Capabilities := Z.shiftl 1 13.
Definition CAP_CLIPBOARD_IMAGE : Capabilities := Z.shiftl 1 14.
Definition CAP_RTT_PROBE : Capabilities := Z.shiftl 1 15.

Definition Capabilities_empty : Capabilities := 0.

Definition Capabilities_bitor (a b : Capabilities) : Capabilities := Z.lor a b.

Definition Capabilities_all : Capabilities :=
  foldl Capabilities_bitor CAP_STREAM_CONFIGURATION
    [CAP_CLIPBOARD_SYNC; CAP_TEXT_CLIPBOARD_SYNC; CAP_COLOR_444; CAP_COLOR_HDR;
     CAP_GAMEPAD; CAP_PEN_INPUT; CAP_AUTHENTICATED_UDP_REGISTRATION;
     CAP_STREAM_OPTIONS; CAP_SECURE_ATTENTION; CAP_HOST_STATUS; CAP_SESSION_ENDED;
     CAP_GUEST_PERMISSIONS; CAP_PAIRING_TRUST; CAP_CLIPBOARD_IMAGE; CAP_RTT_PROBE].

Definition Capabilities_contains (self other : Capabilities) : bool :=
  Z.land self other =? other.

(** ** The message *)

Record Handshake : Type := mkHandshake {
  hs_name : rstring;
  hs_width : Z;
  hs_height : Z;
  hs_scale : Z;
  hs_version : Z;
  hs_capabilities : Capabilities;
  hs_pairing_id : rstring;
  hs_session_salt : list byte
}.

Definition Handshake_encode (h : Handshake) : cresult (list byte) :=
  if negb (hs_version h =? PROTOCOL_VERSION) then Err (UnsupportedVersion (hs_version h)) else
  name ← checked_bytes (hs_name h) "handshake name" MAX_HANDSHAKE_NAME_BYTES;
  pairing_id ← checked_bytes (hs_pairing_id h) "handshake pairing ID" MAX_PAIRING_ID_BYTES;
  let output := [] in
  name_length ← usize_to_u16 (len name) "handshake name";
  let output := push_u16 output name_length in
  let output := output ++ name in
  let output := push_u16 output (hs_width h) in
  let output := push_u16 output (hs_height h) in
  let output := push_f32 output (hs_scale h) in
  let output := push_u8 output (hs_version h) in
  let output := push_u64 output (hs_capabilities h) in
  pairing_id_length ← usize_to_u16 (len pairing_id) "handshake pairing ID";
  let output := push_u16 output pairing_id_length in
  let output := output ++ pairing_id in
  let output := output ++ hs_session_salt h in
  Ok output.

Definition Handshake_decode : list byte -> cresult Handshake :=
  run_decoder (
    name_length ← read_u16 "handshake name length";
    if MAX_HANDSHAKE_NAME_BYTES <? name_length
    then dfail (LengthLimit "handshake name" name_length MAX_HANDSHAKE_NAME_BYTES) else
    name ← read_utf8 name_length "handshake name";
    width ← read_u16 "handshake width";
    height ← read_u16 "handshake height";
    scale ← read_f32 "handshake scale";
    version ← read_u8 "handshake version";
    if negb (version =? PROTOCOL_VERSION) then dfail (UnsupportedVersion version) else
    capabilities ← read_u64 "handshake capabilities";
    pairing_id_length ← read_u16 "handshake pairing ID length";
    if MAX_PAIRING_ID_BYTES <? pairing_id_length
    then dfail (LengthLimit "handshake pairing ID" pairing_id_length MAX_PAIRING_ID_BYTES) else
    pairing_id ← read_utf8 pairing_id_length "handshake pairing ID";
    salt ← take_bytes SESSION_SALT_SIZE "handshake session salt";
    _ ← finish "handshake";
    mret (mkHandshake name width height scale version capabilities pairing_id salt)).

#[export] Instance Handshake_codec : WireCodec Handshake :=
  { encode := Handshake_encode; decode := Handshake_decode }.

(** The values of the Rust type (integers at their width, UTF-8 strings, a
    16-byte salt) that the protocol version and its limits allow. *)
Definition Handshake_wf (h : Handshake) : Prop :=
  len (hs_name h) <= MAX_HANDSHAKE_NAME_BYTES /\ utf8_valid (hs_name h) = true /\
  u16_ok (hs_width h) /\ u16_ok (hs_height h) /\ u32_ok (hs_scale h) /\
  hs_version h = PROTOCOL_VERSION /\ u64_ok (hs_capabilities h) /\
  len (hs_pairing_id h) <= MAX_PAIRING_ID_BYTES /\ utf8_valid (hs_pairing_id h) = true /\
  len (hs_session_salt h) = SESSION_SALT_SIZE.

Definition Handshake_bytes (h : Handshake) : list byte :=
  le_bytes 2 (len (hs_name h)) ++ hs_name h ++ le_bytes 2 (hs_width h) ++
  le_bytes 2 (hs_height h) ++ le_bytes 4 (hs_scale h) ++ le_bytes 1 (hs_version h) ++
  le_bytes 8 (hs_capabilities h) ++ le_bytes 2 (len (hs_pairing_id h)) ++
  hs_pairing_id h ++ hs_session_salt h.

Lemma Handshake_encode_eq h : Handshake_wf h -> Handshake_encode h = Ok (Handshake_bytes h).
Proof. solve_encode. Qed.

Lemma Handshake_decode_iff bs h :
  Handshake_decode bs = Ok h <-> Handshake_wf h /\ Handshake_encode h = Ok bs.
Proof. unfold Handshake_decode. solve_wire Handshake_encode_eq. Qed.

#[export] Instance Handshake_laws : WireLaws Handshake :=
  wire_laws_of Handshake_wf Handshake_bytes Handshake_encode_eq Handshake_decode_iff.
#[export] Instance Handshake_canonical : WireCanonical Handshake :=
  wire_canonical_of Handshake_wf Handshake_decode_iff.

(** ** Capability sets *)

Lemma Capabilities_contains_iff a b :
  Capabilities_contains a b = true <->
  forall i, Z.testbit b i = true -> Z.testbit a i = true.
Proof.
  unfold Capabilities_contains. rewrite Z.eqb_eq. split.
  - intros E i Hi. rewrite <- E, Z.land_spec in Hi. by apply andb_true_iff in Hi as [? _].
  - intros H. apply Z.bits_inj'. intros i _. rewrite Z.land_spec.
    destruct (Z.testbit b i) eqn:Hb; [by rewrite H | by rewrite andb_false_r].
Qed.

Lemma Capabilities_contains_bitor a b c :
  Capabilities_contains a (Capabilities_bitor b c) =
  Capabilities_contains a b && Capabilities_contains a c.
Proof.
  apply eq_true_iff_eq. rewrite andb_true_iff, !Capabilities_contains_iff.
  unfold Capabilities_bitor. setoid_rewrite Z.lor_spec. setoid_rewrite orb_true_iff. naive_solver.
Qed.

(** ** Property *)

(** every handshake within the protocol's limits encodes, to the layout of
    [Handshake_bytes]; and decoding accepts exactly those encodings, whole: a
    name or pairing id over its limit or not UTF-8, another protocol version, a
    short salt and trailing bytes are all rejected. *)
Theorem handshake_wire_format (bs : list byte) (h : Handshake) :
  (Handshake_wf h -> Handshake_encode h = Ok (Handshake_bytes h)) /\
  (Handshake_decode bs = Ok h <-> Handshake_wf h /\ bs = Handshake_bytes h).
Proof.
  split; [apply Handshake_encode_eq|]. rewrite Handshake_decode_iff. split.
  - intros [W E]. split; [done|]. rewrite Handshake_encode_eq in E by done. by injection E as <-.
  - intros [W ->]. split; [done | by apply Handshake_encode_eq].
Qed.
