(* ===== verification/Pairing.v ===== *)
(** * Pairing messages

    [clients/rust/maho-proto/src/pairing.rs]: the request a client makes, the
    grant that carries the long-term key, and the rejection. *)

From S2P Require Import Prelude Codec.

Definition MAX_PAIRING_NAME_BYTES : Z := 1024.
Definition PAIRING_KEY_SIZE : Z := 32.
#[export] Hint Unfold MAX_PAIRING_NAME_BYTES PAIRING_KEY_SIZE : limits.

(** ** PairingRequest *)

Record PairingRequest : Type := mkPairingRequest { pr_name : rstring }.

Definition PairingRequest_encode (r : PairingRequest) : cresult (list byte) :=
  name ← checked_bytes (pr_name r) "pairing request name" MAX_PAIRING_NAME_BYTES;
  length ← usize_to_u16 (len name) "pairing request name";
  let output := push_u16 [] length in
  Ok (output ++ name).

Definition PairingRequest_decode : list byte -> cresult PairingRequest :=
  run_decoder (
    length ← read_u16 "pairing request name length";
    if MAX_PAIRING_NAME_BYTES <? length
    then dfail (LengthLimit "pairing request name" length MAX_PAIRING_NAME_BYTES) else
    name ← read_utf8 length "pairing request name";
    _ ← finish "pairing request";
    mret (mkPairingRequest name)).

#[export] Instance PairingRequest_codec : WireCodec PairingRequest :=
  { encode := PairingRequest_encode; decode := PairingRequest_decode }.

Definition PairingRequest_wf (r : PairingRequest) : Prop :=
  len (pr_name r) <= MAX_PAIRING_NAME_BYTES /\ utf8_valid (pr_name r) = true.

Definition PairingRequest_bytes (r : PairingRequest) : list byte :=
  le_bytes 2 (len (pr_name r)) ++ pr_name r.

Lemma PairingRequest_encode_eq r :
  PairingRequest_wf r -> PairingRequest_encode r = Ok (PairingRequest_bytes r).
Proof. solve_encode. Qed.

Lemma PairingRequest_decode_iff bs r :
  PairingRequest_decode bs = Ok r <-> PairingRequest_wf r /\ PairingRequest_encode r = Ok bs.
Proof. unfold PairingRequest_decode. solve_wire PairingRequest_encode_eq. Qed.

#[export] Instance PairingRequest_laws : WireLaws PairingRequest :=
  wire_laws_of PairingRequest_wf PairingRequest_bytes PairingRequest_encode_eq PairingRequest_decode_iff.
#[export] Instance PairingRequest_canonical : WireCanonical PairingRequest :=
  wire_canonical_of PairingRequest_wf PairingRequest_decode_iff.

(** ** PairingGrant *)

Record PairingGrant : Type := mkPairingGrant {
  pg_pairing_id : rstring;
  pg_host_name : rstring;
  pg_key : list byte
}.

Definition PairingGrant_encode (g : PairingGrant) : cresult (list byte) :=
  pairing_id ← checked_bytes (pg_pairing_id g) "pairing grant ID" U8_MAX;
  host_name ← checked_bytes (pg_host_name g) "pairing grant host name" U16_MAX;
  id_length ← usize_to_u8 (len pairing_id) "pairing grant ID";
  let output := push_u8 [] id_length in
  let output := output ++ pairing_id in
  name_length ← usize_to_u16 (len host_name) "pairing grant host name";
  let output := push_u16 output name_length in
  let output := output ++ host_name in
  let output := push_u8 output PAIRING_KEY_SIZE in
  Ok (output ++ pg_key g).

Definition PairingGrant_decode : list byte -> cresult PairingGrant :=
  run_decoder (
    pairing_id_length ← read_u8 "pairing grant ID length";
    pairing_id ← read_utf8 pairing_id_length "pairing grant ID";
    host_name_length ← read_u16 "pairing grant host name length";
    host_name ← read_utf8 host_name_length "pairing grant host name";
    key_length ← read_u8 "pairing key length";
    if negb (key_length =? PAIRING_KEY_SIZE)
    then dfail (InvalidLength "pairing key" key_length PAIRING_KEY_SIZE) else
    key ← take_bytes key_length "pairing key";
    _ ← finish "pairing grant";
    mret (mkPairingGrant pairing_id host_name key)).

#[export] Instance PairingGrant_codec : WireCodec PairingGrant :=
  { encode := PairingGrant_encode; decode := PairingGrant_decode }.

Definition PairingGrant_wf (g : PairingGrant) : Prop :=
  len (pg_pairing_id g) <= U8_MAX /\ utf8_valid (pg_pairing_id g) = true /\
  len (pg_host_name g) <= U16_MAX /\ utf8_valid (pg_host_name g) = true /\
  len (pg_key g) = PAIRING_KEY_SIZE.

Definition PairingGrant_bytes (g : PairingGrant) : list byte :=
  le_bytes 1 (len (pg_pairing_id g)) ++ pg_pairing_id g ++
  le_bytes 2 (len (pg_host_name g)) ++ pg_host_name g ++
  le_bytes 1 PAIRING_KEY_SIZE ++ pg_key g.

Lemma PairingGrant_encode_eq g :
  PairingGrant_wf g -> PairingGrant_encode g = Ok (PairingGrant_bytes g).
Proof. solve_encode. Qed.

Lemma PairingGrant_decode_iff bs g :
  PairingGrant_decode bs = Ok g <-> PairingGrant_wf g /\ PairingGrant_encode g = Ok bs.
Proof. unfold PairingGrant_decode. solve_wire PairingGrant_encode_eq. Qed.

#[export] Instance PairingGrant_laws : WireLaws PairingGrant :=
  wire_laws_of PairingGrant_wf PairingGrant_bytes PairingGrant_encode_eq PairingGrant_decode_iff.
#[export] Instance PairingGrant_canonical : WireCanonical PairingGrant :=
  wire_canonical_of PairingGrant_wf PairingGrant_decode_iff.

(** ** PairingReject *)

Inductive PairingRejectReason : Type := PRR_DeniedByHost | PRR_LockedOut | PRR_PairingDisabled.

#[export] Instance PairingRejectReason_eq_dec : EqDecision PairingRejectReason.
Proof. solve_decision. Defined.

Definition PairingRejectReason_u8 (r : PairingRejectReason) : Z :=
  match r with PRR_DeniedByHost => 0 | PRR_LockedOut => 1 | PRR_PairingDisabled => 2 end.

Definition PairingRejectReason_ALL : list PairingRejectReason :=
  [PRR_DeniedByHost; PRR_LockedOut; PRR_PairingDisabled].

Definition PairingRejectReason_try_from (value : Z) : cresult PairingRejectReason :=
  match value with
  | 0 => Ok PRR_DeniedByHost
  | 1 => Ok PRR_LockedOut
  | 2 => Ok PRR_PairingDisabled
  | unknown => Err (UnknownPairingRejectReason unknown)
  end.

Record PairingReject : Type := mkPairingReject { prj_reason : PairingRejectReason }.

Definition PairingReject_encode (r : PairingReject) : cresult (list byte) :=
  Ok (le_bytes 1 (PairingRejectReason_u8 (prj_reason r))).

Definition PairingReject_decode : list byte -> cresult PairingReject :=
  run_decoder (
    reason ← read_enum PairingRejectReason_try_from "pairing reject reason";
    _ ← finish "pairing reject";
    mret (mkPairingReject reason)).

#[export] Instance PairingReject_codec : WireCodec PairingReject :=
  { encode := PairingReject_encode; decode := PairingReject_decode }.

Lemma PairingRejectReason_try_from_iff v t :
  PairingRejectReason_try_from v = Ok t <-> v = PairingRejectReason_u8 t.
Proof. solve_enum. Qed.

Lemma as_PairingRejectReason field :
  parses_as (read_enum PairingRejectReason_try_from field) (fun _ => True)
    (fun t => le_bytes 1 (PairingRejectReason_u8 t)).
Proof. apply as_enum; [apply PairingRejectReason_try_from_iff | by intros []]. Qed.
#[export] Hint Resolve as_PairingRejectReason : parses.

Definition PairingReject_wf (r : PairingReject) : Prop := True.
Definition PairingReject_bytes (r : PairingReject) : list byte :=
  le_bytes 1 (PairingRejectReason_u8 (prj_reason r)).

Lemma PairingReject_encode_eq r :
  PairingReject_wf r -> PairingReject_encode r = Ok (PairingReject_bytes r).
Proof. solve_encode. Qed.

Lemma PairingReject_decode_iff bs r :
  PairingReject_decode bs = Ok r <-> PairingReject_wf r /\ PairingReject_encode r = Ok bs.
Proof. unfold PairingReject_decode. solve_wire PairingReject_encode_eq. Qed.

#[export] Instance PairingReject_laws : WireLaws PairingReject :=
  wire_laws_of PairingReject_wf PairingReject_bytes PairingReject_encode_eq PairingReject_decode_iff.
#[export] Instance PairingReject_canonical : WireCanonical PairingReject :=
  wire_canonical_of PairingReject_wf PairingReject_decode_iff.
