(* ===== verification/Media.v ===== *)
(** * Media messages

    [clients/rust/maho-proto/src/media.rs]: frame headers and chunks, cursor
    updates, audio fragments, colour metadata and the legacy timestamp record. *)

From S2P Require Import Prelude Codec.

Definition MAX_CHUNKS_PER_FRAME : Z := 8192.
Definition MAX_FRAME_BYTES : Z := 32 * 1024 * 1024.
Definition MAX_VIDEO_CHUNK_BYTES : Z := 1382.
Definition MAX_AUDIO_FRAGMENT_BYTES : Z := 1380.
#[export] Hint Unfold MAX_CHUNKS_PER_FRAME MAX_FRAME_BYTES MAX_VIDEO_CHUNK_BYTES
  MAX_AUDIO_FRAGMENT_BYTES : limits.

(** ** TimestampStats *)

Definition TIMESTAMP_STATS_MAGIC : list byte := str_bytes "ERDTS1".

Record TimestampStats : Type := mkTimestampStats {
  ts_frame_id : Z;
  ts_capture_us : Z;
  ts_encode_start_us : Z;
  ts_encode_end_us : Z;
  ts_send_us : Z
}.

Definition TimestampStats_SIZE : Z := 6 + 4 + 8 * 4.

Definition TimestampStats_encode (t : TimestampStats) : list byte :=
  let output := [] ++ TIMESTAMP_STATS_MAGIC in
  let output := output ++ le_bytes 4 (ts_frame_id t) in
  let output := output ++ le_bytes 8 (ts_capture_us t) in
  let output := output ++ le_bytes 8 (ts_encode_start_us t) in
  let output := output ++ le_bytes 8 (ts_encode_end_us t) in
  output ++ le_bytes 8 (ts_send_us t).

(** [bytes[from..to]] *)
Definition slice (bytes : list byte) (from to : nat) : list byte :=
  take (to - from) (drop from bytes).

Definition TimestampStats_decode (bytes : list byte) : option TimestampStats :=
  if negb (len bytes =? TimestampStats_SIZE)
     || negb (bool_decide (take 6 bytes = TIMESTAMP_STATS_MAGIC))
  then None
  else Some (mkTimestampStats (le_value (slice bytes 6 10)) (le_value (slice bytes 10 18))
    (le_value (slice bytes 18 26)) (le_value (slice bytes 26 34)) (le_value (slice bytes 34 42))).

Definition TimestampStats_wf (t : TimestampStats) : Prop :=
  u32_ok (ts_frame_id t) /\ u64_ok (ts_capture_us t) /\ u64_ok (ts_encode_start_us t) /\
  u64_ok (ts_encode_end_us t) /\ u64_ok (ts_send_us t).

(** Cuts a list of known length in two. *)
Lemma split_len n k (bs : list byte) :
  length bs = (n + k)%nat -> exists a b, bs = a ++ b /\ length a = n /\ length b = k.
Proof.
  intros L. exists (take n bs), (drop n bs). rewrite take_drop, length_take, length_drop.
  split_and!; [done | lia..].
Qed.

Lemma le_value_bytes n bs :
  length bs = n -> 0 <= le_value bs < 256 ^ Z.of_nat n /\ le_bytes n (le_value bs) = bs.
Proof. intros <-. split; [apply le_value_range | apply le_bytes_le_value]. Qed.

(** The slices of a record of fixed-size fields. *)
Lemma slices_of_fields (m f c s e d : list byte) :
  length m = 6%nat -> length f = 4%nat -> length c = 8%nat -> length s = 8%nat ->
  length e = 8%nat -> length d = 8%nat ->
  let bs := m ++ f ++ c ++ s ++ e ++ d in
  take 6 bs = m /\ slice bs 6 10 = f /\ slice bs 10 18 = c /\ slice bs 18 26 = s /\
  slice bs 26 34 = e /\ slice bs 34 42 = d.
Proof.
  intros. subst bs.
  repeat match goal with
  | l : list byte |- _ => do 9 (try (destruct l as [|? l]; try discriminate))
  end.
  done.
Qed.

Lemma TimestampStats_decode_iff bs t :
  TimestampStats_decode bs = Some t <-> TimestampStats_wf t /\ TimestampStats_encode t = bs.
Proof.
  unfold TimestampStats_decode, TimestampStats_wf, TimestampStats_encode. split.
  - case_if; [done|].
    assert (length bs = 6 + (4 + (8 + (8 + (8 + 8)))))%nat as L by (unfold TimestampStats_SIZE, len in *; lia).
    apply split_len in L as (m & r1 & -> & Hm & L). apply split_len in L as (f & r2 & -> & Hf & L).
    apply split_len in L as (c & r3 & -> & Hc & L). apply split_len in L as (s & r4 & -> & Hs & L).
    apply split_len in L as (e & d & -> & He & Hd).
    destruct (slices_of_fields m f c s e d) as (Em & -> & -> & -> & -> & ->); [done..|].
    intros [= <-]. cbn. rewrite Em in *. subst m.
    repeat match goal with
    | H : length ?l = _ |- context [le_bytes _ (le_value ?l)] =>
        destruct (le_value_bytes _ l H) as [? ->]; clear H
    end.
    rewrite <- !app_assoc. done.
  - destruct t as [fi ca es ee se].
    cbn [ts_frame_id ts_capture_us ts_encode_start_us ts_encode_end_us ts_send_us].
    intros [(? & ? & ? & ? & ?) <-]. rewrite app_nil_l, <- !app_assoc.
    destruct (slices_of_fields TIMESTAMP_STATS_MAGIC (le_bytes 4 fi) (le_bytes 8 ca)
      (le_bytes 8 es) (le_bytes 8 ee) (le_bytes 8 se)) as (-> & -> & -> & -> & -> & ->);
      [by rewrite ?le_bytes_length..|].
    autorewrite with len. cbn.
    rewrite !le_value_le_bytes_small by width_lia. done.
Qed.

(** ** FrameHeader

    The decoder takes any non-zero key flag and any padding byte, so a header
    has several encodings; [FrameHeader_decode_iff] describes them all. *)

Record FrameHeader : Type := mkFrameHeader {
  fh_frame_id : Z;
  fh_width : Z;
  fh_height : Z;
  fh_is_key_frame : bool;
  fh_total_chunks : Z;
  fh_total_size : Z
}.

#[export] Instance FrameHeader_eq_dec : EqDecision FrameHeader.
Proof. solve_decision. Defined.

Definition FrameHeader_SIZE : Z := 16.

Definition FrameHeader_validate (h : FrameHeader) : cresult unit :=
  if MAX_CHUNKS_PER_FRAME <? fh_total_chunks h
  then Err (LengthLimit "frame chunks" (fh_total_chunks h) MAX_CHUNKS_PER_FRAME)
  else if MAX_FRAME_BYTES <? fh_total_size h
  then Err (LengthLimit "frame bytes" (fh_total_size h) MAX_FRAME_BYTES)
  else
    let chunk_capacity := fh_total_chunks h * MAX_VIDEO_CHUNK_BYTES in
    if chunk_capacity <? fh_total_size h
    then Err (LengthLimit "frame bytes for chunk count" (fh_total_size h) chunk_capacity)
    else Ok tt.

Definition FrameHeader_encode (h : FrameHeader) : cresult (list byte) :=
  _ ← FrameHeader_validate h;
  let output := push_u32 [] (fh_frame_id h) in
  let output := push_u16 output (fh_width h) in
  let output := push_u16 output (fh_height h) in
  let output := push_u8 output (bool_u8 (fh_is_key_frame h)) in
  let output := push_u16 output (fh_total_chunks h) in
  let output := push_u8 output 0 in
  let output := push_u32 output (fh_total_size h) in
  Ok output.

Definition FrameHeader_decode : list byte -> cresult FrameHeader :=
  run_decoder (
    frame_id ← read_u32 "frame ID";
    width ← read_u16 "frame width";
    height ← read_u16 "frame height";
    key ← read_u8 "frame key flag";
    total_chunks ← read_u16 "frame chunk count";
    _padding ← read_u8 "frame padding";
    total_size ← read_u32 "frame total size";
    let value := mkFrameHeader frame_id width height (negb (key =? 0)) total_chunks total_size in
    _ ← finish "frame header";
    _ ← dlift (FrameHeader_validate value);
    mret value).

#[export] Instance FrameHeader_codec : WireCodec FrameHeader :=
  { encode := FrameHeader_encode; decode := FrameHeader_decode }.

Definition FrameHeader_wf (h : FrameHeader) : Prop :=
  u32_ok (fh_frame_id h) /\ u16_ok (fh_width h) /\ u16_ok (fh_height h) /\
  0 <= fh_total_chunks h <= MAX_CHUNKS_PER_FRAME /\
  0 <= fh_total_size h <= MAX_FRAME_BYTES /\
  fh_total_size h <= fh_total_chunks h * MAX_VIDEO_CHUNK_BYTES.

(** The encodings of a header: key flag and padding byte are free. *)
Definition FrameHeader_bytes_with (key padding : Z) (h : FrameHeader) : list byte :=
  le_bytes 4 (fh_frame_id h) ++ le_bytes 2 (fh_width h) ++ le_bytes 2 (fh_height h) ++
  le_bytes 1 key ++ le_bytes 2 (fh_total_chunks h) ++ le_bytes 1 padding ++
  le_bytes 4 (fh_total_size h).

Definition FrameHeader_bytes (h : FrameHeader) : list byte :=
  FrameHeader_bytes_with (bool_u8 (fh_is_key_frame h)) 0 h.

Lemma FrameHeader_validate_iff h :
  FrameHeader_validate h = Ok tt <->
  fh_total_chunks h <= MAX_CHUNKS_PER_FRAME /\ fh_total_size h <= MAX_FRAME_BYTES /\
  fh_total_size h <= fh_total_chunks h * MAX_VIDEO_CHUNK_BYTES.
Proof. unfold FrameHeader_validate. repeat case_if; naive_solver lia. Qed.

Lemma FrameHeader_encode_eq h :
  FrameHeader_wf h -> FrameHeader_encode h = Ok (FrameHeader_bytes h).
Proof.
  intros W. unfold FrameHeader_encode.
  replace (FrameHeader_validate h) with (@Ok CodecError unit tt)
    by (symmetry; apply FrameHeader_validate_iff; red in W; tauto).
  run_encode. done.
Qed.

Lemma FrameHeader_decode_iff bs h :
  FrameHeader_decode bs = Ok h <->
  FrameHeader_wf h /\ exists key padding, u8_ok key /\ u8_ok padding /\
    fh_is_key_frame h = negb (key =? 0) /\ bs = FrameHeader_bytes_with key padding h.
Proof.
  unfold FrameHeader_decode. erewrite run_accepts; [|solve_parses]. split.
  - intros. grammar_fwd.
    match goal with
    | H : FrameHeader_validate _ = Ok ?u |- _ => destruct u; apply FrameHeader_validate_iff in H
    end.
    cbn in *. split; [red; cbn; width_lia|]. do 2 eexists.
    split_and!; [| |done|]; [done..|]. unfold FrameHeader_bytes_with; cbn. by rewrite !app_nil_r.
  - intros [W (key & pad & ? & ? & K & ->)]. destruct h as [? ? ? ? ? ?].
    unfold FrameHeader_wf, FrameHeader_bytes_with in *; cbn in *. destruct_and?. subst.
    grammar_bwd; [> try (wire_side || apply FrameHeader_validate_iff; cbn; split_and!; done) ..].
Qed.

Lemma FrameHeader_round_trip h bs :
  FrameHeader_wf h -> FrameHeader_encode h = Ok bs -> FrameHeader_decode bs = Ok h.
Proof.
  intros W E. rewrite FrameHeader_encode_eq in E by done. injection E as <-.
  apply FrameHeader_decode_iff. split; [done|].
  exists (bool_u8 (fh_is_key_frame h)), 0. destruct (fh_is_key_frame h) eqn:K; cbn;
    split_and!; try width_lia; unfold FrameHeader_bytes; rewrite ?K; done.
Qed.

#[export] Instance FrameHeader_laws : WireLaws FrameHeader := {
  wire_wf := FrameHeader_wf;
  wire_encode_total h W := ex_intro _ _ (FrameHeader_encode_eq h W);
  wire_round_trip := FrameHeader_round_trip;
  wire_decode_wf bs h E := proj1 (proj1 (FrameHeader_decode_iff bs h) E)
}.

(** ** FrameChunk *)

Record FrameChunk : Type := mkFrameChunk {
  fc_frame_id : Z;
  fc_chunk_index : Z;
  fc_data : list byte
}.

#[export] Instance FrameChunk_eq_dec : EqDecision FrameChunk.
Proof. solve_decision. Defined.

Definition FrameChunk_HEADER_SIZE : Z := 6.

Definition FrameChunk_validate (c : FrameChunk) : cresult unit :=
  if MAX_CHUNKS_PER_FRAME <=? fc_chunk_index c
  then Err (InvalidValue "frame chunk index" (fc_chunk_index c))
  else if MAX_VIDEO_CHUNK_BYTES <? len (fc_data c)
  then Err (LengthLimit "video chunk data" (len (fc_data c)) MAX_VIDEO_CHUNK_BYTES)
  else Ok tt.

Definition FrameChunk_encode (c : FrameChunk) : cresult (list byte) :=
  _ ← FrameChunk_validate c;
  let output := push_u32 [] (fc_frame_id c) in
  let output := push_u16 output (fc_chunk_index c) in
  Ok (output ++ fc_data c).

Definition FrameChunk_decode : list byte -> cresult FrameChunk :=
  run_decoder (
    frame_id ← read_u32 "frame chunk ID";
    chunk_index ← read_u16 "frame chunk index";
    if MAX_CHUNKS_PER_FRAME <=? chunk_index
    then dfail (InvalidValue "frame chunk index" chunk_index) else
    data ← take_remaining;
    if MAX_VIDEO_CHUNK_BYTES <? len data
    then dfail (LengthLimit "video chunk data" (len data) MAX_VIDEO_CHUNK_BYTES) else
    mret (mkFrameChunk frame_id chunk_index data)).

#[export] Instance FrameChunk_codec : WireCodec FrameChunk :=
  { encode := FrameChunk_encode; decode := FrameChunk_decode }.

Definition FrameChunk_wf (c : FrameChunk) : Prop :=
  u32_ok (fc_frame_id c) /\ 0 <= fc_chunk_index c < MAX_CHUNKS_PER_FRAME /\
  len (fc_data c) <= MAX_VIDEO_CHUNK_BYTES.

Definition FrameChunk_bytes (c : FrameChunk) : list byte :=
  le_bytes 4 (fc_frame_id c) ++ le_bytes 2 (fc_chunk_index c) ++ fc_data c.

Lemma FrameChunk_validate_iff c :
  FrameChunk_validate c = Ok tt <->
  fc_chunk_index c < MAX_CHUNKS_PER_FRAME /\ len (fc_data c) <= MAX_VIDEO_CHUNK_BYTES.
Proof. unfold FrameChunk_validate. repeat case_if; naive_solver lia. Qed.

Lemma FrameChunk_encode_eq c : FrameChunk_wf c -> FrameChunk_encode c = Ok (FrameChunk_bytes c).
Proof.
  intros W. unfold FrameChunk_encode.
  replace (FrameChunk_validate c) with (@Ok CodecError unit tt)
    by (symmetry; apply FrameChunk_validate_iff; red in W; tauto).
  run_encode. done.
Qed.

Lemma FrameChunk_decode_iff bs c :
  FrameChunk_decode bs = Ok c <-> FrameChunk_wf c /\ FrameChunk_encode c = Ok bs.
Proof. unfold FrameChunk_decode. solve_wire FrameChunk_encode_eq. Qed.

#[export] Instance FrameChunk_laws : WireLaws FrameChunk :=
  wire_laws_of FrameChunk_wf FrameChunk_bytes FrameChunk_encode_eq FrameChunk_decode_iff.
#[export] Instance FrameChunk_canonical : WireCanonical FrameChunk :=
  wire_canonical_of FrameChunk_wf FrameChunk_decode_iff.

(** ** CursorUpdate *)

Record CursorUpdate : Type := mkCursorUpdate { cu_x : Z; cu_y : Z; cu_cursor_type : Z }.

Definition CursorUpdate_SIZE : Z := 9.

Definition CursorUpdate_encode (c : CursorUpdate) : cresult (list byte) :=
  let output := push_f32 [] (cu_x c) in
  let output := push_f32 output (cu_y c) in
  let output := push_u8 output (cu_cursor_type c) in
  Ok output.

Definition CursorUpdate_decode : list byte -> cresult CursorUpdate :=
  run_decoder (
    x ← read_f32 "cursor x";
    y ← read_f32 "cursor y";
    cursor_type ← read_u8 "cursor type";
    _ ← finish "cursor update";
    mret (mkCursorUpdate x y cursor_type)).

#[export] Instance CursorUpdate_codec : WireCodec CursorUpdate :=
  { encode := CursorUpdate_encode; decode := CursorUpdate_decode }.

Definition CursorUpdate_wf (c : CursorUpdate) : Prop :=
  u32_ok (cu_x c) /\ u32_ok (cu_y c) /\ u8_ok (cu_cursor_type c).

Definition CursorUpdate_bytes (c : CursorUpdate) : list byte :=
  le_bytes 4 (cu_x c) ++ le_bytes 4 (cu_y c) ++ le_bytes 1 (cu_cursor_type c).

Lemma CursorUpdate_encode_eq c :
  CursorUpdate_wf c -> CursorUpdate_encode c = Ok (CursorUpdate_bytes c).
Proof. solve_encode. Qed.

Lemma CursorUpdate_decode_iff bs c :
  CursorUpdate_decode bs = Ok c <-> CursorUpdate_wf c /\ CursorUpdate_encode c = Ok bs.
Proof. unfold CursorUpdate_decode. solve_wire CursorUpdate_encode_eq. Qed.

#[export] Instance CursorUpdate_laws : WireLaws CursorUpdate :=
  wire_laws_of CursorUpdate_wf CursorUpdate_bytes CursorUpdate_encode_eq CursorUpdate_decode_iff.
#[export] Instance CursorUpdate_canonical : WireCanonical CursorUpdate :=
  wire_canonical_of CursorUpdate_wf CursorUpdate_decode_iff.

(** ** Audio fragments *)

Record AudioFragmentHeader : Type := mkAudioFragmentHeader {
  afh_frame_id : Z;
  afh_fragment_index : Z;
  afh_fragment_count : Z
}.

Definition AudioFragmentHeader_SIZE : nat := 8.

Definition AudioFragmentHeader_validate (h : AudioFragmentHeader) : cresult unit :=
  if afh_fragment_count h =? 0
  then Err (InvalidValue "audio fragment count" 0)
  else if afh_fragment_count h <=? afh_fragment_index h
  then Err (InvalidValue "audio fragment index" (afh_fragment_index h))
  else Ok tt.

Definition AudioFragmentHeader_to_bytes (h : AudioFragmentHeader) : cresult (list byte) :=
  _ ← AudioFragmentHeader_validate h;
  let output := replicate AudioFragmentHeader_SIZE (Z_to_byte 0) in
  let output := copy_into output 0 (le_bytes 4 (afh_frame_id h)) in
  let output := copy_into output 4 (le_bytes 2 (afh_fragment_index h)) in
  let output := copy_into output 6 (le_bytes 2 (afh_fragment_count h)) in
  Ok output.

Definition AudioFragmentHeader_encode (h : AudioFragmentHeader) : cresult (list byte) :=
  AudioFragmentHeader_to_bytes h.

Definition AudioFragmentHeader_decode : list byte -> cresult AudioFragmentHeader :=
  run_decoder (
    frame_id ← read_u32 "audio frame ID";
    fragment_index ← read_u16 "audio fragment index";
    fragment_count ← read_u16 "audio fragment count";
    let value := mkAudioFragmentHeader frame_id fragment_index fragment_count in
    _ ← finish "audio fragment header";
    _ ← dlift (AudioFragmentHeader_validate value);
    mret value).

#[export] Instance AudioFragmentHeader_codec : WireCodec AudioFragmentHeader :=
  { encode := AudioFragmentHeader_encode; decode := AudioFragmentHeader_decode }.

Definition AudioFragmentHeader_wf (h : AudioFragmentHeader) : Prop :=
  u32_ok (afh_frame_id h) /\ u16_ok (afh_fragment_count h) /\
  0 <= afh_fragment_index h < afh_fragment_count h.

Definition AudioFragmentHeader_bytes (h : AudioFragmentHeader) : list byte :=
  le_bytes 4 (afh_frame_id h) ++ le_bytes 2 (afh_fragment_index h) ++
  le_bytes 2 (afh_fragment_count h).

Lemma AudioFragmentHeader_validate_iff h u :
  AudioFragmentHeader_validate h = Ok u <->
  afh_fragment_count h <> 0 /\ afh_fragment_index h < afh_fragment_count h.
Proof. destruct u. unfold AudioFragmentHeader_validate. repeat case_if; naive_solver lia. Qed.

Lemma AudioFragmentHeader_wf_validate h :
  AudioFragmentHeader_wf h -> AudioFragmentHeader_validate h = Ok tt.
Proof. unfold AudioFragmentHeader_wf. intros. apply AudioFragmentHeader_validate_iff. lia. Qed.

Lemma AudioFragmentHeader_encode_eq h :
  AudioFragmentHeader_wf h -> AudioFragmentHeader_encode h = Ok (AudioFragmentHeader_bytes h).
Proof.
  intros W. unfold AudioFragmentHeader_encode, AudioFragmentHeader_to_bytes.
  rewrite AudioFragmentHeader_wf_validate by done. done.
Qed.

Lemma AudioFragmentHeader_decode_iff bs h :
  AudioFragmentHeader_decode bs = Ok h <->
  AudioFragmentHeader_wf h /\ AudioFragmentHeader_encode h = Ok bs.
Proof.
  unfold AudioFragmentHeader_decode. erewrite run_accepts; [|solve_parses]. split.
  - intros. grammar_fwd.
    match goal with H : AudioFragmentHeader_validate _ = _ |- _ =>
      apply AudioFragmentHeader_validate_iff in H; cbn in H end.
    wire_fwd AudioFragmentHeader_encode_eq.
  - intros [W E]. rewrite AudioFragmentHeader_encode_eq in E by done. injection E as <-.
    pose proof (AudioFragmentHeader_wf_validate h W).
    destruct h. unfold AudioFragmentHeader_wf, AudioFragmentHeader_bytes in *; cbn in *.
    destruct_and?. grammar_bwd; [> try wire_side ..].
Qed.

#[export] Instance AudioFragmentHeader_laws : WireLaws AudioFragmentHeader :=
  wire_laws_of AudioFragmentHeader_wf AudioFragmentHeader_bytes AudioFragmentHeader_encode_eq AudioFragmentHeader_decode_iff.
#[export] Instance AudioFragmentHeader_canonical : WireCanonical AudioFragmentHeader :=
  wire_canonical_of AudioFragmentHeader_wf AudioFragmentHeader_decode_iff.

Record AudioFragment : Type := mkAudioFragment {
  af_header : AudioFragmentHeader;
  af_data : list byte
}.

Definition AudioFragment_validate (f : AudioFragment) : cresult unit :=
  _ ← AudioFragmentHeader_validate (af_header f);
  if MAX_AUDIO_FRAGMENT_BYTES <? len (af_data f)
  then Err (LengthLimit "audio fragment data" (len (af_data f)) MAX_AUDIO_FRAGMENT_BYTES)
  else Ok tt.

Definition AudioFragment_encode (f : AudioFragment) : cresult (list byte) :=
  _ ← AudioFragment_validate f;
  output ← AudioFragmentHeader_encode (af_header f);
  Ok (output ++ af_data f).

Definition AudioFragment_decode : list byte -> cresult AudioFragment :=
  run_decoder (
    frame_id ← read_u32 "audio frame ID";
    fragment_index ← read_u16 "audio fragment index";
    fragment_count ← read_u16 "audio fragment count";
    let header := mkAudioFragmentHeader frame_id fragment_index fragment_count in
    _ ← dlift (AudioFragmentHeader_validate header);
    data ← take_remaining;
    if MAX_AUDIO_FRAGMENT_BYTES <? len data
    then dfail (LengthLimit "audio fragment data" (len data) MAX_AUDIO_FRAGMENT_BYTES) else
    mret (mkAudioFragment header data)).

#[export] Instance AudioFragment_codec : WireCodec AudioFragment :=
  { encode := AudioFragment_encode; decode := AudioFragment_decode }.

Definition AudioFragment_wf (f : AudioFragment) : Prop :=
  AudioFragmentHeader_wf (af_header f) /\ len (af_data f) <= MAX_AUDIO_FRAGMENT_BYTES.

Definition AudioFragment_bytes (f : AudioFragment) : list byte :=
  AudioFragmentHeader_bytes (af_header f) ++ af_data f.

Lemma AudioFragment_encode_eq f :
  AudioFragment_wf f -> AudioFragment_encode f = Ok (AudioFragment_bytes f).
Proof.
  intros [W L]. unfold AudioFragment_encode, AudioFragment_validate.
  rewrite AudioFragmentHeader_wf_validate by done. rewrite bind_ok.
  case_if; [lia|]. rewrite bind_ok, AudioFragmentHeader_encode_eq by done. done.
Qed.

Lemma AudioFragment_decode_iff bs f :
  AudioFragment_decode bs = Ok f <-> AudioFragment_wf f /\ AudioFragment_encode f = Ok bs.
Proof.
  unfold AudioFragment_decode. erewrite run_accepts; [|solve_parses]. split.
  - intros. grammar_fwd.
    match goal with H : AudioFragmentHeader_validate _ = _ |- _ =>
      apply AudioFragmentHeader_validate_iff in H; cbn in H end.
    lazymatch goal with |- ?W /\ _ => assert (HW : W)
      by (unfold AudioFragment_wf, AudioFragmentHeader_wf; cbn; width_lia) end.
    split; [exact HW|]. rewrite AudioFragment_encode_eq by exact HW. done.
  - intros [W E]. rewrite AudioFragment_encode_eq in E by done. injection E as <-.
    destruct W as [W L]. pose proof (AudioFragmentHeader_wf_validate _ W).
    destruct f as [[] ?]. unfold AudioFragmentHeader_wf, AudioFragment_bytes, AudioFragmentHeader_bytes in *.
    cbn [af_header af_data afh_frame_id afh_fragment_index afh_fragment_count] in *.
    rewrite <- !app_assoc. destruct_and?. grammar_bwd; [> try wire_side ..].
Qed.

#[export] Instance AudioFragment_laws : WireLaws AudioFragment :=
  wire_laws_of AudioFragment_wf AudioFragment_bytes AudioFragment_encode_eq AudioFragment_decode_iff.
#[export] Instance AudioFragment_canonical : WireCanonical AudioFragment :=
  wire_canonical_of AudioFragment_wf AudioFragment_decode_iff.

(** ** Colour metadata *)

Inductive ColorRange : Type := CR_Limited | CR_Full.
Inductive ColorMatrix : Type := CX_Bt709 | CX_Bt601 | CX_Bt2020.
Inductive ChromaSubsampling : Type := CS_Yuv420 | CS_Yuv444.

Definition ColorRange_u8 (r : ColorRange) : Z :=
  match r with CR_Limited => 0 | CR_Full => 1 end.
Definition ColorMatrix_u8 (m : ColorMatrix) : Z :=
  match m with CX_Bt709 => 0 | CX_Bt601 => 1 | CX_Bt2020 => 2 end.
Definition ChromaSubsampling_u8 (c : ChromaSubsampling) : Z :=
  match c with CS_Yuv420 => 0 | CS_Yuv444 => 1 end.

Record ColorMetadata : Type := mkColorMetadata {
  cm_range : ColorRange;
  cm_matrix : ColorMatrix;
  cm_chroma : ChromaSubsampling
}.

Definition ColorMetadata_encode_into (c : ColorMetadata) (output : list byte) : list byte :=
  let output := push_u8 output (ColorRange_u8 (cm_range c)) in
  let output := push_u8 output (ColorMatrix_u8 (cm_matrix c)) in
  push_u8 output (ChromaSubsampling_u8 (cm_chroma c)).

(** The three [match decoder.u8(..)?] of [decode_from]. *)
Definition ColorRange_of (value : Z) : cresult ColorRange :=
  match value with
  | 0 => Ok CR_Limited
  | 1 => Ok CR_Full
  | unknown => Err (UnknownColorRange unknown)
  end.
Definition ColorMatrix_of (value : Z) : cresult ColorMatrix :=
  match value with
  | 0 => Ok CX_Bt709
  | 1 => Ok CX_Bt601
  | 2 => Ok CX_Bt2020
  | unknown => Err (UnknownColorMatrix unknown)
  end.
Definition ChromaSubsampling_of (value : Z) : cresult ChromaSubsampling :=
  match value with
  | 0 => Ok CS_Yuv420
  | 1 => Ok CS_Yuv444
  | unknown => Err (UnknownChromaSubsampling unknown)
  end.

Definition ColorMetadata_decode_from : decoder ColorMetadata :=
  range ← read_enum ColorRange_of "color range";
  matrix ← read_enum ColorMatrix_of "color matrix";
  chroma ← read_enum ChromaSubsampling_of "chroma subsampling";
  mret (mkColorMetadata range matrix chroma).

Definition ColorMetadata_encode (c : ColorMetadata) : cresult (list byte) :=
  Ok (ColorMetadata_encode_into c []).

Definition ColorMetadata_decode : list byte -> cresult ColorMetadata :=
  run_decoder (
    value ← ColorMetadata_decode_from;
    _ ← finish "color metadata";
    mret value).

#[export] Instance ColorMetadata_codec : WireCodec ColorMetadata :=
  { encode := ColorMetadata_encode; decode := ColorMetadata_decode }.

Lemma ColorRange_of_iff v t : ColorRange_of v = Ok t <-> v = ColorRange_u8 t.
Proof. solve_enum. Qed.
Lemma ColorMatrix_of_iff v t : ColorMatrix_of v = Ok t <-> v = ColorMatrix_u8 t.
Proof. solve_enum. Qed.
Lemma ChromaSubsampling_of_iff v t : ChromaSubsampling_of v = Ok t <-> v = ChromaSubsampling_u8 t.
Proof. solve_enum. Qed.

Lemma as_ColorRange field :
  parses_as (read_enum ColorRange_of field) (fun _ => True) (fun t => le_bytes 1 (ColorRange_u8 t)).
Proof. apply as_enum; [apply ColorRange_of_iff | by intros []]. Qed.
Lemma as_ColorMatrix field :
  parses_as (read_enum ColorMatrix_of field) (fun _ => True) (fun t => le_bytes 1 (ColorMatrix_u8 t)).
Proof. apply as_enum; [apply ColorMatrix_of_iff | by intros []]. Qed.
Lemma as_ChromaSubsampling field :
  parses_as (read_enum ChromaSubsampling_of field) (fun _ => True)
    (fun t => le_bytes 1 (ChromaSubsampling_u8 t)).
Proof. apply as_enum; [apply ChromaSubsampling_of_iff | by intros []]. Qed.
#[export] Hint Resolve as_ColorRange as_ColorMatrix as_ChromaSubsampling : parses.

Definition ColorMetadata_wf (c : ColorMetadata) : Prop := True.
Definition ColorMetadata_bytes (c : ColorMetadata) : list byte :=
  le_bytes 1 (ColorRange_u8 (cm_range c)) ++ le_bytes 1 (ColorMatrix_u8 (cm_matrix c)) ++
  le_bytes 1 (ChromaSubsampling_u8 (cm_chroma c)).

Lemma as_ColorMetadata :
  parses_as ColorMetadata_decode_from ColorMetadata_wf ColorMetadata_bytes.
Proof. solve_as ColorMetadata_decode_from ColorMetadata_wf ColorMetadata_bytes. Qed.
#[export] Hint Resolve as_ColorMetadata : parses.

Lemma ColorMetadata_encode_eq c :
  ColorMetadata_wf c -> ColorMetadata_encode c = Ok (ColorMetadata_bytes c).
Proof. done. Qed.

Lemma ColorMetadata_decode_iff bs c :
  ColorMetadata_decode bs = Ok c <-> ColorMetadata_wf c /\ ColorMetadata_encode c = Ok bs.
Proof. unfold ColorMetadata_decode. solve_wire ColorMetadata_encode_eq. Qed.

#[export] Instance ColorMetadata_laws : WireLaws ColorMetadata :=
  wire_laws_of ColorMetadata_wf ColorMetadata_bytes ColorMetadata_encode_eq ColorMetadata_decode_iff.
#[export] Instance ColorMetadata_canonical : WireCanonical ColorMetadata :=
  wire_canonical_of ColorMetadata_wf ColorMetadata_decode_iff.

(** ** Property *)

(** what a received frame header guarantees: decoding accepts a byte string
    exactly when it is the 16-byte layout of a header whose fields fit their
    widths, with at most 8192 chunks, at most 32 MiB, and no more bytes than the
    chunks can carry; the key flag may be any byte (zero is false) and the
    padding byte is ignored. *)
Theorem frame_header_wire_format (bs : list byte) (h : FrameHeader) :
  FrameHeader_decode bs = Ok h <->
  FrameHeader_wf h /\ exists key padding, u8_ok key /\ u8_ok padding /\
    fh_is_key_frame h = negb (key =? 0) /\
    bs = le_bytes 4 (fh_frame_id h) ++ le_bytes 2 (fh_width h) ++ le_bytes 2 (fh_height h) ++
      le_bytes 1 key ++ le_bytes 2 (fh_total_chunks h) ++ le_bytes 1 padding ++
      le_bytes 4 (fh_total_size h).
Proof. apply FrameHeader_decode_iff. Qed.
