(* ===== verification/Input.v ===== *)
(** * Input events

    [clients/rust/maho-proto/src/input.rs]: the 21-byte input event, its types
    and the modifier set.  Coordinates are [f32] bit patterns; the constructors
    that compute with floats (pen clamping, coordinate mapping) are not
    modelled. *)

From S2P Require Import Prelude Codec.

Inductive InputEventType : Type :=
| IE_MouseMove | IE_LeftMouseDown | IE_LeftMouseUp | IE_RightMouseDown | IE_RightMouseUp
| IE_ScrollWheel | IE_KeyDown | IE_KeyUp | IE_FlagsChanged | IE_LeftMouseDragged
| IE_RightMouseDragged | IE_MiddleMouseDown | IE_MiddleMouseUp | IE_Reset | IE_RelativeMove
| IE_GamepadAxis | IE_GamepadButtonDown | IE_GamepadButtonUp | IE_PenMove | IE_PenDown
| IE_PenUp | IE_UnicodeChar.

#[export] Instance InputEventType_eq_dec : EqDecision InputEventType.
Proof. solve_decision. Defined.

Definition InputEventType_u8 (t : InputEventType) : Z :=
  match t with
  | IE_MouseMove => 0 | IE_LeftMouseDown => 1 | IE_LeftMouseUp => 2
  | IE_RightMouseDown => 3 | IE_RightMouseUp => 4 | IE_ScrollWheel => 5
  | IE_KeyDown => 6 | IE_KeyUp => 7 | IE_FlagsChanged => 8
  | IE_LeftMouseDragged => 9 | IE_RightMouseDragged => 10 | IE_MiddleMouseDown => 11
  | IE_MiddleMouseUp => 12 | IE_Reset => 13 | IE_RelativeMove => 14
  | IE_GamepadAxis => 15 | IE_GamepadButtonDown => 16 | IE_GamepadButtonUp => 17
  | IE_PenMove => 18 | IE_PenDown => 19 | IE_PenUp => 20 | IE_UnicodeChar => 21
  end.

Definition InputEventType_ALL : list InputEventType :=
  [IE_MouseMove; IE_LeftMouseDown; IE_LeftMouseUp; IE_RightMouseDown; IE_RightMouseUp;
   IE_ScrollWheel; IE_KeyDown; IE_KeyUp; IE_FlagsChanged; IE_LeftMouseDragged;
   IE_RightMouseDragged; IE_MiddleMouseDown; IE_MiddleMouseUp; IE_Reset; IE_RelativeMove;
   IE_GamepadAxis; IE_GamepadButtonDown; IE_GamepadButtonUp; IE_PenMove; IE_PenDown;
   IE_PenUp; IE_UnicodeChar].

Definition InputEventType_try_from (value : Z) : cresult InputEventType :=
  match value with
  | 0 => Ok IE_MouseMove
  | 1 => Ok IE_LeftMouseDown
  | 2 => Ok IE_LeftMouseUp
  | 3 => Ok IE_RightMouseDown
  | 4 => Ok IE_RightMouseUp
  | 5 => Ok IE_ScrollWheel
  | 6 => Ok IE_KeyDown
  | 7 => Ok IE_KeyUp
  | 8 => Ok IE_FlagsChanged
  | 9 => Ok IE_LeftMouseDragged
  | 10 => Ok IE_RightMouseDragged
  | 11 => Ok IE_MiddleMouseDown
  | 12 => Ok IE_MiddleMouseUp
  | 13 => Ok IE_Reset
  | 14 => Ok IE_RelativeMove
  | 15 => Ok IE_GamepadAxis
  | 16 => Ok IE_GamepadButtonDown
  | 17 => Ok IE_GamepadButtonUp
  | 18 => Ok IE_PenMove
  | 19 => Ok IE_PenDown
  | 20 => Ok IE_PenUp
  | 21 => Ok IE_UnicodeChar
  | unknown => Err (UnknownInputEventType unknown)
  end.

(** ** Modifiers: a [u16] bit set *)

Abbreviation Modifiers := Z (only parsing).
Definition MOD_SHIFT : Modifiers := Z.shiftl 1 0.
Definition MOD_CONTROL : Modifiers := Z.shiftl 1 1.
Definition MOD_OPTION : Modifiers := Z.shiftl 1 2.
Definition MOD_COMMAND : Modifiers := Z.shiftl 1 3.
Definition MOD_CAPS_LOCK : Modifiers := Z.shiftl 1 4.
Definition Modifiers_empty : Modifiers := 0.
Definition Modifiers_contains (self other : Modifiers) : bool := Z.land self other =? other.
Definition Modifiers_bitor (a b : Modifiers) : Modifiers := Z.lor a b.

(** ** The event *)

Record InputEvent : Type := mkInputEvent {
  ie_event_type : InputEventType;
  ie_x : Z;
  ie_y : Z;
  ie_key_code : Z;
  ie_modifiers : Modifiers;
  ie_scroll_dx : Z;
  ie_scroll_dy : Z
}.

Definition InputEvent_SIZE : Z := 21.

(** The bits of [0.0_f32]. *)
Definition F32_ZERO : Z := 0.

Definition InputEvent_unicode_char (code_unit x y : Z) : InputEvent :=
  mkInputEvent IE_UnicodeChar x y code_unit Modifiers_empty F32_ZERO F32_ZERO.

Definition InputEvent_pen_up (x y : Z) : InputEvent :=
  mkInputEvent IE_PenUp x y 0 Modifiers_empty F32_ZERO F32_ZERO.

(** [((gamepad_id as u16) << 8) | (id as u16)] *)
Definition gamepad_code (gamepad_id id : Z) : Z :=
  Z.lor (Z.shiftl gamepad_id 8 mod 65536) id.

Definition InputEvent_gamepad_axis (gamepad_id axis_id x y : Z) : InputEvent :=
  mkInputEvent IE_GamepadAxis x y (gamepad_code gamepad_id axis_id)
    Modifiers_empty F32_ZERO F32_ZERO.

Definition InputEvent_gamepad_button (gamepad_id button_id : Z) (pressed : bool) : InputEvent :=
  mkInputEvent (if pressed then IE_GamepadButtonDown else IE_GamepadButtonUp)
    F32_ZERO F32_ZERO (gamepad_code gamepad_id button_id) Modifiers_empty F32_ZERO F32_ZERO.

Definition InputEvent_encode (e : InputEvent) : cresult (list byte) :=
  let output := push_u8 [] (InputEventType_u8 (ie_event_type e)) in
  let output := push_f32 output (ie_x e) in
  let output := push_f32 output (ie_y e) in
  let output := push_u16 output (ie_key_code e) in
  let output := push_u16 output (ie_modifiers e) in
  let output := push_f32 output (ie_scroll_dx e) in
  let output := push_f32 output (ie_scroll_dy e) in
  Ok output.

Definition InputEvent_decode : list byte -> cresult InputEvent :=
  run_decoder (
    event_type ← read_enum InputEventType_try_from "input event type";
    x ← read_f32 "input x";
    y ← read_f32 "input y";
    key_code ← read_u16 "input key code";
    modifiers ← read_u16 "input modifiers";
    scroll_dx ← read_f32 "input scroll dx";
    scroll_dy ← read_f32 "input scroll dy";
    _ ← finish "input event";
    mret (mkInputEvent event_type x y key_code modifiers scroll_dx scroll_dy)).

#[export] Instance InputEvent_codec : WireCodec InputEvent :=
  { encode := InputEvent_encode; decode := InputEvent_decode }.

(** ** Laws *)

Lemma InputEventType_try_from_iff v t :
  InputEventType_try_from v = Ok t <-> v = InputEventType_u8 t.
Proof. solve_enum. Qed.

Lemma as_InputEventType field :
  parses_as (read_enum InputEventType_try_from field) (fun _ => True)
    (fun t => le_bytes 1 (InputEventType_u8 t)).
Proof. apply as_enum; [apply InputEventType_try_from_iff | by intros []]. Qed.
#[export] Hint Resolve as_InputEventType : parses.

Definition InputEvent_wf (e : InputEvent) : Prop :=
  u32_ok (ie_x e) /\ u32_ok (ie_y e) /\ u16_ok (ie_key_code e) /\ u16_ok (ie_modifiers e) /\
  u32_ok (ie_scroll_dx e) /\ u32_ok (ie_scroll_dy e).

Definition InputEvent_bytes (e : InputEvent) : list byte :=
  le_bytes 1 (InputEventType_u8 (ie_event_type e)) ++ le_bytes 4 (ie_x e) ++
  le_bytes 4 (ie_y e) ++ le_bytes 2 (ie_key_code e) ++ le_bytes 2 (ie_modifiers e) ++
  le_bytes 4 (ie_scroll_dx e) ++ le_bytes 4 (ie_scroll_dy e).

Lemma InputEvent_encode_eq e : InputEvent_wf e -> InputEvent_encode e = Ok (InputEvent_bytes e).
Proof. solve_encode. Qed.

Lemma InputEvent_decode_iff bs e :
  InputEvent_decode bs = Ok e <-> InputEvent_wf e /\ InputEvent_encode e = Ok bs.
Proof. unfold InputEvent_decode. solve_wire InputEvent_encode_eq. Qed.

#[export] Instance InputEvent_laws : WireLaws InputEvent :=
  wire_laws_of InputEvent_wf InputEvent_bytes InputEvent_encode_eq InputEvent_decode_iff.
#[export] Instance InputEvent_canonical : WireCanonical InputEvent :=
  wire_canonical_of InputEvent_wf InputEvent_decode_iff.

(** A gamepad code splits back into the pad and the axis or button. *)
Lemma gamepad_code_split pad id :
  u8_ok pad -> u8_ok id ->
  u16_ok (gamepad_code pad id) /\
  Z.shiftr (gamepad_code pad id) 8 = pad /\ Z.land (gamepad_code pad id) 255 = id.
Proof.
  intros Hp Hi. unfold gamepad_code. rewrite Z.shiftl_mul_pow2, Z.mod_small by width_lia.
  set (c := Z.lor (pad * 2 ^ 8) id).
  assert (Hs : Z.shiftr c 8 = pad).
  { unfold c. rewrite Z.shiftr_lor, !Z.shiftr_div_pow2, Z.div_mul, (Z.div_small id) by width_lia.
    apply Z.lor_0_r. }
  assert (Hl : Z.land c 255 = id).
  { change 255 with (Z.ones 8). unfold c.
    rewrite Z.land_lor_distr_l, !Z.land_ones, Z.mod_mul, (Z.mod_small id) by width_lia. done. }
  split; [|done]. change 255 with (Z.ones 8) in Hl. rewrite Z.land_ones in Hl by lia.
  rewrite Z.shiftr_div_pow2 in Hs by lia. pose proof (Z.div_mod c (2 ^ 8)). width_lia.
Qed.

(** ** Property *)

(** The gamepad constructors lose nothing on the way: whatever pad, control
    and position, the event they build encodes, decodes to itself, and its key
    code splits back into the pad and the control. *)
Theorem gamepad_events_round_trip (pad id x y : Z) (pressed : bool) :
  u8_ok pad -> u8_ok id -> u32_ok x -> u32_ok y ->
  forall e, e = InputEvent_gamepad_axis pad id x y \/ e = InputEvent_gamepad_button pad id pressed ->
  exists bs, InputEvent_encode e = Ok bs /\ InputEvent_decode bs = Ok e /\
    len bs = InputEvent_SIZE /\
    Z.shiftr (ie_key_code e) 8 = pad /\ Z.land (ie_key_code e) 255 = id.
Proof.
  intros Hp Hi Hx Hy e He. destruct (gamepad_code_split pad id Hp Hi) as (Hc & Hs & Hl).
  assert (W : InputEvent_wf e) by (destruct He as [->| ->]; cbn; split_and!; done).
  assert (K : ie_key_code e = gamepad_code pad id) by (by destruct He as [->| ->]).
  exists (InputEvent_bytes e). rewrite K. split_and!; try done.
  apply InputEvent_decode_iff. split; [done | by apply InputEvent_encode_eq].
Qed.

Lemma gamepad_events_round_trip_witness :
  let e := InputEvent_gamepad_axis 3 255 1065353216 0 in
  ie_key_code e = 1023 /\
  exists bs, InputEvent_encode e = Ok bs /\ InputEvent_decode bs = Ok e /\ len bs = InputEvent_SIZE /\
    Z.shiftr (ie_key_code e) 8 = 3 /\ Z.land (ie_key_code e) 255 = 255.
Proof.
  split; [reflexivity|].
  apply (gamepad_events_round_trip 3 255 1065353216 0 true); [vm_compute; split; congruence..|].
  left. reflexivity.
Defined.
