(* ===== verification/Parity.v ===== *)
(** * Parity messages

    [clients/rust/maho-proto/src/parity.rs]: the message bodies added for
    feature parity between hosts: secure attention, host status, session end,
    guest permissions, pairing trust, clipboard images and RTT probes. *)

From S2P Require Import Prelude Codec.

Definition MAX_ACTIVE_GUESTS : Z := 64.
Definition MAX_GUEST_NAME_BYTES : Z := 1024.
Definition MAX_CLIPBOARD_IMAGE_BYTES : Z := 8 * 1024 * 1024.
Definition MAX_CLIPBOARD_IMAGE_CHUNK_BYTES : Z := 64 * 1024.
#[export] Hint Unfold MAX_ACTIVE_GUESTS MAX_GUEST_NAME_BYTES MAX_CLIPBOARD_IMAGE_BYTES
  MAX_CLIPBOARD_IMAGE_CHUNK_BYTES : limits.

Definition PNG_SIGNATURE : list byte :=
  [Byte.x89; Byte.x50; Byte.x4e; Byte.x47; Byte.x0d; Byte.x0a; Byte.x1a; Byte.x0a].

(** ** Secure attention *)

Record SecureAttentionRequest : Type := mkSecureAttentionRequest { sar_request_id : Z }.

Definition SecureAttentionRequest_encode (r : SecureAttentionRequest) : cresult (list byte) :=
  Ok (push_u32 [] (sar_request_id r)).

Definition SecureAttentionRequest_decode : list byte -> cresult SecureAttentionRequest :=
  run_decoder (
    request_id ← read_u32 "secure attention request ID";
    _ ← finish "secure attention request";
    mret (mkSecureAttentionRequest request_id)).

#[export] Instance SecureAttentionRequest_codec : WireCodec SecureAttentionRequest :=
  { encode := SecureAttentionRequest_encode; decode := SecureAttentionRequest_decode }.

Inductive SecureAttentionResult : Type :=
| SA_Accepted | SA_PermissionDenied | SA_Unsupported | SA_Failed.

Definition SecureAttentionResult_u8 (r : SecureAttentionResult) : Z :=
  match r with SA_Accepted => 0 | SA_PermissionDenied => 1 | SA_Unsupported => 2 | SA_Failed => 3 end.

Definition SecureAttentionResult_try_from (value : Z) : cresult SecureAttentionResult :=
  match value with
  | 0 => Ok SA_Accepted
  | 1 => Ok SA_PermissionDenied
  | 2 => Ok SA_Unsupported
  | 3 => Ok SA_Failed
  | value => Err (InvalidValue "secure attention result" value)
  end.

Record SecureAttentionResponse : Type := mkSecureAttentionResponse {
  sas_request_id : Z;
  sas_result : SecureAttentionResult
}.

Definition SecureAttentionResponse_encode (r : SecureAttentionResponse) : cresult (list byte) :=
  let output := push_u32 [] (sas_request_id r) in
  let output := push_u8 output (SecureAttentionResult_u8 (sas_result r)) in
  Ok output.

Definition SecureAttentionResponse_decode : list byte -> cresult SecureAttentionResponse :=
  run_decoder (
    request_id ← read_u32 "secure attention request ID";
    result ← read_enum SecureAttentionResult_try_from "secure attention result";
    _ ← finish "secure attention response";
    mret (mkSecureAttentionResponse request_id result)).

#[export] Instance SecureAttentionResponse_codec : WireCodec SecureAttentionResponse :=
  { encode := SecureAttentionResponse_encode; decode := SecureAttentionResponse_decode }.

(** ** Host status *)

Record HostStatus : Type := mkHostStatus { hst_guest_names : list rstring }.

Definition active_guest_count (s : HostStatus) : Z := len (hst_guest_names s).

(** [for name in &self.guest_names { ... }] *)
Fixpoint encode_guest_names (output : list byte) (names : list rstring) : cresult (list byte) :=
  match names with
  | [] => Ok output
  | name :: names =>
    bytes ← checked_bytes name "guest name" MAX_GUEST_NAME_BYTES;
    length ← usize_to_u16 (len bytes) "guest name";
    let output := push_u16 output length in
    encode_guest_names (output ++ bytes) names
  end.

Definition HostStatus_encode (s : HostStatus) : cresult (list byte) :=
  if MAX_ACTIVE_GUESTS <? len (hst_guest_names s)
  then Err (LengthLimit "active guests" (len (hst_guest_names s)) MAX_ACTIVE_GUESTS) else
  count ← usize_to_u16 (len (hst_guest_names s)) "active guests";
  encode_guest_names (push_u16 [] count) (hst_guest_names s).

Definition read_guest_name : decoder rstring :=
  length ← read_u16 "guest name length";
  if MAX_GUEST_NAME_BYTES <? length
  then dfail (LengthLimit "guest name" length MAX_GUEST_NAME_BYTES) else
  read_utf8 length "guest name".

Definition HostStatus_decode : list byte -> cresult HostStatus :=
  run_decoder (
    count ← read_u16 "active guest count";
    if MAX_ACTIVE_GUESTS <? count
    then dfail (LengthLimit "active guests" count MAX_ACTIVE_GUESTS) else
    guest_names ← read_many (Z.to_nat count) read_guest_name;
    _ ← finish "host status";
    mret (mkHostStatus guest_names)).

#[export] Instance HostStatus_codec : WireCodec HostStatus :=
  { encode := HostStatus_encode; decode := HostStatus_decode }.

(** ** Session end *)

Inductive SessionEndReason : Type :=
| SE_Kicked | SE_HostStopped | SE_PermissionRevoked | SE_GuestExpired | SE_HostShutdown.

#[export] Instance SessionEndReason_eq_dec : EqDecision SessionEndReason.
Proof. solve_decision. Defined.

Definition SessionEndReason_u8 (r : SessionEndReason) : Z :=
  match r with
  | SE_Kicked => 0 | SE_HostStopped => 1 | SE_PermissionRevoked => 2
  | SE_GuestExpired => 3 | SE_HostShutdown => 4
  end.

Definition SessionEndReason_try_from (value : Z) : cresult SessionEndReason :=
  match value with
  | 0 => Ok SE_Kicked
  | 1 => Ok SE_HostStopped
  | 2 => Ok SE_PermissionRevoked
  | 3 => Ok SE_GuestExpired
  | 4 => Ok SE_HostShutdown
  | value => Err (InvalidValue "session end reason" value)
  end.

Record SessionEnded : Type := mkSessionEnded { se_reason : SessionEndReason }.

Definition SessionEnded_encode (s : SessionEnded) : cresult (list byte) :=
  Ok (le_bytes 1 (SessionEndReason_u8 (se_reason s))).

Definition SessionEnded_decode : list byte -> cresult SessionEnded :=
  run_decoder (
    reason ← read_enum SessionEndReason_try_from "session end reason";
    _ ← finish "session ended";
    mret (mkSessionEnded reason)).

#[export] Instance SessionEnded_codec : WireCodec SessionEnded :=
  { encode := SessionEnded_encode; decode := SessionEnded_decode }.

(** ** Guest permissions *)

Record GuestPermissions : Type := mkGuestPermissions {
  gp_keyboard : bool;
  gp_mouse : bool;
  gp_gamepad : bool;
  gp_clipboard : bool;
  gp_audio : bool
}.

#[export] Instance GuestPermissions_eq_dec : EqDecision GuestPermissions.
Proof. solve_decision. Defined.

Definition bool_of (field : string) (value : Z) : cresult bool :=
  match value with
  | 0 => Ok false
  | 1 => Ok true
  | value => Err (InvalidValue field value)
  end.

Definition GuestPermissions_encode (p : GuestPermissions) : cresult (list byte) :=
  Ok (le_bytes 1 (bool_u8 (gp_keyboard p)) ++ le_bytes 1 (bool_u8 (gp_mouse p)) ++
      le_bytes 1 (bool_u8 (gp_gamepad p)) ++ le_bytes 1 (bool_u8 (gp_clipboard p)) ++
      le_bytes 1 (bool_u8 (gp_audio p))).

Definition GuestPermissions_decode : list byte -> cresult GuestPermissions :=
  let read_bool field := read_enum (bool_of field) field in
  run_decoder (
    keyboard ← read_bool "guest keyboard"%string;
    mouse ← read_bool "guest mouse"%string;
    gamepad ← read_bool "guest gamepad"%string;
    clipboard ← read_bool "guest clipboard"%string;
    audio ← read_bool "guest audio"%string;
    _ ← finish "guest permissions";
    mret (mkGuestPermissions keyboard mouse gamepad clipboard audio)).

#[export] Instance GuestPermissions_codec : WireCodec GuestPermissions :=
  { encode := GuestPermissions_encode; decode := GuestPermissions_decode }.

(** ** Pairing trust *)

Inductive PairingTrust : Type :=
| PT_Owner
| PT_GuestOnce
| PT_GuestExpiring (expires_at_unix_ms : Z).

#[export] Instance PairingTrust_eq_dec : EqDecision PairingTrust.
Proof. solve_decision. Defined.

Definition PairingTrust_encode (t : PairingTrust) : cresult (list byte) :=
  '(tag, expiry) ←
    match t with
    | PT_Owner => Ok (0, 0)
    | PT_GuestOnce => Ok (1, 0)
    | PT_GuestExpiring 0 => Err (InvalidValue "guest expiry" 0)
    | PT_GuestExpiring expires_at_unix_ms => Ok (2, expires_at_unix_ms)
    end;
  let output := push_u8 [] tag in
  let output := push_u64 output expiry in
  Ok output.

(** [match (tag, expiry) { ... }] *)
Definition PairingTrust_of (tag expiry : Z) : cresult PairingTrust :=
  if (tag =? 0) && (expiry =? 0) then Ok PT_Owner
  else if (tag =? 1) && (expiry =? 0) then Ok PT_GuestOnce
  else if (tag =? 2) && (1 <=? expiry) && (expiry <=? U64_MAX) then Ok (PT_GuestExpiring expiry)
  else if (0 <=? tag) && (tag <=? 2) then Err (InvalidValue "guest expiry" expiry)
  else Err (InvalidValue "pairing trust" tag).

Definition PairingTrust_decode : list byte -> cresult PairingTrust :=
  run_decoder (
    tag ← read_u8 "pairing trust";
    expiry ← read_u64 "guest expiry";
    _ ← finish "pairing trust";
    dlift (PairingTrust_of tag expiry)).

#[export] Instance PairingTrust_codec : WireCodec PairingTrust :=
  { encode := PairingTrust_encode; decode := PairingTrust_decode }.

Record PairingTrustRequest : Type := mkPairingTrustRequest { ptr_trust : PairingTrust }.
Record PairingTrustGrant : Type := mkPairingTrustGrant { ptg_trust : PairingTrust }.

Definition PairingTrustRequest_encode (r : PairingTrustRequest) : cresult (list byte) :=
  PairingTrust_encode (ptr_trust r).
Definition PairingTrustRequest_decode (input : list byte) : cresult PairingTrustRequest :=
  trust ← PairingTrust_decode input; Ok (mkPairingTrustRequest trust).
Definition PairingTrustGrant_encode (r : PairingTrustGrant) : cresult (list byte) :=
  PairingTrust_encode (ptg_trust r).
Definition PairingTrustGrant_decode (input : list byte) : cresult PairingTrustGrant :=
  trust ← PairingTrust_decode input; Ok (mkPairingTrustGrant trust).

#[export] Instance PairingTrustRequest_codec : WireCodec PairingTrustRequest :=
  { encode := PairingTrustRequest_encode; decode := PairingTrustRequest_decode }.
#[export] Instance PairingTrustGrant_codec : WireCodec PairingTrustGrant :=
  { encode := PairingTrustGrant_encode; decode := PairingTrustGrant_decode }.

(** ** Clipboard images *)

Record ClipboardImageChunk : Type := mkClipboardImageChunk {
  cic_transfer_id : Z;
  cic_total_bytes : Z;
  cic_offset : Z;
  cic_png_bytes : list byte
}.

(** [png_bytes.starts_with(PNG_SIGNATURE)] *)
Definition starts_with (bytes prefix : list byte) : bool :=
  bool_decide (take (length prefix) bytes = prefix).

Definition ClipboardImageChunk_validate (c : ClipboardImageChunk) : cresult unit :=
  if (cic_total_bytes c <? len PNG_SIGNATURE) || (MAX_CLIPBOARD_IMAGE_BYTES <? cic_total_bytes c)
  then Err (InvalidValue "clipboard image total bytes" (cic_total_bytes c))
  else if (len (cic_png_bytes c) =? 0) || (MAX_CLIPBOARD_IMAGE_CHUNK_BYTES <? len (cic_png_bytes c))
  then Err (LengthLimit "clipboard image chunk" (len (cic_png_bytes c)) MAX_CLIPBOARD_IMAGE_CHUNK_BYTES)
  else if cic_total_bytes c <? cic_offset c + len (cic_png_bytes c)
  then Err (InvalidValue "clipboard image offset" (cic_offset c))
  else if (cic_offset c =? 0) && negb (starts_with (cic_png_bytes c) PNG_SIGNATURE)
  then Err (InvalidValue "PNG signature" 0)
  else Ok tt.

Definition ClipboardImageChunk_encode (c : ClipboardImageChunk) : cresult (list byte) :=
  _ ← ClipboardImageChunk_validate c;
  let output := push_u32 [] (cic_transfer_id c) in
  let output := push_u32 output (cic_total_bytes c) in
  let output := push_u32 output (cic_offset c) in
  Ok (output ++ cic_png_bytes c).

Definition ClipboardImageChunk_decode : list byte -> cresult ClipboardImageChunk :=
  run_decoder (
    transfer_id ← read_u32 "clipboard image transfer ID";
    total_bytes ← read_u32 "clipboard image total bytes";
    offset ← read_u32 "clipboard image offset";
    left ← remaining;
    if MAX_CLIPBOARD_IMAGE_CHUNK_BYTES <? left
    then dfail (LengthLimit "clipboard image chunk" left MAX_CLIPBOARD_IMAGE_CHUNK_BYTES) else
    png_bytes ← take_remaining;
    let value := mkClipboardImageChunk transfer_id total_bytes offset png_bytes in
    _ ← dlift (ClipboardImageChunk_validate value);
    mret value).

#[export] Instance ClipboardImageChunk_codec : WireCodec ClipboardImageChunk :=
  { encode := ClipboardImageChunk_encode; decode := ClipboardImageChunk_decode }.

(** ** RTT probes *)

Record RttProbe : Type := mkRttProbe { rp_timestamp_us : Z }.

Definition RttProbe_encode (p : RttProbe) : cresult (list byte) :=
  Ok (push_u64 [] (rp_timestamp_us p)).

Definition RttProbe_decode : list byte -> cresult RttProbe :=
  run_decoder (
    timestamp_us ← read_u64 "RTT timestamp";
    _ ← finish "RTT probe";
    mret (mkRttProbe timestamp_us)).

#[export] Instance RttProbe_codec : WireCodec RttProbe :=
  { encode := RttProbe_encode; decode := RttProbe_decode }.

(** ** Laws *)

Lemma SecureAttentionResult_try_from_iff v t :
  SecureAttentionResult_try_from v = Ok t <-> v = SecureAttentionResult_u8 t.
Proof. solve_enum. Qed.
Lemma SessionEndReason_try_from_iff v t :
  SessionEndReason_try_from v = Ok t <-> v = SessionEndReason_u8 t.
Proof. solve_enum. Qed.
Lemma bool_of_iff field v b : bool_of field v = Ok b <-> v = bool_u8 b.
Proof. split; [cbv beta delta [bool_of]; repeat case_match; naive_solver | intros ->; by destruct b]. Qed.

Lemma as_SecureAttentionResult field :
  parses_as (read_enum SecureAttentionResult_try_from field) (fun _ => True)
    (fun t => le_bytes 1 (SecureAttentionResult_u8 t)).
Proof. apply as_enum; [apply SecureAttentionResult_try_from_iff | by intros []]. Qed.
Lemma as_SessionEndReason field :
  parses_as (read_enum SessionEndReason_try_from field) (fun _ => True)
    (fun t => le_bytes 1 (SessionEndReason_u8 t)).
Proof. apply as_enum; [apply SessionEndReason_try_from_iff | by intros []]. Qed.
Lemma as_bool field1 field2 :
  parses_as (read_enum (bool_of field1) field2) (fun _ => True) (fun b => le_bytes 1 (bool_u8 b)).
Proof. apply as_enum; [apply bool_of_iff | by intros []]. Qed.
#[export] Hint Resolve as_SecureAttentionResult as_SessionEndReason as_bool : parses.

Definition SecureAttentionRequest_wf (r : SecureAttentionRequest) : Prop := u32_ok (sar_request_id r).
Definition SecureAttentionRequest_bytes (r : SecureAttentionRequest) : list byte :=
  le_bytes 4 (sar_request_id r).

Lemma SecureAttentionRequest_encode_eq r :
  SecureAttentionRequest_wf r ->
  SecureAttentionRequest_encode r = Ok (SecureAttentionRequest_bytes r).
Proof. solve_encode. Qed.
Lemma SecureAttentionRequest_decode_iff bs r :
  SecureAttentionRequest_decode bs = Ok r <->
  SecureAttentionRequest_wf r /\ SecureAttentionRequest_encode r = Ok bs.
Proof. unfold SecureAttentionRequest_decode. solve_wire SecureAttentionRequest_encode_eq. Qed.
#[export] Instance SecureAttentionRequest_laws : WireLaws SecureAttentionRequest :=
  wire_laws_of SecureAttentionRequest_wf SecureAttentionRequest_bytes SecureAttentionRequest_encode_eq SecureAttentionRequest_decode_iff.
#[export] Instance SecureAttentionRequest_canonical : WireCanonical SecureAttentionRequest :=
  wire_canonical_of SecureAttentionRequest_wf SecureAttentionRequest_decode_iff.

Definition SecureAttentionResponse_wf (r : SecureAttentionResponse) : Prop :=
  u32_ok (sas_request_id r).
Definition SecureAttentionResponse_bytes (r : SecureAttentionResponse) : list byte :=
  le_bytes 4 (sas_request_id r) ++ le_bytes 1 (SecureAttentionResult_u8 (sas_result r)).

Lemma SecureAttentionResponse_encode_eq r :
  SecureAttentionResponse_wf r ->
  SecureAttentionResponse_encode r = Ok (SecureAttentionResponse_bytes r).
Proof. solve_encode. Qed.
Lemma SecureAttentionResponse_decode_iff bs r :
  SecureAttentionResponse_decode bs = Ok r <->
  SecureAttentionResponse_wf r /\ SecureAttentionResponse_encode r = Ok bs.
Proof. unfold SecureAttentionResponse_decode. solve_wire SecureAttentionResponse_encode_eq. Qed.
#[export] Instance SecureAttentionResponse_laws : WireLaws SecureAttentionResponse :=
  wire_laws_of SecureAttentionResponse_wf SecureAttentionResponse_bytes SecureAttentionResponse_encode_eq SecureAttentionResponse_decode_iff.
#[export] Instance SecureAttentionResponse_canonical : WireCanonical SecureAttentionResponse :=
  wire_canonical_of SecureAttentionResponse_wf SecureAttentionResponse_decode_iff.

(** *** HostStatus *)

Definition guest_name_ok (name : rstring) : Prop :=
  len name <= MAX_GUEST_NAME_BYTES /\ utf8_valid name = true.
Definition guest_name_bytes (name : rstring) : list byte := le_bytes 2 (len name) ++ name.
Definition HostStatus_wf (s : HostStatus) : Prop :=
  len (hst_guest_names s) <= MAX_ACTIVE_GUESTS /\ Forall guest_name_ok (hst_guest_names s).
Definition HostStatus_bytes (s : HostStatus) : list byte :=
  le_bytes 2 (len (hst_guest_names s)) ++ concat (guest_name_bytes <$> hst_guest_names s).

Lemma encode_guest_names_eq names output :
  Forall guest_name_ok names ->
  encode_guest_names output names = Ok (output ++ concat (guest_name_bytes <$> names)).
Proof.
  intros F. revert output. induction F as [|name names [L U] F IH]; intros output; cbn.
  - by rewrite app_nil_r.
  - run_encode. rewrite IH. unfold push_u16, guest_name_bytes. by rewrite <- !app_assoc.
Qed.

Lemma as_guest_name : parses_as read_guest_name guest_name_ok guest_name_bytes.
Proof.
  unfold parses_as. eapply parses_ext; [unfold read_guest_name; apply parses_bind_as; [apply as_u16|]; intros;
    apply parses_guard; apply as_utf8; wire_nonneg|].
  cbn beta. intros name bs. unfold guest_name_ok, guest_name_bytes. split.
  - intros. grammar_fwd. done.
  - intros [[? ?] ->]. grammar_bwd; wire_side.
Qed.
#[export] Hint Resolve as_guest_name : parses.

Lemma HostStatus_encode_eq s : HostStatus_wf s -> HostStatus_encode s = Ok (HostStatus_bytes s).
Proof.
  intros [L F]. unfold HostStatus_encode. case_if; [lia|]. run_encode.
  by rewrite encode_guest_names_eq.
Qed.

Lemma HostStatus_decode_iff bs s :
  HostStatus_decode bs = Ok s <-> HostStatus_wf s /\ HostStatus_encode s = Ok bs.
Proof.
  unfold HostStatus_decode. erewrite run_accepts; [|solve_parses]. split.
  - intros. grammar_fwd.
    match goal with H : length ?l = Z.to_nat ?x |- _ =>
      assert (x = len l) as -> by (unfold len; width_lia) end.
    wire_fwd HostStatus_encode_eq.
  - wire_bwd HostStatus_encode_eq. 
Qed.
#[export] Instance HostStatus_laws : WireLaws HostStatus :=
  wire_laws_of HostStatus_wf HostStatus_bytes HostStatus_encode_eq HostStatus_decode_iff.
#[export] Instance HostStatus_canonical : WireCanonical HostStatus :=
  wire_canonical_of HostStatus_wf HostStatus_decode_iff.

(** *** SessionEnded, GuestPermissions *)

Definition SessionEnded_wf (s : SessionEnded) : Prop := True.
Definition SessionEnded_bytes (s : SessionEnded) : list byte :=
  le_bytes 1 (SessionEndReason_u8 (se_reason s)).

Lemma SessionEnded_encode_eq s :
  SessionEnded_wf s -> SessionEnded_encode s = Ok (SessionEnded_bytes s).
Proof. solve_encode. Qed.
Lemma SessionEnded_decode_iff bs s :
  SessionEnded_decode bs = Ok s <-> SessionEnded_wf s /\ SessionEnded_encode s = Ok bs.
Proof. unfold SessionEnded_decode. solve_wire SessionEnded_encode_eq. Qed.
#[export] Instance SessionEnded_laws : WireLaws SessionEnded :=
  wire_laws_of SessionEnded_wf SessionEnded_bytes SessionEnded_encode_eq SessionEnded_decode_iff.
#[export] Instance SessionEnded_canonical : WireCanonical SessionEnded :=
  wire_canonical_of SessionEnded_wf SessionEnded_decode_iff.

Definition GuestPermissions_wf (p : GuestPermissions) : Prop := True.
Definition GuestPermissions_bytes (p : GuestPermissions) : list byte :=
  le_bytes 1 (bool_u8 (gp_keyboard p)) ++ le_bytes 1 (bool_u8 (gp_mouse p)) ++
  le_bytes 1 (bool_u8 (gp_gamepad p)) ++ le_bytes 1 (bool_u8 (gp_clipboard p)) ++
  le_bytes 1 (bool_u8 (gp_audio p)).

Lemma GuestPermissions_encode_eq p :
  GuestPermissions_wf p -> GuestPermissions_encode p = Ok (GuestPermissions_bytes p).
Proof. done. Qed.
Lemma GuestPermissions_decode_iff bs p :
  GuestPermissions_decode bs = Ok p <-> GuestPermissions_wf p /\ GuestPermissions_encode p = Ok bs.
Proof. unfold GuestPermissions_decode. solve_wire GuestPermissions_encode_eq. Qed.
#[export] Instance GuestPermissions_laws : WireLaws GuestPermissions :=
  wire_laws_of GuestPermissions_wf GuestPermissions_bytes GuestPermissions_encode_eq
    GuestPermissions_decode_iff.
#[export] Instance GuestPermissions_canonical : WireCanonical GuestPermissions :=
  wire_canonical_of GuestPermissions_wf GuestPermissions_decode_iff.

(** *** PairingTrust *)

Definition PairingTrust_tag (t : PairingTrust) : Z :=
  match t with PT_Owner => 0 | PT_GuestOnce => 1 | PT_GuestExpiring _ => 2 end.
Definition PairingTrust_expiry (t : PairingTrust) : Z :=
  match t with PT_Owner | PT_GuestOnce => 0 | PT_GuestExpiring e => e end.
Definition PairingTrust_wf (t : PairingTrust) : Prop :=
  match t with PT_Owner | PT_GuestOnce => True | PT_GuestExpiring e => 0 < e /\ u64_ok e end.
Definition PairingTrust_bytes (t : PairingTrust) : list byte :=
  le_bytes 1 (PairingTrust_tag t) ++ le_bytes 8 (PairingTrust_expiry t).

Lemma PairingTrust_of_iff tag expiry t :
  PairingTrust_of tag expiry = Ok t <->
  PairingTrust_wf t /\ tag = PairingTrust_tag t /\ expiry = PairingTrust_expiry t.
Proof.
  unfold PairingTrust_of. split.
  - repeat case_if; intros [= <-]; cbn; width_lia.
  - destruct t as [| |e]; cbn; intros (? & -> & ->); [done..|].
    rewrite !(proj2 (Z.leb_le _ _)) by width_lia. done.
Qed.

Lemma PairingTrust_encode_eq t :
  PairingTrust_wf t -> PairingTrust_encode t = Ok (PairingTrust_bytes t).
Proof. destruct t as [| |[]]; cbn [PairingTrust_wf]; intros; solve [done | width_lia]. Qed.

Lemma PairingTrust_decode_iff bs t :
  PairingTrust_decode bs = Ok t <-> PairingTrust_wf t /\ PairingTrust_encode t = Ok bs.
Proof.
  unfold PairingTrust_decode. erewrite run_accepts; [|solve_parses]. split.
  - intros. grammar_fwd.
    match goal with H : PairingTrust_of _ _ = _ |- _ => apply PairingTrust_of_iff in H as (W & -> & ->) end.
    split; [done|]. rewrite PairingTrust_encode_eq by done. done.
  - intros [W E]. rewrite PairingTrust_encode_eq in E by done. injection E as <-.
    unfold PairingTrust_bytes. grammar_bwd.
    + by destruct t.
    + destruct t; cbn in *; width_lia.
    + by apply PairingTrust_of_iff.
Qed.
#[export] Instance PairingTrust_laws : WireLaws PairingTrust :=
  wire_laws_of PairingTrust_wf PairingTrust_bytes PairingTrust_encode_eq PairingTrust_decode_iff.
#[export] Instance PairingTrust_canonical : WireCanonical PairingTrust :=
  wire_canonical_of PairingTrust_wf PairingTrust_decode_iff.

Definition PairingTrustRequest_wf (r : PairingTrustRequest) : Prop := PairingTrust_wf (ptr_trust r).
Definition PairingTrustRequest_bytes (r : PairingTrustRequest) : list byte :=
  PairingTrust_bytes (ptr_trust r).
Definition PairingTrustGrant_wf (r : PairingTrustGrant) : Prop := PairingTrust_wf (ptg_trust r).
Definition PairingTrustGrant_bytes (r : PairingTrustGrant) : list byte :=
  PairingTrust_bytes (ptg_trust r).

Lemma PairingTrustRequest_encode_eq r :
  PairingTrustRequest_wf r -> PairingTrustRequest_encode r = Ok (PairingTrustRequest_bytes r).
Proof. apply PairingTrust_encode_eq. Qed.
Lemma PairingTrustGrant_encode_eq r :
  PairingTrustGrant_wf r -> PairingTrustGrant_encode r = Ok (PairingTrustGrant_bytes r).
Proof. apply PairingTrust_encode_eq. Qed.

(** A result wrapped by [?] in a one-field record. *)
Lemma bind_wrap {A B} (r : cresult A) (mk : A -> B) (get : B -> A) v :
  (forall a, get (mk a) = a) -> (forall b, mk (get b) = b) ->
  (a ← r; Ok (mk a)) = Ok v <-> r = Ok (get v).
Proof.
  intros GM MG. destruct r as [a|]; cbn; [|done]. split.
  - intros [= <-]. by rewrite GM.
  - intros [= ->]. by rewrite MG.
Qed.

Lemma PairingTrustRequest_decode_iff bs r :
  PairingTrustRequest_decode bs = Ok r <->
  PairingTrustRequest_wf r /\ PairingTrustRequest_encode r = Ok bs.
Proof.
  unfold PairingTrustRequest_decode. rewrite (bind_wrap _ _ ptr_trust); [|done|by intros []].
  apply PairingTrust_decode_iff.
Qed.
Lemma PairingTrustGrant_decode_iff bs r :
  PairingTrustGrant_decode bs = Ok r <->
  PairingTrustGrant_wf r /\ PairingTrustGrant_encode r = Ok bs.
Proof.
  unfold PairingTrustGrant_decode. rewrite (bind_wrap _ _ ptg_trust); [|done|by intros []].
  apply PairingTrust_decode_iff.
Qed.
#[export] Instance PairingTrustRequest_laws : WireLaws PairingTrustRequest :=
  wire_laws_of PairingTrustRequest_wf PairingTrustRequest_bytes PairingTrustRequest_encode_eq
    PairingTrustRequest_decode_iff.
#[export] Instance PairingTrustRequest_canonical : WireCanonical PairingTrustRequest :=
  wire_canonical_of PairingTrustRequest_wf PairingTrustRequest_decode_iff.
#[export] Instance PairingTrustGrant_laws : WireLaws PairingTrustGrant :=
  wire_laws_of PairingTrustGrant_wf PairingTrustGrant_bytes PairingTrustGrant_encode_eq
    PairingTrustGrant_decode_iff.
#[export] Instance PairingTrustGrant_canonical : WireCanonical PairingTrustGrant :=
  wire_canonical_of PairingTrustGrant_wf PairingTrustGrant_decode_iff.

(** *** ClipboardImageChunk *)

Definition ClipboardImageChunk_wf (c : ClipboardImageChunk) : Prop :=
  u32_ok (cic_transfer_id c) /\ u32_ok (cic_offset c) /\
  8 <= cic_total_bytes c <= MAX_CLIPBOARD_IMAGE_BYTES /\
  1 <= len (cic_png_bytes c) <= MAX_CLIPBOARD_IMAGE_CHUNK_BYTES /\
  cic_offset c + len (cic_png_bytes c) <= cic_total_bytes c /\
  (cic_offset c = 0 -> starts_with (cic_png_bytes c) PNG_SIGNATURE = true).
Definition ClipboardImageChunk_bytes (c : ClipboardImageChunk) : list byte :=
  le_bytes 4 (cic_transfer_id c) ++ le_bytes 4 (cic_total_bytes c) ++
  le_bytes 4 (cic_offset c) ++ cic_png_bytes c.

Lemma ClipboardImageChunk_validate_iff c u :
  u32_ok (cic_transfer_id c) -> u32_ok (cic_total_bytes c) -> u32_ok (cic_offset c) ->
  ClipboardImageChunk_validate c = Ok u <-> ClipboardImageChunk_wf c.
Proof.
  unfold ClipboardImageChunk_validate, ClipboardImageChunk_wf. change (len PNG_SIGNATURE) with 8.
  intros. destruct u. pose proof (len_nonneg (cic_png_bytes c)).
  repeat (case_if; [split; [done|intros; exfalso; naive_solver lia]|]).
  destruct (starts_with _ _); destruct (Z.eqb_spec (cic_offset c) 0); cbn; naive_solver lia.
Qed.

Lemma ClipboardImageChunk_encode_eq c :
  ClipboardImageChunk_wf c -> ClipboardImageChunk_encode c = Ok (ClipboardImageChunk_bytes c).
Proof.
  intros W. unfold ClipboardImageChunk_encode.
  replace (ClipboardImageChunk_validate c) with (@Ok CodecError unit tt).
  - run_encode. done.
  - symmetry. apply ClipboardImageChunk_validate_iff; try done; red in W; width_lia.
Qed.

Lemma ClipboardImageChunk_decode_iff bs c :
  ClipboardImageChunk_decode bs = Ok c <->
  ClipboardImageChunk_wf c /\ ClipboardImageChunk_encode c = Ok bs.
Proof.
  unfold ClipboardImageChunk_decode. erewrite run_accepts; [|solve_parses]. split.
  - intros. grammar_fwd.
    match goal with H : ClipboardImageChunk_validate _ = _ |- _ =>
      apply ClipboardImageChunk_validate_iff in H as HW; [|done..] end.
    split; [done|]. by rewrite ClipboardImageChunk_encode_eq.
  - intros [W E]. rewrite ClipboardImageChunk_encode_eq in E by done. injection E as <-.
    assert (V : ClipboardImageChunk_validate c = Ok tt)
      by (apply ClipboardImageChunk_validate_iff; [..|done]; red in W; width_lia).
    destruct c. unfold ClipboardImageChunk_wf, ClipboardImageChunk_bytes in *. cbn in *.
    destruct_and?. grammar_bwd; [> try wire_side ..].
Qed.
#[export] Instance ClipboardImageChunk_laws : WireLaws ClipboardImageChunk :=
  wire_laws_of ClipboardImageChunk_wf ClipboardImageChunk_bytes ClipboardImageChunk_encode_eq
    ClipboardImageChunk_decode_iff.
#[export] Instance ClipboardImageChunk_canonical : WireCanonical ClipboardImageChunk :=
  wire_canonical_of ClipboardImageChunk_wf ClipboardImageChunk_decode_iff.

(** *** RttProbe *)

Definition RttProbe_wf (p : RttProbe) : Prop := u64_ok (rp_timestamp_us p).
Definition RttProbe_bytes (p : RttProbe) : list byte := le_bytes 8 (rp_timestamp_us p).

Lemma RttProbe_encode_eq p : RttProbe_wf p -> RttProbe_encode p = Ok (RttProbe_bytes p).
Proof. solve_encode. Qed.
Lemma RttProbe_decode_iff bs p :
  RttProbe_decode bs = Ok p <-> RttProbe_wf p /\ RttProbe_encode p = Ok bs.
Proof. unfold RttProbe_decode. solve_wire RttProbe_encode_eq. Qed.
#[export] Instance RttProbe_laws : WireLaws RttProbe :=
  wire_laws_of RttProbe_wf RttProbe_bytes RttProbe_encode_eq RttProbe_decode_iff.
#[export] Instance RttProbe_canonical : WireCanonical RttProbe :=
  wire_canonical_of RttProbe_wf RttProbe_decode_iff.

(** ** Property *)

(** a decoded clipboard image chunk is safe to copy into the transfer
    buffer: the declared image is between 8 bytes and 8 MiB, the chunk is not
    empty, is at most 64 KiB and lies inside the declared image, and a first
    chunk starts with the PNG signature. *)
Theorem clipboard_chunk_in_bounds (bs : list byte) (c : ClipboardImageChunk) :
  ClipboardImageChunk_decode bs = Ok c ->
  8 <= cic_total_bytes c <= MAX_CLIPBOARD_IMAGE_BYTES /\
  1 <= len (cic_png_bytes c) <= MAX_CLIPBOARD_IMAGE_CHUNK_BYTES /\
  0 <= cic_offset c /\ cic_offset c + len (cic_png_bytes c) <= cic_total_bytes c /\
  (cic_offset c = 0 -> starts_with (cic_png_bytes c) PNG_SIGNATURE = true) /\
  bs = le_bytes 4 (cic_transfer_id c) ++ le_bytes 4 (cic_total_bytes c) ++
    le_bytes 4 (cic_offset c) ++ cic_png_bytes c.
Proof.
  intros [W E]%ClipboardImageChunk_decode_iff. rewrite ClipboardImageChunk_encode_eq in E by done.
  injection E as <-. destruct W as (? & ? & ? & ? & ? & ?). split_and!; done || width_lia.
Qed.

Lemma clipboard_chunk_in_bounds_witness :
  let c := mkClipboardImageChunk 5 20 0 (PNG_SIGNATURE ++ str_bytes "body") in
  exists bs, ClipboardImageChunk_decode bs = Ok c /\ len (cic_png_bytes c) <= 65536.
Proof.
  exists (ClipboardImageChunk_bytes (mkClipboardImageChunk 5 20 0 (PNG_SIGNATURE ++ str_bytes "body"))).
  assert (E : ClipboardImageChunk_decode
    (ClipboardImageChunk_bytes (mkClipboardImageChunk 5 20 0 (PNG_SIGNATURE ++ str_bytes "body"))) =
    Ok (mkClipboardImageChunk 5 20 0 (PNG_SIGNATURE ++ str_bytes "body"))) by (vm_compute; reflexivity).
  split; [exact E|].
  exact (proj2 (proj1 (proj2 (clipboard_chunk_in_bounds _ _ E)))).
Defined.
