(* ===== verification/Control.v ===== *)
(** * Control messages

    [clients/rust/maho-proto/src/control.rs]: the tagged union of everything the
    two peers say on the reliable channel, its capability gating, and the bodies
    that are not in parity.rs. *)

From S2P Require Import Prelude Codec Handshake Parity.

Definition MAX_CLIPBOARD_TEXT_BYTES : Z := 4096.
Definition MAX_HOST_DISPLAYS : Z := 16.
Definition MAX_HOST_DISPLAY_NAME_BYTES : Z := 64.
#[export] Hint Unfold MAX_CLIPBOARD_TEXT_BYTES MAX_HOST_DISPLAYS MAX_HOST_DISPLAY_NAME_BYTES : limits.

(** ** Message types *)

Inductive ControlMessageType : Type :=
| CT_RequestKeyFrame | CT_StartStream | CT_StopStream | CT_Disconnect | CT_Ping | CT_Pong
| CT_BitrateAdjust | CT_StreamConfigRequest | CT_StreamConfigResponse | CT_StreamConfigReject
| CT_StreamConfigError | CT_ClipboardSyncRequest | CT_ClipboardSyncUpdate
| CT_ClipboardSyncError | CT_InputAck | CT_StreamOptionsRequest | CT_StreamOptionsActive
| CT_HostDisplayList | CT_HostPolicy | CT_SecureAttentionRequest | CT_SecureAttentionResponse
| CT_HostStatus | CT_SessionEnded | CT_GuestPermissions | CT_PairingTrustRequest
| CT_PairingTrustGrant | CT_ClipboardImageChunk | CT_RttPing | CT_RttPong.

#[export] Instance ControlMessageType_eq_dec : EqDecision ControlMessageType.
Proof. solve_decision. Defined.

Definition ControlMessageType_u8 (t : ControlMessageType) : Z :=
  match t with
  | CT_RequestKeyFrame => 0 | CT_StartStream => 1 | CT_StopStream => 2 | CT_Disconnect => 3
  | CT_Ping => 4 | CT_Pong => 5 | CT_BitrateAdjust => 6 | CT_StreamConfigRequest => 7
  | CT_StreamConfigResponse => 8 | CT_StreamConfigReject => 9 | CT_StreamConfigError => 10
  | CT_ClipboardSyncRequest => 11 | CT_ClipboardSyncUpdate => 12 | CT_ClipboardSyncError => 13
  | CT_InputAck => 14 | CT_StreamOptionsRequest => 15 | CT_StreamOptionsActive => 16
  | CT_HostDisplayList => 17 | CT_HostPolicy => 18 | CT_SecureAttentionRequest => 19
  | CT_SecureAttentionResponse => 20 | CT_HostStatus => 21 | CT_SessionEnded => 22
  | CT_GuestPermissions => 23 | CT_PairingTrustRequest => 24 | CT_PairingTrustGrant => 25
  | CT_ClipboardImageChunk => 26 | CT_RttPing => 27 | CT_RttPong => 28
  end.

Definition ControlMessageType_ALL : list ControlMessageType :=
  [CT_RequestKeyFrame; CT_StartStream; CT_StopStream; CT_Disconnect; CT_Ping; CT_Pong;
   CT_BitrateAdjust; CT_StreamConfigRequest; CT_StreamConfigResponse; CT_StreamConfigReject;
   CT_StreamConfigError; CT_ClipboardSyncRequest; CT_ClipboardSyncUpdate; CT_ClipboardSyncError;
   CT_InputAck; CT_StreamOptionsRequest; CT_StreamOptionsActive; CT_HostDisplayList;
   CT_HostPolicy; CT_SecureAttentionRequest; CT_SecureAttentionResponse; CT_HostStatus;
   CT_SessionEnded; CT_GuestPermissions; CT_PairingTrustRequest; CT_PairingTrustGrant;
   CT_ClipboardImageChunk; CT_RttPing; CT_RttPong].

Definition required_capability (t : ControlMessageType) : option Capabilities :=
  match t with
  | CT_SecureAttentionRequest | CT_SecureAttentionResponse => Some CAP_SECURE_ATTENTION
  | CT_HostStatus => Some CAP_HOST_STATUS
  | CT_SessionEnded => Some CAP_SESSION_ENDED
  | CT_GuestPermissions => Some CAP_GUEST_PERMISSIONS
  | CT_PairingTrustRequest | CT_PairingTrustGrant => Some CAP_PAIRING_TRUST
  | CT_ClipboardImageChunk => Some CAP_CLIPBOARD_IMAGE
  | CT_RttPing | CT_RttPong => Some CAP_RTT_PROBE
  | _ => None
  end.

Definition supported_by (t : ControlMessageType) (local peer : Capabilities) : bool :=
  match required_capability t with
  | Some required => Capabilities_contains local required && Capabilities_contains peer required
  | None => true
  end.

Definition ControlMessageType_try_from (value : Z) : cresult ControlMessageType :=
  match value with
  | 0 => Ok CT_RequestKeyFrame
  | 1 => Ok CT_StartStream
  | 2 => Ok CT_StopStream
  | 3 => Ok CT_Disconnect
  | 4 => Ok CT_Ping
  | 5 => Ok CT_Pong
  | 6 => Ok CT_BitrateAdjust
  | 7 => Ok CT_StreamConfigRequest
  | 8 => Ok CT_StreamConfigResponse
  | 9 => Ok CT_StreamConfigReject
  | 10 => Ok CT_StreamConfigError
  | 11 => Ok CT_ClipboardSyncRequest
  | 12 => Ok CT_ClipboardSyncUpdate
  | 13 => Ok CT_ClipboardSyncError
  | 14 => Ok CT_InputAck
  | 15 => Ok CT_StreamOptionsRequest
  | 16 => Ok CT_StreamOptionsActive
  | 17 => Ok CT_HostDisplayList
  | 18 => Ok CT_HostPolicy
  | 19 => Ok CT_SecureAttentionRequest
  | 20 => Ok CT_SecureAttentionResponse
  | 21 => Ok CT_HostStatus
  | 22 => Ok CT_SessionEnded
  | 23 => Ok CT_GuestPermissions
  | 24 => Ok CT_PairingTrustRequest
  | 25 => Ok CT_PairingTrustGrant
  | 26 => Ok CT_ClipboardImageChunk
  | 27 => Ok CT_RttPing
  | 28 => Ok CT_RttPong
  | unknown => Err (UnknownControlMessageType unknown)
  end.

(** ** BitrateAdjust, InputAck *)

Record BitrateAdjust : Type := mkBitrateAdjust { ba_target_bitrate : Z }.

Definition BitrateAdjust_encode (b : BitrateAdjust) : cresult (list byte) :=
  Ok (push_i32 [] (ba_target_bitrate b)).

Definition BitrateAdjust_decode : list byte -> cresult BitrateAdjust :=
  run_decoder (
    target_bitrate ← read_i32 "target bitrate";
    _ ← finish "bitrate adjustment";
    mret (mkBitrateAdjust target_bitrate)).

#[export] Instance BitrateAdjust_codec : WireCodec BitrateAdjust :=
  { encode := BitrateAdjust_encode; decode := BitrateAdjust_decode }.

Record InputAckMessage : Type := mkInputAckMessage {
  iam_sequence : Z;
  iam_success : bool;
  iam_error_code : Z
}.

Definition InputAckMessage_encode (m : InputAckMessage) : cresult (list byte) :=
  let output := push_u32 [] (iam_sequence m) in
  let output := push_u8 output (bool_u8 (iam_success m)) in
  let output := push_u8 output (iam_error_code m) in
  Ok output.

Definition InputAckMessage_decode : list byte -> cresult InputAckMessage :=
  run_decoder (
    sequence ← read_u32 "input ack sequence";
    success ← read_u8 "input ack success";
    error_code ← read_u8 "input ack error code";
    _ ← finish "input ack message";
    mret (mkInputAckMessage sequence (negb (success =? 0)) error_code)).

#[export] Instance InputAckMessage_codec : WireCodec InputAckMessage :=
  { encode := InputAckMessage_encode; decode := InputAckMessage_decode }.

(** ** Stream configuration *)

Record StreamConfiguration : Type := mkStreamConfiguration {
  sc_width : Z;
  sc_height : Z;
  sc_bitrate : Z;
  sc_frames_per_second : Z
}.

Definition StreamConfiguration_encode_into (c : StreamConfiguration) (output : list byte) : list byte :=
  let output := push_u32 output (sc_width c) in
  let output := push_u32 output (sc_height c) in
  let output := push_u32 output (sc_bitrate c) in
  push_u16 output (sc_frames_per_second c).

Definition StreamConfiguration_decode_from : decoder StreamConfiguration :=
  width ← read_u32 "stream width";
  height ← read_u32 "stream height";
  bitrate ← read_u32 "stream bitrate";
  frames_per_second ← read_u16 "stream frames per second";
  mret (mkStreamConfiguration width height bitrate frames_per_second).

Definition StreamConfiguration_encode (c : StreamConfiguration) : cresult (list byte) :=
  Ok (StreamConfiguration_encode_into c []).

Definition StreamConfiguration_decode : list byte -> cresult StreamConfiguration :=
  run_decoder (
    value ← StreamConfiguration_decode_from;
    _ ← finish "stream configuration";
    mret value).

#[export] Instance StreamConfiguration_codec : WireCodec StreamConfiguration :=
  { encode := StreamConfiguration_encode; decode := StreamConfiguration_decode }.

Record StreamConfigurationRequest : Type := mkStreamConfigurationRequest {
  scr_request_id : Z;
  scr_desired : StreamConfiguration
}.

Definition StreamConfigurationRequest_encode (r : StreamConfigurationRequest) : cresult (list byte) :=
  let output := push_u32 [] (scr_request_id r) in
  Ok (StreamConfiguration_encode_into (scr_desired r) output).

Definition StreamConfigurationRequest_decode : list byte -> cresult StreamConfigurationRequest :=
  run_decoder (
    request_id ← read_u32 "stream request ID";
    desired ← StreamConfiguration_decode_from;
    _ ← finish "stream configuration request";
    mret (mkStreamConfigurationRequest request_id desired)).

#[export] Instance StreamConfigurationRequest_codec : WireCodec StreamConfigurationRequest :=
  { encode := StreamConfigurationRequest_encode; decode := StreamConfigurationRequest_decode }.

Record StreamConfigurationResponse : Type := mkStreamConfigurationResponse {
  scs_request_id : Z;
  scs_active : StreamConfiguration
}.

Definition StreamConfigurationResponse_encode (r : StreamConfigurationResponse) : cresult (list byte) :=
  let output := push_u32 [] (scs_request_id r) in
  Ok (StreamConfiguration_encode_into (scs_active r) output).

Definition StreamConfigurationResponse_decode : list byte -> cresult StreamConfigurationResponse :=
  run_decoder (
    request_id ← read_u32 "stream response ID";
    active ← StreamConfiguration_decode_from;
    _ ← finish "stream configuration response";
    mret (mkStreamConfigurationResponse request_id active)).

#[export] Instance StreamConfigurationResponse_codec : WireCodec StreamConfigurationResponse :=
  { encode := StreamConfigurationResponse_encode; decode := StreamConfigurationResponse_decode }.

Inductive StreamConfigurationErrorCode : Type :=
| SCE_InvalidRequest | SCE_UnsupportedDimensions | SCE_UnsupportedBitrate
| SCE_UnsupportedFps | SCE_RejectedByPeer.

Definition StreamConfigurationErrorCode_u8 (c : StreamConfigurationErrorCode) : Z :=
  match c with
  | SCE_InvalidRequest => 0 | SCE_UnsupportedDimensions => 1 | SCE_UnsupportedBitrate => 2
  | SCE_UnsupportedFps => 3 | SCE_RejectedByPeer => 4
  end.

Definition StreamConfigurationErrorCode_try_from (value : Z) : cresult StreamConfigurationErrorCode :=
  match value with
  | 0 => Ok SCE_InvalidRequest
  | 1 => Ok SCE_UnsupportedDimensions
  | 2 => Ok SCE_UnsupportedBitrate
  | 3 => Ok SCE_UnsupportedFps
  | 4 => Ok SCE_RejectedByPeer
  | unknown => Err (UnknownStreamConfigurationErrorCode unknown)
  end.

Definition encode_stream_problem (request_id : Z) (code : StreamConfigurationErrorCode)
    (message : rstring) : cresult (list byte) :=
  message ← checked_bytes message "stream configuration message" U16_MAX;
  let output := push_u32 [] request_id in
  let output := push_u8 output (StreamConfigurationErrorCode_u8 code) in
  length ← usize_to_u16 (len message) "stream configuration message";
  let output := push_u16 output length in
  Ok (output ++ message).

Definition decode_stream_problem (input : list byte) (field : string)
    : cresult (Z * StreamConfigurationErrorCode * rstring) :=
  run_decoder (
    request_id ← read_u32 "stream problem request ID";
    code ← read_enum StreamConfigurationErrorCode_try_from "stream problem code";
    message_length ← read_u16 "stream problem message length";
    message ← read_utf8 message_length "stream configuration message";
    _ ← finish field;
    mret (request_id, code, message)) input.

Record StreamConfigurationReject : Type := mkStreamConfigurationReject {
  scj_request_id : Z;
  scj_reason : StreamConfigurationErrorCode;
  scj_message : rstring
}.

Definition StreamConfigurationReject_encode (r : StreamConfigurationReject) : cresult (list byte) :=
  encode_stream_problem (scj_request_id r) (scj_reason r) (scj_message r).

Definition StreamConfigurationReject_decode (input : list byte) : cresult StreamConfigurationReject :=
  '(request_id, reason, message) ← decode_stream_problem input "stream configuration reject";
  Ok (mkStreamConfigurationReject request_id reason message).

#[export] Instance StreamConfigurationReject_codec : WireCodec StreamConfigurationReject :=
  { encode := StreamConfigurationReject_encode; decode := StreamConfigurationReject_decode }.

Record StreamConfigurationError : Type := mkStreamConfigurationError {
  sce_request_id : Z;
  sce_error_code : StreamConfigurationErrorCode;
  sce_message : rstring
}.

Definition StreamConfigurationError_encode (r : StreamConfigurationError) : cresult (list byte) :=
  encode_stream_problem (sce_request_id r) (sce_error_code r) (sce_message r).

Definition StreamConfigurationError_decode (input : list byte) : cresult StreamConfigurationError :=
  '(request_id, error_code, message) ← decode_stream_problem input "stream configuration error";
  Ok (mkStreamConfigurationError request_id error_code message).

#[export] Instance StreamConfigurationError_codec : WireCodec StreamConfigurationError :=
  { encode := StreamConfigurationError_encode; decode := StreamConfigurationError_decode }.

(** ** Clipboard synchronisation *)

Inductive ClipboardSyncDirection : Type := CD_HostToClient | CD_ClientToHost | CD_Bidirectional.
Inductive ClipboardSyncOrigin : Type := CO_LocalPasteboard | CO_RemotePasteboard | CO_SyncedFromPeer.

Definition ClipboardSyncDirection_u8 (d : ClipboardSyncDirection) : Z :=
  match d with CD_HostToClient => 0 | CD_ClientToHost => 1 | CD_Bidirectional => 2 end.
Definition ClipboardSyncDirection_try_from (value : Z) : cresult ClipboardSyncDirection :=
  match value with
  | 0 => Ok CD_HostToClient
  | 1 => Ok CD_ClientToHost
  | 2 => Ok CD_Bidirectional
  | unknown => Err (UnknownClipboardDirection unknown)
  end.
Definition ClipboardSyncOrigin_u8 (o : ClipboardSyncOrigin) : Z :=
  match o with CO_LocalPasteboard => 0 | CO_RemotePasteboard => 1 | CO_SyncedFromPeer => 2 end.
Definition ClipboardSyncOrigin_try_from (value : Z) : cresult ClipboardSyncOrigin :=
  match value with
  | 0 => Ok CO_LocalPasteboard
  | 1 => Ok CO_RemotePasteboard
  | 2 => Ok CO_SyncedFromPeer
  | unknown => Err (UnknownClipboardOrigin unknown)
  end.

Record ClipboardSyncRequest : Type := mkClipboardSyncRequest {
  csr_request_id : Z;
  csr_direction : ClipboardSyncDirection;
  csr_origin : ClipboardSyncOrigin
}.

Definition ClipboardSyncRequest_encode (r : ClipboardSyncRequest) : cresult (list byte) :=
  let output := push_u32 [] (csr_request_id r) in
  let output := push_u8 output (ClipboardSyncDirection_u8 (csr_direction r)) in
  let output := push_u8 output (ClipboardSyncOrigin_u8 (csr_origin r)) in
  Ok output.

Definition ClipboardSyncRequest_decode : list byte -> cresult ClipboardSyncRequest :=
  run_decoder (
    request_id ← read_u32 "clipboard request ID";
    direction ← read_enum ClipboardSyncDirection_try_from "clipboard direction";
    origin ← read_enum ClipboardSyncOrigin_try_from "clipboard origin";
    _ ← finish "clipboard sync request";
    mret (mkClipboardSyncRequest request_id direction origin)).

#[export] Instance ClipboardSyncRequest_codec : WireCodec ClipboardSyncRequest :=
  { encode := ClipboardSyncRequest_encode; decode := ClipboardSyncRequest_decode }.

Record ClipboardSyncUpdate : Type := mkClipboardSyncUpdate {
  csu_request_id : Z;
  csu_direction : ClipboardSyncDirection;
  csu_origin : ClipboardSyncOrigin;
  csu_text : rstring
}.

Definition ClipboardSyncUpdate_encode (u : ClipboardSyncUpdate) : cresult (list byte) :=
  text ← checked_bytes (csu_text u) "clipboard text" MAX_CLIPBOARD_TEXT_BYTES;
  let output := push_u32 [] (csu_request_id u) in
  let output := push_u8 output (ClipboardSyncDirection_u8 (csu_direction u)) in
  let output := push_u8 output (ClipboardSyncOrigin_u8 (csu_origin u)) in
  length ← usize_to_u16 (len text) "clipboard text";
  let output := push_u16 output length in
  Ok (output ++ text).

Definition ClipboardSyncUpdate_decode : list byte -> cresult ClipboardSyncUpdate :=
  run_decoder (
    request_id ← read_u32 "clipboard update ID";
    direction ← read_enum ClipboardSyncDirection_try_from "clipboard direction";
    origin ← read_enum ClipboardSyncOrigin_try_from "clipboard origin";
    text_length ← read_u16 "clipboard text length";
    if MAX_CLIPBOARD_TEXT_BYTES <? text_length
    then dfail (LengthLimit "clipboard text" text_length MAX_CLIPBOARD_TEXT_BYTES) else
    text ← read_utf8 text_length "clipboard text";
    _ ← finish "clipboard sync update";
    mret (mkClipboardSyncUpdate request_id direction origin text)).

#[export] Instance ClipboardSyncUpdate_codec : WireCodec ClipboardSyncUpdate :=
  { encode := ClipboardSyncUpdate_encode; decode := ClipboardSyncUpdate_decode }.

Record ClipboardSyncError : Type := mkClipboardSyncError {
  cse_request_id : Z;
  cse_direction : ClipboardSyncDirection;
  cse_origin : ClipboardSyncOrigin;
  cse_error_code : Z;
  cse_message : rstring
}.

Definition ClipboardSyncError_encode (e : ClipboardSyncError) : cresult (list byte) :=
  message ← checked_bytes (cse_message e) "clipboard error message" U16_MAX;
  let output := push_u32 [] (cse_request_id e) in
  let output := push_u8 output (ClipboardSyncDirection_u8 (cse_direction e)) in
  let output := push_u8 output (ClipboardSyncOrigin_u8 (cse_origin e)) in
  let output := push_u8 output (cse_error_code e) in
  length ← usize_to_u16 (len message) "clipboard error message";
  let output := push_u16 output length in
  Ok (output ++ message).

Definition ClipboardSyncError_decode : list byte -> cresult ClipboardSyncError :=
  run_decoder (
    request_id ← read_u32 "clipboard error ID";
    direction ← read_enum ClipboardSyncDirection_try_from "clipboard direction";
    origin ← read_enum ClipboardSyncOrigin_try_from "clipboard origin";
    error_code ← read_u8 "clipboard error code";
    message_length ← read_u16 "clipboard error message length";
    message ← read_utf8 message_length "clipboard error message";
    _ ← finish "clipboard sync error";
    mret (mkClipboardSyncError request_id direction origin error_code message)).

#[export] Instance ClipboardSyncError_codec : WireCodec ClipboardSyncError :=
  { encode := ClipboardSyncError_encode; decode := ClipboardSyncError_decode }.

(** ** Stream options *)

Inductive StreamCodecPreference : Type := SCP_Auto | SCP_H264 | SCP_Hevc.

#[export] Instance StreamCodecPreference_eq_dec : EqDecision StreamCodecPreference.
Proof. solve_decision. Defined.

Definition StreamCodecPreference_u8 (c : StreamCodecPreference) : Z :=
  match c with SCP_Auto => 0 | SCP_H264 => 1 | SCP_Hevc => 2 end.
Definition StreamCodecPreference_try_from (value : Z) : cresult StreamCodecPreference :=
  match value with
  | 0 => Ok SCP_Auto
  | 1 => Ok SCP_H264
  | 2 => Ok SCP_Hevc
  | unknown => Err (InvalidValue "stream codec" unknown)
  end.

Definition decode_bool (field : string) : decoder bool := read_enum (bool_of field) field.

Record StreamOptionsRequest : Type := mkStreamOptionsRequest {
  sor_request_id : Z;
  sor_scale_permille : Z;
  sor_fps : Z;
  sor_codec : StreamCodecPreference;
  sor_display_index : Z;
  sor_bitrate : Z
}.

Definition StreamOptionsRequest_encode (r : StreamOptionsRequest) : cresult (list byte) :=
  let output := push_u32 [] (sor_request_id r) in
  let output := push_u16 output (sor_scale_permille r) in
  let output := push_u16 output (sor_fps r) in
  let output := push_u8 output (StreamCodecPreference_u8 (sor_codec r)) in
  let output := push_u8 output (sor_display_index r) in
  let output := push_u32 output (sor_bitrate r) in
  Ok output.

Definition StreamOptionsRequest_decode : list byte -> cresult StreamOptionsRequest :=
  run_decoder (
    request_id ← read_u32 "stream options request id";
    scale_permille ← read_u16 "stream options scale permille";
    fps ← read_u16 "stream options fps";
    codec ← read_enum StreamCodecPreference_try_from "stream codec";
    display_index ← read_u8 "stream options display index";
    bitrate ← read_u32 "stream options bitrate";
    _ ← finish "stream options request";
    mret (mkStreamOptionsRequest request_id scale_permille fps codec display_index bitrate)).

#[export] Instance StreamOptionsRequest_codec : WireCodec StreamOptionsRequest :=
  { encode := StreamOptionsRequest_encode; decode := StreamOptionsRequest_decode }.

Record StreamOptionsActive : Type := mkStreamOptionsActive {
  soa_request_id : Z;
  soa_width : Z;
  soa_height : Z;
  soa_fps : Z;
  soa_codec : StreamCodecPreference;
  soa_display_index : Z;
  soa_bitrate : Z
}.

Definition StreamOptionsActive_encode (r : StreamOptionsActive) : cresult (list byte) :=
  let output := push_u32 [] (soa_request_id r) in
  let output := push_u32 output (soa_width r) in
  let output := push_u32 output (soa_height r) in
  let output := push_u16 output (soa_fps r) in
  let output := push_u8 output (StreamCodecPreference_u8 (soa_codec r)) in
  let output := push_u8 output (soa_display_index r) in
  let output := push_u32 output (soa_bitrate r) in
  Ok output.

Definition StreamOptionsActive_decode : list byte -> cresult StreamOptionsActive :=
  run_decoder (
    request_id ← read_u32 "stream options active request id";
    width ← read_u32 "stream options active width";
    height ← read_u32 "stream options active height";
    fps ← read_u16 "stream options active fps";
    codec ← read_enum StreamCodecPreference_try_from "stream codec";
    display_index ← read_u8 "stream options active display index";
    bitrate ← read_u32 "stream options active bitrate";
    _ ← finish "stream options active";
    mret (mkStreamOptionsActive request_id width height fps codec display_index bitrate)).

#[export] Instance StreamOptionsActive_codec : WireCodec StreamOptionsActive :=
  { encode := StreamOptionsActive_encode; decode := StreamOptionsActive_decode }.

(** ** Host displays and policy *)

Record HostDisplay : Type := mkHostDisplay {
  hd_index : Z;
  hd_width : Z;
  hd_height : Z;
  hd_primary : bool;
  hd_name : rstring
}.

Record HostDisplayList : Type := mkHostDisplayList { hdl_displays : list HostDisplay }.

(** The first loop of [encode]: every name fits; [total_size] is a capacity. *)
Fixpoint check_display_names (displays : list HostDisplay) : cresult unit :=
  match displays with
  | [] => Ok tt
  | display :: displays =>
    if MAX_HOST_DISPLAY_NAME_BYTES <? len (hd_name display)
    then Err (LengthLimit "host display name" (len (hd_name display)) MAX_HOST_DISPLAY_NAME_BYTES)
    else check_display_names displays
  end.

(** The body of the second loop; [len() as u8] wraps. *)
Definition push_display (output : list byte) (display : HostDisplay) : list byte :=
  let output := push_u8 output (hd_index display) in
  let output := push_u32 output (hd_width display) in
  let output := push_u32 output (hd_height display) in
  let output := push_u8 output (bool_u8 (hd_primary display)) in
  let output := push_u8 output (len (hd_name display) mod 256) in
  output ++ hd_name display.

Definition HostDisplayList_encode (l : HostDisplayList) : cresult (list byte) :=
  if MAX_HOST_DISPLAYS <? len (hdl_displays l)
  then Err (LengthLimit "host display count" (len (hdl_displays l)) MAX_HOST_DISPLAYS) else
  _ ← check_display_names (hdl_displays l);
  let output := push_u8 [] (len (hdl_displays l) mod 256) in
  Ok (foldl push_display output (hdl_displays l)).

Definition read_display : decoder HostDisplay :=
  index ← read_u8 "host display index";
  width ← read_u32 "host display width";
  height ← read_u32 "host display height";
  primary ← decode_bool "host display primary";
  name_len ← read_u8 "host display name length";
  if MAX_HOST_DISPLAY_NAME_BYTES <? name_len
  then dfail (LengthLimit "host display name" name_len MAX_HOST_DISPLAY_NAME_BYTES) else
  name ← read_utf8 name_len "host display name";
  mret (mkHostDisplay index width height primary name).

Definition HostDisplayList_decode : list byte -> cresult HostDisplayList :=
  run_decoder (
    count ← read_u8 "host display count";
    if MAX_HOST_DISPLAYS <? count
    then dfail (LengthLimit "host display count" count MAX_HOST_DISPLAYS) else
    displays ← read_many (Z.to_nat count) read_display;
    _ ← finish "host display list";
    mret (mkHostDisplayList displays)).

#[export] Instance HostDisplayList_codec : WireCodec HostDisplayList :=
  { encode := HostDisplayList_encode; decode := HostDisplayList_decode }.

Record HostPolicy : Type := mkHostPolicy { hp_allow_input : bool; hp_allow_clipboard : bool }.

Definition HostPolicy_encode (p : HostPolicy) : cresult (list byte) :=
  let output := push_u8 [] (bool_u8 (hp_allow_input p)) in
  let output := push_u8 output (bool_u8 (hp_allow_clipboard p)) in
  Ok output.

Definition HostPolicy_decode : list byte -> cresult HostPolicy :=
  run_decoder (
    allow_input ← decode_bool "host policy allow_input";
    allow_clipboard ← decode_bool "host policy allow_clipboard";
    _ ← finish "host policy";
    mret (mkHostPolicy allow_input allow_clipboard)).

#[export] Instance HostPolicy_codec : WireCodec HostPolicy :=
  { encode := HostPolicy_encode; decode := HostPolicy_decode }.

(** ** The tagged union *)

Inductive ControlMessage : Type :=
| CM_RequestKeyFrame
| CM_StartStream
| CM_StopStream
| CM_Disconnect
| CM_Ping
| CM_Pong
| CM_BitrateAdjust (v : BitrateAdjust)
| CM_StreamConfigRequest (v : StreamConfigurationRequest)
| CM_StreamConfigResponse (v : StreamConfigurationResponse)
| CM_StreamConfigReject (v : StreamConfigurationReject)
| CM_StreamConfigError (v : StreamConfigurationError)
| CM_ClipboardSyncRequest (v : ClipboardSyncRequest)
| CM_ClipboardSyncUpdate (v : ClipboardSyncUpdate)
| CM_ClipboardSyncError (v : ClipboardSyncError)
| CM_InputAck (v : InputAckMessage)
| CM_StreamOptionsRequest (v : StreamOptionsRequest)
| CM_StreamOptionsActive (v : StreamOptionsActive)
| CM_HostDisplayList (v : HostDisplayList)
| CM_HostPolicy (v : HostPolicy)
| CM_SecureAttentionRequest (v : SecureAttentionRequest)
| CM_SecureAttentionResponse (v : SecureAttentionResponse)
| CM_HostStatus (v : HostStatus)
| CM_SessionEnded (v : SessionEnded)
| CM_GuestPermissions (v : GuestPermissions)
| CM_PairingTrustRequest (v : PairingTrustRequest)
| CM_PairingTrustGrant (v : PairingTrustGrant)
| CM_ClipboardImageChunk (v : ClipboardImageChunk)
| CM_RttPing (v : RttProbe)
| CM_RttPong (v : RttProbe).

Definition message_type (m : ControlMessage) : ControlMessageType :=
  match m with
  | CM_RequestKeyFrame => CT_RequestKeyFrame
  | CM_StartStream => CT_StartStream
  | CM_StopStream => CT_StopStream
  | CM_Disconnect => CT_Disconnect
  | CM_Ping => CT_Ping
  | CM_Pong => CT_Pong
  | CM_BitrateAdjust _ => CT_BitrateAdjust
  | CM_StreamConfigRequest _ => CT_StreamConfigRequest
  | CM_StreamConfigResponse _ => CT_StreamConfigResponse
  | CM_StreamConfigReject _ => CT_StreamConfigReject
  | CM_StreamConfigError _ => CT_StreamConfigError
  | CM_ClipboardSyncRequest _ => CT_ClipboardSyncRequest
  | CM_ClipboardSyncUpdate _ => CT_ClipboardSyncUpdate
  | CM_ClipboardSyncError _ => CT_ClipboardSyncError
  | CM_InputAck _ => CT_InputAck
  | CM_StreamOptionsRequest _ => CT_StreamOptionsRequest
  | CM_StreamOptionsActive _ => CT_StreamOptionsActive
  | CM_HostDisplayList _ => CT_HostDisplayList
  | CM_HostPolicy _ => CT_HostPolicy
  | CM_SecureAttentionRequest _ => CT_SecureAttentionRequest
  | CM_SecureAttentionResponse _ => CT_SecureAttentionResponse
  | CM_HostStatus _ => CT_HostStatus
  | CM_SessionEnded _ => CT_SessionEnded
  | CM_GuestPermissions _ => CT_GuestPermissions
  | CM_PairingTrustRequest _ => CT_PairingTrustRequest
  | CM_PairingTrustGrant _ => CT_PairingTrustGrant
  | CM_ClipboardImageChunk _ => CT_ClipboardImageChunk
  | CM_RttPing _ => CT_RttPing
  | CM_RttPong _ => CT_RttPong
  end.

(** The [match self] of [encode]: [None] is the early [return Ok(output)]. *)
Definition encode_body (m : ControlMessage) : option (cresult (list byte)) :=
  match m with
  | CM_RequestKeyFrame | CM_StartStream | CM_StopStream | CM_Disconnect | CM_Ping | CM_Pong => None
  | CM_BitrateAdjust value => Some (encode value)
  | CM_StreamConfigRequest value => Some (encode value)
  | CM_StreamConfigResponse value => Some (encode value)
  | CM_StreamConfigReject value => Some (encode value)
  | CM_StreamConfigError value => Some (encode value)
  | CM_ClipboardSyncRequest value => Some (encode value)
  | CM_ClipboardSyncUpdate value => Some (encode value)
  | CM_ClipboardSyncError value => Some (encode value)
  | CM_InputAck value => Some (encode value)
  | CM_StreamOptionsRequest value => Some (encode value)
  | CM_StreamOptionsActive value => Some (encode value)
  | CM_HostDisplayList value => Some (encode value)
  | CM_HostPolicy value => Some (encode value)
  | CM_SecureAttentionRequest value => Some (encode value)
  | CM_SecureAttentionResponse value => Some (encode value)
  | CM_HostStatus value => Some (encode value)
  | CM_SessionEnded value => Some (encode value)
  | CM_GuestPermissions value => Some (encode value)
  | CM_PairingTrustRequest value => Some (encode value)
  | CM_PairingTrustGrant value => Some (encode value)
  | CM_ClipboardImageChunk value => Some (encode value)
  | CM_RttPing value | CM_RttPong value => Some (encode value)
  end.

Definition ControlMessage_encode (m : ControlMessage) : cresult (list byte) :=
  let output := le_bytes 1 (ControlMessageType_u8 (message_type m)) in
  match encode_body m with
  | None => Ok output
  | Some body => body ← body; Ok (output ++ body)
  end.

(** [Decoder::new(body).finish("control message")?; Ok(message)] *)
Definition decode_empty (m : ControlMessage) (body : list byte) : cresult ControlMessage :=
  run_decoder (_ ← finish "control message"; mret m) body.

Definition decode_body (t : ControlMessageType) (body : list byte) : cresult ControlMessage :=
  match t with
  | CT_RequestKeyFrame => decode_empty CM_RequestKeyFrame body
  | CT_StartStream => decode_empty CM_StartStream body
  | CT_StopStream => decode_empty CM_StopStream body
  | CT_Disconnect => decode_empty CM_Disconnect body
  | CT_Ping => decode_empty CM_Ping body
  | CT_Pong => decode_empty CM_Pong body
  | CT_BitrateAdjust => v ← decode body; Ok (CM_BitrateAdjust v)
  | CT_StreamConfigRequest => v ← decode body; Ok (CM_StreamConfigRequest v)
  | CT_StreamConfigResponse => v ← decode body; Ok (CM_StreamConfigResponse v)
  | CT_StreamConfigReject => v ← decode body; Ok (CM_StreamConfigReject v)
  | CT_StreamConfigError => v ← decode body; Ok (CM_StreamConfigError v)
  | CT_ClipboardSyncRequest => v ← decode body; Ok (CM_ClipboardSyncRequest v)
  | CT_ClipboardSyncUpdate => v ← decode body; Ok (CM_ClipboardSyncUpdate v)
  | CT_ClipboardSyncError => v ← decode body; Ok (CM_ClipboardSyncError v)
  | CT_InputAck => v ← decode body; Ok (CM_InputAck v)
  | CT_StreamOptionsRequest => v ← decode body; Ok (CM_StreamOptionsRequest v)
  | CT_StreamOptionsActive => v ← decode body; Ok (CM_StreamOptionsActive v)
  | CT_HostDisplayList => v ← decode body; Ok (CM_HostDisplayList v)
  | CT_HostPolicy => v ← decode body; Ok (CM_HostPolicy v)
  | CT_SecureAttentionRequest => v ← decode body; Ok (CM_SecureAttentionRequest v)
  | CT_SecureAttentionResponse => v ← decode body; Ok (CM_SecureAttentionResponse v)
  | CT_HostStatus => v ← decode body; Ok (CM_HostStatus v)
  | CT_SessionEnded => v ← decode body; Ok (CM_SessionEnded v)
  | CT_GuestPermissions => v ← decode body; Ok (CM_GuestPermissions v)
  | CT_PairingTrustRequest => v ← decode body; Ok (CM_PairingTrustRequest v)
  | CT_PairingTrustGrant => v ← decode body; Ok (CM_PairingTrustGrant v)
  | CT_ClipboardImageChunk => v ← decode body; Ok (CM_ClipboardImageChunk v)
  | CT_RttPing => v ← decode body; Ok (CM_RttPing v)
  | CT_RttPong => v ← decode body; Ok (CM_RttPong v)
  end.

Definition ControlMessage_decode : list byte -> cresult ControlMessage :=
  run_decoder (
    message_type ← read_enum ControlMessageType_try_from "control message type";
    body ← take_remaining;
    dlift (decode_body message_type body)).

#[export] Instance ControlMessage_codec : WireCodec ControlMessage :=
  { encode := ControlMessage_encode; decode := ControlMessage_decode }.

(** ** Laws of the bodies *)

Lemma ControlMessageType_try_from_iff v t :
  ControlMessageType_try_from v = Ok t <-> v = ControlMessageType_u8 t.
Proof. solve_enum. Qed.
Lemma StreamConfigurationErrorCode_try_from_iff v t :
  StreamConfigurationErrorCode_try_from v = Ok t <-> v = StreamConfigurationErrorCode_u8 t.
Proof. solve_enum. Qed.
Lemma ClipboardSyncDirection_try_from_iff v t :
  ClipboardSyncDirection_try_from v = Ok t <-> v = ClipboardSyncDirection_u8 t.
Proof. solve_enum. Qed.
Lemma ClipboardSyncOrigin_try_from_iff v t :
  ClipboardSyncOrigin_try_from v = Ok t <-> v = ClipboardSyncOrigin_u8 t.
Proof. solve_enum. Qed.
Lemma StreamCodecPreference_try_from_iff v t :
  StreamCodecPreference_try_from v = Ok t <-> v = StreamCodecPreference_u8 t.
Proof. solve_enum. Qed.

Lemma as_ControlMessageType field :
  parses_as (read_enum ControlMessageType_try_from field) (fun _ => True)
    (fun t => le_bytes 1 (ControlMessageType_u8 t)).
Proof. apply as_enum; [apply ControlMessageType_try_from_iff | by intros []]. Qed.
Lemma as_StreamConfigurationErrorCode field :
  parses_as (read_enum StreamConfigurationErrorCode_try_from field) (fun _ => True)
    (fun t => le_bytes 1 (StreamConfigurationErrorCode_u8 t)).
Proof. apply as_enum; [apply StreamConfigurationErrorCode_try_from_iff | by intros []]. Qed.
Lemma as_ClipboardSyncDirection field :
  parses_as (read_enum ClipboardSyncDirection_try_from field) (fun _ => True)
    (fun t => le_bytes 1 (ClipboardSyncDirection_u8 t)).
Proof. apply as_enum; [apply ClipboardSyncDirection_try_from_iff | by intros []]. Qed.
Lemma as_ClipboardSyncOrigin field :
  parses_as (read_enum ClipboardSyncOrigin_try_from field) (fun _ => True)
    (fun t => le_bytes 1 (ClipboardSyncOrigin_u8 t)).
Proof. apply as_enum; [apply ClipboardSyncOrigin_try_from_iff | by intros []]. Qed.
Lemma as_StreamCodecPreference field :
  parses_as (read_enum StreamCodecPreference_try_from field) (fun _ => True)
    (fun t => le_bytes 1 (StreamCodecPreference_u8 t)).
Proof. apply as_enum; [apply StreamCodecPreference_try_from_iff | by intros []]. Qed.
Lemma as_decode_bool field :
  parses_as (decode_bool field) (fun _ => True) (fun b => le_bytes 1 (bool_u8 b)).
Proof. apply as_bool. Qed.
#[export] Hint Resolve as_ControlMessageType as_StreamConfigurationErrorCode
  as_ClipboardSyncDirection as_ClipboardSyncOrigin as_StreamCodecPreference
  as_decode_bool : parses.

Definition BitrateAdjust_wf (b : BitrateAdjust) : Prop := i32_ok (ba_target_bitrate b).
Definition BitrateAdjust_bytes (b : BitrateAdjust) : list byte :=
  le_bytes 4 (u32_of_i32 (ba_target_bitrate b)).
Lemma BitrateAdjust_encode_eq b :
  BitrateAdjust_wf b -> BitrateAdjust_encode b = Ok (BitrateAdjust_bytes b).
Proof. solve_encode. Qed.
Lemma BitrateAdjust_decode_iff bs b :
  BitrateAdjust_decode bs = Ok b <-> BitrateAdjust_wf b /\ BitrateAdjust_encode b = Ok bs.
Proof. unfold BitrateAdjust_decode. solve_wire BitrateAdjust_encode_eq. Qed.
#[export] Instance BitrateAdjust_laws : WireLaws BitrateAdjust :=
  wire_laws_of BitrateAdjust_wf BitrateAdjust_bytes BitrateAdjust_encode_eq BitrateAdjust_decode_iff.
#[export] Instance BitrateAdjust_canonical : WireCanonical BitrateAdjust :=
  wire_canonical_of BitrateAdjust_wf BitrateAdjust_decode_iff.

(** The success byte may be any non-zero value. *)
Definition InputAckMessage_wf (m : InputAckMessage) : Prop :=
  u32_ok (iam_sequence m) /\ u8_ok (iam_error_code m).
Definition InputAckMessage_bytes_with (success : Z) (m : InputAckMessage) : list byte :=
  le_bytes 4 (iam_sequence m) ++ le_bytes 1 success ++ le_bytes 1 (iam_error_code m).
Definition InputAckMessage_bytes (m : InputAckMessage) : list byte :=
  InputAckMessage_bytes_with (bool_u8 (iam_success m)) m.
Lemma InputAckMessage_encode_eq m :
  InputAckMessage_wf m -> InputAckMessage_encode m = Ok (InputAckMessage_bytes m).
Proof. done. Qed.
Lemma InputAckMessage_decode_iff bs m :
  InputAckMessage_decode bs = Ok m <->
  InputAckMessage_wf m /\ exists success, u8_ok success /\
    iam_success m = negb (success =? 0) /\ bs = InputAckMessage_bytes_with success m.
Proof.
  unfold InputAckMessage_decode. erewrite run_accepts; [|solve_parses]. split.
  - intros. grammar_fwd. split; [red; cbn; done|]. eexists.
    split_and!; [|done|]; [..|unfold InputAckMessage_bytes_with; cbn; by rewrite !app_nil_r]; apply H2.
  - intros [W (s & ? & K & ->)]. destruct m.
    unfold InputAckMessage_wf, InputAckMessage_bytes_with in *; cbn in *. destruct_and?. subst.
    grammar_bwd; wire_side.
Qed.
Lemma InputAckMessage_round_trip m bs :
  InputAckMessage_wf m -> InputAckMessage_encode m = Ok bs -> InputAckMessage_decode bs = Ok m.
Proof.
  intros W. rewrite InputAckMessage_encode_eq by done. intros [= <-].
  apply InputAckMessage_decode_iff. split; [done|]. exists (bool_u8 (iam_success m)).
  unfold InputAckMessage_bytes. by destruct (iam_success m).
Qed.
#[export] Instance InputAckMessage_laws : WireLaws InputAckMessage := {
  wire_wf := InputAckMessage_wf;
  wire_encode_total m W := ex_intro _ _ (InputAckMessage_encode_eq m W);
  wire_round_trip := InputAckMessage_round_trip;
  wire_decode_wf bs m E := proj1 (proj1 (InputAckMessage_decode_iff bs m) E)
}.

(** *** Stream configuration *)

Definition StreamConfiguration_wf (c : StreamConfiguration) : Prop :=
  u32_ok (sc_width c) /\ u32_ok (sc_height c) /\ u32_ok (sc_bitrate c) /\
  u16_ok (sc_frames_per_second c).
Definition StreamConfiguration_bytes (c : StreamConfiguration) : list byte :=
  le_bytes 4 (sc_width c) ++ le_bytes 4 (sc_height c) ++ le_bytes 4 (sc_bitrate c) ++
  le_bytes 2 (sc_frames_per_second c).

Lemma StreamConfiguration_encode_into_eq c output :
  StreamConfiguration_encode_into c output = output ++ StreamConfiguration_bytes c.
Proof. unfold StreamConfiguration_encode_into, StreamConfiguration_bytes. run_encode. done. Qed.
Lemma as_StreamConfiguration :
  parses_as StreamConfiguration_decode_from StreamConfiguration_wf StreamConfiguration_bytes.
Proof. solve_as StreamConfiguration_decode_from StreamConfiguration_wf StreamConfiguration_bytes. Qed.
#[export] Hint Resolve as_StreamConfiguration : parses.

Lemma StreamConfiguration_encode_eq c :
  StreamConfiguration_wf c -> StreamConfiguration_encode c = Ok (StreamConfiguration_bytes c).
Proof. intros. unfold StreamConfiguration_encode. by rewrite StreamConfiguration_encode_into_eq. Qed.
Lemma StreamConfiguration_decode_iff bs c :
  StreamConfiguration_decode bs = Ok c <->
  StreamConfiguration_wf c /\ StreamConfiguration_encode c = Ok bs.
Proof.
  unfold StreamConfiguration_decode. erewrite run_accepts; [|solve_parses]. split.
  - intros. grammar_fwd. split; [done|]. rewrite StreamConfiguration_encode_eq by done.
    by rewrite app_nil_r.
  - intros [W E]. rewrite StreamConfiguration_encode_eq in E by done. injection E as <-.
    grammar_bwd; wire_side.
Qed.
#[export] Instance StreamConfiguration_laws : WireLaws StreamConfiguration :=
  wire_laws_of StreamConfiguration_wf StreamConfiguration_bytes StreamConfiguration_encode_eq
    StreamConfiguration_decode_iff.
#[export] Instance StreamConfiguration_canonical : WireCanonical StreamConfiguration :=
  wire_canonical_of StreamConfiguration_wf StreamConfiguration_decode_iff.

Definition StreamConfigurationRequest_wf (r : StreamConfigurationRequest) : Prop :=
  u32_ok (scr_request_id r) /\ StreamConfiguration_wf (scr_desired r).
Definition StreamConfigurationRequest_bytes (r : StreamConfigurationRequest) : list byte :=
  le_bytes 4 (scr_request_id r) ++ StreamConfiguration_bytes (scr_desired r).
Lemma StreamConfigurationRequest_encode_eq r :
  StreamConfigurationRequest_wf r ->
  StreamConfigurationRequest_encode r = Ok (StreamConfigurationRequest_bytes r).
Proof. intros. unfold StreamConfigurationRequest_encode. by rewrite StreamConfiguration_encode_into_eq. Qed.
Lemma StreamConfigurationRequest_decode_iff bs r :
  StreamConfigurationRequest_decode bs = Ok r <->
  StreamConfigurationRequest_wf r /\ StreamConfigurationRequest_encode r = Ok bs.
Proof. unfold StreamConfigurationRequest_decode. solve_wire StreamConfigurationRequest_encode_eq. Qed.
#[export] Instance StreamConfigurationRequest_laws : WireLaws StreamConfigurationRequest :=
  wire_laws_of StreamConfigurationRequest_wf StreamConfigurationRequest_bytes
    StreamConfigurationRequest_encode_eq StreamConfigurationRequest_decode_iff.
#[export] Instance StreamConfigurationRequest_canonical : WireCanonical StreamConfigurationRequest :=
  wire_canonical_of StreamConfigurationRequest_wf StreamConfigurationRequest_decode_iff.

Definition StreamConfigurationResponse_wf (r : StreamConfigurationResponse) : Prop :=
  u32_ok (scs_request_id r) /\ StreamConfiguration_wf (scs_active r).
Definition StreamConfigurationResponse_bytes (r : StreamConfigurationResponse) : list byte :=
  le_bytes 4 (scs_request_id r) ++ StreamConfiguration_bytes (scs_active r).
Lemma StreamConfigurationResponse_encode_eq r :
  StreamConfigurationResponse_wf r ->
  StreamConfigurationResponse_encode r = Ok (StreamConfigurationResponse_bytes r).
Proof. intros. unfold StreamConfigurationResponse_encode. by rewrite StreamConfiguration_encode_into_eq. Qed.
Lemma StreamConfigurationResponse_decode_iff bs r :
  StreamConfigurationResponse_decode bs = Ok r <->
  StreamConfigurationResponse_wf r /\ StreamConfigurationResponse_encode r = Ok bs.
Proof. unfold StreamConfigurationResponse_decode. solve_wire StreamConfigurationResponse_encode_eq. Qed.
#[export] Instance StreamConfigurationResponse_laws : WireLaws StreamConfigurationResponse :=
  wire_laws_of StreamConfigurationResponse_wf StreamConfigurationResponse_bytes
    StreamConfigurationResponse_encode_eq StreamConfigurationResponse_decode_iff.
#[export] Instance StreamConfigurationResponse_canonical : WireCanonical StreamConfigurationResponse :=
  wire_canonical_of StreamConfigurationResponse_wf StreamConfigurationResponse_decode_iff.

(** *** Stream problems *)

Definition stream_problem_wf (request_id : Z) (message : rstring) : Prop :=
  u32_ok request_id /\ len message <= U16_MAX /\ utf8_valid message = true.
Definition stream_problem_bytes (request_id : Z) (code : StreamConfigurationErrorCode)
    (message : rstring) : list byte :=
  le_bytes 4 request_id ++ le_bytes 1 (StreamConfigurationErrorCode_u8 code) ++
  le_bytes 2 (len message) ++ message.
Lemma encode_stream_problem_eq request_id code message :
  stream_problem_wf request_id message ->
  encode_stream_problem request_id code message = Ok (stream_problem_bytes request_id code message).
Proof.
  unfold stream_problem_wf, encode_stream_problem, stream_problem_bytes. intros (? & ? & ?).
  run_encode. done.
Qed.
Lemma decode_stream_problem_iff bs field request_id code message :
  decode_stream_problem bs field = Ok (request_id, code, message) <->
  stream_problem_wf request_id message /\ encode_stream_problem request_id code message = Ok bs.
Proof.
  unfold decode_stream_problem. erewrite run_accepts; [|solve_parses]. split.
  - intros. grammar_fwd. simplify_eq.
    lazymatch goal with |- ?W /\ _ => assert W by (split_and!; [done|width_lia|done]) end.
    split; [done|]. rewrite encode_stream_problem_eq by done. unfold stream_problem_bytes.
    by rewrite app_nil_r.
  - intros [W E]. rewrite encode_stream_problem_eq in E by done. injection E as <-.
    unfold stream_problem_wf, stream_problem_bytes in *. destruct_and?. grammar_bwd; wire_side.
Qed.

Definition StreamConfigurationReject_wf (r : StreamConfigurationReject) : Prop :=
  stream_problem_wf (scj_request_id r) (scj_message r).
Definition StreamConfigurationReject_bytes (r : StreamConfigurationReject) : list byte :=
  stream_problem_bytes (scj_request_id r) (scj_reason r) (scj_message r).
Lemma StreamConfigurationReject_encode_eq r :
  StreamConfigurationReject_wf r ->
  StreamConfigurationReject_encode r = Ok (StreamConfigurationReject_bytes r).
Proof. apply encode_stream_problem_eq. Qed.
Lemma StreamConfigurationReject_decode_iff bs r :
  StreamConfigurationReject_decode bs = Ok r <->
  StreamConfigurationReject_wf r /\ StreamConfigurationReject_encode r = Ok bs.
Proof.
  unfold StreamConfigurationReject_wf, StreamConfigurationReject_encode.
  rewrite <- (decode_stream_problem_iff bs "stream configuration reject").
  unfold StreamConfigurationReject_decode.
  destruct (decode_stream_problem _ _) as [[[? ?] ?]|]; cbn; destruct r; naive_solver.
Qed.
#[export] Instance StreamConfigurationReject_laws : WireLaws StreamConfigurationReject :=
  wire_laws_of StreamConfigurationReject_wf StreamConfigurationReject_bytes
    StreamConfigurationReject_encode_eq StreamConfigurationReject_decode_iff.
#[export] Instance StreamConfigurationReject_canonical : WireCanonical StreamConfigurationReject :=
  wire_canonical_of StreamConfigurationReject_wf StreamConfigurationReject_decode_iff.

Definition StreamConfigurationError_wf (r : StreamConfigurationError) : Prop :=
  stream_problem_wf (sce_request_id r) (sce_message r).
Definition StreamConfigurationError_bytes (r : StreamConfigurationError) : list byte :=
  stream_problem_bytes (sce_request_id r) (sce_error_code r) (sce_message r).
Lemma StreamConfigurationError_encode_eq r :
  StreamConfigurationError_wf r ->
  StreamConfigurationError_encode r = Ok (StreamConfigurationError_bytes r).
Proof. apply encode_stream_problem_eq. Qed.
Lemma StreamConfigurationError_decode_iff bs r :
  StreamConfigurationError_decode bs = Ok r <->
  StreamConfigurationError_wf r /\ StreamConfigurationError_encode r = Ok bs.
Proof.
  unfold StreamConfigurationError_wf, StreamConfigurationError_encode.
  rewrite <- (decode_stream_problem_iff bs "stream configuration error").
  unfold StreamConfigurationError_decode.
  destruct (decode_stream_problem _ _) as [[[? ?] ?]|]; cbn; destruct r; naive_solver.
Qed.
#[export] Instance StreamConfigurationError_laws : WireLaws StreamConfigurationError :=
  wire_laws_of StreamConfigurationError_wf StreamConfigurationError_bytes
    StreamConfigurationError_encode_eq StreamConfigurationError_decode_iff.
#[export] Instance StreamConfigurationError_canonical : WireCanonical StreamConfigurationError :=
  wire_canonical_of StreamConfigurationError_wf StreamConfigurationError_decode_iff.

(** *** Clipboard synchronisation *)

Definition ClipboardSyncRequest_wf (r : ClipboardSyncRequest) : Prop := u32_ok (csr_request_id r).
Definition ClipboardSyncRequest_bytes (r : ClipboardSyncRequest) : list byte :=
  le_bytes 4 (csr_request_id r) ++ le_bytes 1 (ClipboardSyncDirection_u8 (csr_direction r)) ++
  le_bytes 1 (ClipboardSyncOrigin_u8 (csr_origin r)).
Lemma ClipboardSyncRequest_encode_eq r :
  ClipboardSyncRequest_wf r -> ClipboardSyncRequest_encode r = Ok (ClipboardSyncRequest_bytes r).
Proof. solve_encode. Qed.
Lemma ClipboardSyncRequest_decode_iff bs r :
  ClipboardSyncRequest_decode bs = Ok r <->
  ClipboardSyncRequest_wf r /\ ClipboardSyncRequest_encode r = Ok bs.
Proof. unfold ClipboardSyncRequest_decode. solve_wire ClipboardSyncRequest_encode_eq. Qed.
#[export] Instance ClipboardSyncRequest_laws : WireLaws ClipboardSyncRequest :=
  wire_laws_of ClipboardSyncRequest_wf ClipboardSyncRequest_bytes ClipboardSyncRequest_encode_eq
    ClipboardSyncRequest_decode_iff.
#[export] Instance ClipboardSyncRequest_canonical : WireCanonical ClipboardSyncRequest :=
  wire_canonical_of ClipboardSyncRequest_wf ClipboardSyncRequest_decode_iff.

Definition ClipboardSyncUpdate_wf (u : ClipboardSyncUpdate) : Prop :=
  u32_ok (csu_request_id u) /\ len (csu_text u) <= MAX_CLIPBOARD_TEXT_BYTES /\
  utf8_valid (csu_text u) = true.
Definition ClipboardSyncUpdate_bytes (u : ClipboardSyncUpdate) : list byte :=
  le_bytes 4 (csu_request_id u) ++ le_bytes 1 (ClipboardSyncDirection_u8 (csu_direction u)) ++
  le_bytes 1 (ClipboardSyncOrigin_u8 (csu_origin u)) ++ le_bytes 2 (len (csu_text u)) ++ csu_text u.
Lemma ClipboardSyncUpdate_encode_eq u :
  ClipboardSyncUpdate_wf u -> ClipboardSyncUpdate_encode u = Ok (ClipboardSyncUpdate_bytes u).
Proof. solve_encode. Qed.
Lemma ClipboardSyncUpdate_decode_iff bs u :
  ClipboardSyncUpdate_decode bs = Ok u <->
  ClipboardSyncUpdate_wf u /\ ClipboardSyncUpdate_encode u = Ok bs.
Proof. unfold ClipboardSyncUpdate_decode. solve_wire ClipboardSyncUpdate_encode_eq. Qed.
#[export] Instance ClipboardSyncUpdate_laws : WireLaws ClipboardSyncUpdate :=
  wire_laws_of ClipboardSyncUpdate_wf ClipboardSyncUpdate_bytes ClipboardSyncUpdate_encode_eq
    ClipboardSyncUpdate_decode_iff.
#[export] Instance ClipboardSyncUpdate_canonical : WireCanonical ClipboardSyncUpdate :=
  wire_canonical_of ClipboardSyncUpdate_wf ClipboardSyncUpdate_decode_iff.

Definition ClipboardSyncError_wf (e : ClipboardSyncError) : Prop :=
  u32_ok (cse_request_id e) /\ u8_ok (cse_error_code e) /\ len (cse_message e) <= U16_MAX /\
  utf8_valid (cse_message e) = true.
Definition ClipboardSyncError_bytes (e : ClipboardSyncError) : list byte :=
  le_bytes 4 (cse_request_id e) ++ le_bytes 1 (ClipboardSyncDirection_u8 (cse_direction e)) ++
  le_bytes 1 (ClipboardSyncOrigin_u8 (cse_origin e)) ++ le_bytes 1 (cse_error_code e) ++
  le_bytes 2 (len (cse_message e)) ++ cse_message e.
Lemma ClipboardSyncError_encode_eq e :
  ClipboardSyncError_wf e -> ClipboardSyncError_encode e = Ok (ClipboardSyncError_bytes e).
Proof. solve_encode. Qed.
Lemma ClipboardSyncError_decode_iff bs e :
  ClipboardSyncError_decode bs = Ok e <->
  ClipboardSyncError_wf e /\ ClipboardSyncError_encode e = Ok bs.
Proof. unfold ClipboardSyncError_decode. solve_wire ClipboardSyncError_encode_eq. Qed.
#[export] Instance ClipboardSyncError_laws : WireLaws ClipboardSyncError :=
  wire_laws_of ClipboardSyncError_wf ClipboardSyncError_bytes ClipboardSyncError_encode_eq
    ClipboardSyncError_decode_iff.
#[export] Instance ClipboardSyncError_canonical : WireCanonical ClipboardSyncError :=
  wire_canonical_of ClipboardSyncError_wf ClipboardSyncError_decode_iff.

(** *** Stream options *)

Definition StreamOptionsRequest_wf (r : StreamOptionsRequest) : Prop :=
  u32_ok (sor_request_id r) /\ u16_ok (sor_scale_permille r) /\ u16_ok (sor_fps r) /\
  u8_ok (sor_display_index r) /\ u32_ok (sor_bitrate r).
Definition StreamOptionsRequest_bytes (r : StreamOptionsRequest) : list byte :=
  le_bytes 4 (sor_request_id r) ++ le_bytes 2 (sor_scale_permille r) ++ le_bytes 2 (sor_fps r) ++
  le_bytes 1 (StreamCodecPreference_u8 (sor_codec r)) ++ le_bytes 1 (sor_display_index r) ++
  le_bytes 4 (sor_bitrate r).
Lemma StreamOptionsRequest_encode_eq r :
  StreamOptionsRequest_wf r -> StreamOptionsRequest_encode r = Ok (StreamOptionsRequest_bytes r).
Proof. solve_encode. Qed.
Lemma StreamOptionsRequest_decode_iff bs r :
  StreamOptionsRequest_decode bs = Ok r <->
  StreamOptionsRequest_wf r /\ StreamOptionsRequest_encode r = Ok bs.
Proof. unfold StreamOptionsRequest_decode. solve_wire StreamOptionsRequest_encode_eq. Qed.
#[export] Instance StreamOptionsRequest_laws : WireLaws StreamOptionsRequest :=
  wire_laws_of StreamOptionsRequest_wf StreamOptionsRequest_bytes StreamOptionsRequest_encode_eq
    StreamOptionsRequest_decode_iff.
#[export] Instance StreamOptionsRequest_canonical : WireCanonical StreamOptionsRequest :=
  wire_canonical_of StreamOptionsRequest_wf StreamOptionsRequest_decode_iff.

Definition StreamOptionsActive_wf (r : StreamOptionsActive) : Prop :=
  u32_ok (soa_request_id r) /\ u32_ok (soa_width r) /\ u32_ok (soa_height r) /\ u16_ok (soa_fps r) /\
  u8_ok (soa_display_index r) /\ u32_ok (soa_bitrate r).
Definition StreamOptionsActive_bytes (r : StreamOptionsActive) : list byte :=
  le_bytes 4 (soa_request_id r) ++ le_bytes 4 (soa_width r) ++ le_bytes 4 (soa_height r) ++
  le_bytes 2 (soa_fps r) ++ le_bytes 1 (StreamCodecPreference_u8 (soa_codec r)) ++
  le_bytes 1 (soa_display_index r) ++ le_bytes 4 (soa_bitrate r).
Lemma StreamOptionsActive_encode_eq r :
  StreamOptionsActive_wf r -> StreamOptionsActive_encode r = Ok (StreamOptionsActive_bytes r).
Proof. solve_encode. Qed.
Lemma StreamOptionsActive_decode_iff bs r :
  StreamOptionsActive_decode bs = Ok r <->
  StreamOptionsActive_wf r /\ StreamOptionsActive_encode r = Ok bs.
Proof. unfold StreamOptionsActive_decode. solve_wire StreamOptionsActive_encode_eq. Qed.
#[export] Instance StreamOptionsActive_laws : WireLaws StreamOptionsActive :=
  wire_laws_of StreamOptionsActive_wf StreamOptionsActive_bytes StreamOptionsActive_encode_eq
    StreamOptionsActive_decode_iff.
#[export] Instance StreamOptionsActive_canonical : WireCanonical StreamOptionsActive :=
  wire_canonical_of StreamOptionsActive_wf StreamOptionsActive_decode_iff.

(** *** Displays and policy *)

Definition HostDisplay_wf (d : HostDisplay) : Prop :=
  u8_ok (hd_index d) /\ u32_ok (hd_width d) /\ u32_ok (hd_height d) /\
  len (hd_name d) <= MAX_HOST_DISPLAY_NAME_BYTES /\ utf8_valid (hd_name d) = true.
Definition HostDisplay_bytes (d : HostDisplay) : list byte :=
  le_bytes 1 (hd_index d) ++ le_bytes 4 (hd_width d) ++ le_bytes 4 (hd_height d) ++
  le_bytes 1 (bool_u8 (hd_primary d)) ++ le_bytes 1 (len (hd_name d)) ++ hd_name d.
Definition HostDisplayList_wf (l : HostDisplayList) : Prop :=
  len (hdl_displays l) <= MAX_HOST_DISPLAYS /\ Forall HostDisplay_wf (hdl_displays l).
Definition HostDisplayList_bytes (l : HostDisplayList) : list byte :=
  le_bytes 1 (len (hdl_displays l)) ++ concat (HostDisplay_bytes <$> hdl_displays l).

Lemma as_HostDisplay : parses_as read_display HostDisplay_wf HostDisplay_bytes.
Proof. solve_as read_display HostDisplay_wf HostDisplay_bytes. Qed.
#[export] Hint Resolve as_HostDisplay : parses.

Lemma check_display_names_ok displays :
  Forall HostDisplay_wf displays -> check_display_names displays = Ok tt.
Proof.
  induction 1 as [|d ds (? & ? & ? & L & _) F IH]; cbn; [done|]. case_if; [lia|done].
Qed.

Lemma push_display_eq output d :
  HostDisplay_wf d -> push_display output d = output ++ HostDisplay_bytes d.
Proof.
  intros (_ & _ & _ & L & _). unfold push_display, HostDisplay_bytes.
  rewrite Z.mod_small by (len_facts; width_lia). run_encode. done.
Qed.

Lemma push_displays_eq output ds :
  Forall HostDisplay_wf ds ->
  foldl push_display output ds = output ++ concat (HostDisplay_bytes <$> ds).
Proof.
  intros F. revert output. induction F as [|d ds Hd F IH]; intros output; cbn.
  - by rewrite app_nil_r.
  - rewrite IH, push_display_eq by done. by rewrite <- app_assoc.
Qed.

Lemma HostDisplayList_encode_eq l :
  HostDisplayList_wf l -> HostDisplayList_encode l = Ok (HostDisplayList_bytes l).
Proof.
  intros [L F]. unfold HostDisplayList_encode. case_if; [lia|].
  rewrite check_display_names_ok by done. rewrite bind_ok, push_displays_eq by done.
  rewrite Z.mod_small by (len_facts; width_lia). done.
Qed.
Lemma HostDisplayList_decode_iff bs l :
  HostDisplayList_decode bs = Ok l <->
  HostDisplayList_wf l /\ HostDisplayList_encode l = Ok bs.
Proof.
  unfold HostDisplayList_decode. erewrite run_accepts; [|solve_parses]. split.
  - intros. grammar_fwd.
    match goal with H : length ?l = Z.to_nat ?x |- _ =>
      assert (x = len l) as -> by (unfold len; width_lia) end.
    wire_fwd HostDisplayList_encode_eq.
  - wire_bwd HostDisplayList_encode_eq.
Qed.
#[export] Instance HostDisplayList_laws : WireLaws HostDisplayList :=
  wire_laws_of HostDisplayList_wf HostDisplayList_bytes HostDisplayList_encode_eq
    HostDisplayList_decode_iff.
#[export] Instance HostDisplayList_canonical : WireCanonical HostDisplayList :=
  wire_canonical_of HostDisplayList_wf HostDisplayList_decode_iff.

Definition HostPolicy_wf (p : HostPolicy) : Prop := True.
Definition HostPolicy_bytes (p : HostPolicy) : list byte :=
  le_bytes 1 (bool_u8 (hp_allow_input p)) ++ le_bytes 1 (bool_u8 (hp_allow_clipboard p)).
Lemma HostPolicy_encode_eq p : HostPolicy_wf p -> HostPolicy_encode p = Ok (HostPolicy_bytes p).
Proof. done. Qed.
Lemma HostPolicy_decode_iff bs p :
  HostPolicy_decode bs = Ok p <-> HostPolicy_wf p /\ HostPolicy_encode p = Ok bs.
Proof. unfold HostPolicy_decode. solve_wire HostPolicy_encode_eq. Qed.
#[export] Instance HostPolicy_laws : WireLaws HostPolicy :=
  wire_laws_of HostPolicy_wf HostPolicy_bytes HostPolicy_encode_eq HostPolicy_decode_iff.
#[export] Instance HostPolicy_canonical : WireCanonical HostPolicy :=
  wire_canonical_of HostPolicy_wf HostPolicy_decode_iff.

(** ** The union, through the interface of its bodies *)

Definition ControlMessage_wf (m : ControlMessage) : Prop :=
  match m with
  | CM_RequestKeyFrame | CM_StartStream | CM_StopStream | CM_Disconnect | CM_Ping | CM_Pong => True
  | CM_BitrateAdjust v => wire_wf v
  | CM_StreamConfigRequest v => wire_wf v
  | CM_StreamConfigResponse v => wire_wf v
  | CM_StreamConfigReject v => wire_wf v
  | CM_StreamConfigError v => wire_wf v
  | CM_ClipboardSyncRequest v => wire_wf v
  | CM_ClipboardSyncUpdate v => wire_wf v
  | CM_ClipboardSyncError v => wire_wf v
  | CM_InputAck v => wire_wf v
  | CM_StreamOptionsRequest v => wire_wf v
  | CM_StreamOptionsActive v => wire_wf v
  | CM_HostDisplayList v => wire_wf v
  | CM_HostPolicy v => wire_wf v
  | CM_SecureAttentionRequest v => wire_wf v
  | CM_SecureAttentionResponse v => wire_wf v
  | CM_HostStatus v => wire_wf v
  | CM_SessionEnded v => wire_wf v
  | CM_GuestPermissions v => wire_wf v
  | CM_PairingTrustRequest v => wire_wf v
  | CM_PairingTrustGrant v => wire_wf v
  | CM_ClipboardImageChunk v => wire_wf v
  | CM_RttPing v => wire_wf v
  | CM_RttPong v => wire_wf v
  end.

Lemma decode_empty_iff m body m' :
  decode_empty m body = Ok m' <-> m' = m /\ body = [].
Proof.
  unfold decode_empty. erewrite run_accepts; [|solve_parses]. cbn. naive_solver.
Qed.

Lemma ControlMessage_decode_iff bs m :
  ControlMessage_decode bs = Ok m <->
  exists t body, bs = le_bytes 1 (ControlMessageType_u8 t) ++ body /\ decode_body t body = Ok m.
Proof.
  unfold ControlMessage_decode. erewrite run_accepts; [|solve_parses]. cbn. naive_solver.
Qed.

(** A body decodes to a message of its own type. *)
Lemma decode_body_type t body m : decode_body t body = Ok m -> message_type m = t.
Proof.
  destruct t; cbn [decode_body]; intros E;
    try (apply decode_empty_iff in E as [-> _]; done);
    inv_result E; by injection E as <-.
Qed.

Lemma decode_body_wf t body m : decode_body t body = Ok m -> ControlMessage_wf m.
Proof.
  destruct t; cbn [decode_body]; intros E;
    try (apply decode_empty_iff in E as [-> _]; done);
    inv_result E; injection E as <-; by eapply wire_decode_wf.
Qed.

Lemma ControlMessage_encode_total m :
  ControlMessage_wf m -> exists bs, ControlMessage_encode m = Ok bs.
Proof.
  unfold ControlMessage_encode.
  destruct m; cbn [ControlMessage_wf encode_body]; intros W; try (eexists; reflexivity);
    destruct (wire_encode_total _ W) as [b ->]; eexists; reflexivity.
Qed.

Lemma ControlMessage_round_trip m bs :
  ControlMessage_wf m -> ControlMessage_encode m = Ok bs -> ControlMessage_decode bs = Ok m.
Proof.
  intros W E. apply ControlMessage_decode_iff. exists (message_type m).
  unfold ControlMessage_encode in E.
  destruct m; cbn [encode_body message_type ControlMessage_wf] in *;
    try (injection E as <-; exists []; split; [by rewrite app_nil_r | by apply decode_empty_iff]);
    inv_result E; injection E as <-; eexists; (split; [reflexivity|]);
    cbn [decode_body]; erewrite wire_round_trip by eassumption; reflexivity.
Qed.

Lemma ControlMessage_canonical_but_ack bs m :
  ControlMessage_decode bs = Ok m -> message_type m <> CT_InputAck -> ControlMessage_encode m = Ok bs.
Proof.
  intros (t & body & -> & E)%ControlMessage_decode_iff T.
  pose proof (decode_body_type _ _ _ E) as Et. rewrite Et in T. unfold ControlMessage_encode.
  rewrite Et. destruct t; cbn [decode_body] in E; try done;
    try (apply decode_empty_iff in E as [-> ->]; cbn; by rewrite app_nil_r);
    inv_result E; injection E as <-; cbn [encode_body];
    match goal with H : decode _ = _ |- _ => apply wire_canonical in H as -> end; reflexivity.
Qed.

#[export] Instance ControlMessage_laws : WireLaws ControlMessage := {
  wire_wf := ControlMessage_wf;
  wire_encode_total := ControlMessage_encode_total;
  wire_round_trip := ControlMessage_round_trip;
  wire_decode_wf bs m E :=
    match proj1 (ControlMessage_decode_iff bs m) E with
    | ex_intro _ t (ex_intro _ body (conj _ H)) => decode_body_wf t body m H
    end
}.

(** ** Size of an encoded message *)

(** The largest encoding: 64 guest names of 1024 bytes. *)
Definition MAX_CONTROL_BYTES : Z := 65667.
#[export] Hint Unfold MAX_CONTROL_BYTES : limits.

Lemma len_concat_bound {A} (f : A -> list byte) (P : A -> Prop) k l :
  (forall a, P a -> len (f a) <= k) -> Forall P l -> len (concat (f <$> l)) <= k * len l.
Proof.
  intros Hf F. induction F as [|a l Pa F IH]; cbn; autorewrite with len; [lia|].
  specialize (Hf a Pa). lia.
Qed.

Lemma HostStatus_len s : HostStatus_wf s -> len (HostStatus_bytes s) <= 2 + 1026 * 64.
Proof.
  intros [L F]. unfold HostStatus_bytes. autorewrite with len.
  pose proof (len_concat_bound guest_name_bytes guest_name_ok 1026 (hst_guest_names s)) as C.
  assert (len (concat (guest_name_bytes <$> hst_guest_names s)) <= 1026 * len (hst_guest_names s)).
  { apply C; [|done]. intros n [? _]. unfold guest_name_bytes. autorewrite with len. width_lia. }
  width_lia.
Qed.

Lemma HostDisplayList_len l : HostDisplayList_wf l -> len (HostDisplayList_bytes l) <= 1 + 75 * 16.
Proof.
  intros [L F]. unfold HostDisplayList_bytes. autorewrite with len.
  pose proof (len_concat_bound HostDisplay_bytes HostDisplay_wf 75 (hdl_displays l)) as C.
  assert (len (concat (HostDisplay_bytes <$> hdl_displays l)) <= 75 * len (hdl_displays l)).
  { apply C; [|done]. intros d (_ & _ & _ & ? & _). unfold HostDisplay_bytes.
    autorewrite with len. width_lia. }
  width_lia.
Qed.

(** Bounds [len (bytes v)] for a body of fixed-size fields and at most one
    string. *)
Ltac body_len :=
  lazymatch goal with
  | W : wire_wf ?v |- len (?b ?v) <= _ => hnf in W; unfold b; destruct_and?
  end;
  unfold StreamConfiguration_bytes, PairingTrust_bytes, InputAckMessage_bytes_with,
    stream_problem_bytes in *;
  autorewrite with len; len_facts; width_lia.

#[export] Instance BitrateAdjust_bounded : WireBounded BitrateAdjust 4.
Proof. solve_bounded BitrateAdjust_encode_eq. body_len. Qed.
#[export] Instance StreamConfigurationRequest_bounded : WireBounded StreamConfigurationRequest 18.
Proof. solve_bounded StreamConfigurationRequest_encode_eq. body_len. Qed.
#[export] Instance StreamConfigurationResponse_bounded : WireBounded StreamConfigurationResponse 18.
Proof. solve_bounded StreamConfigurationResponse_encode_eq. body_len. Qed.
#[export] Instance StreamConfigurationReject_bounded : WireBounded StreamConfigurationReject 65542.
Proof. solve_bounded StreamConfigurationReject_encode_eq. body_len. Qed.
#[export] Instance StreamConfigurationError_bounded : WireBounded StreamConfigurationError 65542.
Proof. solve_bounded StreamConfigurationError_encode_eq. body_len. Qed.
#[export] Instance ClipboardSyncRequest_bounded : WireBounded ClipboardSyncRequest 6.
Proof. solve_bounded ClipboardSyncRequest_encode_eq. body_len. Qed.
#[export] Instance ClipboardSyncUpdate_bounded : WireBounded ClipboardSyncUpdate 4104.
Proof. solve_bounded ClipboardSyncUpdate_encode_eq. body_len. Qed.
#[export] Instance ClipboardSyncError_bounded : WireBounded ClipboardSyncError 65544.
Proof. solve_bounded ClipboardSyncError_encode_eq. body_len. Qed.
#[export] Instance InputAckMessage_bounded : WireBounded InputAckMessage 6.
Proof. solve_bounded InputAckMessage_encode_eq. body_len. Qed.
#[export] Instance StreamOptionsRequest_bounded : WireBounded StreamOptionsRequest 14.
Proof. solve_bounded StreamOptionsRequest_encode_eq. body_len. Qed.
#[export] Instance StreamOptionsActive_bounded : WireBounded StreamOptionsActive 20.
Proof. solve_bounded StreamOptionsActive_encode_eq. body_len. Qed.
#[export] Instance HostDisplayList_bounded : WireBounded HostDisplayList 1201.
Proof. solve_bounded HostDisplayList_encode_eq. by apply HostDisplayList_len. Qed.
#[export] Instance HostPolicy_bounded : WireBounded HostPolicy 2.
Proof. solve_bounded HostPolicy_encode_eq. body_len. Qed.
#[export] Instance SecureAttentionRequest_bounded : WireBounded SecureAttentionRequest 4.
Proof. solve_bounded SecureAttentionRequest_encode_eq. body_len. Qed.
#[export] Instance SecureAttentionResponse_bounded : WireBounded SecureAttentionResponse 5.
Proof. solve_bounded SecureAttentionResponse_encode_eq. body_len. Qed.
#[export] Instance HostStatus_bounded : WireBounded HostStatus 65666.
Proof. solve_bounded HostStatus_encode_eq. by apply HostStatus_len. Qed.
#[export] Instance SessionEnded_bounded : WireBounded SessionEnded 1.
Proof. solve_bounded SessionEnded_encode_eq. body_len. Qed.
#[export] Instance GuestPermissions_bounded : WireBounded GuestPermissions 5.
Proof. solve_bounded GuestPermissions_encode_eq. body_len. Qed.
#[export] Instance PairingTrustRequest_bounded : WireBounded PairingTrustRequest 9.
Proof. solve_bounded PairingTrustRequest_encode_eq. body_len. Qed.
#[export] Instance PairingTrustGrant_bounded : WireBounded PairingTrustGrant 9.
Proof. solve_bounded PairingTrustGrant_encode_eq. body_len. Qed.
#[export] Instance ClipboardImageChunk_bounded : WireBounded ClipboardImageChunk 65548.
Proof. solve_bounded ClipboardImageChunk_encode_eq. body_len. Qed.
#[export] Instance RttProbe_bounded : WireBounded RttProbe 8.
Proof. solve_bounded RttProbe_encode_eq. body_len. Qed.

Lemma ControlMessage_encode_bound m bs :
  ControlMessage_wf m -> ControlMessage_encode m = Ok bs -> 1 <= len bs <= MAX_CONTROL_BYTES.
Proof.
  unfold ControlMessage_encode.
  destruct m; cbn [encode_body message_type ControlMessage_wf]; intros W E;
    try (injection E as <-; rewrite len_le_bytes; width_lia);
    inv_result E; injection E as <-;
    match goal with H : encode _ = Ok ?b |- _ =>
      pose proof (wire_bounded _ b W H); autorewrite with len end;
    len_facts; width_lia.
Qed.

(** ** Properties *)

(** C39: every well-formed control message, of all 29 types, encodes, into at
    most 65 667 bytes, and decodes to itself. *)
Theorem control_message_round_trips (m : ControlMessage) :
  ControlMessage_wf m ->
  exists bs, ControlMessage_encode m = Ok bs /\ ControlMessage_decode bs = Ok m /\
    1 <= len bs <= MAX_CONTROL_BYTES.
Proof.
  intros W. destruct (ControlMessage_encode_total m W) as [bs E]. exists bs.
  split_and!; [done | by apply ControlMessage_round_trip |..]; by eapply ControlMessage_encode_bound.
Qed.

(** The control decoder accepts nothing but encodings of well-formed
    messages.  Whatever it accepts is well formed, carries the type of its first
    byte and encodes again; and, input acknowledgements apart, it encodes to the
    very bytes received.  Of an acknowledgement only the success byte may
    differ, where any non-zero value counts as true. *)
Theorem control_message_canonical (bs : list byte) (m : ControlMessage) :
  ControlMessage_decode bs = Ok m ->
  ControlMessage_wf m /\
  (exists body, bs = le_bytes 1 (ControlMessageType_u8 (message_type m)) ++ body) /\
  match m with
  | CM_InputAck a => exists success, u8_ok success /\ iam_success a = negb (success =? 0) /\
      bs = le_bytes 1 (ControlMessageType_u8 CT_InputAck) ++ le_bytes 4 (iam_sequence a) ++
        le_bytes 1 success ++ le_bytes 1 (iam_error_code a)
  | _ => ControlMessage_encode m = Ok bs
  end.
Proof.
  intros E. pose proof (ControlMessage_canonical_but_ack bs m E) as C.
  apply ControlMessage_decode_iff in E as (t & body & -> & E).
  split; [by eapply decode_body_wf|]. pose proof (decode_body_type _ _ _ E) as Et.
  split; [exists body; by rewrite Et|].
  destruct m; try (by apply C). cbn in Et. subst t. cbn [decode_body] in E.
  inv_result E. injection E as <-.
  match goal with H : decode body = _ |- _ => apply InputAckMessage_decode_iff in H end.
  destruct_and?. destruct H0 as (s & ? & ? & ->). exists s. split_and!; done.
Qed.

(** Capability gating.  A peer may be sent a message type exactly when the
    capability the type needs, if any, is in both capability sets; the set of
    all capabilities supports everything, the empty set exactly the 19 base
    types, and adding capabilities never removes support. *)
Theorem control_capability_gating (t : ControlMessageType) (local peer extra : Capabilities) :
  (supported_by t local peer = true <->
   forall c i, required_capability t = Some c -> Z.testbit c i = true ->
     Z.testbit local i = true /\ Z.testbit peer i = true) /\
  supported_by t local peer = supported_by t peer local /\
  supported_by t Capabilities_all Capabilities_all = true /\
  (supported_by t Capabilities_empty Capabilities_all = true <-> ControlMessageType_u8 t < 19) /\
  (supported_by t local peer = true -> supported_by t (Capabilities_bitor local extra) peer = true).
Proof.
  split_and!.
  - unfold supported_by. destruct (required_capability t) as [c|]; [|naive_solver].
    rewrite andb_true_iff, !Capabilities_contains_iff. split.
    + intros [H1 H2] c' i [= <-] Hi. auto.
    + intros H. split; intros i Hi; by destruct (H c i eq_refl Hi).
  - unfold supported_by. destruct (required_capability t); [apply andb_comm | done].
  - by destruct t.
  - by destruct t.
  - unfold supported_by. destruct (required_capability t) as [c|]; [|done].
    rewrite !andb_true_iff, !Capabilities_contains_iff. unfold Capabilities_bitor.
    intros [H1 H2]. split; [|done]. intros i Hi. by rewrite Z.lor_spec, H1.
Qed.

Lemma control_message_round_trips_witness :
  exists bs, ControlMessage_encode (CM_HostStatus (mkHostStatus [str_bytes "Ada"; str_bytes "Bo"])) = Ok bs /\
    ControlMessage_decode bs = Ok (CM_HostStatus (mkHostStatus [str_bytes "Ada"; str_bytes "Bo"])) /\
    1 <= len bs <= MAX_CONTROL_BYTES.
Proof.
  apply control_message_round_trips.
  split; [vm_compute; congruence | repeat constructor; vm_compute; congruence].
Defined.

Lemma control_message_canonical_witness :
  let bs := Z_to_byte <$> [14; 1; 0; 0; 0; 200; 3] in
  ControlMessage_decode bs = Ok (CM_InputAck (mkInputAckMessage 1 true 3)) /\
  exists success, u8_ok success /\ true = negb (success =? 0) /\
    bs = le_bytes 1 14 ++ le_bytes 4 1 ++ le_bytes 1 success ++ le_bytes 1 3.
Proof.
  assert (E : ControlMessage_decode (Z_to_byte <$> [14; 1; 0; 0; 0; 200; 3]) =
    Ok (CM_InputAck (mkInputAckMessage 1 true 3))) by (vm_compute; reflexivity).
  split; [exact E|]. exact (proj2 (proj2 (control_message_canonical _ _ E))).
Defined.
