(* ===== verification/Transport.v ===== *)
(** * Packets on the reliable channel

    [clients/rust/maho-host/src/session.rs], [split_packet], [send_tcp_packet]
    and [send_tcp_control]: how a control message becomes a TCP payload and how
    the peer takes it apart.  [SessionError::Codec] is kept as its [CodecError];
    the wall clock [unix_ms_u32()] is an argument. *)

From S2P Require Import Prelude Codec Packet Framing Handshake Pairing Parity Control.

(** [PacketHeader::new]. *)
Definition PacketHeader_new (t : PacketType) (sequence timestamp_ms flags : Z) : PacketHeader :=
  mkPacketHeader t sequence timestamp_ms flags.

Definition PACKET_HEADER_SIZE : Z := 12.
#[export] Hint Unfold PACKET_HEADER_SIZE : limits.

Definition split_packet (packet : list byte) : cresult (PacketHeader * list byte) :=
  if len packet <? PACKET_HEADER_SIZE
  then Err (Truncated "packet header" PACKET_HEADER_SIZE (len packet)) else
  header ← PacketHeader_decode (take (Z.to_nat PACKET_HEADER_SIZE) packet);
  Ok (header, drop (Z.to_nat PACKET_HEADER_SIZE) packet).

(** The bytes [send_tcp_packet] gives to [write_frame]. *)
Definition tcp_packet (unix_ms : Z) (t : PacketType) (payload : list byte) : cresult (list byte) :=
  packet ← PacketHeader_encode (PacketHeader_new t 0 unix_ms 0);
  Ok (packet ++ payload).

(** The payload of [send_tcp_control]. *)
Definition control_packet (unix_ms : Z) (message : ControlMessage) : cresult (list byte) :=
  payload ← ControlMessage_encode message;
  tcp_packet unix_ms PT_Control payload.

Definition pairing_reject_packet (unix_ms : Z) (reason : PairingRejectReason) : cresult (list byte) :=
  payload ← PairingReject_encode (mkPairingReject reason);
  tcp_packet unix_ms PT_PairingReject payload.

(** What a receiver does with a frame that carries a control message. *)
Definition receive_control (frame : list byte) : cresult ControlMessage :=
  '(header, payload) ← split_packet frame;
  match ph_packet_type header with
  | PT_Control => ControlMessage_decode payload
  | t => Err (UnknownPacketType (PacketType_u8 t))
  end.

(** [receive_control] on every event of a reader. *)
Fixpoint receive_all (events : list TcpFrameEvent) : cresult (list ControlMessage) :=
  match events with
  | [] => Ok []
  | Frame frame :: events =>
    m ← receive_control frame; ms ← receive_all events; Ok (m :: ms)
  | DroppedInvalidLength length :: _ => Err (InvalidFrameLength length)
  end.

(** ** Splitting undoes the header *)

Lemma PacketHeader_to_bytes_len h : len (PacketHeader_to_bytes h) = PACKET_HEADER_SIZE.
Proof. rewrite PacketHeader_to_bytes_fields. autorewrite with len. done. Qed.

Lemma split_packet_app h payload :
  PacketHeader_wf h -> split_packet (PacketHeader_to_bytes h ++ payload) = Ok (h, payload).
Proof.
  intros W. unfold split_packet. pose proof (PacketHeader_to_bytes_len h) as L.
  autorewrite with len. rewrite L. case_if; [len_facts; width_lia|].
  rewrite <- L, to_nat_len, take_app_length, drop_app_length.
  rewrite (proj2 (PacketHeader_decode_iff _ h)) by done. done.
Qed.

Lemma split_packet_inv packet h payload :
  split_packet packet = Ok (h, payload) ->
  PacketHeader_wf h /\ packet = PacketHeader_to_bytes h ++ payload.
Proof.
  unfold split_packet. case_if; [done|]. intros E. inv_result E. injection E as <- <-.
  apply PacketHeader_decode_iff in E0 as [W E]. split; [done|].
  rewrite E. symmetry. apply take_drop.
Qed.

Lemma control_packet_spec unix_ms m p :
  u32_ok unix_ms -> ControlMessage_wf m -> control_packet unix_ms m = Ok p ->
  payload_ok p /\ receive_control p = Ok m.
Proof.
  intros Hu W E. unfold control_packet in E. inv_result E.
  unfold tcp_packet in E. cbn in E. apply Ok_inj in E. subst p.
  set (h := PacketHeader_new PT_Control 0 unix_ms 0) in *.
  assert (Wh : PacketHeader_wf h) by (subst h; split_and!; cbn; width_lia).
  pose proof (ControlMessage_encode_bound m r W E0). split.
  - unfold payload_ok. autorewrite with len. rewrite PacketHeader_to_bytes_len. width_lia.
  - unfold receive_control. rewrite split_packet_app by done. cbn.
    by apply ControlMessage_round_trip.
Qed.

(** ** Properties *)

(** Splitting a packet succeeds exactly on a well-formed header followed by
    any payload, and returns the two. *)
Lemma split_packet_iff packet header payload :
  split_packet packet = Ok (header, payload) <->
  PacketHeader_wf header /\ packet = PacketHeader_to_bytes header ++ payload.
Proof.
  split; [apply split_packet_inv|]. intros [W ->]. by apply split_packet_app.
Qed.

(** C33: any sequence of well-formed control messages can be packed and framed;
    however the resulting bytes are cut into reads, the receiver obtains exactly
    those messages, in order. *)
Theorem control_channel_delivers messages :
  Forall (fun '(unix_ms, m) => u32_ok unix_ms /\ ControlMessage_wf m) messages ->
  exists packets frames,
    Forall2 (fun '(unix_ms, m) p => control_packet unix_ms m = Ok p) messages packets /\
    Forall2 (fun p f => TcpFrameWriter_encode p = Ok f) packets frames /\
    forall inputs, concat inputs = concat frames ->
      let '(buffer, events) := push_all TcpFrameReader_new inputs in
      buffer = [] /\ receive_all events = Ok (snd <$> messages).
Proof.
  intros F.
  assert (exists packets,
    Forall2 (fun '(unix_ms, m) p => control_packet unix_ms m = Ok p) messages packets /\
    Forall payload_ok packets /\ receive_all (Frame <$> packets) = Ok (snd <$> messages))
    as (packets & F2 & Fp & R).
  { induction F as [|[unix_ms m] ms [Hu W] F (ps & F2 & Fp & R)]; [by exists []|].
    destruct (ControlMessage_encode_total m W) as [body E].
    assert (exists p, control_packet unix_ms m = Ok p) as [p Ep]
      by (unfold control_packet; rewrite E; by eexists).
    destruct (control_packet_spec unix_ms m p Hu W Ep) as [Hp Rp].
    exists (p :: ps). split_and!; [by constructor..|]. cbn. rewrite Rp. cbn.
    cbn in R. by rewrite R. }
  exists packets, (framed <$> packets). split_and!; [done| |].
  - apply Forall2_fmap_r, Forall_Forall2_diag. eapply Forall_impl; [exact Fp|].
    intros p Hp. by apply TcpFrameWriter_encode_iff.
  - intros inputs E. unfold TcpFrameReader_new. rewrite (push_all_frames inputs [] (Frame <$> packets) []); [done|..].
    + cbn [app]. rewrite E. by apply frame_stream_frames.
    + by apply Forall_fmap, Forall_true.
    + apply incomplete_nil.
Qed.

Lemma control_channel_delivers_witness :
  exists packets frames,
    Forall2 (fun '(unix_ms, m) p => control_packet unix_ms m = Ok p)
      [(7, CM_Ping); (8, CM_RttPing (mkRttProbe 99))] packets /\
    Forall2 (fun p f => TcpFrameWriter_encode p = Ok f) packets frames /\
    forall inputs, concat inputs = concat frames ->
      let '(buffer, events) := push_all TcpFrameReader_new inputs in
      buffer = [] /\ receive_all events = Ok [CM_Ping; CM_RttPing (mkRttProbe 99)].
Proof.
  apply (control_channel_delivers [(7, CM_Ping); (8, CM_RttPing (mkRttProbe 99))]).
  repeat constructor; cbn; lia.
Defined.
