(* ===== verification/TlsStream.v ===== *)
(** * The framed TLS stream

    [clients/rust/maho-net/src/tls_psk.rs], [TlsPskStream]: the bounded outbound
    queue with its resumable writes, and the reader that turns TLS reads into
    frames.  The TLS session ([SslStream]) is not code of this repository: the
    outcome of one [ssl_write], [flush] or [ssl_read] is an argument of the step
    that performs it. *)

From S2P Require Import Prelude Codec Framing.

(** ** The session underneath *)

Inductive ErrorKind : Type :=
| EK_WouldBlock | EK_Interrupted | EK_BrokenPipe | EK_WriteZero | EK_UnexpectedEof
| EK_Other (code : Z).

#[export] Instance ErrorKind_eq_dec : EqDecision ErrorKind.
Proof. solve_decision. Defined.

(** What [ssl_read] and [ssl_write] return: a value, one of the OpenSSL codes
    the code distinguishes, or an error with the kind [into_io_error] gives. *)
Inductive ssl_outcome (A : Type) : Type :=
| SslOk (a : A)
| SslWantRead
| SslWantWrite
| SslZeroReturn
| SslError (kind : ErrorKind).
Arguments SslOk {A} a.
Arguments SslWantRead {A}.
Arguments SslWantWrite {A}.
Arguments SslZeroReturn {A}.
Arguments SslError {A} kind.

(** [io::Error::other]. *)
Definition EK_other : ErrorKind := EK_Other 0.

Inductive TlsPskError : Type :=
| TE_Io (kind : ErrorKind)
| TE_Codec (e : CodecError)
| TE_InvalidFrameLength (length : Z).

(** ** State *)

Definition MAX_OUTBOUND_FRAMES : Z := 64.
Definition MAX_OUTBOUND_BYTES : Z := MAX_TCP_FRAME_SIZE + 4.
Definition TLS_WRITE_CHUNK : Z := 16 * 1024.
Definition TLS_READ_BUFFER : Z := 64 * 1024.
#[export] Hint Unfold MAX_OUTBOUND_FRAMES MAX_OUTBOUND_BYTES TLS_WRITE_CHUNK TLS_READ_BUFFER : limits.

Record PendingFrame : Type := mkPendingFrame { pf_bytes : list byte; pf_offset : Z }.

Record TlsPskStream : Type := mkTlsPskStream {
  tls_frame_reader : TcpFrameReader;
  tls_pending_events : list TcpFrameEvent;
  tls_read_needs_write : bool;
  tls_outbound : list PendingFrame;
  tls_outbound_bytes : Z;
  tls_write_needs_read : bool;
  tls_write_failed : bool
}.

Definition TlsPskStream_new : TlsPskStream :=
  mkTlsPskStream TcpFrameReader_new [] false [] 0 false false.

Definition set_outbound (s : TlsPskStream) (o : list PendingFrame) (n : Z) : TlsPskStream :=
  mkTlsPskStream (tls_frame_reader s) (tls_pending_events s) (tls_read_needs_write s)
    o n (tls_write_needs_read s) (tls_write_failed s).

Definition set_write_needs_read (s : TlsPskStream) (b : bool) : TlsPskStream :=
  mkTlsPskStream (tls_frame_reader s) (tls_pending_events s) (tls_read_needs_write s)
    (tls_outbound s) (tls_outbound_bytes s) b (tls_write_failed s).

(** [write_failed = true; outbound.clear(); outbound_bytes = 0] *)
Definition fail_write (s : TlsPskStream) : TlsPskStream :=
  mkTlsPskStream (tls_frame_reader s) (tls_pending_events s) (tls_read_needs_write s)
    [] 0 (tls_write_needs_read s) true.

Definition set_read (s : TlsPskStream) (r : TcpFrameReader) (ev : list TcpFrameEvent) (w : bool)
    : TlsPskStream :=
  mkTlsPskStream r ev w (tls_outbound s) (tls_outbound_bytes s) (tls_write_needs_read s)
    (tls_write_failed s).

(** ** Writing *)

Definition queue_frame (s : TlsPskStream) (payload : list byte)
    : result TlsPskError unit * TlsPskStream :=
  if tls_write_failed s then (Err (TE_Io EK_BrokenPipe), s)
  else if (len payload =? 0) || (MAX_TCP_FRAME_SIZE <? len payload)
  then (Err (TE_Codec (InvalidFrameLength (clamp_u32 (len payload)))), s)
  else
    let frame_length := len payload + 4 in
    if (len (tls_outbound s) =? MAX_OUTBOUND_FRAMES)
       || (MAX_OUTBOUND_BYTES - tls_outbound_bytes s <? frame_length)
    then (Err (TE_Io EK_WouldBlock), s)
    else match TcpFrameWriter_encode payload with
    | Err e => (Err (TE_Codec e), s)
    | Ok frame =>
      (Ok tt, set_outbound s (tls_outbound s ++ [mkPendingFrame frame 0])
                (tls_outbound_bytes s + frame_length))
    end.

Definition has_pending_frames (s : TlsPskStream) : bool :=
  match tls_outbound s with [] => false | _ => true end.

(** The slice handed to [ssl_write]. *)
Definition write_slice (frame : PendingFrame) : list byte :=
  let finish := Z.min (pf_offset frame + TLS_WRITE_CHUNK) (len (pf_bytes frame)) in
  take (Z.to_nat (finish - pf_offset frame)) (drop (Z.to_nat (pf_offset frame)) (pf_bytes frame)).

(** [let result = if ... { flush } else { ssl_write }]: its value and the state
    it leaves. *)
Definition write_front (s : TlsPskStream) (frame : PendingFrame) (rest : list PendingFrame)
    (ssl_write : list byte -> ssl_outcome Z) (flush : result ErrorKind unit)
    : result ErrorKind unit * TlsPskStream :=
  if pf_offset frame =? len (pf_bytes frame) then
    match flush with
    | Ok tt => (Ok tt, set_outbound s rest (tls_outbound_bytes s - len (pf_bytes frame)))
    | Err kind => (Err kind, s)
    end
  else
    match ssl_write (write_slice frame) with
    | SslOk count =>
      if count =? 0 then (Err EK_WriteZero, s)
      else (Ok tt, set_outbound s
              (mkPendingFrame (pf_bytes frame) (pf_offset frame + count) :: rest)
              (tls_outbound_bytes s))
    | SslWantRead => (Err EK_WouldBlock, set_write_needs_read s true)
    | SslWantWrite => (Err EK_WouldBlock, set_write_needs_read s false)
    | SslZeroReturn => (Err EK_other, s)
    | SslError kind => (Err kind, s)
    end.

Definition write_frame_step (s : TlsPskStream)
    (ssl_write : list byte -> ssl_outcome Z) (flush : result ErrorKind unit)
    : result TlsPskError unit * TlsPskStream :=
  if tls_write_failed s then (Err (TE_Io EK_BrokenPipe), s)
  else match tls_outbound s with
  | [] => (Ok tt, s)
  | frame :: rest =>
    let s := set_write_needs_read s false in
    let '(result, s) := write_front s frame rest ssl_write flush in
    match result with
    | Ok tt => (Ok tt, s)
    | Err kind =>
      if decide (kind = EK_Interrupted) then (Ok tt, s)
      else if decide (kind = EK_WouldBlock) then (Err (TE_Io kind), s)
      else (Err (TE_Io kind), fail_write s)
    end
  end.

(** The answers the session gives to successive calls. *)
Abbreviation ssl_answer := ((list byte -> ssl_outcome Z) * result ErrorKind unit)%type (only parsing).

(** [flush_pending_frames], on a session that answers with [answers] in turn;
    [None] when they run out before the loop ends. *)
Fixpoint flush_loop (s : TlsPskStream) (answers : list ssl_answer)
    : option (result TlsPskError unit * TlsPskStream) :=
  if has_pending_frames s then
    match answers with
    | [] => None
    | (w, f) :: answers =>
      match write_frame_step s w f with
      | (Ok tt, s) => flush_loop s answers
      | (Err e, s) => Some (Err e, s)
      end
    end
  else Some (Ok tt, s).

Definition flush_pending_frames (s : TlsPskStream) (answers : list ssl_answer)
    : option (result TlsPskError unit * TlsPskStream) :=
  if tls_write_failed s then Some (Err (TE_Io EK_BrokenPipe), s) else flush_loop s answers.

Definition write_frame (s : TlsPskStream) (payload : list byte) (answers : list ssl_answer)
    : option (result TlsPskError unit * TlsPskStream) :=
  match queue_frame s payload with
  | (Ok tt, s) => flush_pending_frames s answers
  | (Err e, s) => Some (Err e, s)
  end.

(** ** Reading *)

(** The [pop_front] at the end of [read_frame_step]. *)
Definition pop_event (s : TlsPskStream) : result TlsPskError (option (list byte)) * TlsPskStream :=
  match tls_pending_events s with
  | Frame frame :: events =>
    (Ok (Some frame), set_read s (tls_frame_reader s) events (tls_read_needs_write s))
  | DroppedInvalidLength length :: events =>
    (Err (TE_InvalidFrameLength length),
     set_read s (tls_frame_reader s) events (tls_read_needs_write s))
  | [] => (Ok None, s)
  end.

Definition read_frame_step (s : TlsPskStream) (ssl_read : ssl_outcome (list byte))
    : result TlsPskError (option (list byte)) * TlsPskStream :=
  if tls_write_failed s then (Err (TE_Io EK_BrokenPipe), s)
  else match tls_pending_events s with
  | _ :: _ => pop_event s
  | [] =>
    let s := set_read s (tls_frame_reader s) [] false in
    let accept (bytes : list byte) :=
      if len bytes =? 0 then (Err (TE_Io EK_UnexpectedEof), s)
      else
        let '(reader, events) := TcpFrameReader_push (tls_frame_reader s) bytes in
        pop_event (set_read s reader events (tls_read_needs_write s)) in
    match ssl_read with
    | SslOk bytes => accept bytes
    | SslZeroReturn => accept []
    | SslWantRead => (Err (TE_Io EK_WouldBlock), s)
    | SslWantWrite => (Err (TE_Io EK_WouldBlock), set_read s (tls_frame_reader s) [] true)
    | SslError kind => (Err (TE_Io kind), s)
    end
  end.

(** [read_frame]'s loop over the reads the session delivers; [None] when they
    run out before a frame or an error. *)
Fixpoint read_frame (s : TlsPskStream) (reads : list (ssl_outcome (list byte)))
    : option (result TlsPskError (list byte) * TlsPskStream) :=
  let finish (step : result TlsPskError (option (list byte)) * TlsPskStream)
      (again : TlsPskStream -> option (result TlsPskError (list byte) * TlsPskStream)) :=
    match step with
    | (Ok (Some frame), s) => Some (Ok frame, s)
    | (Ok None, s) => again s
    | (Err e, s) => Some (Err e, s)
    end in
  if tls_write_failed s then Some (Err (TE_Io EK_BrokenPipe), s)
  else match tls_pending_events s, reads with
  | _ :: _, _ => finish (pop_event s) (fun _ => None)
  | [], [] => None
  | [], r :: reads => finish (read_frame_step s r) (fun s => read_frame s reads)
  end.

(** ** Runs

    A run of a stream is a sequence of operations with the answers the session
    gave; the history records what was admitted, what the session accepted for
    writing, what it delivered, and what the stream reported. *)

Inductive stream_op : Type :=
| OpQueue (payload : list byte)
| OpWrite (ssl_write : list byte -> ssl_outcome Z) (flush : result ErrorKind unit)
| OpRead (ssl_read : ssl_outcome (list byte)).

Record history : Type := mkHistory {
  h_stream : TlsPskStream;
  h_admitted : list (list byte);
  h_sent : list byte;
  h_reads : list (list byte);
  h_events : list TcpFrameEvent
}.

Definition history_new : history := mkHistory TlsPskStream_new [] [] [] [].

(** The bytes the session takes of the front frame, and in one write step. *)
Definition front_accepted (frame : PendingFrame) (ssl_write : list byte -> ssl_outcome Z) : list byte :=
  if pf_offset frame =? len (pf_bytes frame) then []
  else match ssl_write (write_slice frame) with
       | SslOk count => take (Z.to_nat count) (write_slice frame)
       | _ => []
       end.

Definition accepted (s : TlsPskStream) (ssl_write : list byte -> ssl_outcome Z) : list byte :=
  match tls_write_failed s, tls_outbound s with
  | false, frame :: _ => front_accepted frame ssl_write
  | _, _ => []
  end.

(** The bytes the session delivers in one read step. *)
Definition delivered (s : TlsPskStream) (ssl_read : ssl_outcome (list byte)) : list (list byte) :=
  match tls_write_failed s, tls_pending_events s, ssl_read with
  | false, [], SslOk bytes => [bytes]
  | _, _, _ => []
  end.

Definition reported (r : result TlsPskError (option (list byte))) : list TcpFrameEvent :=
  match r with
  | Ok (Some frame) => [Frame frame]
  | Err (TE_InvalidFrameLength length) => [DroppedInvalidLength length]
  | _ => []
  end.

Definition run_op (h : history) (o : stream_op) : history :=
  let s := h_stream h in
  match o with
  | OpQueue payload =>
    let '(r, s') := queue_frame s payload in
    mkHistory s' (if result_is_ok r then h_admitted h ++ [payload] else h_admitted h)
      (h_sent h) (h_reads h) (h_events h)
  | OpWrite ssl_write flush =>
    let '(r, s') := write_frame_step s ssl_write flush in
    mkHistory s' (h_admitted h) (h_sent h ++ accepted s ssl_write) (h_reads h) (h_events h)
  | OpRead ssl_read =>
    let '(r, s') := read_frame_step s ssl_read in
    mkHistory s' (h_admitted h) (h_sent h) (h_reads h ++ delivered s ssl_read)
      (h_events h ++ reported r)
  end.

Definition run_ops (ops : list stream_op) : history := foldl run_op history_new ops.

(** What OpenSSL promises: it never takes more than it was given. *)
Definition op_ok (o : stream_op) : Prop :=
  match o with
  | OpWrite ssl_write _ =>
    forall slice count, ssl_write slice = SslOk count -> 0 <= count <= len slice
  | _ => True
  end.

(** ** The write invariant *)

Definition unsent (s : TlsPskStream) : list byte :=
  concat ((fun f => drop (Z.to_nat (pf_offset f)) (pf_bytes f)) <$> tls_outbound s).

Definition pending_ok (f : PendingFrame) : Prop :=
  0 <= pf_offset f <= len (pf_bytes f) /\
  exists payload, payload_ok payload /\ pf_bytes f = framed payload.

Fixpoint sum_len (fs : list PendingFrame) : Z :=
  match fs with [] => 0 | f :: fs => len (pf_bytes f) + sum_len fs end.

Record stream_inv (s : TlsPskStream) : Prop := {
  inv_frames : Forall pending_ok (tls_outbound s);
  inv_bytes : tls_outbound_bytes s = sum_len (tls_outbound s);
  inv_count : len (tls_outbound s) <= MAX_OUTBOUND_FRAMES;
  inv_max : tls_outbound_bytes s <= MAX_OUTBOUND_BYTES;
  inv_failed : tls_write_failed s = true -> tls_outbound s = [];
  inv_reader : incomplete (tls_frame_reader s)
}.

Lemma sum_len_app a b : sum_len (a ++ b) = sum_len a + sum_len b.
Proof. induction a; cbn; lia. Qed.

Lemma sum_len_nonneg a : 0 <= sum_len a.
Proof. induction a; cbn; len_facts; lia. Qed.

Lemma stream_inv_new : stream_inv TlsPskStream_new.
Proof. split; try done. apply incomplete_nil. Qed.

Lemma framed_len_bound p : payload_ok p -> len (framed p) = len p + 4.
Proof. unfold framed. autorewrite with len. lia. Qed.

(** [queue_frame] admits a frame exactly when it is legal and there is room. *)
Lemma queue_frame_spec s payload :
  stream_inv s ->
  let '(r, s') := queue_frame s payload in
  stream_inv s' /\
  match r with
  | Ok _ => payload_ok payload /\ tls_write_failed s = false /\ tls_write_failed s' = false /\
            unsent s' = unsent s ++ framed payload
  | Err _ => s' = s
  end.
Proof.
  intros Iv. unfold queue_frame. case_if; [done|].
  destruct ((len payload =? 0) || (MAX_TCP_FRAME_SIZE <? len payload)) eqn:L; [done|]. bool_prop.
  destruct ((len (tls_outbound s) =? MAX_OUTBOUND_FRAMES) || _) eqn:R; [done|]. bool_prop.
  assert (P : payload_ok payload) by (unfold payload_ok; len_facts; lia).
  rewrite (proj2 (TcpFrameWriter_encode_iff payload (framed payload))) by done.
  destruct Iv as [F B C M Fl Rd]. split.
  - split; cbn.
    + apply Forall_app. split; [done|]. constructor; [|done]. split; cbn; [len_facts; lia|eauto].
    + rewrite sum_len_app. cbn. rewrite framed_len_bound by done. lia.
    + autorewrite with len. lia.
    + lia.
    + congruence.
    + done.
  - split_and!; [done..|]. unfold unsent; cbn. rewrite fmap_app, concat_app. cbn.
    by rewrite app_nil_r.
Qed.

Lemma write_slice_len f :
  pending_ok f -> pf_offset f <> len (pf_bytes f) -> 0 < len (write_slice f).
Proof.
  intros [O _] N. unfold write_slice. autorewrite with len. width_lia.
Qed.

Lemma write_slice_prefix f count :
  pending_ok f -> 0 <= count <= len (write_slice f) ->
  drop (Z.to_nat (pf_offset f)) (pf_bytes f) =
  take (Z.to_nat count) (write_slice f) ++ drop (Z.to_nat (pf_offset f + count)) (pf_bytes f) /\
  pf_offset f + count <= len (pf_bytes f).
Proof.
  intros [O _] N. unfold write_slice in *. rewrite len_take, len_drop in N. split; [|lia].
  rewrite take_take, Nat.min_l by lia.
  rewrite <- (take_drop (Z.to_nat count) (drop _ _)) at 1. f_equal.
  rewrite drop_drop. f_equal. lia.
Qed.

Lemma set_write_needs_read_inv s b : stream_inv s -> stream_inv (set_write_needs_read s b).
Proof. intros []; by split. Qed.

Lemma fail_write_inv s : stream_inv s -> stream_inv (fail_write s).
Proof. intros []; split; cbn; try done; width_lia. Qed.
#[local] Hint Resolve set_write_needs_read_inv fail_write_inv : maho.

Lemma unsent_cons s f rest :
  tls_outbound s = f :: rest ->
  unsent s = drop (Z.to_nat (pf_offset f)) (pf_bytes f) ++
    concat ((fun f => drop (Z.to_nat (pf_offset f)) (pf_bytes f)) <$> rest).
Proof. unfold unsent. by intros ->. Qed.

(** The write or flush of the front frame; nothing is taken on an error. *)
Lemma write_front_spec s f rest ssl_write flush r s' :
  stream_inv s -> tls_outbound s = f :: rest -> tls_write_failed s = false ->
  op_ok (OpWrite ssl_write flush) -> write_front s f rest ssl_write flush = (r, s') ->
  stream_inv s' /\ tls_write_failed s' = false /\
  unsent s = front_accepted f ssl_write ++ unsent s' /\
  (result_is_ok r = false -> front_accepted f ssl_write = []).
Proof.
  intros Iv O NF C E. pose proof (unsent_cons _ _ _ O) as U. pose proof Iv as Iv'.
  destruct Iv as [F B C' M Fl Rd]. rewrite O in F, B, C'. apply Forall_cons in F as [Hf F].
  cbn [sum_len] in B. rewrite len_cons in C'. pose proof (sum_len_nonneg rest).
  unfold write_front, front_accepted in *. case_if.
  - destruct flush as [[]|k]; injection E as <- <-; [|done].
    split_and!; [split; cbn; first [done | congruence | len_facts; width_lia] | done | | done].
    rewrite U, Heqb, to_nat_len, drop_all. done.
  - destruct (ssl_write (write_slice f)) as [count| | | |k] eqn:W;
      try (injection E as <- <-; split_and!; auto with maho; done).
    destruct (write_slice_prefix f count Hf (C _ _ W)) as [P L]. pose proof (C _ _ W) as R.
    destruct (Z.eqb_spec count 0); injection E as <- <-.
    { subst. split_and!; done. }
    split_and!; [|done| |done].
    + split; cbn; [constructor; [|done] | lia | rewrite len_cons; lia | done | congruence | done].
      destruct Hf as [? ?]. split; cbn; [lia|done].
    + rewrite U, P, <- app_assoc. done.
Qed.

(** One write step: the invariant holds, what the session took is a prefix of
    what was unsent, and unless the stream failed the rest is still queued. *)
Lemma write_frame_step_spec s ssl_write flush :
  stream_inv s -> op_ok (OpWrite ssl_write flush) ->
  let '(r, s') := write_frame_step s ssl_write flush in
  stream_inv s' /\ accepted s ssl_write `prefix_of` unsent s /\
  (tls_write_failed s' = false -> unsent s = accepted s ssl_write ++ unsent s').
Proof.
  intros Iv C. unfold write_frame_step, accepted. case_if.
  { split_and!; [done | apply prefix_nil | done]. }
  destruct (tls_outbound s) as [|f rest] eqn:O.
  { split_and!; [done | apply prefix_nil | done]. }
  destruct (write_front (set_write_needs_read s false) f rest ssl_write flush) as [r s'] eqn:E.
  apply write_front_spec in E as (Iv' & NF & U & A); [|by auto with maho|done|done|done].
  change (unsent (set_write_needs_read s false)) with (unsent s) in U.
  destruct r as [[]|k].
  - split_and!; [done | rewrite U; by apply prefix_app_r | done].
  - rewrite A in U |- * by done.
    repeat case_decide; (split_and!; [by auto with maho | apply prefix_nil | done]).
Qed.

(** ** The read side *)

Lemma push_all_snoc inputs input buffer tail events tail' events' :
  push_all buffer inputs = (tail, events) ->
  TcpFrameReader_push tail input = (tail', events') ->
  push_all buffer (inputs ++ [input]) = (tail', events ++ events').
Proof.
  revert buffer events. induction inputs as [|i inputs IH]; cbn; intros buffer events E P.
  - injection E as <- <-. rewrite P. by rewrite app_nil_r.
  - destruct (TcpFrameReader_push buffer i) as [b e1]. destruct (push_all b inputs) as [b' e2] eqn:E2.
    injection E as <- <-. rewrite (IH _ _ E2 P). by rewrite app_assoc.
Qed.

(** The reads so far were parsed by the frame reader; what it reported is
    what was returned and what still waits in the queue. *)
Definition read_inv (h : history) : Prop :=
  push_all TcpFrameReader_new (h_reads h) =
  (tls_frame_reader (h_stream h), h_events h ++ tls_pending_events (h_stream h)).

Lemma pop_event_spec s r s' :
  pop_event s = (r, s') ->
  tls_frame_reader s' = tls_frame_reader s /\
  reported r ++ tls_pending_events s' = tls_pending_events s /\
  tls_outbound s' = tls_outbound s /\ tls_outbound_bytes s' = tls_outbound_bytes s /\
  tls_write_failed s' = tls_write_failed s.
Proof.
  unfold pop_event. destruct (tls_pending_events s) as [|[frame|l] events] eqn:E;
    intros [= <- <-]; cbn; by rewrite ?E.
Qed.

Lemma push_empty buffer : incomplete buffer -> TcpFrameReader_push buffer [] = (buffer, []).
Proof. intros. apply push_iff. rewrite app_nil_r. by constructor. Qed.

Lemma read_frame_step_spec s ssl_read reads events :
  incomplete (tls_frame_reader s) ->
  push_all TcpFrameReader_new reads = (tls_frame_reader s, events ++ tls_pending_events s) ->
  let '(r, s') := read_frame_step s ssl_read in
  push_all TcpFrameReader_new (reads ++ delivered s ssl_read) =
    (tls_frame_reader s', (events ++ reported r) ++ tls_pending_events s') /\
  incomplete (tls_frame_reader s') /\
  tls_outbound s' = tls_outbound s /\ tls_outbound_bytes s' = tls_outbound_bytes s /\
  tls_write_failed s' = tls_write_failed s.
Proof.
  intros Ic P. unfold read_frame_step, delivered. case_if.
  { rewrite !app_nil_r. done. }
  destruct (tls_pending_events s) as [|ev evs] eqn:Ep.
  2: { destruct (pop_event s) as [r s'] eqn:E. apply pop_event_spec in E as (E1 & E2 & E3 & E4 & E5).
       rewrite E1, E3, E4, E5, app_nil_r, <- app_assoc, E2, Ep. done. }
  rewrite app_nil_r in P.
  destruct ssl_read as [bytes| | | |k]; cbn; rewrite ?len_nil; cbn; rewrite ?app_nil_r; try done.
  case_if.
  - rewrite (len_0_nil bytes) by lia. cbn. rewrite !app_nil_r. split; [|done].
    erewrite push_all_snoc; [|exact P | by apply push_empty]. by rewrite app_nil_r.
  - destruct (TcpFrameReader_push (tls_frame_reader s) bytes) as [reader new] eqn:Ep2.
    destruct (pop_event _) as [r s'] eqn:E. apply pop_event_spec in E as (E1 & E2 & E3 & E4 & E5).
    cbn in *. rewrite E1, E3, E4, E5, <- app_assoc, E2.
    split; [by eapply push_all_snoc|]. split; [|done].
    apply push_spec in Ep2. by eapply frame_stream_tail.
Qed.

(** ** Invariants of every run *)

Definition wire_inv (h : history) : Prop :=
  h_sent h `prefix_of` concat (framed <$> h_admitted h) /\
  (tls_write_failed (h_stream h) = false ->
   h_sent h ++ unsent (h_stream h) = concat (framed <$> h_admitted h)).

Record history_inv (h : history) : Prop := {
  hi_stream : stream_inv (h_stream h);
  hi_wire : wire_inv h;
  hi_read : read_inv h;
  hi_payloads : Forall payload_ok (h_admitted h)
}.

Lemma history_inv_new : history_inv history_new.
Proof. split; [apply stream_inv_new | split; [apply prefix_nil | done] | done | done]. Qed.

Lemma run_op_inv h o : history_inv h -> op_ok o -> history_inv (run_op h o).
Proof.
  intros [Is [Ip Iw] Ir Ia] C. destruct o as [payload|ssl_write flush|ssl_read]; cbn [run_op].
  - pose proof (queue_frame_spec (h_stream h) payload Is) as Q.
    destruct (queue_frame (h_stream h) payload) as [[[]|e] s'] eqn:E; cbn [result_is_ok].
    + destruct Q as (Is' & P & NF & NF' & U).
      assert (Er : tls_frame_reader s' = tls_frame_reader (h_stream h) /\
        tls_pending_events s' = tls_pending_events (h_stream h)).
      { unfold queue_frame in E. repeat case_match; by simplify_eq. }
      destruct Er as [Er Ee].
      split; cbn; [done| |by red in Ir |-*; cbn; rewrite Er, Ee |].
      * split; cbn; rewrite fmap_app, concat_app; [by apply prefix_app_r|].
        intros _. rewrite U, app_assoc, Iw by done. cbn. by rewrite app_nil_r.
      * apply Forall_app. auto.
    + destruct Q as [_ ->]. split; [done|by split|done|done].
  - pose proof (write_frame_step_spec (h_stream h) ssl_write flush Is C) as Q.
    destruct (write_frame_step (h_stream h) ssl_write flush) as [r s'] eqn:E.
    destruct Q as (Is' & Pa & U).
    assert (Er : tls_frame_reader s' = tls_frame_reader (h_stream h) /\
      tls_pending_events s' = tls_pending_events (h_stream h)).
    { unfold write_frame_step, write_front in E. repeat case_match; by simplify_eq. }
    destruct Er as [Er Ee].
    split; cbn; [done| |by red in Ir |-*; cbn; rewrite Er, Ee | done].
    destruct (tls_write_failed (h_stream h)) eqn:Fl.
    { unfold accepted. rewrite Fl, app_nil_r. split; cbn; [done|]. 
      unfold write_frame_step in E. rewrite Fl in E. simplify_eq. congruence. }
    specialize (Iw eq_refl). split; cbn.
    + destruct Pa as [z Pa]. exists z. by rewrite <- Iw, Pa, app_assoc.
    + intros NF. by rewrite <- Iw, (U NF), app_assoc.
  - pose proof (read_frame_step_spec (h_stream h) ssl_read (h_reads h) (h_events h)
      (inv_reader _ Is) Ir) as Q.
    destruct (read_frame_step (h_stream h) ssl_read) as [r s'].
    destruct Q as (P & Ic & E1 & E2 & E3). split; cbn; [| |exact P|done].
    + destruct Is. by split; rewrite ?E1, ?E2, ?E3.
    + split; cbn; [done|]. unfold unsent. by rewrite E1, E3.
Qed.

Lemma run_ops_inv ops : Forall op_ok ops -> history_inv (run_ops ops).
Proof.
  intros F. unfold run_ops. generalize history_inv_new. generalize history_new.
  induction F as [|o ops C F IH]; intros h Ih; [done|]. cbn. apply IH. by apply run_op_inv.
Qed.

(** ** Properties *)

(** Whatever the session answers, the plaintext it has accepted is a prefix
    of the framings of the admitted payloads in order, and as long as no write
    has failed the missing part is exactly what the queue still holds. *)
Theorem tls_stream_writes_admitted_frames ops :
  Forall op_ok ops ->
  let h := run_ops ops in
  h_sent h `prefix_of` concat (framed <$> h_admitted h) /\
  (tls_write_failed (h_stream h) = false ->
   h_sent h ++ unsent (h_stream h) = concat (framed <$> h_admitted h)).
Proof. intros F. apply (hi_wire _ (run_ops_inv ops F)). Qed.

(** The outbound queue never holds more than 64 frames nor more bytes than
    one maximal frame, its byte count is the sum of its frames, and a failed
    stream has an empty queue. *)
Theorem tls_stream_queue_bounds ops :
  Forall op_ok ops ->
  let s := h_stream (run_ops ops) in
  len (tls_outbound s) <= MAX_OUTBOUND_FRAMES /\
  tls_outbound_bytes s = sum_len (tls_outbound s) /\
  tls_outbound_bytes s <= MAX_OUTBOUND_BYTES /\
  (tls_write_failed s = true -> tls_outbound s = []).
Proof. intros F. destruct (hi_stream _ (run_ops_inv ops F)). done. Qed.

(** C34: two streams back to back.  When the sender has not failed and its queue
    is empty, and the bytes the receiver's session delivered are the bytes the
    sender's session accepted, cut anywhere, then the frames the receiver has
    returned or still queues are exactly the payloads the sender admitted. *)
Theorem tls_stream_end_to_end sender receiver :
  Forall op_ok sender -> Forall op_ok receiver ->
  let a := run_ops sender in let b := run_ops receiver in
  tls_write_failed (h_stream a) = false -> tls_outbound (h_stream a) = [] ->
  concat (h_reads b) = h_sent a ->
  h_events b ++ tls_pending_events (h_stream b) = Frame <$> h_admitted a.
Proof.
  intros Fa Fb a b NF O E. pose proof (run_ops_inv _ Fa) as Ia. pose proof (run_ops_inv _ Fb) as Ib.
  fold a in Ia. fold b in Ib.
  destruct (hi_wire _ Ia) as [_ W]. specialize (W NF). unfold unsent in W. rewrite O in W.
  cbn in W. rewrite app_nil_r in W.
  pose proof (push_all_frames (h_reads b) [] (Frame <$> h_admitted a) []) as P.
  cbn [app] in P. rewrite E, W in P.
  specialize (P (frame_stream_frames _ (hi_payloads _ Ia))).
  specialize (P ltac:(by apply Forall_fmap, Forall_true)).
  pose proof (hi_read _ Ib) as R. red in R. unfold TcpFrameReader_new in R.
  rewrite P in R by apply incomplete_nil. by injection R as _ <-.
Qed.

(** A session that takes every slice whole and always flushes. *)
Definition greedy (slice : list byte) : ssl_outcome Z := SslOk (len slice).

Lemma tls_stream_writes_admitted_frames_witness :
  let h := run_ops [OpQueue (str_bytes "hello"); OpWrite greedy (Ok tt)] in
  h_sent h `prefix_of` concat (framed <$> h_admitted h) /\
  (tls_write_failed (h_stream h) = false ->
   h_sent h ++ unsent (h_stream h) = concat (framed <$> h_admitted h)).
Proof.
  apply (tls_stream_writes_admitted_frames [OpQueue (str_bytes "hello"); OpWrite greedy (Ok tt)]).
  repeat constructor; intros; unfold greedy in *; simplify_eq; pose proof (len_nonneg slice); lia.
Defined.

Lemma tls_stream_queue_bounds_witness :
  let s := h_stream (run_ops [OpQueue (str_bytes "a"); OpQueue (str_bytes "bc")]) in
  len (tls_outbound s) <= MAX_OUTBOUND_FRAMES /\
  tls_outbound_bytes s = sum_len (tls_outbound s) /\
  tls_outbound_bytes s <= MAX_OUTBOUND_BYTES /\
  (tls_write_failed s = true -> tls_outbound s = []).
Proof.
  apply (tls_stream_queue_bounds [OpQueue (str_bytes "a"); OpQueue (str_bytes "bc")]).
  repeat constructor.
Defined.

Lemma tls_stream_end_to_end_witness :
  let a := run_ops [OpQueue (str_bytes "hi"); OpWrite greedy (Ok tt); OpWrite greedy (Ok tt)] in
  let b := run_ops [OpRead (SslOk (le_bytes 2 2)); OpRead (SslOk (le_bytes 2 0 ++ str_bytes "hi"))] in
  h_events b ++ tls_pending_events (h_stream b) = Frame <$> h_admitted a /\
  h_events b = [Frame (str_bytes "hi")].
Proof.
  split; [|vm_compute; reflexivity].
  apply (tls_stream_end_to_end
    [OpQueue (str_bytes "hi"); OpWrite greedy (Ok tt); OpWrite greedy (Ok tt)]
    [OpRead (SslOk (le_bytes 2 2)); OpRead (SslOk (le_bytes 2 0 ++ str_bytes "hi"))]).
  - repeat constructor; intros; unfold greedy in *; simplify_eq; pose proof (len_nonneg slice); lia.
  - repeat constructor.
  - vm_compute; reflexivity.
  - vm_compute; reflexivity.
  - vm_compute; reflexivity.
Defined.
