(* ===== verification/UdpGcm.v ===== *)
(** * Protected UDP datagrams

    [clients/rust/maho-net/src/udp_gcm.rs]: the replay window, the per-direction
    cipher with its send counter, and the datagram format
    [header || nonce || ciphertext || tag].  AES-256-GCM and HKDF-SHA256 are
    third-party code: they are parameters of the section [Cipher]. *)

From S2P Require Import Prelude Codec Packet Transport.

Definition NONCE_SIZE : Z := 12.
Definition TAG_SIZE : Z := 16.
Definition REPLAY_WINDOW_SIZE : Z := 4096.
#[export] Hint Unfold NONCE_SIZE TAG_SIZE REPLAY_WINDOW_SIZE : limits.

Inductive Direction : Type := ClientToHost | HostToClient.

Definition Direction_info (d : Direction) : list byte :=
  match d with
  | ClientToHost => str_bytes "erd/udp-c2h/v3"
  | HostToClient => str_bytes "erd/udp-h2c/v3"
  end.

Inductive DatagramError : Type :=
| DE_InvalidMasterKey | DE_InvalidSessionSalt | DE_CounterExhausted | DE_Truncated
| DE_WrongDirection | DE_Replay | DE_Authentication | DE_InvalidHeader (e : CodecError).

(** ** The replay window *)

Record ReplayWindow : Type := mkReplayWindow {
  rw_highest_received : Z;
  rw_received_any : bool;
  rw_blocks : gmap Z Z
}.

Definition ReplayWindow_default : ReplayWindow := mkReplayWindow 0 false ∅.

Definition can_accept (w : ReplayWindow) (counter : Z) : bool :=
  if rw_received_any w && (counter <? rw_highest_received w)
     && (REPLAY_WINDOW_SIZE <=? rw_highest_received w - counter)
  then false
  else
    let block := counter / 64 in
    let mask := Z.shiftl 1 (counter mod 64) in
    match rw_blocks w !! block with
    | None => true
    | Some seen => Z.land seen mask =? 0
    end.

Definition oldest_block_of (highest : Z) : Z :=
  saturating_sub64 highest (saturating_sub64 REPLAY_WINDOW_SIZE 1) / 64.

Definition record (w : ReplayWindow) (counter : Z) : ReplayWindow :=
  let block := counter / 64 in
  let mask := Z.shiftl 1 (counter mod 64) in
  let blocks := <[block := Z.lor (default 0 (rw_blocks w !! block)) mask]> (rw_blocks w) in
  let previous_oldest_block := oldest_block_of (rw_highest_received w) in
  let '(highest_received, received_any) :=
    if negb (rw_received_any w) || (rw_highest_received w <? counter)
    then (counter, true)
    else (rw_highest_received w, rw_received_any w) in
  let oldest_block := oldest_block_of highest_received in
  let blocks :=
    if previous_oldest_block <? oldest_block
    then filter (fun kv : Z * Z => oldest_block <= kv.1) blocks
    else blocks in
  mkReplayWindow highest_received received_any blocks.

(** A counter offered to the window: the use [open] makes of it once the
    datagram is authentic. *)
Definition offer (w : ReplayWindow) (counter : Z) : bool * ReplayWindow :=
  if can_accept w counter then (true, record w counter) else (false, w).

Fixpoint offer_all (w : ReplayWindow) (counters : list Z) : list bool * ReplayWindow :=
  match counters with
  | [] => ([], w)
  | c :: counters =>
    let '(b, w) := offer w c in
    let '(bs, w) := offer_all w counters in
    (b :: bs, w)
  end.

(** *** The specification: the set of counters accepted so far

    A counter is accepted when it was not accepted before and is less than 4096
    behind every accepted counter. *)
Definition spec_accepts (seen : list Z) (counter : Z) : bool :=
  bool_decide (counter ∉ seen) &&
  forallb (fun m => m - counter <? REPLAY_WINDOW_SIZE) seen.

Fixpoint spec_offer_all (seen : list Z) (counters : list Z) : list bool * list Z :=
  match counters with
  | [] => ([], seen)
  | c :: counters =>
    let b := spec_accepts seen c in
    let '(bs, seen) := spec_offer_all (if b then c :: seen else seen) counters in
    (b :: bs, seen)
  end.

(** What the window represents: its highest counter is the maximum of the
    accepted ones, and its bits are the accepted counters of the blocks that
    are still inside the window. *)
Record window_rep (w : ReplayWindow) (seen : list Z) : Prop := {
  wr_any : rw_received_any w = false -> seen = [];
  wr_empty : rw_received_any w = false -> rw_blocks w = ∅ /\ rw_highest_received w = 0;
  wr_highest : rw_received_any w = true -> rw_highest_received w ∈ seen;
  wr_max : forall c, c ∈ seen -> 0 <= c <= rw_highest_received w;
  wr_bits : forall c, 0 <= c -> oldest_block_of (rw_highest_received w) <= c / 64 ->
    (exists seen_bits, rw_blocks w !! (c / 64) = Some seen_bits /\
      Z.testbit seen_bits (c mod 64) = true) <-> c ∈ seen;
  wr_blocks : forall b bits, rw_blocks w !! b = Some bits ->
    oldest_block_of (rw_highest_received w) <= b <= rw_highest_received w / 64
}.

(** ** The cipher *)

Section Cipher.

(** [Hkdf::<Sha256>] and [Aes256Gcm] on byte strings: [encrypt] returns the
    ciphertext and the detached tag. *)
Context (hkdf_sha256 : list byte -> list byte -> list byte -> Z -> list byte).
Context (encrypt : list byte -> list byte -> list byte -> list byte -> option (list byte * list byte)).
Context (decrypt : list byte -> list byte -> list byte -> list byte -> option (list byte)).

Record DatagramCipher : Type := mkDatagramCipher {
  dc_cipher : list byte;
  dc_nonce_prefix : list byte;
  dc_send_counter : Z;
  dc_replay : ReplayWindow
}.

Definition DatagramCipher_derive (master_key session_salt : list byte) (direction : Direction)
    : result DatagramError DatagramCipher :=
  if negb (len master_key =? 32) then Err DE_InvalidMasterKey
  else if negb (len session_salt =? 16) then Err DE_InvalidSessionSalt
  else
    let udp_ikm := hkdf_sha256 master_key session_salt (str_bytes "erd/udp-ikm/v3") 32 in
    let key := hkdf_sha256 udp_ikm session_salt (Direction_info direction) 32 in
    let nonce_info := Direction_info direction ++ str_bytes "/nonce" in
    let prefix := hkdf_sha256 udp_ikm session_salt nonce_info 4 in
    Ok (mkDatagramCipher key prefix 0 ReplayWindow_default).

Definition set_send_counter (c : DatagramCipher) (n : Z) : DatagramCipher :=
  mkDatagramCipher (dc_cipher c) (dc_nonce_prefix c) n (dc_replay c).
Definition set_replay (c : DatagramCipher) (w : ReplayWindow) : DatagramCipher :=
  mkDatagramCipher (dc_cipher c) (dc_nonce_prefix c) (dc_send_counter c) w.

(** [nonce_prefix || send_counter.to_be_bytes()] *)
Definition nonce_of (c : DatagramCipher) (counter : Z) : list byte :=
  let nonce_bytes := replicate 12 (Z_to_byte 0) in
  let nonce_bytes := copy_into nonce_bytes 0 (dc_nonce_prefix c) in
  copy_into nonce_bytes 4 (be_bytes 8 counter).

(** The result, the cipher and the caller's buffer afterwards. *)
Definition seal_into (c : DatagramCipher) (plaintext aad output : list byte)
    : result DatagramError unit * DatagramCipher * list byte :=
  match checked_add64 (dc_send_counter c) 1 with
  | None => (Err DE_CounterExhausted, c, output)
  | Some send_counter =>
    let c := set_send_counter c send_counter in
    let nonce_bytes := nonce_of c send_counter in
    let start := length output in
    let output := output ++ nonce_bytes in
    let output := output ++ plaintext in
    let region := drop (start + 12) output in
    match encrypt (dc_cipher c) nonce_bytes aad region with
    | Some (ciphertext, tag) =>
      (Ok tt, c, take (start + 12) output ++ ciphertext ++ tag)
    | None => (Err DE_Authentication, c, take start output)
    end
  end.

Definition seal (c : DatagramCipher) (plaintext aad : list byte)
    : result DatagramError (list byte) * DatagramCipher :=
  match seal_into c plaintext aad [] with
  | (Ok tt, c, output) => (Ok output, c)
  | (Err e, c, _) => (Err e, c)
  end.

Definition open (c : DatagramCipher) (sealed aad : list byte)
    : result DatagramError (list byte) * DatagramCipher :=
  if len sealed <? NONCE_SIZE + TAG_SIZE then (Err DE_Truncated, c)
  else if negb (bool_decide (take 4 sealed = dc_nonce_prefix c)) then (Err DE_WrongDirection, c)
  else
    let counter := be_value (take 8 (drop 4 sealed)) in
    if negb (can_accept (dc_replay c) counter) then (Err DE_Replay, c)
    else match decrypt (dc_cipher c) (take 12 sealed) aad (drop 12 sealed) with
    | None => (Err DE_Authentication, c)
    | Some plaintext => (Ok plaintext, set_replay c (record (dc_replay c) counter))
    end.

Definition seal_datagram (c : DatagramCipher) (header : PacketHeader) (payload : list byte)
    : result DatagramError (list byte) * DatagramCipher :=
  match PacketHeader_encode header with
  | Err e => (Err (DE_InvalidHeader e), c)
  | Ok header_bytes =>
    match seal_into c payload header_bytes header_bytes with
    | (Ok tt, c, datagram) => (Ok datagram, c)
    | (Err e, c, _) => (Err e, c)
    end
  end.

Definition open_datagram (c : DatagramCipher) (datagram : list byte)
    : result DatagramError (PacketHeader * list byte) * DatagramCipher :=
  if len datagram <? PACKET_HEADER_SIZE + NONCE_SIZE + TAG_SIZE then (Err DE_Truncated, c)
  else
    let header_bytes := take 12 datagram in
    match PacketHeader_decode header_bytes with
    | Err e => (Err (DE_InvalidHeader e), c)
    | Ok header =>
      match open c (drop 12 datagram) header_bytes with
      | (Ok payload, c) => (Ok (header, payload), c)
      | (Err e, c) => (Err e, c)
      end
    end.

End Cipher.

#[global] Arguments nonce_of : simpl never.
#[global] Arguments seal_datagram : simpl never.
#[global] Arguments open_datagram : simpl never.

(** ** The window implements its specification *)

Lemma oldest_block_mono a b : a <= b -> oldest_block_of a <= oldest_block_of b.
Proof. intros. unfold oldest_block_of, saturating_sub64. apply Z.div_le_mono; lia. Qed.

Lemma oldest_block_le c highest :
  0 <= c -> highest - c < REPLAY_WINDOW_SIZE -> oldest_block_of highest <= c / 64.
Proof. intros. unfold oldest_block_of. apply Z.div_le_mono; width_lia. Qed.

Lemma land_mask_zero bits k : 0 <= k -> (Z.land bits (Z.shiftl 1 k) =? 0) = negb (Z.testbit bits k).
Proof.
  intros. rewrite Z.shiftl_1_l. destruct (Z.testbit bits k) eqn:T; cbn.
  - apply Z.eqb_neq. intros E. apply (f_equal (fun z => Z.testbit z k)) in E.
    rewrite Z.land_spec, T, Z.pow2_bits_true, Z.testbit_0_l in E by lia. done.
  - apply Z.eqb_eq, Z.bits_inj'. intros i Hi. rewrite Z.land_spec, Z.testbit_0_l.
    destruct (decide (i = k)) as [->|]; [by rewrite T|].
    rewrite Z.pow2_bits_false by lia. by rewrite andb_false_r.
Qed.

Lemma lor_mask_testbit bits k i : 0 <= k -> 0 <= i ->
  Z.testbit (Z.lor bits (Z.shiftl 1 k)) i = Z.testbit bits i || (i =? k).
Proof.
  intros. rewrite Z.lor_spec, Z.shiftl_1_l. f_equal. destruct (Z.eqb_spec i k) as [->|].
  - by apply Z.pow2_bits_true.
  - apply Z.pow2_bits_false. lia.
Qed.

Lemma spec_accepts_iff seen c :
  spec_accepts seen c = true <-> (c ∉ seen) /\ forall m, m ∈ seen -> m - c < REPLAY_WINDOW_SIZE.
Proof.
  unfold spec_accepts. rewrite andb_true_iff, bool_decide_eq_true, forallb_forall. f_equiv.
  setoid_rewrite Z.ltb_lt. split; intros H m Hm; apply H; by apply list_elem_of_In.
Qed.

Lemma can_accept_spec w seen c :
  window_rep w seen -> 0 <= c -> can_accept w c = spec_accepts seen c.
Proof.
  intros R Hc. apply eq_true_iff_eq. rewrite spec_accepts_iff. unfold can_accept.
  destruct (rw_received_any w) eqn:A; cbn [andb].
  2: { destruct (wr_empty _ _ R A) as [-> _]. rewrite lookup_empty, (wr_any _ _ R A).
       split; [|done]. intros _. split; [apply not_elem_of_nil | by intros ? ?%not_elem_of_nil]. }
  pose proof (wr_highest _ _ R A) as Hh.
  destruct (Z_lt_le_dec (rw_highest_received w - c) REPLAY_WINDOW_SIZE) as [L|L].
  - rewrite (proj2 (Z.leb_gt _ _)), andb_false_r by lia.
    pose proof (wr_bits _ _ R c Hc (oldest_block_le _ _ Hc L)) as B.
    assert (M : forall m, m ∈ seen -> m - c < REPLAY_WINDOW_SIZE).
    { intros m Hm. pose proof (wr_max _ _ R m Hm). lia. }
    destruct (rw_blocks w !! (c / 64)) as [bits|]; [|naive_solver].
    rewrite land_mask_zero by (apply Z.mod_pos_bound; lia).
    destruct (Z.testbit bits (c mod 64)) eqn:T; cbn; (split; [|done || intros [N _]]).
    + done.
    + destruct N. apply B. eauto.
    + intros _. split; [|done]. intros (? & [= <-] & ?)%B. congruence.
  - rewrite (proj2 (Z.leb_le _ _)), (proj2 (Z.ltb_lt _ _)) by width_lia. cbn.
    split; [done|]. intros [_ M]. specialize (M _ Hh). lia.
Qed.

Lemma record_spec w seen c :
  window_rep w seen -> 0 <= c -> spec_accepts seen c = true -> window_rep (record w c) (c :: seen).
Proof.
  intros R Hc [Hn M]%spec_accepts_iff. unfold record.
  set (h := rw_highest_received w). set (mask := Z.shiftl 1 (c mod 64)).
  set (blocks := <[c / 64 := _]> (rw_blocks w)).
  pose proof (Z.mod_pos_bound c 64 ltac:(lia)) as Hk.
  (* the new highest counter *)
  set (h' := Z.max h c).
  assert (Hh0 : 0 <= h).
  { destruct (rw_received_any w) eqn:A.
    - pose proof (wr_max _ _ R _ (wr_highest _ _ R A)). lia.
    - destruct (wr_empty _ _ R A). lia. }
  assert (E : (if negb (rw_received_any w) || (h <? c) then (c, true)
    else (h, rw_received_any w)) = (h', true)).
  { subst h'. destruct (rw_received_any w) eqn:A; cbn.
    - case_if; f_equal; lia.
    - destruct (wr_empty _ _ R A) as [_ E]. subst h. f_equal. lia. }
  rewrite E. clear E.
  assert (Hw : h' - c < REPLAY_WINDOW_SIZE).
  { subst h'. destruct (rw_received_any w) eqn:A.
    - pose proof (M _ (wr_highest _ _ R A)). width_lia.
    - destruct (wr_empty _ _ R A) as [_ E]. subst h. width_lia. }
  assert (Hhh : h <= h') by lia. pose proof (oldest_block_mono _ _ Hhh) as Hmono.
  assert (Bk : forall b, oldest_block_of h' <= b ->
    (if oldest_block_of h <? oldest_block_of h'
     then filter (fun kv : Z * Z => oldest_block_of h' <= kv.1) blocks else blocks) !! b =
    blocks !! b).
  { intros b Hb. case_if; [|done]. apply option_eq. intros bits.
    rewrite map_lookup_filter_Some. cbn. naive_solver. }
  assert (Hmax : forall m, m ∈ seen -> 0 <= m <= h) by apply R.
  split; cbn [rw_received_any rw_highest_received rw_blocks]; try done.
  - intros _. subst h'. destruct (Z.max_spec h c) as [[? ->]|[L ->]]; [constructor|].
    destruct (rw_received_any w) eqn:A; [right; by apply R|].
    destruct (wr_empty _ _ R A) as [_ E]. subst h. rewrite E in *.
    replace 0 with c by lia. constructor.
  - intros m [->|Hm]%elem_of_cons; [lia|]. specialize (Hmax m Hm). lia.
  - intros m Hm Hb. rewrite Bk by done. subst blocks. rewrite elem_of_cons.
    assert (Bm := wr_bits _ _ R m Hm ltac:(fold h; lia)).
    pose proof (Z.mod_pos_bound m 64 ltac:(lia)).
    pose proof (Z.div_mod m 64 ltac:(lia)). pose proof (Z.div_mod c 64 ltac:(lia)).
    destruct (decide (c / 64 = m / 64)) as [Eb|Nb].
    + rewrite Eb, lookup_insert. case_decide; [|done].
      rewrite <- Bm. destruct (rw_blocks w !! (m / 64)) as [bits|] eqn:Lk; cbn.
      * split.
        -- intros (? & [= <-] & T). subst mask. rewrite lor_mask_testbit in T by lia.
           bool_prop. destruct T as [T|T]; bool_prop; [right; eauto | left; lia].
        -- intros [->|(b & [= ->] & T)]; eexists; (split; [done|]); subst mask;
             rewrite lor_mask_testbit by lia; apply orb_true_iff; [right; lia | by left].
      * split.
        -- intros (? & [= <-] & T). subst mask. rewrite lor_mask_testbit, Z.testbit_0_l in T by lia.
           left. bool_prop. destruct T as [T|T]; bool_prop; [done|lia].
        -- intros [->|(b & [=] & T)]. eexists; split; [done|]. subst mask.
           rewrite lor_mask_testbit by lia. apply orb_true_iff. right; lia.
    + rewrite lookup_insert_ne by done. rewrite Bm. split; [auto|]. intros [->|]; [|done].
      by destruct Nb.
  - intros b bits Lk.
    assert (Lk' : blocks !! b = Some bits /\ oldest_block_of h' <= b).
    { revert Lk. case_if; intros Lk.
      - by apply map_lookup_filter_Some in Lk as [? ?].
      - split; [done|]. subst blocks. destruct (decide (b = c / 64)) as [->|].
        + by apply oldest_block_le.
        + rewrite lookup_insert_ne in Lk by done. apply (wr_blocks _ _ R) in Lk. fold h in Lk. lia. }
    destruct Lk' as [Lk' Hb]. split; [done|]. subst blocks.
    destruct (decide (b = c / 64)) as [->|]; [apply Z.div_le_mono; lia|].
    rewrite lookup_insert_ne in Lk' by done. apply (wr_blocks _ _ R) in Lk' as [_ U]. fold h in U.
    assert (h / 64 <= h' / 64) by (apply Z.div_le_mono; lia). lia.
Qed.

Lemma window_rep_default : window_rep ReplayWindow_default [].
Proof.
  split; cbn; try done.
  - intros c. by intros ?%not_elem_of_nil.
  - intros c _ _. rewrite lookup_empty, elem_of_nil. naive_solver.
Qed.

Lemma offer_all_spec w seen counters :
  window_rep w seen -> Forall (fun c => 0 <= c) counters ->
  let '(bs, w') := offer_all w counters in
  let '(bs', seen') := spec_offer_all seen counters in
  bs = bs' /\ window_rep w' seen'.
Proof.
  intros R F. revert w seen R. induction F as [|c counters Hc F IH]; intros w seen R; cbn; [done|].
  unfold offer. rewrite (can_accept_spec w seen c R Hc). destruct (spec_accepts seen c) eqn:A.
  - specialize (IH _ _ (record_spec _ _ _ R Hc A)).
    destruct (offer_all _ counters), (spec_offer_all _ counters). naive_solver congruence.
  - specialize (IH _ _ R). destruct (offer_all _ counters), (spec_offer_all _ counters).
    naive_solver congruence.
Qed.

(** The counters of a list that were answered [true]. *)
Fixpoint accepted_of (bs : list bool) (counters : list Z) : list Z :=
  match bs, counters with
  | b :: bs, c :: counters => if b then c :: accepted_of bs counters else accepted_of bs counters
  | _, _ => []
  end.

Lemma spec_offer_all_seen seen counters :
  let '(bs, seen') := spec_offer_all seen counters in
  seen' = rev (accepted_of bs counters) ++ seen /\ (NoDup seen -> NoDup seen').
Proof.
  revert seen. induction counters as [|c counters IH]; intros seen; cbn; [done|].
  destruct (spec_accepts seen c) eqn:A.
  - specialize (IH (c :: seen)). destruct (spec_offer_all _ counters) as [bs seen'].
    destruct IH as [-> N]. cbn. rewrite <- app_assoc. split; [done|].
    intros ?. apply N. constructor; [|done]. by apply spec_accepts_iff in A as [? _].
  - specialize (IH seen). by destruct (spec_offer_all _ counters).
Qed.

(** At most 65 blocks: 4096 counters touch at most that many words. *)
Lemma window_rep_size w seen : window_rep w seen -> (size (rw_blocks w) <= 65)%nat.
Proof.
  intros R. rewrite <- size_dom.
  set (lo := oldest_block_of (rw_highest_received w)).
  assert (S : dom (rw_blocks w) ⊆ (list_to_set (seqZ lo 65) : gset Z)).
  { intros b [bits Hb]%elem_of_dom. apply (wr_blocks _ _ R) in Hb. fold lo in Hb.
    apply elem_of_list_to_set, elem_of_seqZ.
    assert (rw_highest_received w / 64 <= lo + 64); [|lia].
    subst lo. unfold oldest_block_of, saturating_sub64.
    rewrite <- (Z.div_add _ 64 64) by lia. apply Z.div_le_mono; width_lia. }
  apply subseteq_size in S. rewrite size_list_to_set in S by apply NoDup_seqZ.
  by rewrite length_seqZ in S.
Qed.

(** ** The cipher laws *)

Section CipherLaws.

Context (encrypt : list byte -> list byte -> list byte -> list byte -> option (list byte * list byte)).
Context (decrypt : list byte -> list byte -> list byte -> list byte -> option (list byte)).

(** What AES-256-GCM documents: the ciphertext is as long as the plaintext and
    the tag is 16 bytes, and decryption inverts encryption. *)
Definition aead_lengths : Prop :=
  forall key nonce aad plaintext ciphertext tag,
    encrypt key nonce aad plaintext = Some (ciphertext, tag) ->
    len ciphertext = len plaintext /\ len tag = TAG_SIZE.
Definition aead_inverse : Prop :=
  forall key nonce aad plaintext ciphertext tag,
    encrypt key nonce aad plaintext = Some (ciphertext, tag) ->
    decrypt key nonce aad (ciphertext ++ tag) = Some plaintext.

Definition cipher_wf (c : DatagramCipher) : Prop :=
  len (dc_nonce_prefix c) = 4 /\ 0 <= dc_send_counter c <= U64_MAX.

Lemma nonce_of_eq c n :
  len (dc_nonce_prefix c) = 4 -> nonce_of c n = dc_nonce_prefix c ++ be_bytes 8 n.
Proof.
  intros L. unfold nonce_of, copy_into.
  generalize (be_bytes 8 n) (be_bytes_length 8 n). intros l B.
  generalize dependent (dc_nonce_prefix c). intros p L.
  do 4 (destruct p as [|? p]; [discriminate L|]).
  destruct p; [|rewrite !len_cons in L; len_facts; lia].
  do 8 (destruct l as [|? l]; [done|]). by destruct l.
Qed.

Lemma nonce_of_length c n : len (dc_nonce_prefix c) = 4 -> length (nonce_of c n) = 12%nat.
Proof. intros L. rewrite nonce_of_eq by done. rewrite length_app, be_bytes_length. unfold len in L. lia. Qed.

(** [seal_into], with the buffer arithmetic done. *)
Lemma seal_into_eq c plaintext aad output :
  cipher_wf c ->
  seal_into encrypt c plaintext aad output =
  if dc_send_counter c =? U64_MAX then (Err DE_CounterExhausted, c, output)
  else
    let c' := set_send_counter c (dc_send_counter c + 1) in
    match encrypt (dc_cipher c) (nonce_of c (dc_send_counter c + 1)) aad plaintext with
    | Some (ciphertext, tag) =>
      (Ok tt, c', output ++ nonce_of c (dc_send_counter c + 1) ++ ciphertext ++ tag)
    | None => (Err DE_Authentication, c', output)
    end.
Proof.
  intros [L B]. unfold seal_into, checked_add64.
  destruct (Z.eqb_spec (dc_send_counter c) U64_MAX) as [->|N].
  { rewrite (proj2 (Z.leb_gt _ _)) by lia. done. }
  rewrite (proj2 (Z.leb_le _ _)) by lia. cbn [dc_cipher set_send_counter].
  set (n := dc_send_counter c + 1).
  change (nonce_of (set_send_counter c n) n) with (nonce_of c n).
  assert (E : (length output + 12)%nat = length (output ++ nonce_of c n))
    by (rewrite length_app, nonce_of_length; done).
  rewrite E, drop_app_length, take_app_length, <- !app_assoc, take_app_length.
  destruct (encrypt _ _ _ _) as [[ct tag]|]; [by rewrite <- !app_assoc | done].
Qed.

(** What [seal_datagram] produces, and how the counter moves. *)
Lemma seal_datagram_spec c header payload r c' :
  cipher_wf c -> seal_datagram encrypt c header payload = (r, c') ->
  cipher_wf c' /\ dc_cipher c' = dc_cipher c /\ dc_nonce_prefix c' = dc_nonce_prefix c /\
  dc_replay c' = dc_replay c /\ dc_send_counter c <= dc_send_counter c' /\
  match r with
  | Ok datagram => exists ciphertext tag,
      dc_send_counter c' = dc_send_counter c + 1 /\
      encrypt (dc_cipher c) (nonce_of c (dc_send_counter c + 1)) (PacketHeader_to_bytes header) payload
        = Some (ciphertext, tag) /\
      datagram = PacketHeader_to_bytes header ++ nonce_of c (dc_send_counter c + 1) ++ ciphertext ++ tag
  | Err _ => True
  end.
Proof.
  intros W. unfold seal_datagram, PacketHeader_encode. rewrite seal_into_eq by done.
  destruct W as [L B]. destruct (Z.eqb_spec (dc_send_counter c) U64_MAX) as [E|N].
  { intros [= <- <-]. split_and!; try done; lia. }
  destruct (encrypt _ _ _ _) as [[ct tag]|] eqn:En; intros [= <- <-].
  - unfold cipher_wf. cbn. split_and!; try first [done | lia]. by exists ct, tag.
  - unfold cipher_wf. cbn. split_and!; first [done | lia].
Qed.

(** Opening what a peer with the same key and prefix sealed. *)
Lemma open_datagram_sealed (Hl : aead_lengths) (Hi : aead_inverse) c header payload ciphertext tag n :
  len (dc_nonce_prefix c) = 4 -> PacketHeader_wf header -> 0 <= n <= U64_MAX ->
  encrypt (dc_cipher c) (nonce_of c n) (PacketHeader_to_bytes header) payload = Some (ciphertext, tag) ->
  open_datagram decrypt c (PacketHeader_to_bytes header ++ nonce_of c n ++ ciphertext ++ tag) =
  if can_accept (dc_replay c) n
  then (Ok (header, payload), set_replay c (record (dc_replay c) n))
  else (Err DE_Replay, c).
Proof.
  intros L W B En. destruct (Hl _ _ _ _ _ _ En) as [Lc Lt].
  pose proof (PacketHeader_to_bytes_len header) as Lh. unfold open_datagram.
  assert (Ln : len (nonce_of c n) = 12) by (unfold len; rewrite nonce_of_length by done; done).
  rewrite !len_app, Lh, Ln, Lt. case_if; [len_facts; width_lia|].
  assert (T12 : 12%nat = length (PacketHeader_to_bytes header)) by (unfold len in Lh; width_lia).
  rewrite T12, take_app_length, drop_app_length.
  rewrite (proj2 (PacketHeader_decode_iff _ header)) by done.
  unfold open. rewrite !len_app, Ln, Lt. case_if; [len_facts; width_lia|].
  replace 12%nat with (length (nonce_of c n)) by by apply nonce_of_length.
  rewrite take_app_length, drop_app_length. rewrite (Hi _ _ _ _ _ _ En).
  rewrite nonce_of_eq by done. rewrite <- !app_assoc.
  assert (T4 : 4%nat = length (dc_nonce_prefix c)) by (unfold len in L; lia).
  rewrite (take_app_length' _ _ 4), (drop_app_length' _ _ 4), bool_decide_true by done. cbn [negb].
  rewrite (take_app_length' _ _ 8) by by rewrite be_bytes_length.
  rewrite be_value_be_bytes by width_lia.
  by destruct (can_accept (dc_replay c) n).
Qed.

End CipherLaws.

(** ** Traffic between two ciphers *)

Section Traffic.

Context (encrypt : list byte -> list byte -> list byte -> list byte -> option (list byte * list byte)).
Context (decrypt : list byte -> list byte -> list byte -> list byte -> option (list byte)).

Fixpoint seal_all (c : DatagramCipher) (messages : list (PacketHeader * list byte))
    : list (result DatagramError (list byte)) * DatagramCipher :=
  match messages with
  | [] => ([], c)
  | (header, payload) :: messages =>
    let '(r, c) := seal_datagram encrypt c header payload in
    let '(rs, c) := seal_all c messages in
    (r :: rs, c)
  end.

Fixpoint open_all (c : DatagramCipher) (datagrams : list (list byte))
    : list (result DatagramError (PacketHeader * list byte)) * DatagramCipher :=
  match datagrams with
  | [] => ([], c)
  | d :: datagrams =>
    let '(r, c) := open_datagram decrypt c d in
    let '(rs, c) := open_all c datagrams in
    (r :: rs, c)
  end.

(** The result of an arrival: the message sent, or a replay error. *)
Definition outcome (messages : list (PacketHeader * list byte)) (i : nat) (fresh : bool)
    : result DatagramError (PacketHeader * list byte) :=
  if fresh then ok_or (messages !! i) DE_Truncated else Err DE_Replay.

(** Once the counter is exhausted it stays exhausted. *)
Lemma seal_datagram_exhausted c header payload :
  cipher_wf c -> dc_send_counter c = U64_MAX ->
  seal_datagram encrypt c header payload = (Err DE_CounterExhausted, c).
Proof.
  intros W E. unfold seal_datagram, PacketHeader_encode. rewrite seal_into_eq by done.
  rewrite E, Z.eqb_refl. done.
Qed.

Lemma seal_datagram_counter c header payload r c' :
  cipher_wf c -> seal_datagram encrypt c header payload = (r, c') ->
  dc_send_counter c' = Z.min U64_MAX (dc_send_counter c + 1).
Proof.
  intros W. unfold seal_datagram, PacketHeader_encode. rewrite seal_into_eq by done.
  destruct W as [_ B]. destruct (Z.eqb_spec (dc_send_counter c) U64_MAX).
  - intros [= <- <-]. lia.
  - destruct (encrypt _ _ _ _) as [[ct tag]|]; intros [= <- <-]; cbn; lia.
Qed.

Lemma seal_all_lookup c messages rs c' i d :
  cipher_wf c -> seal_all c messages = (rs, c') -> rs !! i = Some (Ok d) ->
  let n := dc_send_counter c + 1 + Z.of_nat i in
  n <= U64_MAX /\ exists header payload ciphertext tag,
    messages !! i = Some (header, payload) /\
    encrypt (dc_cipher c) (nonce_of c n) (PacketHeader_to_bytes header) payload
      = Some (ciphertext, tag) /\
    d = PacketHeader_to_bytes header ++ nonce_of c n ++ ciphertext ++ tag.
Proof.
  revert c rs i. induction messages as [|[header payload] ms IH]; intros c rs i W; cbn [seal_all].
  { intros [= <- <-]. done. }
  destruct (seal_datagram encrypt c header payload) as [r c1] eqn:E.
  destruct (seal_all c1 ms) as [rs1 c2] eqn:E2. intros [= <- <-].
  pose proof (seal_datagram_counter _ _ _ _ _ W E) as Cn.
  destruct (seal_datagram_spec _ _ _ _ _ _ W E) as (W1 & K & P & _ & _ & Sp).
  destruct i as [|i]; cbn [lookup list_lookup].
  - intros [= ->]. destruct Sp as (ct & tag & Hn & En & ->). rewrite Z.add_0_r.
    destruct W1 as [_ B1]. split; [lia|]. by exists header, payload, ct, tag.
  - intros L. destruct (IH _ _ _ W1 E2 L) as [B (h & p & ct & tag & M & En & ->)].
    assert (dc_send_counter c1 = dc_send_counter c + 1) as Cn' by (destruct W; lia).
    replace (dc_send_counter c1 + 1 + Z.of_nat i)
      with (dc_send_counter c + 1 + Z.of_nat (S i)) in * by lia.
    split; [lia|]. exists h, p, ct, tag. rewrite <- K.
    unfold nonce_of in *. by rewrite <- P.
Qed.

Lemma open_all_spec (Hl : aead_lengths encrypt) (Hi : aead_inverse encrypt decrypt)
    tx rx messages rs tx' arrivals ds seen :
  cipher_wf tx -> dc_cipher rx = dc_cipher tx -> dc_nonce_prefix rx = dc_nonce_prefix tx ->
  Forall (fun m => PacketHeader_wf m.1) messages ->
  seal_all tx messages = (rs, tx') ->
  Forall2 (fun i d => rs !! i = Some (Ok d)) arrivals ds ->
  window_rep (dc_replay rx) seen ->
  fst (open_all rx ds) =
  zip_with (outcome messages) arrivals
    (fst (spec_offer_all seen ((fun i => dc_send_counter tx + 1 + Z.of_nat i) <$> arrivals))).
Proof.
  intros W K P Hm E F. revert rx seen K P.
  induction F as [|i d arrivals ds L F IH]; intros rx seen K P R; [done|].
  destruct (seal_all_lookup _ _ _ _ _ _ W E L) as [B (h & p & ct & tag & M & En & ->)].
  set (n := dc_send_counter tx + 1 + Z.of_nat i) in *.
  assert (Nn : nonce_of tx n = nonce_of rx n) by (unfold nonce_of; by rewrite P).
  rewrite Nn in *. rewrite <- K in En. cbn [open_all fmap list_fmap spec_offer_all].
  assert (Hn : 0 <= n <= U64_MAX) by (destruct W as [_ ?]; lia).
  rewrite (open_datagram_sealed encrypt decrypt Hl Hi rx h p ct tag n) ; cycle 1.
  { rewrite P. apply W. } { by eapply (Forall_lookup_1 _ _ _ _ Hm) in M. } { done. } { done. }
  fold n. rewrite (can_accept_spec _ seen n R) by lia.
  destruct (spec_accepts seen n) eqn:A.
  - specialize (IH (set_replay rx (record (dc_replay rx) n)) (n :: seen) K P
      (record_spec _ _ _ R (proj1 Hn) A)).
    destruct (open_all _ ds), (spec_offer_all (n :: seen) _). cbn in *. rewrite IH.
    unfold outcome at 2. rewrite M. done.
  - specialize (IH rx seen K P R).
    destruct (open_all _ ds), (spec_offer_all seen _). cbn in *. by rewrite IH.
Qed.

End Traffic.

(** ** Properties *)

(** On any sequence of offered counters the bitmap window decides exactly as
    the set of all accepted counters would: accept what was not accepted before
    and is less than 4096 behind the highest. *)
Theorem replay_window_refines_spec counters :
  Forall (fun c => 0 <= c) counters ->
  fst (offer_all ReplayWindow_default counters) = fst (spec_offer_all [] counters).
Proof.
  intros F. pose proof (offer_all_spec _ [] counters window_rep_default F) as H.
  destruct (offer_all _ counters), (spec_offer_all [] counters). apply H.
Qed.

Lemma replay_window_refines_spec_witness :
  fst (offer_all ReplayWindow_default [5; 5000; 5; 905; 904; 905]) =
  fst (spec_offer_all [] [5; 5000; 5; 905; 904; 905]) /\
  fst (offer_all ReplayWindow_default [5; 5000; 5; 905; 904; 905]) =
  [true; true; false; true; false; false].
Proof.
  split; [|vm_compute; reflexivity].
  apply replay_window_refines_spec. repeat constructor; lia.
Defined.

(** No counter is ever accepted twice, and the window never keeps more than
    65 words. *)
Theorem replay_never_twice counters :
  Forall (fun c => 0 <= c) counters ->
  let '(bs, w) := offer_all ReplayWindow_default counters in
  NoDup (accepted_of bs counters) /\ (size (rw_blocks w) <= 65)%nat.
Proof.
  intros F. pose proof (offer_all_spec _ [] counters window_rep_default F) as H.
  pose proof (spec_offer_all_seen [] counters) as S.
  destruct (offer_all _ counters) as [bs w], (spec_offer_all [] counters) as [bs' seen].
  destruct H as [-> R], S as [-> N]. split; [|by eapply window_rep_size].
  specialize (N (NoDup_nil_2)). rewrite app_nil_r in N. by rewrite <- Permutation_rev in N.
Qed.

Lemma replay_never_twice_witness :
  let '(bs, w) := offer_all ReplayWindow_default [5; 5000; 5] in
  NoDup (accepted_of bs [5; 5000; 5]) /\ (size (rw_blocks w) <= 65)%nat.
Proof. apply (replay_never_twice [5; 5000; 5]). repeat constructor; lia. Defined.

(** A datagram that is not opened leaves the cipher as it was: forgeries and
    replays cannot move the window or the counter. *)
Lemma open_failure_preserves_state decrypt c datagram e c' :
  open_datagram decrypt c datagram = (Err e, c') -> c' = c.
Proof.
  unfold open_datagram, open. intros E. repeat case_match; by simplify_eq.
Qed.

(** A toy AEAD with the documented laws: the ciphertext is the plaintext, the
    tag is sixteen zero bytes. *)
Definition toy_encrypt (key nonce aad plaintext : list byte) : option (list byte * list byte) :=
  Some (plaintext, le_bytes 16 0).
Definition toy_decrypt (key nonce aad message : list byte) : option (list byte) :=
  if len message <? 16 then None else Some (take (length message - 16) message).

Lemma toy_lengths : aead_lengths toy_encrypt.
Proof. intros k n a p ct tag [= <- <-]. rewrite len_le_bytes. done. Qed.

Lemma toy_inverse : aead_inverse toy_encrypt toy_decrypt.
Proof.
  intros k n a p ct tag [= <- <-]. unfold toy_decrypt. rewrite len_app, len_le_bytes.
  case_if; [len_facts; lia|]. f_equal. rewrite length_app, le_bytes_length, Nat.add_sub.
  apply take_app_length.
Qed.

(** C13: a sender seals a list of messages and the network delivers any of the
    datagrams in any order and any number of times to a receiver with the same
    key and nonce prefix.  Then each arrival yields exactly the message that was
    sealed when the replay specification accepts its counter (it is fresh and
    less than 4096 behind), and a replay error otherwise. *)
Theorem datagrams_delivered_once encrypt decrypt tx rx messages rs tx' arrivals ds :
  aead_lengths encrypt -> aead_inverse encrypt decrypt ->
  cipher_wf tx -> dc_cipher rx = dc_cipher tx -> dc_nonce_prefix rx = dc_nonce_prefix tx ->
  dc_replay rx = ReplayWindow_default ->
  Forall (fun m => PacketHeader_wf m.1) messages ->
  seal_all encrypt tx messages = (rs, tx') ->
  Forall2 (fun i d => rs !! i = Some (Ok d)) arrivals ds ->
  fst (open_all decrypt rx ds) =
  zip_with (outcome messages) arrivals
    (fst (spec_offer_all [] ((fun i => dc_send_counter tx + 1 + Z.of_nat i) <$> arrivals))).
Proof.
  intros Hl Hi W K P R Hm E F. eapply open_all_spec; eauto.
  rewrite R. apply window_rep_default.
Qed.

Definition toy_sender : DatagramCipher := mkDatagramCipher [] (le_bytes 4 7) 0 ReplayWindow_default.
Definition toy_messages : list (PacketHeader * list byte) :=
  [(mkPacketHeader PT_Ping 1 2 0, str_bytes "one"); (mkPacketHeader PT_Ping 2 2 0, str_bytes "two")].
Definition toy_datagrams : list (list byte) :=
  omap (fun r => match r with Ok d => Some d | Err _ => None end)
    (fst (seal_all toy_encrypt toy_sender toy_messages)).

Lemma datagrams_delivered_once_witness :
  exists d0 d1, toy_datagrams = [d0; d1] /\
  fst (open_all toy_decrypt toy_sender [d1; d0; d1]) =
  [Ok (mkPacketHeader PT_Ping 2 2 0, str_bytes "two");
   Ok (mkPacketHeader PT_Ping 1 2 0, str_bytes "one"); Err DE_Replay].
Proof.
  eexists _, _. split; [vm_compute; reflexivity|].
  etransitivity.
  - eapply (datagrams_delivered_once toy_encrypt toy_decrypt toy_sender toy_sender toy_messages
      _ _ [1; 0; 1]%nat _ toy_lengths toy_inverse); try reflexivity.
    + split; cbn; [reflexivity | unfold U64_MAX; lia].
    + repeat constructor; cbn; lia.
    + repeat constructor.
  - vm_compute. reflexivity.
Defined.

(** C38: nonces are never reused: over any sequence of sealing attempts on one
    cipher, successful or not and up to the exhaustion of the counter, the
    nonces of the datagrams produced are pairwise distinct. *)
Theorem seal_nonces_distinct encrypt c messages rs c' i j d e :
  cipher_wf c -> seal_all encrypt c messages = (rs, c') ->
  rs !! i = Some (Ok d) -> rs !! j = Some (Ok e) -> i <> j ->
  take 12 (drop 12 d) <> take 12 (drop 12 e).
Proof.
  intros W E Hi Hj N.
  destruct (seal_all_lookup _ _ _ _ _ _ _ W E Hi) as [Bi (h & p & ct & tag & _ & _ & ->)].
  destruct (seal_all_lookup _ _ _ _ _ _ _ W E Hj) as [Bj (h' & p' & ct' & tag' & _ & _ & ->)].
  assert (X : forall h n r, take 12 (drop 12 (PacketHeader_to_bytes h ++ nonce_of c n ++ r)) = nonce_of c n).
  { intros h0 n r. rewrite (drop_app_length' _ _ 12), (take_app_length' _ _ 12); [done|..].
    - by rewrite nonce_of_length by apply W.
    - pose proof (PacketHeader_to_bytes_len h0). unfold len, PACKET_HEADER_SIZE in *. lia. }
  rewrite !X, !nonce_of_eq by apply W. intros Q. apply app_inv_head in Q.
  apply (f_equal be_value) in Q. destruct W as [_ B].
  rewrite !be_value_be_bytes in Q by width_lia. lia.
Qed.

Lemma seal_nonces_distinct_witness :
  exists d e, toy_datagrams = [d; e] /\ take 12 (drop 12 d) <> take 12 (drop 12 e).
Proof.
  eexists _, _. split; [vm_compute; reflexivity|].
  eapply (seal_nonces_distinct toy_encrypt toy_sender toy_messages _ _ 0 1).
  - split; cbn; [reflexivity | unfold U64_MAX; lia].
  - reflexivity.
  - reflexivity.
  - reflexivity.
  - discriminate.
Defined.

(** Sealing into a buffer keeps what it held; on an error (exhausted counter
    or cipher failure) the buffer is unchanged, and an exhausted counter never
    wraps. *)
Lemma seal_into_buffer encrypt c plaintext aad output r c' output' :
  cipher_wf c -> seal_into encrypt c plaintext aad output = (r, c', output') ->
  match r with
  | Ok _ => exists suffix, output' = output ++ nonce_of c (dc_send_counter c + 1) ++ suffix /\
      dc_send_counter c' = dc_send_counter c + 1
  | Err _ => output' = output /\ dc_send_counter c <= dc_send_counter c' <= U64_MAX
  end.
Proof.
  intros W. rewrite seal_into_eq by done. destruct W as [L B].
  destruct (Z.eqb_spec (dc_send_counter c) U64_MAX).
  - intros [= <- <- <-]. split; [done|lia].
  - destruct (encrypt _ _ _ _) as [[ct tag]|]; intros [= <- <- <-]; [by eexists|]. split; [done|cbn; lia].
Qed.
