(* ===== verification/Assembler.v ===== *)
(** * Frame reassembly

    [clients/rust/maho-app/src/media.rs], [FrameAssembler]: the receiver's
    per-frame assemblies and orphan chunks, their caps and expiry, and the loss
    accounting.  The receiver trace is a log and is not modelled. *)

From stdpp Require Import sorting.
From S2P Require Import Prelude Codec Media.

Definition SERIAL_HALF_RANGE : Z := Z.shiftl 1 31.
Definition MAX_ORPHAN_FRAMES : Z := 16.
Definition MAX_INCOMPLETE_FRAMES : Z := 16.
Definition MAX_LOSS_SAMPLES : Z := 4096.
Definition ASSEMBLY_TIMEOUT : Duration := from_secs 1.
#[export] Hint Unfold MAX_ORPHAN_FRAMES MAX_INCOMPLETE_FRAMES MAX_LOSS_SAMPLES : limits.

Record AssembledFrame : Type := mkAssembledFrame {
  asf_header : FrameHeader;
  asf_data : list byte;
  asf_timestamp_ms : Z
}.

(** A [BTreeMap<u16, Vec<u8>>]. *)
Abbreviation chunk_map := (gmap Z (list byte)).

Record FrameAssembly : Type := mkFrameAssembly {
  fa_header : FrameHeader;
  fa_chunks : chunk_map;
  fa_started : Instant;
  fa_timestamp_ms : Z;
  fa_payload_bytes : Z
}.

Record OrphanAssembly : Type := mkOrphanAssembly {
  oa_chunks : chunk_map;
  oa_started : Instant
}.

Inductive MediaAssemblyError : Type := ME_InvalidHeader | ME_InvalidChunkIndex | ME_SizeMismatch.

Record FrameAssembler : Type := mkFrameAssembler {
  fas_frames : gmap Z FrameAssembly;
  fas_orphans : gmap Z OrphanAssembly;
  fas_expected_frame_id : option Z;
  fas_recent_loss : list (Instant * Z * Z);
  fas_completed_frames : Z;
  fas_completed_started_at : option Instant
}.

Definition FrameAssembler_default : FrameAssembler := mkFrameAssembler ∅ ∅ None [] 0 None.

Definition set_frames (s : FrameAssembler) (f : gmap Z FrameAssembly) : FrameAssembler :=
  mkFrameAssembler f (fas_orphans s) (fas_expected_frame_id s) (fas_recent_loss s)
    (fas_completed_frames s) (fas_completed_started_at s).
Definition set_orphans (s : FrameAssembler) (o : gmap Z OrphanAssembly) : FrameAssembler :=
  mkFrameAssembler (fas_frames s) o (fas_expected_frame_id s) (fas_recent_loss s)
    (fas_completed_frames s) (fas_completed_started_at s).
Definition set_completed_started_at (s : FrameAssembler) (t : option Instant) : FrameAssembler :=
  mkFrameAssembler (fas_frames s) (fas_orphans s) (fas_expected_frame_id s) (fas_recent_loss s)
    (fas_completed_frames s) t.
Definition set_loss (s : FrameAssembler) (e : option Z) (l : list (Instant * Z * Z)) : FrameAssembler :=
  mkFrameAssembler (fas_frames s) (fas_orphans s) e l (fas_completed_frames s)
    (fas_completed_started_at s).

Definition serial_not_before (a b : Z) : bool := wrapping_sub32 a b <? SERIAL_HALF_RANGE.

(** Iteration of a [BTreeMap]: ascending keys. *)
Definition key_le (a b : Z * list byte) : Prop := a.1 <= b.1.
#[export] Instance key_le_dec : RelDecision key_le.
Proof. intros a b. unfold key_le. apply _. Defined.
Definition btree_iter (m : chunk_map) : list (Z * list byte) := merge_sort key_le (map_to_list m).

(** The body of [admit_chunks]' loop, on the chunks and the byte count. *)
Definition admit_chunk (header : FrameHeader) (acc : chunk_map * Z) (entry : Z * list byte)
    : chunk_map * Z :=
  let '(chunks, payload_bytes) := acc in
  let '(index, data) := entry in
  if (fh_total_chunks header <=? index) || (fh_total_size header <? payload_bytes + len data)
  then (chunks, payload_bytes)
  else match chunks !! index with
       | None => (<[index := data]> chunks, payload_bytes + len data)
       | Some _ => (chunks, payload_bytes)
       end.

Definition admit_chunks (chunks : chunk_map) (payload_bytes : Z) (incoming : chunk_map)
    (header : FrameHeader) : chunk_map * Z :=
  foldl (admit_chunk header) (chunks, payload_bytes) (btree_iter incoming).

Definition complete (a : FrameAssembly) : bool :=
  Z.of_nat (size (fa_chunks a)) =? fh_total_chunks (fa_header a).

(** [for index in 0..total_chunks { extend(chunks.get(&index)?) }] *)
Fixpoint collect_chunks (chunks : chunk_map) (index : Z) (count : nat) : option (list byte) :=
  match count with
  | O => Some []
  | S count =>
    match chunks !! index with
    | None => None
    | Some data =>
      match collect_chunks chunks (index + 1) count with
      | None => None
      | Some rest => Some (data ++ rest)
      end
    end
  end.

Definition finish_if_complete (s : FrameAssembler) (frame_id : Z)
    : result MediaAssemblyError (option AssembledFrame) * FrameAssembler :=
  match fas_frames s !! frame_id with
  | None => (Ok None, s)
  | Some assembly =>
    if negb (complete assembly) then (Ok None, s)
    else
      let s := set_frames s (delete frame_id (fas_frames s)) in
      match collect_chunks (fa_chunks assembly) 0 (Z.to_nat (fh_total_chunks (fa_header assembly))) with
      | None => (Err ME_SizeMismatch, s)
      | Some data =>
        if negb (len data =? fh_total_size (fa_header assembly)) then (Err ME_SizeMismatch, s)
        else
          (Ok (Some (mkAssembledFrame (fa_header assembly) data (fa_timestamp_ms assembly))),
           mkFrameAssembler (fas_frames s) (fas_orphans s) (fas_expected_frame_id s)
             (fas_recent_loss s) (fas_completed_frames s + 1) (Some (fa_started assembly)))
      end
  end.

Definition live (now started : Instant) : bool :=
  saturating_duration_since now started <? ASSEMBLY_TIMEOUT.

Definition expire (s : FrameAssembler) (now : Instant) : FrameAssembler :=
  set_orphans
    (set_frames s (filter (fun kv : Z * FrameAssembly => live now (fa_started kv.2) = true) (fas_frames s)))
    (filter (fun kv : Z * OrphanAssembly => live now (oa_started kv.2) = true) (fas_orphans s)).

Fixpoint trim_loss (recent_loss : list (Instant * Z * Z)) (now : Instant) : list (Instant * Z * Z) :=
  match recent_loss with
  | [] => []
  | (timestamp, _, _) :: rest =>
    if (MAX_LOSS_SAMPLES <? len recent_loss)
       || (from_secs 5 <? saturating_duration_since now timestamp)
    then trim_loss rest now
    else recent_loss
  end.

Definition track_loss (s : FrameAssembler) (frame_id : Z) (now : Instant) : FrameAssembler :=
  let lost :=
    match fas_expected_frame_id s with
    | None => 0
    | Some expected =>
      let forward := wrapping_sub32 frame_id expected in
      if forward <? SERIAL_HALF_RANGE then forward else 0
    end in
  let recent_loss := fas_recent_loss s ++ [(now, lost, lost + 1)] in
  let successor := wrapping_add32 frame_id 1 in
  let expected :=
    match fas_expected_frame_id s with
    | None => successor
    | Some expected =>
      if negb (successor =? expected) && serial_not_before successor expected
      then successor else expected
    end in
  set_loss s (Some expected) (trim_loss recent_loss now).

(** [iter().min_by_key(|(id, a)| (a.started, **id))] *)
Definition older (a b : Z * FrameAssembly) : bool :=
  (fa_started a.2 <? fa_started b.2) ||
  ((fa_started a.2 =? fa_started b.2) && (a.1 <=? b.1)).
Definition oldest_frame (frames : gmap Z FrameAssembly) : option Z :=
  fst <$> foldr (fun kv best =>
    match best with
    | None => Some kv
    | Some b => Some (if older kv b then kv else b)
    end) None (map_to_list frames).

(** The capacity check at the end of [push_header]. *)
Definition evict_oldest (s : FrameAssembler) : FrameAssembler :=
  if MAX_INCOMPLETE_FRAMES <? Z.of_nat (size (fas_frames s)) then
    match oldest_frame (fas_frames s) with
    | None => s
    | Some oldest => set_frames s (delete oldest (fas_frames s))
    end
  else s.

Definition push_header (s : FrameAssembler) (header : FrameHeader) (timestamp_ms : Z) (now : Instant)
    : result MediaAssemblyError (option AssembledFrame) * FrameAssembler :=
  let s := set_completed_started_at s None in
  if (fh_total_chunks header =? 0) || (MAX_CHUNKS_PER_FRAME <? fh_total_chunks header)
     || (fh_total_size header =? 0) || (MAX_FRAME_BYTES <? fh_total_size header)
  then (Err ME_InvalidHeader, s)
  else
    let s := expire s now in
    let s := track_loss s (fh_frame_id header) now in
    let s :=
      if fh_is_key_frame header then
        set_frames s (filter (fun kv : Z * FrameAssembly =>
          serial_not_before kv.1 (fh_frame_id header) || complete kv.2 = true) (fas_frames s))
      else s in
    let frame_id := fh_frame_id header in
    let '(chunks, started) :=
      match fas_orphans s !! frame_id with
      | None => (∅, now)
      | Some orphan => (oa_chunks orphan, oa_started orphan)
      end in
    let s := set_orphans s (delete frame_id (fas_orphans s)) in
    let insert_assembly (s : FrameAssembler) (a : FrameAssembly) :=
      let s := set_frames s (<[frame_id := a]> (fas_frames s)) in
      match finish_if_complete s frame_id with
      | (Err e, s) => (Err e, s)
      | (Ok completed, s) => (Ok completed, evict_oldest s)
      end in
    match fas_frames s !! frame_id with
    | Some existing =>
      if negb (bool_decide (fa_header existing = header)) then (Ok None, s)
      else
        let '(admitted, payload_bytes) :=
          admit_chunks (fa_chunks existing) (fa_payload_bytes existing) chunks (fa_header existing) in
        insert_assembly s (mkFrameAssembly (fa_header existing) admitted
          (Z.min (fa_started existing) started) timestamp_ms payload_bytes)
    | None =>
      let '(admitted, payload_bytes) := admit_chunks ∅ 0 chunks header in
      insert_assembly s (mkFrameAssembly header admitted started timestamp_ms payload_bytes)
    end.

Definition push_chunk (s : FrameAssembler) (chunk : FrameChunk) (now : Instant)
    : result MediaAssemblyError (option AssembledFrame) * FrameAssembler :=
  let s := set_completed_started_at s None in
  let s := expire s now in
  let index := fc_chunk_index chunk in
  match fas_frames s !! fc_frame_id chunk with
  | Some assembly =>
    if fh_total_chunks (fa_header assembly) <=? index then (Err ME_InvalidChunkIndex, s)
    else match fa_chunks assembly !! index with
    | None =>
      if fh_total_size (fa_header assembly) <? fa_payload_bytes assembly + len (fc_data chunk)
      then (Ok None, s)
      else
        let assembly := mkFrameAssembly (fa_header assembly)
          (<[index := fc_data chunk]> (fa_chunks assembly)) (fa_started assembly)
          (fa_timestamp_ms assembly) (fa_payload_bytes assembly + len (fc_data chunk)) in
        finish_if_complete (set_frames s (<[fc_frame_id chunk := assembly]> (fas_frames s)))
          (fc_frame_id chunk)
    | Some _ => finish_if_complete s (fc_frame_id chunk)
    end
  | None =>
    let known := fas_orphans s !! fc_frame_id chunk in
    if (MAX_ORPHAN_FRAMES <=? Z.of_nat (size (fas_orphans s))) && negb (bool_decide (is_Some known))
    then (Ok None, s)
    else if MAX_CHUNKS_PER_FRAME <=? index then (Ok None, s)
    else
      let orphan := default (mkOrphanAssembly ∅ now) known in
      if MAX_CHUNKS_PER_FRAME <=? Z.of_nat (size (oa_chunks orphan))
      then (Ok None, set_orphans s (delete (fc_frame_id chunk) (fas_orphans s)))
      else
        let chunks := match oa_chunks orphan !! index with
          | None => <[index := fc_data chunk]> (oa_chunks orphan)
          | Some _ => oa_chunks orphan
          end in
        (Ok None, set_orphans s
           (<[fc_frame_id chunk := mkOrphanAssembly chunks (oa_started orphan)]> (fas_orphans s)))
  end.

(** The two sums [loss_ratio] divides, and the state it leaves. *)
Definition loss_counts (s : FrameAssembler) (now : Instant) : Z * Z * FrameAssembler :=
  let recent := trim_loss (fas_recent_loss s) now in
  let '(lost, total) :=
    foldl (fun '(lost, total) '(_, entry_lost, entry_total) =>
      (lost + entry_lost, total + entry_total)) (0, 0) recent in
  (lost, total, set_loss s (fas_expected_frame_id s) recent).

Definition take_completed_started_at (s : FrameAssembler) : option Instant * FrameAssembler :=
  (fas_completed_started_at s, set_completed_started_at s None).

Definition FrameAssembler_clear (s : FrameAssembler) : FrameAssembler := FrameAssembler_default.

(** ** Chunk maps *)

(** The bytes held by a chunk map. *)
Definition payload (chunks : chunk_map) : Z := map_fold (fun _ d acc => len d + acc) 0 chunks.

Lemma payload_empty : payload ∅ = 0.
Proof. apply map_fold_empty. Qed.

Lemma payload_insert chunks i d :
  chunks !! i = None -> payload (<[i := d]> chunks) = len d + payload chunks.
Proof. intros. unfold payload. rewrite map_fold_insert_L; [done | intros; lia | done]. Qed.

Lemma payload_delete chunks i d :
  chunks !! i = Some d -> payload chunks = len d + payload (delete i chunks).
Proof. intros. unfold payload. erewrite map_fold_delete_L; [done | intros; lia | done]. Qed.

Lemma payload_nonneg chunks : 0 <= payload chunks.
Proof.
  induction chunks as [|i d m Hi IH] using map_ind; [by rewrite payload_empty|].
  rewrite payload_insert by done. len_facts. lia.
Qed.

Lemma payload_mono m1 m2 : m1 ⊆ m2 -> payload m1 <= payload m2.
Proof.
  revert m2. induction m1 as [|i d m Hi IH] using map_ind; intros m2 S.
  { rewrite payload_empty. apply payload_nonneg. }
  assert (E : m2 !! i = Some d) by (eapply lookup_weaken; [apply lookup_insert_eq | exact S]).
  rewrite payload_insert, (payload_delete m2 i d) by done.
  apply Z.add_le_mono_l, IH. by apply map_subseteq_spec; intros j e Hj;
    rewrite lookup_delete_ne by (intros ->; congruence);
    eapply lookup_weaken; [|exact S]; rewrite lookup_insert_ne by (intros ->; congruence).
Qed.

Lemma elem_of_btree_iter m i d : (i, d) ∈ btree_iter m <-> m !! i = Some d.
Proof. unfold btree_iter. rewrite merge_sort_Permutation. apply elem_of_map_to_list. Qed.

(** What every assembly satisfies. *)
Record chunks_ok (h : FrameHeader) (chunks : chunk_map) (payload_bytes : Z) : Prop := {
  co_index : forall i d, chunks !! i = Some d -> 0 <= i < fh_total_chunks h;
  co_payload : payload_bytes = payload chunks;
  co_size : payload chunks <= fh_total_size h
}.

Lemma admit_chunk_ok h c p i d :
  0 <= i -> chunks_ok h c p ->
  let '(c', p') := admit_chunk h (c, p) (i, d) in
  chunks_ok h c' p' /\ c ⊆ c' /\
  (forall j e, c' !! j = Some e -> c !! j = Some e \/ (j, e) = (i, d)).
Proof.
  intros Hi [Ix P S]. unfold admit_chunk. case_if; [split_and!; [done..|auto]|]. bool_prop.
  destruct (c !! i) eqn:E; [split_and!; [done..|auto]|]. split_and!.
  - split.
    + intros j e [[<- <-]|[? ?]]%lookup_insert_Some; [lia | eauto].
    + rewrite payload_insert by done. lia.
    + rewrite payload_insert by done. lia.
  - by apply insert_subseteq.
  - intros j e [[<- <-]|[? ?]]%lookup_insert_Some; auto.
Qed.

Lemma admit_list_ok h l c p :
  (forall i d, (i, d) ∈ l -> 0 <= i) -> chunks_ok h c p ->
  let '(c', p') := foldl (admit_chunk h) (c, p) l in
  chunks_ok h c' p' /\ c ⊆ c' /\
  (forall j e, c' !! j = Some e -> c !! j = Some e \/ (j, e) ∈ l).
Proof.
  revert c p. induction l as [|[i d] l IH]; intros c p Hl Ok; cbn [foldl].
  - split_and!; [done..|auto].
  - pose proof (admit_chunk_ok h c p i d (Hl i d ltac:(left)) Ok) as A.
    destruct (admit_chunk h (c, p) (i, d)) as [c1 p1]. destruct A as (Ok1 & S1 & O1).
    specialize (IH c1 p1 ltac:(intros; eapply Hl; by right) Ok1).
    destruct (foldl (admit_chunk h) (c1, p1) l) as [c2 p2]. destruct IH as (Ok2 & S2 & O2).
    split_and!; [done | by etransitivity|]. intros j e [H|H]%O2.
    + apply O1 in H as [H|[= -> ->]]; [auto|]. right. left.
    + right. by right.
Qed.

Lemma admit_chunks_ok h c p incoming :
  (forall i d, incoming !! i = Some d -> 0 <= i) -> chunks_ok h c p ->
  let '(c', p') := admit_chunks c p incoming h in
  chunks_ok h c' p' /\ c ⊆ c' /\
  (forall j e, c' !! j = Some e -> c !! j = Some e \/ incoming !! j = Some e).
Proof.
  intros Hi Ok. pose proof (admit_list_ok h (btree_iter incoming) c p) as A.
  setoid_rewrite elem_of_btree_iter in A. unfold admit_chunks.
  destruct (foldl _ _ _) as [c' p']. destruct (A Hi Ok) as (Ok' & S & Or). split_and!; [done..|].
  intros j e He%Or. by rewrite elem_of_btree_iter in He.
Qed.

Lemma admit_list_mono h l c p : c ⊆ fst (foldl (admit_chunk h) (c, p) l).
Proof.
  revert c p. induction l as [|[i d] l IH]; intros c p; cbn [foldl]; [done|].
  destruct (admit_chunk h (c, p) (i, d)) as [c1 p1] eqn:E. etransitivity; [|apply IH].
  unfold admit_chunk in E. revert E. case_if; [by intros [= <- _]|].
  destruct (c !! i) eqn:Ci; intros [= <- _]; [done|]. by apply insert_subseteq.
Qed.

(** Chunks of one source whose header declares it exactly are all admitted. *)
Lemma admit_list_full h src l c p :
  (forall i d, (i, d) ∈ l -> src !! i = Some d) -> c ⊆ src ->
  (forall i d, src !! i = Some d -> 0 <= i < fh_total_chunks h) ->
  payload src = fh_total_size h -> p = payload c ->
  let '(c', p') := foldl (admit_chunk h) (c, p) l in
  c' ⊆ src /\ p' = payload c' /\ forall i d, (i, d) ∈ l -> c' !! i = Some d.
Proof.
  intros Hl Hc Hs T ->. revert c Hc. induction l as [|[i d] l IH]; intros c Hc; cbn [foldl].
  { split_and!; [done..|]. by intros i d ?%elem_of_nil. }
  assert (E : src !! i = Some d) by (apply Hl; left).
  assert (A : exists c1, admit_chunk h (c, payload c) (i, d) = (c1, payload c1) /\
    c1 ⊆ src /\ c ⊆ c1 /\ c1 !! i = Some d).
  { unfold admit_chunk. rewrite (proj2 (Z.leb_gt _ _)) by (by eapply Hs). cbn [orb].
    destruct (c !! i) as [d'|] eqn:Ci.
    - assert (d' = d) as -> by (eapply lookup_weaken in Ci; [|exact Hc]; congruence).
      exists c. split; [by case_if|]. done.
    - assert (S1 : <[i := d]> c ⊆ src) by (apply insert_subseteq_l; done).
      pose proof (payload_mono _ _ S1) as M. rewrite payload_insert in M by done.
      rewrite (proj2 (Z.ltb_ge _ _)) by lia. exists (<[i := d]> c).
      rewrite payload_insert by done. split_and!; [f_equal; lia | done | by apply insert_subseteq|].
      apply lookup_insert_eq. }
  destruct A as (c1 & -> & S1 & S2 & Li).
  specialize (IH ltac:(intros; apply Hl; by right) c1 S1).
  pose proof (admit_list_mono h l c1 (payload c1)) as Mo.
  destruct (foldl (admit_chunk h) (c1, payload c1) l) as [c2 p2].
  destruct IH as (Q1 & Q2 & Q3). split_and!; [done..|].
  intros j e [[= -> ->]|H]%elem_of_cons; [|auto]. by eapply lookup_weaken.
Qed.

(** ** Complete assemblies *)

Lemma complete_all (m : chunk_map) n :
  (forall i d, m !! i = Some d -> 0 <= i < n) -> Z.of_nat (size m) = n ->
  forall i, 0 <= i < n -> is_Some (m !! i).
Proof.
  intros Hm Hs i Hi. rewrite <- elem_of_dom.
  assert (E : dom m = (list_to_set (seqZ 0 n) : gset Z)).
  { apply set_subseteq_size_eq.
    - intros j [d Hd]%elem_of_dom. apply elem_of_list_to_set, elem_of_seqZ. apply Hm in Hd. lia.
    - rewrite size_list_to_set, length_seqZ, size_dom by apply NoDup_seqZ. lia. }
  rewrite E. apply elem_of_list_to_set, elem_of_seqZ. lia.
Qed.

(** The list of chunks [collect_chunks] concatenates. *)
Lemma collect_chunks_spec m i count :
  (forall j, i <= j < i + Z.of_nat count -> is_Some (m !! j)) ->
  exists cs, length cs = count /\ collect_chunks m i count = Some (concat cs) /\
    forall k c, cs !! k = Some c -> m !! (i + Z.of_nat k) = Some c.
Proof.
  revert i. induction count as [|count IH]; intros i H; cbn [collect_chunks].
  - exists []. split_and!; [done..|]. intros k c ?. done.
  - destruct (H i ltac:(lia)) as [d Hd]. rewrite Hd.
    destruct (IH (i + 1)) as (cs & L & -> & Hc); [intros; apply H; lia|].
    exists (d :: cs). split_and!; [cbn; lia | done|]. intros [|k] c; cbn.
    + intros [= <-]. by rewrite Z.add_0_r.
    + intros Hk. apply Hc in Hk. by replace (i + Z.of_nat (S k)) with (i + 1 + Z.of_nat k) by lia.
Qed.

(** A chunk map whose keys are exactly an interval holds the bytes of its
    concatenation. *)
Lemma payload_interval m i cs :
  (forall k c, cs !! k = Some c -> m !! (i + Z.of_nat k) = Some c) ->
  (forall j d, m !! j = Some d -> i <= j < i + Z.of_nat (length cs)) ->
  payload m = len (concat cs).
Proof.
  revert m i. induction cs as [|c cs IH]; intros m i Hc Hm.
  - assert (m = ∅) as ->; [|by rewrite payload_empty].
    apply map_empty. intros j. destruct (m !! j) eqn:E; [|done]. apply Hm in E. cbn in E. lia.
  - assert (E : m !! i = Some c) by (specialize (Hc 0%nat c eq_refl); by rewrite Z.add_0_r in Hc).
    rewrite (payload_delete m i c E). cbn [concat]. rewrite len_app. f_equal.
    apply (IH _ (i + 1)).
    + intros k c' Hk. rewrite lookup_delete_ne by lia.
      specialize (Hc (S k) c' Hk). by replace (i + 1 + Z.of_nat k) with (i + Z.of_nat (S k)) by lia.
    + intros j d [N Hj]%lookup_delete_Some. apply Hm in Hj. cbn [length] in Hj. lia.
Qed.

(** ** Invariants

    [sent_header] and [sent_chunk] say what the peer sent; everything an
    assembler holds or returns comes from there.  With the always-true
    predicates this is the plain well-formedness invariant. *)

Section Source.

Context (sent_header : FrameHeader -> Prop) (sent_chunk : Z -> Z -> list byte -> Prop).

Record assembly_ok (id : Z) (a : FrameAssembly) : Prop := {
  ao_id : fh_frame_id (fa_header a) = id;
  ao_chunks : 1 <= fh_total_chunks (fa_header a) <= MAX_CHUNKS_PER_FRAME;
  ao_total : 1 <= fh_total_size (fa_header a) <= MAX_FRAME_BYTES;
  ao_ok : chunks_ok (fa_header a) (fa_chunks a) (fa_payload_bytes a);
  ao_header : sent_header (fa_header a);
  ao_sent : forall i d, fa_chunks a !! i = Some d -> sent_chunk id i d
}.

Record orphan_ok (id : Z) (o : OrphanAssembly) : Prop := {
  oo_index : forall i d, oa_chunks o !! i = Some d -> 0 <= i < MAX_CHUNKS_PER_FRAME;
  oo_sent : forall i d, oa_chunks o !! i = Some d -> sent_chunk id i d
}.

Record assembler_inv (s : FrameAssembler) : Prop := {
  ai_frames : forall id a, fas_frames s !! id = Some a -> assembly_ok id a /\ complete a = false;
  ai_count : (size (fas_frames s) <= 16)%nat;
  ai_orphans : forall id o, fas_orphans s !! id = Some o -> orphan_ok id o;
  ai_orphan_count : (size (fas_orphans s) <= 16)%nat;
  ai_disjoint : forall id a, fas_frames s !! id = Some a -> fas_orphans s !! id = None;
  ai_loss : len (fas_recent_loss s) <= MAX_LOSS_SAMPLES
}.

(** A returned frame: its header was sent, and its data is the in-order
    concatenation of one sent chunk per index, of the declared total size. *)
Definition delivered_ok (f : AssembledFrame) : Prop :=
  let h := asf_header f in
  sent_header h /\ len (asf_data f) = fh_total_size h /\
  exists cs, len cs = fh_total_chunks h /\ asf_data f = concat cs /\
    forall k c, cs !! k = Some c -> sent_chunk (fh_frame_id h) (Z.of_nat k) c.

Lemma assembler_inv_default : assembler_inv FrameAssembler_default.
Proof.
  split; cbn [FrameAssembler_default fas_frames fas_orphans fas_recent_loss];
    rewrite ?map_size_empty, ?len_nil; try (intros ??; by rewrite lookup_empty); width_lia.
Qed.

(** [finish_if_complete] on a state in which only [id] may be complete. *)
Lemma finish_if_complete_spec s id a :
  fas_frames s !! id = Some a -> assembly_ok id a ->
  let '(r, s') := finish_if_complete s id in
  (complete a = false -> r = Ok None /\ s' = s) /\
  (complete a = true ->
    fas_frames s' = delete id (fas_frames s) /\ fas_orphans s' = fas_orphans s /\
    fas_recent_loss s' = fas_recent_loss s /\
    if payload (fa_chunks a) =? fh_total_size (fa_header a)
    then exists f, r = Ok (Some f) /\ delivered_ok f /\ asf_header f = fa_header a /\
      asf_timestamp_ms f = fa_timestamp_ms a
    else r = Err ME_SizeMismatch).
Proof.
  intros L [Eid Hc Ht [Hi Hp Hs] Hh Hd]. unfold finish_if_complete. rewrite L.
  destruct (complete a) eqn:C; cbn [negb]; [|done]. unfold complete in C. bool_prop.
  set (n := fh_total_chunks (fa_header a)) in *.
  destruct (collect_chunks_spec (fa_chunks a) 0 (Z.to_nat n)) as (cs & Lc & -> & Hcs).
  { intros j Hj. apply (complete_all _ n); [done..|lia]. }
  cbn [Z.add] in Hcs.
  rewrite (payload_interval (fa_chunks a) 0 cs); [|done|intros j d Hj%Hi; lia].
  destruct (len (concat cs) =? fh_total_size (fa_header a)) eqn:E; cbn [negb]; bool_prop;
    (split; [done|]; intros _; split_and!; try done).
  eexists. split; [done|]. split; [|done]. split_and!; [done..|].
  exists cs. split_and!; [cbn; fold n; unfold len; lia | done|]. cbn. intros k c Hk. rewrite Eid. eauto.
Qed.

(** Dropping assemblies keeps the invariant. *)
Lemma assembler_inv_sub s s' :
  assembler_inv s -> fas_frames s' ⊆ fas_frames s -> fas_orphans s' ⊆ fas_orphans s ->
  len (fas_recent_loss s') <= MAX_LOSS_SAMPLES -> assembler_inv s'.
Proof.
  intros [If Ic Io Ioc Id Il] Sf So Hl.
  pose proof (map_subseteq_size _ _ Sf). pose proof (map_subseteq_size _ _ So).
  split; try done; try lia.
  - intros id a H1. apply If. by eapply lookup_weaken.
  - intros id o H1. apply Io. by eapply lookup_weaken.
  - intros id a H1. eapply lookup_weaken in H1; [|exact Sf]. apply Id in H1.
    by eapply lookup_weaken_None.
Qed.

Lemma trim_loss_len l now : len (trim_loss l now) <= MAX_LOSS_SAMPLES.
Proof.
  induction l as [|[[t lost] total] l IH]; cbn [trim_loss]; [rewrite len_nil; width_lia|].
  case_if; [done|]. bool_prop. done.
Qed.

Lemma expire_inv s now : assembler_inv s -> assembler_inv (expire s now).
Proof.
  intros I. eapply assembler_inv_sub; [exact I|..]; cbn; try apply map_filter_subseteq.
  apply (ai_loss _ I).
Qed.

Lemma track_loss_inv s id now : assembler_inv s -> assembler_inv (track_loss s id now).
Proof. intros I. eapply assembler_inv_sub; [exact I|done|done|]. apply trim_loss_len. Qed.

Lemma oldest_frame_spec frames :
  (0 < size frames)%nat -> exists id a, oldest_frame frames = Some id /\ frames !! id = Some a.
Proof.
  intros S. unfold oldest_frame. set (pick := fun kv best => _).
  assert (H : forall l, l <> [] -> exists kv, foldr pick None l = Some kv /\ kv ∈ l).
  { induction l as [|kv l IH]; [done|]. intros _. cbn. destruct l as [|kv' l].
    - exists kv. split; [done|]. left.
    - destruct IH as (b & -> & Hb); [done|]. cbn. eexists. split; [done|].
      destruct (older kv b); [left | by right]. }
  destruct (H (map_to_list frames)) as ([id a] & E & Hin).
  { intros E. rewrite <- length_map_to_list, E in S. cbn in S. lia. }
  exists id, a. rewrite E. split; [done|]. by apply elem_of_map_to_list.
Qed.

(** The capacity check brings seventeen assemblies back to sixteen. *)
Lemma evict_oldest_inv s :
  (forall id a, fas_frames s !! id = Some a -> assembly_ok id a /\ complete a = false) ->
  (size (fas_frames s) <= 17)%nat ->
  (forall id o, fas_orphans s !! id = Some o -> orphan_ok id o) ->
  (size (fas_orphans s) <= 16)%nat ->
  (forall id a, fas_frames s !! id = Some a -> fas_orphans s !! id = None) ->
  len (fas_recent_loss s) <= MAX_LOSS_SAMPLES -> assembler_inv (evict_oldest s).
Proof.
  intros If Ic Io Ioc Id Il. unfold evict_oldest. case_if; [|split; try done; width_lia].
  destruct (oldest_frame_spec (fas_frames s)) as (old & a & -> & L); [width_lia|].
  split; cbn; try done.
  - intros id b [_ Hb]%lookup_delete_Some. auto.
  - rewrite map_size_delete, L. lia.
  - intros id b [_ Hb]%lookup_delete_Some. eauto.
Qed.

(** Storing assembly [a] under [id] and finishing it if it is complete. *)
Lemma store_and_finish s id a :
  (forall j b, j <> id -> fas_frames s !! j = Some b -> assembly_ok j b /\ complete b = false) ->
  assembly_ok id a ->
  let s1 := set_frames s (<[id := a]> (fas_frames s)) in
  let '(r, s') := finish_if_complete s1 id in
  (forall f, r = Ok (Some f) -> delivered_ok f) /\
  (forall j b, fas_frames s' !! j = Some b -> assembly_ok j b /\ complete b = false) /\
  fas_orphans s' = fas_orphans s /\ fas_recent_loss s' = fas_recent_loss s /\
  ((exists f, r = Ok (Some f)) \/ r = Err ME_SizeMismatch \/ r = Ok None) /\
  (if complete a then fas_frames s' = delete id (fas_frames s)
   else fas_frames s' = <[id := a]> (fas_frames s)).
Proof.
  intros If Ia s1. pose proof (finish_if_complete_spec s1 id a) as H.
  destruct (finish_if_complete s1 id) as [r s'].
  destruct H as [Hn Hc]; [by apply lookup_insert_eq | done|].
  destruct (complete a) eqn:C.
  - destruct Hc as (Ef & Eo & El & Hr); [done|]. cbn in Ef. rewrite delete_insert_eq in Ef.
    assert (Hf : forall j b, fas_frames s' !! j = Some b -> assembly_ok j b /\ complete b = false).
    { rewrite Ef. intros j b [N Hb]%lookup_delete_Some. apply If; auto. }
    case_if_in Hr.
    + destruct Hr as (f & -> & D & _). split_and!; try done; [by intros f' [= <-] | eauto].
    + subst r. split_and!; try done; auto.
  - destruct Hn as [-> ->]; [done|]. split_and!; try done; [|by auto].
    cbn. intros j b [[<- <-]|[N Hb]]%lookup_insert_Some; [done|]. apply If; auto.
Qed.

(** The incoming chunks of a header are admitted into a well-formed assembly. *)
Lemma admit_assembly_ok h c p incoming started timestamp :
  1 <= fh_total_chunks h <= MAX_CHUNKS_PER_FRAME -> 1 <= fh_total_size h <= MAX_FRAME_BYTES ->
  sent_header h -> chunks_ok h c p ->
  (forall i d, c !! i = Some d -> sent_chunk (fh_frame_id h) i d) ->
  (forall i d, incoming !! i = Some d -> 0 <= i /\ sent_chunk (fh_frame_id h) i d) ->
  let '(c', p') := admit_chunks c p incoming h in
  assembly_ok (fh_frame_id h) (mkFrameAssembly h c' started timestamp p').
Proof.
  intros Hc Ht Hh Ok Hs Hi. pose proof (admit_chunks_ok h c p incoming) as A.
  destruct (admit_chunks c p incoming h) as [c' p'].
  destruct A as (Ok' & _ & Or); [by intros i d [? _]%Hi | done|].
  split; cbn; try done. intros i d [H|H]%Or; [auto | by apply Hi in H as [_ ?]].
Qed.

Lemma chunks_ok_empty h : 1 <= fh_total_size h -> chunks_ok h ∅ 0.
Proof.
  intros. split; rewrite ?payload_empty; [|done|lia]. intros i d. by rewrite lookup_empty.
Qed.

(** [evict_oldest] after an assembly was stored: the invariant is back. *)
Lemma store_evict_inv s id a r s' :
  assembler_inv s -> fas_orphans s !! id = None -> assembly_ok id a ->
  finish_if_complete (set_frames s (<[id := a]> (fas_frames s))) id = (r, s') ->
  (forall f, r = Ok (Some f) -> delivered_ok f) /\ assembler_inv (evict_oldest s') /\
  (forall e, r = Err e -> assembler_inv s').
Proof.
  intros I No Ia E. pose proof (store_and_finish s id a) as H.
  destruct I as [If Ic Io Ioc Id Il].
  cbn zeta in H. rewrite E in H.
  destruct H as (D & Hf & Eo & El & Hr & Ef); [intros; by apply If | done |].
  assert (Sz : (size (fas_frames s') <= 17)%nat).
  { destruct (complete a); rewrite Ef.
    - pose proof (map_subseteq_size _ _ (delete_subseteq (fas_frames s) id)). lia.
    - rewrite map_size_insert. destruct (fas_frames s !! id); cbn; lia. }
  assert (Dj : forall j b, fas_frames s' !! j = Some b -> fas_orphans s' !! j = None).
  { rewrite Eo. intros j b Hb. destruct (complete a); rewrite Ef in Hb.
    - apply lookup_delete_Some in Hb as [_ Hb]. eauto.
    - apply lookup_insert_Some in Hb as [[<- _]|[_ Hb]]; eauto. }
  split; [done|]. split.
  - apply evict_oldest_inv; try done; rewrite ?Eo, ?El; done.
  - intros e ->. destruct Hr as [[f ?]|[_|?]]; [done| |done].
    destruct (complete a) eqn:C.
    + pose proof (map_subseteq_size _ _ (delete_subseteq (fas_frames s) id)) as Sd.
      rewrite <- Ef in Sd. split; try done; rewrite ?Eo, ?El; first [done | lia].
    + exfalso. pose proof (finish_if_complete_spec (set_frames s (<[id:=a]> (fas_frames s))) id a) as F.
      rewrite E in F. destruct F as [F _]; [apply lookup_insert_eq | done|].
      by destruct (F C).
Qed.

(** Keyframe pruning. *)
Definition prune (s : FrameAssembler) (h : FrameHeader) : FrameAssembler :=
  if fh_is_key_frame h then
    set_frames s (filter (fun kv : Z * FrameAssembly =>
      serial_not_before kv.1 (fh_frame_id h) || complete kv.2 = true) (fas_frames s))
  else s.

(** The state [push_header] works on once the header was accepted. *)
Definition header_state (s : FrameAssembler) (h : FrameHeader) (now : Instant) : FrameAssembler :=
  prune (track_loss (expire (set_completed_started_at s None) now) (fh_frame_id h) now) h.

Lemma completed_inv s t : assembler_inv s -> assembler_inv (set_completed_started_at s t).
Proof. by intros []; split. Qed.

Lemma header_state_inv s h now : assembler_inv s -> assembler_inv (header_state s h now).
Proof.
  intros I. unfold header_state, prune.
  pose proof (track_loss_inv _ (fh_frame_id h) now (expire_inv _ now (completed_inv s None I))) as T.
  case_if; [|done].
  eapply assembler_inv_sub; [exact T | apply map_filter_subseteq | done | apply (ai_loss _ T)].
Qed.

Lemma drop_orphan_inv s id : assembler_inv s -> assembler_inv (set_orphans s (delete id (fas_orphans s))).
Proof.
  intros I. eapply assembler_inv_sub; [exact I | done | apply delete_subseteq | apply (ai_loss _ I)].
Qed.

(** The end of [push_header]: store, finish, evict. *)
Definition insert_assembly (s : FrameAssembler) (id : Z) (a : FrameAssembly)
    : result MediaAssemblyError (option AssembledFrame) * FrameAssembler :=
  let s := set_frames s (<[id := a]> (fas_frames s)) in
  match finish_if_complete s id with
  | (Err e, s) => (Err e, s)
  | (Ok completed, s) => (Ok completed, evict_oldest s)
  end.

Lemma insert_assembly_inv s id a r s' :
  assembler_inv s -> fas_orphans s !! id = None -> assembly_ok id a ->
  insert_assembly s id a = (r, s') ->
  assembler_inv s' /\ (forall f, r = Ok (Some f) -> delivered_ok f).
Proof.
  intros I No Ia. unfold insert_assembly. cbv zeta.
  destruct (finish_if_complete _ id) as [r0 s0] eqn:E.
  destruct (store_evict_inv s id a r0 s0 I No Ia E) as (D & Iv & Ie).
  destruct r0; intros [= <- <-]; split; eauto.
Qed.

Lemma push_header_inv s h timestamp now r s' :
  assembler_inv s -> 0 <= fh_total_chunks h -> 0 <= fh_total_size h -> sent_header h ->
  push_header s h timestamp now = (r, s') ->
  assembler_inv s' /\ (forall f, r = Ok (Some f) -> delivered_ok f).
Proof.
  intros I Hc Ht Hh. unfold push_header. case_if.
  { intros [= <- <-]. split; [|done]. by apply completed_inv. }
  bool_prop. fold (prune (track_loss (expire (set_completed_started_at s None) now) (fh_frame_id h) now) h).
  fold (header_state s h now).
  pose proof (header_state_inv s h now I) as I1.
  revert I1. generalize (header_state s h now). clear I s. intros s I.
  pose proof (drop_orphan_inv s (fh_frame_id h) I) as I1.
  assert (No : fas_orphans (set_orphans s (delete (fh_frame_id h) (fas_orphans s))) !! fh_frame_id h = None)
    by apply lookup_delete_eq.
  set (s1 := set_orphans s _) in *. cbv zeta.
  assert (Oc : forall o, fas_orphans s !! fh_frame_id h = Some o ->
    forall i d, oa_chunks o !! i = Some d -> 0 <= i /\ sent_chunk (fh_frame_id h) i d).
  { intros o Ho i d Hd. destruct (ai_orphans _ I _ _ Ho) as [Ix Sx]. split; [|eauto].
    apply Ix in Hd. lia. }
  destruct (match fas_orphans s !! fh_frame_id h with Some o => _ | None => _ end)
    as [chunks started] eqn:Eo.
  assert (Ci : forall i d, chunks !! i = Some d -> 0 <= i /\ sent_chunk (fh_frame_id h) i d).
  { destruct (fas_orphans s !! fh_frame_id h) as [o|]; injection Eo as <- <-; [by apply Oc|].
    intros i d. by rewrite lookup_empty. }
  destruct (fas_frames s1 !! fh_frame_id h) as [a|] eqn:Ea.
  - destruct (decide (fa_header a = h)) as [Eh|Eh]; rewrite ?bool_decide_true, ?bool_decide_false by done;
      cbn [negb]; [|intros [= <- <-]; by split].
    destruct (ai_frames _ I1 _ _ Ea) as [[Aid Ac At Ao Ah As] _]. rewrite Eh in *.
    pose proof (admit_assembly_ok h (fa_chunks a) (fa_payload_bytes a) chunks
      (Z.min (fa_started a) started) timestamp ltac:(done) ltac:(done) ltac:(done) Ao As Ci) as Ok'.
    destruct (admit_chunks _ _ _ _) as [c p]. by apply insert_assembly_inv.
  - pose proof (admit_assembly_ok h ∅ 0 chunks started timestamp ltac:(lia) ltac:(lia) Hh
      (chunks_ok_empty h ltac:(lia)) ltac:(intros ??; by rewrite lookup_empty) Ci) as Ok'.
    destruct (admit_chunks _ _ _ _) as [c p]. by apply insert_assembly_inv.
Qed.

(** Replacing a stored assembly needs no eviction. *)
Lemma update_assembly_inv s id a0 a r s' :
  assembler_inv s -> fas_frames s !! id = Some a0 -> assembly_ok id a ->
  finish_if_complete (set_frames s (<[id := a]> (fas_frames s))) id = (r, s') ->
  assembler_inv s' /\ (forall f, r = Ok (Some f) -> delivered_ok f).
Proof.
  intros [If Ic Io Ioc Id Il] L Ia E. pose proof (store_and_finish s id a) as H.
  cbn zeta in H. rewrite E in H.
  destruct H as (D & Hf & Eo & El & _ & Ef); [intros; by apply If | done |].
  split; [|done].
  assert (Sub : forall j b, fas_frames s' !! j = Some b -> is_Some (fas_frames s !! j)).
  { intros j b Hb. destruct (complete a); rewrite Ef in Hb.
    - apply lookup_delete_Some in Hb as [_ Hb]. eauto.
    - apply lookup_insert_Some in Hb as [[<- _]|[_ Hb]]; eauto. }
  assert (Sz : (size (fas_frames s') <= size (fas_frames s))%nat).
  { rewrite <- !size_dom. apply subseteq_size. intros j [b Hb]%elem_of_dom. apply elem_of_dom. eauto. }
  split; rewrite ?Eo, ?El; try done; [lia|]. intros j b Hb. destruct (Sub j b Hb). eauto.
Qed.

Lemma push_chunk_inv s chunk now r s' :
  assembler_inv s -> 0 <= fc_chunk_index chunk ->
  sent_chunk (fc_frame_id chunk) (fc_chunk_index chunk) (fc_data chunk) ->
  push_chunk s chunk now = (r, s') ->
  assembler_inv s' /\ (forall f, r = Ok (Some f) -> delivered_ok f).
Proof.
  intros I Hi Hs. unfold push_chunk. cbv zeta.
  pose proof (expire_inv _ now (completed_inv s None I)) as I1.
  revert I1. generalize (expire (set_completed_started_at s None) now). clear I s. intros s I.
  destruct (fas_frames s !! fc_frame_id chunk) as [a|] eqn:Ea.
  - case_if; [intros [= <- <-]; by split|]. bool_prop.
    destruct (ai_frames _ I _ _ Ea) as [Ia Ca].
    destruct (fa_chunks a !! fc_chunk_index chunk) eqn:Ei.
    + intros E. pose proof (finish_if_complete_spec s _ a Ea Ia) as F. rewrite E in F.
      destruct F as [F _]. destruct (F Ca) as [-> ->]. by split.
    + case_if; [intros [= <- <-]; by split|]. bool_prop. intros E.
      eapply update_assembly_inv; [done.. | | exact E].
      destruct Ia as [Aid Ac At [Ix P Sz] Ah As]. split; cbn; try done.
      * split; [|rewrite payload_insert by done; lia..].
        intros i d [[<- <-]|[_ H]]%lookup_insert_Some; [lia | eauto].
      * intros i d [[<- <-]|[_ H]]%lookup_insert_Some; eauto.
  - case_if; [intros [= <- <-]; by split|]. case_if; [intros [= <- <-]; by split|]. bool_prop.
    case_if; intros [= <- <-]; (split; [|done]); [by apply drop_orphan_inv|]. bool_prop.
    set (known := fas_orphans s !! fc_frame_id chunk) in *.
    set (orphan := default (mkOrphanAssembly ∅ now) known) in *.
    assert (Io : orphan_ok (fc_frame_id chunk) orphan).
    { subst orphan known. destruct (fas_orphans s !! fc_frame_id chunk) eqn:Eo; cbn.
      - by apply (ai_orphans _ I).
      - split; intros i d; cbn; by rewrite lookup_empty. }
    assert (Room : is_Some known \/ (size (fas_orphans s) < 16)%nat).
    { destruct known eqn:K; [left; eauto | right]. destruct Heqb as [Hf|Hf]; bool_prop.
      - width_lia.
      - by destruct Hf. }
    destruct I as [If Ic Io' Ioc Id Il]. split; cbn [set_orphans fas_frames fas_orphans fas_recent_loss];
      try done.
    + intros j o [[<- <-]|[_ H]]%lookup_insert_Some; [|eauto].
      destruct (oa_chunks orphan !! fc_chunk_index chunk) eqn:El; [by destruct Io; split|].
      destruct Io as [Ix Sx].
      split; cbn; intros i d [[<- <-]|[_ H]]%lookup_insert_Some; eauto; lia.
    + rewrite map_size_insert. subst known. destruct Room as [[o Ho]|Hlt].
      * rewrite Ho. cbn. lia.
      * destruct (fas_orphans s !! _); cbn; lia.
    + intros j b Hb. destruct (decide (j = fc_frame_id chunk)) as [->|N]; [congruence|].
      rewrite lookup_insert_ne by done. eauto.
Qed.

End Source.



(** ** Operation sequences *)

Inductive AssemblerOp : Type :=
  | OpHeader (header : FrameHeader) (timestamp_ms : Z) (now : Instant)
  | OpChunk (chunk : FrameChunk) (now : Instant)
  | OpLossRatio (now : Instant)
  | OpTakeStarted
  | OpClear.

Definition assembler_op (s : FrameAssembler) (op : AssemblerOp)
    : option AssembledFrame * FrameAssembler :=
  match op with
  | OpHeader h timestamp now =>
    let '(r, s) := push_header s h timestamp now in (match r with Ok f => f | Err _ => None end, s)
  | OpChunk c now =>
    let '(r, s) := push_chunk s c now in (match r with Ok f => f | Err _ => None end, s)
  | OpLossRatio now => let '(_, _, s) := loss_counts s now in (None, s)
  | OpTakeStarted => (None, snd (take_completed_started_at s))
  | OpClear => (None, FrameAssembler_clear s)
  end.

(** The frames returned, in order. *)
Fixpoint assembler_run (s : FrameAssembler) (ops : list AssemblerOp)
    : list AssembledFrame * FrameAssembler :=
  match ops with
  | [] => ([], s)
  | op :: ops =>
    let '(f, s) := assembler_op s op in
    let '(fs, s) := assembler_run s ops in
    (option_list f ++ fs, s)
  end.

(** The fields of the arguments are unsigned. *)
Definition op_wf (op : AssemblerOp) : Prop :=
  match op with
  | OpHeader h _ _ => 0 <= fh_total_chunks h /\ 0 <= fh_total_size h
  | OpChunk c _ => 0 <= fc_chunk_index c
  | _ => True
  end.

Definition op_sent (sent_header : FrameHeader -> Prop) (sent_chunk : Z -> Z -> list byte -> Prop)
    (op : AssemblerOp) : Prop :=
  match op with
  | OpHeader h _ _ => sent_header h
  | OpChunk c _ => sent_chunk (fc_frame_id c) (fc_chunk_index c) (fc_data c)
  | _ => True
  end.

Lemma assembler_op_inv sh sc s op f s' :
  assembler_inv sh sc s -> op_wf op -> op_sent sh sc op -> assembler_op s op = (f, s') ->
  assembler_inv sh sc s' /\ (forall g, f = Some g -> delivered_ok sh sc g).
Proof.
  intros I W Sn. destruct op as [h t now|c now|now| |]; cbn [assembler_op].
  - destruct (push_header s h t now) as [r s1] eqn:E. intros [= <- <-].
    destruct W. eapply push_header_inv in E as [? D]; [|done..].
    split; [done|]. intros g ?. apply D. destruct r; congruence.
  - destruct (push_chunk s c now) as [r s1] eqn:E. intros [= <- <-].
    eapply push_chunk_inv in E as [? D]; [|done..].
    split; [done|]. intros g ?. apply D. destruct r; congruence.
  - unfold loss_counts. destruct (foldl _ _ _). intros [= <- <-]. split; [|done].
    eapply assembler_inv_sub; [exact I|done|done|]. apply trim_loss_len.
  - intros [= <- <-]. split; [by apply completed_inv | done].
  - intros [= <- <-]. split; [apply assembler_inv_default | done].
Qed.

Lemma assembler_run_inv sh sc ops s :
  assembler_inv sh sc s -> Forall op_wf ops -> Forall (op_sent sh sc) ops ->
  let '(fs, s') := assembler_run s ops in
  assembler_inv sh sc s' /\ Forall (delivered_ok sh sc) fs.
Proof.
  intros I W Sn. revert s I. induction ops as [|op ops IH]; intros s I; cbn [assembler_run]; [done|].
  apply Forall_cons in W as [W1 W2]. apply Forall_cons in Sn as [S1 S2].
  destruct (assembler_op s op) as [f s1] eqn:E.
  destruct (assembler_op_inv sh sc s op f s1 I W1 S1 E) as [I1 D1].
  specialize (IH W2 S2 s1 I1). destruct (assembler_run s1 ops) as [fs s2]. destruct IH as [I2 D2].
  split; [done|]. apply Forall_app. split; [|done]. destruct f; cbn; auto.
Qed.

(** Whatever headers and chunks arrive, in any order, with any duplicates
    and at any times, a frame assembler that started empty keeps at most 16
    incomplete frames and at most 16 orphan sets, no id is in both, every
    assembly's [payload_bytes] is exactly the bytes it holds and never exceeds
    the size its header declared, every index is below the declared chunk count
    and no complete assembly is left behind, and at most 4096 loss samples are
    kept. *)
Theorem assembler_stays_bounded (ops : list AssemblerOp) :
  Forall op_wf ops ->
  let s := snd (assembler_run FrameAssembler_default ops) in
  (size (fas_frames s) <= 16)%nat /\ (size (fas_orphans s) <= 16)%nat /\
  len (fas_recent_loss s) <= 4096 /\
  forall id a, fas_frames s !! id = Some a ->
    fh_frame_id (fa_header a) = id /\ fas_orphans s !! id = None /\ complete a = false /\
    fa_payload_bytes a = payload (fa_chunks a) /\
    fa_payload_bytes a <= fh_total_size (fa_header a) <= MAX_FRAME_BYTES /\
    forall i d, fa_chunks a !! i = Some d -> 0 <= i < fh_total_chunks (fa_header a).
Proof.
  intros W. pose proof (assembler_run_inv (fun _ => True) (fun _ _ _ => True) ops FrameAssembler_default
    (assembler_inv_default _ _) W ltac:(apply Forall_forall; by intros [] _)) as H.
  destruct (assembler_run _ ops) as [fs s]. destruct H as [[If Ic Io Ioc Id Il] _].
  cbn [snd]. split_and!; try done. intros id a La.
  destruct (If id a La) as [[Aid Ac At [Ix -> Sz] _ _] C]. split_and!; try done; try lia. eauto.
Qed.

(** C14: whatever arrives, every frame the assembler returns was announced by a
    header that was pushed, has exactly the declared size, and is the in-order
    concatenation of one pushed chunk of that frame id for each index from 0 to
    the declared chunk count: nothing is invented, mixed between frames,
    reordered or repeated. *)
Theorem assembler_returns_sent_chunks (ops : list AssemblerOp) (f : AssembledFrame) :
  Forall op_wf ops ->
  f ∈ fst (assembler_run FrameAssembler_default ops) ->
  let h := asf_header f in
  (exists timestamp now, OpHeader h timestamp now ∈ ops) /\
  len (asf_data f) = fh_total_size h /\
  exists cs, len cs = fh_total_chunks h /\ asf_data f = concat cs /\
    forall k c, cs !! k = Some c ->
      exists now, OpChunk (mkFrameChunk (fh_frame_id h) (Z.of_nat k) c) now ∈ ops.
Proof.
  intros W Hf. pose proof (assembler_run_inv
    (fun h => exists timestamp now, OpHeader h timestamp now ∈ ops)
    (fun id i c => exists now, OpChunk (mkFrameChunk id i c) now ∈ ops) ops FrameAssembler_default
    (assembler_inv_default _ _) W) as H.
  destruct (assembler_run _ ops) as [fs s]. destruct H as [_ D].
  - apply Forall_forall. intros [h t now|[id i c] now|now| |] Ho; cbn; eauto.
  - rewrite Forall_forall in D. by apply D.
Qed.

(** ** Delivery of one frame *)

Section OneFrame.

(** A frame as the host announces it, with the chunks of its data. *)
Context (h : FrameHeader) (cs : list (list byte)) (timestamp : Z) (t0 : Instant).
Context (Hchunks : len cs = fh_total_chunks h) (Hsize : len (concat cs) = fh_total_size h).
Context (Hcount : 1 <= fh_total_chunks h <= MAX_CHUNKS_PER_FRAME).
Context (Hbytes : 1 <= fh_total_size h <= MAX_FRAME_BYTES).

Definition chunk_source : chunk_map := map_seqZ 0 cs.

Definition in_window (t : Instant) : Prop := t0 <= t < t0 + ASSEMBLY_TIMEOUT.

(** Where the frame is in the assembler once the chunks [c] have arrived,
    before ([seen = false]) or after its header. *)
Record tracking (s : FrameAssembler) (seen : bool) (c : chunk_map) : Prop := {
  tr_room : (size (delete (fh_frame_id h) (fas_frames s)) <= 15)%nat;
  tr_orphan_room : (size (delete (fh_frame_id h) (fas_orphans s)) <= 15)%nat;
  tr_sub : c ⊆ chunk_source;
  tr_state :
    if seen then
      fas_orphans s !! fh_frame_id h = None /\
      exists started, fas_frames s !! fh_frame_id h =
        Some (mkFrameAssembly h c started timestamp (payload c)) /\ in_window started
    else
      fas_frames s !! fh_frame_id h = None /\
      ((c = ∅ /\ fas_orphans s !! fh_frame_id h = None) \/
       exists started, fas_orphans s !! fh_frame_id h = Some (mkOrphanAssembly c started) /\
         in_window started)
}.

Lemma chunk_source_lookup i d :
  chunk_source !! i = Some d <-> 0 <= i /\ cs !! Z.to_nat i = Some d.
Proof. unfold chunk_source. rewrite lookup_map_seqZ_Some, Z.sub_0_r. done. Qed.

Lemma chunk_source_index i d : chunk_source !! i = Some d -> 0 <= i < fh_total_chunks h.
Proof.
  intros [Hi L%lookup_lt_Some]%chunk_source_lookup. unfold len in Hchunks. lia.
Qed.

Lemma chunk_source_payload : payload chunk_source = fh_total_size h.
Proof.
  rewrite <- Hsize. apply (payload_interval _ 0).
  - intros k c Hk. apply chunk_source_lookup. by rewrite Z.add_0_l, Nat2Z.id; split; [lia|].
  - intros j d [Hj L%lookup_lt_Some]%chunk_source_lookup. lia.
Qed.

Lemma chunk_source_size : Z.of_nat (size chunk_source) = fh_total_chunks h.
Proof.
  rewrite <- Hchunks, <- size_dom.
  replace (dom chunk_source) with (list_to_set (seqZ 0 (len cs)) : gset Z).
  - rewrite size_list_to_set, length_seqZ by apply NoDup_seqZ. unfold len. lia.
  - apply set_eq. intros i. rewrite elem_of_list_to_set, elem_of_seqZ, elem_of_dom.
    unfold chunk_source. rewrite lookup_map_seqZ_is_Some. unfold len. lia.
Qed.

Definition the_frame : AssembledFrame := mkAssembledFrame h (concat cs) timestamp.

(** [finish_if_complete] returns the frame exactly when all chunks are there. *)
Lemma finish_tracked s c started :
  c ⊆ chunk_source ->
  fas_frames s !! fh_frame_id h = Some (mkFrameAssembly h c started timestamp (payload c)) ->
  (c = chunk_source /\ fst (finish_if_complete s (fh_frame_id h)) = Ok (Some the_frame)) \/
  (c <> chunk_source /\ finish_if_complete s (fh_frame_id h) = (Ok None, s)).
Proof.
  intros Hc L. unfold finish_if_complete. rewrite L. unfold complete. cbn [fa_chunks fa_header].
  destruct (decide (c = chunk_source)) as [->|N].
  - left. split; [done|]. rewrite chunk_source_size, Z.eqb_refl. cbn [negb].
    destruct (collect_chunks_spec chunk_source 0 (Z.to_nat (fh_total_chunks h))) as (cs' & Lc & -> & Hcs).
    { intros j Hj. unfold chunk_source. rewrite lookup_map_seqZ_is_Some. unfold len in Hchunks. lia. }
    assert (cs' = cs) as ->.
    { apply list_eq_same_length with (length cs); [done | unfold len in Hchunks; lia |].
      intros i x y _ Hx Hy. apply Hcs, chunk_source_lookup in Hx as [_ Hx].
      rewrite Z.add_0_l, Nat2Z.id in Hx. congruence. }
    rewrite Hsize, Z.eqb_refl. done.
  - right. split; [done|]. case_if; [done|]. bool_prop. destruct N.
    apply map_subseteq_size_eq; [done|]. pose proof chunk_source_size. lia.
Qed.

(** What the assembler does in between keeps this frame where it is. *)
Lemma expire_tracking s seen c now :
  in_window now -> tracking s seen c -> tracking (expire (set_completed_started_at s None) now) seen c.
Proof.
  intros Hw [R1 R2 Sc St].
  assert (Lv : forall t, in_window t -> live now t = true).
  { intros t Ht. unfold live, saturating_duration_since. apply Z.ltb_lt.
    unfold in_window, ASSEMBLY_TIMEOUT, from_secs in *. lia. }
  assert (Sz : forall {A} (P : Z * A -> Prop) `{!forall x, Decision (P x)} (m : gmap Z A),
    (size (delete (fh_frame_id h) (filter P m)) <= size (delete (fh_frame_id h) m))%nat).
  { intros A P HP m. apply map_subseteq_size, delete_mono, map_filter_subseteq. }
  split; cbn.
  - etransitivity; [apply Sz | done].
  - etransitivity; [apply Sz | done].
  - done.
  - destruct seen.
    + destruct St as (No & started & L & Hs). split; [by rewrite map_lookup_filter, No|].
      exists started. split; [|done]. rewrite map_lookup_filter, L. cbn. by rewrite Lv.
    + destruct St as [Nf St]. rewrite !map_lookup_filter, Nf. split; [done|].
      destruct St as [[-> ->]|(started & -> & Hs)]; [auto|right].
      exists started. split; [|done]. cbn. by rewrite Lv.
Qed.

Lemma delete_room {A} (m : gmap Z A) id : (size (delete id m) <= 15)%nat -> (size m <= 16)%nat.
Proof. rewrite map_size_delete. destruct (m !! id); cbn; lia. Qed.

Lemma push_chunk_tracked s seen c i d now :
  in_window now -> tracking s seen c -> c !! i = None -> chunk_source !! i = Some d ->
  let '(r, s') := push_chunk s (mkFrameChunk (fh_frame_id h) i d) now in
  if seen && bool_decide (<[i := d]> c = chunk_source) then r = Ok (Some the_frame)
  else r = Ok None /\ tracking s' seen (<[i := d]> c).
Proof.
  intros Hw T Ci Si. apply (expire_tracking s seen c now Hw) in T. unfold push_chunk. cbv zeta.
  cbn [fc_frame_id fc_chunk_index fc_data].
  revert T. generalize (expire (set_completed_started_at s None) now). clear s. intros s [R1 R2 Sc St].
  pose proof (chunk_source_index i d Si) as Hi.
  assert (Sc' : <[i := d]> c ⊆ chunk_source) by (by apply insert_subseteq_l).
  assert (P' : payload (<[i := d]> c) = payload c + len d) by (rewrite payload_insert by done; lia).
  destruct seen.
  - destruct St as (No & started & L & Hs). rewrite L. cbn [fa_header fa_chunks fa_payload_bytes].
    rewrite (proj2 (Z.leb_gt _ _)) by lia. rewrite Ci.
    pose proof (payload_mono _ _ Sc') as M. rewrite chunk_source_payload, P' in M.
    rewrite (proj2 (Z.ltb_ge _ _)) by lia. cbn [fa_started fa_timestamp_ms]. rewrite <- P'.
    set (s1 := set_frames s _).
    assert (L1 : fas_frames s1 !! fh_frame_id h =
      Some (mkFrameAssembly h (<[i := d]> c) started timestamp (payload (<[i := d]> c))))
      by apply lookup_insert_eq.
    destruct (finish_tracked s1 _ started Sc' L1) as [[E F]|[E F]]; cbn [andb].
    + destruct (finish_if_complete s1 _). cbn in F. by rewrite bool_decide_true.
    + rewrite F, bool_decide_false by done. split; [done|]. split; cbn; try done.
      * by rewrite delete_insert_eq.
      * split; [done|]. exists started. by rewrite lookup_insert_eq.
  - destruct St as [Nf St]. rewrite Nf. cbn [andb].
    assert (Hf : (MAX_ORPHAN_FRAMES <=? Z.of_nat (size (fas_orphans s))) &&
      negb (bool_decide (is_Some (fas_orphans s !! fh_frame_id h))) = false).
    { apply andb_false_iff. destruct St as [[-> No]|(started & -> & Hs)].
      - left. apply Z.leb_gt. rewrite delete_id in R2 by done. width_lia.
      - right. by rewrite bool_decide_true by eauto. }
    rewrite Hf, (proj2 (Z.leb_gt _ _)) by lia.
    pose (orphan := default (mkOrphanAssembly ∅ now) (fas_orphans s !! fh_frame_id h)).
    fold orphan.
    assert (Eo : oa_chunks orphan = c /\ in_window (oa_started orphan)).
    { subst orphan. by destruct St as [[-> ->]|(started & -> & Hs)]. }
    destruct Eo as [-> Hst].
    assert (Sz : (size c < size chunk_source)%nat).
    { apply map_subset_size. split; [done|]. intros S'.
      eapply lookup_weaken in S'; [|exact Si]. congruence. }
    pose proof chunk_source_size. rewrite (proj2 (Z.leb_gt _ _)) by lia. rewrite Ci.
    split; [done|]. split; cbn; try done.
    + by rewrite delete_insert_eq.
    + split; [done|]. right. exists (oa_started orphan). by rewrite lookup_insert_eq.
Qed.

Lemma header_state_tracked s c now :
  in_window now -> tracking s false c -> tracking (header_state s h now) false c.
Proof.
  intros Hw T. apply (expire_tracking s false c now Hw) in T. unfold header_state.
  revert T. generalize (expire (set_completed_started_at s None) now). clear s.
  intros s [R1 R2 Sc [Nf St]]. unfold prune. case_if; split; try done; cbn.
  - etransitivity; [|exact R1]. apply map_subseteq_size, delete_mono, map_filter_subseteq.
  - split; [by rewrite map_lookup_filter, Nf | done].
Qed.

(** All the orphans of this frame are admitted under its header. *)
Lemma admit_orphans c : c ⊆ chunk_source -> admit_chunks ∅ 0 c h = (c, payload c).
Proof.
  intros Hc. unfold admit_chunks.
  pose proof (admit_list_full h chunk_source (btree_iter c) ∅ 0) as A.
  pose proof (admit_list_ok h (btree_iter c) ∅ 0) as B.
  destruct (foldl _ _ _) as [c' p'].
  destruct A as (S & -> & All).
  { intros i d ?%elem_of_btree_iter. by eapply lookup_weaken. }
  { apply map_empty_subseteq. }
  { apply chunk_source_index. }
  { apply chunk_source_payload. }
  { by rewrite payload_empty. }
  destruct B as (_ & _ & Or).
  { intros i d Hi%elem_of_btree_iter. eapply lookup_weaken in Hi; [|exact Hc].
    apply chunk_source_index in Hi. lia. }
  { apply chunks_ok_empty. lia. }
  assert (c' = c) as ->; [|done]. apply (anti_symm (⊆)); apply map_subseteq_spec; intros i d Hi.
  - apply Or in Hi as [Hi|Hi]; [by rewrite lookup_empty in Hi | by apply elem_of_btree_iter].
  - by apply All, elem_of_btree_iter.
Qed.

Lemma push_header_tracked s c now :
  in_window now -> tracking s false c ->
  let '(r, s') := push_header s h timestamp now in
  if bool_decide (c = chunk_source) then r = Ok (Some the_frame)
  else r = Ok None /\ tracking s' true c.
Proof.
  intros Hw T. unfold push_header. case_if; [lia|]. cbv zeta.
  fold (prune (track_loss (expire (set_completed_started_at s None) now) (fh_frame_id h) now) h).
  fold (header_state s h now). apply (header_state_tracked s c now Hw) in T.
  revert T. generalize (header_state s h now). clear s. intros s [R1 R2 Sc [Nf St]].
  destruct (match fas_orphans s !! fh_frame_id h with Some o => _ | None => _ end)
    as [chunks started] eqn:Eo.
  assert (chunks = c /\ in_window started) as [-> Hst].
  { by destruct St as [[-> E]|(st & E & Hs)]; rewrite E in Eo; injection Eo as <- <-. }
  cbn [set_orphans fas_frames]. rewrite Nf, admit_orphans by done.
  fold (insert_assembly (set_orphans s (delete (fh_frame_id h) (fas_orphans s))) (fh_frame_id h)
    (mkFrameAssembly h c started timestamp (payload c))).
  unfold insert_assembly. cbv zeta. set (s1 := set_frames _ _).
  assert (L1 : fas_frames s1 !! fh_frame_id h = Some (mkFrameAssembly h c started timestamp (payload c)))
    by apply lookup_insert_eq.
  destruct (finish_tracked s1 c started Sc L1) as [[E F]|[E F]].
  - destruct (finish_if_complete s1 _) as [r s2]. cbn in F. subst r. by rewrite bool_decide_true.
  - rewrite F, bool_decide_false by done. split; [done|].
    assert (Rm : (size (fas_frames s1) <= 16)%nat)
      by (apply (delete_room _ (fh_frame_id h)); cbn; by rewrite delete_insert_eq).
    unfold evict_oldest. rewrite (proj2 (Z.ltb_ge _ _)) by width_lia.
    split; cbn; try done.
    + by rewrite delete_insert_eq.
    + by rewrite delete_delete_eq.
    + split; [apply lookup_delete_eq|]. exists started. by rewrite lookup_insert_eq.
Qed.

(** ** The pushes of one frame, in any order *)

(** The header ([None]) or a chunk of the frame by its index, and when it arrives. *)
Definition push_part (s : FrameAssembler) (part : option nat * Instant)
    : result MediaAssemblyError (option AssembledFrame) * FrameAssembler :=
  match part with
  | (None, now) => push_header s h timestamp now
  | (Some i, now) =>
    push_chunk s (mkFrameChunk (fh_frame_id h) (Z.of_nat i) (default [] (cs !! i))) now
  end.

Fixpoint push_parts (s : FrameAssembler) (parts : list (option nat * Instant))
    : list (result MediaAssemblyError (option AssembledFrame)) * FrameAssembler :=
  match parts with
  | [] => ([], s)
  | part :: parts =>
    let '(r, s) := push_part s part in
    let '(rs, s) := push_parts s parts in (r :: rs, s)
  end.

Definition part_seen (seen : bool) (p : option nat) : bool :=
  match p with None => true | Some _ => seen end.
Definition part_chunks (c : chunk_map) (p : option nat) : chunk_map :=
  match p with None => c | Some i => <[Z.of_nat i := default [] (cs !! i)]> c end.

Lemma push_part_tracked s seen c p now :
  in_window now -> tracking s seen c ->
  match p with
  | None => seen = false
  | Some i => c !! Z.of_nat i = None /\ (i < length cs)%nat
  end ->
  let '(r, s') := push_part s (p, now) in
  if part_seen seen p && bool_decide (part_chunks c p = chunk_source) then r = Ok (Some the_frame)
  else r = Ok None /\ tracking s' (part_seen seen p) (part_chunks c p).
Proof.
  intros Hw T Hp. destruct p as [i|]; cbn [push_part part_seen part_chunks].
  - destruct Hp as [Ci Li]. apply lookup_lt_is_Some in Li as [d Hd]. rewrite Hd. cbn [default].
    apply push_chunk_tracked; try done. apply chunk_source_lookup. rewrite Nat2Z.id. split; [lia | done].
  - subst seen. by apply push_header_tracked.
Qed.

(** The parts still to come, when the header was [seen] and [c] has arrived. *)
Record pending (seen : bool) (c : chunk_map) (parts : list (option nat)) : Prop := {
  pe_nodup : NoDup parts;
  pe_header : seen = true <-> (None ∉ parts);
  pe_new : forall i, Some i ∈ parts -> c !! Z.of_nat i = None /\ (i < length cs)%nat;
  pe_all : forall i d, chunk_source !! i = Some d -> c !! i = Some d \/ Some (Z.to_nat i) ∈ parts
}.

Lemma pending_step seen c p parts :
  pending seen c (p :: parts) -> pending (part_seen seen p) (part_chunks c p) parts.
Proof.
  intros [[Np Nd]%NoDup_cons Hh Hn Ha]. destruct p as [i|]; cbn [part_seen part_chunks].
  - split; [done| |intros j Hj|intros j d Hj].
    + rewrite Hh. rewrite not_elem_of_cons. naive_solver.
    + assert (j <> i) by (intros ->; done). rewrite lookup_insert_ne by lia. apply Hn. by right.
    + destruct (decide (j = Z.of_nat i)) as [->|N].
      * left. rewrite lookup_insert_eq. apply chunk_source_lookup in Hj as [_ Hj].
        rewrite Nat2Z.id in Hj. by rewrite Hj.
      * rewrite lookup_insert_ne by done. apply Ha in Hj as Hj'.
        destruct Hj' as [?|[E|?]%elem_of_cons]; [auto| |auto].
        injection E as E. apply chunk_source_lookup in Hj. lia.
  - split; [done|done| |].
    + intros i Hi. apply Hn. by right.
    + intros j d Hj. apply Ha in Hj as [?|[?|?]%elem_of_cons]; auto; done.
Qed.

Lemma pending_done seen c : c ⊆ chunk_source -> pending seen c [] -> seen = true /\ c = chunk_source.
Proof.
  intros Sc [_ Hh _ Ha]. split; [apply Hh, not_elem_of_nil|].
  apply (anti_symm (⊆)); [done|]. apply map_subseteq_spec. intros i d Hi.
  by apply Ha in Hi as [?|?%elem_of_nil].
Qed.

Lemma pending_more seen c parts :
  parts <> [] -> pending seen c parts -> seen && bool_decide (c = chunk_source) = false.
Proof.
  intros Hne [_ Hh Hn _]. apply andb_false_iff. destruct parts as [|[i|] parts]; [done|..].
  - right. apply bool_decide_false. intros ->. destruct (Hn i) as [E L]; [left|].
    apply lookup_lt_is_Some in L as [d Hd].
    enough (chunk_source !! Z.of_nat i = Some d) by congruence.
    apply chunk_source_lookup. rewrite Nat2Z.id. split; [lia|done].
  - left. apply not_true_is_false. intros E. apply Hh in E. destruct E. left.
Qed.

Lemma push_parts_tracked parts s seen c :
  Forall in_window parts.*2 -> tracking s seen c -> pending seen c parts.*1 -> parts <> [] ->
  fst (push_parts s parts) = replicate (length parts - 1) (Ok None) ++ [Ok (Some the_frame)].
Proof.
  revert s seen c. induction parts as [|[p now] parts IH]; intros s seen c Hw T Pd Hne; [done|].
  clear Hne. cbn [fmap list_fmap fst snd] in *. apply Forall_cons in Hw as [Hnow Hw].
  pose proof (pending_step _ _ _ _ Pd) as Pd'.
  assert (Hp : match p with
    | None => seen = false
    | Some i => c !! Z.of_nat i = None /\ (i < length cs)%nat end).
  { destruct Pd as [_ Hh Hn _]. destruct p as [i|]; [apply Hn; left|].
    apply not_true_is_false. intros E. apply Hh in E. destruct E. left. }
  pose proof (push_part_tracked s seen c p now Hnow T Hp) as St. cbn [push_parts].
  destruct (push_part s (p, now)) as [r s1]. destruct parts as [|q parts].
  - assert (Sub : part_chunks c p ⊆ chunk_source).
    { destruct p as [i|]; cbn; [|apply T]. apply insert_subseteq_l; [|apply T].
      destruct Hp as [_ [d Hd]%lookup_lt_is_Some]. apply chunk_source_lookup.
      rewrite Nat2Z.id, Hd. split; [lia|done]. }
    destruct (pending_done _ _ Sub Pd') as [E1 E2]. rewrite E1, bool_decide_true in St by done.
    cbn in St. by subst r.
  - rewrite (fun N => pending_more _ _ _ N Pd') in St by done. destruct St as [-> T'].
    specialize (IH s1 _ _ Hw T' Pd' (fun E => nil_cons (eq_sym E))).
    destruct (push_parts s1 (q :: parts)) as [rs s2]. cbn [fst] in *. rewrite IH.
    cbn [length]. by rewrite !Nat.sub_succ, !Nat.sub_0_r.
Qed.

End OneFrame.

(** A frame is delivered whatever order its packets arrive in.  Take any
    assembler with a free assembly slot and a free orphan slot, and a header
    whose chunk count and size are those of the chunks [cs]; push the header
    and the chunks in any order, within the one-second assembly timeout.  Then
    every push but the last returns nothing and the last returns the frame,
    with the header's timestamp and the concatenation of the chunks. *)
Theorem frame_delivered_in_any_order (s : FrameAssembler) (h : FrameHeader) (cs : list (list byte))
    (timestamp : Z) (t0 : Instant) (parts : list (option nat * Instant)) :
  fas_frames s !! fh_frame_id h = None -> fas_orphans s !! fh_frame_id h = None ->
  (size (fas_frames s) < 16)%nat -> (size (fas_orphans s) < 16)%nat ->
  len cs = fh_total_chunks h -> len (concat cs) = fh_total_size h ->
  1 <= fh_total_chunks h <= MAX_CHUNKS_PER_FRAME -> 1 <= fh_total_size h <= MAX_FRAME_BYTES ->
  parts.*1 ≡ₚ None :: (Some <$> seq 0 (length cs)) -> Forall (in_window t0) parts.*2 ->
  fst (push_parts h cs timestamp s parts) =
  replicate (length cs) (Ok None) ++ [Ok (Some (mkAssembledFrame h (concat cs) timestamp))].
Proof.
  intros Nf No Rf Ro Hc Hs Bc Bs Pm Hw.
  assert (L : length parts = S (length cs))
    by (apply Permutation_length in Pm; by rewrite length_fmap in Pm; cbn in Pm;
        rewrite length_fmap, length_seq in Pm).
  rewrite (push_parts_tracked h cs timestamp t0 Hc Hs Bc Bs parts s false ∅).
  - rewrite L. by rewrite Nat.sub_succ, Nat.sub_0_r.
  - done.
  - split; rewrite ?delete_id by done; [lia..|apply map_empty_subseteq|]. split; [done|auto].
  - split.
    + rewrite Pm. apply NoDup_cons. split; [by intros (?&?&?)%list_elem_of_fmap|].
      apply NoDup_fmap; [apply _|]. apply NoDup_seq.
    + rewrite Pm. split; [done|]. intros N. destruct N. left.
    + intros i. rewrite Pm. intros [?|(j & [= ->] & Hj%elem_of_seq)%list_elem_of_fmap]%elem_of_cons; [done|].
      split; [apply lookup_empty | lia].
    + intros i d Hi. right. rewrite Pm. right. apply list_elem_of_fmap_2, elem_of_seq.
      apply chunk_source_lookup in Hi as [Hi L'%lookup_lt_Some]. lia.
  - by destruct parts.
Qed.

(** ** Loss accounting *)

Definition loss_sums (l : list (Instant * Z * Z)) : Z * Z :=
  foldl (fun '(lost, total) '(_, entry_lost, entry_total) =>
    (lost + entry_lost, total + entry_total)) (0, 0) l.

Definition track_all (s : FrameAssembler) (headers : list (Z * Instant)) : FrameAssembler :=
  foldl (fun s '(id, now) => track_loss s (wrapping_add32 id 0) now) s headers.

(** Frame numbers as the host counts them, before they wrap at 32 bits; each
    is ahead of the previous one by less than half the range. *)
Fixpoint advancing (u : Z) (ids : list Z) : Prop :=
  match ids with
  | [] => True
  | v :: ids => u < v < u + SERIAL_HALF_RANGE /\ advancing v ids
  end.

Lemma loss_sums_snoc l t a b :
  loss_sums (l ++ [(t, a, b)]) = ((loss_sums l).1 + a, (loss_sums l).2 + b).
Proof. unfold loss_sums. rewrite foldl_app. cbn. by destruct (foldl _ _ l). Qed.

(** Samples within five seconds of [t0] are all kept. *)
Definition recent (t0 : Instant) (l : list (Instant * Z * Z)) : Prop :=
  len l <= MAX_LOSS_SAMPLES /\ Forall (fun e => t0 <= e.1.1) l.

Lemma trim_recent t0 l now : recent t0 l -> now <= t0 + from_secs 5 -> trim_loss l now = l.
Proof.
  intros [Hl Hr] Hn. destruct l as [|[[t a] b] l]; [done|]. cbn [trim_loss].
  apply Forall_cons in Hr as [Ht _]. cbn in Ht.
  rewrite (proj2 (Z.ltb_ge _ _)) by done. cbn [orb].
  rewrite (proj2 (Z.ltb_ge _ _)); [done|]. unfold saturating_duration_since. width_lia.
Qed.

Lemma track_step s u v t0 now :
  fas_expected_frame_id s = Some (wrapping_add32 u 1) -> u < v < u + SERIAL_HALF_RANGE ->
  recent t0 (fas_recent_loss s) -> len (fas_recent_loss s) < MAX_LOSS_SAMPLES ->
  t0 <= now <= t0 + from_secs 5 ->
  track_loss s (wrapping_add32 v 0) now =
  set_loss s (Some (wrapping_add32 v 1)) (fas_recent_loss s ++ [(now, v - u - 1, v - u)]).
Proof.
  intros E Hv Hr Hl Hn. unfold track_loss. rewrite E.
  assert (H31 : SERIAL_HALF_RANGE = 2147483648) by done.
  assert (E1 : wrapping_sub32 (wrapping_add32 v 0) (wrapping_add32 u 1) = v - u - 1).
  { unfold wrapping_sub32, wrapping_add32. rewrite Zminus_mod_idemp_l, Zminus_mod_idemp_r.
    replace (v + 0 - (u + 1)) with (v - u - 1) by lia. apply Z.mod_small. lia. }
  rewrite E1. rewrite (proj2 (Z.ltb_lt _ _)) by lia.
  assert (E2 : wrapping_add32 (wrapping_add32 v 0) 1 = wrapping_add32 v 1).
  { unfold wrapping_add32. rewrite Zplus_mod_idemp_l. f_equal. lia. }
  assert (E3 : wrapping_sub32 (wrapping_add32 v 1) (wrapping_add32 u 1) = v - u).
  { unfold wrapping_sub32, wrapping_add32. rewrite Zminus_mod_idemp_l, Zminus_mod_idemp_r.
    replace (v + 1 - (u + 1)) with (v - u) by lia. apply Z.mod_small. lia. }
  rewrite E2. unfold serial_not_before. rewrite E3.
  assert (E4 : (if negb (wrapping_add32 v 1 =? wrapping_add32 u 1) && (v - u <? SERIAL_HALF_RANGE)
    then wrapping_add32 v 1 else wrapping_add32 u 1) = wrapping_add32 v 1).
  { rewrite (proj2 (Z.ltb_lt _ _)) by lia. rewrite andb_true_r.
    destruct (wrapping_add32 v 1 =? wrapping_add32 u 1) eqn:C; [by bool_prop | done]. }
  rewrite E4. replace (v - u - 1 + 1) with (v - u) by lia. f_equal.
  apply (trim_recent t0); [|lia]. destruct Hr as [_ Hr]. split.
  - rewrite len_app, len_cons, len_nil. lia.
  - apply Forall_app. split; [done|]. apply Forall_singleton. cbn. lia.
Qed.

Lemma track_all_sums t0 hs s u :
  fas_expected_frame_id s = Some (wrapping_add32 u 1) -> advancing u hs.*1 ->
  recent t0 (fas_recent_loss s) -> len (fas_recent_loss s) + len hs <= MAX_LOSS_SAMPLES ->
  Forall (fun t => t0 <= t <= t0 + from_secs 5) hs.*2 ->
  let l := fas_recent_loss (track_all s hs) in
  let d := default u (last hs.*1) - u in
  recent t0 l /\ loss_sums l =
    ((loss_sums (fas_recent_loss s)).1 + d - len hs, (loss_sums (fas_recent_loss s)).2 + d).
Proof.
  revert s u. induction hs as [|[v now] hs IH]; intros s u E Ad Hr Hl Hw.
  { cbn. split; [done|]. rewrite len_nil. destruct (loss_sums _). cbn. f_equal; lia. }
  cbn [fmap list_fmap fst snd advancing] in *. destruct Ad as [Hv Ad].
  apply Forall_cons in Hw as [Hn Hw]. rewrite len_cons in *.
  cbn [track_all foldl]. rewrite (track_step s u v t0 now) by (done || (len_facts; lia)).
  set (s1 := set_loss _ _ _).
  destruct (IH s1 v) as [R Sm]; [done | done | | | done |].
  - destruct Hr as [_ Hr]. cbn. split; [rewrite len_app, len_cons, len_nil; len_facts; lia|].
    apply Forall_app. split; [done|]. apply Forall_singleton. cbn. lia.
  - cbn. rewrite len_app, len_cons, len_nil. lia.
  - split; [exact R|]. fold (track_all s1 hs). rewrite Sm. subst s1. cbn [set_loss fas_recent_loss].
    rewrite loss_sums_snoc. cbn [fst snd].
    assert (Ld : default u (last (v :: hs.*1)) = default v (last hs.*1))
      by (rewrite last_cons; by destruct (last hs.*1)).
    change (list_fmap (Z * Instant)%type Z fst hs) with hs.*1. rewrite Ld. f_equal; lia.
Qed.

(** The loss counters are exact.  When headers of frames numbered by the
    host [u], then any advancing sequence (32-bit wrap-around included), arrive
    within five seconds and at most 4096 of them, the two sums the loss ratio
    divides are: total, the number of frames the host numbered from the first
    to the last one received; lost, that number less the frames received. *)
Theorem loss_counts_exact (t0 now u : Z) (hs : list (Z * Instant)) :
  advancing u hs.*1 -> len hs < MAX_LOSS_SAMPLES ->
  Forall (fun t => t0 <= t <= t0 + from_secs 5) (t0 :: hs.*2) -> now <= t0 + from_secs 5 ->
  let '(lost, total, _) := loss_counts (track_all FrameAssembler_default ((u, t0) :: hs)) now in
  let numbered := default u (last hs.*1) - u + 1 in
  total = numbered /\ lost = numbered - (1 + len hs).
Proof.
  intros Ad Hl [_ Hw]%Forall_cons Hn. cbn [track_all foldl].
  assert (E : track_loss FrameAssembler_default (wrapping_add32 u 0) t0 =
    set_loss FrameAssembler_default (Some (wrapping_add32 u 1)) [(t0, 0, 1)]).
  { unfold track_loss. cbn [FrameAssembler_default fas_expected_frame_id fas_recent_loss app].
    f_equal.
    - f_equal. unfold wrapping_add32. rewrite Zplus_mod_idemp_l. f_equal. lia.
    - apply (trim_recent t0); [|width_lia]. split; [rewrite len_cons, len_nil; width_lia|].
      apply Forall_singleton. cbn. lia. }
  rewrite E. set (s1 := set_loss _ _ _). fold (track_all s1 hs).
  destruct (track_all_sums t0 hs s1 u) as [R Sm]; try done.
  - change (fas_recent_loss s1) with [(t0, 0, 1)].
    split; [rewrite len_cons, len_nil; width_lia|]. apply Forall_singleton. cbn. lia.
  - cbn. rewrite len_cons, len_nil. lia.
  - unfold loss_counts. rewrite (trim_recent t0) by (done || lia).
    fold (loss_sums (fas_recent_loss (track_all s1 hs))). rewrite Sm. cbn. lia.
Qed.

(** ** Witnesses *)

Definition example_cs : list (list byte) := [str_bytes "ab"; str_bytes "cde"; str_bytes "f"].
Definition example_header : FrameHeader := mkFrameHeader 7 1920 1080 true 3 6.
Definition example_ops : list AssemblerOp :=
  [OpChunk (mkFrameChunk 7 2 (str_bytes "f")) 5; OpHeader example_header 11 6;
   OpChunk (mkFrameChunk 7 0 (str_bytes "ab")) 7; OpChunk (mkFrameChunk 7 0 (str_bytes "zz")) 8;
   OpChunk (mkFrameChunk 7 1 (str_bytes "cde")) 9].

Lemma assembler_stays_bounded_witness :
  Forall op_wf example_ops /\
  let s := snd (assembler_run FrameAssembler_default example_ops) in
  (size (fas_frames s) <= 16)%nat.
Proof.
  assert (W : Forall op_wf example_ops) by (repeat constructor; cbn; lia).
  split; [exact W|]. apply (assembler_stays_bounded example_ops W).
Defined.

Lemma assembler_returns_sent_chunks_witness :
  let f := mkAssembledFrame example_header (str_bytes "abcdef") 11 in
  f ∈ fst (assembler_run FrameAssembler_default example_ops) /\ len (asf_data f) = 6.
Proof.
  assert (W : Forall op_wf example_ops) by (repeat constructor; cbn; lia).
  assert (H : mkAssembledFrame example_header (str_bytes "abcdef") 11 ∈
    fst (assembler_run FrameAssembler_default example_ops)) by (vm_compute; left).
  split; [exact H|].
  exact (proj1 (proj2 (assembler_returns_sent_chunks example_ops _ W H))).
Defined.

Lemma frame_delivered_in_any_order_witness :
  fst (push_parts example_header example_cs 11 FrameAssembler_default
    [(Some 2%nat, 100); (None, 300); (Some 0%nat, 200); (Some 1%nat, 900)]) =
  replicate 3 (Ok None) ++ [Ok (Some (mkAssembledFrame example_header (concat example_cs) 11))].
Proof.
  refine (frame_delivered_in_any_order FrameAssembler_default example_header example_cs 11 0
    [(Some 2%nat, 100); (None, 300); (Some 0%nat, 200); (Some 1%nat, 900)] _ _ _ _ _ _ _ _ _ _).
  - apply lookup_empty.
  - apply lookup_empty.
  - cbn. rewrite map_size_empty. lia.
  - cbn. rewrite map_size_empty. lia.
  - reflexivity.
  - reflexivity.
  - vm_compute. split; discriminate.
  - vm_compute. split; discriminate.
  - cbn. solve_Permutation.
  - repeat constructor; vm_compute; congruence.
Defined.

Lemma loss_counts_exact_witness :
  let '(lost, total, _) := loss_counts (track_all FrameAssembler_default
    [(4294967294, 10); (4294967295, 20); (4294967299, 30)]) 40 in total = 6 /\ lost = 3.
Proof.
  apply (loss_counts_exact 10 40 4294967294 [(4294967295, 20); (4294967299, 30)]).
  - vm_compute. split_and!; done.
  - vm_compute. done.
  - repeat (apply Forall_cons; split; [vm_compute; split; congruence|]). apply Forall_nil. done.
  - vm_compute. discriminate.
Defined.
