(* ===== verification/HostSender.v ===== *)
(** * The host's UDP sender

    [clients/rust/maho-host/src/session.rs], [UdpSender]: numbering, splitting and
    sealing of video frames, audio and cursor updates into datagrams of at most
    1200 bytes.  The socket and the clocks are parameters; the packet trace is a
    log and is not modelled. *)

From S2P Require Import Prelude Codec Packet Media Transport UdpGcm.

Definition UDP_PAYLOAD_BUDGET : Z := 1200.
Definition ENCRYPTED_DATAGRAM_OVERHEAD : Z := PACKET_HEADER_SIZE + NONCE_SIZE + TAG_SIZE.
Definition MAX_SENDER_PLAINTEXT_PAYLOAD : Z := UDP_PAYLOAD_BUDGET - ENCRYPTED_DATAGRAM_OVERHEAD.
Definition SENDER_MAX_VIDEO_CHUNK_BYTES : Z := MAX_SENDER_PLAINTEXT_PAYLOAD - FrameChunk_HEADER_SIZE.
Definition SENDER_MAX_AUDIO_FRAGMENT_BYTES : Z :=
  MAX_SENDER_PLAINTEXT_PAYLOAD - Z.of_nat AudioFragmentHeader_SIZE.

(** The errors of the sender: those of [SessionError] that it can return. *)
Inductive SenderError : Type :=
| SE_Io
| SE_Codec (e : CodecError)
| SE_Cipher (e : DatagramError)
| SE_Store (message : string).

Record VideoFrame : Type := mkVideoFrame {
  vf_data : list byte;
  vf_is_key_frame : bool;
  vf_capture_at : Instant;
  vf_encode_started_at : Instant;
  vf_encode_completed_at : Instant
}.

Record UdpSender : Type := mkUdpSender {
  us_trace_keyframe : bool;
  us_sequence : Z;
  us_frame_id : Z;
  us_audio_frame_id : Z;
  us_payload : list byte;
  us_datagram : list byte
}.

Definition UdpSender_default : UdpSender := mkUdpSender false 0 0 0 [] [].

Definition set_sequence (s : UdpSender) (n : Z) : UdpSender :=
  mkUdpSender (us_trace_keyframe s) n (us_frame_id s) (us_audio_frame_id s) (us_payload s) (us_datagram s).
Definition set_frame (s : UdpSender) (id : Z) (key : bool) : UdpSender :=
  mkUdpSender key (us_sequence s) id (us_audio_frame_id s) (us_payload s) (us_datagram s).
Definition set_audio (s : UdpSender) (id : Z) : UdpSender :=
  mkUdpSender (us_trace_keyframe s) (us_sequence s) (us_frame_id s) id (us_payload s) (us_datagram s).
Definition set_payload (s : UdpSender) (p : list byte) : UdpSender :=
  mkUdpSender (us_trace_keyframe s) (us_sequence s) (us_frame_id s) (us_audio_frame_id s) p (us_datagram s).
Definition set_datagram (s : UdpSender) (d : list byte) : UdpSender :=
  mkUdpSender (us_trace_keyframe s) (us_sequence s) (us_frame_id s) (us_audio_frame_id s) (us_payload s) d.

(** What the sender did to the outside: datagrams given to the socket, and
    pauses. *)
Inductive NetEvent : Type := Sent (datagram : list byte) | Slept (d : Duration).

Definition monotonic_us (origin value : Instant) : Z :=
  (default 0 (checked_duration_since value origin) / 1000) mod 18446744073709551616.

Section Sender.

(** The cipher, the system clock in milliseconds, the monotonic clock and the
    socket; each is asked with what was done before. *)
Context (encrypt : list byte -> list byte -> list byte -> list byte -> option (list byte * list byte)).
Context (unix_ms_u64 : list NetEvent -> Z) (Instant_now : list NetEvent -> Instant).
Context (send_to : list NetEvent -> list byte -> bool).

Definition unix_ms_u32 (log : list NetEvent) : Z := unix_ms_u64 log mod 4294967296.

(** The sender, its cipher, and the log of its effects. *)
Definition sender_state : Type := UdpSender * DatagramCipher * list NetEvent.

Definition send_packet (st : sender_state) (packet_type : PacketType) (payload : list byte)
    : result SenderError unit * sender_state :=
  let '(s, c, log) := st in
  let s := set_sequence s (wrapping_add32 (us_sequence s) 1) in
  let header := mkPacketHeader packet_type (us_sequence s) (unix_ms_u32 log) 0 in
  let header := PacketHeader_to_bytes header in
  let '(r, c, datagram) := seal_into encrypt c payload header header in
  let s := set_datagram s datagram in
  match r with
  | Err e => (Err (SE_Cipher e), (s, c, log))
  | Ok _ =>
    if send_to log datagram then (Ok tt, (s, c, log ++ [Sent datagram]))
    else (Err SE_Io, (s, c, log))
  end.

(** [mem::take] of the scratch buffer, the packet, and the buffer put back. *)
Definition send_scratch (st : sender_state) (packet_type : PacketType) (payload : list byte)
    : result SenderError unit * sender_state :=
  let '(s, c, log) := st in
  let '(sent, (s, c, log)) := send_packet (set_payload s [], c, log) packet_type payload in
  (sent, (set_payload s payload, c, log)).

Fixpoint send_chunks (st : sender_state) (frame_id chunk_count index : Z) (data : list (list byte))
    : result SenderError unit * sender_state :=
  match data with
  | [] => (Ok tt, st)
  | bytes :: data =>
    let '(s, c, log) := st in
    let log :=
      if (16 <? chunk_count) && (0 <? index) && (index mod 8 =? 0)
      then log ++ [Slept (from_millis 1)] else log in
    let payload := le_bytes 4 frame_id ++ le_bytes 2 (index mod 65536) ++ bytes in
    match send_scratch (s, c, log) PT_FrameChunk payload with
    | (Ok _, st) => send_chunks st frame_id chunk_count (index + 1) data
    | (Err e, st) => (Err e, st)
    end
  end.

Definition send_frame (st : sender_state) (width height : Z) (frame : VideoFrame)
    (session_origin : Instant) : result SenderError unit * sender_state :=
  let '(s, c, log) := st in
  let chunk_count := div_ceil (len (vf_data frame)) SENDER_MAX_VIDEO_CHUNK_BYTES in
  let frame_id := wrapping_add32 (us_frame_id s) 1 in
  if U16_MAX <? chunk_count then (Err (SE_Store "encoded frame has too many chunks"), st)
  else if U32_MAX <? len (vf_data frame) then (Err (SE_Store "encoded frame is too large"), st)
  else
    let header := mkFrameHeader frame_id (Z.min width U16_MAX) (Z.min height U16_MAX)
      (vf_is_key_frame frame) chunk_count (len (vf_data frame)) in
    match FrameHeader_encode header with
    | Err e => (Err (SE_Codec e), st)
    | Ok encoded_header =>
      let s := set_frame s frame_id (vf_is_key_frame frame) in
      match send_packet (s, c, log) PT_FrameHeader encoded_header with
      | (Err e, st) => (Err e, st)
      | (Ok _, st) =>
        match send_chunks st frame_id chunk_count 0
                (chunks (vf_data frame) SENDER_MAX_VIDEO_CHUNK_BYTES) with
        | (Err e, st) => (Err e, st)
        | (Ok _, st) =>
          let send_at := Instant_now st.2 in
          let stats := mkTimestampStats frame_id
            (monotonic_us session_origin (vf_capture_at frame))
            (monotonic_us session_origin (vf_encode_started_at frame))
            (monotonic_us session_origin (vf_encode_completed_at frame))
            (monotonic_us session_origin send_at) in
          send_packet st PT_Ping (TimestampStats_encode stats)
        end
      end
    end.

Definition send_cursor (st : sender_state) (cursor : CursorUpdate)
    : result SenderError unit * sender_state :=
  match CursorUpdate_encode cursor with
  | Err e => (Err (SE_Codec e), st)
  | Ok payload => send_packet st PT_CursorUpdate payload
  end.

Fixpoint send_fragments (st : sender_state) (frame_id fragment_count index : Z)
    (data : list (list byte)) : result SenderError unit * sender_state :=
  match data with
  | [] => (Ok tt, st)
  | bytes :: data =>
    match AudioFragmentHeader_to_bytes (mkAudioFragmentHeader frame_id (index mod 65536) fragment_count) with
    | Err e => (Err (SE_Codec e), st)
    | Ok header =>
      match send_scratch st PT_AudioFrame (header ++ bytes) with
      | (Ok _, st) => send_fragments st frame_id fragment_count (index + 1) data
      | (Err e, st) => (Err e, st)
      end
    end
  end.

Definition send_audio (st : sender_state) (bytes : list byte) : result SenderError unit * sender_state :=
  match bytes with
  | [] => (Ok tt, st)
  | _ =>
    let '(s, c, log) := st in
    let s := set_audio s (wrapping_add32 (us_audio_frame_id s) 1) in
    let fragment_count := div_ceil (len bytes) SENDER_MAX_AUDIO_FRAGMENT_BYTES in
    if U16_MAX <? fragment_count
    then (Err (SE_Store "audio frame has too many fragments"), (s, c, log))
    else send_fragments (s, c, log) (us_audio_frame_id s) fragment_count 0
           (chunks bytes SENDER_MAX_AUDIO_FRAGMENT_BYTES)
  end.

End Sender.

#[export] Hint Unfold UDP_PAYLOAD_BUDGET ENCRYPTED_DATAGRAM_OVERHEAD MAX_SENDER_PLAINTEXT_PAYLOAD
  SENDER_MAX_VIDEO_CHUNK_BYTES SENDER_MAX_AUDIO_FRAGMENT_BYTES FrameChunk_HEADER_SIZE
  AudioFragmentHeader_SIZE PACKET_HEADER_SIZE : limits.

(** ** One packet *)

(** The datagrams given to the socket, in order. *)
Definition sent_of (log : list NetEvent) : list (list byte) :=
  omap (fun e => match e with Sent d => Some d | Slept _ => None end) log.

Lemma sent_of_app l1 l2 : sent_of (l1 ++ l2) = sent_of l1 ++ sent_of l2.
Proof. apply omap_app. Qed.

Section SenderLaws.

Context (encrypt : list byte -> list byte -> list byte -> list byte -> option (list byte * list byte)).
Context (unix_ms_u64 : list NetEvent -> Z) (Instant_now : list NetEvent -> Instant).
Context (send_to : list NetEvent -> list byte -> bool).

Abbreviation send_packet := (send_packet encrypt unix_ms_u64 send_to).
Abbreviation send_scratch := (send_scratch encrypt unix_ms_u64 send_to).
Abbreviation send_chunks := (send_chunks encrypt unix_ms_u64 send_to).
Abbreviation send_fragments := (send_fragments encrypt unix_ms_u64 send_to).
Abbreviation send_frame := (send_frame encrypt unix_ms_u64 Instant_now send_to).
Abbreviation send_cursor := (send_cursor encrypt unix_ms_u64 send_to).
Abbreviation send_audio := (send_audio encrypt unix_ms_u64 send_to).

Definition sender_wf (st : sender_state) : Prop := cipher_wf st.1.2 /\ u32_ok (us_sequence st.1.1).

(** [st'] is reached from [st] by giving the datagrams [ds] to the socket: the
    messages [ms] sealed in order by the cipher and numbered consecutively. *)
Record transmitted (st : sender_state) (ms : list (PacketHeader * list byte))
    (ds : list (list byte)) (st' : sender_state) : Prop := {
  tm_seal : seal_all encrypt st.1.2 ms = (Ok <$> ds, st'.1.2);
  tm_sent : sent_of st'.2 = sent_of st.2 ++ ds;
  tm_numbers : forall i m, ms !! i = Some m ->
    ph_sequence m.1 = wrapping_add32 (us_sequence st.1.1) (Z.of_nat i + 1) /\
    u32_ok (ph_timestamp_ms m.1) /\ ph_flags m.1 = 0;
  tm_sequence : us_sequence st'.1.1 = wrapping_add32 (us_sequence st.1.1) (len ms);
  tm_wf : sender_wf st'
}.

Lemma wrapping_add32_assoc a b c : wrapping_add32 (wrapping_add32 a b) c = wrapping_add32 a (b + c).
Proof. unfold wrapping_add32. rewrite Zplus_mod_idemp_l. f_equal. lia. Qed.

Lemma wrapping_add32_0 a : u32_ok a -> wrapping_add32 a 0 = a.
Proof. unfold wrapping_add32, u32_ok. intros. rewrite Z.add_0_r. by apply Z.mod_small. Qed.

Lemma transmitted_nil st : sender_wf st -> transmitted st [] [] st.
Proof.
  intros [W U]. split; try done; [by rewrite app_nil_r | by rewrite len_nil, wrapping_add32_0].
Qed.

Lemma seal_all_app c ms1 ms2 rs1 c1 rs2 c2 :
  seal_all encrypt c ms1 = (rs1, c1) -> seal_all encrypt c1 ms2 = (rs2, c2) ->
  seal_all encrypt c (ms1 ++ ms2) = (rs1 ++ rs2, c2).
Proof.
  revert c rs1. induction ms1 as [|[h p] ms1 IH]; intros c rs1; cbn.
  - by intros [= <- <-].
  - destruct (seal_datagram encrypt c h p) as [r c3]. destruct (seal_all encrypt c3 ms1) as [rs c4] eqn:E.
    intros [= <- <-] E2. by rewrite (IH c3 rs E E2).
Qed.

Lemma transmitted_trans st1 ms1 ds1 st2 ms2 ds2 st3 :
  transmitted st1 ms1 ds1 st2 -> transmitted st2 ms2 ds2 st3 ->
  transmitted st1 (ms1 ++ ms2) (ds1 ++ ds2) st3.
Proof.
  intros [S1 T1 N1 Q1 W1] [S2 T2 N2 Q2 W2]. split.
  - rewrite fmap_app. by eapply seal_all_app.
  - by rewrite T2, T1, app_assoc.
  - intros i m [Hm|[L Hm]]%lookup_app_Some; [by apply N1|].
    destruct (N2 _ _ Hm) as (Hs & ?). split; [|done]. rewrite Hs, Q1, wrapping_add32_assoc.
    f_equal. unfold len. lia.
  - rewrite Q2, Q1, wrapping_add32_assoc. by rewrite len_app.
  - done.
Qed.

(** What an operation that may fail did: it gave to the socket the sealing of
    some messages, all of them if it succeeded. *)
Lemma send_packet_spec st t p r st' :
  sender_wf st -> send_packet st t p = (r, st') ->
  sender_wf st' /\
  us_frame_id st'.1.1 = us_frame_id st.1.1 /\ us_audio_frame_id st'.1.1 = us_audio_frame_id st.1.1 /\
  us_payload st'.1.1 = us_payload st.1.1 /\
  match r with
  | Ok _ => exists h d, ph_packet_type h = t /\ transmitted st [(h, p)] [d] st' /\
      st'.2 = st.2 ++ [Sent d]
  | Err _ => st'.2 = st.2
  end.
Proof.
  destruct st as [[s c] log]. intros [W U]. unfold HostSender.send_packet. cbn [fst snd] in *.
  set (s1 := set_sequence s _). set (h := mkPacketHeader t _ _ 0).
  assert (U1 : u32_ok (us_sequence s1)) by apply wrapping_add32_range.
  destruct (seal_into encrypt c p (PacketHeader_to_bytes h) (PacketHeader_to_bytes h)) as [[rs c1] d] eqn:E.
  assert (Sd : seal_datagram encrypt c h p = (match rs with Ok _ => Ok d | Err e => Err e end, c1)).
  { unfold seal_datagram, PacketHeader_encode. rewrite E. by destruct rs as [[]|]. }
  destruct (seal_datagram_spec _ _ _ _ _ _ W Sd) as (W1 & _).
  destruct rs as [[]|e]; [|intros [= <- <-]; by split_and!].
  destruct (send_to log d); intros [= <- <-]; [|by split_and!].
  split_and!; try done. exists h, d. split; [done|]. split; [|done]. split; cbn [fst snd].
  - cbn. by rewrite Sd.
  - by rewrite sent_of_app.
  - intros [|i] m; [|done]. intros [= <-]. cbn. split_and!; [done|..|done].
    unfold unix_ms_u32. apply Z.mod_pos_bound. lia.
  - cbn. by rewrite len_cons, len_nil.
  - done.
Qed.

Lemma send_scratch_spec st t p r st' :
  sender_wf st -> send_scratch st t p = (r, st') ->
  sender_wf st' /\
  us_frame_id st'.1.1 = us_frame_id st.1.1 /\ us_audio_frame_id st'.1.1 = us_audio_frame_id st.1.1 /\
  match r with
  | Ok _ => exists h d, ph_packet_type h = t /\ transmitted st [(h, p)] [d] st' /\
      st'.2 = st.2 ++ [Sent d]
  | Err _ => st'.2 = st.2
  end.
Proof.
  destruct st as [[s c] log]. intros W. unfold HostSender.send_scratch.
  destruct (send_packet (set_payload s [], c, log) t p) as [r1 [[s1 c1] log1]] eqn:E.
  intros [= <- <-].
  apply send_packet_spec in E as (W1 & F & A & _ & R); [|exact W]. cbn in *. split_and!; try done.
  destruct r1 as [[]|e]; [|done]. destruct R as (h & d & Ht & [S T N Q _] & L).
  exists h, d. split; [done|]. split; [|done]. by split.
Qed.

(** ** The datagram budget *)

Context (Hl : aead_lengths encrypt).

Definition fits (e : NetEvent) : Prop :=
  match e with Sent d => len d <= UDP_PAYLOAD_BUDGET | Slept _ => True end.

(** From [st] to [st'] only datagrams within the budget were sent. *)
Definition within (st st' : sender_state) : Prop :=
  sender_wf st' /\ exists log, st'.2 = st.2 ++ log /\ Forall fits log.

Lemma within_refl st : sender_wf st -> within st st.
Proof. intros W. split; [done|]. exists []. by rewrite app_nil_r. Qed.

Lemma within_trans st1 st2 st3 : within st1 st2 -> within st2 st3 -> within st1 st3.
Proof.
  intros [_ (l1 & E1 & F1)] [W (l2 & E2 & F2)]. split; [done|]. exists (l1 ++ l2).
  rewrite E2, E1, app_assoc. split; [done|]. by apply Forall_app.
Qed.

Lemma transmitted_fits st h p d st' :
  sender_wf st -> transmitted st [(h, p)] [d] st' -> len p <= MAX_SENDER_PLAINTEXT_PAYLOAD ->
  fits (Sent d).
Proof.
  intros [W _] [S _ _ _ _] Hp. cbn in S. destruct (seal_datagram encrypt st.1.2 h p) as [r c] eqn:E.
  injection S as -> _. destruct (seal_datagram_spec _ _ _ _ _ _ W E) as (_ & _ & _ & _ & _ & ct & tag & _ & En & ->).
  destruct (Hl _ _ _ _ _ _ En) as [L1 L2]. cbn. rewrite !len_app, L1, L2, PacketHeader_to_bytes_len.
  unfold len at 1. rewrite nonce_of_length by apply W. width_lia.
Qed.

Lemma send_packet_within st t p r st' :
  sender_wf st -> send_packet st t p = (r, st') -> len p <= MAX_SENDER_PLAINTEXT_PAYLOAD ->
  within st st'.
Proof.
  intros W E Hp. destruct (send_packet_spec _ _ _ _ _ W E) as (W1 & _ & _ & _ & R).
  split; [done|]. destruct r; [|exists []; by rewrite app_nil_r].
  destruct R as (h & d & _ & T & ->). exists [Sent d]. split; [done|]. apply Forall_singleton.
  exact (transmitted_fits _ _ _ _ _ W T Hp).
Qed.

Lemma send_scratch_within st t p r st' :
  sender_wf st -> send_scratch st t p = (r, st') -> len p <= MAX_SENDER_PLAINTEXT_PAYLOAD ->
  within st st'.
Proof.
  intros W E Hp. destruct (send_scratch_spec _ _ _ _ _ W E) as (W1 & _ & _ & R).
  split; [done|]. destruct r; [|exists []; by rewrite app_nil_r].
  destruct R as (h & d & _ & T & ->). exists [Sent d]. split; [done|]. apply Forall_singleton.
  exact (transmitted_fits _ _ _ _ _ W T Hp).
Qed.

(** ** The loops *)

(** The packets of a frame's chunks, from index [i] on. *)
Definition chunk_payload (frame_id : Z) (i : Z) (c : list byte) : list byte :=
  FrameChunk_bytes (mkFrameChunk frame_id (i mod 65536) c).
Fixpoint chunk_packets (frame_id i : Z) (data : list (list byte)) : list (PacketType * list byte) :=
  match data with
  | [] => []
  | c :: data => (PT_FrameChunk, chunk_payload frame_id i c) :: chunk_packets frame_id (i + 1) data
  end.

(** Messages by packet type and payload. *)
Definition packets_of (ms : list (PacketHeader * list byte)) : list (PacketType * list byte) :=
  (fun m => (ph_packet_type m.1, m.2)) <$> ms.

Lemma send_chunks_spec data st frame_id count i r st' :
  sender_wf st -> Forall (fun c => len c <= SENDER_MAX_VIDEO_CHUNK_BYTES) data ->
  send_chunks st frame_id count i data = (r, st') ->
  within st st' /\ us_frame_id st'.1.1 = us_frame_id st.1.1 /\
  (r = Ok tt -> exists ms ds, transmitted st ms ds st' /\ packets_of ms = chunk_packets frame_id i data).
Proof.
  revert st i. induction data as [|c data IH]; intros st i W F; cbn [HostSender.send_chunks].
  { intros [= <- <-]. split_and!; [by apply within_refl | done|]. intros _. exists [], [].
    split; [by apply transmitted_nil | done]. }
  destruct st as [[s ci] log]. apply Forall_cons in F as [Fc F].
  set (log1 := if _ && _ && _ then _ else _).
  assert (S1 : sender_wf (s, ci, log1)) by exact W.
  assert (W1 : within (s, ci, log) (s, ci, log1)).
  { split; [exact W|]. subst log1. cbn [snd]. case_if; [exists [Slept (from_millis 1)] | exists []].
    - split; [done|]. by apply Forall_singleton.
    - by rewrite app_nil_r. }
  assert (Sl : sent_of log1 = sent_of log).
  { subst log1. case_if; [|done]. rewrite sent_of_app. cbn. apply app_nil_r. }
  fold (chunk_payload frame_id i c).
  change (le_bytes 4 frame_id ++ le_bytes 2 (i mod 65536) ++ c) with (chunk_payload frame_id i c).
  destruct (send_scratch (s, ci, log1) PT_FrameChunk (chunk_payload frame_id i c)) as [r1 st1] eqn:E.
  assert (B : len (chunk_payload frame_id i c) <= MAX_SENDER_PLAINTEXT_PAYLOAD).
  { unfold chunk_payload, FrameChunk_bytes. autorewrite with len. cbn. width_lia. }
  pose proof (send_scratch_within _ _ _ _ _ S1 E B) as W2.
  destruct (send_scratch_spec _ _ _ _ _ S1 E) as (Wf & Fi & _ & R).
  destruct r1 as [[]|e]; [|intros [= <- <-]; split_and!; [by eapply within_trans | done | done]].
  intros Er. destruct (IH _ _ Wf F Er) as (W3 & F3 & M3).
  split_and!; [exact (within_trans _ _ _ W1 (within_trans _ _ _ W2 W3)) | by rewrite F3|].
  intros ->. destruct M3 as (ms & ds & T & P); [done|].
  destruct R as (h & d & Ht & T1 & _). exists ((h, chunk_payload frame_id i c) :: ms), (d :: ds). split.
  - apply (transmitted_trans _ [(h, _)] [d] st1); [|done]. destruct T1 as [A1 A2 A3 A4 A5]. split; try done.
    cbn [snd] in *. by rewrite A2, Sl.
  - cbn. unfold packets_of in P. by rewrite Ht, P.
Qed.

Definition fragment_payload (frame_id count i : Z) (data : list byte) : list byte :=
  AudioFragment_bytes (mkAudioFragment (mkAudioFragmentHeader frame_id (i mod 65536) count) data).
Fixpoint fragment_packets (frame_id count i : Z) (data : list (list byte)) : list (PacketType * list byte) :=
  match data with
  | [] => []
  | c :: data => (PT_AudioFrame, fragment_payload frame_id count i c) :: fragment_packets frame_id count (i + 1) data
  end.

Lemma send_fragments_spec data st frame_id count i r st' :
  sender_wf st -> Forall (fun c => len c <= SENDER_MAX_AUDIO_FRAGMENT_BYTES) data ->
  u32_ok frame_id -> 0 <= i -> i + len data <= count <= U16_MAX ->
  send_fragments st frame_id count i data = (r, st') ->
  within st st' /\ us_frame_id st'.1.1 = us_frame_id st.1.1 /\
  us_audio_frame_id st'.1.1 = us_audio_frame_id st.1.1 /\
  (r = Ok tt -> exists ms ds, transmitted st ms ds st' /\
    packets_of ms = fragment_packets frame_id count i data).
Proof.
  intros W F Hid Hi Hc. revert st i W Hi Hc. induction data as [|c data IH]; intros st i W Hi Hc;
    cbn [HostSender.send_fragments].
  { intros [= <- <-]. split_and!; [by apply within_refl | done..|]. intros _. exists [], [].
    split; [by apply transmitted_nil | done]. }
  apply Forall_cons in F as [Fc F]. rewrite len_cons in Hc. pose proof (len_nonneg data).
  assert (Hm : i mod 65536 = i) by (apply Z.mod_small; width_lia).
  set (h := mkAudioFragmentHeader frame_id (i mod 65536) count).
  assert (Eh : AudioFragmentHeader_to_bytes h = Ok (AudioFragmentHeader_bytes h)).
  { apply AudioFragmentHeader_encode_eq. unfold AudioFragmentHeader_wf. cbn. rewrite Hm. width_lia. }
  rewrite Eh. change (AudioFragmentHeader_bytes h ++ c) with (fragment_payload frame_id count i c).
  destruct (send_scratch st PT_AudioFrame (fragment_payload frame_id count i c)) as [r1 st1] eqn:E.
  assert (B : len (fragment_payload frame_id count i c) <= MAX_SENDER_PLAINTEXT_PAYLOAD).
  { unfold fragment_payload, AudioFragment_bytes, AudioFragmentHeader_bytes. autorewrite with len.
    cbn. width_lia. }
  pose proof (send_scratch_within _ _ _ _ _ W E B) as W2.
  destruct (send_scratch_spec _ _ _ _ _ W E) as (Wf & Fi & Fa & R).
  destruct r1 as [[]|e]; [|intros [= <- <-]; split_and!; done].
  intros Er. destruct (IH F st1 (i + 1) Wf ltac:(lia) ltac:(lia) Er) as (W3 & F3 & A3 & M3).
  split_and!; [exact (within_trans _ _ _ W2 W3) | by rewrite F3 | by rewrite A3|].
  intros ->. destruct M3 as (ms & ds & T & P); [done|].
  destruct R as (h' & d & Ht & T1 & _). exists ((h', fragment_payload frame_id count i c) :: ms), (d :: ds).
  split; [by apply (transmitted_trans _ [(h', _)] [d] st1)|].
  cbn. unfold packets_of in P. by rewrite Ht, P.
Qed.

(** ** Frames *)

Definition frame_header_of (id width height : Z) (f : VideoFrame) : FrameHeader :=
  mkFrameHeader id (Z.min width U16_MAX) (Z.min height U16_MAX) (vf_is_key_frame f)
    (div_ceil (len (vf_data f)) SENDER_MAX_VIDEO_CHUNK_BYTES) (len (vf_data f)).

(** The header of a frame of at most 8192 chunks is well formed. *)
Lemma frame_header_of_wf id width height f :
  u32_ok id -> u32_ok width -> u32_ok height ->
  div_ceil (len (vf_data f)) SENDER_MAX_VIDEO_CHUNK_BYTES <= MAX_CHUNKS_PER_FRAME ->
  FrameHeader_wf (frame_header_of id width height f).
Proof.
  intros Hi Hw Hh Hc. pose proof (div_ceil_bound (len (vf_data f)) SENDER_MAX_VIDEO_CHUNK_BYTES) as B.
  pose proof (len_nonneg (vf_data f)). unfold FrameHeader_wf, frame_header_of. cbn.
  set (n := div_ceil _ _) in *.
  assert (SENDER_MAX_VIDEO_CHUNK_BYTES = 1154) as K by done. rewrite K in *.
  assert (MAX_CHUNKS_PER_FRAME = 8192) as K1 by done. assert (MAX_FRAME_BYTES = 33554432) as K2 by done.
  assert (MAX_VIDEO_CHUNK_BYTES = 1382) as K3 by done. rewrite K1, K2, K3 in *. width_lia.
Qed.

(** Its encoding fails exactly above 8192 chunks. *)
Lemma frame_header_of_encode id width height f :
  u32_ok id -> u32_ok width -> u32_ok height ->
  match FrameHeader_encode (frame_header_of id width height f) with
  | Ok b => div_ceil (len (vf_data f)) SENDER_MAX_VIDEO_CHUNK_BYTES <= MAX_CHUNKS_PER_FRAME /\
      b = FrameHeader_bytes (frame_header_of id width height f)
  | Err _ => MAX_CHUNKS_PER_FRAME < div_ceil (len (vf_data f)) SENDER_MAX_VIDEO_CHUNK_BYTES
  end.
Proof.
  intros Hi Hw Hh.
  destruct (Z_le_gt_dec (div_ceil (len (vf_data f)) SENDER_MAX_VIDEO_CHUNK_BYTES) MAX_CHUNKS_PER_FRAME) as [L|G].
  - rewrite FrameHeader_encode_eq by by apply frame_header_of_wf. done.
  - unfold FrameHeader_encode, FrameHeader_validate. cbn [frame_header_of fh_total_chunks].
    rewrite (proj2 (Z.ltb_lt _ _)) by lia. cbn. lia.
Qed.

Definition frame_stats (origin : Instant) (id : Z) (f : VideoFrame) (send_at : Instant) : TimestampStats :=
  mkTimestampStats id (monotonic_us origin (vf_capture_at f)) (monotonic_us origin (vf_encode_started_at f))
    (monotonic_us origin (vf_encode_completed_at f)) (monotonic_us origin send_at).

Definition frame_packets (id width height : Z) (f : VideoFrame) (stats : TimestampStats)
    : list (PacketType * list byte) :=
  (PT_FrameHeader, FrameHeader_bytes (frame_header_of id width height f)) ::
  chunk_packets id 0 (chunks (vf_data f) SENDER_MAX_VIDEO_CHUNK_BYTES) ++
  [(PT_Ping, TimestampStats_encode stats)].

Lemma TimestampStats_encode_len t : len (TimestampStats_encode t) = TimestampStats_SIZE.
Proof. unfold TimestampStats_encode. autorewrite with len. done. Qed.

Lemma packets_of_app l1 l2 : packets_of (l1 ++ l2) = packets_of l1 ++ packets_of l2.
Proof. apply fmap_app. Qed.

Lemma set_frame_wf s c log id key : sender_wf (s, c, log) -> sender_wf (set_frame s id key, c, log).
Proof. done. Qed.

Lemma send_frame_spec st width height f origin r st' :
  sender_wf st -> u32_ok width -> u32_ok height ->
  send_frame st width height f origin = (r, st') ->
  let id := wrapping_add32 (us_frame_id st.1.1) 1 in
  within st st' /\
  (MAX_CHUNKS_PER_FRAME < div_ceil (len (vf_data f)) SENDER_MAX_VIDEO_CHUNK_BYTES ->
    st' = st /\ exists e, r = Err e) /\
  (div_ceil (len (vf_data f)) SENDER_MAX_VIDEO_CHUNK_BYTES <= MAX_CHUNKS_PER_FRAME ->
    us_frame_id st'.1.1 = id) /\
  (r = Ok tt -> exists ms ds send_at, transmitted st ms ds st' /\
    packets_of ms = frame_packets id width height f (frame_stats origin id f send_at)).
Proof.
  destruct st as [[s c] log]. intros W Hw Hh. unfold HostSender.send_frame. cbn [fst snd].
  set (id := wrapping_add32 (us_frame_id s) 1). set (n := div_ceil _ _).
  pose proof (frame_header_of_encode id width height f (wrapping_add32_range _ _) Hw Hh) as En.
  assert (K1 : MAX_CHUNKS_PER_FRAME = 8192) by done.
  assert (K2 : n <= MAX_CHUNKS_PER_FRAME -> len (vf_data f) <= U32_MAX).
  { intros Hn. pose proof (div_ceil_bound (len (vf_data f)) SENDER_MAX_VIDEO_CHUNK_BYTES) as B.
    fold n in B. assert (SENDER_MAX_VIDEO_CHUNK_BYTES = 1154) as K by done. rewrite K in B.
    pose proof (len_nonneg (vf_data f)). width_lia. }
  case_if; [intros [= <- <-]; split_and!; [by apply within_refl|eauto|width_lia|done]|].
  case_if; [intros [= <- <-]; split_and!; [by apply within_refl|eauto|intros; width_lia|done]|].
  fold (frame_header_of id width height f). fold n in En.
  destruct (FrameHeader_encode _) as [hb|e].
  2: { intros [= <- <-]. split_and!; [by apply within_refl|eauto|lia|done]. }
  destruct En as [Hn ->].
  destruct (send_packet (set_frame s id (vf_is_key_frame f), c, log) PT_FrameHeader _) as [r1 st1] eqn:E1.
  assert (B1 : len (FrameHeader_bytes (frame_header_of id width height f)) <= MAX_SENDER_PLAINTEXT_PAYLOAD)
    by (unfold FrameHeader_bytes, FrameHeader_bytes_with; autorewrite with len; width_lia).
  pose proof (set_frame_wf _ _ _ id (vf_is_key_frame f) W) as W0.
  pose proof (send_packet_within _ _ _ _ _ W0 E1 B1) as W1.
  destruct (send_packet_spec _ _ _ _ _ W0 E1) as (Wf1 & F1 & _ & _ & R1). cbn in F1.
  destruct r1 as [[]|e]; [|intros [= <- <-]; split_and!; [done|lia|done|done]].
  destruct R1 as (h1 & d1 & Ht1 & T1 & _).
  destruct (chunks_spec (vf_data f) SENDER_MAX_VIDEO_CHUNK_BYTES) as (_ & Fc & _); [done|].
  destruct (send_chunks st1 id n 0 _) as [r2 st2] eqn:E2.
  destruct (send_chunks_spec _ _ _ _ _ _ _ Wf1 (Forall_impl _ _ _ Fc (fun c H => proj2 H)) E2)
    as (W2 & F2 & M2).
  pose proof (within_trans _ _ _ W1 W2) as W12. rewrite F1 in F2.
  destruct r2 as [[]|e]; [|intros [= <- <-]; split_and!; [done|lia|done|done]].
  destruct M2 as (ms2 & ds2 & T2 & P2); [done|].
  fold (frame_stats origin id f (Instant_now st2.2)).
  set (stats := frame_stats origin id f (Instant_now st2.2)).
  destruct (send_packet st2 PT_Ping (TimestampStats_encode stats)) as [r3 st3] eqn:E3.
  assert (B3 : len (TimestampStats_encode stats) <= MAX_SENDER_PLAINTEXT_PAYLOAD)
    by (rewrite TimestampStats_encode_len; unfold TimestampStats_SIZE; width_lia).
  pose proof (send_packet_within _ _ _ _ _ (proj1 W2) E3 B3) as W3.
  destruct (send_packet_spec _ _ _ _ _ (proj1 W2) E3) as (Wf3 & F3 & _ & _ & R3). rewrite F2 in F3.
  intros [= <- <-]. split_and!; [exact (within_trans _ _ _ W12 W3) | lia | done |].
  intros ->. destruct R3 as (h3 & d3 & Ht3 & T3 & _).
  exists ([(h1, FrameHeader_bytes (frame_header_of id width height f))] ++ ms2 ++ [(h3, TimestampStats_encode stats)]),
    ([d1] ++ ds2 ++ [d3]), (Instant_now st2.2). split.
  - apply (transmitted_trans _ _ _ st1); [|by eapply transmitted_trans].
    destruct T1 as [A1 A2 A3 A4 A5]. by split.
  - rewrite !packets_of_app, P2. unfold packets_of, frame_packets. cbn. by rewrite Ht1, Ht3.
Qed.

(** ** Audio *)

Definition audio_packets (id : Z) (bytes : list byte) : list (PacketType * list byte) :=
  fragment_packets id (div_ceil (len bytes) SENDER_MAX_AUDIO_FRAGMENT_BYTES) 0
    (chunks bytes SENDER_MAX_AUDIO_FRAGMENT_BYTES).

Lemma send_audio_spec st bytes r st' :
  sender_wf st -> send_audio st bytes = (r, st') -> bytes <> [] ->
  let id := wrapping_add32 (us_audio_frame_id st.1.1) 1 in
  within st st' /\ us_audio_frame_id st'.1.1 = id /\
  (r = Ok tt -> exists ms ds, transmitted st ms ds st' /\ packets_of ms = audio_packets id bytes).
Proof.
  intros W E Hne. unfold HostSender.send_audio in E. destruct bytes as [|b bs]; [done|]. clear Hne.
  set (bytes := b :: bs) in *. destruct st as [[s c] log]. cbn [fst snd].
  set (id := wrapping_add32 (us_audio_frame_id s) 1) in *.
  destruct (chunks_spec bytes SENDER_MAX_AUDIO_FRAGMENT_BYTES) as (_ & Fc & Ln); [done|].
  revert E. assert (W0 : sender_wf (set_audio s id, c, log)) by exact W.
  case_if; [intros [= <- <-]; split_and!; [exact (within_refl _ W0)|done|done]|]. intros E.
  destruct (send_fragments_spec _ (set_audio s id, c, log) id
    (div_ceil (len bytes) SENDER_MAX_AUDIO_FRAGMENT_BYTES) 0 r st' W0
    (Forall_impl _ _ _ Fc (fun c H => proj2 H)) (wrapping_add32_range _ _) ltac:(lia) ltac:(lia) E)
    as (W1 & _ & A1 & M1).
  split_and!; [exact W1 | done |]. intros ->. destruct M1 as (ms & ds & T & P); [done|].
  exists ms, ds. split; [|exact P]. destruct T. by split.
Qed.

Lemma send_cursor_spec st cursor r st' :
  sender_wf st -> CursorUpdate_wf cursor -> send_cursor st cursor = (r, st') ->
  within st st' /\ (r = Ok tt -> exists h d, transmitted st [(h, CursorUpdate_bytes cursor)] [d] st' /\
    ph_packet_type h = PT_CursorUpdate).
Proof.
  intros W Wc. unfold HostSender.send_cursor. rewrite CursorUpdate_encode_eq by done. intros E. split.
  - eapply send_packet_within; [done | exact E|].
    unfold CursorUpdate_bytes. autorewrite with len. width_lia.
  - intros ->. destruct (send_packet_spec _ _ _ _ _ W E) as (_ & _ & _ & _ & h & d & Ht & T & _). eauto.
Qed.

(** ** Sessions of the sender *)

Inductive SendOp : Type :=
  | OpFrame (width height : Z) (frame : VideoFrame) (origin : Instant)
  | OpAudio (bytes : list byte)
  | OpCursor (cursor : CursorUpdate).

Definition send_op (st : sender_state) (op : SendOp) : result SenderError unit * sender_state :=
  match op with
  | OpFrame width height frame origin => send_frame st width height frame origin
  | OpAudio bytes => send_audio st bytes
  | OpCursor cursor => send_cursor st cursor
  end.

(** The sender thread ignores the results. *)
Definition send_ops (st : sender_state) (ops : list SendOp) : sender_state :=
  foldl (fun st op => snd (send_op st op)) st ops.

Definition send_op_wf (op : SendOp) : Prop :=
  match op with
  | OpFrame width height _ _ => u32_ok width /\ u32_ok height
  | OpAudio _ => True
  | OpCursor cursor => CursorUpdate_wf cursor
  end.

Lemma send_op_within st op : sender_wf st -> send_op_wf op -> within st (snd (send_op st op)).
Proof.
  intros W Wo. destruct (send_op st op) as [r st'] eqn:E. destruct op as [w h f o|bytes|c]; cbn in *.
  - destruct Wo. by destruct (send_frame_spec st w h f o r st' W) as (? & _).
  - destruct bytes as [|b bs]; [injection E as <- <-; by apply within_refl|].
    by destruct (send_audio_spec st (b :: bs) r st' W E) as (? & _).
  - by destruct (send_cursor_spec st c r st' W Wo E) as (? & _).
Qed.

Lemma send_ops_within ops st : sender_wf st -> Forall send_op_wf ops -> within st (send_ops st ops).
Proof.
  intros W F. revert st W. induction F as [|op ops Wo F IH]; intros st W; [by apply within_refl|].
  pose proof (send_op_within st op W Wo) as W1. cbn. apply (within_trans _ _ _ W1), IH, W1.
Qed.

End SenderLaws.

(** ** Property *)

(** Whatever is sent, with whatever failures of the socket or the cipher,
    every datagram given to the socket is at most 1200 bytes long, so that it
    fits the 1280-byte MTU of IPv6 and VPN interfaces. *)
Theorem sender_datagram_budget encrypt unix_ms_u64 Instant_now send_to (st : sender_state) (ops : list SendOp) :
  aead_lengths encrypt -> sender_wf st -> Forall send_op_wf ops -> sent_of st.2 = [] ->
  Forall (fun d => len d <= UDP_PAYLOAD_BUDGET)
    (sent_of (send_ops encrypt unix_ms_u64 Instant_now send_to st ops).2).
Proof.
  intros Hl W F E. destruct (send_ops_within encrypt unix_ms_u64 Instant_now send_to Hl ops st W F)
    as [_ (log & -> & Fl)].
  rewrite sent_of_app, E. apply Forall_forall. intros d (e & He & Hd)%list_elem_of_omap.
  rewrite Forall_forall in Fl. specialize (Fl e He). destruct e; [|done]. by injection Hd as ->.
Qed.

Definition toy_frame : VideoFrame := mkVideoFrame (concat (replicate 300 (str_bytes "maho"))) true 1000 2000 3000.

Lemma sender_datagram_budget_witness :
  let st := (UdpSender_default, toy_sender, []) : sender_state in
  let ops := [OpFrame 1920 1080 toy_frame 0; OpAudio (str_bytes "pcm"); OpCursor (mkCursorUpdate 0 0 1)] in
  let sent := sent_of (send_ops toy_encrypt (fun _ => 5) (fun _ => 4000) (fun _ _ => true) st ops).2 in
  length sent = 6%nat /\ Forall (fun d => len d <= UDP_PAYLOAD_BUDGET) sent.
Proof.
  split; [vm_compute; reflexivity|].
  apply (sender_datagram_budget toy_encrypt (fun _ => 5) (fun _ => 4000) (fun _ _ => true)
    (UdpSender_default, toy_sender, []) [OpFrame 1920 1080 toy_frame 0; OpAudio (str_bytes "pcm");
      OpCursor (mkCursorUpdate 0 0 1)] toy_lengths).
  - split; [|vm_compute; split; congruence]. split; [reflexivity | vm_compute; split; congruence].
  - repeat constructor; vm_compute; congruence.
  - reflexivity.
Defined.
