(* ===== verification/AudioReassembler.v ===== *)
(** * Audio reassembly

    [clients/rust/maho-app/src/audio.rs]: the receiver's reassembly of audio
    fragments, newest frame first. *)

From S2P Require Import Prelude Codec Media Assembler.

Definition MAX_PENDING_AUDIO_FRAMES : Z := 64.

Record PendingAudioFrame : Type := mkPendingAudioFrame {
  paf_fragment_count : Z;
  paf_fragments : chunk_map
}.

Record AudioFragmentReassembler : Type := mkAudioFragmentReassembler {
  ar_pending : gmap Z PendingAudioFrame;
  ar_newest_frame_id : option Z;
  ar_skipped_frames : Z
}.

Definition AudioFragmentReassembler_default : AudioFragmentReassembler :=
  mkAudioFragmentReassembler ∅ None 0.

Definition skip_incomplete_before (s : AudioFragmentReassembler) (frame_id : Z)
    : AudioFragmentReassembler :=
  let before := Z.of_nat (size (ar_pending s)) in
  let pending := filter (fun kv : Z * PendingAudioFrame => frame_id <= kv.1) (ar_pending s) in
  mkAudioFragmentReassembler pending (ar_newest_frame_id s)
    (ar_skipped_frames s + (before - Z.of_nat (size pending))).

(** [pending.keys().copied().min()] *)
Definition min_key (m : gmap Z PendingAudioFrame) : option Z :=
  foldr (fun kv best => Some (match best with None => kv.1 | Some b => Z.min kv.1 b end))
    None (map_to_list m).

Definition audio_push (s : AudioFragmentReassembler) (fragment : AudioFragment)
    : option (list byte) * AudioFragmentReassembler :=
  let header := af_header fragment in
  let frame_id := afh_frame_id header in
  if match ar_newest_frame_id s with None => false | Some newest => frame_id <? newest end
  then (None, s)
  else
    let s :=
      if match ar_newest_frame_id s with None => true | Some newest => newest <? frame_id end then
        let s := skip_incomplete_before s frame_id in
        mkAudioFragmentReassembler (ar_pending s) (Some frame_id) (ar_skipped_frames s)
      else s in
    if afh_fragment_count header =? 1 then
      (Some (af_data fragment),
       mkAudioFragmentReassembler (delete frame_id (ar_pending s)) (ar_newest_frame_id s)
         (ar_skipped_frames s))
    else
      let entry := default (mkPendingAudioFrame (afh_fragment_count header) ∅)
        (ar_pending s !! frame_id) in
      if negb (paf_fragment_count entry =? afh_fragment_count header) then
        (None, mkAudioFragmentReassembler (delete frame_id (ar_pending s)) (ar_newest_frame_id s)
           (ar_skipped_frames s + 1))
      else
        let fragments := match paf_fragments entry !! afh_fragment_index header with
          | None => <[afh_fragment_index header := af_data fragment]> (paf_fragments entry)
          | Some _ => paf_fragments entry
          end in
        let entry := mkPendingAudioFrame (paf_fragment_count entry) fragments in
        if Z.of_nat (size fragments) =? paf_fragment_count entry then
          (collect_chunks fragments 0 (Z.to_nat (paf_fragment_count entry)),
           mkAudioFragmentReassembler (delete frame_id (ar_pending s)) (ar_newest_frame_id s)
             (ar_skipped_frames s))
        else
          let pending := <[frame_id := entry]> (ar_pending s) in
          if MAX_PENDING_AUDIO_FRAMES <? Z.of_nat (size pending) then
            match min_key pending with
            | None => (None, mkAudioFragmentReassembler pending (ar_newest_frame_id s) (ar_skipped_frames s))
            | Some oldest =>
              (None, mkAudioFragmentReassembler (delete oldest pending) (ar_newest_frame_id s)
                 (ar_skipped_frames s + 1))
            end
          else (None, mkAudioFragmentReassembler pending (ar_newest_frame_id s) (ar_skipped_frames s)).

Definition pending_frames (s : AudioFragmentReassembler) : Z := Z.of_nat (size (ar_pending s)).

Definition audio_clear (s : AudioFragmentReassembler) : AudioFragmentReassembler :=
  mkAudioFragmentReassembler ∅ None (ar_skipped_frames s).

(** ** Invariant *)

(** Only the newest frame can be pending, and what is pending is incomplete. *)
Record audio_inv (sent : AudioFragment -> Prop) (s : AudioFragmentReassembler) : Prop := {
  aui_newest : forall id e, ar_pending s !! id = Some e -> ar_newest_frame_id s = Some id;
  aui_index : forall id e i d, ar_pending s !! id = Some e -> paf_fragments e !! i = Some d ->
    0 <= i < paf_fragment_count e /\
    sent (mkAudioFragment (mkAudioFragmentHeader id i (paf_fragment_count e)) d);
  aui_open : forall id e, ar_pending s !! id = Some e ->
    Z.of_nat (size (paf_fragments e)) < paf_fragment_count e
}.

Lemma audio_inv_default sent : audio_inv sent AudioFragmentReassembler_default.
Proof. split; intros *; cbn; by rewrite ?lookup_empty. Qed.

Lemma audio_inv_drop sent s p n k :
  audio_inv sent s -> p ⊆ ar_pending s -> (p = ∅ \/ n = ar_newest_frame_id s) ->
  audio_inv sent (mkAudioFragmentReassembler p n k).
Proof.
  intros [N I O] Sub Hn. split; cbn; intros id e.
  - intros L. destruct Hn as [->| ->]; [by rewrite lookup_empty in L|]. eapply N, lookup_weaken; eauto.
  - intros i d L. apply I. by eapply lookup_weaken.
  - intros L. apply (O id). by eapply lookup_weaken.
Qed.

Lemma pending_size sent s : audio_inv sent s -> (size (ar_pending s) <= 1)%nat.
Proof.
  intros [N _ _]. destruct (decide (ar_pending s = ∅)) as [->|Ne]; [rewrite map_size_empty; lia|].
  apply map_choose in Ne as (id & e & L).
  assert (ar_pending s ⊆ {[id := e]}) as Sub.
  { apply map_subseteq_spec. intros j f Lj. pose proof (N _ _ L). pose proof (N _ _ Lj).
    assert (j = id) as -> by congruence. rewrite lookup_singleton_eq. congruence. }
  apply map_subseteq_size in Sub. by rewrite map_size_singleton in Sub.
Qed.

(** The state once a fragment of frame [id] that is not old has arrived. *)
Definition advance_to (s : AudioFragmentReassembler) (id : Z) : AudioFragmentReassembler :=
  if match ar_newest_frame_id s with None => true | Some newest => newest <? id end then
    let s := skip_incomplete_before s id in
    mkAudioFragmentReassembler (ar_pending s) (Some id) (ar_skipped_frames s)
  else s.

Lemma advance_to_inv sent s id :
  audio_inv sent s -> match ar_newest_frame_id s with None => True | Some n => n <= id end ->
  audio_inv sent (advance_to s id) /\ ar_newest_frame_id (advance_to s id) = Some id /\
  (ar_newest_frame_id s = Some id -> ar_pending (advance_to s id) = ar_pending s) /\
  (ar_newest_frame_id s <> Some id -> ar_pending (advance_to s id) = ∅).
Proof.
  intros I Hn. unfold advance_to.
  destruct (ar_newest_frame_id s) as [n|] eqn:En.
  - destruct (Z.ltb_spec n id) as [L|G].
    + assert (E : filter (fun kv : Z * PendingAudioFrame => id <= kv.1) (ar_pending s) = ∅).
      { apply map_empty. intros j. apply map_lookup_filter_None. right. intros e Le. cbn.
        pose proof (aui_newest _ _ I _ _ Le). rewrite En in H. injection H as ->. lia. }
      split_and!; cbn; try done.
      * apply (audio_inv_drop sent s); [done | rewrite E; apply map_empty_subseteq | by left].
      * intros [= ->]. lia.
    + assert (n = id) as -> by lia. done.
  - assert (E : ar_pending s = ∅).
    { apply map_empty. intros j. destruct (ar_pending s !! j) eqn:L; [|done].
      apply (aui_newest _ _ I) in L. congruence. }
    assert (E2 : filter (fun kv : Z * PendingAudioFrame => id <= kv.1) (ar_pending s) = ∅)
      by (rewrite E; apply map_filter_empty).
    split_and!; cbn; try done.
    apply (audio_inv_drop sent s); [done | rewrite E2; apply map_empty_subseteq | by left].
Qed.

(** What a returned buffer is: one sent fragment per index, concatenated. *)
Definition audio_assembled (sent : AudioFragment -> Prop) (id count : Z) (data : list byte) : Prop :=
  exists cs, len cs = count /\ data = concat cs /\
    forall k c, cs !! k = Some c -> sent (mkAudioFragment (mkAudioFragmentHeader id (Z.of_nat k) count) c).

(** A fragment of frame [id] of [count] fragments, once the frame is the newest. *)
Definition store_fragment (s : AudioFragmentReassembler) (id count i : Z) (d : list byte)
    : option (list byte) * AudioFragmentReassembler :=
  let entry := default (mkPendingAudioFrame count ∅) (ar_pending s !! id) in
  let fragments := match paf_fragments entry !! i with
    | None => <[i := d]> (paf_fragments entry) | Some _ => paf_fragments entry end in
  if Z.of_nat (size fragments) =? paf_fragment_count entry
  then (collect_chunks fragments 0 (Z.to_nat (paf_fragment_count entry)),
        mkAudioFragmentReassembler (delete id (ar_pending s)) (ar_newest_frame_id s) (ar_skipped_frames s))
  else (None, mkAudioFragmentReassembler (<[id := mkPendingAudioFrame (paf_fragment_count entry) fragments]> (ar_pending s))
          (ar_newest_frame_id s) (ar_skipped_frames s)).

(** The cases of [push]; the capacity check never fires. *)
Lemma audio_push_cases sent s f :
  audio_inv sent s ->
  let id := afh_frame_id (af_header f) in
  let count := afh_fragment_count (af_header f) in
  let s1 := advance_to s id in
  audio_push s f =
  if match ar_newest_frame_id s with None => false | Some newest => id <? newest end then (None, s)
  else if count =? 1 then
    (Some (af_data f), mkAudioFragmentReassembler (delete id (ar_pending s1)) (ar_newest_frame_id s1) (ar_skipped_frames s1))
  else if negb (paf_fragment_count (default (mkPendingAudioFrame count ∅) (ar_pending s1 !! id)) =? count) then
    (None, mkAudioFragmentReassembler (delete id (ar_pending s1)) (ar_newest_frame_id s1) (ar_skipped_frames s1 + 1))
  else store_fragment s1 id count (afh_fragment_index (af_header f)) (af_data f).
Proof.
  intros I id count s1. unfold audio_push. fold id count.
  destruct (match ar_newest_frame_id s with None => false | Some newest => id <? newest end) eqn:Old; [done|].
  fold (advance_to s id). fold s1.
  destruct (advance_to_inv sent s id I) as (I1 & _).
  { destruct (ar_newest_frame_id s); [|done]. bool_prop. lia. }
  fold s1 in I1. apply pending_size in I1.
  destruct (count =? 1); [done|]. destruct (negb _); [done|]. unfold store_fragment.
  destruct (Z.of_nat (size _) =? _); [done|].
  rewrite (proj2 (Z.ltb_ge _ _)); [done|]. rewrite map_size_insert. unfold MAX_PENDING_AUDIO_FRAMES.
  destruct (ar_pending s1 !! id); cbn; lia.
Qed.

Lemma store_fragment_spec sent s id count i d :
  audio_inv sent s -> ar_newest_frame_id s = Some id -> 0 <= i < count ->
  sent (mkAudioFragment (mkAudioFragmentHeader id i count) d) ->
  paf_fragment_count (default (mkPendingAudioFrame count ∅) (ar_pending s !! id)) = count ->
  let '(r, s') := store_fragment s id count i d in
  audio_inv sent s' /\ ar_newest_frame_id s' = Some id /\
  (forall data, r = Some data -> audio_assembled sent id count data).
Proof.
  intros I En Hi Hs Hc. unfold store_fragment. set (entry := default _ _) in *.
  assert (Ie : forall j e, paf_fragments entry !! j = Some e ->
    0 <= j < count /\ sent (mkAudioFragment (mkAudioFragmentHeader id j count) e)).
  { intros j e. rewrite <- Hc. subst entry. destruct (ar_pending s !! id) eqn:L; cbn.
    - by apply (aui_index _ _ I).
    - by rewrite lookup_empty. }
  set (fragments := match paf_fragments entry !! i with Some _ => _ | None => _ end).
  assert (If : forall j e, fragments !! j = Some e ->
    0 <= j < count /\ sent (mkAudioFragment (mkAudioFragmentHeader id j count) e)).
  { subst fragments. destruct (paf_fragments entry !! i); [done|].
    intros j e [[<- <-]|[_ L]]%lookup_insert_Some; auto. }
  assert (Sz : Z.of_nat (size fragments) <= count).
  { assert (dom fragments ⊆ (list_to_set (seqZ 0 count) : gset Z)) as Sub.
    { intros j [e L]%elem_of_dom. apply If in L. apply elem_of_list_to_set, elem_of_seqZ. lia. }
    apply subseteq_size in Sub. rewrite size_list_to_set, length_seqZ, size_dom in Sub by apply NoDup_seqZ. lia. }
  rewrite Hc. destruct (Z.eqb_spec (Z.of_nat (size fragments)) count) as [E|E].
  - destruct (collect_chunks_spec fragments 0 (Z.to_nat count)) as (cs & Lc & -> & Hcs).
    { intros j Hj. apply (complete_all _ count); [intros ?? H%If; apply H | done | lia]. }
    split_and!; [|done|].
    + apply (audio_inv_drop sent s); [done | apply delete_subseteq | by right].
    + intros data [= <-]. exists cs. split_and!; [unfold len; lia | done|].
      intros k c Hk. apply Hcs in Hk. by destruct (If _ _ Hk).
  - split_and!; [|done|done]. destruct I as [N Ix O]. split; cbn; intros id' e.
    + intros [[<- _]|[_ L]]%lookup_insert_Some; eauto.
    + intros j c [[<- <-]|[_ L]]%lookup_insert_Some; [apply If | eauto].
    + intros [[<- <-]|[_ L]]%lookup_insert_Some; cbn; [lia | eauto].
Qed.

Lemma audio_push_spec sent s f :
  audio_inv sent s -> AudioFragmentHeader_wf (af_header f) -> sent f ->
  let '(r, s') := audio_push s f in
  audio_inv sent s' /\
  (forall data, r = Some data ->
    audio_assembled sent (afh_frame_id (af_header f)) (afh_fragment_count (af_header f)) data).
Proof.
  intros I (Hid & Hc & Hi) Hs. rewrite (audio_push_cases sent) by done.
  destruct f as [[id i count] d]. cbn [af_header afh_frame_id afh_fragment_count afh_fragment_index af_data] in *.
  case_if; [done|].
  destruct (advance_to_inv sent s id I) as (I1 & N1 & _).
  { destruct (ar_newest_frame_id s); [|done]. bool_prop. lia. }
  case_if; [|case_if].
  - assert (i = 0) as -> by lia. subst count. split.
    + apply (audio_inv_drop sent (advance_to s id)); [done | apply delete_subseteq | by right].
    + intros data [= <-]. exists [d]. split_and!; [done | cbn; by rewrite app_nil_r|].
      intros [|k] c; [|done]. by intros [= <-].
  - split; [|done]. apply (audio_inv_drop sent (advance_to s id)); [done | apply delete_subseteq | by right].
  - pose proof (store_fragment_spec sent (advance_to s id) id count i d I1 N1 Hi Hs ltac:(done)) as H.
    destruct (store_fragment _ _ _ _ _) as [r s']. by destruct H as (? & _ & ?).
Qed.

Fixpoint audio_run (s : AudioFragmentReassembler) (fs : list AudioFragment)
    : list (option (list byte)) * AudioFragmentReassembler :=
  match fs with
  | [] => ([], s)
  | f :: fs => let '(r, s) := audio_push s f in let '(rs, s) := audio_run s fs in (r :: rs, s)
  end.

Lemma audio_run_spec sent fs s :
  audio_inv sent s -> Forall (fun f => AudioFragmentHeader_wf (af_header f) /\ sent f) fs ->
  let '(rs, s') := audio_run s fs in
  audio_inv sent s' /\
  forall i data, rs !! i = Some (Some data) -> exists f, fs !! i = Some f /\
    audio_assembled sent (afh_frame_id (af_header f)) (afh_fragment_count (af_header f)) data.
Proof.
  intros I F. revert s I. induction F as [|f fs [Hw Hs] F IH]; intros s I; cbn [audio_run]; [done|].
  pose proof (audio_push_spec sent s f I Hw Hs) as P. destruct (audio_push s f) as [r s1].
  destruct P as [I1 P]. specialize (IH s1 I1). destruct (audio_run s1 fs) as [rs s2].
  destruct IH as [I2 IH]. split; [done|]. intros [|i] data; cbn; [|apply IH].
  intros [= ->]. eauto.
Qed.

(** ** Delivery of one audio frame *)

Section OneAudioFrame.

Context (id : Z) (cs : list (list byte)).

Abbreviation count := (len cs).
Abbreviation source := (chunk_source cs).

Lemma source_size : Z.of_nat (size source) = count.
Proof. by apply (chunk_source_size (mkFrameHeader 0 0 0 false (len cs) 0)). Qed.

Lemma collect_source : collect_chunks source 0 (length cs) = Some (concat cs).
Proof.
  destruct (collect_chunks_spec source 0 (length cs)) as (cs' & L & -> & H).
  - intros j Hj. unfold chunk_source. apply lookup_map_seqZ_is_Some. lia.
  - f_equal. f_equal. apply list_eq_same_length with (length cs); [done..|].
    intros i x y _ Hx Hy. apply H, chunk_source_lookup in Hx as [_ Hx].
    rewrite Z.add_0_l, Nat2Z.id in Hx. congruence.
Qed.

Definition the_fragment (i : nat) : AudioFragment :=
  mkAudioFragment (mkAudioFragmentHeader id (Z.of_nat i) count) (default [] (cs !! i)).

(** The fragments [c] of the frame have arrived. *)
Definition audio_tracking (s : AudioFragmentReassembler) (c : chunk_map) : Prop :=
  audio_inv (fun _ => True) s /\ c ⊆ source /\
  ((c = ∅ /\ match ar_newest_frame_id s with None => True | Some n => n < id end) \/
   (c <> ∅ /\ ar_newest_frame_id s = Some id /\
    ar_pending s !! id = Some (mkPendingAudioFrame count c))).

Lemma audio_push_tracked s c i :
  2 <= count -> audio_tracking s c -> c !! Z.of_nat i = None -> (i < length cs)%nat ->
  let c' := <[Z.of_nat i := default [] (cs !! i)]> c in
  let '(r, s') := audio_push s (the_fragment i) in
  if bool_decide (c' = source) then r = Some (concat cs)
  else r = None /\ audio_tracking s' c'.
Proof.
  intros Hn (I & Sub & St) Ci Hi c'.
  assert (Si : source !! Z.of_nat i = Some (default [] (cs !! i))).
  { apply chunk_source_lookup. rewrite Nat2Z.id. split; [lia|].
    apply lookup_lt_is_Some in Hi as [d ->]. done. }
  assert (Sub' : c' ⊆ source) by (by apply insert_subseteq_l).
  assert (Wf : 0 <= Z.of_nat i < count) by (unfold len; lia).
  rewrite (audio_push_cases (fun _ => True)) by done.
  cbn [the_fragment af_header af_data afh_frame_id afh_fragment_count afh_fragment_index].
  assert (Old : match ar_newest_frame_id s with None => false | Some n => id <? n end = false).
  { destruct St as [[_ Hm]|(_ & -> & _)]; [|lia]. destruct (ar_newest_frame_id s); lia. }
  rewrite Old, (proj2 (Z.eqb_neq _ _)) by lia.
  destruct (advance_to_inv (fun _ => True) s id I) as (I1 & N1 & Psame & Pdrop).
  { destruct (ar_newest_frame_id s); [lia|done]. }
  assert (E : default (mkPendingAudioFrame count ∅) (ar_pending (advance_to s id) !! id) =
    mkPendingAudioFrame count c).
  { destruct St as [[-> Hm]|(_ & En & Lp)].
    - rewrite Pdrop, lookup_empty; [done|]. intros E. rewrite E in Hm. lia.
    - by rewrite Psame, Lp. }
  rewrite E. cbn [paf_fragment_count]. rewrite Z.eqb_refl. cbn [negb].
  pose proof (store_fragment_spec (fun _ => True) (advance_to s id) id count (Z.of_nat i)
    (default [] (cs !! i)) I1 N1 Wf Logic.I ltac:(by rewrite E)) as SI.
  unfold store_fragment in *. rewrite E in *. cbn [paf_fragments paf_fragment_count] in *.
  rewrite Ci in SI |- *. fold c' in SI |- *.
  destruct (Z.eqb_spec (Z.of_nat (size c')) count) as [Es|Es].
  - assert (c' = source) as ->.
    { apply map_subseteq_size_eq; [done|]. pose proof source_size. lia. }
    rewrite bool_decide_true by done. rewrite <- collect_source. f_equal. unfold len. lia.
  - rewrite bool_decide_false by (intros ->; apply Es, source_size). split; [done|].
    destruct SI as (I2 & N2 & _). split_and!; try done. right. split_and!; try done.
    + apply insert_non_empty.
    + cbn. by rewrite lookup_insert_eq.
Qed.

Lemma audio_run_tracked idx s c :
  2 <= count -> audio_tracking s c -> NoDup idx ->
  (forall i, i ∈ idx -> c !! Z.of_nat i = None /\ (i < length cs)%nat) ->
  (forall i d, source !! i = Some d -> c !! i = Some d \/ Z.to_nat i ∈ idx) -> idx <> [] ->
  fst (audio_run s (the_fragment <$> idx)) = replicate (length idx - 1) None ++ [Some (concat cs)].
Proof.
  intros Hn. revert s c. induction idx as [|i idx IH]; intros s c T Nd New All Hne; [done|]. clear Hne.
  apply NoDup_cons in Nd as [Ni Nd]. destruct (New i) as [Ci Hi]; [left|].
  pose proof (audio_push_tracked s c i Hn T Ci Hi) as P. cbn [fmap list_fmap audio_run]. cbv zeta in P.
  set (c' := <[Z.of_nat i := default [] (cs !! i)]> c) in *.
  destruct (audio_push s (the_fragment i)) as [r s1].
  assert (All' : forall j d, source !! j = Some d -> c' !! j = Some d \/ Z.to_nat j ∈ idx).
  { intros j d Hj. destruct (decide (j = Z.of_nat i)) as [->|N].
    - left. subst c'. rewrite lookup_insert_eq. apply chunk_source_lookup in Hj as [_ Hj].
      rewrite Nat2Z.id in Hj. by rewrite Hj.
    - subst c'. rewrite lookup_insert_ne by done. destruct (All j d Hj) as [?|[E|?]%elem_of_cons]; auto.
      apply chunk_source_lookup in Hj. lia. }
  destruct idx as [|i2 idx].
  - rewrite bool_decide_true in P; [by subst r|]. apply (anti_symm (⊆)).
    + apply insert_subseteq_l; [|apply T]. apply chunk_source_lookup. rewrite Nat2Z.id.
      split; [lia|]. by apply lookup_lt_is_Some in Hi as [d ->].
    + apply map_subseteq_spec. intros j d Hj. by apply All' in Hj as [?|?%elem_of_nil].
  - rewrite bool_decide_false in P.
    + destruct P as [-> T']. specialize (IH s1 c' T' Nd).
      assert (New' : forall j, j ∈ i2 :: idx -> c' !! Z.of_nat j = None /\ (j < length cs)%nat).
      { intros j Hj. destruct (New j) as [? ?]; [by right|]. split; [|done].
        subst c'. rewrite lookup_insert_ne; [done|]. intros E. apply Ni.
        by replace i with j by lia. }
      specialize (IH New' All' ltac:(done)).
      destruct (audio_run s1 (the_fragment <$> i2 :: idx)) as [rs s2].
      cbn [fst] in *. rewrite IH. cbn [length]. by rewrite !Nat.sub_succ, !Nat.sub_0_r.
    + intros E. destruct (New i2) as [Ne L2]; [by right; left|].
      apply lookup_lt_is_Some in L2 as [d Hd].
      assert (S2 : source !! Z.of_nat i2 = Some d) by (apply chunk_source_lookup; by rewrite Nat2Z.id; split; [lia|]).
      rewrite <- E in S2. subst c'. rewrite lookup_insert_ne in S2; [congruence|].
      intros E2%Nat2Z.inj. apply Ni. rewrite E2. left.
Qed.

End OneAudioFrame.

(** ** Properties *)

(** An audio frame newer than any seen is delivered whatever order its
    fragments arrive in: every push but the last returns nothing, the last
    returns the concatenation of the fragments. *)
Theorem audio_delivered_in_any_order (s : AudioFragmentReassembler) (id : Z) (cs : list (list byte))
    (order : list nat) :
  audio_inv (fun _ => True) s ->
  match ar_newest_frame_id s with None => True | Some newest => newest < id end ->
  1 <= len cs -> order ≡ₚ seq 0 (length cs) ->
  fst (audio_run s (the_fragment id cs <$> order)) =
  replicate (length cs - 1) None ++ [Some (concat cs)].
Proof.
  intros I Hn Hc Pm.
  assert (L : length order = length cs) by (by rewrite Pm, length_seq).
  destruct (decide (2 <= len cs)) as [Hc2|Hc1].
  - rewrite (audio_run_tracked id cs order s ∅ Hc2), L; [done|..].
    + split_and!; [done | apply map_empty_subseteq | by left].
    + rewrite Pm. apply NoDup_seq.
    + intros i. rewrite Pm, elem_of_seq. rewrite lookup_empty. split; [done|lia].
    + intros i d Hd. right. rewrite Pm, elem_of_seq.
      apply chunk_source_lookup in Hd as [? Hd%lookup_lt_Some]. lia.
    + intros ->. unfold len in Hc. cbn in L. lia.
  - destruct cs as [|c [|]]; [rewrite len_nil in Hc; lia| |rewrite !len_cons in Hc1; len_facts; lia].
    cbn in Pm. apply Permutation_singleton_r in Pm as ->. cbn [fmap list_fmap audio_run].
    rewrite (audio_push_cases (fun _ => True)) by done. cbn [the_fragment af_header afh_frame_id].
    case_if; [destruct (ar_newest_frame_id s); [bool_prop; lia|done]|].
    cbn. by rewrite app_nil_r.
Qed.

(** Whatever fragments arrive, at most one audio frame, the newest, is
    pending, and every buffer returned is the in-order concatenation of one
    received fragment for each index of the frame it completes. *)
Theorem audio_returns_sent_fragments (fs : list AudioFragment) :
  Forall (fun f => AudioFragmentHeader_wf (af_header f)) fs ->
  let '(rs, s) := audio_run AudioFragmentReassembler_default fs in
  pending_frames s <= 1 /\
  forall i data, rs !! i = Some (Some data) -> exists f, fs !! i = Some f /\
    audio_assembled (fun g => g ∈ fs) (afh_frame_id (af_header f)) (afh_fragment_count (af_header f)) data.
Proof.
  intros F. pose proof (audio_run_spec (fun g => g ∈ fs) fs _ (audio_inv_default _)) as H.
  destruct (audio_run _ fs) as [rs s]. destruct H as [I H].
  - apply Forall_forall. intros f Hf. split; [|done]. rewrite Forall_forall in F. by apply F.
  - split; [|done]. apply pending_size in I. unfold pending_frames. lia.
Qed.

(** The frame numbers are compared as plain integers, not as 32-bit serial
    numbers: once frame [2^32 - 1] has been seen, the frames that follow it in
    the sender's wrapping numbering are all dropped. *)
Theorem audio_stops_at_wrap (s : AudioFragmentReassembler) (f : AudioFragment) :
  ar_newest_frame_id s = Some 4294967295 ->
  afh_frame_id (af_header f) = wrapping_add32 4294967295 1 ->
  audio_push s f = (None, s).
Proof. intros E Hf. unfold audio_push. by rewrite E, Hf. Qed.

(** ** Witnesses *)

Lemma audio_delivered_in_any_order_witness :
  fst (audio_run AudioFragmentReassembler_default
    (the_fragment 9 [str_bytes "a"; str_bytes "bc"; str_bytes "d"] <$> [2; 0; 1]%nat)) =
  [None; None; Some (str_bytes "abcd")].
Proof.
  apply (audio_delivered_in_any_order AudioFragmentReassembler_default 9
    [str_bytes "a"; str_bytes "bc"; str_bytes "d"] [2; 0; 1]%nat).
  - apply audio_inv_default.
  - exact Logic.I.
  - vm_compute. discriminate.
  - cbn. solve_Permutation.
Defined.

Lemma audio_returns_sent_fragments_witness :
  let fs := [mkAudioFragment (mkAudioFragmentHeader 3 1 2) (str_bytes "b");
    mkAudioFragment (mkAudioFragmentHeader 3 0 2) (str_bytes "a")] in
  let '(rs, s) := audio_run AudioFragmentReassembler_default fs in
  pending_frames s <= 1 /\
  forall i data, rs !! i = Some (Some data) -> exists f, fs !! i = Some f /\
    audio_assembled (fun g => g ∈ fs) (afh_frame_id (af_header f)) (afh_fragment_count (af_header f)) data.
Proof.
  apply (audio_returns_sent_fragments [mkAudioFragment (mkAudioFragmentHeader 3 1 2) (str_bytes "b");
    mkAudioFragment (mkAudioFragmentHeader 3 0 2) (str_bytes "a")]).
  repeat constructor; cbn; lia.
Defined.

Lemma audio_stops_at_wrap_witness :
  let s := mkAudioFragmentReassembler ∅ (Some 4294967295) 0 in
  audio_push s (mkAudioFragment (mkAudioFragmentHeader 0 0 1) (str_bytes "pcm")) = (None, s).
Proof. apply audio_stops_at_wrap; reflexivity. Defined.
