(* ===== verification/ReceiverStats.v ===== *)
(** * Receiver statistics

    [clients/rust/maho-app/src/receiver_stats.rs] and the sample ring of
    [latency.rs]: what the receiver counts about authenticated datagrams.  The
    gap trace is a log and is not modelled; rates and percentiles are computed
    in floating point and are not modelled, the integer sums they divide are. *)

From S2P Require Import Prelude Codec Media.

Definition RECEIVER_STATS_WINDOW : Duration := from_secs 5.
Definition RECEIVER_REORDER_GRACE : Duration := from_millis 100.
Definition RECEIVER_TELEMETRY_CAPACITY : Z := 4096.
#[export] Hint Unfold RECEIVER_TELEMETRY_CAPACITY RECEIVER_REORDER_GRACE RECEIVER_STATS_WINDOW : limits.

(** [checked_duration_since(at).is_some_and(..)] *)
Definition expired (at_ now : Instant) : bool :=
  match checked_duration_since now at_ with Some age => RECEIVER_STATS_WINDOW <? age | None => false end.
Definition in_window (at_ now : Instant) : bool :=
  match checked_duration_since now at_ with Some age => age <=? RECEIVER_STATS_WINDOW | None => false end.

Definition ahead (sequence previous : Z) : bool :=
  let delta := wrapping_sub32 sequence previous in
  negb (delta =? 0) && (delta <? Z.shiftl 1 31).

(** ** The sample ring *)

Record LatencyRecorder : Type := mkLatencyRecorder {
  lr_samples : list (Z * option Instant);
  lr_capacity : nat;
  lr_index : nat;
  lr_count : Z
}.

Definition LatencyRecorder_with_capacity (capacity : nat) : LatencyRecorder :=
  mkLatencyRecorder [] (Nat.max capacity 1) 0 0.
Definition LatencyRecorder_new : LatencyRecorder :=
  LatencyRecorder_with_capacity (Z.to_nat RECEIVER_TELEMETRY_CAPACITY).

Definition push_sample (r : LatencyRecorder) (latency_us : Z) (observed_at : option Instant)
    : LatencyRecorder :=
  let samples :=
    if (length (lr_samples r) <? lr_capacity r)%nat then lr_samples r ++ [(latency_us, observed_at)]
    else <[lr_index r := (latency_us, observed_at)]> (lr_samples r) in
  mkLatencyRecorder samples (lr_capacity r) (Nat.modulo (lr_index r + 1) (lr_capacity r))
    (Z.min U64_MAX (lr_count r + 1)).

Definition record_us_at (r : LatencyRecorder) (latency_us : Z) (observed_at : Instant)
    : LatencyRecorder := push_sample r latency_us (Some observed_at).
Definition record_duration_at (r : LatencyRecorder) (latency : Duration) (observed_at : Instant)
    : LatencyRecorder := record_us_at r (Z.min (latency / 1000) U64_MAX) observed_at.
Definition record_interval (r : LatencyRecorder) (started_at completed_at : Instant)
    : bool * LatencyRecorder :=
  match checked_duration_since completed_at started_at with
  | None => (false, r)
  | Some latency => (true, record_duration_at r latency completed_at)
  end.

(** The samples [stats_at] summarises. *)
Definition samples_at (r : LatencyRecorder) (now : Instant) (window : Duration) : list Z :=
  omap (fun '(latency_us, observed_at) =>
    match observed_at with
    | None => None
    | Some observed_at =>
      match checked_duration_since now observed_at with
      | Some age => if age <=? window then Some latency_us else None
      | None => None
      end
    end) (lr_samples r).

(** ** Packet loss *)

Record Position : Type := mkPosition { po_received : bool; po_observed_at : Instant }.

Record PacketLoss : Type := mkPacketLoss {
  pl_highest : option Z;
  pl_pending : list Position;
  pl_finalized : list (Instant * Z * Z)
}.

Definition record_finalized (l : list (Instant * Z * Z)) (at_ : Instant) (expected missing : Z)
    : list (Instant * Z * Z) :=
  if expected =? 0 then l
  else
    match reverse l with
    | (last_at, last_expected, last_missing) :: before =>
      if last_at =? at_ then
        reverse before ++ [(at_, saturating_add64 last_expected expected, saturating_add64 last_missing missing)]
      else
        (if len l =? RECEIVER_TELEMETRY_CAPACITY then tail l else l) ++ [(at_, expected, missing)]
    | [] => [(at_, expected, missing)]
    end.

(** [while let Some(position) = pending.front()] *)
Fixpoint finalize_due (pending : list Position) (finalized : list (Instant * Z * Z)) (now : Instant)
    : list Position * list (Instant * Z * Z) :=
  match pending with
  | [] => ([], finalized)
  | position :: rest =>
    match checked_duration_since now (po_observed_at position) with
    | None => (pending, finalized)
    | Some age =>
      if age <? RECEIVER_REORDER_GRACE then (pending, finalized)
      else
        let at_ := po_observed_at position + RECEIVER_REORDER_GRACE in
        let missing := if po_received position then 0 else 1 in
        finalize_due rest (record_finalized finalized at_ 1 missing) now
    end
  end.

Definition count_missing (l : list Position) : Z :=
  len (filter (fun p => po_received p = false) l).

Definition loss_observe (s : PacketLoss) (sequence : Z) (now : Instant) : PacketLoss :=
  let '(pending, finalized) := finalize_due (pl_pending s) (pl_finalized s) now in
  match pl_highest s with
  | None => mkPacketLoss (Some sequence) (pending ++ [mkPosition true now]) finalized
  | Some highest =>
    if negb (ahead sequence highest) then
      let behind := wrapping_sub32 highest sequence in
      if behind <? len pending then
        let index := Z.to_nat (len pending - 1 - behind) in
        match pending !! index with
        | Some p => mkPacketLoss (pl_highest s) (<[index := mkPosition true (po_observed_at p)]> pending) finalized
        | None => mkPacketLoss (pl_highest s) pending finalized
        end
      else mkPacketLoss (pl_highest s) pending finalized
    else
      let distance := wrapping_sub32 sequence highest in
      let overflow := Z.max 0 (len pending + distance - RECEIVER_TELEMETRY_CAPACITY) in
      let old := Z.min overflow (len pending) in
      let missing := count_missing (take (Z.to_nat old) pending) in
      let pending := drop (Z.to_nat old) pending in
      let skipped := overflow - old in
      let finalized := record_finalized finalized now overflow (missing + skipped) in
      let retained := distance - skipped in
      let added := (fun index => mkPosition (Z.of_nat index + 1 =? retained) now)
        <$> seq 0 (Z.to_nat retained) in
      mkPacketLoss (Some sequence) (pending ++ added) finalized
  end.

Definition loss_snapshot (s : PacketLoss) (now : Instant) : Z * Z * PacketLoss :=
  let '(pending, finalized) := finalize_due (pl_pending s) (pl_finalized s) now in
  let '(expected, missing) :=
    foldl (fun '(expected, missing) '(_, next_expected, next_missing) =>
      (saturating_add64 expected next_expected, saturating_add64 missing next_missing)) (0, 0)
      (filter (fun e => in_window e.1.1 now = true) finalized) in
  (expected, missing, mkPacketLoss (pl_highest s) pending finalized).

(** ** The receiver *)

Record ReceiverStats : Type := mkReceiverStats {
  rs_datagrams : Z;
  rs_bytes : Z;
  rs_arrivals : list (Instant * Z);
  rs_loss : PacketLoss;
  rs_host_ids : gmap Z Instant;
  rs_newest_host_id : option (Z * Instant);
  rs_ready_to_encode : LatencyRecorder;
  rs_encode : LatencyRecorder;
  rs_encode_to_send : LatencyRecorder;
  rs_assembly : LatencyRecorder
}.

Definition PacketLoss_default : PacketLoss := mkPacketLoss None [] [].
Definition ReceiverStats_default : ReceiverStats :=
  mkReceiverStats 0 0 [] PacketLoss_default ∅ None
    LatencyRecorder_new LatencyRecorder_new LatencyRecorder_new LatencyRecorder_new.

Fixpoint drop_expired (arrivals : list (Instant * Z)) (now : Instant) : list (Instant * Z) :=
  match arrivals with
  | (at_, bytes) :: rest => if expired at_ now then drop_expired rest now else arrivals
  | [] => []
  end.

Definition observe_datagram (s : ReceiverStats) (sequence bytes : Z) (now : Instant) : ReceiverStats :=
  let arrivals := drop_expired (rs_arrivals s) now in
  let arrivals := if len arrivals =? RECEIVER_TELEMETRY_CAPACITY then tail arrivals else arrivals in
  mkReceiverStats (saturating_add64 (rs_datagrams s) 1) (saturating_add64 (rs_bytes s) bytes)
    (arrivals ++ [(now, bytes)]) (loss_observe (rs_loss s) sequence now)
    (rs_host_ids s) (rs_newest_host_id s) (rs_ready_to_encode s) (rs_encode s)
    (rs_encode_to_send s) (rs_assembly s).

Definition checked_sub (a b : Z) : option Z := if b <=? a then Some (a - b) else None.

Definition record_host (s : ReceiverStats) (stats : TimestampStats) (now : Instant) : ReceiverStats :=
  match checked_sub (ts_encode_start_us stats) (ts_capture_us stats),
        checked_sub (ts_encode_end_us stats) (ts_encode_start_us stats),
        checked_sub (ts_send_us stats) (ts_encode_end_us stats) with
  | Some ready, Some encode, Some send =>
    let '(newest_id, ids) :=
      match rs_newest_host_id s with
      | Some (id, at_) => if expired at_ now then (None, ∅) else (Some (id, at_), rs_host_ids s)
      | None => (None, rs_host_ids s)
      end in
    let s := mkReceiverStats (rs_datagrams s) (rs_bytes s) (rs_arrivals s) (rs_loss s) ids newest_id
      (rs_ready_to_encode s) (rs_encode s) (rs_encode_to_send s) (rs_assembly s) in
    match
      match rs_newest_host_id s with
      | None => Some (ts_frame_id stats)
      | Some (id, _) =>
        if ahead (ts_frame_id stats) id then Some (ts_frame_id stats)
        else if RECEIVER_TELEMETRY_CAPACITY <=? wrapping_sub32 id (ts_frame_id stats) then None
        else Some id
      end
    with
    | None => s
    | Some newest =>
      let ids := filter (fun kv : Z * Instant =>
        (wrapping_sub32 newest kv.1 <? RECEIVER_TELEMETRY_CAPACITY) && negb (expired kv.2 now) = true)
        (rs_host_ids s) in
      match ids !! ts_frame_id stats with
      | Some _ =>
        mkReceiverStats (rs_datagrams s) (rs_bytes s) (rs_arrivals s) (rs_loss s) ids
          (rs_newest_host_id s) (rs_ready_to_encode s) (rs_encode s) (rs_encode_to_send s) (rs_assembly s)
      | None =>
        mkReceiverStats (rs_datagrams s) (rs_bytes s) (rs_arrivals s) (rs_loss s)
          (<[ts_frame_id stats := now]> ids) (Some (newest, now))
          (record_us_at (rs_ready_to_encode s) ready now) (record_us_at (rs_encode s) encode now)
          (record_us_at (rs_encode_to_send s) send now) (rs_assembly s)
      end
    end
  | _, _, _ => s
  end.

Definition record_assembly (s : ReceiverStats) (start end_ : Instant) : ReceiverStats :=
  match checked_duration_since end_ start with
  | None => s
  | Some duration =>
    mkReceiverStats (rs_datagrams s) (rs_bytes s) (rs_arrivals s) (rs_loss s) (rs_host_ids s)
      (rs_newest_host_id s) (rs_ready_to_encode s) (rs_encode s) (rs_encode_to_send s)
      (record_duration_at (rs_assembly s) duration end_)
  end.

(** The bytes and the interval [receive_bps] divides. *)
Definition receive_interval (s : ReceiverStats) (now : Instant) : option (Z * Duration) :=
  let times := filter (fun a => in_window a now = true) (fst <$> rs_arrivals s) in
  match times with
  | [] => None
  | first :: rest =>
    let '(first, last) := foldl (fun '(f, l) at_ => (Z.min f at_, Z.max l at_)) (first, first) rest in
    if last - first =? 0 then None
    else
      let counted := filter (fun a : Instant * Z => (first <? a.1) && in_window a.1 now = true) (rs_arrivals s) in
      Some (foldr Z.add 0 (snd <$> counted), last - first)
  end.

(** ** Loss accounting *)

Definition expected_sum (l : list (Instant * Z * Z)) : Z := foldr (fun e acc => e.1.2 + acc) 0 l.
Definition missing_sum (l : list (Instant * Z * Z)) : Z := foldr (fun e acc => e.2 + acc) 0 l.

Lemma expected_sum_app l1 l2 : expected_sum (l1 ++ l2) = expected_sum l1 + expected_sum l2.
Proof. unfold expected_sum. induction l1 as [|e l IH]; cbn in *; lia. Qed.
Lemma missing_sum_app l1 l2 : missing_sum (l1 ++ l2) = missing_sum l1 + missing_sum l2.
Proof. unfold missing_sum. induction l1 as [|e l IH]; cbn in *; lia. Qed.

(** Every finalized entry counts no more missing packets than packets. *)
Definition finalized_ok (l : list (Instant * Z * Z)) : Prop :=
  len l <= RECEIVER_TELEMETRY_CAPACITY /\ Forall (fun e => 0 <= e.2 <= e.1.2) l.

Lemma finalized_sums l : Forall (fun e => 0 <= e.2 <= e.1.2) l -> 0 <= missing_sum l <= expected_sum l.
Proof. unfold missing_sum, expected_sum. induction 1 as [|e l He F IH]; cbn in *; lia. Qed.

(** A ring that is not full has lost nothing. *)
Lemma record_finalized_spec l at_ e m :
  finalized_ok l -> 0 <= m <= e ->
  finalized_ok (record_finalized l at_ e m) /\ len l <= len (record_finalized l at_ e m) /\
  (len (record_finalized l at_ e m) < RECEIVER_TELEMETRY_CAPACITY -> expected_sum l + e <= U64_MAX ->
   expected_sum (record_finalized l at_ e m) = expected_sum l + e /\
   missing_sum (record_finalized l at_ e m) = missing_sum l + m).
Proof.
  intros [Hl F] He. unfold record_finalized. case_if.
  { split_and!; [done..|lia|]. intros _ _. lia. }
  destruct (reverse l) as [|[[t1 e1] m1] before] eqn:R.
  - apply (f_equal reverse) in R. rewrite reverse_involutive in R. subst l. cbn [reverse rev_append expected_sum missing_sum foldr fst snd].
    split_and!; [|rewrite len_cons; len_facts; lia|lia]. split; [rewrite len_cons, len_nil; width_lia|].
    by apply Forall_singleton.
  - apply (f_equal reverse) in R. rewrite reverse_involutive, reverse_cons in R.
    set (init := reverse before) in *. subst l. rewrite len_app, len_cons, len_nil in *.
    apply Forall_app in F as [F1 F2]. apply Forall_cons in F2 as [F2 _]. cbn in F2.
    pose proof (finalized_sums _ F1) as S1.
    case_if.
    + assert (U : U64_MAX = 18446744073709551615) by done.
      split; [|split].
      * split; [rewrite len_app, len_cons, len_nil; lia|].
        apply Forall_app. split; [done|]. apply Forall_singleton. cbn.
        unfold saturating_add64. rewrite U. lia.
      * autorewrite with len. lia.
      * intros _ B. rewrite !expected_sum_app, !missing_sum_app in *. cbn in *.
        unfold saturating_add64. lia.
    + case_if.
      * assert (L : len (tail (init ++ [(t1, e1, m1)])) = len init)
          by (destruct init; cbn; rewrite ?len_app, ?len_cons, ?len_nil; lia).
        split; [|autorewrite with len; rewrite ?L; split; lia]. split.
        -- autorewrite with len. rewrite ?L. lia.
        -- apply Forall_app. split; [|by apply Forall_singleton].
           apply Forall_tail, Forall_app. split; [done|]. by apply Forall_singleton.
      * split; [split|split].
        -- autorewrite with len. lia.
        -- apply Forall_app. split; [|by apply Forall_singleton].
           apply Forall_app. split; [done|]. by apply Forall_singleton.
        -- autorewrite with len. lia.
        -- intros _ _. rewrite !expected_sum_app, !missing_sum_app. cbn. lia.
Qed.

Lemma count_missing_app l1 l2 : count_missing (l1 ++ l2) = count_missing l1 + count_missing l2.
Proof. unfold count_missing. by rewrite filter_app, len_app. Qed.

Lemma count_missing_one b t : count_missing [mkPosition b t] = if b then 0 else 1.
Proof. by destruct b. Qed.

Lemma count_missing_bound l : 0 <= count_missing l <= len l.
Proof.
  unfold count_missing, len. pose proof (length_filter (fun p => po_received p = false) l). lia.
Qed.

Lemma finalize_due_spec pending finalized now :
  finalized_ok finalized ->
  let '(p, f) := finalize_due pending finalized now in
  finalized_ok f /\ len finalized <= len f /\
  exists done, pending = done ++ p /\
    (len f < RECEIVER_TELEMETRY_CAPACITY -> expected_sum finalized + len done <= U64_MAX ->
     expected_sum f = expected_sum finalized + len done /\
     missing_sum f = missing_sum finalized + count_missing done).
Proof.
  revert finalized. induction pending as [|x rest IH]; intros fin Ok; cbn [finalize_due].
  { split_and!; [done..|lia|]. exists []. split; [done|]. intros _ _. change (len (@nil Position)) with 0. change (count_missing []) with 0. lia. }
  assert (Stop : finalized_ok fin /\ len fin <= len fin /\ exists done, x :: rest = done ++ x :: rest /\
    (len fin < RECEIVER_TELEMETRY_CAPACITY -> expected_sum fin + len done <= U64_MAX ->
     expected_sum fin = expected_sum fin + len done /\ missing_sum fin = missing_sum fin + count_missing done)).
  { split_and!; [done..|lia|]. exists []. split; [done|]. intros _ _. change (len (@nil Position)) with 0. change (count_missing []) with 0. lia. }
  destruct (checked_duration_since now (po_observed_at x)) as [age|]; [|exact Stop].
  case_if; [exact Stop|]. clear Stop.
  set (m := if po_received x then 0 else 1).
  assert (Hm : 0 <= m <= 1) by (subst m; destruct (po_received x); lia).
  destruct (record_finalized_spec fin (po_observed_at x + RECEIVER_REORDER_GRACE) 1 m Ok ltac:(lia))
    as (Ok1 & L1 & E1).
  specialize (IH _ Ok1). destruct (finalize_due rest _ now) as [p f].
  destruct IH as (Ok2 & L2 & dn & -> & E2). split_and!; [done|lia|].
  exists (x :: dn). split; [done|]. rewrite len_cons. intros Hf Hb.
  assert (Hx : count_missing (x :: dn) = m + count_missing dn).
  { change (x :: dn) with ([x] ++ dn). rewrite count_missing_app. f_equal. subst m.
    unfold count_missing. cbn. by destruct (po_received x). }
  pose proof (len_nonneg dn).
  destruct (E1 ltac:(lia) ltac:(lia)) as [E1a E1b].
  destruct (E2 ltac:(lia) ltac:(lia)) as [E2a E2b]. rewrite Hx. lia.
Qed.

(** After the observation of packet number [u], [n] packets observed since the
    first, [u0]; numbers as the sender counts them, before they wrap. *)
Record loss_rel (s : PacketLoss) (u0 u n : Z) : Prop := {
  lo_highest : pl_highest s = Some (wrapping_add32 u 0);
  lo_pending : len (pl_pending s) <= RECEIVER_TELEMETRY_CAPACITY;
  lo_finalized : finalized_ok (pl_finalized s);
  lo_exact : len (pl_finalized s) < RECEIVER_TELEMETRY_CAPACITY ->
    expected_sum (pl_finalized s) + len (pl_pending s) = u - u0 + 1 /\
    missing_sum (pl_finalized s) + count_missing (pl_pending s) = u - u0 + 1 - n
}.

Lemma ahead_advance u v :
  u < v < u + Z.shiftl 1 31 ->
  ahead (wrapping_add32 v 0) (wrapping_add32 u 0) = true /\
  wrapping_sub32 (wrapping_add32 v 0) (wrapping_add32 u 0) = v - u.
Proof.
  intros H. assert (K : Z.shiftl 1 31 = 2147483648) by done. rewrite K in H.
  assert (E : wrapping_sub32 (wrapping_add32 v 0) (wrapping_add32 u 0) = v - u).
  { unfold wrapping_sub32, wrapping_add32. rewrite Zminus_mod_idemp_l, Zminus_mod_idemp_r.
    replace (v + 0 - (u + 0)) with (v - u) by lia. apply Z.mod_small. lia. }
  split; [|done]. unfold ahead. rewrite E, K. lia.
Qed.

Lemma added_missing n k now :
  (k < n)%nat ->
  count_missing ((fun index => mkPosition (Z.of_nat index + 1 =? Z.of_nat n) now) <$> seq k (n - k)) =
  Z.of_nat n - Z.of_nat k - 1.
Proof.
  intros H. remember (n - k)%nat as m eqn:Em. revert k H Em. induction m as [|m IH]; intros k H Em; [lia|].
  cbn [seq fmap list_fmap]. match goal with |- count_missing (?x :: ?l) = _ =>
    change (x :: l) with ([x] ++ l) end.
  rewrite count_missing_app. destruct (decide (m = 0)%nat) as [->|Hm].
  - cbn [seq fmap list_fmap]. rewrite count_missing_one, (proj2 (Z.eqb_eq _ _)) by lia.
    change (count_missing []) with 0. lia.
  - unfold fmap in IH. rewrite IH, count_missing_one, (proj2 (Z.eqb_neq _ _)) by lia. lia.
Qed.

Lemma loss_observe_step s u0 u n v now :
  loss_rel s u0 u n -> u0 <= u < v -> v < u + Z.shiftl 1 31 -> v - u0 + 1 <= U64_MAX ->
  loss_rel (loss_observe s (wrapping_add32 v 0) now) u0 v (n + 1).
Proof.
  intros [Hh Hp Hf Hx] Hu Hv Hb. unfold loss_observe. rewrite Hh.
  pose proof (finalize_due_spec (pl_pending s) (pl_finalized s) now Hf) as FD.
  destruct (finalize_due _ _ now) as [p f]. destruct FD as (Ok1 & L1 & dn & Ep & E1).
  rewrite Ep in Hp, Hx. rewrite len_app in Hp, Hx. rewrite count_missing_app in Hx.
  pose proof (len_nonneg dn). pose proof (len_nonneg p). pose proof (count_missing_bound dn).
  pose proof (count_missing_bound p).
  destruct (ahead_advance u v) as [-> ->]; [lia|]. cbn [negb]. set (d := v - u).
  set (overflow := Z.max 0 (len p + d - RECEIVER_TELEMETRY_CAPACITY)).
  set (old := Z.min overflow (len p)). set (retained := d - (overflow - old)).
  assert (Hr : 1 <= retained) by (subst retained old overflow d; width_lia).
  set (miss := count_missing (take (Z.to_nat old) p)).
  pose proof (count_missing_bound (take (Z.to_nat old) p)) as Bm. fold miss in Bm.
  assert (Lt : len (take (Z.to_nat old) p) = old) by (unfold len; rewrite length_take; unfold len in *; lia).
  assert (Ld : len (drop (Z.to_nat old) p) = len p - old) by (unfold len; rewrite length_drop; unfold len in *; lia).
  assert (Cm : miss + count_missing (drop (Z.to_nat old) p) = count_missing p).
  { subst miss. by rewrite <- count_missing_app, take_drop. }
  destruct (record_finalized_spec f now overflow (miss + (overflow - old)) Ok1 ltac:(lia)) as (Ok2 & L2 & E2).
  set (added := _ <$> seq 0 (Z.to_nat retained)).
  assert (La : len added = retained) by (unfold len, added; rewrite length_fmap, length_seq; lia).
  assert (Ca : count_missing added = retained - 1).
  { pose proof (added_missing (Z.to_nat retained) 0 now ltac:(lia)) as A.
    rewrite Nat.sub_0_r, Z2Nat.id in A by lia. unfold added. rewrite A. lia. }
  split; cbn [pl_highest pl_pending pl_finalized]; try done.
  - rewrite len_app, Ld, La. subst retained old overflow. width_lia.
  - intros Hlt. destruct (Hx ltac:(lia)) as [Hx1 Hx2].
    pose proof (finalized_sums _ (proj2 Hf)).
    destruct (E1 ltac:(lia) ltac:(lia)) as [E1a E1b].
    destruct (E2 ltac:(lia) ltac:(subst retained old overflow d; lia)) as [E2a E2b].
    rewrite E2a, E2b, len_app, count_missing_app, Ld, La, Ca, E1a, E1b. subst retained d. lia.
Qed.

Fixpoint observe_all (s : PacketLoss) (packets : list (Z * Instant)) : PacketLoss :=
  match packets with
  | [] => s
  | (number, now) :: packets => observe_all (loss_observe s (wrapping_add32 number 0) now) packets
  end.

(** Numbers ahead of the previous one by less than half the range. *)
Fixpoint increasing (u : Z) (numbers : list Z) : Prop :=
  match numbers with
  | [] => True
  | v :: numbers => u < v < u + Z.shiftl 1 31 /\ increasing v numbers
  end.

Lemma increasing_last u numbers : increasing u numbers -> u <= default u (last numbers).
Proof.
  revert u. induction numbers as [|v l IH]; intros u; [done|]. intros [Hv Hl].
  rewrite last_cons. apply IH in Hl. destruct (last l); cbn in *; lia.
Qed.

Lemma observe_all_rel packets s u0 u n :
  loss_rel s u0 u n -> u0 <= u -> increasing u packets.*1 ->
  default u (last packets.*1) - u0 + 1 <= U64_MAX ->
  loss_rel (observe_all s packets) u0 (default u (last packets.*1)) (n + len packets).
Proof.
  revert s u n. induction packets as [|[v now] packets IH]; intros s u n R Hu Inc Hb;
    cbn [observe_all fmap list_fmap fst] in *.
  - cbn. by rewrite len_nil, Z.add_0_r.
  - cbn [increasing] in Inc. destruct Inc as [Hv Inc]. pose proof (increasing_last _ _ Inc) as Hl.
    change (list_fmap (Z * Instant)%type Z fst packets) with packets.*1 in *.
    assert (Ld : default u (last (v :: packets.*1)) = default v (last packets.*1))
      by (rewrite last_cons; by destruct (last packets.*1)).
    rewrite Ld in *. rewrite len_cons.
    replace (n + (1 + len packets)) with (n + 1 + len packets) by lia.
    apply IH; [|lia|done|lia]. apply (loss_observe_step s u0 u n v now R); lia.
Qed.

(** The loss accounting counts every packet number exactly once.  When
    packets numbered [u0] and then any increasing numbers arrive (32-bit
    wrap-around included, gaps below half the range, at any times), then after
    each of them: the positions finalized and those still pending are, together,
    exactly the numbers from the first to the last; those counted or pending as
    missing are exactly the numbers that did not arrive; no more than 4096 are
    pending; and no finalized entry counts more losses than packets.  (Exact as
    long as the ring of 4096 finalized entries has not filled.) *)
Theorem packet_loss_exact (u0 : Z) (t0 : Instant) (packets : list (Z * Instant)) :
  increasing u0 packets.*1 -> default u0 (last packets.*1) - u0 + 1 <= U64_MAX ->
  let s := observe_all PacketLoss_default ((u0, t0) :: packets) in
  let numbers := default u0 (last packets.*1) - u0 + 1 in
  len (pl_pending s) <= RECEIVER_TELEMETRY_CAPACITY /\
  0 <= missing_sum (pl_finalized s) <= expected_sum (pl_finalized s) /\
  (len (pl_finalized s) < RECEIVER_TELEMETRY_CAPACITY ->
   expected_sum (pl_finalized s) + len (pl_pending s) = numbers /\
   missing_sum (pl_finalized s) + count_missing (pl_pending s) = numbers - (1 + len packets)).
Proof.
  intros Inc Hb. cbn [observe_all].
  assert (R : loss_rel (loss_observe PacketLoss_default (wrapping_add32 u0 0) t0) u0 u0 1).
  { split; cbn.
    - done.
    - vm_compute. congruence.
    - split; [vm_compute; congruence | apply Forall_nil_2].
    - intros _. rewrite count_missing_one. unfold len. cbn. lia. }
  destruct (observe_all_rel packets _ u0 u0 1 R ltac:(lia) Inc Hb) as [_ Hp Hf Hx].
  split_and!; [done | apply (finalized_sums _ (proj2 Hf)).. | done].
Qed.

Lemma packet_loss_exact_witness :
  let s := observe_all PacketLoss_default [(4294967294, 0); (4294967295, 5); (4294967301, 200000000)] in
  expected_sum (pl_finalized s) + len (pl_pending s) = 8 /\
  missing_sum (pl_finalized s) + count_missing (pl_pending s) = 5.
Proof.
  refine (proj2 (proj2 (packet_loss_exact 4294967294 0 [(4294967295, 5); (4294967301, 200000000)] _ _)) _).
  - vm_compute. split_and!; done.
  - vm_compute. congruence.
  - vm_compute. reflexivity.
Defined.
