(* ===== verification/ClipboardImage.v ===== *)
(** * Clipboard image transfers

    The sender's loop ([clients/rust/maho-app/src/session.rs],
    [send_clipboard_image]) and the two receivers: the client's [ImageAssembly]
    ([session_parity.rs]) and the host's [Assembly]
    ([clients/rust/maho-host/src/clipboard_image.rs]).  The PNG decoders are
    third-party code and are parameters. *)

From S2P Require Import Prelude Codec Parity.

(** The chunks sent for an image, with their offsets. *)
Definition image_chunks (transfer_id : Z) (png : list byte) : list ClipboardImageChunk :=
  imap (fun index chunk =>
    mkClipboardImageChunk transfer_id (len png)
      (Z.of_nat index * MAX_CLIPBOARD_IMAGE_CHUNK_BYTES) chunk)
    (chunks png MAX_CLIPBOARD_IMAGE_CHUNK_BYTES).

(** [png.len() > MAX || !png.starts_with(PNG_SIGNATURE)] *)
Definition image_sendable (png : list byte) : bool :=
  (len png <=? MAX_CLIPBOARD_IMAGE_BYTES) && starts_with png PNG_SIGNATURE.

Inductive ImageError : Type :=
| IE_Protocol (e : CodecError)
| IE_InvalidClipboardImage.

(** ** The client's receiver *)

Record ImageAssembly : Type := mkImageAssembly {
  ia_latest_id : option Z;
  ia_pending : option (Z * Z * list byte * Instant)
}.

Definition ImageAssembly_default : ImageAssembly := mkImageAssembly None None.
Definition image_discard (s : ImageAssembly) : ImageAssembly := mkImageAssembly (ia_latest_id s) None.

Section Decoder.

(** [image::ImageReader] with its limits: whether it decodes the bytes. *)
Context (decodes : list byte -> bool).

(** The last part of [push]: the chunk is appended to the pending transfer. *)
Definition image_append (s : ImageAssembly) (chunk : ClipboardImageChunk)
    : result ImageError (option (list byte)) * ImageAssembly :=
  match ia_pending s with
  | None => (Err IE_InvalidClipboardImage, s)
  | Some (id, total, data, at_) =>
    if negb (id =? cic_transfer_id chunk) || negb (total =? cic_total_bytes chunk)
       || negb (len data =? cic_offset chunk)
    then (Err IE_InvalidClipboardImage, image_discard s)
    else
      let data := data ++ cic_png_bytes chunk in
      if len data =? total then
        let s := image_discard s in
        if decodes data then (Ok (Some data), s) else (Err IE_InvalidClipboardImage, s)
      else (Ok None, mkImageAssembly (ia_latest_id s) (Some (id, total, data, at_)))
  end.

Definition image_push (s : ImageAssembly) (chunk : ClipboardImageChunk) (now : Instant)
    : result ImageError (option (list byte)) * ImageAssembly :=
  match ClipboardImageChunk_encode chunk with
  | Err e => (Err (IE_Protocol e), s)
  | Ok _ =>
    let s :=
      match ia_pending s with
      | Some (_, _, _, at_) => if from_secs 10 <=? saturating_duration_since now at_ then image_discard s else s
      | None => s
      end in
    if (cic_offset chunk =? 0) &&
       match ia_latest_id s with Some id => cic_transfer_id chunk <=? id | None => false end
    then (Err IE_InvalidClipboardImage, s)
    else
      let s :=
        if cic_offset chunk =? 0 then
          mkImageAssembly (Some (cic_transfer_id chunk))
            (Some (cic_transfer_id chunk, cic_total_bytes chunk, [], now))
        else s in
      image_append s chunk
  end.

End Decoder.

(** ** The host's receiver *)

Definition IMAGE_LIMIT : Z := 8 * 1024 * 1024.

(** [io::Error]: of kind [InvalidData], or of another kind from the decoder. *)
Inductive AssemblyError : Type := AE_InvalidData | AE_Other.

Record Assembly : Type := mkAssembly {
  as_active : option (Z * Z * Instant * list byte);
  as_used : gset Z
}.

Definition Assembly_default : Assembly := mkAssembly None ∅.
Definition assembly_cancel (s : Assembly) : Assembly := mkAssembly None (as_used s).
Definition assembly_expire (s : Assembly) (now : Instant) : Assembly :=
  match as_active s with
  | Some (_, _, started, _) =>
    if from_secs 5 <=? saturating_duration_since now started then assembly_cancel s else s
  | None => s
  end.

Section HostDecoder.

(** [png::Decoder] with its limits. *)
Context (read_png : list byte -> bool).

Definition validate_png (bytes : list byte) : result AssemblyError unit :=
  if (IMAGE_LIMIT <? len bytes) || negb (starts_with bytes PNG_SIGNATURE) then Err AE_InvalidData
  else if read_png bytes then Ok tt else Err AE_Other.

(** The last part of [push]: the chunk is appended to the active transfer. *)
Definition assembly_append (s : Assembly) (chunk : ClipboardImageChunk)
    : result AssemblyError (option (list byte)) * Assembly :=
  match as_active s with
  | None => (Err AE_InvalidData, s)
  | Some (id, expected, started, bytes) =>
    if negb (id =? cic_transfer_id chunk) || negb (expected =? cic_total_bytes chunk)
       || negb (len bytes =? cic_offset chunk) || (cic_total_bytes chunk <? len bytes + len (cic_png_bytes chunk))
    then (Err AE_InvalidData, assembly_cancel s)
    else
      let bytes := bytes ++ cic_png_bytes chunk in
      if negb (len bytes =? cic_total_bytes chunk) then (Ok None, mkAssembly (Some (id, expected, started, bytes)) (as_used s))
      else
        match validate_png bytes with
        | Err e => (Err e, assembly_cancel s)
        | Ok _ => (Ok (Some bytes), assembly_cancel s)
        end
  end.

Definition assembly_push (s : Assembly) (chunk : ClipboardImageChunk) (now : Instant)
    : result AssemblyError (option (list byte)) * Assembly :=
  let s := assembly_expire s now in
  let total := cic_total_bytes chunk in
  if negb ((8 <=? total) && (total <=? IMAGE_LIMIT)) || (len (cic_png_bytes chunk) =? 0)
     || (65536 <? len (cic_png_bytes chunk))
  then (Err AE_InvalidData, assembly_cancel s)
  else
    let first := cic_offset chunk =? 0 in
    let full := 65536 <=? Z.of_nat (size (as_used s)) in
    let known := bool_decide (cic_transfer_id chunk ∈ as_used s) in
    (* [insert] runs unless the set is full *)
    let used := if first && negb full then {[cic_transfer_id chunk]} ∪ as_used s else as_used s in
    if first && (full || known || negb (starts_with (cic_png_bytes chunk) PNG_SIGNATURE))
    then (Err AE_InvalidData, mkAssembly None used)
    else
      let s := if first then mkAssembly (Some (cic_transfer_id chunk, total, now, [])) used else s in
      assembly_append s chunk.

End HostDecoder.

(** ** The chunks sent are well formed *)

Lemma starts_with_len bytes prefix : starts_with bytes prefix = true -> len prefix <= len bytes.
Proof.
  unfold starts_with. intros E%bool_decide_eq_true. apply (f_equal length) in E.
  rewrite length_take in E. unfold len. lia.
Qed.

Lemma starts_with_take bytes prefix n :
  (length prefix <= n)%nat -> starts_with (take n bytes) prefix = starts_with bytes prefix.
Proof. intros. unfold starts_with. by rewrite take_take, Nat.min_l. Qed.

(** What each chunk of an image satisfies, from its position. *)
Record chunk_fits (id : Z) (png : list byte) (pre : list (list byte)) (c : ClipboardImageChunk) : Prop := {
  cf_id : cic_transfer_id c = id;
  cf_total : cic_total_bytes c = len png;
  cf_offset : cic_offset c = len (concat pre);
  cf_bound : len (concat pre) + len (cic_png_bytes c) <= len png;
  cf_wf : ClipboardImageChunk_wf c
}.

Lemma image_chunks_fits id png pre piece rest :
  u32_ok id -> image_sendable png = true ->
  chunks png MAX_CLIPBOARD_IMAGE_CHUNK_BYTES = pre ++ piece :: rest ->
  chunk_fits id png pre
    (mkClipboardImageChunk id (len png) (len pre * MAX_CLIPBOARD_IMAGE_CHUNK_BYTES) piece).
Proof.
  intros Hid [Hm Hs]%andb_true_iff E. bool_prop.
  pose proof (starts_with_len _ _ Hs) as H8. change (len PNG_SIGNATURE) with 8 in H8.
  destruct (chunks_spec png MAX_CLIPBOARD_IMAGE_CHUNK_BYTES) as (C & F & _); [done|].
  pose proof (chunks_prefix png MAX_CLIPBOARD_IMAGE_CHUNK_BYTES pre (piece :: rest) ltac:(done) E ltac:(done)) as P.
  rewrite E in C, F. rewrite concat_app in C. cbn [concat] in C.
  assert (L : len png = len (concat pre) + (len piece + len (concat rest)))
    by (rewrite <- C; by rewrite !len_app).
  apply Forall_app in F as [_ F]. apply Forall_cons in F as [Fp _].
  pose proof (len_nonneg (concat rest)). pose proof (len_nonneg (concat pre)).
  split; cbn; try done; [lia|]. unfold ClipboardImageChunk_wf. cbn.
  assert (K : MAX_CLIPBOARD_IMAGE_CHUNK_BYTES = 65536) by done.
  assert (K2 : MAX_CLIPBOARD_IMAGE_BYTES = 8388608) by done. rewrite K, K2 in *.
  split_and!; try width_lia. intros Z0.
  assert (pre = []) as -> by (destruct pre; [done|]; rewrite len_cons in Z0; len_facts; lia).
  destruct png as [|b bs]; [by rewrite len_nil in H8|]. cbn [app] in E. unfold chunks in E.
  remember (Z.to_nat 65536) as k eqn:Hk. cbn [length chunks_fuel] in E.
  injection E as <- _. rewrite starts_with_take; [done|]. change (length PNG_SIGNATURE) with 8%nat.
  clear - Hk. lia.
Qed.

Section Transfer.

Context {S E : Type} (push : S -> ClipboardImageChunk -> Instant -> result E (option (list byte)) * S).

Fixpoint push_chunks (s : S) (l : list (ClipboardImageChunk * Instant))
    : list (result E (option (list byte))) * S :=
  match l with
  | [] => ([], s)
  | (c, now) :: l =>
    let '(r, s) := push s c now in let '(rs, s) := push_chunks s l in (r :: rs, s)
  end.

(** A receiver that, holding the pieces [pre], takes the next one, assembles an
    image from its chunks in order. *)
Context (id : Z) (png : list byte) (holds : S -> list (list byte) -> Prop) (ok : Instant -> Prop).
Context (Hid : u32_ok id) (Hpng : image_sendable png = true).
Context (step : forall s pre c now, ok now -> holds s pre -> chunk_fits id png pre c ->
  (len (concat pre) + len (cic_png_bytes c) = len png -> concat pre ++ cic_png_bytes c = png) ->
  let '(r, s') := push s c now in
  if len (concat pre) + len (cic_png_bytes c) =? len png
  then r = Ok (Some (concat pre ++ cic_png_bytes c))
  else r = Ok None /\ holds s' (pre ++ [cic_png_bytes c])).

Lemma push_chunks_rest rest s pre times :
  chunks png MAX_CLIPBOARD_IMAGE_CHUNK_BYTES = pre ++ rest -> rest <> [] ->
  Forall ok times -> length times = length rest -> holds s pre ->
  fst (push_chunks s (zip (imap (fun index chunk =>
    mkClipboardImageChunk id (len png) ((len pre + Z.of_nat index) * MAX_CLIPBOARD_IMAGE_CHUNK_BYTES) chunk)
    rest) times)) =
  replicate (length rest - 1) (Ok None) ++ [Ok (Some png)].
Proof.
  revert s pre times. induction rest as [|piece rest IH]; intros s pre times E0 Hne Ht Hl Hh; [done|].
  destruct times as [|now times]; [done|]. injection Hl as Hl. apply Forall_cons in Ht as [Hn Ht].
  pose proof (image_chunks_fits id png pre piece rest Hid Hpng E0) as Fit.
  cbn [imap zip zip_with push_chunks]. rewrite Z.add_0_r.
  destruct (chunks_spec png MAX_CLIPBOARD_IMAGE_CHUNK_BYTES) as (C & F & _); [done|].
  rewrite E0 in C, F. rewrite concat_app in C. cbn [concat] in C.
  apply (f_equal len) in C as Cl. rewrite !len_app in Cl.
  assert (Full : len (concat pre) + len piece = len png -> concat pre ++ piece = png).
  { intros Hfull. assert (L0 : len (concat rest) = 0) by lia. unfold len in L0.
    destruct (concat rest); [by rewrite app_nil_r in C | cbn in L0; lia]. }
  pose proof (step s pre _ now Hn Hh Fit Full) as St. cbn [cic_png_bytes] in St.
  destruct (push s _ now) as [r s1].
  destruct rest as [|piece2 rest].
  - cbn [concat] in *. rewrite len_nil in Cl. rewrite app_nil_r in C.
    rewrite (proj2 (Z.eqb_eq _ _)) in St by lia. rewrite C in St. subst r.
    destruct times; [|done]. cbn. done.
  - apply Forall_app in F as [_ F]. apply Forall_cons in F as [_ F]. apply Forall_cons in F as [F2 _].
    cbn [concat] in Cl. rewrite len_app in Cl. pose proof (len_nonneg (concat rest)).
    rewrite (proj2 (Z.eqb_neq _ _)) in St by lia. destruct St as [-> Hh'].
    specialize (IH s1 (pre ++ [piece]) times). rewrite <- app_assoc in IH.
    specialize (IH E0 ltac:(done) Ht Hl Hh').
    assert (Em : imap (fun index chunk => mkClipboardImageChunk id (len png)
        ((len (pre ++ [piece]) + Z.of_nat index) * MAX_CLIPBOARD_IMAGE_CHUNK_BYTES) chunk) (piece2 :: rest) =
      imap (fun index chunk => mkClipboardImageChunk id (len png)
        ((len pre + Z.of_nat (Datatypes.S index)) * MAX_CLIPBOARD_IMAGE_CHUNK_BYTES) chunk) (piece2 :: rest)).
    { apply imap_ext. intros j c _. f_equal. rewrite len_app, len_cons, len_nil. f_equal. lia. }
    rewrite Em in IH. clear Em.
    change (imap ((fun index chunk => mkClipboardImageChunk id (len png)
        ((len pre + Z.of_nat index) * MAX_CLIPBOARD_IMAGE_CHUNK_BYTES) chunk) ∘ Datatypes.S) (piece2 :: rest))
      with (imap (fun index chunk => mkClipboardImageChunk id (len png)
        ((len pre + Z.of_nat (Datatypes.S index)) * MAX_CLIPBOARD_IMAGE_CHUNK_BYTES) chunk) (piece2 :: rest)).
    destruct (push_chunks s1 _) as [rs s2]. cbn [fst] in *. rewrite IH.
    cbn [length]. by rewrite !Nat.sub_succ, !Nat.sub_0_r.
Qed.

Lemma push_chunks_image s times :
  holds s [] -> Forall ok times -> length times = length (image_chunks id png) ->
  fst (push_chunks s (zip (image_chunks id png) times)) =
  replicate (length times - 1) (Ok None) ++ [Ok (Some png)].
Proof.
  intros Hh Ht Hl. unfold image_chunks in *. rewrite length_imap in Hl.
  rewrite Hl. apply (push_chunks_rest _ s [] times); try done.
  intros E0. apply andb_true_iff in Hpng as [_ Hs]. apply starts_with_len in Hs.
  change (len PNG_SIGNATURE) with 8 in Hs.
  destruct (chunks_spec png MAX_CLIPBOARD_IMAGE_CHUNK_BYTES) as (C & _ & _); [done|].
  rewrite E0 in C. rewrite <- C in Hs. cbn in Hs. unfold len in Hs. cbn in Hs. lia.
Qed.

End Transfer.

(** ** The two receivers *)

Definition within_from (t0 : Instant) (d : Duration) (now : Instant) : Prop := t0 <= now < t0 + d.

Lemma within_from_live t0 d a b : 0 < d -> within_from t0 d a -> within_from t0 d b ->
  (d <=? saturating_duration_since a b) = false.
Proof. unfold within_from, saturating_duration_since. intros. apply Z.leb_gt. lia. Qed.

Definition client_holds (id : Z) (png : list byte) (t0 : Instant) (s : ImageAssembly)
    (pre : list (list byte)) : Prop :=
  match pre with
  | [] => match ia_latest_id s with Some latest => latest < id | None => True end
  | _ => 0 < len (concat pre) /\ exists started, within_from t0 (from_secs 10) started /\
      ia_pending s = Some (id, len png, concat pre, started)
  end.

(** Appending the next chunk to the pending transfer. *)
Lemma image_append_spec decodes id png t0 latest started pre c :
  decodes png = true -> within_from t0 (from_secs 10) started -> chunk_fits id png pre c ->
  (len (concat pre) + len (cic_png_bytes c) = len png -> concat pre ++ cic_png_bytes c = png) ->
  let '(r, s') := image_append decodes (mkImageAssembly latest (Some (id, len png, concat pre, started))) c in
  if len (concat pre) + len (cic_png_bytes c) =? len png
  then r = Ok (Some (concat pre ++ cic_png_bytes c))
  else r = Ok None /\ client_holds id png t0 s' (pre ++ [cic_png_bytes c]).
Proof.
  intros Hd Hs [Ei Et Eo Eb Wf] Full. unfold image_append. cbn [ia_pending].
  assert (Hp : 1 <= len (cic_png_bytes c)) by apply Wf. pose proof (len_nonneg (concat pre)).
  rewrite Ei, Et, Eo, !Z.eqb_refl. cbn [negb orb]. rewrite len_app.
  destruct (Z.eqb_spec (len (concat pre) + len (cic_png_bytes c)) (len png)).
  - rewrite Full by done. by rewrite Hd.
  - split; [done|]. unfold client_holds.
    destruct (pre ++ [cic_png_bytes c]) as [|p l] eqn:Ne; [by destruct pre|]. rewrite <- Ne.
    rewrite concat_app. cbn [concat]. rewrite app_nil_r, len_app. split; [lia|]. by exists started.
Qed.

Lemma client_step decodes id png t0 s pre c now :
  decodes png = true -> within_from t0 (from_secs 10) now -> client_holds id png t0 s pre ->
  chunk_fits id png pre c ->
  (len (concat pre) + len (cic_png_bytes c) = len png -> concat pre ++ cic_png_bytes c = png) ->
  let '(r, s') := image_push decodes s c now in
  if len (concat pre) + len (cic_png_bytes c) =? len png
  then r = Ok (Some (concat pre ++ cic_png_bytes c))
  else r = Ok None /\ client_holds id png t0 s' (pre ++ [cic_png_bytes c]).
Proof.
  intros Hd Hn Hh Fit Full. pose proof Fit as [Ei Et Eo Eb Wf]. unfold image_push.
  rewrite ClipboardImageChunk_encode_eq by done. cbv zeta. destruct pre as [|p pre].
  - cbn in Eo. rewrite len_nil in Eo. rewrite Eo, Z.eqb_refl, Ei, Et. cbn [andb].
    set (s1 := match ia_pending s with Some _ => _ | None => _ end).
    assert (El : ia_latest_id s1 = ia_latest_id s)
      by (unfold s1; destruct (ia_pending s) as [[[[? ?] ?] ?]|]; [case_match|]; done).
    rewrite El. cbn in Hh.
    assert (Hl : match ia_latest_id s with Some l => id <=? l | None => false end = false)
      by (destruct (ia_latest_id s); [lia | done]).
    rewrite Hl. by apply (image_append_spec decodes id png t0 _ now []).
  - destruct Hh as (Hpos & started & Hs & Ep). rewrite Eo, (proj2 (Z.eqb_neq _ _)) by lia. cbn [andb].
    rewrite Ep, within_from_live with (t0 := t0) by done.
    replace s with (mkImageAssembly (ia_latest_id s) (Some (id, len png, concat (p :: pre), started)))
      by (destruct s; cbn in *; by subst).
    by apply image_append_spec.
Qed.

Definition host_holds (id : Z) (png : list byte) (t0 : Instant) (s : Assembly)
    (pre : list (list byte)) : Prop :=
  match pre with
  | [] => (id ∉ as_used s) /\ Z.of_nat (size (as_used s)) < 65536
  | _ => 0 < len (concat pre) /\ exists started, within_from t0 (from_secs 5) started /\
      as_active s = Some (id, len png, started, concat pre)
  end.

Lemma assembly_append_spec read_png id png t0 used started pre c :
  image_sendable png = true -> read_png png = true -> within_from t0 (from_secs 5) started ->
  chunk_fits id png pre c ->
  (len (concat pre) + len (cic_png_bytes c) = len png -> concat pre ++ cic_png_bytes c = png) ->
  let '(r, s') := assembly_append read_png (mkAssembly (Some (id, len png, started, concat pre)) used) c in
  if len (concat pre) + len (cic_png_bytes c) =? len png
  then r = Ok (Some (concat pre ++ cic_png_bytes c))
  else r = Ok None /\ host_holds id png t0 s' (pre ++ [cic_png_bytes c]).
Proof.
  intros Hi Hd Hs [Ei Et Eo Eb Wf] Full. unfold assembly_append. cbn [as_active].
  assert (Hp : 1 <= len (cic_png_bytes c)) by apply Wf. pose proof (len_nonneg (concat pre)).
  rewrite Ei, Et, Eo, !Z.eqb_refl, (proj2 (Z.ltb_ge _ _)) by lia. cbn [negb orb]. rewrite len_app.
  destruct (Z.eqb_spec (len (concat pre) + len (cic_png_bytes c)) (len png)); cbn [negb].
  - rewrite Full by done. unfold validate_png. apply andb_true_iff in Hi as [Hm Hs'].
    apply Z.leb_le in Hm. change MAX_CLIPBOARD_IMAGE_BYTES with IMAGE_LIMIT in Hm.
    rewrite (proj2 (Z.ltb_ge _ _)) by lia. by rewrite Hs', Hd.
  - split; [done|]. unfold host_holds.
    destruct (pre ++ [cic_png_bytes c]) as [|p l] eqn:Ne; [by destruct pre|]. rewrite <- Ne.
    rewrite concat_app. cbn [concat]. rewrite app_nil_r, len_app. split; [lia|]. by exists started.
Qed.

Lemma host_step read_png id png t0 s pre c now :
  image_sendable png = true -> read_png png = true -> within_from t0 (from_secs 5) now ->
  host_holds id png t0 s pre -> chunk_fits id png pre c ->
  (len (concat pre) + len (cic_png_bytes c) = len png -> concat pre ++ cic_png_bytes c = png) ->
  let '(r, s') := assembly_push read_png s c now in
  if len (concat pre) + len (cic_png_bytes c) =? len png
  then r = Ok (Some (concat pre ++ cic_png_bytes c))
  else r = Ok None /\ host_holds id png t0 s' (pre ++ [cic_png_bytes c]).
Proof.
  intros Hi Hd Hn Hh Fit Full. pose proof Fit as [Ei Et Eo Eb Wf]. unfold assembly_push. cbv zeta.
  destruct Wf as (_ & _ & Wt & Wp & _ & Wsig). change MAX_CLIPBOARD_IMAGE_BYTES with IMAGE_LIMIT in Wt.
  change MAX_CLIPBOARD_IMAGE_CHUNK_BYTES with 65536 in Wp.
  rewrite (proj2 (Z.leb_le _ _) (proj1 Wt)), (proj2 (Z.leb_le _ _) (proj2 Wt)).
  rewrite (proj2 (Z.eqb_neq _ _)) by lia. rewrite (proj2 (Z.ltb_ge _ _)) by lia. cbn [andb negb orb].
  assert (Us : as_used (assembly_expire s now) = as_used s).
  { unfold assembly_expire. destruct (as_active s) as [[[[? ?] ?] ?]|]; [case_match|]; done. }
  rewrite Us. destruct pre as [|q pre].
  - destruct Hh as [Hu Hsz]. cbn in Eo. rewrite len_nil in Eo. rewrite Eo, Z.eqb_refl. cbn [andb].
    rewrite (proj2 (Z.leb_gt _ _)) by lia. rewrite Ei, bool_decide_false by done.
    rewrite Wsig by done. cbn [negb orb]. rewrite Et.
    by apply (assembly_append_spec read_png id png t0 _ now []).
  - destruct Hh as (Hpos & started & Hs & Ep). rewrite Eo, (proj2 (Z.eqb_neq _ _)) by lia. cbn [andb].
    assert (Ex : assembly_expire s now = mkAssembly (Some (id, len png, started, concat (q :: pre))) (as_used s)).
    { unfold assembly_expire. rewrite Ep, within_from_live with (t0 := t0) by done. destruct s. cbn in *. by subst. }
    rewrite Ex. by apply assembly_append_spec.
Qed.

(** ** Properties *)

(** A PNG that the sender accepts arrives.  The chunks [send_clipboard_image]
    sends are well-formed messages; when the host receives them in order within
    five seconds under a transfer id not used before, every chunk but the last is
    stored and the last one returns exactly the image. *)
Theorem host_receives_image read_png (s : Assembly) (id : Z) (png : list byte) (t0 : Instant)
    (times : list Instant) :
  u32_ok id -> image_sendable png = true -> read_png png = true ->
  (id ∉ as_used s) -> Z.of_nat (size (as_used s)) < 65536 ->
  Forall (within_from t0 (from_secs 5)) times -> length times = length (image_chunks id png) ->
  fst (push_chunks (assembly_push read_png) s (zip (image_chunks id png) times)) =
  replicate (length times - 1) (Ok None) ++ [Ok (Some png)].
Proof.
  intros Hid Hp Hd Hu Hsz Ht Hl.
  apply (push_chunks_image (assembly_push read_png) id png (host_holds id png t0)
    (within_from t0 (from_secs 5))); try done.
  intros s' pre c now Hn Hh Fit Full. by apply host_step.
Qed.

(** The same for the client's receiver, within ten seconds and under a
    transfer id above every one seen before, whatever transfer was pending. *)
Theorem client_receives_image decodes (s : ImageAssembly) (id : Z) (png : list byte) (t0 : Instant)
    (times : list Instant) :
  u32_ok id -> image_sendable png = true -> decodes png = true ->
  match ia_latest_id s with Some latest => latest < id | None => True end ->
  Forall (within_from t0 (from_secs 10)) times -> length times = length (image_chunks id png) ->
  fst (push_chunks (image_push decodes) s (zip (image_chunks id png) times)) =
  replicate (length times - 1) (Ok None) ++ [Ok (Some png)].
Proof.
  intros Hid Hp Hd Hlat Ht Hl.
  apply (push_chunks_image (image_push decodes) id png (client_holds id png t0)
    (within_from t0 (from_secs 10))); try done.
  intros s' pre c now Hn Hh Fit Full. by apply client_step.
Qed.

(** What a host assembly keeps: the active transfer fits its declared size, which
    is at most 8 MiB, and its id is used; at most 65536 ids are remembered. *)
Record assembly_wf (s : Assembly) : Prop := {
  aw_active : forall id total started bytes, as_active s = Some (id, total, started, bytes) ->
    len bytes <= total <= IMAGE_LIMIT /\ id ∈ as_used s;
  aw_used : Z.of_nat (size (as_used s)) <= 65536
}.

Lemma assembly_wf_cancel u : Z.of_nat (size u) <= 65536 -> assembly_wf (mkAssembly None u).
Proof. by split. Qed.

Lemma assembly_append_wf read_png s c :
  assembly_wf s ->
  let '(r, s') := assembly_append read_png s c in
  assembly_wf s' /\ as_used s' = as_used s /\
  forall png, r = Ok (Some png) -> len png = cic_total_bytes c /\ read_png png = true /\
    starts_with png PNG_SIGNATURE = true.
Proof.
  intros W. unfold assembly_append.
  destruct (as_active s) as [[[[id total] started] bytes]|] eqn:Ea; [|done].
  pose proof (aw_used _ W) as Wu. pose proof (aw_active _ W _ _ _ _ Ea) as [Wl Wi].
  case_if; [split_and!; [by apply assembly_wf_cancel | done..]|].
  assert (Hb : total = cic_total_bytes c /\ len bytes + len (cic_png_bytes c) <= cic_total_bytes c)
    by (bool_prop; destruct_and?; bool_prop; lia).
  destruct Hb as [-> Hb]. destruct (Z.eqb_spec (len (bytes ++ cic_png_bytes c)) (cic_total_bytes c)) as [E|E]; cbn [negb].
  - unfold validate_png. case_if; [split_and!; [by apply assembly_wf_cancel | done..]|].
    destruct (read_png _) eqn:Rd; (split_and!; [by apply assembly_wf_cancel | done|]); [|done].
    intros png [= <-]. bool_prop. by split_and!.
  - split_and!; [|done..]. split; [|done]. cbn. intros ???? [= <- <- <- <-].
    rewrite len_app. split; [lia|done].
Qed.

Lemma assembly_push_wf read_png s c now :
  assembly_wf s ->
  let '(r, s') := assembly_push read_png s c now in
  assembly_wf s' /\ (as_used s ⊆ as_used s') /\
  forall png, r = Ok (Some png) -> len png <= IMAGE_LIMIT /\ read_png png = true /\
    starts_with png PNG_SIGNATURE = true.
Proof.
  intros W. unfold assembly_push. cbv zeta.
  assert (W1 : assembly_wf (assembly_expire s now) /\ as_used (assembly_expire s now) = as_used s).
  { unfold assembly_expire. destruct (as_active s) as [[[[? ?] ?] ?]|]; [case_if|];
      split; try done. apply assembly_wf_cancel, W. }
  destruct W1 as [W1 U1]. pose proof (aw_used _ W1) as Wu. rewrite U1 in Wu |- *.
  set (s1 := assembly_expire s now) in *.
  case_if; [split_and!; [apply assembly_wf_cancel; by rewrite U1 | cbn; by rewrite U1 | done]|].
  bool_prop. set (used := if _ && negb _ then _ else as_used s).
  assert (Su : as_used s ⊆ used) by (subst used; case_match; set_solver).
  assert (Sz : Z.of_nat (size used) <= 65536).
  { subst used. destruct ((cic_offset c =? 0) && negb _) eqn:E; [|done].
    pose proof (size_union_alt {[cic_transfer_id c]} (as_used s)) as Q. rewrite Q, size_singleton.
    pose proof (subseteq_size (as_used s ∖ {[cic_transfer_id c]}) (as_used s) ltac:(set_solver)).
    bool_prop. destruct_and?. bool_prop. lia. }
  case_if; [split_and!; [by apply assembly_wf_cancel | done..]|].
  set (s2 := if cic_offset c =? 0 then _ else s1).
  assert (W2 : assembly_wf s2 /\ as_used s ⊆ as_used s2).
  { subst s2. case_if; [|by rewrite U1]. split; [|done]. split; [|done]. cbn.
    intros ???? [= <- <- <- <-]. rewrite len_nil. split; [width_lia|]. subst used.
    destruct Heqb as [|Hb]; [done|]. apply orb_false_iff in Hb as [[Fu _]%orb_false_iff _].
    rewrite Fu. cbn [andb negb]. set_solver. }
  destruct W2 as [W2 U2]. pose proof (assembly_append_wf read_png s2 c W2) as A.
  destruct (assembly_append read_png s2 c) as [r s']. destruct A as (Wa & Ua & Pa).
  split_and!; [done | by rewrite Ua|]. intros png Hr. destruct (Pa png Hr) as (-> & ? & ?).
  split_and!; done || lia.
Qed.

(** Whatever chunks a peer sends and whenever, the host's receiver keeps at
    most the declared size of one transfer, never more than 8 MiB, remembers at
    most 65 536 ids and never forgets one; and what it returns is at most 8 MiB,
    starts with the PNG signature and was accepted by the decoder. *)
Theorem host_image_bounded read_png (l : list (ClipboardImageChunk * Instant)) :
  let '(rs, s) := push_chunks (assembly_push read_png) Assembly_default l in
  match as_active s with
  | Some (id, total, _, bytes) => len bytes <= total <= IMAGE_LIMIT /\ id ∈ as_used s
  | None => True
  end /\
  Z.of_nat (size (as_used s)) <= 65536 /\
  forall png, Ok (Some png) ∈ rs -> len png <= IMAGE_LIMIT /\ read_png png = true /\
    starts_with png PNG_SIGNATURE = true.
Proof.
  assert (H : forall s, assembly_wf s ->
    let '(rs, s') := push_chunks (assembly_push read_png) s l in
    assembly_wf s' /\ forall png, Ok (Some png) ∈ rs -> len png <= IMAGE_LIMIT /\ read_png png = true /\
      starts_with png PNG_SIGNATURE = true).
  { induction l as [|[c now] l IH]; intros s W; cbn [push_chunks].
    - split; [done|]. by intros png ?%elem_of_nil.
    - pose proof (assembly_push_wf read_png s c now W) as P.
      destruct (assembly_push read_png s c now) as [r s1]. destruct P as (W1 & _ & P1).
      specialize (IH s1 W1). destruct (push_chunks _ s1 l) as [rs s2]. destruct IH as [W2 P2].
      split; [done|]. intros png [E|Hin]%elem_of_cons; auto. }
  specialize (H Assembly_default (assembly_wf_cancel ∅ ltac:(rewrite size_empty; lia))).
  destruct (push_chunks _ _ l) as [rs s]. destruct H as [[Wa Wu] P]. split_and!; try done.
  destruct (as_active s) as [[[[id total] started] bytes]|]; [|done]. by eapply Wa.
Qed.

Definition example_png : list byte := PNG_SIGNATURE ++ str_bytes "0123456789".

Lemma host_receives_image_witness :
  fst (push_chunks (assembly_push (fun _ => true)) Assembly_default (zip (image_chunks 4 example_png) [5])) =
  [Ok (Some example_png)].
Proof.
  apply (host_receives_image (fun _ => true) Assembly_default 4 example_png 0 [5]).
  - vm_compute. split; congruence.
  - vm_compute. reflexivity.
  - reflexivity.
  - cbn. apply not_elem_of_empty.
  - cbn. rewrite size_empty. lia.
  - repeat constructor; vm_compute; congruence.
  - vm_compute. reflexivity.
Defined.

Lemma client_receives_image_witness :
  fst (push_chunks (image_push (fun _ => true)) (mkImageAssembly (Some 3) None)
    (zip (image_chunks 4 example_png) [5])) = [Ok (Some example_png)].
Proof.
  apply (client_receives_image (fun _ => true) (mkImageAssembly (Some 3) None) 4 example_png 0 [5]).
  - vm_compute. split; congruence.
  - vm_compute. reflexivity.
  - reflexivity.
  - cbn. lia.
  - repeat constructor; vm_compute; congruence.
  - vm_compute. reflexivity.
Defined.
