(* ===== verification/ClientSession.v ===== *)
(** * The client session

    [clients/rust/maho-app/src/session.rs] and [session_parity.rs]: what the
    client does with each packet it receives, the permission and capability
    checks on what it sends, and the state they share.  A call of a method is
    one step on the state; the code releases its lock between the parts of some
    methods (between a permission check and the write), and the interleavings
    that allows are not modelled.  Locks are never poisoned in the model.  The
    TCP writer, the clock of packet timestamps, the AEAD and the image decoder
    are parameters. *)

From S2P Require Import Prelude Codec Packet Handshake Media Input Parity.
From S2P Require Import Control Assembler AudioReassembler ReceiverStats ClipboardImage Transport UdpGcm.

Inductive SessionState : Type :=
| SS_Disconnected | SS_Connecting | SS_AwaitingPairing | SS_AwaitingHandshakeAck | SS_Ready.

#[export] Instance SessionState_eq_dec : EqDecision SessionState.
Proof. solve_decision. Defined.

(** The variants of [SessionError] the modelled methods return. *)
Inductive SessionError : Type :=
| CE_NotReady
| CE_Protocol (e : CodecError)
| CE_Datagram (e : DatagramError)
| CE_Media (e : MediaAssemblyError)
| CE_Transport
| CE_Unsupported
| CE_PermissionDenied
| CE_Cancelled
| CE_InvalidClipboardImage.

Record CursorState : Type := mkCursorState { cus_x : Z; cus_y : Z; cus_cursor_type : Z }.

(** The bits of [-1.0_f32]. *)
Definition CursorState_default : CursorState := mkCursorState 0xbf800000 0xbf800000 0.

(** [f32::clamp(0.0, 1.0)] on the bits: not-a-number is kept, so is [-0.0]. *)
Definition f32_is_nan (bits : Z) : bool := 0x7f800000 <? Z.land bits 0x7fffffff.
Definition clamp_unit (bits : Z) : Z :=
  if f32_is_nan bits then bits
  else if Z.testbit bits 31 then (if Z.land bits 0x7fffffff =? 0 then bits else 0)
  else if 0x3f800000 <? bits then 0x3f800000 else bits.

Definition cursor_update (update : CursorUpdate) : CursorState :=
  mkCursorState (clamp_unit (cu_x update)) (clamp_unit (cu_y update)) (cu_cursor_type update).

Inductive SessionEvent : Type :=
| EV_Frame (f : AssembledFrame)
| EV_Audio (data : list byte)
| EV_Cursor (c : CursorState)
| EV_Clipboard (text : rstring)
| EV_StreamConfig (m : ControlMessage)
| EV_InputAck (sequence : Z) (success : bool) (error_code : Z)
| EV_Ping
| EV_Ignored.

Record StreamState : Type := mkStreamState {
  sts_host_supports_stream_options : bool;
  sts_active : option StreamOptionsActive;
  sts_displays : list HostDisplay;
  sts_policy : option HostPolicy;
  sts_last_reject : option rstring
}.

Record SessionInfo : Type := mkSessionInfo {
  si_host_status : option HostStatus;
  si_permissions : option GuestPermissions;
  si_ended : option SessionEndReason;
  si_secure_attention_response : option SecureAttentionResponse
}.

(** The round-trip times: the last one, and all those the smoothed value folds. *)
Record ParityState : Type := mkParityState {
  pas_info : SessionInfo;
  pas_rtt : list Duration;
  pas_probe : option (Z * Instant);
  pas_sas_pending : option Z;
  pas_next_sas : Z;
  pas_images : ImageAssembly;
  pas_clipboard_enabled : bool;
  pas_completed_image : option (list byte)
}.

Record SessionStateInner : Type := mkInner {
  in_state : SessionState;
  in_next_tcp_sequence : Z;
  in_server : option Handshake;
  in_frames : FrameAssembler;
  in_receiver : ReceiverStats;
  in_audio : AudioFragmentReassembler;
  in_cursor : CursorState;
  in_stream_state : StreamState;
  in_parity : ParityState
}.

(** The session: its configured capabilities, its state, and the packets given
    to the TCP stream so far. *)
Record ClientSession : Type := mkClientSession {
  cl_capabilities : Capabilities;
  cl_state : SessionStateInner;
  cl_last_input_ack : option (Z * bool * Z);
  cl_cancelled : bool;
  cl_image_sequence : Z;
  cl_udp_receive : option DatagramCipher;
  cl_udp_registered : bool;
  cl_tcp_sent : list (list byte)
}.

Definition set_inner (c : ClientSession) (i : SessionStateInner) : ClientSession :=
  mkClientSession (cl_capabilities c) i (cl_last_input_ack c) (cl_cancelled c) (cl_image_sequence c)
    (cl_udp_receive c) (cl_udp_registered c) (cl_tcp_sent c).
Definition set_ack (c : ClientSession) (a : option (Z * bool * Z)) : ClientSession :=
  mkClientSession (cl_capabilities c) (cl_state c) a (cl_cancelled c) (cl_image_sequence c)
    (cl_udp_receive c) (cl_udp_registered c) (cl_tcp_sent c).
Definition set_image_sequence (c : ClientSession) (n : Z) : ClientSession :=
  mkClientSession (cl_capabilities c) (cl_state c) (cl_last_input_ack c) (cl_cancelled c) n
    (cl_udp_receive c) (cl_udp_registered c) (cl_tcp_sent c).
Definition set_udp (c : ClientSession) (u : option DatagramCipher) (registered : bool) : ClientSession :=
  mkClientSession (cl_capabilities c) (cl_state c) (cl_last_input_ack c) (cl_cancelled c)
    (cl_image_sequence c) u registered (cl_tcp_sent c).
Definition add_sent (c : ClientSession) (packet : list byte) : ClientSession :=
  mkClientSession (cl_capabilities c) (cl_state c) (cl_last_input_ack c) (cl_cancelled c)
    (cl_image_sequence c) (cl_udp_receive c) (cl_udp_registered c) (cl_tcp_sent c ++ [packet]).

Definition set_state (i : SessionStateInner) (st : SessionState) : SessionStateInner :=
  mkInner st (in_next_tcp_sequence i) (in_server i) (in_frames i) (in_receiver i) (in_audio i)
    (in_cursor i) (in_stream_state i) (in_parity i).
Definition set_tcp_sequence (i : SessionStateInner) (n : Z) : SessionStateInner :=
  mkInner (in_state i) n (in_server i) (in_frames i) (in_receiver i) (in_audio i)
    (in_cursor i) (in_stream_state i) (in_parity i).
Definition set_media (i : SessionStateInner) (f : FrameAssembler) (r : ReceiverStats)
    (a : AudioFragmentReassembler) : SessionStateInner :=
  mkInner (in_state i) (in_next_tcp_sequence i) (in_server i) f r a
    (in_cursor i) (in_stream_state i) (in_parity i).
Definition set_cursor (i : SessionStateInner) (u : CursorState) : SessionStateInner :=
  mkInner (in_state i) (in_next_tcp_sequence i) (in_server i) (in_frames i) (in_receiver i) (in_audio i)
    u (in_stream_state i) (in_parity i).
Definition set_stream (i : SessionStateInner) (t : StreamState) : SessionStateInner :=
  mkInner (in_state i) (in_next_tcp_sequence i) (in_server i) (in_frames i) (in_receiver i) (in_audio i)
    (in_cursor i) t (in_parity i).
Definition set_parity (i : SessionStateInner) (p : ParityState) : SessionStateInner :=
  mkInner (in_state i) (in_next_tcp_sequence i) (in_server i) (in_frames i) (in_receiver i) (in_audio i)
    (in_cursor i) (in_stream_state i) p.

Definition set_policy (t : StreamState) (p : option HostPolicy) : StreamState :=
  mkStreamState (sts_host_supports_stream_options t) (sts_active t) (sts_displays t) p (sts_last_reject t).
Definition set_active (t : StreamState) (a : StreamOptionsActive) : StreamState :=
  mkStreamState (sts_host_supports_stream_options t) (Some a) (sts_displays t) (sts_policy t) (sts_last_reject t).
Definition set_displays (t : StreamState) (l : list HostDisplay) : StreamState :=
  mkStreamState (sts_host_supports_stream_options t) (sts_active t) l (sts_policy t) (sts_last_reject t).
Definition set_reject (t : StreamState) (m : rstring) : StreamState :=
  mkStreamState (sts_host_supports_stream_options t) (sts_active t) (sts_displays t) (sts_policy t) (Some m).

Definition set_info (p : ParityState) (i : SessionInfo) : ParityState :=
  mkParityState i (pas_rtt p) (pas_probe p) (pas_sas_pending p) (pas_next_sas p) (pas_images p)
    (pas_clipboard_enabled p) (pas_completed_image p).
Definition set_rtt (p : ParityState) (l : list Duration) (probe : option (Z * Instant)) : ParityState :=
  mkParityState (pas_info p) l probe (pas_sas_pending p) (pas_next_sas p) (pas_images p)
    (pas_clipboard_enabled p) (pas_completed_image p).
Definition set_sas (p : ParityState) (pending : option Z) (next : Z) : ParityState :=
  mkParityState (pas_info p) (pas_rtt p) (pas_probe p) pending next (pas_images p)
    (pas_clipboard_enabled p) (pas_completed_image p).
Definition set_images (p : ParityState) (i : ImageAssembly) (completed : option (list byte)) : ParityState :=
  mkParityState (pas_info p) (pas_rtt p) (pas_probe p) (pas_sas_pending p) (pas_next_sas p) i
    (pas_clipboard_enabled p) completed.
Definition set_enabled (p : ParityState) (b : bool) : ParityState :=
  mkParityState (pas_info p) (pas_rtt p) (pas_probe p) (pas_sas_pending p) (pas_next_sas p) (pas_images p)
    b (pas_completed_image p).

(** [images.discard(); completed_image = None] *)
Definition drop_images (p : ParityState) : ParityState := set_images p (image_discard (pas_images p)) None.

(** [ParityState::pong] *)
Definition pong (p : ParityState) (timestamp : Z) (now : Instant) : ParityState :=
  match pas_probe p with
  | Some (expected, sent) =>
    if (expected =? timestamp) && (sent <=? now) && (now - sent <=? from_secs 10)
    then set_rtt p (pas_rtt p ++ [now - sent]) None
    else p
  | None => p
  end.

(** ** Capabilities and permissions *)

Definition server_contains (i : SessionStateInner) (capability : Capabilities) : bool :=
  match in_server i with Some s => Capabilities_contains (hs_capabilities s) capability | None => false end.

Definition negotiated (c : ClientSession) (capability : Capabilities) : bool :=
  Capabilities_contains (cl_capabilities c) capability && server_contains (cl_state c) capability.

Definition NO_PERMISSIONS : GuestPermissions := mkGuestPermissions false false false false false.

Definition permissions_locked (c : ClientSession) : option GuestPermissions :=
  if negotiated c CAP_GUEST_PERMISSIONS then
    Some (default NO_PERMISSIONS (si_permissions (pas_info (in_parity (cl_state c)))))
  else
    (fun p => mkGuestPermissions (hp_allow_input p) (hp_allow_input p) true (hp_allow_clipboard p) true)
    <$> sts_policy (in_stream_state (cl_state c)).

Definition effective_permissions : ClientSession -> option GuestPermissions := permissions_locked.

Definition clipboard_allowed (c : ClientSession) : bool :=
  pas_clipboard_enabled (in_parity (cl_state c)) &&
  match permissions_locked c with Some p => gp_clipboard p | None => true end.

(** Whether the permissions let an input event be sent. *)
Definition input_allowed (p : GuestPermissions) (t : InputEventType) : bool :=
  match t with
  | IE_Reset => true
  | IE_KeyDown | IE_KeyUp | IE_FlagsChanged | IE_UnicodeChar => gp_keyboard p
  | IE_GamepadAxis | IE_GamepadButtonDown | IE_GamepadButtonUp => gp_gamepad p
  | _ => gp_mouse p
  end.

Definition reset_event : InputEvent :=
  mkInputEvent IE_Reset F32_ZERO F32_ZERO 0 Modifiers_empty F32_ZERO F32_ZERO.

(** ** Operations *)

Section Client.

(** The AEAD, the image decoder, the clock of packet timestamps, and the TCP
    stream: whether it accepts a packet, given what was written before. *)
Context (decrypt : list byte -> list byte -> list byte -> list byte -> option (list byte)).
Context (decodes : list byte -> bool).
Context (current_unix_ms : list (list byte) -> Z).
Context (tcp_accepts : list (list byte) -> list byte -> bool).

Definition client_send_packet (c : ClientSession) (packet_type : PacketType) (payload : list byte)
    : result SessionError unit * ClientSession :=
  let i := cl_state c in
  let sequence := wrapping_add32 (in_next_tcp_sequence i) 1 in
  let header := mkPacketHeader packet_type sequence (current_unix_ms (cl_tcp_sent c) mod 4294967296) 0 in
  match PacketHeader_encode header with
  | Err e => (Err (CE_Protocol e), c)
  | Ok packet =>
    let packet := packet ++ payload in
    if tcp_accepts (cl_tcp_sent c) packet
    then (Ok tt, set_inner (add_sent c packet) (set_tcp_sequence i sequence))
    else (Err CE_Transport, c)
  end.

Definition send_ready_packet (c : ClientSession) (packet_type : PacketType) (payload : list byte)
    : result SessionError unit * ClientSession :=
  if bool_decide (in_state (cl_state c) = SS_Ready) then client_send_packet c packet_type payload
  else (Err CE_NotReady, c).

Definition send_input (c : ClientSession) (event : InputEvent)
    : result SessionError unit * ClientSession :=
  if match permissions_locked c with
     | Some p => negb (input_allowed p (ie_event_type event))
     | None => false
     end
  then (Err CE_PermissionDenied, c)
  else
    match InputEvent_encode event with
    | Err e => (Err (CE_Protocol e), c)
    | Ok payload => send_ready_packet c PT_InputEvent payload
    end.

Definition is_clipboard (m : ControlMessage) : bool :=
  match m with CM_ClipboardSyncUpdate _ | CM_ClipboardImageChunk _ => true | _ => false end.

Definition send_control (c : ClientSession) (control : ControlMessage)
    : result SessionError unit * ClientSession :=
  if match required_capability (message_type control) with
     | Some capability => negb (negotiated c capability)
     | None => false
     end
  then (Err CE_Unsupported, c)
  else if is_clipboard control && negb (clipboard_allowed c) then (Err CE_PermissionDenied, c)
  else
    match ControlMessage_encode control with
    | Err e => (Err (CE_Protocol e), c)
    | Ok payload => send_ready_packet c PT_Control payload
    end.

Definition request_secure_attention (c : ClientSession) : result SessionError Z * ClientSession :=
  if negb (negotiated c CAP_SECURE_ATTENTION) then (Err CE_Unsupported, c)
  else
    let p := in_parity (cl_state c) in
    match pas_sas_pending p with
    | Some _ => (Err CE_NotReady, c)
    | None =>
      if U32_MAX <? pas_next_sas p + 1 then (Err CE_Unsupported, c)
      else
        let id := pas_next_sas p + 1 in
        let c := set_inner c (set_parity (cl_state c) (set_sas p (Some id) id)) in
        match send_control c (CM_SecureAttentionRequest (mkSecureAttentionRequest id)) with
        | (Err e, c) =>
          (Err e, set_inner c (set_parity (cl_state c)
             (set_sas (in_parity (cl_state c)) None (pas_next_sas (in_parity (cl_state c))))))
        | (Ok _, c) => (Ok id, c)
        end
    end.

Definition set_clipboard_enabled (c : ClientSession) (enabled : bool) : ClientSession :=
  let p := set_enabled (in_parity (cl_state c)) enabled in
  set_inner c (set_parity (cl_state c) (if enabled then p else drop_images p)).

Definition take_clipboard_image (c : ClientSession) : option (list byte) * ClientSession :=
  let p := in_parity (cl_state c) in
  (pas_completed_image p, set_inner c (set_parity (cl_state c) (set_images p (pas_images p) None))).

(** The loop of [send_clipboard_image]; permissions are checked for each chunk. *)
Fixpoint send_image_chunks (c : ClientSession) (l : list ClipboardImageChunk)
    : result SessionError unit * ClientSession :=
  match l with
  | [] => (Ok tt, c)
  | chunk :: l =>
    if negb (clipboard_allowed c) then (Err CE_PermissionDenied, c)
    else
      match send_control c (CM_ClipboardImageChunk chunk) with
      | (Err e, c) => (Err e, c)
      | (Ok _, c) => send_image_chunks c l
      end
  end.

Definition send_clipboard_image (c : ClientSession) (png : list byte)
    : result SessionError unit * ClientSession :=
  if negb (negotiated c CAP_CLIPBOARD_IMAGE) then (Err CE_Unsupported, c)
  else if negb (clipboard_allowed c) then (Err CE_PermissionDenied, c)
  else if negb (image_sendable png) then (Err CE_InvalidClipboardImage, c)
  else if U32_MAX <? cl_image_sequence c + 1 then (Err CE_Unsupported, c)
  else
    let id := cl_image_sequence c + 1 in
    send_image_chunks (set_image_sequence c id) (image_chunks id png).

Definition send_rtt_probe (c : ClientSession) (epoch now : Instant)
    : result SessionError unit * ClientSession :=
  if negb (negotiated c CAP_RTT_PROBE) then (Ok tt, c)
  else
    let p := in_parity (cl_state c) in
    if match pas_probe p with
       | Some (_, sent) => saturating_duration_since now sent <? from_secs 10
       | None => false
       end
    then (Ok tt, c)
    else
      let timestamp := (saturating_duration_since now epoch / 1000) mod 18446744073709551616 in
      let c := set_inner c (set_parity (cl_state c) (set_rtt p (pas_rtt p) (Some (timestamp, now)))) in
      send_control c (CM_RttPing (mkRttProbe timestamp)).

(** [self.interrupt()]: the cancellation flag; the sockets are shut down. *)
Definition interrupt (c : ClientSession) : ClientSession :=
  mkClientSession (cl_capabilities c) (cl_state c) (cl_last_input_ack c) true (cl_image_sequence c)
    (cl_udp_receive c) (cl_udp_registered c) (cl_tcp_sent c).

(** *** The control messages *)

Definition set_parity_of (c : ClientSession) (p : ParityState) : ClientSession :=
  set_inner c (set_parity (cl_state c) p).

Definition handle_guest_permissions (c : ClientSession) (permissions : GuestPermissions)
    : result SessionError SessionEvent * ClientSession :=
  let i := cl_state c in
  let p := in_parity i in
  let removed :=
    match si_permissions (pas_info p) with
    | Some old =>
      (gp_keyboard old && negb (gp_keyboard permissions)) ||
      (gp_mouse old && negb (gp_mouse permissions)) ||
      (gp_gamepad old && negb (gp_gamepad permissions))
    | None => false
    end in
  let info := pas_info p in
  let p := set_info p (mkSessionInfo (si_host_status info) (Some permissions) (si_ended info)
    (si_secure_attention_response info)) in
  let t := set_policy (in_stream_state i)
    (Some (mkHostPolicy (gp_keyboard permissions && gp_mouse permissions) (gp_clipboard permissions))) in
  let p := if negb (gp_clipboard permissions) then drop_images p else p in
  let c := set_inner c (set_parity (set_stream i t) p) in
  if removed then
    match send_input c reset_event with
    | (Err e, c) => (Err e, c)
    | (Ok _, c) => (Ok (EV_StreamConfig (CM_GuestPermissions permissions)), c)
    end
  else (Ok (EV_StreamConfig (CM_GuestPermissions permissions)), c).

Definition handle_session_ended (c : ClientSession) (ended : SessionEnded)
    : result SessionError SessionEvent * ClientSession :=
  let i := cl_state c in
  let info := pas_info (in_parity i) in
  let p := set_info (in_parity i) (mkSessionInfo (si_host_status info) (si_permissions info)
    (Some (se_reason ended)) (si_secure_attention_response info)) in
  let i := set_parity i (drop_images p) in
  let i := set_media i (FrameAssembler_clear (in_frames i)) (in_receiver i) (audio_clear (in_audio i)) in
  let c := snd (send_input (set_inner c i) reset_event) in
  let c := interrupt c in
  (Ok (EV_StreamConfig (CM_SessionEnded ended)), set_inner c (set_state (cl_state c) SS_Disconnected)).

Definition handle_secure_attention (c : ClientSession) (response : SecureAttentionResponse)
    : result SessionError SessionEvent * ClientSession :=
  let p := in_parity (cl_state c) in
  if bool_decide (pas_sas_pending p = Some (sas_request_id response)) then
    let info := pas_info p in
    let p := set_sas p None (pas_next_sas p) in
    let p := set_info p (mkSessionInfo (si_host_status info) (si_permissions info) (si_ended info)
      (Some response)) in
    (Ok (EV_StreamConfig (CM_SecureAttentionResponse response)), set_parity_of c p)
  else (Ok EV_Ignored, c).

Definition handle_image_chunk (c : ClientSession) (chunk : ClipboardImageChunk) (now : Instant)
    : result SessionError SessionEvent * ClientSession :=
  let p := in_parity (cl_state c) in
  if negb (pas_clipboard_enabled p) ||
     match permissions_locked c with Some q => negb (gp_clipboard q) | None => false end
  then (Err CE_PermissionDenied, c)
  else
    let '(r, images) := image_push decodes (pas_images p) chunk now in
    match r with
    | Err (IE_Protocol e) => (Err (CE_Protocol e), set_parity_of c (set_images p images (pas_completed_image p)))
    | Err IE_InvalidClipboardImage =>
      (Err CE_InvalidClipboardImage, set_parity_of c (set_images p images (pas_completed_image p)))
    | Ok (Some png) => (Ok EV_Ignored, set_parity_of c (set_images p images (Some png)))
    | Ok None => (Ok EV_Ignored, set_parity_of c (set_images p images (pas_completed_image p)))
    end.

Definition handle_clipboard_text (c : ClientSession) (update : ClipboardSyncUpdate)
    : result SessionError SessionEvent * ClientSession :=
  let c := set_parity_of c (drop_images (in_parity (cl_state c))) in
  if negb (pas_clipboard_enabled (in_parity (cl_state c))) ||
     match permissions_locked c with Some q => negb (gp_clipboard q) | None => false end
  then (Ok EV_Ignored, c)
  else (Ok (EV_Clipboard (csu_text update)), c).

Definition send_pong (c : ClientSession) : result SessionError SessionEvent * ClientSession :=
  match send_control c CM_Pong with
  | (Err e, c) => (Err e, c)
  | (Ok _, c) => (Ok EV_Ping, c)
  end.

Definition handle_control (c : ClientSession) (message : ControlMessage) (now : Instant)
    : result SessionError SessionEvent * ClientSession :=
  let i := cl_state c in
  let p := in_parity i in
  let t := in_stream_state i in
  match message with
  | CM_HostStatus status =>
    let info := pas_info p in
    (Ok (EV_StreamConfig (CM_HostStatus status)),
     set_parity_of c (set_info p (mkSessionInfo (Some status) (si_permissions info) (si_ended info)
       (si_secure_attention_response info))))
  | CM_GuestPermissions permissions => handle_guest_permissions c permissions
  | CM_SessionEnded ended => handle_session_ended c ended
  | CM_SecureAttentionResponse response => handle_secure_attention c response
  | CM_RttPong probe => (Ok EV_Ignored, set_parity_of c (pong p (rp_timestamp_us probe) now))
  | CM_ClipboardImageChunk chunk => handle_image_chunk c chunk now
  | CM_Ping => send_pong c
  | CM_ClipboardSyncUpdate update => handle_clipboard_text c update
  | CM_InputAck ack =>
    (Ok (EV_InputAck (iam_sequence ack) (iam_success ack) (iam_error_code ack)),
     set_ack c (Some (iam_sequence ack, iam_success ack, iam_error_code ack)))
  | CM_StreamOptionsActive active =>
    (Ok (EV_StreamConfig (CM_StreamOptionsActive active)), set_inner c (set_stream i (set_active t active)))
  | CM_HostDisplayList displays =>
    (Ok (EV_StreamConfig (CM_HostDisplayList displays)),
     set_inner c (set_stream i (set_displays t (hdl_displays displays))))
  | CM_HostPolicy policy =>
    (Ok (EV_StreamConfig (CM_HostPolicy policy)),
     if negotiated c CAP_GUEST_PERMISSIONS then c
     else set_inner c (set_stream i (set_policy t (Some policy))))
  | CM_StreamConfigReject reject =>
    (Ok (EV_StreamConfig (CM_StreamConfigReject reject)),
     set_inner c (set_stream i (set_reject t (scj_message reject))))
  | CM_StreamConfigResponse _ | CM_StreamConfigError _ => (Ok (EV_StreamConfig message), c)
  | _ => (Ok EV_Ignored, c)
  end.

(** *** Packets *)

Definition handle_video (c : ClientSession)
    (pushed : result MediaAssemblyError (option AssembledFrame) * FrameAssembler)
    (received_at : Instant) : result SessionError SessionEvent * ClientSession :=
  let i := cl_state c in
  match pushed with
  | (Err e, frames) => (Err (CE_Media e), set_inner c (set_media i frames (in_receiver i) (in_audio i)))
  | (Ok frame, frames) =>
    let '(started, frames) := take_completed_started_at frames in
    let receiver := match started with
      | Some started_at => record_assembly (in_receiver i) started_at received_at
      | None => in_receiver i
      end in
    (Ok (match frame with Some f => EV_Frame f | None => EV_Ignored end),
     set_inner c (set_media i frames receiver (in_audio i)))
  end.

(** [received_at] and [Instant::now()] of the TCP path are the same reading. *)
Definition handle_packet (c : ClientSession) (header : PacketHeader) (payload : list byte)
    (udp_observation : option (Instant * Z)) (now : Instant)
    : result SessionError SessionEvent * ClientSession :=
  if negb (bool_decide (in_state (cl_state c) = SS_Ready)) then (Err CE_NotReady, c)
  else
    let '(from_udp, received_at, c) :=
      match udp_observation with
      | Some (at_, bytes) =>
        let i := cl_state c in
        (true, at_, set_inner c (set_media i (in_frames i)
           (observe_datagram (in_receiver i) (ph_sequence header) bytes at_) (in_audio i)))
      | None => (false, now, c)
      end in
    let i := cl_state c in
    match ph_packet_type header, from_udp with
    | PT_FrameHeader, true =>
      match FrameHeader_decode payload with
      | Err e => (Err (CE_Protocol e), c)
      | Ok h => handle_video c (push_header (in_frames i) h (ph_timestamp_ms header) received_at) received_at
      end
    | PT_FrameChunk, true =>
      match FrameChunk_decode payload with
      | Err e => (Err (CE_Protocol e), c)
      | Ok chunk => handle_video c (push_chunk (in_frames i) chunk received_at) received_at
      end
    | PT_AudioFrame, true =>
      if match permissions_locked c with Some p => negb (gp_audio p) | None => false end
      then (Ok EV_Ignored, c)
      else
        match AudioFragment_decode payload with
        | Err e => (Err (CE_Protocol e), c)
        | Ok fragment =>
          let '(data, audio) := audio_push (in_audio i) fragment in
          (Ok (match data with Some d => EV_Audio d | None => EV_Ignored end),
           set_inner c (set_media i (in_frames i) (in_receiver i) audio))
        end
    | PT_CursorUpdate, true =>
      match CursorUpdate_decode payload with
      | Err e => (Err (CE_Protocol e), c)
      | Ok update =>
        (Ok (EV_Cursor (cursor_update update)), set_inner c (set_cursor i (cursor_update update)))
      end
    | PT_Ping, true =>
      (Ok EV_Ping,
       match TimestampStats_decode payload with
       | Some stats =>
         set_inner c (set_media i (in_frames i) (record_host (in_receiver i) stats received_at) (in_audio i))
       | None => c
       end)
    | PT_Ping, false => send_pong c
    | PT_Control, _ =>
      match ControlMessage_decode payload with
      | Err e => (Err (CE_Protocol e), c)
      | Ok message =>
        if match required_capability (message_type message) with
           | Some capability => negb (negotiated c capability)
           | None => false
           end
        then (Err CE_Unsupported, c)
        else handle_control c message now
      end
    | _, _ => (Ok EV_Ignored, c)
    end.

(** [receive_udp_event_at], from the received datagram on. *)
Definition receive_udp_event (c : ClientSession) (datagram : list byte) (received_at now : Instant)
    : result SessionError SessionEvent * ClientSession :=
  match cl_udp_receive c with
  | None => (Err CE_NotReady, c)
  | Some cipher =>
    match open_datagram decrypt cipher datagram with
    | (Err e, cipher) => (Err (CE_Datagram e), set_udp c (Some cipher) (cl_udp_registered c))
    | (Ok (header, payload), cipher) =>
      handle_packet (set_udp c (Some cipher) true) header payload (Some (received_at, len datagram)) now
    end
  end.

(** A frame the TLS stream returned, as the worker of [spawn_tcp_generation]
    handles it. *)
Definition tcp_frame_event (c : ClientSession) (frame : list byte) (now : Instant)
    : result SessionError SessionEvent * ClientSession :=
  if len frame <? PACKET_HEADER_SIZE then (Err CE_Transport, c)
  else
    match PacketHeader_decode (take 12 frame) with
    | Err e => (Err (CE_Protocol e), c)
    | Ok header => handle_packet c header (drop 12 frame) None now
    end.

(** [receive_tcp_event], when the TLS stream returned a frame. *)
Definition receive_tcp_event (c : ClientSession) (frame : list byte) (now : Instant)
    : result SessionError SessionEvent * ClientSession :=
  if cl_cancelled c then (Err CE_Cancelled, c) else tcp_frame_event c frame now.

End Client.

(** ** What the session sends *)

Section Outgoing.

Context (decrypt : list byte -> list byte -> list byte -> list byte -> option (list byte)).
Context (decodes : list byte -> bool).
Context (current_unix_ms : list (list byte) -> Z).
Context (tcp_accepts : list (list byte) -> list byte -> bool).

Abbreviation client_send_packet := (client_send_packet current_unix_ms tcp_accepts).
Abbreviation send_ready_packet := (send_ready_packet current_unix_ms tcp_accepts).
Abbreviation send_input := (send_input current_unix_ms tcp_accepts).
Abbreviation send_control := (send_control current_unix_ms tcp_accepts).
Abbreviation send_image_chunks := (send_image_chunks current_unix_ms tcp_accepts).
Abbreviation handle_packet := (handle_packet decodes current_unix_ms tcp_accepts).
Abbreviation handle_control := (handle_control decodes current_unix_ms tcp_accepts).

Inductive ClientOp : Type :=
| OpTcp (frame : list byte) (now : Instant)
| OpRuntime (frame : list byte) (now : Instant)
| OpUdp (datagram : list byte) (received_at now : Instant)
| OpSendInput (event : InputEvent)
| OpSendControl (message : ControlMessage)
| OpSecureAttention
| OpSetClipboard (enabled : bool)
| OpTakeImage
| OpSendImage (png : list byte)
| OpRttProbe (epoch now : Instant).

Definition client_op (c : ClientSession) (op : ClientOp) : ClientSession :=
  match op with
  | OpTcp frame now => snd (receive_tcp_event decodes current_unix_ms tcp_accepts c frame now)
  | OpRuntime frame now => snd (tcp_frame_event decodes current_unix_ms tcp_accepts c frame now)
  | OpUdp datagram at_ now =>
    snd (receive_udp_event decrypt decodes current_unix_ms tcp_accepts c datagram at_ now)
  | OpSendInput event => snd (send_input c event)
  | OpSendControl message => snd (send_control c message)
  | OpSecureAttention => snd (request_secure_attention current_unix_ms tcp_accepts c)
  | OpSetClipboard enabled => set_clipboard_enabled c enabled
  | OpTakeImage => snd (take_clipboard_image c)
  | OpSendImage png => snd (send_clipboard_image current_unix_ms tcp_accepts c png)
  | OpRttProbe epoch now => snd (send_rtt_probe current_unix_ms tcp_accepts c epoch now)
  end.

Definition client_ops : ClientSession -> list ClientOp -> ClientSession := foldl client_op.

(** What a packet that leaves may be, from the state [c] before the operation:
    an input event the permissions allow (releasing everything is always
    allowed), or a control message whose capability both sides have, and no
    clipboard data unless the clipboard is allowed. *)
Definition outgoing_ok (c : ClientSession) (packet : list byte) : Prop :=
  in_state (cl_state c) = SS_Ready /\
  exists packet_type sequence timestamp body,
    packet = PacketHeader_to_bytes (mkPacketHeader packet_type sequence timestamp 0) ++ body /\
    match packet_type with
    | PT_InputEvent => exists e, InputEvent_encode e = Ok body /\
        (ie_event_type e = IE_Reset \/
         match permissions_locked c with Some p => input_allowed p (ie_event_type e) = true | None => True end)
    | PT_Control => exists m, ControlMessage_encode m = Ok body /\
        match required_capability (message_type m) with
        | Some capability => negotiated c capability = true
        | None => True
        end /\
        (is_clipboard m = true -> clipboard_allowed c = true)
    | _ => False
    end.

(** From [c] to [c'] the configuration is the same and only packets that are fine
    in [c0] were sent. *)
Definition emits (c0 c c' : ClientSession) : Prop :=
  cl_capabilities c' = cl_capabilities c /\ in_server (cl_state c') = in_server (cl_state c) /\
  exists new, cl_tcp_sent c' = cl_tcp_sent c ++ new /\ Forall (outgoing_ok c0) new.

Lemma emits_refl c0 c c' :
  cl_capabilities c' = cl_capabilities c -> in_server (cl_state c') = in_server (cl_state c) ->
  cl_tcp_sent c' = cl_tcp_sent c -> emits c0 c c'.
Proof. intros. split_and!; [done..|]. exists []. by rewrite app_nil_r. Qed.

Lemma emits_trans c0 c1 c2 c3 : emits c0 c1 c2 -> emits c0 c2 c3 -> emits c0 c1 c3.
Proof.
  intros (A1 & B1 & n1 & E1 & F1) (A2 & B2 & n2 & E2 & F2). split_and!; [congruence..|].
  exists (n1 ++ n2). rewrite E2, E1, app_assoc. split; [done|]. by apply Forall_app.
Qed.

Lemma emits_negotiated c0 c c' cap : emits c0 c c' -> negotiated c' cap = negotiated c cap.
Proof. intros (A & B & _). unfold negotiated, server_contains. by rewrite A, B. Qed.

(** Sending changes nothing else but the sequence number. *)
Lemma send_ready_packet_spec c t body r c' :
  send_ready_packet c t body = (r, c') ->
  (c' = c \/
   (r = Ok tt /\ in_state (cl_state c) = SS_Ready /\ exists sequence timestamp,
    c' = set_inner (add_sent c (PacketHeader_to_bytes (mkPacketHeader t sequence timestamp 0) ++ body))
      (set_tcp_sequence (cl_state c) sequence))).
Proof.
  unfold ClientSession.send_ready_packet, ClientSession.client_send_packet, PacketHeader_encode.
  destruct (bool_decide_reflect (in_state (cl_state c) = SS_Ready)); [|intros [= <- <-]; by left].
  case_match; intros [= <- <-]; [right; eauto | by left].
Qed.

Lemma permissions_sent c packet n :
  permissions_locked (set_inner (add_sent c packet) (set_tcp_sequence (cl_state c) n)) = permissions_locked c.
Proof. done. Qed.

(** [same c c']: apart from the packets sent and the sequence number, nothing
    changed. *)
Definition same (c c' : ClientSession) : Prop :=
  in_state (cl_state c') = in_state (cl_state c) /\ in_parity (cl_state c') = in_parity (cl_state c) /\
  in_stream_state (cl_state c') = in_stream_state (cl_state c) /\
  in_frames (cl_state c') = in_frames (cl_state c) /\ in_audio (cl_state c') = in_audio (cl_state c).

Lemma same_clipboard c0 c c' : same c c' -> emits c0 c c' -> clipboard_allowed c' = clipboard_allowed c.
Proof.
  intros (_ & P & T & _ & _) E. unfold clipboard_allowed, permissions_locked.
  by rewrite (emits_negotiated _ _ _ _ E), P, T.
Qed.

Lemma send_input_emits c0 c e r c' :
  send_input c e = (r, c') -> in_state (cl_state c0) = in_state (cl_state c) ->
  ie_event_type e = IE_Reset \/ permissions_locked c = permissions_locked c0 ->
  emits c0 c c' /\ same c c'.
Proof.
  unfold ClientSession.send_input. intros E Hst He. revert E.
  case_if; [intros [= <- <-]; split; [by apply emits_refl | done]|].
  destruct (InputEvent_encode e) as [body|] eqn:En; [|intros [= <- <-]; split; [by apply emits_refl | done]].
  intros [-> |(-> & Rd & n & ts & ->)]%send_ready_packet_spec; [split; [by apply emits_refl | done]|].
  split; [|done]. split_and!; [done..|]. eexists. split; [done|]. apply Forall_singleton.
  split; [congruence|]. exists PT_InputEvent, n, ts, body. split; [done|]. exists e. split; [done|].
  destruct He as [?|He]; [by left|]. right. rewrite <- He.
  revert Heqb. destruct (permissions_locked c); [|done]. by intros ?%negb_false_iff.
Qed.

Lemma send_control_emits c0 c m r c' :
  send_control c m = (r, c') -> in_state (cl_state c0) = in_state (cl_state c) ->
  (forall cap, negotiated c cap = negotiated c0 cap) ->
  (is_clipboard m = true -> clipboard_allowed c = clipboard_allowed c0) ->
  emits c0 c c' /\ same c c'.
Proof.
  unfold ClientSession.send_control. intros E Hst Hn Hc. revert E.
  case_if; [intros [= <- <-]; split; [by apply emits_refl | done]|].
  case_if; [intros [= <- <-]; split; [by apply emits_refl | done]|].
  destruct (ControlMessage_encode m) as [body|] eqn:En; [|intros [= <- <-]; split; [by apply emits_refl | done]].
  intros [-> |(-> & Rd & n & ts & ->)]%send_ready_packet_spec; [split; [by apply emits_refl | done]|].
  split; [|done]. split_and!; [done..|]. eexists. split; [done|]. apply Forall_singleton.
  split; [congruence|]. exists PT_Control, n, ts, body. split; [done|]. exists m. split_and!; [done| |].
  - revert Heqb. destruct (required_capability (message_type m)); [|done]. rewrite <- Hn.
    by intros ?%negb_false_iff.
  - intros Hm. rewrite <- Hc by done. destruct Heqb0 as [?|?%negb_false_iff]; [congruence | done].
Qed.

Lemma send_image_chunks_emits c0 l c r c' :
  send_image_chunks c l = (r, c') -> in_state (cl_state c0) = in_state (cl_state c) ->
  (forall cap, negotiated c cap = negotiated c0 cap) -> clipboard_allowed c = clipboard_allowed c0 ->
  emits c0 c c' /\ same c c'.
Proof.
  revert c. induction l as [|chunk l IH]; intros c; cbn [ClientSession.send_image_chunks].
  { intros [= <- <-] _ _ _. split; [by apply emits_refl | done]. }
  intros E Hst Hn Hc. revert E. case_if; [intros [= <- <-]; split; [by apply emits_refl | done]|].
  destruct (send_control c _) as [r1 c1] eqn:E1.
  destruct (send_control_emits c0 _ _ _ _ E1 Hst Hn (fun _ => Hc)) as [Em Sm].
  destruct r1; [|by intros [= <- <-]]. intros E.
  destruct (IH c1 E) as [Em2 Sm2].
  - destruct Sm as (-> & _). done.
  - intros cap. by rewrite (emits_negotiated _ _ _ cap Em).
  - by rewrite (same_clipboard _ _ _ Sm Em).
  - split; [by eapply emits_trans|]. unfold same in *. destruct_and?. split_and!; congruence.
Qed.

(** *** Control messages *)

Lemma reset_emits c0 c r c' :
  send_input c reset_event = (r, c') -> in_state (cl_state c0) = in_state (cl_state c) ->
  emits c0 c c' /\ same c c'.
Proof. intros E Hst. eapply send_input_emits; [exact E | done | by left]. Qed.

Lemma emits_before c0 c c1 c' :
  cl_capabilities c1 = cl_capabilities c -> in_server (cl_state c1) = in_server (cl_state c) ->
  cl_tcp_sent c1 = cl_tcp_sent c -> emits c0 c1 c' -> emits c0 c c'.
Proof. intros. eapply emits_trans; [by apply emits_refl | done]. Qed.

Lemma handle_control_emits c m now r c' :
  handle_control c m now = (r, c') -> emits c c c'.
Proof.
  unfold ClientSession.handle_control. destruct m; try (intros [= <- <-]; by apply emits_refl).
  - (* Ping *) unfold send_pong. destruct (send_control c CM_Pong) as [r1 c1] eqn:E.
    apply (send_control_emits c) in E as [Em _]; [|done..]. by destruct r1; intros [= <- <-].
  - (* ClipboardSyncUpdate *) unfold handle_clipboard_text. case_if; intros [= <- <-]; by apply emits_refl.
  - (* HostPolicy *) intros [= <- <-]. case_if; by apply emits_refl.
  - (* SecureAttentionResponse *) unfold handle_secure_attention. case_if; intros [= <- <-]; by apply emits_refl.
  - (* SessionEnded *) unfold handle_session_ended. set (c1 := set_inner c _).
    destruct (send_input c1 reset_event) as [r1 c2] eqn:E.
    apply (reset_emits c) in E as [Em _]; [|done]. intros [= <- <-].
    assert (Em1 : emits c c c2) by (by eapply emits_before).
    cbn [snd]. eapply emits_trans; [exact Em1|]. by apply emits_refl.
  - (* GuestPermissions *) unfold handle_guest_permissions. set (c1 := set_inner c _).
    assert (Em1 : emits c c c1) by (by apply emits_refl).
    match goal with |- (if ?b then _ else _) = _ -> _ => destruct b end; [|by intros [= <- <-]].
    destruct (send_input c1 reset_event) as [r1 c2] eqn:E.
    apply (reset_emits c) in E as [Em _]; [|done].
    pose proof (emits_trans _ _ _ _ Em1 Em) as Em2. by destruct r1; intros [= <- <-].
  - (* ClipboardImageChunk *) unfold handle_image_chunk. case_if; [intros [= <- <-]; by apply emits_refl|].
    destruct (image_push _ _ _ _) as [[[png|]|[e|]] images]; intros [= <- <-]; by apply emits_refl.
Qed.

Lemma handle_video_emits c pushed at_ r c' : handle_video c pushed at_ = (r, c') -> emits c c c'.
Proof.
  unfold handle_video. destruct pushed as [[f|e] frames]; intros [= <- <-]; by apply emits_refl.
Qed.

Lemma handle_packet_emits c h body udp now r c' :
  handle_packet c h body udp now = (r, c') -> emits c c c'.
Proof.
  unfold ClientSession.handle_packet. case_if; [intros [= <- <-]; by apply emits_refl|].
  destruct (match udp with Some _ => _ | None => _ end) as [[from_udp at_] c1] eqn:E1.
  assert (S1 : emits c c c1 /\ (forall x, outgoing_ok c1 x -> outgoing_ok c x)).
  { destruct udp as [[t n]|]; injection E1 as <- <- <-; (split; [by apply emits_refl | done]). }
  destruct S1 as [S1 Sok].
  assert (Up : forall c2, emits c1 c1 c2 -> emits c c c2).
  { intros c2 (A & B & new & En & F). eapply emits_trans; [exact S1|]. split_and!; [done..|].
    exists new. split; [done|]. eapply Forall_impl; [exact F | exact Sok]. }
  assert (Stay : forall c2, cl_capabilities c2 = cl_capabilities c1 -> in_server (cl_state c2) = in_server (cl_state c1) ->
    cl_tcp_sent c2 = cl_tcp_sent c1 -> emits c c c2) by (intros; by apply Up, emits_refl).
  destruct (ph_packet_type h), from_udp; try (intros [= <- <-]; by apply Stay).
  - destruct (FrameHeader_decode body); [|intros [= <- <-]; by apply Stay].
    intros E%handle_video_emits. by apply Up.
  - destruct (FrameChunk_decode body); [|intros [= <- <-]; by apply Stay].
    intros E%handle_video_emits. by apply Up.
  - destruct (CursorUpdate_decode body); intros [= <- <-]; by apply Stay.
  - destruct (ControlMessage_decode body); [|intros [= <- <-]; by apply Stay].
    match goal with |- (if ?b then _ else _) = _ -> _ => destruct b end; [intros [= <- <-]; by apply Stay|].
    intros E%handle_control_emits. by apply Up.
  - destruct (ControlMessage_decode body); [|intros [= <- <-]; by apply Stay].
    match goal with |- (if ?b then _ else _) = _ -> _ => destruct b end; [intros [= <- <-]; by apply Stay|].
    intros E%handle_control_emits. by apply Up.
  - intros [= <- <-]. destruct (TimestampStats_decode body); by apply Stay.
  - unfold send_pong. destruct (ClientSession.send_control current_unix_ms tcp_accepts c1 CM_Pong) as [r1 c2] eqn:E.
    apply (send_control_emits c1) in E as [Em _]; [|done..]. destruct r1; intros [= <- <-]; by apply Up.
  - match goal with |- (if ?b then _ else _) = _ -> _ => destruct b end; [intros [= <- <-]; by apply Stay|].
    destruct (AudioFragment_decode body) as [f|]; [|intros [= <- <-]; by apply Stay].
    destruct (audio_push _ f). intros [= <- <-]. by apply Stay.
Qed.

Lemma tcp_frame_emits c frame now :
  emits c c (snd (tcp_frame_event decodes current_unix_ms tcp_accepts c frame now)).
Proof.
  unfold tcp_frame_event. case_if; [by apply emits_refl|].
  destruct (PacketHeader_decode _) as [h|]; [|by apply emits_refl].
  destruct (ClientSession.handle_packet _ _ _ c h _ None now) as [r c'] eqn:E.
  by apply handle_packet_emits in E.
Qed.

Lemma client_op_emits c op : emits c c (client_op c op).
Proof.
  destruct op as [frame now|frame now|datagram at_ now|e|m| |b| |png|epoch now]; cbn [client_op].
  - unfold receive_tcp_event. case_if; [by apply emits_refl | apply tcp_frame_emits].
  - apply tcp_frame_emits.
  - unfold receive_udp_event. destruct (cl_udp_receive c) as [cipher|]; [|by apply emits_refl].
    destruct (open_datagram decrypt cipher datagram) as [[[h body]|e] cipher']; [|by apply emits_refl].
    destruct (ClientSession.handle_packet _ _ _ _ h body _ now) as [r c'] eqn:E.
    apply handle_packet_emits in E. exact E.
  - destruct (send_input c e) as [r c'] eqn:E. by apply (send_input_emits c) in E as [? _]; [|done|right].
  - destruct (send_control c m) as [r c'] eqn:E. by apply (send_control_emits c) in E as [? _].
  - unfold request_secure_attention. case_if; [by apply emits_refl|].
    destruct (pas_sas_pending _); [by apply emits_refl|]. case_if; [by apply emits_refl|]. cbv zeta.
    set (c1 := set_inner c _). destruct (send_control c1 _) as [r c2] eqn:E.
    apply (send_control_emits c) in E as [Em _]; [|done..].
    assert (Em2 : emits c c c2) by (by eapply emits_before).
    destruct r; [done|]. eapply emits_trans; [exact Em2|]. by apply emits_refl.
  - by apply emits_refl.
  - by apply emits_refl.
  - unfold send_clipboard_image. repeat (case_if; [by apply emits_refl|]). cbv zeta.
    set (c1 := set_image_sequence c _). destruct (send_image_chunks c1 _) as [r c2] eqn:E.
    apply (send_image_chunks_emits c) in E as [Em _]; [|done..]. by eapply emits_before.
  - unfold send_rtt_probe. case_if; [by apply emits_refl|].
    match goal with |- context [if ?b then (Ok tt, c) else _] => destruct b end; [by apply emits_refl|]. cbv zeta.
    set (c1 := set_inner c _). destruct (send_control c1 _) as [r c2] eqn:E.
    apply (send_control_emits c) in E as [Em _]; [|done..]. by eapply emits_before.
Qed.

(** ** Clipboard images and permissions *)

(** No image is kept while the clipboard is not allowed. *)
Definition clipboard_safe (c : ClientSession) : Prop :=
  clipboard_allowed c = false ->
  pas_completed_image (in_parity (cl_state c)) = None /\
  ia_pending (pas_images (in_parity (cl_state c))) = None.

(** All that [clipboard_safe] depends on. *)
Definition image_view (c : ClientSession) :=
  (clipboard_allowed c, pas_completed_image (in_parity (cl_state c)), pas_images (in_parity (cl_state c))).

Lemma safe_view c c' : image_view c' = image_view c -> clipboard_safe c -> clipboard_safe c'.
Proof. unfold image_view, clipboard_safe. intros [= -> -> ->]. done. Qed.

Lemma same_view c c' : same c c' -> emits c c c' -> image_view c' = image_view c.
Proof.
  intros S E. unfold image_view. rewrite (same_clipboard _ _ _ S E).
  destruct S as (_ & -> & _). done.
Qed.

Lemma safe_sent c c' : same c c' /\ emits c c c' -> clipboard_safe c -> clipboard_safe c'.
Proof. intros [S E]. by apply safe_view, same_view. Qed.

Lemma send_input_safe c e r c' : send_input c e = (r, c') -> clipboard_safe c -> clipboard_safe c'.
Proof. intros E. apply safe_sent. apply (send_input_emits c) in E as [? ?]; [done | done | by right]. Qed.

Lemma send_control_safe c m r c' : send_control c m = (r, c') -> clipboard_safe c -> clipboard_safe c'.
Proof. intros E. apply safe_sent. by apply (send_control_emits c) in E as [? ?]. Qed.

Lemma safe_dropped c : pas_completed_image (in_parity (cl_state c)) = None ->
  ia_pending (pas_images (in_parity (cl_state c))) = None -> clipboard_safe c.
Proof. by split. Qed.

Lemma negotiated_permissions c :
  negotiated c CAP_GUEST_PERMISSIONS = true ->
  clipboard_allowed c = pas_clipboard_enabled (in_parity (cl_state c)) &&
    gp_clipboard (default NO_PERMISSIONS (si_permissions (pas_info (in_parity (cl_state c))))).
Proof. intros N. unfold clipboard_allowed, permissions_locked. by rewrite N. Qed.

Lemma handle_control_safe c m now r c' :
  negotiated c CAP_GUEST_PERMISSIONS = true -> clipboard_safe c ->
  handle_control c m now = (r, c') -> clipboard_safe c'.
Proof.
  intros N S. unfold ClientSession.handle_control. destruct m; try (intros [= <- <-]; by apply (safe_view c)).
  - unfold send_pong. destruct (send_control c CM_Pong) as [r1 c1] eqn:E.
    apply send_control_safe in E; [|done]. by destruct r1; intros [= <- <-].
  - unfold handle_clipboard_text. case_if; intros [= <- <-]; by apply safe_dropped.
  - rewrite N. by intros [= <- <-].
  - unfold handle_secure_attention. case_if; intros [= <- <-]; by apply (safe_view c).
  - unfold handle_session_ended. set (c1 := set_inner c _).
    destruct (send_input c1 reset_event) as [r1 c2] eqn:E.
    apply (reset_emits c1) in E as [Em (_ & P & _)]; [|done]. intros [= <- <-].
    apply safe_dropped; cbn; by rewrite P.
  - unfold handle_guest_permissions. set (c1 := set_inner c _).
    assert (S1 : clipboard_safe c1).
    { intros A. rewrite negotiated_permissions in A by done. unfold c1 in *. clear c1.
      cbn [set_inner cl_state] in *.
      destruct (gp_clipboard v) eqn:G; [|by cbn; rewrite ?G].
      cbn in A. rewrite ?G, andb_true_r in A. cbn. apply S.
      rewrite negotiated_permissions by done. by rewrite A. }
    match goal with |- (if ?b then _ else _) = _ -> _ => destruct b end; [|by intros [= <- <-]].
    destruct (send_input c1 reset_event) as [r1 c2] eqn:E.
    apply send_input_safe in E; [|done]. by destruct r1; intros [= <- <-].
  - unfold handle_image_chunk. case_if; [by intros [= <- <-]|].
    assert (A : clipboard_allowed c = true).
    { unfold clipboard_allowed. apply andb_true_iff. bool_prop. split; [done|].
      destruct (permissions_locked c); [by apply negb_false_iff | done]. }
    assert (K : forall p, clipboard_safe (set_parity_of c (set_images (in_parity (cl_state c)) p.1 p.2))).
    { intros p F. exfalso. change (clipboard_allowed (set_parity_of c _)) with (clipboard_allowed c) in F. congruence. }
    destruct (image_push _ _ _ _) as [[[png|]|[e|]] images]; intros [= <- <-]; apply (K (_, _)).
  - intros [= <- <-]. apply (safe_view c); [|done]. unfold pong.
    destruct (pas_probe _) as [[? ?]|]; [|done]. by case_if.
Qed.

Lemma handle_packet_safe c h body udp now r c' :
  negotiated c CAP_GUEST_PERMISSIONS = true -> clipboard_safe c ->
  handle_packet c h body udp now = (r, c') -> clipboard_safe c'.
Proof.
  intros N S. unfold ClientSession.handle_packet. case_if; [by intros [= <- <-]|].
  destruct (match udp with Some _ => _ | None => _ end) as [[from_udp at_] c1] eqn:E1.
  assert (S1 : clipboard_safe c1 /\ negotiated c1 CAP_GUEST_PERMISSIONS = true)
    by (destruct udp as [[t n]|]; by injection E1 as <- <- <-).
  clear Heqb c N S E1. destruct S1 as [S N].
  assert (Stay : forall c2, image_view c2 = image_view c1 -> clipboard_safe c2) by (intros; by apply (safe_view c1)).
  assert (Vid : forall pushed r c', handle_video c1 pushed at_ = (r, c') -> clipboard_safe c').
  { intros [[f|e] frames] r' c2; unfold handle_video; intros [= <- <-]; by apply Stay. }
  assert (Ctl : forall b, (match ControlMessage_decode b with
      | Ok m => if match required_capability (message_type m) with Some k => negb (negotiated c1 k) | None => false end
        then (Err CE_Unsupported, c1) else handle_control c1 m now
      | Err e => (Err (CE_Protocol e), c1) end) = (r, c') -> clipboard_safe c').
  { intros b. destruct (ControlMessage_decode b) as [m|]; [|intros [= <- <-]; by apply Stay].
    match goal with |- (if ?b then _ else _) = _ -> _ => destruct b end; [intros [= <- <-]; by apply Stay|].
    by apply handle_control_safe. }
  destruct (ph_packet_type h), from_udp; try apply Ctl; try (intros [= <- <-]; by apply Stay).
  - destruct (FrameHeader_decode body); [apply Vid | intros [= <- <-]; by apply Stay].
  - destruct (FrameChunk_decode body); [apply Vid | intros [= <- <-]; by apply Stay].
  - destruct (CursorUpdate_decode body); intros [= <- <-]; by apply Stay.
  - intros [= <- <-]. destruct (TimestampStats_decode body); by apply Stay.
  - unfold send_pong. destruct (ClientSession.send_control current_unix_ms tcp_accepts c1 CM_Pong) as [r1 c2] eqn:E.
    apply send_control_safe in E; [|done]. by destruct r1; intros [= <- <-].
  - match goal with |- (if ?b then _ else _) = _ -> _ => destruct b end; [intros [= <- <-]; by apply Stay|].
    destruct (AudioFragment_decode body) as [f|]; [|intros [= <- <-]; by apply Stay].
    destruct (audio_push _ f). intros [= <- <-]. by apply Stay.
Qed.

Lemma tcp_frame_safe c frame now :
  negotiated c CAP_GUEST_PERMISSIONS = true -> clipboard_safe c ->
  clipboard_safe (snd (tcp_frame_event decodes current_unix_ms tcp_accepts c frame now)).
Proof.
  intros N S. unfold tcp_frame_event. case_if; [done|]. destruct (PacketHeader_decode _) as [h|]; [|done].
  destruct (ClientSession.handle_packet _ _ _ c h _ None now) as [r c'] eqn:E. by apply handle_packet_safe in E.
Qed.

Lemma client_op_safe c op :
  negotiated c CAP_GUEST_PERMISSIONS = true -> clipboard_safe c -> clipboard_safe (client_op c op).
Proof.
  intros N S. destruct op as [frame now|frame now|datagram at_ now|e|m| |b| |png|epoch now]; cbn [client_op].
  - unfold receive_tcp_event. case_if; [done | by apply tcp_frame_safe].
  - by apply tcp_frame_safe.
  - unfold receive_udp_event. destruct (cl_udp_receive c) as [cipher|]; [|done].
    destruct (open_datagram decrypt cipher datagram) as [[[h body]|e] cipher']; [|by apply (safe_view c)].
    destruct (ClientSession.handle_packet _ _ _ _ h body _ now) as [r c'] eqn:E.
    by apply handle_packet_safe in E.
  - destruct (send_input c e) as [r c'] eqn:E. by apply send_input_safe in E.
  - destruct (send_control c m) as [r c'] eqn:E. by apply send_control_safe in E.
  - unfold request_secure_attention. case_if; [done|].
    destruct (pas_sas_pending _); [done|]. case_if; [done|]. cbv zeta.
    set (c1 := set_inner c _). destruct (send_control c1 _) as [r c2] eqn:E.
    apply send_control_safe in E; [|by apply (safe_view c)]. destruct r; [done|]. by apply (safe_view c2).
  - destruct b; [|by apply safe_dropped]. intros A. apply S.
    change (clipboard_allowed (set_clipboard_enabled c true)) with
      (true && match permissions_locked c with Some p => gp_clipboard p | None => true end) in A.
    unfold clipboard_allowed. rewrite andb_true_l in A. rewrite A. apply andb_false_r.
  - intros A. by destruct (S A).
  - unfold send_clipboard_image. repeat (case_if; [done|]). cbv zeta.
    set (c1 := set_image_sequence c _). destruct (send_image_chunks c1 _) as [r c2] eqn:E.
    apply (send_image_chunks_emits c1) in E as [Em Sm]; [|done..]. by apply (safe_sent c1).
  - unfold send_rtt_probe. case_if; [done|].
    match goal with |- context [if ?b then (Ok tt, c) else _] => destruct b end; [done|]. cbv zeta.
    set (c1 := set_inner c _). destruct (send_control c1 _) as [r c2] eqn:E.
    apply send_control_safe in E; [done|]. by apply (safe_view c).
Qed.

Lemma client_op_keeps c op : cl_capabilities (client_op c op) = cl_capabilities c.
Proof. by destruct (client_op_emits c op) as [? _]. Qed.

Lemma ops_safe ops c :
  negotiated c CAP_GUEST_PERMISSIONS = true -> clipboard_safe c -> clipboard_safe (client_ops c ops).
Proof.
  revert c. induction ops as [|op ops IH]; intros c N S; [done|]. cbn. apply IH; [|by apply client_op_safe].
  by rewrite (emits_negotiated _ _ _ _ (client_op_emits c op)).
Qed.

(** ** A session that is not ready *)

Lemma op_not_ready c op :
  in_state (cl_state c) <> SS_Ready ->
  in_state (cl_state (client_op c op)) = in_state (cl_state c) /\
  cl_tcp_sent (client_op c op) = cl_tcp_sent c.
Proof.
  intros N. split.
  - assert (K : forall h body udp now, handle_packet c h body udp now = (Err CE_NotReady, c))
      by (intros; unfold ClientSession.handle_packet; by rewrite bool_decide_false by done).
    destruct op as [frame now|frame now|datagram at_ now|e|m| |b| |png|epoch now]; cbn [client_op].
    + unfold receive_tcp_event, tcp_frame_event. repeat (case_if; [done|]).
      destruct (PacketHeader_decode _); [|done]. by rewrite K.
    + unfold tcp_frame_event. case_if; [done|]. destruct (PacketHeader_decode _); [|done]. by rewrite K.
    + unfold receive_udp_event. destruct (cl_udp_receive c) as [cipher|]; [|done].
      destruct (open_datagram decrypt cipher datagram) as [[[h body]|e] cipher']; [|done].
      unfold ClientSession.handle_packet. by rewrite bool_decide_false by done.
    + destruct (send_input c e) as [r c'] eqn:E.
      by apply (send_input_emits c) in E as [_ (A & _)]; [|done|right].
    + destruct (send_control c m) as [r c'] eqn:E. by apply (send_control_emits c) in E as [_ (A & _)].
    + unfold request_secure_attention. case_if; [done|]. destruct (pas_sas_pending _); [done|].
      case_if; [done|]. cbv zeta. set (c1 := set_inner c _). destruct (send_control c1 _) as [r c2] eqn:E.
      apply (send_control_emits c1) in E as [_ (A & _)]; [|done..]. by destruct r.
    + by destruct b.
    + done.
    + unfold send_clipboard_image. repeat (case_if; [done|]). cbv zeta.
      set (c1 := set_image_sequence c _). destruct (send_image_chunks c1 _) as [r c2] eqn:E.
      by apply (send_image_chunks_emits c1) in E as [_ (A & _)].
    + unfold send_rtt_probe. case_if; [done|].
      match goal with |- context [if ?b then (Ok tt, c) else _] => destruct b end; [done|]. cbv zeta.
      set (c1 := set_inner c _). destruct (send_control c1 _) as [r c2] eqn:E.
      by apply (send_control_emits c1) in E as [_ (A & _)].
  - destruct (client_op_emits c op) as (_ & _ & new & -> & F).
    destruct F as [|x new [R _] F]; [apply app_nil_r | done].
Qed.

Lemma ops_not_ready ops c :
  in_state (cl_state c) <> SS_Ready ->
  in_state (cl_state (client_ops c ops)) = in_state (cl_state c) /\
  cl_tcp_sent (client_ops c ops) = cl_tcp_sent c.
Proof.
  revert c. induction ops as [|op ops IH]; intros c N; [done|]. cbn.
  destruct (op_not_ready c op N) as [A B]. rewrite <- A in N. destruct (IH _ N) as [C D].
  split; congruence.
Qed.

(** ** The properties *)

(** C7: whatever packets arrive and whatever the application asks for, an
    operation of the client session writes to the TCP stream only while the
    session is ready, and only packets the negotiated capabilities and the
    permissions in force before the operation allow: input events of a
    permitted kind (a reset is always allowed), control messages whose
    capability both sides announced, clipboard data only while the clipboard
    is allowed. *)
Theorem session_sends_only_permitted c op :
  exists new, cl_tcp_sent (client_op c op) = cl_tcp_sent c ++ new /\ Forall (outgoing_ok c) new.
Proof. by destruct (client_op_emits c op) as (_ & _ & ?). Qed.

(** Once guest permissions are negotiated, no clipboard image, complete or
    partly received, is held while the clipboard is not allowed, and none can
    be taken: revoking the permission or disabling the clipboard discards what
    was received, and this holds after every sequence of operations and
    received packets. *)
Theorem clipboard_revocation_drops_images c ops :
  negotiated c CAP_GUEST_PERMISSIONS = true -> clipboard_safe c ->
  let c' := client_ops c ops in
  clipboard_safe c' /\ (clipboard_allowed c' = false -> fst (take_clipboard_image c') = None).
Proof. intros N S c'. pose proof (ops_safe ops c N S) as K. split; [exact K|]. intros A. by destruct (K A). Qed.

(** The host's end of session is final: the session discards its frames,
    audio and clipboard images, and after it no received packet and no call
    makes it ready again or writes a byte. *)
Theorem session_end_is_final c ended now ops :
  let c1 := snd (handle_control c (CM_SessionEnded ended) now) in
  let c2 := client_ops c1 ops in
  fst (handle_control c (CM_SessionEnded ended) now) = Ok (EV_StreamConfig (CM_SessionEnded ended)) /\
  in_frames (cl_state c1) = FrameAssembler_default /\ pending_frames (in_audio (cl_state c1)) = 0 /\
  pas_completed_image (in_parity (cl_state c1)) = None /\ cl_cancelled c1 = true /\
  in_state (cl_state c2) = SS_Disconnected /\ cl_tcp_sent c2 = cl_tcp_sent c1.
Proof.
  intros c1 c2.
  assert (P : fst (handle_control c (CM_SessionEnded ended) now) = Ok (EV_StreamConfig (CM_SessionEnded ended)) /\
    in_state (cl_state c1) = SS_Disconnected /\ in_frames (cl_state c1) = FrameAssembler_default /\
    pending_frames (in_audio (cl_state c1)) = 0 /\ pas_completed_image (in_parity (cl_state c1)) = None /\
    cl_cancelled c1 = true).
  { unfold c1. cbn. unfold handle_session_ended.
    match goal with |- context [set_inner c ?i] => set (c0 := set_inner c i) end.
    destruct (send_input c0 reset_event) as [r c3] eqn:E.
    apply (reset_emits c0) in E as [_ (_ & P & _ & Fr & Au)]; [|done]. cbn. by rewrite P, Fr, Au. }
  destruct P as (A & B & C & D & F0 & G). destruct (ops_not_ready ops c1) as [E F]; [congruence|].
  split_and!; [done..| |done]. unfold c2. congruence.
Qed.

(** When guest permissions the client holds lose the keyboard, the mouse
    or the gamepad, the client, if ready, writes one reset event, which
    releases what the host still holds pressed, and the new permissions are
    the ones in force afterwards. *)
Theorem revoked_input_is_reset c old permissions now :
  negotiated c CAP_GUEST_PERMISSIONS = true -> in_state (cl_state c) = SS_Ready ->
  si_permissions (pas_info (in_parity (cl_state c))) = Some old ->
  (gp_keyboard old = true /\ gp_keyboard permissions = false) \/
  (gp_mouse old = true /\ gp_mouse permissions = false) \/
  (gp_gamepad old = true /\ gp_gamepad permissions = false) ->
  (forall packet, tcp_accepts (cl_tcp_sent c) packet = true) ->
  exists c' header packet,
    handle_control c (CM_GuestPermissions permissions) now =
      (Ok (EV_StreamConfig (CM_GuestPermissions permissions)), c') /\
    cl_tcp_sent c' = cl_tcp_sent c ++ [packet] /\ take 12 packet = PacketHeader_to_bytes header /\
    ph_packet_type header = PT_InputEvent /\ InputEvent_decode (drop 12 packet) = Ok reset_event /\
    effective_permissions c' = Some permissions.
Proof.
  intros N R Old Lost T. cbn [ClientSession.handle_control]. unfold handle_guest_permissions. rewrite Old.
  match goal with |- context [if ?b then _ else _] => replace b with true end.
  2: { symmetry. destruct Lost as [[-> ->]|[[-> ->]|[-> ->]]]; cbn; rewrite ?orb_true_r; done. }
  set (c1 := set_inner c _).
  assert (I : input_allowed NO_PERMISSIONS IE_Reset = true) by done.
  unfold ClientSession.send_input.
  replace (match permissions_locked c1 with Some p => negb (input_allowed p (ie_event_type reset_event)) | None => false end)
    with false by (by destruct (permissions_locked c1)).
  destruct (InputEvent_encode reset_event) as [body|] eqn:En; [|by vm_compute in En].
  unfold ClientSession.send_ready_packet. rewrite bool_decide_true by done.
  unfold ClientSession.client_send_packet, PacketHeader_encode. rewrite T.
  eexists _, (mkPacketHeader _ _ _ _), _. split; [reflexivity|]. split; [reflexivity|].
  assert (L : forall h : PacketHeader, length (PacketHeader_to_bytes h) = 12%nat)
    by (intros h; pose proof (PacketHeader_to_bytes_len h) as H; unfold len in H; width_lia).
  rewrite take_app_length', drop_app_length' by (by rewrite L). split_and!; [done..| |].
  - vm_compute in En. injection En as <-. by vm_compute.
  - unfold effective_permissions, permissions_locked.
    change (negotiated _ CAP_GUEST_PERMISSIONS) with (negotiated c CAP_GUEST_PERMISSIONS). rewrite N.
    unfold c1. by destruct (gp_clipboard permissions).
Qed.

End Outgoing.

(** ** Concrete sessions *)

Definition toy_server : Handshake :=
  mkHandshake (str_bytes "host") 1920 1080 0 PROTOCOL_VERSION
    (Z.lor CAP_GUEST_PERMISSIONS CAP_CLIPBOARD_IMAGE) (str_bytes "id") [].

Definition toy_permissions (clipboard gamepad : bool) : GuestPermissions :=
  mkGuestPermissions true true gamepad clipboard true.

(** A ready session holding a received image. *)
Definition toy_session : ClientSession :=
  mkClientSession (Z.lor CAP_GUEST_PERMISSIONS CAP_CLIPBOARD_IMAGE)
    (mkInner SS_Ready 1 (Some toy_server) FrameAssembler_default ReceiverStats_default
      AudioFragmentReassembler_default CursorState_default (mkStreamState true None [] None None)
      (mkParityState (mkSessionInfo None (Some (toy_permissions true true)) None None) [] None None 0
        ImageAssembly_default true (Some (str_bytes "png"))))
    None false 0 None true [].

Definition toy_control (m : ControlMessage) : list byte :=
  PacketHeader_to_bytes (mkPacketHeader PT_Control 1 0 0) ++ match ControlMessage_encode m with Ok b => b | Err _ => [] end.

Abbreviation toy_ops := (client_ops (fun _ _ _ _ => None) (fun _ => true) (fun _ => 7) (fun _ _ => true)).

(** The host revokes the clipboard: the image is gone. *)
Lemma clipboard_revocation_drops_images_witness :
  pas_completed_image (in_parity (cl_state toy_session)) = Some (str_bytes "png") /\
  fst (take_clipboard_image (toy_ops toy_session
    [OpTcp (toy_control (CM_GuestPermissions (toy_permissions false true))) 0])) = None.
Proof.
  split; [reflexivity|].
  apply (clipboard_revocation_drops_images (fun _ _ _ _ => None) (fun _ => true) (fun _ => 7) (fun _ _ => true)
    toy_session [OpTcp (toy_control (CM_GuestPermissions (toy_permissions false true))) 0]).
  - reflexivity.
  - intros H. vm_compute in H. discriminate H.
  - vm_compute. reflexivity.
Defined.

Lemma revoked_input_is_reset_witness :
  exists c' header packet,
    handle_control (fun _ => true) (fun _ => 7) (fun _ _ => true) toy_session
      (CM_GuestPermissions (toy_permissions true false)) 0 =
      (Ok (EV_StreamConfig (CM_GuestPermissions (toy_permissions true false))), c') /\
    cl_tcp_sent c' = [packet] /\ take 12 packet = PacketHeader_to_bytes header /\
    ph_packet_type header = PT_InputEvent /\ InputEvent_decode (drop 12 packet) = Ok reset_event /\
    effective_permissions c' = Some (toy_permissions true false).
Proof.
  apply (revoked_input_is_reset (fun _ => true) (fun _ => 7) (fun _ _ => true) toy_session
    (toy_permissions true true) (toy_permissions true false) 0); [reflexivity..| |done].
  right; right; split; reflexivity.
Defined.
