(* ===== verification/Pipeline.v ===== *)
(** * From the host's encoder to the client's decoder

    The composition of [HostSender], [UdpGcm], [Assembler] and [ClientSession]:
    what the host's [send_frame] and [send_audio] give to the socket, and what
    the client's [receive_udp_event] makes of it when the network reorders,
    duplicates and loses datagrams. *)

From S2P Require Import Prelude Codec Packet Media Transport UdpGcm.
From S2P Require Import Assembler HostSender AudioReassembler ReceiverStats ClientSession.

(** Which of the packets [0 .. count-1] are among [indices]. *)
Definition all_arrived (count : nat) (indices : list nat) : bool :=
  forallb (fun i => bool_decide (i ∈ indices)) (seq 0 count).

Lemma all_arrived_iff count indices :
  all_arrived count indices = true <-> forall i, (i < count)%nat -> i ∈ indices.
Proof.
  unfold all_arrived. rewrite forallb_forall. split; intros H i Hi.
  - apply (bool_decide_eq_true_1 (i ∈ indices)), H, in_seq. lia.
  - apply bool_decide_eq_true_2, H. apply in_seq in Hi. lia.
Qed.

Lemma all_arrived_ext count l1 l2 :
  (forall i, (i < count)%nat -> i ∈ l1 <-> i ∈ l2) -> all_arrived count l1 = all_arrived count l2.
Proof.
  intros H. apply eq_iff_eq_true. rewrite !all_arrived_iff.
  split; intros A i Hi; apply H; auto.
Qed.

Section Receive.

Context (decrypt : list byte -> list byte -> list byte -> list byte -> option (list byte)).
Context (decodes : list byte -> bool).
Context (current_unix_ms : list (list byte) -> Z).
Context (tcp_accepts : list (list byte) -> list byte -> bool).

Abbreviation receive_udp_event := (receive_udp_event decrypt decodes current_unix_ms tcp_accepts).
Abbreviation handle_packet := (handle_packet decodes current_unix_ms tcp_accepts).

(** The receive loop on a list of datagrams with their times. *)
Fixpoint receive_all (c : ClientSession) (arrivals : list (list byte * Instant * Instant))
    : list (result SessionError SessionEvent) * ClientSession :=
  match arrivals with
  | [] => ([], c)
  | (datagram, received_at, now) :: arrivals =>
    let '(r, c) := receive_udp_event c datagram received_at now in
    let '(rs, c) := receive_all c arrivals in (r :: rs, c)
  end.

(** The frames and the audio handed to the application. *)
Definition frame_of (r : result SessionError SessionEvent) : option AssembledFrame :=
  match r with Ok (EV_Frame f) => Some f | _ => None end.
Definition frames_of : list (result SessionError SessionEvent) -> list AssembledFrame := omap frame_of.

(** ** One datagram *)

Context (encrypt : list byte -> list byte -> list byte -> list byte -> option (list byte * list byte)).
Context (Hl : aead_lengths encrypt) (Hi : aead_inverse encrypt decrypt).

(** A ready client whose receiving cipher has the sender's key and has accepted
    the counters [seen]. *)
Record listening (tx : DatagramCipher) (c : ClientSession) (seen : list Z) : Prop := {
  ls_ready : in_state (cl_state c) = SS_Ready;
  ls_cipher : exists rx, cl_udp_receive c = Some rx /\ dc_cipher rx = dc_cipher tx /\
    dc_nonce_prefix rx = dc_nonce_prefix tx /\ window_rep (dc_replay rx) seen
}.

Lemma receive_sealed tx c seen messages rs tx' i d received_at now :
  cipher_wf tx -> listening tx c seen -> Forall (fun m => PacketHeader_wf m.1) messages ->
  seal_all encrypt tx messages = (rs, tx') -> rs !! i = Some (Ok d) ->
  let n := dc_send_counter tx + 1 + Z.of_nat i in
  exists h p c', messages !! i = Some (h, p) /\ cl_state c' = cl_state c /\
    listening tx c' (if spec_accepts seen n then n :: seen else seen) /\
    receive_udp_event c d received_at now =
      if spec_accepts seen n then handle_packet c' h p (Some (received_at, len d)) now
      else (Err (CE_Datagram DE_Replay), c').
Proof.
  intros W [Rd (rx & Er & K & P & R)] Hm Es L n.
  destruct (seal_all_lookup _ _ _ _ _ _ _ W Es L) as [B (h & p & ct & tag & M & En & ->)]. fold n in B, En |- *.
  assert (Nn : nonce_of tx n = nonce_of rx n) by (unfold nonce_of; by rewrite P).
  rewrite Nn in *. rewrite <- K in En. assert (Hn : 0 <= n <= U64_MAX) by (destruct W as [_ ?]; lia).
  unfold ClientSession.receive_udp_event. rewrite Er.
  rewrite (open_datagram_sealed encrypt decrypt Hl Hi rx h p ct tag n) ; cycle 1.
  { rewrite P. apply W. } { by eapply (Forall_lookup_1 _ _ _ _ Hm) in M. } { done. } { done. }
  rewrite (can_accept_spec _ seen n R) by lia.
  destruct (spec_accepts seen n) eqn:A.
  - exists h, p, (set_udp c (Some (set_replay rx (record (dc_replay rx) n))) true).
    split_and!; [done..| |done]. split; [done|]. eexists. split_and!; [done..|].
    apply record_spec; [exact R | lia | exact A].
  - exists h, p, (set_udp c (Some rx) (cl_udp_registered c)). split_and!; [done..| |done].
    split; [done|]. by exists rx.
Qed.

(** Whether the [i]-th of [count] packets is accepted, when the packets of
    [arrived] and older counters were. *)
Definition counters (tx : DatagramCipher) (arrived : list nat) : list Z :=
  (fun i => dc_send_counter tx + 1 + Z.of_nat i) <$> arrived.

Lemma accepts_fresh tx old arrived i count :
  Forall (fun n => n <= dc_send_counter tx) old -> Forall (fun j => (j < count)%nat) arrived ->
  (i < count)%nat -> Z.of_nat count <= REPLAY_WINDOW_SIZE ->
  spec_accepts (counters tx arrived ++ old) (dc_send_counter tx + 1 + Z.of_nat i) =
  negb (bool_decide (i ∈ arrived)).
Proof.
  intros Fo Fa Hc Hw. apply eq_iff_eq_true. rewrite spec_accepts_iff, negb_true_iff, bool_decide_eq_false.
  assert (E : dc_send_counter tx + 1 + Z.of_nat i ∈ counters tx arrived ++ old <-> i ∈ arrived).
  { rewrite elem_of_app. unfold counters. rewrite list_elem_of_fmap. split.
    - intros [(j & E & Hj)|Ho]; [by assert (j = i) as <- by lia|].
      rewrite Forall_forall in Fo. apply Fo in Ho. lia.
    - intros Hi'. left. by exists i. }
  rewrite E. split; [by intros [? _]|]. intros N. split; [done|].
  intros m [(j & -> & Hj)%list_elem_of_fmap|Ho]%elem_of_app.
  - rewrite Forall_forall in Fa. apply Fa in Hj. lia.
  - rewrite Forall_forall in Fo. apply Fo in Ho. width_lia.
Qed.

(** ** One frame *)

Lemma chunk_packets_lookup id data k i :
  chunk_packets id k data !! i =
  (fun c => (PT_FrameChunk, chunk_payload id (k + Z.of_nat i) c)) <$> data !! i.
Proof.
  revert k i. induction data as [|c data IH]; intros k i; [done|].
  destruct i as [|i]; cbn [chunk_packets]; [by rewrite Z.add_0_r|].
  cbn [lookup list_lookup]. rewrite IH. by replace (k + 1 + Z.of_nat i) with (k + Z.of_nat (S i)) by lia.
Qed.

Lemma chunk_packets_length id data k : length (chunk_packets id k data) = length data.
Proof. revert k. induction data; intros k; cbn; auto. Qed.

(** The client's side of a frame [h] with the chunks [cs]. *)
Context (h : FrameHeader) (cs : list (list byte)) (timestamp : Z) (t0 : Instant).
Context (Hchunks : len cs = fh_total_chunks h) (Hsize : len (concat cs) = fh_total_size h).
Context (Hwf : FrameHeader_wf h) (Hne : 1 <= fh_total_size h).
Context (Hcs : Forall (fun c => 1 <= len c <= MAX_VIDEO_CHUNK_BYTES) cs).

Definition part_of (i : nat) : option nat := match i with O => None | S i => Some i end.

(** The packets of the frame among the sealed messages: packet 0 is the header,
    the following ones are the chunks, the last one is anything but video. *)
Definition frame_messages (messages : list (PacketHeader * list byte)) : Prop :=
  length messages = S (S (length cs)) /\
  (exists hd, messages !! 0%nat = Some (hd, FrameHeader_bytes h) /\ ph_packet_type hd = PT_FrameHeader /\
    ph_timestamp_ms hd = timestamp) /\
  (forall i c, cs !! i = Some c -> exists hd,
    messages !! S i = Some (hd, FrameChunk_bytes (mkFrameChunk (fh_frame_id h) (Z.of_nat i) c)) /\
    ph_packet_type hd = PT_FrameChunk) /\
  (exists hd p, messages !! S (length cs) = Some (hd, p) /\ ph_packet_type hd = PT_Ping).

Lemma chunk_wf i c :
  cs !! i = Some c -> FrameChunk_wf (mkFrameChunk (fh_frame_id h) (Z.of_nat i) c).
Proof.
  intros L. rewrite Forall_forall in Hcs. pose proof (Hcs c (list_elem_of_lookup_2 _ _ _ L)).
  apply lookup_lt_Some in L. destruct Hwf as (? & ? & ? & ? & ?). unfold FrameChunk_wf. cbn.
  unfold len in Hchunks. width_lia.
Qed.

(** A video packet goes to the assembler. *)
Lemma handle_part messages c i hd p at_ bytes now :
  frame_messages messages -> messages !! i = Some (hd, p) -> (i <= length cs)%nat ->
  in_state (cl_state c) = SS_Ready ->
  exists c1, cl_udp_receive c1 = cl_udp_receive c /\ in_state (cl_state c1) = SS_Ready /\
    in_frames (cl_state c1) = in_frames (cl_state c) /\
    handle_packet c hd p (Some (at_, bytes)) now =
      handle_video c1 (push_part h cs timestamp (in_frames (cl_state c)) (part_of i, at_)) at_.
Proof.
  intros (_ & (h0 & M0 & T0 & Ts) & Mc & _) M Li Rd. unfold ClientSession.handle_packet.
  rewrite bool_decide_true by done. cbn [negb].
  exists (set_inner c (set_media (cl_state c) (in_frames (cl_state c))
    (observe_datagram (in_receiver (cl_state c)) (ph_sequence hd) bytes at_) (in_audio (cl_state c)))).
  split_and!; [done..|].
  destruct i as [|i]; cbn [part_of push_part].
  - rewrite M0 in M. injection M as <- <-. rewrite T0, Ts.
    rewrite (FrameHeader_round_trip h _ Hwf (FrameHeader_encode_eq h Hwf)). reflexivity.
  - destruct (cs !! i) as [d|] eqn:L; [|apply lookup_ge_None in L; lia].
    destruct (Mc i d L) as (hc & Mi & Tc). rewrite Mi in M. injection M as <- <-. rewrite Tc.
    rewrite (proj2 (FrameChunk_decode_iff _ (mkFrameChunk (fh_frame_id h) (Z.of_nat i) d)))
      by (split; [by apply chunk_wf | by apply FrameChunk_encode_eq, chunk_wf]).
    reflexivity.
Qed.

(** The chunks among the packets [arrived]. *)
Definition chunks_at (arrived : list nat) : chunk_map :=
  filter (fun kv : Z * list byte => S (Z.to_nat kv.1) ∈ arrived) (chunk_source cs).

Lemma chunks_at_lookup arrived i d :
  chunks_at arrived !! i = Some d <-> chunk_source cs !! i = Some d /\ S (Z.to_nat i) ∈ arrived.
Proof. apply map_lookup_filter_Some. Qed.

Lemma chunks_at_sub arrived : chunks_at arrived ⊆ chunk_source cs.
Proof. apply map_filter_subseteq. Qed.

Lemma chunks_at_step arrived i :
  (i <= length cs)%nat -> part_chunks cs (chunks_at arrived) (part_of i) = chunks_at (i :: arrived).
Proof.
  intros Li. apply map_eq. intros k. apply option_eq. intros d. rewrite chunks_at_lookup.
  destruct i as [|i]; cbn [part_of part_chunks].
  - rewrite chunks_at_lookup, elem_of_cons. naive_solver.
  - rewrite lookup_insert_Some, chunks_at_lookup, elem_of_cons.
    assert (L : cs !! i = Some (default [] (cs !! i))).
    { destruct (lookup_lt_is_Some_2 cs i Li) as [x ->]. done. }
    assert (Si : chunk_source cs !! Z.of_nat i = Some (default [] (cs !! i)))
      by (apply chunk_source_lookup; rewrite Nat2Z.id; split; [lia | done]).
    split.
    + intros [[<- <-]|[Ne [? ?]]]; [rewrite Nat2Z.id; auto | auto].
    + intros [Sk [E|E]].
      * injection E as E. left. apply chunk_source_lookup in Sk as Sk'.
        assert (k = Z.of_nat i) as -> by lia. rewrite Si in Sk. by injection Sk as <-.
      * destruct (decide (k = Z.of_nat i)) as [->|N]; [left|right; auto].
        rewrite Si in Sk. by injection Sk as <-.
Qed.

Lemma chunks_at_all arrived :
  all_arrived (S (length cs)) arrived =
  bool_decide (0%nat ∈ arrived) && bool_decide (chunks_at arrived = chunk_source cs).
Proof.
  apply eq_iff_eq_true. rewrite all_arrived_iff, andb_true_iff, !bool_decide_eq_true. split.
  - intros All. split; [apply All; lia|]. apply (anti_symm (⊆)); [apply chunks_at_sub|].
    apply map_subseteq_spec. intros i d Si. apply chunks_at_lookup. split; [done|].
    apply All. apply chunk_source_lookup in Si as [_ L%lookup_lt_Some]. lia.
  - intros [Z0 E] [|i] Hi0; [done|].
    destruct (lookup_lt_is_Some_2 cs i ltac:(lia)) as [d L].
    assert (Si : chunk_source cs !! Z.of_nat i = Some d)
      by (apply chunk_source_lookup; rewrite Nat2Z.id; split; [lia | done]).
    rewrite <- E in Si. apply chunks_at_lookup in Si as [_ Si]. by rewrite Nat2Z.id in Si.
Qed.

(** Where the frame is in the client once the packets [arrived] have arrived. *)
Definition frame_state (s : FrameAssembler) (arrived : list nat) : Prop :=
  all_arrived (S (length cs)) arrived = false ->
  tracking h cs timestamp t0 s (bool_decide (0%nat ∈ arrived)) (chunks_at arrived).

Lemma frame_state_ext s a1 a2 :
  (forall i, i ∈ a1 <-> i ∈ a2) -> frame_state s a1 -> frame_state s a2.
Proof.
  intros E St A. rewrite <- (all_arrived_ext _ a1 a2) in A by auto. specialize (St A).
  rewrite <- (bool_decide_ext _ _ (E 0%nat)).
  replace (chunks_at a2) with (chunks_at a1); [done|].
  apply map_eq. intros k. apply option_eq. intros d. rewrite !chunks_at_lookup. by rewrite E.
Qed.

Lemma completed_tracking s seen c :
  tracking h cs timestamp t0 s seen c -> tracking h cs timestamp t0 (snd (take_completed_started_at s)) seen c.
Proof. by intros []. Qed.

(** A video packet that was not there yet: the frame comes out with the last. *)
Lemma video_step c arrived i at_ :
  frame_state (in_frames (cl_state c)) arrived -> i ∉ arrived -> (i <= length cs)%nat -> Assembler.in_window t0 at_ ->
  let '(r, c') := handle_video c (push_part h cs timestamp (in_frames (cl_state c)) (part_of i, at_)) at_ in
  cl_udp_receive c' = cl_udp_receive c /\ in_state (cl_state c') = in_state (cl_state c) /\
  frame_state (in_frames (cl_state c')) (i :: arrived) /\
  frame_of r = if all_arrived (S (length cs)) (i :: arrived) then Some (the_frame h cs timestamp) else None.
Proof.
  intros St N Li Hw.
  assert (A : all_arrived (S (length cs)) arrived = false).
  { apply not_true_is_false. rewrite all_arrived_iff. intros All. destruct N. apply All. lia. }
  specialize (St A). destruct Hwf as (_ & _ & _ & [Bc Bc'] & [_ Bs] & Bm).
  assert (Bc1 : 1 <= fh_total_chunks h) by (apply Z.le_ngt; intros ?; assert (fh_total_chunks h = 0) as E by lia;
    rewrite E in Bm; lia).
  pose proof (push_part_tracked h cs timestamp t0 Hchunks Hsize (conj Bc1 Bc') (conj Hne Bs)
    (in_frames (cl_state c)) _ _ (part_of i) at_ Hw St) as Pt.
  rewrite chunks_at_step in Pt by done.
  replace (part_seen (bool_decide (0%nat ∈ arrived)) (part_of i)) with (bool_decide (0%nat ∈ i :: arrived)) in Pt.
  2: { destruct i as [|i]; cbn; [by apply bool_decide_true; left|]. apply bool_decide_ext.
    rewrite elem_of_cons. naive_solver. }
  unfold handle_video. destruct (push_part _ _ _ _ _) as [r s].
  lapply Pt; [clear Pt; intros Pt|].
  2: { destruct i as [|i]; cbn; [by apply bool_decide_false|]. split; [|lia].
    apply eq_None_not_Some. intros [d Hd]. apply chunks_at_lookup in Hd as [_ Hd].
    by rewrite Nat2Z.id in Hd. }
  rewrite <- chunks_at_all in Pt. destruct (all_arrived _ (i :: arrived)) eqn:A'.
  - subst r. destruct (take_completed_started_at s). split_and!; [done..| |done].
    intros E. congruence.
  - destruct Pt as [-> Tr]. apply completed_tracking in Tr.
    destruct (take_completed_started_at s). split_and!; [done..| |done]. intros _. done.
Qed.

(** The last packet of a frame carries no video. *)
Lemma handle_ping c hd p at_ bytes now :
  ph_packet_type hd = PT_Ping -> in_state (cl_state c) = SS_Ready ->
  exists c', handle_packet c hd p (Some (at_, bytes)) now = (Ok EV_Ping, c') /\
    cl_udp_receive c' = cl_udp_receive c /\ in_state (cl_state c') = SS_Ready /\
    in_frames (cl_state c') = in_frames (cl_state c).
Proof.
  intros T Rd. unfold ClientSession.handle_packet. rewrite bool_decide_true, T by done. cbn [negb].
  destruct (TimestampStats_decode p); eexists; (split; [reflexivity | done]).
Qed.

Section Frame.

Context (tx tx' : DatagramCipher) (messages : list (PacketHeader * list byte)) (ds : list (list byte)).
Context (old : list Z).
Context (W : cipher_wf tx) (Hm : Forall (fun m => PacketHeader_wf m.1) messages).
Context (Hseal : seal_all encrypt tx messages = (Ok <$> ds, tx')).
Context (Hold : Forall (fun n => n <= dc_send_counter tx) old).
Context (Hf : frame_messages messages) (Hwindow : Z.of_nat (S (S (length cs))) <= REPLAY_WINDOW_SIZE).

(** The client once the packets [arrived] have arrived. *)
Record receiving (c : ClientSession) (arrived : list nat) : Prop := {
  rc_listening : listening tx c (counters tx arrived ++ old);
  rc_arrived : Forall (fun j => (j < S (S (length cs)))%nat) arrived;
  rc_frame : frame_state (in_frames (cl_state c)) arrived
}.

(** What the arrival of packet [i] hands to the application. *)
Definition frame_at (arrived : list nat) (i : nat) : option AssembledFrame :=
  if all_arrived (S (length cs)) (i :: arrived) && negb (all_arrived (S (length cs)) arrived)
  then Some (the_frame h cs timestamp) else None.

Lemma receive_step c arrived i d at_ now :
  receiving c arrived -> ds !! i = Some d -> (i < S (S (length cs)))%nat -> Assembler.in_window t0 at_ ->
  let '(r, c') := receive_udp_event c d at_ now in
  receiving c' (if bool_decide (i ∈ arrived) then arrived else i :: arrived) /\
  frame_of r = frame_at arrived i.
Proof.
  intros [Ls Fa St] L Bi Hw.
  assert (Lo : (Ok <$> ds : list (result DatagramError (list byte))) !! i = Some (Ok d))
    by (rewrite list_lookup_fmap, L; done).
  destruct (receive_sealed tx c _ messages _ _ i d at_ now W Ls Hm Hseal Lo) as (hd & p & c1 & M & Ec & Ls1 & E).
  rewrite (accepts_fresh tx old arrived i _ Hold Fa Bi Hwindow) in Ls1, E.
  destruct (bool_decide_reflect (i ∈ arrived)) as [Hin|Hin]; cbn [negb] in Ls1, E; rewrite E.
  - split; [by split; rewrite ?Ec|]. unfold frame_at.
    rewrite (all_arrived_ext _ (i :: arrived) arrived) by (intros; rewrite elem_of_cons; naive_solver).
    by rewrite andb_negb_r.
  - assert (Fa' : Forall (fun j => (j < S (S (length cs)))%nat) (i :: arrived)) by by constructor.
    destruct (decide (i <= length cs)%nat) as [Li|Gi].
    + destruct (handle_part messages c1 i hd p at_ (len d) now Hf M Li (ls_ready _ _ _ Ls1))
        as (c2 & U2 & R2 & F2 & ->).
      rewrite <- F2. rewrite <- Ec, <- F2 in St.
      pose proof (video_step c2 arrived i at_ St Hin Li Hw) as V.
      destruct (handle_video _ _ _) as [r c3]. destruct V as (U3 & R3 & F3 & ->). split.
      * split; [|done|done]. destruct Ls1 as [_ Lc]. split; [by rewrite R3|]. by rewrite U3, U2.
      * unfold frame_at. rewrite (not_true_is_false (all_arrived (S (length cs)) arrived)).
        { by rewrite andb_true_r. }
        rewrite all_arrived_iff. intros All. apply Hin, All. lia.
    + assert (i = S (length cs)) as -> by lia.
      destruct Hf as (_ & _ & _ & hp & pp & Mp & Tp). rewrite M in Mp. injection Mp as <- <-.
      destruct (handle_ping c1 hd p at_ (len d) now Tp (ls_ready _ _ _ Ls1)) as (c2 & -> & U2 & R2 & F2).
      assert (X : forall j, (j < S (length cs))%nat -> j ∈ S (length cs) :: arrived <-> j ∈ arrived)
        by (intros j Hj; rewrite elem_of_cons; naive_solver lia).
      split.
      * split; [|done|].
        { destruct Ls1 as [_ Lc]. split; [done|]. by rewrite U2. }
        rewrite F2, Ec. intros A. rewrite (all_arrived_ext _ _ _ X) in A. specialize (St A).
        rewrite (bool_decide_ext (0%nat ∈ S (length cs) :: arrived) (0%nat ∈ arrived)) by (apply X; lia).
        replace (chunks_at (S (length cs) :: arrived)) with (chunks_at arrived); [done|].
        apply map_eq. intros k. apply option_eq. intros dk. rewrite !chunks_at_lookup.
        split; intros [Sk Hk]; (split; [done|]); apply chunk_source_lookup in Sk as Sk';
          destruct Sk' as [_ Lk%lookup_lt_Some]; apply (X (S (Z.to_nat k))); [lia|done|lia|done].
      * unfold frame_at. rewrite (all_arrived_ext _ _ _ X). by rewrite andb_negb_r.
Qed.

(** Arrivals by packet number. *)
Definition datagram_of (a : nat * Instant * Instant) : list byte * Instant * Instant :=
  (default [] (ds !! a.1.1), a.1.2, a.2).

Lemma receive_frame arrivals c arrived :
  receiving c arrived ->
  Forall (fun a => (a.1.1 < S (S (length cs)))%nat /\ Assembler.in_window t0 a.1.2) arrivals ->
  length ds = S (S (length cs)) ->
  frames_of (fst (receive_all c (datagram_of <$> arrivals))) =
  if all_arrived (S (length cs)) (arrivals.*1.*1 ++ arrived) && negb (all_arrived (S (length cs)) arrived)
  then [the_frame h cs timestamp] else [].
Proof.
  intros R F Ld. revert c arrived R. induction F as [|[[i at_] now] arrivals [Bi Hw] F IH]; intros c arrived R.
  { cbn. by rewrite andb_negb_r. }
  cbn [fst snd] in Bi, Hw. cbn [fmap list_fmap receive_all datagram_of fst snd].
  destruct (lookup_lt_is_Some_2 ds i ltac:(lia)) as [d L].
  change (datagram_of (i, at_, now)) with (default [] (ds !! i), at_, now). rewrite L.
  change (default [] (Some d)) with d.
  pose proof (receive_step c arrived i d at_ now R L Bi Hw) as St.
  destruct (receive_udp_event c d at_ now) as [r c1]. destruct St as [R1 Fr].
  specialize (IH c1 _ R1). destruct (receive_all c1 _) as [rs c2]. cbn [fst] in IH |- *.
  change (frames_of (r :: rs)) with (match frame_of r with Some y => y :: frames_of rs | None => frames_of rs end).
  rewrite Fr, IH. clear Fr IH.
  assert (X : forall a, all_arrived (S (length cs)) (a ++ (if bool_decide (i ∈ arrived) then arrived else i :: arrived))
    = all_arrived (S (length cs)) (i :: a ++ arrived)).
  { intros a. apply all_arrived_ext. intros j _. rewrite elem_of_cons, !elem_of_app.
    destruct (bool_decide_reflect (i ∈ arrived)); rewrite ?elem_of_cons; naive_solver. }
  rewrite X. pose proof (X []) as X0. cbn [app] in X0. rewrite X0. unfold frame_at.
  assert (Mono : forall a b, (forall j, j ∈ a -> j ∈ b) -> all_arrived (S (length cs)) a = true ->
    all_arrived (S (length cs)) b = true).
  { intros a b Hab. rewrite !all_arrived_iff. auto. }
  pose proof (Mono arrived (i :: arrived) ltac:(intros; by right)) as M1.
  pose proof (Mono (i :: arrived) (i :: arrivals.*1.*1 ++ arrived)
    ltac:(intros j; rewrite !elem_of_cons, elem_of_app; tauto)) as M2.
  cbn [app].
  destruct (all_arrived _ arrived), (all_arrived _ (i :: arrived)), (all_arrived _ (i :: _ ++ _)); cbn; try done;
    try (specialize (M1 eq_refl); discriminate); try (specialize (M2 eq_refl); discriminate).
Qed.

End Frame.

End Receive.

(** ** The host's side *)

Lemma frame_packets_messages id width height f stats ms :
  packets_of ms = frame_packets id width height f stats ->
  div_ceil (len (vf_data f)) SENDER_MAX_VIDEO_CHUNK_BYTES <= 4094 ->
  exists timestamp, frame_messages (frame_header_of id width height f)
    (chunks (vf_data f) SENDER_MAX_VIDEO_CHUNK_BYTES) timestamp ms /\
    forall m, ms !! 0%nat = Some m -> ph_timestamp_ms m.1 = timestamp.
Proof.
  intros P Bn. set (cs := chunks (vf_data f) SENDER_MAX_VIDEO_CHUNK_BYTES).
  destruct (chunks_spec (vf_data f) SENDER_MAX_VIDEO_CHUNK_BYTES) as (_ & _ & Ln); [done|]. fold cs in Ln.
  assert (At : forall i t p, frame_packets id width height f stats !! i = Some (t, p) ->
    exists hd, ms !! i = Some (hd, p) /\ ph_packet_type hd = t).
  { intros i t p. rewrite <- P. unfold packets_of. rewrite list_lookup_fmap.
    destruct (ms !! i) as [[hd q]|]; [|done]. intros [= <- <-]. by exists hd. }
  assert (Ls : length ms = S (S (length cs))).
  { pose proof (f_equal length P) as E. unfold packets_of, frame_packets in E.
    rewrite length_fmap in E. cbn [length] in E. rewrite length_app, chunk_packets_length in E.
    cbn in E. fold cs in E. lia. }
  assert (Lc : forall i, (i < length cs)%nat ->
    frame_packets id width height f stats !! S i = chunk_packets id 0 cs !! i).
  { intros i Hi. unfold frame_packets. cbn. apply lookup_app_l. by rewrite chunk_packets_length. }
  destruct (At 0%nat _ _ eq_refl) as (h0 & M0 & T0).
  exists (ph_timestamp_ms h0). split; [split_and!; [done| | |]|by intros m; rewrite M0; intros [= <-]].
  - by exists h0.
  - intros i c L. apply lookup_lt_Some in L as Li. apply At. rewrite Lc by done.
    rewrite chunk_packets_lookup, L. cbn. unfold chunk_payload. rewrite Z.mod_small; [done|].
    change (len cs) with (Z.of_nat (length cs)) in Ln. lia.
  - destruct (At (S (length cs)) PT_Ping (TimestampStats_encode stats)) as (hp & Mp & Tp); [|by exists hp, (TimestampStats_encode stats)].
    change ((chunk_packets id 0 cs ++ [(PT_Ping, TimestampStats_encode stats)]) !! length cs = Some (PT_Ping, TimestampStats_encode stats)).
    rewrite lookup_app_r by (by rewrite chunk_packets_length).
    by rewrite chunk_packets_length, Nat.sub_diag.
Qed.

Lemma transmitted_headers encrypt st ms ds st' :
  transmitted encrypt st ms ds st' -> Forall (fun m => PacketHeader_wf m.1) ms.
Proof.
  intros [_ _ N _ _]. apply Forall_lookup_2. intros i m L.
  destruct (N i m L) as (Es & ? & Ef). unfold PacketHeader_wf. rewrite Es, Ef.
  split_and!; [apply wrapping_add32_range | done | done].
Qed.

Lemma seal_all_length encrypt ms c : length (fst (seal_all encrypt c ms)) = length ms.
Proof.
  revert c. induction ms as [|[h p] ms IH]; intros c; [done|]. cbn.
  destruct (seal_datagram encrypt c h p) as [r c1]. specialize (IH c1).
  destruct (seal_all encrypt c1 ms). cbn in *. by rewrite IH.
Qed.


(** A frame of two chunks; the second chunk comes first and twice, then the
    header, then the first chunk; the statistics are lost. *)
Definition toy_listener : ClientSession := set_udp toy_session (Some toy_sender) true.

Definition toy_sent : result SenderError unit * sender_state :=
  send_frame toy_encrypt (fun _ => 5) (fun _ => 4000) (fun _ _ => true) (UdpSender_default, toy_sender, [])
    1920 1080 toy_frame 0.

