(* ===== verification/Admission.v ===== *)
(** * Admission to the host: keys, lockout and the pairing store

    [clients/rust/maho-net/src/tls_psk.rs] ([PskIdentity], [BootstrapLockout])
    and [clients/rust/maho-host/src/session.rs] ([PairingStore],
    [current_psks]): which TLS identities a host offers, when pairing is locked,
    and what it keeps of the devices it paired with.  The two files of the store
    are replaced atomically (a temporary file and a rename); their JSON and
    base64 are not modelled, a file is the value it holds.  A call can stop after
    any of its writes, which is how I/O errors and crashes are modelled. *)

From S2P Require Import Prelude Codec Parity.

(** ** TLS-PSK identities *)

Definition BOOTSTRAP_IDENTITY : list byte := str_bytes "maho-b1".
Definition PAIRING_IDENTITY_PREFIX : list byte := str_bytes "maho-p1.".

Record PskIdentity : Type := mkPskIdentity { psk_identity : list byte; psk_key : list byte }.

Inductive IdentityError : Type := ID_InvalidIdentity | ID_InvalidKeyLength.

Definition PskIdentity_new (identity key : list byte) : result IdentityError PskIdentity :=
  if bool_decide (identity = []) || bool_decide (Byte.x00 ∈ identity) then Err ID_InvalidIdentity
  else if bool_decide (key = []) then Err ID_InvalidKeyLength
  else Ok (mkPskIdentity identity key).

Definition PskIdentity_pairing (pairing_id key : list byte) : result IdentityError PskIdentity :=
  if bool_decide (pairing_id = []) then Err ID_InvalidIdentity
  else if negb (len key =? 32) then Err ID_InvalidKeyLength
  else PskIdentity_new (PAIRING_IDENTITY_PREFIX ++ pairing_id) key.

(** [str::strip_prefix]. *)
Definition strip_prefix (s prefix : list byte) : option (list byte) :=
  if bool_decide (take (length prefix) s = prefix) then Some (drop (length prefix) s) else None.

(** ** The lockout of the bootstrap path *)

Definition MAX_PAIRING_ATTEMPTS : Z := 5.
Definition PAIRING_ATTEMPT_WINDOW : Duration := from_secs 60.
Definition PAIRING_LOCKOUT : Duration := from_secs 300.

Record BootstrapLockout : Type := mkBootstrapLockout {
  bl_pairing_active : bool;
  bl_failure_count : Z;
  bl_failure_window_start : option Instant;
  bl_locked_until : option Instant
}.

Definition BootstrapLockout_default : BootstrapLockout := mkBootstrapLockout false 0 None None.

Definition begin_pairing (s : BootstrapLockout) : BootstrapLockout := mkBootstrapLockout true 0 None None.
Definition cancel_pairing (s : BootstrapLockout) : BootstrapLockout :=
  mkBootstrapLockout false (bl_failure_count s) (bl_failure_window_start s) (bl_locked_until s).

Definition is_allowed (s : BootstrapLockout) (now : Instant) : bool :=
  bl_pairing_active s && match bl_locked_until s with Some t => t <=? now | None => true end.

Definition record_failure (s : BootstrapLockout) (now : Instant) : bool * BootstrapLockout :=
  let fresh :=
    match bl_failure_window_start s with
    | None => true
    | Some start => PAIRING_ATTEMPT_WINDOW <? saturating_duration_since now start
    end in
  let count := if fresh then 0 else bl_failure_count s in
  let start := if fresh then Some now else bl_failure_window_start s in
  let count := count + 1 in
  if MAX_PAIRING_ATTEMPTS <=? count
  then (true, mkBootstrapLockout false count start (Some (now + PAIRING_LOCKOUT)))
  else (false, mkBootstrapLockout (bl_pairing_active s) count start (bl_locked_until s)).

(** ** The pairing store *)

Record PairingRecord : Type := mkPairingRecord {
  rec_id : rstring;
  rec_name : rstring;
  rec_key : list byte;
  rec_added_at_unix_ms : Z
}.

(** The [grants.json] of the store: the encoded trust and the permissions. *)
Abbreviation HostGrants := (gmap rstring (list byte * option GuestPermissions)) (only parsing).

Record PairingStore : Type := mkPairingStore {
  st_records : list PairingRecord;
  st_grants : HostGrants
}.

Definition valid_trust (trust : PairingTrust) (now : Z) : bool :=
  match trust with
  | PT_Owner => true
  | PT_GuestOnce => false
  | PT_GuestExpiring expires_at_unix_ms => now <? expires_at_unix_ms
  end.

Definition store_load (s : PairingStore) (id : rstring) : option PairingRecord :=
  head (filter (fun r => rec_id r = id) (st_records s)).

Definition authorization (s : PairingStore) (id : rstring)
    : cresult (PairingTrust * option GuestPermissions) :=
  match st_grants s !! id with
  | None => Ok (PT_Owner, None)
  | Some (trust, permissions) => trust ← PairingTrust_decode trust; Ok (trust, permissions)
  end.

(** The writes of an operation, in order; a write replaces one file. *)
Inductive DiskWrite : Type :=
| WriteRecords (records : list PairingRecord)
| WriteGrants (grants : HostGrants).

Definition apply_write (s : PairingStore) (w : DiskWrite) : PairingStore :=
  match w with
  | WriteRecords records => mkPairingStore records (st_grants s)
  | WriteGrants grants => mkPairingStore (st_records s) grants
  end.

Definition set_authorization_writes (s : PairingStore) (id : rstring) (trust : PairingTrust)
    (permissions : option GuestPermissions) : list DiskWrite :=
  match PairingTrust_encode trust with
  | Err _ => []
  | Ok bytes => [WriteGrants (<[id := (bytes, permissions)]> (st_grants s))]
  end.

Definition save_writes (s : PairingStore) (record : PairingRecord) : list DiskWrite :=
  [WriteRecords (filter (fun r => rec_id r <> rec_id record) (st_records s) ++ [record])].

Definition revoke_writes (s : PairingStore) (id : rstring) : list DiskWrite :=
  let records := filter (fun r => rec_id r <> id) (st_records s) in
  let removed := negb (len records =? len (st_records s)) in
  (if removed then [WriteRecords records] else []) ++
  match st_grants s !! id with
  | Some _ => [WriteGrants (delete id (st_grants s))]
  | None => []
  end.

(** An operation of the store, or a pair of them that the code makes in a row:
    [SO_Admit] is what the host does with a new device, [SO_Permissions] is the
    store's part of [set_guest_permissions]. *)
Inductive StoreOp : Type :=
| SO_Save (record : PairingRecord)
| SO_Revoke (id : rstring)
| SO_SetAuthorization (id : rstring) (trust : PairingTrust) (permissions : option GuestPermissions)
| SO_Admit (record : PairingRecord) (trust : PairingTrust) (permissions : option GuestPermissions)
| SO_Permissions (id : rstring) (permissions : GuestPermissions).

(** [set_guest_permissions]: only of a known pairing, its trust kept. *)
Definition set_guest_permissions_writes (s : PairingStore) (id : rstring) (permissions : GuestPermissions)
    : list DiskWrite :=
  match store_load s id with
  | None => []
  | Some _ =>
    match authorization s id with
    | Err _ => []
    | Ok (trust, _) => set_authorization_writes s id trust (Some permissions)
    end
  end.

(** [set_authorization(..)?; save(..)?] *)
Definition admit_writes (s : PairingStore) (record : PairingRecord) (trust : PairingTrust)
    (permissions : option GuestPermissions) : list DiskWrite :=
  match set_authorization_writes s (rec_id record) trust permissions with
  | [] => []
  | ws => ws ++ save_writes s record
  end.

Definition op_writes (s : PairingStore) (op : StoreOp) : list DiskWrite :=
  match op with
  | SO_Save record => save_writes s record
  | SO_Revoke id => revoke_writes s id
  | SO_SetAuthorization id trust permissions => set_authorization_writes s id trust permissions
  | SO_Admit record trust permissions => admit_writes s record trust permissions
  | SO_Permissions id permissions => set_guest_permissions_writes s id permissions
  end.

(** An operation that stops after [budget] of its writes. *)
Definition store_op (s : PairingStore) (op : StoreOp) (budget : nat) : PairingStore :=
  foldl apply_write s (take budget (op_writes s op)).

Fixpoint store_ops (s : PairingStore) (ops : list (StoreOp * nat)) : PairingStore :=
  match ops with
  | [] => s
  | (op, budget) :: ops => store_ops (store_op s op budget) ops
  end.

(** An operation with all its writes. *)
Definition store_complete (s : PairingStore) (op : StoreOp) : PairingStore :=
  foldl apply_write s (op_writes s op).

Definition store_save s record := store_complete s (SO_Save record).
Definition store_revoke s id := store_complete s (SO_Revoke id).
Definition set_authorization s id trust permissions :=
  store_complete s (SO_SetAuthorization id trust permissions).

(** ** The identities of the host *)

Fixpoint pairing_psks (l : list PairingRecord) : result IdentityError (list PskIdentity) :=
  match l with
  | [] => Ok []
  | r :: l => psk ← PskIdentity_pairing (rec_id r) (rec_key r); psks ← pairing_psks l; Ok (psk :: psks)
  end.

Definition authorized (s : PairingStore) (unix_ms : Z) (r : PairingRecord) : bool :=
  match authorization s (rec_id r) with Ok (trust, _) => valid_trust trust unix_ms | Err _ => false end.

(** The deadline of the pairing window and the lockout. *)
Definition pairing_is_active (deadline : option Instant) (lockout : BootstrapLockout) (now : Instant) : bool :=
  match deadline with Some d => now <? d | None => false end && is_allowed lockout now.

(** [disabled_key] is random. *)
Definition current_psks (s : PairingStore) (unix_ms : Z) (deadline : option Instant)
    (lockout : BootstrapLockout) (bootstrap : option PskIdentity) (disabled_key : list byte) (now : Instant)
    : result IdentityError (list PskIdentity) :=
  psks ← pairing_psks (filter (fun r => authorized s unix_ms r = true) (st_records s));
  let psks :=
    if pairing_is_active deadline lockout now
    then match bootstrap with Some identity => psks ++ [identity] | None => psks end else psks in
  if bool_decide (length psks = 0%nat)
  then disabled ← PskIdentity_new (str_bytes "maho-disabled") disabled_key; Ok [disabled]
  else Ok psks.

(** * Theorems *)

(** ** The store *)

Lemma store_load_Some s id r : store_load s id = Some r -> r ∈ st_records s /\ rec_id r = id.
Proof.
  unfold store_load. intros H. apply head_Some_elem_of in H. apply list_elem_of_filter in H. tauto.
Qed.

Lemma store_load_records (s : PairingStore) g id :
  store_load (mkPairingStore (st_records s) g) id = store_load s id.
Proof. done. Qed.

Lemma head_filter_app {A} (P : A -> Prop) `{!∀ x, Decision (P x)} (l k : list A) :
  head (filter P (l ++ k)) = match head (filter P l) with Some x => Some x | None => head (filter P k) end.
Proof. rewrite filter_app. by destruct (filter P l). Qed.

Lemma store_load_filtered s g id other :
  id <> other ->
  store_load (mkPairingStore (filter (fun r => rec_id r <> other) (st_records s)) g) id = store_load s id.
Proof.
  intros N. unfold store_load. cbn. f_equal. rewrite list_filter_filter_l; [done|].
  intros r <-. congruence.
Qed.

Lemma store_load_removed s g id :
  store_load (mkPairingStore (filter (fun r => rec_id r <> id) (st_records s)) g) id = None.
Proof.
  unfold store_load. cbn. rewrite list_filter_filter.
  match goal with |- head ?l = None => destruct l as [|r l'] eqn:E; [done|] end. exfalso.
  assert (H : r ∈ r :: l') by apply list_elem_of_here. rewrite <- E in H.
  apply list_elem_of_filter in H as [[? ?] _]. done.
Qed.

Lemma store_load_saved s record g :
  store_load (mkPairingStore (filter (fun r => rec_id r <> rec_id record) (st_records s) ++ [record]) g)
    (rec_id record) = Some record.
Proof.
  pose proof (store_load_removed s g (rec_id record)) as H. unfold store_load in *. cbn in *.
  rewrite head_filter_app, H. by rewrite filter_cons_True.
Qed.

Lemma store_load_saved_other s record g id :
  id <> rec_id record ->
  store_load (mkPairingStore (filter (fun r => rec_id r <> rec_id record) (st_records s) ++ [record]) g) id
  = store_load s id.
Proof.
  intros N. pose proof (store_load_filtered s g id (rec_id record) N) as H.
  unfold store_load in *. cbn in *. rewrite head_filter_app, H.
  destruct (head (filter _ (st_records s))); [done|]. rewrite (filter_cons_False _ record) by (cbn; congruence). done.
Qed.

(** Operations that give the pairing [id] no key and no authorization of its own. *)
Definition leaves_alone (id : rstring) (op : StoreOp) : Prop :=
  match op with
  | SO_Save r | SO_Admit r _ _ => rec_id r <> id
  | SO_SetAuthorization other _ _ => other <> id
  | SO_Revoke _ | SO_Permissions _ _ => True
  end.

(** The pairing cannot be used, or it can with the trust [t]. *)
Definition kept_trust (id : rstring) (t : PairingTrust) (s : PairingStore) : Prop :=
  store_load s id = None \/ exists p, authorization s id = Ok (t, p).

Lemma authorization_same_grants s records id :
  authorization (mkPairingStore records (st_grants s)) id = authorization s id.
Proof. done. Qed.

Lemma authorization_other_grants s v id other records :
  id <> other -> authorization (mkPairingStore records (<[other := v]> (st_grants s))) id = authorization s id.
Proof. intros N. unfold authorization. cbn. by rewrite lookup_insert_ne by congruence. Qed.

Lemma authorization_deleted_other s id other records :
  id <> other -> authorization (mkPairingStore records (delete other (st_grants s))) id = authorization s id.
Proof. intros N. unfold authorization. cbn. by rewrite lookup_delete_ne by congruence. Qed.

Lemma authorization_set s id t bytes permissions records :
  PairingTrust_wf t -> PairingTrust_encode t = Ok bytes ->
  authorization (mkPairingStore records (<[id := (bytes, permissions)]> (st_grants s))) id = Ok (t, permissions).
Proof.
  intros W E. unfold authorization. cbn. rewrite lookup_insert_eq.
  by rewrite (proj2 (PairingTrust_decode_iff bytes t) (conj W E)).
Qed.

(** Splits an operation into the writes it makes. *)
Ltac split_writes budget :=
  unfold store_op; cbn [op_writes];
  unfold save_writes, revoke_writes, set_authorization_writes, admit_writes, set_guest_permissions_writes,
    set_authorization_writes;
  repeat match goal with
  | |- context [match PairingTrust_encode ?t with _ => _ end] => destruct (PairingTrust_encode t) eqn:?
  | |- context [match store_load ?s ?i with _ => _ end] => destruct (store_load s i) eqn:?
  | |- context [match authorization ?s ?i with _ => _ end] => destruct (authorization s i) as [[]|] eqn:?
  | |- context [match st_grants ?s !! ?i with _ => _ end] => destruct (st_grants s !! i) eqn:?
  | |- context [if ?b then [_] else []] => destruct b eqn:?
  end;
  destruct budget as [|[|budget]]; cbn; rewrite ?take_nil; cbn.

Lemma store_op_none s op budget id :
  leaves_alone id op -> store_load s id = None -> store_load (store_op s op budget) id = None.
Proof.
  intros A N. destruct op as [r|other|other t p|r t p|other p]; cbn in A; split_writes budget;
    rewrite ?store_load_saved_other, ?store_load_records by congruence; try done.
  all: destruct (decide (id = other)) as [->|];
    [apply store_load_removed | by rewrite store_load_filtered].
Qed.

(** Revoking a pairing takes its record out of the store first, so it is never
    there without its authorization. *)
Lemma revoke_unloads s id budget :
  (1 <= budget)%nat -> store_load (store_op s (SO_Revoke id) budget) id = None.
Proof.
  intros B. assert (K : negb (len (filter (fun r => rec_id r <> id) (st_records s)) =? len (st_records s)) = false ->
    store_load s id = None).
  { intros E. bool_prop. unfold len in E. destruct (store_load s id) as [r|] eqn:L; [|done].
    apply store_load_Some in L as [I F]. exfalso.
    pose proof (length_filter_lt (fun r => rec_id r <> id) _ r I ltac:(auto)). lia. }
  split_writes budget; try lia; rewrite ?store_load_records; try apply store_load_removed; by apply K.
Qed.

Lemma store_op_keeps s op budget id t :
  PairingTrust_wf t -> leaves_alone id op -> kept_trust id t s -> kept_trust id t (store_op s op budget).
Proof.
  intros W A [N|[p K]]; [left; by apply store_op_none|].
  assert (D : op = SO_Revoke id \/ op <> SO_Revoke id).
  { destruct op as [|other| | |]; try by right. destruct (decide (other = id)) as [->|]; [by left|right; congruence]. }
  destruct D as [->|R].
  { destruct budget as [|budget]; [right; by exists p|]. left. apply revoke_unloads. lia. }
  right. destruct op as [r|other|other t' p'|r t' p'|other p']; cbn in A; split_writes budget;
    rewrite ?authorization_same_grants, ?authorization_other_grants, ?authorization_deleted_other
      by congruence; try by exists p.
  all: destruct (decide (id = other)) as [->|];
    [|rewrite ?authorization_other_grants by congruence; by exists p].
  all: match goal with A1 : authorization ?s ?i = Ok _, A2 : authorization ?s ?i = Ok _ |- _ =>
         rewrite A1 in A2; apply Ok_inj in A2; simplify_eq end.
  all: eexists; by apply authorization_set.
Qed.

Lemma store_ops_none s ops id :
  Forall (fun o => leaves_alone id o.1) ops -> store_load s id = None -> store_load (store_ops s ops) id = None.
Proof.
  intros F. revert s. induction F as [|[op b] ops A F IH]; intros s N; cbn; [done|].
  apply IH. by apply store_op_none.
Qed.

Lemma store_ops_keeps s ops id t :
  PairingTrust_wf t -> Forall (fun o => leaves_alone id o.1) ops -> kept_trust id t s ->
  kept_trust id t (store_ops s ops).
Proof.
  intros W F. revert s. induction F as [|[op b] ops A F IH]; intros s K; cbn; [done|].
  apply IH. by apply store_op_keeps.
Qed.

Lemma store_ops_app s ops1 ops2 : store_ops s (ops1 ++ ops2) = store_ops (store_ops s ops1) ops2.
Proof. revert s. induction ops1 as [|[op b] ops1 IH]; intros s; cbn; [done|apply IH]. Qed.

Lemma admit_keeps s r t p budget :
  PairingTrust_wf t -> store_load s (rec_id r) = None ->
  kept_trust (rec_id r) t (store_op s (SO_Admit r t p) budget).
Proof.
  intros W N. split_writes budget; rewrite ?store_load_records; try by left.
  right. eexists. by apply authorization_set.
Qed.

(** C32: a device the host paired keeps the trust it was given.  Whatever
    operations of the store come before and after, and whichever of them (the
    pairing itself included) stops after any of its writes, as long as nothing
    else gives this pairing a key or a trust: if the pairing can be loaded then
    its authorization is the trust of the pairing.  A guest never becomes an
    owner, although a pairing without a grant is taken for an owner's. *)
Theorem guest_never_promoted s before after r t p budget record :
  store_load s (rec_id r) = None -> PairingTrust_wf t ->
  Forall (fun o => leaves_alone (rec_id r) o.1) (before ++ after) ->
  let s' := store_ops s (before ++ (SO_Admit r t p, budget) :: after) in
  store_load s' (rec_id r) = Some record ->
  exists permissions, authorization s' (rec_id r) = Ok (t, permissions).
Proof.
  intros N W F s' L. apply Forall_app in F as [F1 F2].
  destruct (store_ops_keeps (store_op (store_ops s before) (SO_Admit r t p) budget) after (rec_id r) t)
    as [K|K]; try done.
  - apply admit_keeps; [done|]. by apply store_ops_none.
  - subst s'. rewrite store_ops_app in L. cbn in L. congruence.
  - subst s'. by rewrite store_ops_app.
Qed.

Definition example_record : PairingRecord := mkPairingRecord (str_bytes "A") (str_bytes "laptop") [] 0.
Definition example_admission : list (StoreOp * nat) :=
  [(SO_Admit example_record (PT_GuestExpiring 9) None, 2%nat);
   (SO_Permissions (str_bytes "A") (mkGuestPermissions true false false false false), 1%nat);
   (SO_Revoke (str_bytes "B"), 2%nat)].

Lemma guest_never_promoted_witness :
  store_load (store_ops (mkPairingStore [] ∅) example_admission) (str_bytes "A") = Some example_record /\
  exists permissions,
    authorization (store_ops (mkPairingStore [] ∅) example_admission) (str_bytes "A")
    = Ok (PT_GuestExpiring 9, permissions).
Proof.
  split; [by vm_compute|].
  apply (guest_never_promoted (mkPairingStore [] ∅) [] (drop 1 example_admission) example_record
    (PT_GuestExpiring 9) None 2 example_record).
  - reflexivity.
  - cbn. split; width_lia.
  - repeat constructor.
  - by vm_compute.
Defined.

(** ** The identities of the host *)

Lemma PskIdentity_pairing_identity id key psk :
  PskIdentity_pairing id key = Ok psk -> psk_identity psk = PAIRING_IDENTITY_PREFIX ++ id /\ psk_key psk = key.
Proof.
  unfold PskIdentity_pairing, PskIdentity_new. intros H.
  repeat case_if_in H; try done. by apply Ok_inj in H as <-.
Qed.

Lemma pairing_psks_elem l psks psk :
  pairing_psks l = Ok psks -> psk ∈ psks ->
  exists r, r ∈ l /\ psk_identity psk = PAIRING_IDENTITY_PREFIX ++ rec_id r /\ psk_key psk = rec_key r.
Proof.
  revert psks. induction l as [|r l IH]; cbn; intros psks E I.
  - apply Ok_inj in E as <-. by apply not_elem_of_nil in I.
  - inv_result E. apply Ok_inj in E as <-. apply elem_of_cons in I as [->|I].
    + exists r. apply PskIdentity_pairing_identity in E0. split; [apply list_elem_of_here|done].
    + destruct (IH _ eq_refl I) as (r' & Hr & P). exists r'. split; [by apply list_elem_of_further|done].
Qed.

(** A connection can be made with no identity but these: the bootstrap
    identity, while the pairing window is open and not locked; a stored pairing,
    with its key, if its trust still holds; or, if there is neither, an identity
    whose key nobody knows. *)
Theorem psk_identities_authorized s unix_ms deadline lockout bootstrap disabled_key now psks psk :
  current_psks s unix_ms deadline lockout bootstrap disabled_key now = Ok psks -> psk ∈ psks ->
  (bootstrap = Some psk /\ pairing_is_active deadline lockout now = true) \/
  (exists r trust permissions, r ∈ st_records s /\
     psk_identity psk = PAIRING_IDENTITY_PREFIX ++ rec_id r /\ psk_key psk = rec_key r /\
     authorization s (rec_id r) = Ok (trust, permissions) /\ valid_trust trust unix_ms = true) \/
  psk_key psk = disabled_key.
Proof.
  unfold current_psks. intros E I.
  assert (K : forall paired,
     pairing_psks (filter (fun r => authorized s unix_ms r = true) (st_records s)) = Ok paired ->
     psk ∈ paired -> exists r trust permissions, r ∈ st_records s /\
     psk_identity psk = PAIRING_IDENTITY_PREFIX ++ rec_id r /\ psk_key psk = rec_key r /\
     authorization s (rec_id r) = Ok (trust, permissions) /\ valid_trust trust unix_ms = true).
  { intros paired P J. destruct (pairing_psks_elem _ _ _ P J) as (r & Hr & Hi & Hk).
    apply list_elem_of_filter in Hr as [Ha Hr]. unfold authorized in Ha.
    destruct (authorization s (rec_id r)) as [[trust permissions]|] eqn:A; [|done].
    by exists r, trust, permissions. }
  inv_result E. specialize (K _ eq_refl). case_if_in E.
  - inv_result E. apply Ok_inj in E as <-. apply list_elem_of_singleton in I as ->. right. right.
    unfold PskIdentity_new in E1. repeat case_if_in E1; try done. by apply Ok_inj in E1 as <-.
  - apply Ok_inj in E as <-. case_if_in I; [|right; left; by apply K].
    destruct bootstrap as [b|]; [|right; left; by apply K].
    apply elem_of_app in I as [I|I]; [right; left; by apply K|].
    apply list_elem_of_singleton in I as ->. by left.
Qed.

Definition example_store : PairingStore :=
  store_ops (mkPairingStore [] ∅)
    [(SO_Admit (mkPairingRecord (str_bytes "A") (str_bytes "tablet") (replicate 32 Byte.x07) 0)
        (PT_GuestExpiring 9) None, 2%nat)].
Definition example_bootstrap : PskIdentity := mkPskIdentity BOOTSTRAP_IDENTITY (replicate 32 Byte.x01).
Definition example_psks (unix_ms now : Z) : result IdentityError (list PskIdentity) :=
  current_psks example_store unix_ms (Some 100) (begin_pairing BootstrapLockout_default)
    (Some example_bootstrap) (replicate 32 Byte.x02) now.

(** Before the guest's expiry its identity is offered, after it is not. *)
Example psks_expire :
  fmap (M:=result IdentityError) (map psk_identity) (example_psks 8 50) = Ok [str_bytes "maho-p1.A"; str_bytes "maho-b1"] /\
  fmap (M:=result IdentityError) (map psk_identity) (example_psks 9 100) = Ok [str_bytes "maho-disabled"].
Proof. split; by vm_compute. Qed.

Lemma psk_identities_authorized_witness :
  let psk := mkPskIdentity (str_bytes "maho-p1.A") (replicate 32 Byte.x07) in
  psk <> example_bootstrap /\
  ((Some example_bootstrap = Some psk /\
    pairing_is_active (Some 100) (begin_pairing BootstrapLockout_default) 50 = true) \/
   (exists r trust permissions, r ∈ st_records example_store /\
     psk_identity psk = PAIRING_IDENTITY_PREFIX ++ rec_id r /\ psk_key psk = rec_key r /\
     authorization example_store (rec_id r) = Ok (trust, permissions) /\ valid_trust trust 8 = true) \/
   psk_key psk = replicate 32 Byte.x02).
Proof.
  split; [discriminate|].
  apply (psk_identities_authorized example_store 8 (Some 100) (begin_pairing BootstrapLockout_default)
    (Some example_bootstrap) (replicate 32 Byte.x02) 50
    [mkPskIdentity (str_bytes "maho-p1.A") (replicate 32 Byte.x07); example_bootstrap]).
  - by vm_compute.
  - apply list_elem_of_here.
Defined.

(** After [revoke] a pairing has no record, no grant and no identity; the other
    pairings keep theirs. *)
Lemma store_revoke_spec s id :
  store_load (store_revoke s id) id = None /\ st_grants (store_revoke s id) !! id = None /\
  (forall other, other <> id -> store_load (store_revoke s id) other = store_load s other /\
     authorization (store_revoke s id) other = authorization s other).
Proof.
  pose proof (revoke_unloads s id 2 ltac:(lia)) as U.
  assert (E : store_op s (SO_Revoke id) 2 = store_revoke s id).
  { unfold store_op, store_revoke, store_complete. f_equal. apply take_ge. cbn. unfold revoke_writes.
    destruct (negb _), (st_grants s !! id); cbn; lia. }
  rewrite E in U. split; [done|]. clear U E.
  unfold store_revoke, store_complete. cbn. unfold revoke_writes.
  destruct (negb _), (st_grants s !! id) eqn:G; cbn; rewrite ?lookup_delete_eq; (split; [done|]);
    intros other N; rewrite ?store_load_filtered, ?store_load_records, ?authorization_deleted_other,
    ?authorization_same_grants by done; done.
Qed.

(** ** The lockout *)

Definition record_failures (s : BootstrapLockout) (times : list Instant) : BootstrapLockout :=
  foldl (fun s now => snd (record_failure s now)) s times.

Lemma inactive_not_allowed s now : bl_pairing_active s = false -> is_allowed s now = false.
Proof. intros E. unfold is_allowed. by rewrite E. Qed.

Lemma record_failure_inactive s now :
  bl_pairing_active s = false -> bl_pairing_active (snd (record_failure s now)) = false.
Proof. intros E. unfold record_failure. by destruct (_ <=? _). Qed.

Lemma record_failures_inactive s times :
  bl_pairing_active s = false -> bl_pairing_active (record_failures s times) = false.
Proof.
  revert s. induction times as [|t times IH]; intros s E; cbn; [done|].
  apply IH. by apply record_failure_inactive.
Qed.

Lemma record_first_failure s t :
  snd (record_failure (begin_pairing s) t) = mkBootstrapLockout true 1 (Some t) None.
Proof. done. Qed.

Lemma record_failure_counts active n t1 until t :
  t1 <= t <= t1 + PAIRING_ATTEMPT_WINDOW ->
  snd (record_failure (mkBootstrapLockout active n (Some t1) until) t) =
  if MAX_PAIRING_ATTEMPTS <=? n + 1
  then mkBootstrapLockout false (n + 1) (Some t1) (Some (t + PAIRING_LOCKOUT))
  else mkBootstrapLockout active (n + 1) (Some t1) until.
Proof.
  intros H. unfold record_failure. cbn [bl_failure_window_start bl_failure_count].
  rewrite (proj2 (Z.ltb_ge PAIRING_ATTEMPT_WINDOW (saturating_duration_since t t1)))
    by (unfold saturating_duration_since; lia).
  by destruct (_ <=? _).
Qed.

(** Five failed handshakes within the minute that starts with the first of
    them close the bootstrap path, and neither time nor further failures open it
    again: only a new pairing window does. *)
Theorem bootstrap_locks_after_five s t1 t2 t3 t4 t5 later now :
  t1 <= t2 <= t1 + PAIRING_ATTEMPT_WINDOW -> t1 <= t3 <= t1 + PAIRING_ATTEMPT_WINDOW ->
  t1 <= t4 <= t1 + PAIRING_ATTEMPT_WINDOW -> t1 <= t5 <= t1 + PAIRING_ATTEMPT_WINDOW ->
  is_allowed (record_failures (begin_pairing s) ([t1; t2; t3; t4; t5] ++ later)) now = false /\
  is_allowed (begin_pairing (record_failures (begin_pairing s) ([t1; t2; t3; t4; t5] ++ later))) now = true.
Proof.
  intros H2 H3 H4 H5. split; [|done]. apply inactive_not_allowed.
  unfold record_failures. rewrite foldl_app. apply record_failures_inactive. cbn [foldl].
  rewrite record_first_failure.
  do 3 (rewrite record_failure_counts, (proj2 (Z.leb_gt MAX_PAIRING_ATTEMPTS _)) by (done || lia)).
  by rewrite record_failure_counts.
Qed.

Lemma bootstrap_locks_after_five_witness :
  0 <= 3 <= 0 + PAIRING_ATTEMPT_WINDOW /\
  is_allowed (record_failures (begin_pairing BootstrapLockout_default) ([0; 1; 2; 3; from_secs 60] ++ [from_secs 99]))
    (from_secs 1000) = false /\
  is_allowed (begin_pairing (record_failures (begin_pairing BootstrapLockout_default)
    ([0; 1; 2; 3; from_secs 60] ++ [from_secs 99]))) (from_secs 1000) = true.
Proof.
  split; [vm_compute; split; discriminate|].
  apply (bootstrap_locks_after_five BootstrapLockout_default 0 1 2 3 (from_secs 60) [from_secs 99]
    (from_secs 1000)); vm_compute; split; discriminate.
Defined.

(** The minute starts with the first failure: five failures within fourteen
    seconds do not lock the path when the minute ends among them. *)
Lemma lockout_window_is_anchored :
  is_allowed (record_failures (begin_pairing BootstrapLockout_default)
    (from_secs <$> [0; 50; 55; 61; 62; 63])) (from_secs 64) = true.
Proof. by vm_compute. Qed.
