(* ===== verification/Guests.v ===== *)
(** * The registry of guests

    [clients/rust/maho-host/src/guests.rs]: which sessions a host serves, the
    pairing requests that wait for consent, and the commands and events it sends
    about them.  The registry holds one end of each channel and a session the
    other, so the channels are a store the registry's state points into: a
    sender is the index of its channel.  Every method takes the one lock of the
    registry and is one step; [Instant::now] and the identifiers are arguments.
    The maps are B-trees with string keys, iterated in the order of the bytes. *)

From stdpp Require Import sorting.
From S2P Require Import Prelude Codec Input Parity Admission.

(** ** Permissions of events *)

Definition intersect (a b : GuestPermissions) : GuestPermissions :=
  mkGuestPermissions (gp_keyboard a && gp_keyboard b) (gp_mouse a && gp_mouse b)
    (gp_gamepad a && gp_gamepad b) (gp_clipboard a && gp_clipboard b) (gp_audio a && gp_audio b).

Definition allows (p : GuestPermissions) (event : InputEventType) : bool :=
  match event with
  | IE_KeyDown | IE_KeyUp | IE_FlagsChanged | IE_UnicodeChar => gp_keyboard p
  | IE_GamepadAxis | IE_GamepadButtonDown | IE_GamepadButtonUp => gp_gamepad p
  | IE_Reset => true
  | _ => gp_mouse p
  end.

(** ** Data *)

Record SocketAddr : Type := mkSocketAddr { sa_ip : list byte; sa_port : Z }.

#[export] Instance SocketAddr_eq_dec : EqDecision SocketAddr.
Proof. solve_decision. Defined.

Record GuestSession : Type := mkGuestSession {
  gs_id : rstring;
  gs_pairing_id : rstring;
  gs_name : rstring;
  gs_peer : SocketAddr;
  gs_trust : PairingTrust;
  gs_connected_at : Instant
}.

Record PendingRequest : Type := mkPendingRequest {
  pq_id : rstring;
  pq_name : rstring;
  pq_expires_at : Instant
}.

Inductive HostEvent : Type :=
| HV_GuestConnected (guest : GuestSession)
| HV_GuestDisconnected (guest : GuestSession)
| HV_ConsentRequested (request : PendingRequest).

Inductive GuestCommand : Type :=
| GC_End (reason : SessionEndReason)
| GC_Status (status : HostStatus)
| GC_Permissions (permissions : GuestPermissions).

(** A channel of [std::sync::mpsc]: what was sent and not received, and whether
    the receiver still exists. *)
Record Channel (A : Type) : Type := mkChannel { ch_queue : list A; ch_receiver : bool }.
Arguments mkChannel {A} ch_queue ch_receiver.
Arguments ch_queue {A} c.
Arguments ch_receiver {A} c.

(** A store of channels, indexed by the handle a sender holds. *)
Abbreviation Channels A := (gmap nat (Channel A)) (only parsing).

(** A handle no sender holds yet. *)
Definition fresh_handle {A} (cs : Channels A) : nat := fresh (dom cs).

(** [Sender::send] and [SyncSender::try_send] on a channel of capacity one. *)
Definition send {A} (cs : Channels A) (tx : nat) (a : A) : bool * Channels A :=
  match cs !! tx with
  | Some c =>
    if ch_receiver c then (true, <[tx := mkChannel (ch_queue c ++ [a]) true]> cs) else (false, cs)
  | None => (false, cs)
  end.

Definition try_send1 {A} (cs : Channels A) (tx : nat) (a : A) : bool * Channels A :=
  match cs !! tx with
  | Some c => if bool_decide (ch_queue c = []) then send cs tx a else (false, cs)
  | None => (false, cs)
  end.

(** [events.retain(|tx| tx.send(event.clone()).is_ok())] *)
Fixpoint retain_send {A} (cs : Channels A) (txs : list nat) (a : A) : list nat * Channels A :=
  match txs with
  | [] => ([], cs)
  | tx :: txs =>
    let '(ok, cs) := send cs tx a in
    let '(rest, cs) := retain_send cs txs a in
    (if ok then tx :: rest else rest, cs)
  end.

(** The value sent on each of some channels, the results ignored. *)
Definition send_each {A} (cs : Channels A) (txs : list nat) (a : A) : Channels A :=
  foldl (fun cs tx => snd (send cs tx a)) cs txs.

(** ** Iteration of a B-tree with string keys *)

Fixpoint bytes_le (a b : list byte) : bool :=
  match a, b with
  | [], _ => true
  | _ :: _, [] => false
  | x :: a, y :: b =>
    if byte_to_Z x =? byte_to_Z y then bytes_le a b else byte_to_Z x <? byte_to_Z y
  end.

Definition key_le (a b : rstring) : Prop := bytes_le a b = true.
#[export] Instance key_le_dec : RelDecision key_le.
Proof. intros a b. unfold key_le. apply _. Defined.

Definition in_key_order {V} (m : gmap rstring V) : list (rstring * V) :=
  omap (fun k => pair k <$> m !! k) (merge_sort key_le (elements (dom m))).

(** ** The registry *)

Record RegistryState : Type := mkRegistryState {
  rg_sessions : gmap rstring (GuestSession * nat);
  rg_events : list nat;
  rg_pending : gmap rstring (PendingRequest * nat);
  rg_commands : Channels GuestCommand;
  rg_host_events : Channels HostEvent;
  rg_responses : Channels (option PairingTrust)
}.

Definition RegistryState_default : RegistryState := mkRegistryState ∅ [] ∅ ∅ ∅ ∅.

Definition set_commands (s : RegistryState) (cs : Channels GuestCommand) : RegistryState :=
  mkRegistryState (rg_sessions s) (rg_events s) (rg_pending s) cs (rg_host_events s) (rg_responses s).
Definition set_sessions (s : RegistryState) (m : gmap rstring (GuestSession * nat)) : RegistryState :=
  mkRegistryState m (rg_events s) (rg_pending s) (rg_commands s) (rg_host_events s) (rg_responses s).
Definition set_events (s : RegistryState) (r : list nat * Channels HostEvent) : RegistryState :=
  mkRegistryState (rg_sessions s) r.1 (rg_pending s) (rg_commands s) r.2 (rg_responses s).
Definition set_pending (s : RegistryState) (m : gmap rstring (PendingRequest * nat)) : RegistryState :=
  mkRegistryState (rg_sessions s) (rg_events s) m (rg_commands s) (rg_host_events s) (rg_responses s).
Definition set_responses (s : RegistryState) (cs : Channels (option PairingTrust)) : RegistryState :=
  mkRegistryState (rg_sessions s) (rg_events s) (rg_pending s) (rg_commands s) (rg_host_events s) cs.

Definition sessions (s : RegistryState) : list GuestSession :=
  (fun e => e.2.1) <$> in_key_order (rg_sessions s).

Definition notify (s : RegistryState) (e : HostEvent) : RegistryState :=
  set_events s (retain_send (rg_host_events s) (rg_events s) e).

Definition publish_status (s : RegistryState) : RegistryState :=
  let status := mkHostStatus ((fun e => gs_name e.2.1) <$> in_key_order (rg_sessions s)) in
  set_commands s (send_each (rg_commands s) ((fun e => e.2.2) <$> in_key_order (rg_sessions s))
    (GC_Status status)).

(** [mpsc::channel()]: a fresh channel. *)
Definition subscribe (s : RegistryState) : nat * RegistryState :=
  let tx := fresh_handle (rg_host_events s) in
  (tx, set_events s (rg_events s ++ [tx], <[tx := mkChannel [] true]> (rg_host_events s))).

Definition kick (s : RegistryState) (id : rstring) : bool * RegistryState :=
  match rg_sessions s !! id with
  | None => (false, s)
  | Some (_, tx) =>
    let '(ok, cs) := send (rg_commands s) tx (GC_End SE_Kicked) in (ok, set_commands s cs)
  end.

Fixpoint count_sends {A} (cs : Channels A) (txs : list nat) (a : A) : Z * Channels A :=
  match txs with
  | [] => (0, cs)
  | tx :: txs =>
    let '(ok, cs) := send cs tx a in
    let '(n, cs) := count_sends cs txs a in
    (if ok then 1 + n else n, cs)
  end.

Definition kick_all (s : RegistryState) : Z * RegistryState :=
  let '(n, cs) := count_sends (rg_commands s) ((fun e => e.2.2) <$> in_key_order (rg_sessions s))
    (GC_End SE_Kicked) in
  (n, set_commands s cs).

Definition pending_requests (s : RegistryState) (now : Instant) : list PendingRequest :=
  filter (fun p => now < pq_expires_at p) ((fun e => e.2.1) <$> in_key_order (rg_pending s)).

Definition respond (s : RegistryState) (id : rstring) (trust : option PairingTrust) (now : Instant)
    : bool * RegistryState :=
  match rg_pending s !! id with
  | None => (false, s)
  | Some (request, tx) =>
    let s := set_pending s (delete id (rg_pending s)) in
    if now <? pq_expires_at request then
      let '(ok, cs) := try_send1 (rg_responses s) tx trust in (ok, set_responses s cs)
    else (false, s)
  end.

Definition permissions (s : RegistryState) (pairing_id : rstring) (p : GuestPermissions) : RegistryState :=
  let txs := (fun e => e.2.2) <$> filter (fun e => gs_pairing_id e.2.1 = pairing_id) (in_key_order (rg_sessions s)) in
  set_commands s (send_each (rg_commands s) txs (GC_Permissions p)).

(** [request], with the channel [sync_channel(1)] its caller made. *)
Definition request (s : RegistryState) (r : PendingRequest) : nat * RegistryState :=
  let tx := fresh_handle (rg_responses s) in
  let s := set_responses s (<[tx := mkChannel [] true]> (rg_responses s)) in
  let s := set_pending s (<[pq_id r := (r, tx)]> (rg_pending s)) in
  (tx, notify s (HV_ConsentRequested r)).

Definition finish_request (s : RegistryState) (id : rstring) : RegistryState :=
  set_pending s (delete id (rg_pending s)).

Definition join (s : RegistryState) (guest : GuestSession) : nat * RegistryState :=
  let tx := fresh_handle (rg_commands s) in
  let s := set_commands s (<[tx := mkChannel [] true]> (rg_commands s)) in
  let s := set_sessions s (<[gs_id guest := (guest, tx)]> (rg_sessions s)) in
  (tx, publish_status (notify s (HV_GuestConnected guest))).

(** [GuestGuard::drop]. *)
Definition leave (s : RegistryState) (id : rstring) : RegistryState :=
  match rg_sessions s !! id with
  | None => s
  | Some (guest, _) =>
    let s := set_sessions s (delete id (rg_sessions s)) in
    publish_status (notify s (HV_GuestDisconnected guest))
  end.

(** [secure_attention]: [windows] is [cfg!(target_os = "windows")], the handler
    is the one the host installed. *)
Definition secure_attention (windows : bool) (sas : option (GuestSession -> SecureAttentionResult))
    (guest : GuestSession) : SecureAttentionResult :=
  if negb windows then SA_Unsupported
  else if negb (bool_decide (gs_trust guest = PT_Owner)) then SA_PermissionDenied
  else match sas with Some h => h guest | None => SA_Unsupported end.

(** [set_guest_permissions] of the registry: the store, then the sessions. *)
Definition set_guest_permissions (store : PairingStore) (s : RegistryState) (pairing_id : rstring)
    (p : GuestPermissions) : PairingStore * RegistryState :=
  (store_complete store (SO_Permissions pairing_id p), permissions s pairing_id p).

(** What a session does with its end of a channel. *)
Definition receive {A} (cs : Channels A) (rx : nat) : option A * Channels A :=
  match cs !! rx with
  | Some (mkChannel (a :: q) r) => (Some a, <[rx := mkChannel q r]> cs)
  | _ => (None, cs)
  end.
Definition drop_receiver {A} (cs : Channels A) (rx : nat) : Channels A :=
  alter (fun c => mkChannel (ch_queue c) false) rx cs.

(** * Theorems *)

(** ** Iteration *)

Lemma elem_of_in_key_order {V} (m : gmap rstring V) k v : (k, v) ∈ in_key_order m <-> m !! k = Some v.
Proof.
  unfold in_key_order. rewrite list_elem_of_omap. split.
  - intros (k' & _ & E). destruct (m !! k') eqn:L; cbn in E; [|done]. by injection E as -> ->.
  - intros L. exists k. rewrite L. split; [|done].
    rewrite merge_sort_Permutation, elem_of_elements, elem_of_dom. by eexists.
Qed.

Lemma NoDup_keys {V} (m : gmap rstring V) : NoDup (in_key_order m).*1.
Proof.
  unfold in_key_order. assert (N : NoDup (merge_sort key_le (elements (dom m))))
    by (rewrite merge_sort_Permutation; apply NoDup_elements).
  revert N. generalize (merge_sort key_le (elements (dom m))). intros l N.
  induction N as [|k l N _ IH]; cbn; [constructor|].
  destruct (m !! k) as [v|]; cbn; [|done]. constructor; [|done].
  intros I. apply N. apply list_elem_of_fmap in I as ([k' v'] & -> & I).
  apply list_elem_of_omap in I as (k'' & I & E). by destruct (m !! k''); cbn in E; simplify_eq.
Qed.

Lemma in_key_order_fmap {V W} (f : V -> W) (m : gmap rstring V) :
  in_key_order (f <$> m) = prod_map id f <$> in_key_order m.
Proof.
  unfold in_key_order. rewrite dom_fmap_L. induction (merge_sort _ _) as [|k l IH]; [done|].
  cbn. rewrite lookup_fmap. destruct (m !! k); cbn; by rewrite IH.
Qed.

Lemma NoDup_in_key_order {V} (m : gmap rstring V) : NoDup (in_key_order m).
Proof. eapply NoDup_fmap_1, NoDup_keys. Qed.

(** ** Channels *)

(** What sending does to a channel, and whether it can. *)
Definition delivered {A} (a : A) (c : Channel A) : Channel A :=
  if ch_receiver c then mkChannel (ch_queue c ++ [a]) true else c.

Lemma send_spec {A} (cs : Channels A) tx (a : A) :
  (send cs tx a).2 = alter (delivered a) tx cs /\
  (send cs tx a).1 = match cs !! tx with Some c => ch_receiver c | None => false end.
Proof.
  unfold send, delivered. destruct (cs !! tx) as [[q []]|] eqn:L; cbn; (split; [|done]);
    apply map_eq; intros i; destruct (decide (i = tx)) as [->|];
    rewrite ?lookup_alter_eq, ?lookup_alter_ne, ?lookup_insert_eq, ?lookup_insert_ne, ?L by done; done.
Qed.

Lemma send_each_lookup {A} (cs : Channels A) txs (a : A) tx :
  NoDup txs ->
  send_each cs txs a !! tx = if decide (tx ∈ txs) then delivered a <$> cs !! tx else cs !! tx.
Proof.
  intros N. revert cs. induction N as [|t txs N _ IH]; intros cs.
  - cbn. by rewrite decide_False by apply not_elem_of_nil.
  - unfold send_each. cbn. change (foldl _ ?c txs) with (send_each c txs a).
    rewrite IH, (proj1 (send_spec _ _ _)). destruct (decide (tx = t)) as [->|D].
    + rewrite decide_False by done. rewrite decide_True by apply list_elem_of_here. by rewrite lookup_alter_eq.
    + rewrite lookup_alter_ne by congruence. destruct (decide (tx ∈ txs)).
      * by rewrite decide_True by by apply list_elem_of_further.
      * rewrite decide_False; [done|]. intros [?|?]%elem_of_cons; done.
Qed.

Lemma count_sends_snd {A} (cs : Channels A) txs (a : A) : snd (count_sends cs txs a) = send_each cs txs a.
Proof.
  revert cs. induction txs as [|t txs IH]; intros cs; cbn; [done|].
  unfold send_each. cbn. change (foldl _ ?c txs) with (send_each c txs a). rewrite <- IH.
  destruct (send cs t a) as [ok cs']. cbn. by destruct (count_sends cs' txs a).
Qed.

(** ** The specification: every session has an inbox of its own

    A session of the specification is what the registry knows of it together
    with the commands it was sent and has not received, or nothing once it
    stopped receiving. *)

Definition Guest : Type := GuestSession * option (list GuestCommand).

Definition deliver (c : GuestCommand) (g : Guest) : Guest := (g.1, (fun inbox => inbox ++ [c]) <$> g.2).

Definition status_of (m : gmap rstring Guest) : HostStatus :=
  mkHostStatus ((fun e => gs_name e.2.1) <$> in_key_order m).

(** Everyone is told who is there. *)
Definition announce (m : gmap rstring Guest) : gmap rstring Guest := deliver (GC_Status (status_of m)) <$> m.

Inductive RegistryOp : Type :=
| RO_Join (guest : GuestSession)
| RO_Leave (id : rstring)
| RO_Kick (id : rstring)
| RO_KickAll
| RO_Permissions (pairing_id : rstring) (p : GuestPermissions)
| RO_Receive (id : rstring)
| RO_Hangup (id : rstring)
| RO_Subscribe
| RO_Request (r : PendingRequest)
| RO_Respond (id : rstring) (trust : option PairingTrust) (now : Instant)
| RO_FinishRequest (id : rstring).

Definition spec_op (m : gmap rstring Guest) (op : RegistryOp) : gmap rstring Guest :=
  match op with
  | RO_Join guest => announce (<[gs_id guest := (guest, Some [])]> m)
  | RO_Leave id => if decide (is_Some (m !! id)) then announce (delete id m) else m
  | RO_Kick id => alter (deliver (GC_End SE_Kicked)) id m
  | RO_KickAll => deliver (GC_End SE_Kicked) <$> m
  | RO_Permissions pairing_id p =>
    (fun g => if decide (gs_pairing_id g.1 = pairing_id) then deliver (GC_Permissions p) g else g) <$> m
  | RO_Receive id => alter (fun g => (g.1, tail <$> g.2)) id m
  | RO_Hangup id => alter (fun g => (g.1, None)) id m
  | RO_Subscribe | RO_Request _ | RO_Respond _ _ _ | RO_FinishRequest _ => m
  end.

(** A session's own end of its channel. *)
Definition session_receive (s : RegistryState) (id : rstring) : RegistryState :=
  match rg_sessions s !! id with
  | Some (_, tx) =>
    match rg_commands s !! tx with
    | Some c => if ch_receiver c then set_commands s (receive (rg_commands s) tx).2 else s
    | None => s
    end
  | None => s
  end.
Definition session_hangup (s : RegistryState) (id : rstring) : RegistryState :=
  match rg_sessions s !! id with
  | Some (_, tx) => set_commands s (drop_receiver (rg_commands s) tx)
  | None => s
  end.

Definition registry_op (s : RegistryState) (op : RegistryOp) : RegistryState :=
  match op with
  | RO_Join guest => (join s guest).2
  | RO_Leave id => leave s id
  | RO_Kick id => (kick s id).2
  | RO_KickAll => (kick_all s).2
  | RO_Permissions pairing_id p => permissions s pairing_id p
  | RO_Receive id => session_receive s id
  | RO_Hangup id => session_hangup s id
  | RO_Subscribe => (subscribe s).2
  | RO_Request r => (request s r).2
  | RO_Respond id trust now => (respond s id trust now).2
  | RO_FinishRequest id => finish_request s id
  end.

(** The abstraction. *)
Definition guest_of (cs : Channels GuestCommand) (e : GuestSession * nat) : Guest :=
  (e.1, c ← cs !! e.2; if ch_receiver c then Some (ch_queue c) else None).
Definition guests_of (s : RegistryState) : gmap rstring Guest := guest_of (rg_commands s) <$> rg_sessions s.

(** No two sessions share a channel, and every session has one. *)
Record registry_wf (s : RegistryState) : Prop := {
  rw_channel id g tx : rg_sessions s !! id = Some (g, tx) -> is_Some (rg_commands s !! tx);
  rw_own id id' g g' tx :
    rg_sessions s !! id = Some (g, tx) -> rg_sessions s !! id' = Some (g', tx) -> id = id'
}.

Lemma registry_wf_default : registry_wf RegistryState_default.
Proof. split; cbn; intros *; by rewrite lookup_empty. Qed.

Lemma guest_of_delivered cs cs' g tx c :
  cs' !! tx = delivered c <$> cs !! tx -> guest_of cs' (g, tx) = deliver c (guest_of cs (g, tx)).
Proof.
  intros E. unfold guest_of, deliver. cbn. rewrite E.
  destruct (cs !! tx) as [[q []]|]; reflexivity.
Qed.

Lemma guest_of_same cs cs' g tx : cs' !! tx = cs !! tx -> guest_of cs' (g, tx) = guest_of cs (g, tx).
Proof. intros E. unfold guest_of. cbn. by rewrite E. Qed.

Lemma guests_of_lookup s id :
  guests_of s !! id = guest_of (rg_commands s) <$> rg_sessions s !! id.
Proof. apply lookup_fmap. Qed.

Lemma NoDup_senders s (P : rstring * (GuestSession * nat) -> Prop) `{!∀ e, Decision (P e)} :
  registry_wf s -> NoDup ((fun e => e.2.2) <$> filter P (in_key_order (rg_sessions s))).
Proof.
  intros W. apply NoDup_fmap_2_strong; [|apply NoDup_filter, NoDup_in_key_order].
  intros [k [g tx]] [k' [g' tx']] I I' E. cbn in E. subst tx'.
  apply list_elem_of_filter in I as [_ I], I' as [_ I'].
  apply elem_of_in_key_order in I, I'. pose proof (rw_own s W _ _ _ _ _ I I') as <-. congruence.
Qed.

(** A command sent to the sessions that satisfy a predicate reaches their
    inboxes and no other. *)
Lemma guests_of_send_each s (P : rstring * (GuestSession * nat) -> Prop) `{!∀ e, Decision (P e)} c :
  registry_wf s ->
  let s' := set_commands s (send_each (rg_commands s)
    ((fun e => e.2.2) <$> filter P (in_key_order (rg_sessions s))) c) in
  registry_wf s' /\
  forall id, guests_of s' !! id =
    match rg_sessions s !! id with
    | Some e => Some (if decide (P (id, e)) then deliver c (guest_of (rg_commands s) e)
                      else guest_of (rg_commands s) e)
    | None => None
    end.
Proof.
  intros W s'. pose proof (NoDup_senders s P W) as N.
  assert (L : forall tx, rg_commands s' !! tx = _) by (intros tx; exact (send_each_lookup _ _ c tx N)).
  split.
  - split; [|apply (rw_own s W)]. intros id g tx K. rewrite L. pose proof (rw_channel s W _ _ _ K) as [ch E].
    rewrite E. destruct (decide _); by eexists.
  - intros id. rewrite guests_of_lookup. change (rg_sessions s') with (rg_sessions s).
    destruct (rg_sessions s !! id) as [[g tx]|] eqn:S1; [|done]. cbn. f_equal.
    destruct (decide (P (id, (g, tx)))) as [p|p].
    + apply guest_of_delivered. rewrite L, decide_True; [done|].
      apply list_elem_of_fmap. exists (id, (g, tx)). split; [done|]. apply list_elem_of_filter.
      split; [done|]. by apply elem_of_in_key_order.
    + apply guest_of_same. rewrite L, decide_False; [done|].
      intros ([k [g' tx']] & E & I)%list_elem_of_fmap. cbn in E. subst tx'.
      apply list_elem_of_filter in I as [p' I]. apply elem_of_in_key_order in I.
      pose proof (rw_own s W _ _ _ _ _ S1 I) as <-. congruence.
Qed.

(** Sending to one session. *)
Lemma guests_of_send s id g tx c :
  registry_wf s -> rg_sessions s !! id = Some (g, tx) ->
  let s' := set_commands s (send (rg_commands s) tx c).2 in
  registry_wf s' /\ guests_of s' = alter (deliver c) id (guests_of s).
Proof.
  intros W H s'. assert (L : rg_commands s' = alter (delivered c) tx (rg_commands s)) by apply send_spec.
  split.
  - split; [|apply (rw_own s W)]. intros i g' tx' K. change (is_Some (rg_commands s' !! tx')).
    rewrite L. apply lookup_alter_is_Some.
    by apply (rw_channel s W i g').
  - apply map_eq. intros i. destruct (decide (i = id)) as [->|D].
    + rewrite lookup_alter_eq, !guests_of_lookup. change (rg_sessions s') with (rg_sessions s).
      rewrite H. apply (f_equal Some), guest_of_delivered. by rewrite L, lookup_alter_eq.
    + rewrite lookup_alter_ne, !guests_of_lookup by congruence. change (rg_sessions s') with (rg_sessions s).
      destruct (rg_sessions s !! i) as [[g' tx']|] eqn:K; [|done]. apply (f_equal Some), guest_of_same.
      rewrite L, lookup_alter_ne; [done|]. intros ->. apply D. by apply (rw_own s W _ _ _ _ _ K H).
Qed.

(** What the events and the requests of the registry touch. *)
Lemma guests_of_notify s e : guests_of (notify s e) = guests_of s.
Proof. done. Qed.
Lemma registry_wf_same s s' :
  rg_sessions s' = rg_sessions s -> rg_commands s' = rg_commands s -> registry_wf s -> registry_wf s'.
Proof. intros E1 E2 [A B]. by split; rewrite E1, ?E2. Qed.

Lemma status_of_guests s :
  mkHostStatus ((fun e => gs_name e.2.1) <$> in_key_order (rg_sessions s)) = status_of (guests_of s).
Proof.
  unfold status_of, guests_of. f_equal. rewrite in_key_order_fmap, <- list_fmap_compose.
  by apply list_fmap_ext.
Qed.

Lemma filter_everything {A} (l : list A) : filter (fun _ => True) l = l.
Proof. induction l; [done|]. rewrite filter_cons_True by done. by f_equal. Qed.

Lemma send_all_spec s c :
  registry_wf s ->
  let s' := set_commands s (send_each (rg_commands s) ((fun e => e.2.2) <$> in_key_order (rg_sessions s)) c) in
  registry_wf s' /\ guests_of s' = deliver c <$> guests_of s.
Proof.
  intros W. pose proof (guests_of_send_each s (fun _ => True) c W) as [W' G].
  rewrite filter_everything in W', G.
  split; [done|]. apply map_eq. intros id. rewrite G, lookup_fmap, guests_of_lookup.
  by destruct (rg_sessions s !! id).
Qed.

Lemma publish_status_spec s :
  registry_wf s -> registry_wf (publish_status s) /\ guests_of (publish_status s) = announce (guests_of s).
Proof.
  intros W. unfold publish_status, announce. rewrite status_of_guests. by apply send_all_spec.
Qed.

Lemma publish_notified s e :
  registry_wf s ->
  registry_wf (publish_status (notify s e)) /\ guests_of (publish_status (notify s e)) = announce (guests_of s).
Proof.
  intros W. apply (publish_status_spec (notify s e)). by apply (registry_wf_same s).
Qed.

Lemma fresh_handle_None {A} (cs : Channels A) : cs !! fresh_handle cs = None.
Proof. apply not_elem_of_dom. unfold fresh_handle. apply is_fresh. Qed.

(** A new session with a channel of its own. *)
Lemma registered_spec s guest :
  registry_wf s ->
  let tx := fresh_handle (rg_commands s) in
  let s' := set_sessions (set_commands s (<[tx := mkChannel [] true]> (rg_commands s)))
    (<[gs_id guest := (guest, tx)]> (rg_sessions s)) in
  registry_wf s' /\ guests_of s' = <[gs_id guest := (guest, Some [])]> (guests_of s).
Proof.
  intros W tx s'. pose proof (fresh_handle_None (rg_commands s)) as F. fold tx in F.
  assert (D : forall id g t, rg_sessions s !! id = Some (g, t) -> t <> tx).
  { intros id g t H ->. pose proof (rw_channel s W _ _ _ H) as [? ?]. congruence. }
  split; [split|].
  - intros id g t H. apply lookup_insert_is_Some'. cbn in H.
    apply lookup_insert_Some in H as [[_ E]|[_ H]]; [left; congruence|right; by apply (rw_channel s W id g)].
  - intros i i' g g' t H H'. cbn in H, H'.
    apply lookup_insert_Some in H as [[<- E]|[N H]], H' as [[<- E']|[N' H']]; simplify_eq.
    + done.
    + by apply D in H'.
    + by apply D in H.
    + by apply (rw_own s W _ _ _ _ _ H H').
  - apply map_eq. intros i. rewrite guests_of_lookup. cbn [s' rg_sessions rg_commands set_sessions set_commands].
    destruct (decide (i = gs_id guest)) as [->|N].
    + rewrite !lookup_insert_eq. cbn. unfold guest_of. cbn. by rewrite lookup_insert_eq.
    + rewrite !lookup_insert_ne, guests_of_lookup by congruence.
      destruct (rg_sessions s !! i) as [[g t]|] eqn:H; [|done]. cbn. f_equal. apply guest_of_same.
      rewrite lookup_insert_ne; [done|]. intros E. by apply (D i g t).
Qed.

Lemma deregistered_spec s id :
  registry_wf s ->
  let s' := set_sessions s (delete id (rg_sessions s)) in
  registry_wf s' /\ guests_of s' = delete id (guests_of s).
Proof.
  intros W s'. split; [split|].
  - intros i g t H. cbn in H. apply lookup_delete_Some in H as [_ H]. by apply (rw_channel s W i g).
  - intros i i' g g' t H H'. cbn in H, H'. apply lookup_delete_Some in H as [_ H], H' as [_ H'].
    by apply (rw_own s W _ _ _ _ _ H H').
  - unfold guests_of. cbn. by rewrite fmap_delete.
Qed.

(** A session that changes its own end of its channel changes its inbox. *)
Lemma guests_of_own s id g tx (f : Channel GuestCommand -> Channel GuestCommand) (h : Guest -> Guest) :
  registry_wf s -> rg_sessions s !! id = Some (g, tx) ->
  (forall cs, guest_of (alter f tx cs) (g, tx) = h (guest_of cs (g, tx))) ->
  let s' := set_commands s (alter f tx (rg_commands s)) in
  registry_wf s' /\ guests_of s' = alter h id (guests_of s).
Proof.
  intros W H F s'. split; [split; [|apply (rw_own s W)]|].
  - intros i g' t K. apply lookup_alter_is_Some. by apply (rw_channel s W i g').
  - apply map_eq. intros i. destruct (decide (i = id)) as [->|D].
    + rewrite lookup_alter_eq, !guests_of_lookup. change (rg_sessions s') with (rg_sessions s).
      rewrite H. apply (f_equal Some). apply F.
    + rewrite lookup_alter_ne, !guests_of_lookup by congruence. change (rg_sessions s') with (rg_sessions s).
      destruct (rg_sessions s !! i) as [[g' t]|] eqn:K; [|done]. apply (f_equal Some), guest_of_same.
      apply lookup_alter_ne. intros ->. apply D. by apply (rw_own s W _ _ _ _ _ K H).
Qed.

Lemma alter_missing {V} (f : V -> V) (m : gmap rstring V) id : m !! id = None -> alter f id m = m.
Proof.
  intros N. apply map_eq. intros i. destruct (decide (i = id)) as [->|];
    rewrite ?lookup_alter_eq, ?lookup_alter_ne, ?N by done; done.
Qed.

Lemma receive_alter {A} (cs : Channels A) rx :
  (receive cs rx).2 = alter (fun c => mkChannel (tail (ch_queue c)) (ch_receiver c)) rx cs.
Proof.
  unfold receive. apply map_eq. intros i.
  destruct (cs !! rx) as [[[|a q] r]|] eqn:L; cbn; destruct (decide (i = rx)) as [->|];
    rewrite ?lookup_alter_eq, ?lookup_alter_ne, ?lookup_insert_eq, ?lookup_insert_ne, ?L by done; done.
Qed.

Lemma session_receive_spec s id :
  registry_wf s ->
  registry_wf (session_receive s id) /\
  guests_of (session_receive s id) = alter (fun g => (g.1, tail <$> g.2)) id (guests_of s).
Proof.
  intros W. unfold session_receive. destruct (rg_sessions s !! id) as [[g tx]|] eqn:H.
  - destruct (rw_channel s W _ _ _ H) as [c L]. rewrite L. destruct (ch_receiver c) eqn:R.
    + rewrite receive_alter. apply (guests_of_own s id g tx); [done|done|].
      intros cs. unfold guest_of. cbn. rewrite lookup_alter_eq. destruct (cs !! tx) as [[q []]|]; reflexivity.
    + split; [done|]. symmetry. apply map_eq. intros i. destruct (decide (i = id)) as [->|D];
        [|by rewrite lookup_alter_ne by congruence].
      rewrite lookup_alter_eq, guests_of_lookup, H. cbn. unfold guest_of. cbn. rewrite L. cbn. by rewrite R.
  - split; [done|]. symmetry. apply alter_missing. by rewrite guests_of_lookup, H.
Qed.

Lemma session_hangup_spec s id :
  registry_wf s ->
  registry_wf (session_hangup s id) /\
  guests_of (session_hangup s id) = alter (fun g => (g.1, None)) id (guests_of s).
Proof.
  intros W. unfold session_hangup. destruct (rg_sessions s !! id) as [[g tx]|] eqn:H.
  - apply (guests_of_own s id g tx); [done|done|].
    intros cs. unfold guest_of. cbn. rewrite lookup_alter_eq. destruct (cs !! tx) as [[q []]|]; reflexivity.
  - split; [done|]. symmetry. apply alter_missing. by rewrite guests_of_lookup, H.
Qed.

Lemma registry_op_refines s op :
  registry_wf s ->
  registry_wf (registry_op s op) /\ guests_of (registry_op s op) = spec_op (guests_of s) op.
Proof.
  intros W. destruct op as [guest|id|id| |pid p|id|id| |r|id trust now|id]; cbn [registry_op spec_op].
  - destruct (registered_spec s guest W) as [W1 E1]. unfold join. cbn [snd].
    rewrite <- E1. by apply publish_notified.
  - unfold leave. rewrite guests_of_lookup. destruct (rg_sessions s !! id) as [[g tx]|] eqn:H; cbn.
    + destruct (deregistered_spec s id W) as [W1 E1]. rewrite decide_True by by eexists.
      rewrite <- E1. by apply publish_notified.
    + rewrite decide_False; [done|]. by intros [].
  - unfold kick. destruct (rg_sessions s !! id) as [[g tx]|] eqn:H; cbn.
    + pose proof (guests_of_send s id g tx (GC_End SE_Kicked) W H) as P.
      destruct (send (rg_commands s) tx (GC_End SE_Kicked)) as [ok cs]. exact P.
    + rewrite alter_missing; [done|]. by rewrite guests_of_lookup, H.
  - unfold kick_all. pose proof (send_all_spec s (GC_End SE_Kicked) W) as P. cbn zeta in P.
    rewrite <- count_sends_snd in P. by destruct (count_sends _ _ _).
  - destruct (guests_of_send_each s (fun e => gs_pairing_id e.2.1 = pid) (GC_Permissions p) W) as [W1 E1].
    split; [done|]. apply map_eq. intros i. unfold permissions. rewrite E1, lookup_fmap, guests_of_lookup.
    destruct (rg_sessions s !! i) as [[g tx]|]; [|done]. cbn. by destruct (decide _).
  - by apply session_receive_spec.
  - by apply session_hangup_spec.
  - split; [by apply (registry_wf_same s)|done].
  - split; [by apply (registry_wf_same s)|done].
  - assert (K : rg_sessions (respond s id trust now).2 = rg_sessions s /\
                rg_commands (respond s id trust now).2 = rg_commands s).
    { unfold respond. destruct (rg_pending s !! id) as [[q tx]|]; [|done].
      destruct (_ <? _); [|done]. by destruct (try_send1 _ _ _). }
    destruct K as [K1 K2]. split; [by apply (registry_wf_same s)|]. unfold guests_of. by rewrite K1, K2.
  - split; [by apply (registry_wf_same s)|done].
Qed.

Definition registry_ops (ops : list RegistryOp) : RegistryState := foldl registry_op RegistryState_default ops.
Definition spec_ops (ops : list RegistryOp) : gmap rstring Guest := foldl spec_op ∅ ops.

(** C28: the registry of guests refines a map from sessions to inboxes of their
    own, although it holds the sending ends of channels whose other ends belong
    to threads.  After any sequence of operations the sessions are those of the
    map, and what each has still to receive is what the map says: a kick reaches
    the session it names and no other, new permissions reach exactly the
    sessions of the pairing, and whenever a guest joins or leaves every guest is
    told the names of those present. *)
Theorem registry_refines_inboxes ops :
  registry_wf (registry_ops ops) /\ guests_of (registry_ops ops) = spec_ops ops.
Proof.
  unfold registry_ops, spec_ops. induction ops as [|op ops [W E]] using rev_ind.
  - split; [apply registry_wf_default|done].
  - rewrite !foldl_app. cbn [foldl]. rewrite <- E. by apply registry_op_refines.
Qed.

(** A request is answered at most once, in time, and while it is pending. *)
Lemma respond_spec s id trust now :
  match rg_pending s !! id with
  | None => respond s id trust now = (false, s)
  | Some (r, tx) =>
    rg_pending (respond s id trust now).2 !! id = None /\
    ((respond s id trust now).1 = true -> now < pq_expires_at r /\
      exists c, rg_responses s !! tx = Some c /\ ch_queue c = [] /\
        rg_responses (respond s id trust now).2 !! tx = Some (mkChannel [trust] true))
  end.
Proof.
  unfold respond. destruct (rg_pending s !! id) as [[r tx]|] eqn:P; [|done].
  case_if; cbn; [|by rewrite lookup_delete_eq].
  unfold try_send1, send. destruct (rg_responses s !! tx) as [[q []]|] eqn:L; cbn;
    repeat case_if; cbn; rewrite lookup_delete_eq; (split; [done|]); intros; try done.
  split; [done|]. eexists. split; [done|]. cbn in *. subst q. by rewrite lookup_insert_eq.
Qed.

(** Two guests, one of them kicked: what they are told. *)
Example two_guests :
  let a := mkGuestSession (str_bytes "a") (str_bytes "P") (str_bytes "Ann") (mkSocketAddr [] 1) PT_Owner 0 in
  let b := mkGuestSession (str_bytes "b") (str_bytes "Q") (str_bytes "Bob") (mkSocketAddr [] 2) PT_Owner 0 in
  let s := registry_ops [RO_Join b; RO_Join a; RO_Kick (str_bytes "a"); RO_Leave (str_bytes "a")] in
  guests_of s !! str_bytes "b" = Some (b, Some [GC_Status (mkHostStatus [str_bytes "Bob"]);
    GC_Status (mkHostStatus [str_bytes "Ann"; str_bytes "Bob"]); GC_Status (mkHostStatus [str_bytes "Bob"])]) /\
  rg_commands s !! 1%nat = Some (mkChannel [GC_Status (mkHostStatus [str_bytes "Ann"; str_bytes "Bob"]);
    GC_End SE_Kicked] true).
Proof. split; by vm_compute. Qed.
