(* ===== verification/HostState.v ===== *)
(** * The host's session: its state and its effects

    [clients/rust/maho-host/src/session.rs]: the local variables of
    [handle_connection], what it does to the outside, and the monad its body is
    written in.  A step of the session reads answers from the outside (clocks,
    the TLS stream, the injector, the pairing store as it is at that moment,
    which other threads change): each is a function of a counter of the
    questions asked so far, so nothing is assumed of any two answers.  What the
    session does is a log, newest first.  The build for Linux is modelled. *)

From S2P Require Import Prelude Codec Packet Handshake Pairing Input Parity Control Transport.
From S2P Require Import UdpGcm ClipboardImage Admission Guests.

Inductive SessionState : Type := SS_PreAuth | SS_PairingGranted | SS_Authenticated | SS_Closed.

#[export] Instance SessionState_eq_dec : EqDecision SessionState.
Proof. solve_decision. Defined.
#[export] Instance HostDisplay_eq_dec : EqDecision HostDisplay.
Proof. solve_decision. Defined.
#[export] Instance HostPolicy_eq_dec : EqDecision HostPolicy.
Proof. solve_decision. Defined.

(** [SessionState::allows]. *)
Definition state_allows (s : SessionState) (t : PacketType) : bool :=
  match s with
  | SS_PreAuth => match t with PT_PairingRequest | PT_Handshake => true | _ => false end
  | SS_PairingGranted => match t with PT_Handshake => true | _ => false end
  | SS_Authenticated => match t with PT_InputEvent | PT_Control => true | _ => false end
  | SS_Closed => false
  end.

(** The kinds of [io::Error] the session tells apart, and whether the error
    wraps an OpenSSL one with the code [SYSCALL]. *)
Inductive IoKind : Type :=
| IK_WouldBlock | IK_TimedOut | IK_UnexpectedEof | IK_ConnectionReset | IK_BrokenPipe | IK_Other.
Inductive TlsError : Type :=
| TL_Io (kind : IoKind) (syscall : bool)
| TL_Frame (e : CodecError)
| TL_Other.

Inductive SessionError : Type :=
| HE_Io (kind : IoKind)
| HE_Tls (e : TlsError)
| HE_Codec (e : CodecError)
| HE_Cipher (e : DatagramError)
| HE_Store
| HE_ConsentUnavailable
| HE_ConsentTimeout
| HE_PreAuth
| HE_AlreadyAuthenticated
| HE_IdentityMismatch
| HE_UnknownPairing
| HE_MediaStopped
| HE_MissingAuthenticatedRegistration
| HE_Capture.

(** What a datagram socket returns. *)
Inductive UdpAnswer : Type :=
| UA_Datagram (bytes : list byte) (peer : SocketAddr)
| UA_Discard   (* connection reset, or the codes 10054 and 10040 *)
| UA_WouldBlock
| UA_Error.

Record StreamRestart : Type := mkStreamRestart {
  srt_width : Z;
  srt_height : Z;
  srt_scale_permille : Z;
  srt_fps : Z;
  srt_codec : StreamCodecPreference;
  srt_output_name : option rstring;
  srt_bitrate : Z
}.

(** ** The outside *)

(** The configuration, what is fixed for the connection, and the answers. *)
Record HostEnv : Type := mkHostEnv {
  he_host_name : rstring;
  he_logical_width : Z;
  he_logical_height : Z;
  he_pixel_width : Z;
  he_pixel_height : Z;
  he_scale_factor : Z;
  he_frames_per_second : Z;
  he_bitrate : Z;
  he_capture_audio : bool;
  he_output_name : option rstring;
  he_consent_sender : bool;
  he_restart_factory : bool;
  he_pairing_deadline : option Instant;
  he_identity : list byte;               (* the negotiated TLS identity *)
  he_tcp_peer : SocketAddr;
  he_admission_deadline : Instant;
  he_gamepad : bool;                     (* gamepad_linux::available *)
  he_wayland : bool;                     (* the clipboard backend is Wayland's *)
  he_clipboard : bool;                   (* LinuxClipboard::new succeeded *)
  he_hkdf : list byte -> list byte -> list byte -> Z -> list byte;
  he_decrypt : list byte -> list byte -> list byte -> list byte -> option (list byte);
  he_read_png : list byte -> bool;
  he_now : nat -> Instant;
  he_unix_ms : nat -> Z;
  he_lockout : nat -> BootstrapLockout;
  he_policy : nat -> HostPolicy;
  he_displays : nat -> list HostDisplay;
  he_aborted : nat -> bool;
  he_stop : nat -> bool;
  he_media_failed : nat -> bool;
  he_frame : nat -> result TlsError (option (list byte));
  he_write : nat -> result TlsError unit;
  he_consent_send : nat -> bool;
  he_consent : nat -> option (option PairingTrust);  (* [None]: no answer in time *)
  he_uuid : nat -> rstring;
  he_random_key : nat -> list byte;
  he_store : nat -> PairingStore;
  he_store_ok : nat -> bool;             (* an access to the store succeeds *)
  he_commands : nat -> list GuestCommand;
  he_recv_from : nat -> UdpAnswer;
  he_clone_socket : nat -> bool;
  he_inject : nat -> InputEvent -> bool;
  he_poll_image : nat -> option (list byte);
  he_poll_text : nat -> option rstring;
  he_media_start : nat -> bool;
  he_error_text : nat -> rstring;        (* an error as text *)
  he_force_key_frame : nat -> bool;
  he_update_bitrate : nat -> bool;
  he_swap_send : nat -> bool;
  he_geometry : nat -> option bool       (* probed, and then updated *)
}.

(** ** What the session does *)

Inductive Effect : Type :=
| FX_Sent (t : PacketType) (payload : list byte)
| FX_Control (m : ControlMessage)                     (* sent as a control packet *)
| FX_Injected (e : InputEvent) (success : bool)
| FX_FlushIdleText
| FX_ClipboardText (text : rstring)                   (* the peer's text applied *)
| FX_ClipboardImage (png : list byte)
| FX_Requested (r : PendingRequest)
| FX_RequestFinished (id : rstring)
| FX_Prompted (client_name : rstring)
| FX_Granted (record : PairingRecord) (trust : PairingTrust)
| FX_SetAuthorization (id : rstring) (trust : PairingTrust) (p : option GuestPermissions)
| FX_Saved (record : PairingRecord)
| FX_Joined (guest : GuestSession)
| FX_Left (id : rstring)
| FX_Permissions (p : GuestPermissions)               (* [effective_permissions = p] *)
| FX_MediaStarted (restart : option StreamRestart)
| FX_MediaStopped
| FX_KeyFrame
| FX_Bitrate (bitrate : Z)
| FX_SenderStarted (peer : SocketAddr) (cipher : DatagramCipher)
| FX_SenderStopped
| FX_Geometry.

(** ** The state *)

(** The media pipeline of the session: whether [media_receiver], [sender_thread],
    [swap_tx] and the pipeline slot are filled, and its options. *)
Record MediaState : Type := mkMediaState {
  ms_receiver : bool;
  ms_sender : bool;
  ms_swap : bool;
  ms_pipeline : bool;
  ms_dims : Z * Z;
  ms_bitrate : Z;
  ms_topology : list HostDisplay;
  ms_selected_output : option rstring;
  ms_scale : Z;
  ms_fps : Z;
  ms_codec : StreamCodecPreference;
  ms_topology_check : Instant
}.

(** The clipboard. *)
Record ClipboardState : Type := mkClipboardState {
  cs_sync : bool;
  cs_images : Assembly;
  cs_image_id : Z;
  cs_next_image_poll : Instant;
  cs_next_poll : Instant
}.

(** [active_guest], the guard and the command channel are set together. *)
Record HostSession : Type := mkHostSession {
  ho_state : SessionState;
  ho_granted_pairing_id : option rstring;
  ho_provisional : option PairingRecord;
  ho_session_trust : PairingTrust;
  ho_peer_caps : Capabilities;
  ho_active_guest : option GuestSession;
  ho_grant_permissions : GuestPermissions;
  ho_effective_permissions : GuestPermissions;
  ho_audio_allowed : bool;
  ho_c2h_cipher : option DatagramCipher;
  ho_h2c_cipher : option DatagramCipher;
  ho_udp_peer : option SocketAddr;
  ho_media : MediaState;
  ho_clipboard : ClipboardState;
  ho_injected_input : bool;
  ho_input_disabled_warned : bool;
  ho_last_pong : Instant;
  ho_next_ping : Instant;
  ho_peer_has_stream_options : bool;
  ho_last_sent_policy : HostPolicy;
  ho_progress_ms : Z;
  ho_log : list Effect;
  ho_asked : nat;
  ho_frames : nat
}.

(** Assignment to one variable. *)
Definition set_ms_receiver (x : bool) (m : MediaState) : MediaState :=
  mkMediaState x (ms_sender m) (ms_swap m) (ms_pipeline m) (ms_dims m) (ms_bitrate m) (ms_topology m)
    (ms_selected_output m) (ms_scale m) (ms_fps m) (ms_codec m) (ms_topology_check m).
Definition set_ms_sender (x : bool) (m : MediaState) : MediaState :=
  mkMediaState (ms_receiver m) x (ms_swap m) (ms_pipeline m) (ms_dims m) (ms_bitrate m) (ms_topology m)
    (ms_selected_output m) (ms_scale m) (ms_fps m) (ms_codec m) (ms_topology_check m).
Definition set_ms_swap (x : bool) (m : MediaState) : MediaState :=
  mkMediaState (ms_receiver m) (ms_sender m) x (ms_pipeline m) (ms_dims m) (ms_bitrate m) (ms_topology m)
    (ms_selected_output m) (ms_scale m) (ms_fps m) (ms_codec m) (ms_topology_check m).
Definition set_ms_pipeline (x : bool) (m : MediaState) : MediaState :=
  mkMediaState (ms_receiver m) (ms_sender m) (ms_swap m) x (ms_dims m) (ms_bitrate m) (ms_topology m)
    (ms_selected_output m) (ms_scale m) (ms_fps m) (ms_codec m) (ms_topology_check m).
Definition set_ms_dims (x : Z * Z) (m : MediaState) : MediaState :=
  mkMediaState (ms_receiver m) (ms_sender m) (ms_swap m) (ms_pipeline m) x (ms_bitrate m) (ms_topology m)
    (ms_selected_output m) (ms_scale m) (ms_fps m) (ms_codec m) (ms_topology_check m).
Definition set_ms_bitrate (x : Z) (m : MediaState) : MediaState :=
  mkMediaState (ms_receiver m) (ms_sender m) (ms_swap m) (ms_pipeline m) (ms_dims m) x (ms_topology m)
    (ms_selected_output m) (ms_scale m) (ms_fps m) (ms_codec m) (ms_topology_check m).
Definition set_ms_topology (x : list HostDisplay) (m : MediaState) : MediaState :=
  mkMediaState (ms_receiver m) (ms_sender m) (ms_swap m) (ms_pipeline m) (ms_dims m) (ms_bitrate m) x
    (ms_selected_output m) (ms_scale m) (ms_fps m) (ms_codec m) (ms_topology_check m).
Definition set_ms_selected_output (x : option rstring) (m : MediaState) : MediaState :=
  mkMediaState (ms_receiver m) (ms_sender m) (ms_swap m) (ms_pipeline m) (ms_dims m) (ms_bitrate m)
    (ms_topology m) x (ms_scale m) (ms_fps m) (ms_codec m) (ms_topology_check m).
Definition set_ms_scale (x : Z) (m : MediaState) : MediaState :=
  mkMediaState (ms_receiver m) (ms_sender m) (ms_swap m) (ms_pipeline m) (ms_dims m) (ms_bitrate m)
    (ms_topology m) (ms_selected_output m) x (ms_fps m) (ms_codec m) (ms_topology_check m).
Definition set_ms_fps (x : Z) (m : MediaState) : MediaState :=
  mkMediaState (ms_receiver m) (ms_sender m) (ms_swap m) (ms_pipeline m) (ms_dims m) (ms_bitrate m)
    (ms_topology m) (ms_selected_output m) (ms_scale m) x (ms_codec m) (ms_topology_check m).
Definition set_ms_codec (x : StreamCodecPreference) (m : MediaState) : MediaState :=
  mkMediaState (ms_receiver m) (ms_sender m) (ms_swap m) (ms_pipeline m) (ms_dims m) (ms_bitrate m)
    (ms_topology m) (ms_selected_output m) (ms_scale m) (ms_fps m) x (ms_topology_check m).
Definition set_ms_topology_check (x : Instant) (m : MediaState) : MediaState :=
  mkMediaState (ms_receiver m) (ms_sender m) (ms_swap m) (ms_pipeline m) (ms_dims m) (ms_bitrate m)
    (ms_topology m) (ms_selected_output m) (ms_scale m) (ms_fps m) (ms_codec m) x.

Definition set_cs_sync (x : bool) (c : ClipboardState) : ClipboardState :=
  mkClipboardState x (cs_images c) (cs_image_id c) (cs_next_image_poll c) (cs_next_poll c).
Definition set_cs_images (x : Assembly) (c : ClipboardState) : ClipboardState :=
  mkClipboardState (cs_sync c) x (cs_image_id c) (cs_next_image_poll c) (cs_next_poll c).
Definition set_cs_image_id (x : Z) (c : ClipboardState) : ClipboardState :=
  mkClipboardState (cs_sync c) (cs_images c) x (cs_next_image_poll c) (cs_next_poll c).
Definition set_cs_next_image_poll (x : Instant) (c : ClipboardState) : ClipboardState :=
  mkClipboardState (cs_sync c) (cs_images c) (cs_image_id c) x (cs_next_poll c).
Definition set_cs_next_poll (x : Instant) (c : ClipboardState) : ClipboardState :=
  mkClipboardState (cs_sync c) (cs_images c) (cs_image_id c) (cs_next_image_poll c) x.

Definition set_ho_state (x : SessionState) (s : HostSession) : HostSession :=
  mkHostSession x (ho_granted_pairing_id s) (ho_provisional s) (ho_session_trust s) (ho_peer_caps s)
    (ho_active_guest s) (ho_grant_permissions s) (ho_effective_permissions s) (ho_audio_allowed s)
    (ho_c2h_cipher s) (ho_h2c_cipher s) (ho_udp_peer s) (ho_media s) (ho_clipboard s) (ho_injected_input s)
    (ho_input_disabled_warned s) (ho_last_pong s) (ho_next_ping s) (ho_peer_has_stream_options s)
    (ho_last_sent_policy s) (ho_progress_ms s) (ho_log s) (ho_asked s) (ho_frames s).
Definition set_ho_granted_pairing_id (x : option rstring) (s : HostSession) : HostSession :=
  mkHostSession (ho_state s) x (ho_provisional s) (ho_session_trust s) (ho_peer_caps s) (ho_active_guest s)
    (ho_grant_permissions s) (ho_effective_permissions s) (ho_audio_allowed s) (ho_c2h_cipher s)
    (ho_h2c_cipher s) (ho_udp_peer s) (ho_media s) (ho_clipboard s) (ho_injected_input s)
    (ho_input_disabled_warned s) (ho_last_pong s) (ho_next_ping s) (ho_peer_has_stream_options s)
    (ho_last_sent_policy s) (ho_progress_ms s) (ho_log s) (ho_asked s) (ho_frames s).
Definition set_ho_provisional (x : option PairingRecord) (s : HostSession) : HostSession :=
  mkHostSession (ho_state s) (ho_granted_pairing_id s) x (ho_session_trust s) (ho_peer_caps s)
    (ho_active_guest s) (ho_grant_permissions s) (ho_effective_permissions s) (ho_audio_allowed s)
    (ho_c2h_cipher s) (ho_h2c_cipher s) (ho_udp_peer s) (ho_media s) (ho_clipboard s) (ho_injected_input s)
    (ho_input_disabled_warned s) (ho_last_pong s) (ho_next_ping s) (ho_peer_has_stream_options s)
    (ho_last_sent_policy s) (ho_progress_ms s) (ho_log s) (ho_asked s) (ho_frames s).
Definition set_ho_session_trust (x : PairingTrust) (s : HostSession) : HostSession :=
  mkHostSession (ho_state s) (ho_granted_pairing_id s) (ho_provisional s) x (ho_peer_caps s)
    (ho_active_guest s) (ho_grant_permissions s) (ho_effective_permissions s) (ho_audio_allowed s)
    (ho_c2h_cipher s) (ho_h2c_cipher s) (ho_udp_peer s) (ho_media s) (ho_clipboard s) (ho_injected_input s)
    (ho_input_disabled_warned s) (ho_last_pong s) (ho_next_ping s) (ho_peer_has_stream_options s)
    (ho_last_sent_policy s) (ho_progress_ms s) (ho_log s) (ho_asked s) (ho_frames s).
Definition set_ho_peer_caps (x : Capabilities) (s : HostSession) : HostSession :=
  mkHostSession (ho_state s) (ho_granted_pairing_id s) (ho_provisional s) (ho_session_trust s) x
    (ho_active_guest s) (ho_grant_permissions s) (ho_effective_permissions s) (ho_audio_allowed s)
    (ho_c2h_cipher s) (ho_h2c_cipher s) (ho_udp_peer s) (ho_media s) (ho_clipboard s) (ho_injected_input s)
    (ho_input_disabled_warned s) (ho_last_pong s) (ho_next_ping s) (ho_peer_has_stream_options s)
    (ho_last_sent_policy s) (ho_progress_ms s) (ho_log s) (ho_asked s) (ho_frames s).
Definition set_ho_active_guest (x : option GuestSession) (s : HostSession) : HostSession :=
  mkHostSession (ho_state s) (ho_granted_pairing_id s) (ho_provisional s) (ho_session_trust s) (ho_peer_caps
    s) x (ho_grant_permissions s) (ho_effective_permissions s) (ho_audio_allowed s) (ho_c2h_cipher s)
    (ho_h2c_cipher s) (ho_udp_peer s) (ho_media s) (ho_clipboard s) (ho_injected_input s)
    (ho_input_disabled_warned s) (ho_last_pong s) (ho_next_ping s) (ho_peer_has_stream_options s)
    (ho_last_sent_policy s) (ho_progress_ms s) (ho_log s) (ho_asked s) (ho_frames s).
Definition set_ho_grant_permissions (x : GuestPermissions) (s : HostSession) : HostSession :=
  mkHostSession (ho_state s) (ho_granted_pairing_id s) (ho_provisional s) (ho_session_trust s) (ho_peer_caps
    s) (ho_active_guest s) x (ho_effective_permissions s) (ho_audio_allowed s) (ho_c2h_cipher s)
    (ho_h2c_cipher s) (ho_udp_peer s) (ho_media s) (ho_clipboard s) (ho_injected_input s)
    (ho_input_disabled_warned s) (ho_last_pong s) (ho_next_ping s) (ho_peer_has_stream_options s)
    (ho_last_sent_policy s) (ho_progress_ms s) (ho_log s) (ho_asked s) (ho_frames s).
Definition set_ho_effective_permissions (x : GuestPermissions) (s : HostSession) : HostSession :=
  mkHostSession (ho_state s) (ho_granted_pairing_id s) (ho_provisional s) (ho_session_trust s) (ho_peer_caps
    s) (ho_active_guest s) (ho_grant_permissions s) x (ho_audio_allowed s) (ho_c2h_cipher s) (ho_h2c_cipher
    s) (ho_udp_peer s) (ho_media s) (ho_clipboard s) (ho_injected_input s) (ho_input_disabled_warned s)
    (ho_last_pong s) (ho_next_ping s) (ho_peer_has_stream_options s) (ho_last_sent_policy s) (ho_progress_ms
    s) (ho_log s) (ho_asked s) (ho_frames s).
Definition set_ho_audio_allowed (x : bool) (s : HostSession) : HostSession :=
  mkHostSession (ho_state s) (ho_granted_pairing_id s) (ho_provisional s) (ho_session_trust s) (ho_peer_caps
    s) (ho_active_guest s) (ho_grant_permissions s) (ho_effective_permissions s) x (ho_c2h_cipher s)
    (ho_h2c_cipher s) (ho_udp_peer s) (ho_media s) (ho_clipboard s) (ho_injected_input s)
    (ho_input_disabled_warned s) (ho_last_pong s) (ho_next_ping s) (ho_peer_has_stream_options s)
    (ho_last_sent_policy s) (ho_progress_ms s) (ho_log s) (ho_asked s) (ho_frames s).
Definition set_ho_c2h_cipher (x : option DatagramCipher) (s : HostSession) : HostSession :=
  mkHostSession (ho_state s) (ho_granted_pairing_id s) (ho_provisional s) (ho_session_trust s) (ho_peer_caps
    s) (ho_active_guest s) (ho_grant_permissions s) (ho_effective_permissions s) (ho_audio_allowed s) x
    (ho_h2c_cipher s) (ho_udp_peer s) (ho_media s) (ho_clipboard s) (ho_injected_input s)
    (ho_input_disabled_warned s) (ho_last_pong s) (ho_next_ping s) (ho_peer_has_stream_options s)
    (ho_last_sent_policy s) (ho_progress_ms s) (ho_log s) (ho_asked s) (ho_frames s).
Definition set_ho_h2c_cipher (x : option DatagramCipher) (s : HostSession) : HostSession :=
  mkHostSession (ho_state s) (ho_granted_pairing_id s) (ho_provisional s) (ho_session_trust s) (ho_peer_caps
    s) (ho_active_guest s) (ho_grant_permissions s) (ho_effective_permissions s) (ho_audio_allowed s)
    (ho_c2h_cipher s) x (ho_udp_peer s) (ho_media s) (ho_clipboard s) (ho_injected_input s)
    (ho_input_disabled_warned s) (ho_last_pong s) (ho_next_ping s) (ho_peer_has_stream_options s)
    (ho_last_sent_policy s) (ho_progress_ms s) (ho_log s) (ho_asked s) (ho_frames s).
Definition set_ho_udp_peer (x : option SocketAddr) (s : HostSession) : HostSession :=
  mkHostSession (ho_state s) (ho_granted_pairing_id s) (ho_provisional s) (ho_session_trust s) (ho_peer_caps
    s) (ho_active_guest s) (ho_grant_permissions s) (ho_effective_permissions s) (ho_audio_allowed s)
    (ho_c2h_cipher s) (ho_h2c_cipher s) x (ho_media s) (ho_clipboard s) (ho_injected_input s)
    (ho_input_disabled_warned s) (ho_last_pong s) (ho_next_ping s) (ho_peer_has_stream_options s)
    (ho_last_sent_policy s) (ho_progress_ms s) (ho_log s) (ho_asked s) (ho_frames s).
Definition set_ho_media (x : MediaState) (s : HostSession) : HostSession :=
  mkHostSession (ho_state s) (ho_granted_pairing_id s) (ho_provisional s) (ho_session_trust s) (ho_peer_caps
    s) (ho_active_guest s) (ho_grant_permissions s) (ho_effective_permissions s) (ho_audio_allowed s)
    (ho_c2h_cipher s) (ho_h2c_cipher s) (ho_udp_peer s) x (ho_clipboard s) (ho_injected_input s)
    (ho_input_disabled_warned s) (ho_last_pong s) (ho_next_ping s) (ho_peer_has_stream_options s)
    (ho_last_sent_policy s) (ho_progress_ms s) (ho_log s) (ho_asked s) (ho_frames s).
Definition set_ho_clipboard (x : ClipboardState) (s : HostSession) : HostSession :=
  mkHostSession (ho_state s) (ho_granted_pairing_id s) (ho_provisional s) (ho_session_trust s) (ho_peer_caps
    s) (ho_active_guest s) (ho_grant_permissions s) (ho_effective_permissions s) (ho_audio_allowed s)
    (ho_c2h_cipher s) (ho_h2c_cipher s) (ho_udp_peer s) (ho_media s) x (ho_injected_input s)
    (ho_input_disabled_warned s) (ho_last_pong s) (ho_next_ping s) (ho_peer_has_stream_options s)
    (ho_last_sent_policy s) (ho_progress_ms s) (ho_log s) (ho_asked s) (ho_frames s).
Definition set_ho_injected_input (x : bool) (s : HostSession) : HostSession :=
  mkHostSession (ho_state s) (ho_granted_pairing_id s) (ho_provisional s) (ho_session_trust s) (ho_peer_caps
    s) (ho_active_guest s) (ho_grant_permissions s) (ho_effective_permissions s) (ho_audio_allowed s)
    (ho_c2h_cipher s) (ho_h2c_cipher s) (ho_udp_peer s) (ho_media s) (ho_clipboard s) x
    (ho_input_disabled_warned s) (ho_last_pong s) (ho_next_ping s) (ho_peer_has_stream_options s)
    (ho_last_sent_policy s) (ho_progress_ms s) (ho_log s) (ho_asked s) (ho_frames s).
Definition set_ho_input_disabled_warned (x : bool) (s : HostSession) : HostSession :=
  mkHostSession (ho_state s) (ho_granted_pairing_id s) (ho_provisional s) (ho_session_trust s) (ho_peer_caps
    s) (ho_active_guest s) (ho_grant_permissions s) (ho_effective_permissions s) (ho_audio_allowed s)
    (ho_c2h_cipher s) (ho_h2c_cipher s) (ho_udp_peer s) (ho_media s) (ho_clipboard s) (ho_injected_input s)
    x (ho_last_pong s) (ho_next_ping s) (ho_peer_has_stream_options s) (ho_last_sent_policy s)
    (ho_progress_ms s) (ho_log s) (ho_asked s) (ho_frames s).
Definition set_ho_last_pong (x : Instant) (s : HostSession) : HostSession :=
  mkHostSession (ho_state s) (ho_granted_pairing_id s) (ho_provisional s) (ho_session_trust s) (ho_peer_caps
    s) (ho_active_guest s) (ho_grant_permissions s) (ho_effective_permissions s) (ho_audio_allowed s)
    (ho_c2h_cipher s) (ho_h2c_cipher s) (ho_udp_peer s) (ho_media s) (ho_clipboard s) (ho_injected_input s)
    (ho_input_disabled_warned s) x (ho_next_ping s) (ho_peer_has_stream_options s) (ho_last_sent_policy s)
    (ho_progress_ms s) (ho_log s) (ho_asked s) (ho_frames s).
Definition set_ho_next_ping (x : Instant) (s : HostSession) : HostSession :=
  mkHostSession (ho_state s) (ho_granted_pairing_id s) (ho_provisional s) (ho_session_trust s) (ho_peer_caps
    s) (ho_active_guest s) (ho_grant_permissions s) (ho_effective_permissions s) (ho_audio_allowed s)
    (ho_c2h_cipher s) (ho_h2c_cipher s) (ho_udp_peer s) (ho_media s) (ho_clipboard s) (ho_injected_input s)
    (ho_input_disabled_warned s) (ho_last_pong s) x (ho_peer_has_stream_options s) (ho_last_sent_policy s)
    (ho_progress_ms s) (ho_log s) (ho_asked s) (ho_frames s).
Definition set_ho_peer_has_stream_options (x : bool) (s : HostSession) : HostSession :=
  mkHostSession (ho_state s) (ho_granted_pairing_id s) (ho_provisional s) (ho_session_trust s) (ho_peer_caps
    s) (ho_active_guest s) (ho_grant_permissions s) (ho_effective_permissions s) (ho_audio_allowed s)
    (ho_c2h_cipher s) (ho_h2c_cipher s) (ho_udp_peer s) (ho_media s) (ho_clipboard s) (ho_injected_input s)
    (ho_input_disabled_warned s) (ho_last_pong s) (ho_next_ping s) x (ho_last_sent_policy s) (ho_progress_ms
    s) (ho_log s) (ho_asked s) (ho_frames s).
Definition set_ho_last_sent_policy (x : HostPolicy) (s : HostSession) : HostSession :=
  mkHostSession (ho_state s) (ho_granted_pairing_id s) (ho_provisional s) (ho_session_trust s) (ho_peer_caps
    s) (ho_active_guest s) (ho_grant_permissions s) (ho_effective_permissions s) (ho_audio_allowed s)
    (ho_c2h_cipher s) (ho_h2c_cipher s) (ho_udp_peer s) (ho_media s) (ho_clipboard s) (ho_injected_input s)
    (ho_input_disabled_warned s) (ho_last_pong s) (ho_next_ping s) (ho_peer_has_stream_options s) x
    (ho_progress_ms s) (ho_log s) (ho_asked s) (ho_frames s).
Definition set_ho_progress_ms (x : Z) (s : HostSession) : HostSession :=
  mkHostSession (ho_state s) (ho_granted_pairing_id s) (ho_provisional s) (ho_session_trust s) (ho_peer_caps
    s) (ho_active_guest s) (ho_grant_permissions s) (ho_effective_permissions s) (ho_audio_allowed s)
    (ho_c2h_cipher s) (ho_h2c_cipher s) (ho_udp_peer s) (ho_media s) (ho_clipboard s) (ho_injected_input s)
    (ho_input_disabled_warned s) (ho_last_pong s) (ho_next_ping s) (ho_peer_has_stream_options s)
    (ho_last_sent_policy s) x (ho_log s) (ho_asked s) (ho_frames s).
Definition set_ho_log (x : list Effect) (s : HostSession) : HostSession :=
  mkHostSession (ho_state s) (ho_granted_pairing_id s) (ho_provisional s) (ho_session_trust s) (ho_peer_caps
    s) (ho_active_guest s) (ho_grant_permissions s) (ho_effective_permissions s) (ho_audio_allowed s)
    (ho_c2h_cipher s) (ho_h2c_cipher s) (ho_udp_peer s) (ho_media s) (ho_clipboard s) (ho_injected_input s)
    (ho_input_disabled_warned s) (ho_last_pong s) (ho_next_ping s) (ho_peer_has_stream_options s)
    (ho_last_sent_policy s) (ho_progress_ms s) x (ho_asked s) (ho_frames s).
Definition set_ho_asked (x : nat) (s : HostSession) : HostSession :=
  mkHostSession (ho_state s) (ho_granted_pairing_id s) (ho_provisional s) (ho_session_trust s) (ho_peer_caps
    s) (ho_active_guest s) (ho_grant_permissions s) (ho_effective_permissions s) (ho_audio_allowed s)
    (ho_c2h_cipher s) (ho_h2c_cipher s) (ho_udp_peer s) (ho_media s) (ho_clipboard s) (ho_injected_input s)
    (ho_input_disabled_warned s) (ho_last_pong s) (ho_next_ping s) (ho_peer_has_stream_options s)
    (ho_last_sent_policy s) (ho_progress_ms s) (ho_log s) x (ho_frames s).
Definition set_ho_frames (x : nat) (s : HostSession) : HostSession :=
  mkHostSession (ho_state s) (ho_granted_pairing_id s) (ho_provisional s) (ho_session_trust s) (ho_peer_caps
    s) (ho_active_guest s) (ho_grant_permissions s) (ho_effective_permissions s) (ho_audio_allowed s)
    (ho_c2h_cipher s) (ho_h2c_cipher s) (ho_udp_peer s) (ho_media s) (ho_clipboard s) (ho_injected_input s)
    (ho_input_disabled_warned s) (ho_last_pong s) (ho_next_ping s) (ho_peer_has_stream_options s)
    (ho_last_sent_policy s) (ho_progress_ms s) (ho_log s) (ho_asked s) x.

(** ** The body of the loop as a monad

    A statement goes on with a value, starts the next turn of the loop
    ([continue]), leaves the loop ([break]), or returns an error ([?]). *)

Inductive flow (A : Type) : Type :=
| Go (a : A)
| Continue
| Break
| Fail (e : SessionError).
Arguments Go {A} a.
Arguments Continue {A}.
Arguments Break {A}.
Arguments Fail {A} e.

Definition step (A : Type) : Type := HostSession -> flow A * HostSession.

#[export] Instance step_ret : MRet step := fun A a s => (Go a, s).
#[export] Instance step_bind : MBind step := fun A B f m s =>
  match m s with
  | (Go a, s) => f a s
  | (Continue, s) => (Continue, s)
  | (Break, s) => (Break, s)
  | (Fail e, s) => (Fail e, s)
  end.

Definition continue_ {A} : step A := fun s => (Continue, s).
Definition break_ {A} : step A := fun s => (Break, s).
Definition fail {A} (e : SessionError) : step A := fun s => (Fail e, s).

(** A variable read, a variable assigned. *)
Definition get {A} (f : HostSession -> A) : step A := fun s => (Go (f s), s).
Definition put (f : HostSession -> HostSession) : step unit := fun s => (Go tt, f s).

(** A question to the outside, and a deed. *)
Definition ask {A} (answer : nat -> A) : step A :=
  fun s => (Go (answer (ho_asked s)), set_ho_asked (S (ho_asked s)) s).
Definition emit (e : Effect) : step unit := fun s => (Go tt, set_ho_log (e :: ho_log s) s).

Definition when (b : bool) (m : step unit) : step unit := if b then m else mret tt.

(** [?] on a [Result]. *)
Definition lift {E A} (f : E -> SessionError) (r : result E A) : step A :=
  match r with Ok a => mret a | Err e => fail (f e) end.

(** Assignments to the media and clipboard variables. *)
Definition put_media (f : MediaState -> MediaState) : step unit :=
  put (fun s => set_ho_media (f (ho_media s)) s).
Definition put_clipboard (f : ClipboardState -> ClipboardState) : step unit :=
  put (fun s => set_ho_clipboard (f (ho_clipboard s)) s).
