(* ===== verification/HostSession.v ===== *)
(** * The host's session: its loop

    [clients/rust/maho-host/src/session.rs], [handle_connection]: a turn of its
    loop is [loop_turn], in the order of the source; the blocks of the body and
    the arms of its two matches are definitions of their own.  [flush_idle_text],
    the read and write timeouts, traces and log messages have no state here;
    [StreamingGuard] and the name of the sender's thread are left out. *)

From stdpp Require Import pretty.
From S2P Require Import Prelude Codec Packet Handshake Pairing Input Parity Control Transport.
From S2P Require Import UdpGcm ClipboardImage Admission Guests HostState.

Definition HEARTBEAT_INTERVAL : Duration := from_secs 2.
Definition HEARTBEAT_TIMEOUT : Duration := from_secs 30.
Definition MAX_UDP_DISCOVERY_BURST : nat := 32.
Definition IMAGE_CHUNK : Z := 65536.

Definition saturating_ms (later earlier : Instant) : Z :=
  (saturating_duration_since later earlier / 1000000) mod 18446744073709551616.

Definition is_authenticated (s : HostSession) : bool := bool_decide (ho_state s = SS_Authenticated).

Definition reset_event : InputEvent :=
  mkInputEvent IE_Reset F32_ZERO F32_ZERO 0 Modifiers_empty F32_ZERO F32_ZERO.

Definition is_gamepad (t : InputEventType) : bool :=
  match t with IE_GamepadAxis | IE_GamepadButtonDown | IE_GamepadButtonUp => true | _ => false end.

Definition policy_of (p : GuestPermissions) : HostPolicy :=
  mkHostPolicy (gp_keyboard p && gp_mouse p) (gp_clipboard p).

(** [iter().find(|d| d.primary).or(topology.first())] *)
Definition primary_display (l : list HostDisplay) : option HostDisplay :=
  match head (filter (fun d => hd_primary d = true) l) with Some d => Some d | None => head l end.

(** [((u64::from(native) * u64::from(scale) / 1000) as u32 & !1).max(2)] *)
Definition scaled (native scale : Z) : Z :=
  Z.max 2 (Z.land ((native * scale / 1000) mod 4294967296) 4294967294).

(** [(((native as u64) * (scale as u64) / 1000) & !1).max(2) as u32] *)
Definition scaled_to (native scale : Z) : Z :=
  Z.max 2 (Z.land (native * scale / 1000) 18446744073709551614) mod 4294967296.

(** [format!("{}", n)]. *)
Definition show (n : Z) : rstring := str_bytes (pretty n).

Definition validate_stream_options (request : StreamOptionsRequest) (displays : list HostDisplay)
    : result (StreamConfigurationErrorCode * rstring) unit :=
  if negb ((100 <=? sor_scale_permille request) && (sor_scale_permille request <=? 1000))
  then Err (SCE_UnsupportedDimensions, str_bytes "unsupported scale " ++ show (sor_scale_permille request) ++
    str_bytes " permille; must be 100..=1000")
  else if negb ((1 <=? sor_fps request) && (sor_fps request <=? 240))
  then Err (SCE_UnsupportedFps, str_bytes "unsupported fps " ++ show (sor_fps request) ++
    str_bytes "; must be 1..=240")
  else if len displays <=? sor_display_index request
  then Err (SCE_InvalidRequest, str_bytes "display index " ++ show (sor_display_index request) ++
    str_bytes " out of range; " ++ show (len displays) ++ str_bytes " displays available")
  else Ok tt.

(** Why a [StreamConfigRequest] is refused. *)
Definition reject_reason (desired : StreamConfiguration)
    : option (StreamConfigurationErrorCode * rstring) :=
  if (sc_width desired =? 0) || (sc_height desired =? 0) || (7680 <? sc_width desired)
     || (4320 <? sc_height desired)
  then Some (SCE_UnsupportedDimensions, str_bytes "unsupported dimensions")
  else if (sc_frames_per_second desired =? 0) || (240 <? sc_frames_per_second desired)
  then Some (SCE_UnsupportedFps, str_bytes "unsupported fps")
  else if (sc_bitrate desired <? 100000) || (300000000 <? sc_bitrate desired)
  then Some (SCE_UnsupportedBitrate, str_bytes "unsupported bitrate")
  else None.

(** [str::to_uppercase], of ASCII text. *)
Definition to_uppercase (s : rstring) : rstring :=
  map (fun b => if byte_in 97 122 b then Z_to_byte (byte_to_Z b - 32) else b) s.

(** [bytes.chunks(65536).enumerate()], with the casts to [u32]. *)
Definition host_image_chunks (transfer_id : Z) (bytes : list byte) : list ClipboardImageChunk :=
  imap (fun index chunk =>
    mkClipboardImageChunk transfer_id (len bytes mod 4294967296)
      ((Z.of_nat index * IMAGE_CHUNK) mod 4294967296) chunk)
    (chunks bytes IMAGE_CHUNK).

Section Host.

Context (E : HostEnv).

(** ** Capabilities and permissions *)

(** [host_guest_capabilities], on Linux. *)
Definition host_guest_capabilities : Capabilities :=
  let capabilities :=
    Capabilities_bitor (Capabilities_bitor (Capabilities_bitor (Capabilities_bitor
      CAP_HOST_STATUS CAP_SESSION_ENDED) CAP_GUEST_PERMISSIONS) CAP_PAIRING_TRUST) CAP_RTT_PROBE in
  let capabilities := if he_gamepad E then Capabilities_bitor capabilities CAP_GAMEPAD else capabilities in
  let capabilities := Capabilities_bitor capabilities CAP_TEXT_CLIPBOARD_SYNC in
  if he_wayland E then Capabilities_bitor capabilities CAP_CLIPBOARD_IMAGE else capabilities.

Definition permission_ceiling (policy : HostPolicy) (clipboard : bool) : GuestPermissions :=
  mkGuestPermissions (hp_allow_input policy) (hp_allow_input policy)
    (hp_allow_input policy && Capabilities_contains host_guest_capabilities CAP_GAMEPAD)
    (hp_allow_clipboard policy && clipboard)
    (he_capture_audio E).

Definition peer_has (s : HostSession) (capability : Capabilities) : bool :=
  Capabilities_contains (ho_peer_caps s) capability.

(** ** Sending *)

Definition send_tcp_packet (packet_type : PacketType) (payload : list byte) : step unit :=
  ms ← ask (he_unix_ms E);
  packet ← lift HE_Codec (tcp_packet (ms mod 4294967296) packet_type payload);
  written ← ask (he_write E);
  _ ← lift HE_Tls written;
  emit (FX_Sent packet_type payload).

Definition send_tcp_control (message : ControlMessage) : step unit :=
  payload ← lift HE_Codec (ControlMessage_encode message);
  _ ← send_tcp_packet PT_Control payload;
  emit (FX_Control message).

Definition send_pairing_reject (reason : PairingRejectReason) : step unit :=
  payload ← lift HE_Codec (PairingReject_encode (mkPairingReject reason));
  send_tcp_packet PT_PairingReject payload.

(** [if let Err(error) = send_tcp_control(..) { warn!(..) }]: a failure is
    ignored. *)
Definition ignore_failure (m : step unit) : step unit := fun s =>
  match m s with
  | (Fail _, s) => (Go tt, s)
  | r => r
  end.

Definition send_session_end (reason : SessionEndReason) : step unit :=
  supported ← get (fun s => peer_has s CAP_SESSION_ENDED);
  send_tcp_control (if supported : bool then CM_SessionEnded (mkSessionEnded reason) else CM_Disconnect).

Definition send_permissions (permissions : GuestPermissions) : step unit :=
  guest_permissions ← get (fun s => peer_has s CAP_GUEST_PERMISSIONS);
  stream_options ← get (fun s => peer_has s CAP_STREAM_OPTIONS);
  if guest_permissions : bool then send_tcp_control (CM_GuestPermissions permissions)
  else when stream_options (send_tcp_control (CM_HostPolicy (policy_of permissions))).

(** [inject_input]. *)
Definition inject_input (event : InputEvent) : step bool :=
  success ← ask (fun n => he_inject E n event);
  _ ← emit (FX_Injected event success);
  mret success.

(** ** The top of a turn *)

Definition session_origin : Instant := he_now E 0.

Definition check_stop : step unit :=
  now ← ask (he_now E);
  _ ← put (set_ho_progress_ms (saturating_ms now session_origin));
  _ ← emit FX_FlushIdleText;
  aborted ← ask (he_aborted E);
  if aborted : bool then break_ else
  stop ← ask (he_stop E);
  when stop (
    authenticated ← get is_authenticated;
    _ ← when authenticated (send_session_end SE_HostStopped);
    break_).

Definition read_frame : step (option (list byte)) := fun s =>
  let s' := set_ho_frames (S (ho_frames s)) s in
  match he_frame E (ho_frames s) with
  | Ok packet => (Go packet, s')
  | Err (TL_Io IK_WouldBlock _) | Err (TL_Io IK_TimedOut _) => (Go None, s')
  | Err (TL_Io IK_UnexpectedEof _) | Err (TL_Io IK_ConnectionReset _) | Err (TL_Io IK_BrokenPipe _) =>
    (Break, s')
  | Err (TL_Io IK_Other true) => (Break, s')
  | Err e => (Fail (HE_Tls e), s')
  end.

(** [read_frame_until(admission_deadline)?] in the handshake. *)
Definition read_frame_until_admission : step (option (list byte)) := fun s =>
  let s' := set_ho_frames (S (ho_frames s)) s in
  match he_frame E (ho_frames s) with
  | Ok packet => (Go packet, s')
  | Err e => (Fail (HE_Tls e), s')
  end.

(** An orderly end wins over a media failure. *)
Definition check_disconnect (packet : option (list byte)) : step unit :=
  authenticated ← get is_authenticated;
  match packet with
  | Some packet =>
    if authenticated : bool then
      '(header, payload) ← lift HE_Codec (split_packet packet);
      if bool_decide (ph_packet_type header = PT_Control) then
        message ← lift HE_Codec (ControlMessage_decode payload);
        match message with CM_Disconnect | CM_StopStream => break_ | _ => mret tt end
      else mret tt
    else mret tt
  | None => mret tt
  end.

(** [probe_linux_input_geometry] and [update_geometry]. *)
Definition update_geometry : step unit :=
  geometry ← ask (he_geometry E);
  match geometry with
  | None => mret tt
  | Some ok => if ok : bool then emit FX_Geometry else fail (HE_Io IK_Other)
  end.

(** The new pipeline takes the place of the old one in the slot. *)
Definition replace_pipeline : step unit :=
  old ← get (fun s => ms_pipeline (ho_media s));
  _ ← put_media (set_ms_pipeline true);
  when old (emit FX_MediaStopped).

(** The media failed, or the display is gone: the pipeline is started again on
    another one. *)
Definition restart_media (media_failed : bool) : step unit :=
  if negb (he_restart_factory E) then (if media_failed then fail HE_MediaStopped else continue_)
  else
    m ← get ho_media;
    match primary_display (ms_topology m) with
    | None => fail HE_MediaStopped
    | Some display =>
      let width := scaled (hd_width display) (ms_scale m) in
      let height := scaled (hd_height display) (ms_scale m) in
      let restart := mkStreamRestart width height (ms_scale m) (ms_fps m) (ms_codec m)
        (Some (hd_name display)) (ms_bitrate m) in
      started ← ask (he_media_start E);
      if negb started then fail HE_Capture else
      _ ← emit (FX_MediaStarted (Some restart));
      _ ← (if ms_swap m : bool
           then sent ← ask (he_swap_send E); if sent : bool then mret tt else fail HE_MediaStopped
           else put_media (fun m => set_ms_dims (width, height) (set_ms_receiver true m)));
      _ ← replace_pipeline;
      _ ← put_media (set_ms_selected_output (Some (hd_name display)));
      _ ← update_geometry;
      options ← get ho_peer_has_stream_options;
      when options (send_tcp_control (CM_StreamOptionsActive
        (mkStreamOptionsActive 0 width height (ms_fps m mod 65536) (ms_codec m) (hd_index display)
          (ms_bitrate m))))
    end.

Definition check_topology (media_failed : bool) : step unit :=
  authenticated ← get is_authenticated;
  due ← (if media_failed then mret true
         else if authenticated : bool
         then now ← ask (he_now E); get (fun s => ms_topology_check (ho_media s) <=? now)
         else mret false);
  when due (
    now ← ask (he_now E);
    _ ← put_media (set_ms_topology_check (now + from_secs 2));
    displays ← ask (he_displays E);
    m ← get ho_media;
    let disappeared :=
      match ms_selected_output m with
      | Some name => negb (existsb (fun d => bool_decide (hd_name d = name)) displays)
      | None => false
      end in
    if media_failed && negb disappeared then fail HE_MediaStopped else
    options ← get ho_peer_has_stream_options;
    _ ← when (options && negb (bool_decide (displays = ms_topology m)))
          (send_tcp_control (CM_HostDisplayList (mkHostDisplayList displays)));
    _ ← put_media (set_ms_topology displays);
    when (media_failed || disappeared) (restart_media media_failed)).

(** Before authentication nothing outlives the admission deadline. *)
Definition check_admission : step unit :=
  authenticated ← get is_authenticated;
  when (negb authenticated) (
    now ← ask (he_now E);
    match checked_duration_since (he_admission_deadline E) now with
    | Some remaining => if remaining =? 0 then fail (HE_Io IK_TimedOut) else mret tt
    | None => fail (HE_Io IK_TimedOut)
    end).

(** ** The work of an authenticated turn *)

(** The commands of the registry: an [End] leaves the rest unread. *)
Fixpoint guest_commands (commands : list GuestCommand) : step (option SessionEndReason) :=
  match commands with
  | [] => mret None
  | GC_End reason :: _ => mret (Some reason)
  | GC_Status status :: commands =>
    supported ← get (fun s => peer_has s CAP_HOST_STATUS);
    _ ← when supported (send_tcp_control (CM_HostStatus status));
    guest_commands commands
  | GC_Permissions permissions :: commands =>
    _ ← put (set_ho_grant_permissions permissions);
    guest_commands commands
  end.

Definition check_end : step unit :=
  joined ← get (fun s => bool_decide (is_Some (ho_active_guest s)));
  commands ← (if joined : bool then ask (he_commands E) else mret []);
  end_ ← guest_commands commands;
  trust ← get ho_session_trust;
  end_ ← match trust with
         | PT_GuestExpiring expires_at_unix_ms =>
           now ← ask (he_unix_ms E);
           mret (if expires_at_unix_ms <=? now then Some SE_GuestExpired else end_)
         | _ => mret end_
         end;
  match end_ with
  | Some reason => _ ← send_session_end reason; break_
  | None => mret tt
  end.

(** [intersect(grant_permissions, self.permission_ceiling(..))] *)
Definition current_permissions : step GuestPermissions :=
  policy ← ask (he_policy E);
  get (fun s => intersect (ho_grant_permissions s) (permission_ceiling policy (cs_sync (ho_clipboard s)))).

Definition set_effective (p : GuestPermissions) : step unit :=
  _ ← put (set_ho_effective_permissions p);
  emit (FX_Permissions p).

(** Whether what may still be pressed has to be released. *)
Definition input_lost (old new : GuestPermissions) : bool :=
  (gp_keyboard old && negb (gp_keyboard new)) || (gp_mouse old && negb (gp_mouse new))
  || (gp_gamepad old && negb (gp_gamepad new)).

Definition refresh_permissions : step unit :=
  current ← current_permissions;
  effective ← get ho_effective_permissions;
  when (negb (bool_decide (current = effective))) (
    _ ← when (input_lost effective current) (_ ← inject_input reset_event; mret tt);
    _ ← set_effective current;
    _ ← put (set_ho_audio_allowed (gp_audio current));
    send_permissions current).

(** The loop of [discover_udp_peer]; [c] is the cipher it borrows. *)
Fixpoint discover_loop (n : nat) (c : DatagramCipher) : step DatagramCipher :=
  match n with
  | O => mret c
  | S n =>
    answer ← ask (he_recv_from E);
    match answer with
    | UA_Datagram bytes peer =>
      known ← get (fun s => bool_decide (is_Some (ho_udp_peer s)));
      if negb (bool_decide (sa_ip peer = sa_ip (he_tcp_peer E))) then discover_loop n c
      else if known : bool then discover_loop n c
      else if len bytes <? 40 then discover_loop n c
      else
        match open_datagram (he_decrypt E) c bytes with
        | (Ok (header, payload), c) =>
          if bool_decide (ph_packet_type header = PT_Ping) && bool_decide (payload = [])
          then _ ← put (set_ho_udp_peer (Some peer)); mret c
          else discover_loop n c
        | (Err _, c) => discover_loop n c
        end
    | UA_Discard => discover_loop n c
    | UA_WouldBlock => mret c
    | UA_Error => _ ← put (set_ho_c2h_cipher (Some c)); fail (HE_Io IK_Other)
    end
  end.

Definition discover_udp_peer : step unit :=
  cipher ← get ho_c2h_cipher;
  match cipher with
  | None => mret tt
  | Some c => c ← discover_loop MAX_UDP_DISCOVERY_BURST c; put (set_ho_c2h_cipher (Some c))
  end.

(** The sender's thread takes the receiver of the media and the cipher. *)
Definition start_sender : step unit :=
  m ← get ho_media;
  peer ← get ho_udp_peer;
  match peer with
  | Some peer =>
    if negb (ms_sender m) && ms_receiver m then
      _ ← put_media (set_ms_receiver false);
      cloned ← ask (he_clone_socket E);
      if negb cloned then fail (HE_Io IK_Other) else
      cipher ← get ho_h2c_cipher;
      _ ← put (set_ho_h2c_cipher None);
      match cipher with
      | None => fail HE_PreAuth
      | Some cipher =>
        _ ← put_media (fun m => set_ms_sender true (set_ms_swap true m));
        emit (FX_SenderStarted peer cipher)
      end
    else mret tt
  | None => mret tt
  end.

Fixpoint send_chunks (chunks : list ClipboardImageChunk) : step unit :=
  match chunks with
  | [] => mret tt
  | chunk :: chunks => _ ← send_tcp_control (CM_ClipboardImageChunk chunk); send_chunks chunks
  end.

Definition poll_image (now : Instant) : step unit :=
  c ← get ho_clipboard;
  allowed ← get (fun s => gp_clipboard (ho_effective_permissions s));
  peer ← get (fun s => peer_has s CAP_CLIPBOARD_IMAGE);
  when (cs_sync c && allowed && peer && Capabilities_contains host_guest_capabilities CAP_CLIPBOARD_IMAGE
        && (cs_next_image_poll c <=? now)) (
    _ ← put_clipboard (set_cs_next_image_poll (now + from_millis 500));
    when (he_clipboard E) (
      polled ← ask (he_poll_image E);
      match polled with
      | Some bytes =>
        if U32_MAX <? cs_image_id c + 1 then fail HE_MediaStopped else
        _ ← put_clipboard (set_cs_image_id (cs_image_id c + 1));
        send_chunks (host_image_chunks (cs_image_id c + 1) bytes)
      | None => mret tt
      end)).

(** Peers without the finer messages are told of changes of the policy. *)
Definition update_policy : step unit :=
  options ← get ho_peer_has_stream_options;
  guest_permissions ← get (fun s => peer_has s CAP_GUEST_PERMISSIONS);
  current ← get (fun s => policy_of (ho_effective_permissions s));
  last ← get ho_last_sent_policy;
  when (options && negb guest_permissions && negb (bool_decide (current = last)))
    (ignore_failure (_ ← send_tcp_control (CM_HostPolicy current); put (set_ho_last_sent_policy current))).

Definition heartbeat (now : Instant) : step unit :=
  next_ping ← get ho_next_ping;
  _ ← when (next_ping <=? now) (
        _ ← send_tcp_control CM_Ping;
        put (set_ho_next_ping (now + HEARTBEAT_INTERVAL)));
  last_pong ← get ho_last_pong;
  when (HEARTBEAT_TIMEOUT <=? saturating_duration_since now last_pong) break_.

Definition poll_text (now : Instant) : step unit :=
  c ← get ho_clipboard;
  allowed ← get (fun s => gp_clipboard (ho_effective_permissions s));
  when (cs_sync c && allowed && (cs_next_poll c <=? now)) (
    _ ← put_clipboard (set_cs_next_poll (now + from_millis 500));
    when (he_clipboard E) (
      polled ← ask (he_poll_text E);
      match polled with
      | Some text =>
        send_tcp_control (CM_ClipboardSyncUpdate (mkClipboardSyncUpdate 0 CD_HostToClient CO_LocalPasteboard text))
      | None => mret tt
      end)).

Definition authenticated_work : step unit :=
  authenticated ← get is_authenticated;
  when authenticated (
    clipboard ← get (fun s => gp_clipboard (ho_effective_permissions s));
    _ ← when (negb clipboard) (put_clipboard (fun c => set_cs_images (assembly_cancel (cs_images c)) c));
    now ← ask (he_now E);
    _ ← put_clipboard (fun c => set_cs_images (assembly_expire (cs_images c) now) c);
    _ ← check_end;
    _ ← refresh_permissions;
    registered ← get (fun s => bool_decide (is_Some (ho_udp_peer s)));
    _ ← when (negb registered) discover_udp_peer;
    _ ← start_sender;
    now ← ask (he_now E);
    _ ← poll_image now;
    _ ← update_policy;
    _ ← heartbeat now;
    poll_text now).

(** ** The packets *)

Definition is_pairing_active : step bool :=
  now ← ask (he_now E);
  lockout ← ask (he_lockout E);
  mret (pairing_is_active (he_pairing_deadline E) lockout now).

(** [self.pairing_deadline.ok_or(SessionError::ConsentTimeout)?], and the
    earlier of it and the admission deadline. *)
Definition consent_deadline : step Instant :=
  match he_pairing_deadline E with
  | Some deadline => mret (Z.min (he_admission_deadline E) deadline)
  | None => fail HE_ConsentTimeout
  end.

(** What the host's user answers to the request: [Some trust], or a denial. *)
Definition ask_consent (request : PairingRequest) : step (option PairingTrust) :=
  request_id ← ask (he_uuid E);
  expires_at ← consent_deadline;
  _ ← emit (FX_Requested (mkPendingRequest request_id (pr_name request) expires_at));
  _ ← when (he_consent_sender E) (
        sent ← ask (he_consent_send E);
        if sent : bool then emit (FX_Prompted (pr_name request))
        else _ ← emit (FX_RequestFinished request_id); fail HE_ConsentUnavailable);
  _ ← consent_deadline;
  approval ← ask (he_consent E);
  _ ← emit (FX_RequestFinished request_id);
  match approval with
  | Some approved => mret approved
  | None => fail HE_ConsentTimeout
  end.

Definition grant_pairing (request : PairingRequest) (trust : PairingTrust) : step unit :=
  _ ← lift HE_Codec (PairingTrust_encode trust);
  now ← (if bool_decide (trust = PT_GuestOnce) then mret 0 else ask (he_unix_ms E));
  if negb (bool_decide (trust = PT_GuestOnce)) && negb (valid_trust trust now)
  then fail HE_ConsentTimeout else
  _ ← put (set_ho_session_trust trust);
  uuid ← ask (he_uuid E);
  let id := to_uppercase uuid in
  key ← ask (he_random_key E);
  added_at ← ask (he_unix_ms E);
  let record := mkPairingRecord id (pr_name request) key added_at in
  payload ← lift HE_Codec (PairingGrant_encode (mkPairingGrant id (he_host_name E) key));
  _ ← send_tcp_packet PT_PairingGrant payload;
  _ ← emit (FX_Granted record trust);
  _ ← put (set_ho_granted_pairing_id (Some id));
  _ ← put (set_ho_provisional (Some record));
  put (set_ho_state SS_PairingGranted).

Definition handle_pairing_request (payload : list byte) : step unit :=
  active ← (if bool_decide (he_identity E = BOOTSTRAP_IDENTITY) then is_pairing_active else mret false);
  if negb active then _ ← send_pairing_reject PRR_PairingDisabled; continue_ else
  request ← lift HE_Codec (PairingRequest_decode payload);
  approved ← ask_consent request;
  now ← ask (he_now E);
  active ← (if he_admission_deadline E <=? now then mret false else is_pairing_active);
  if negb active then fail HE_ConsentTimeout else
  match approved with
  | None => _ ← send_pairing_reject PRR_DeniedByHost; break_
  | Some trust => grant_pairing request trust
  end.

(** Reads of the store: the store as it is at that moment, or an I/O error. *)
Definition load_record (id : rstring) : step (option PairingRecord) :=
  ok ← ask (he_store_ok E);
  if negb ok then fail HE_Store else
  store ← ask (he_store E);
  mret (store_load store id).

Definition load_authorization (id : rstring) : step (PairingTrust * option GuestPermissions) :=
  ok ← ask (he_store_ok E);
  if negb ok then fail HE_Store else
  store ← ask (he_store E);
  lift HE_Codec (authorization store id).

(** The record of the handshake's pairing: the one just granted, or a stored one
    whose trust holds, which also sets the trust and the permissions. *)
Definition find_record (handshake : Handshake) (fresh : option PairingRecord) : step PairingRecord :=
  match fresh with
  | Some record => mret record
  | None =>
    record ← load_record (hs_pairing_id handshake);
    match record with
    | None => fail HE_UnknownPairing
    | Some record =>
      '(trust, permissions) ← load_authorization (rec_id record);
      now ← ask (he_unix_ms E);
      if negb (valid_trust trust now) then fail HE_UnknownPairing else
      _ ← put (set_ho_session_trust trust);
      _ ← match permissions with
          | Some p => put (set_ho_grant_permissions p)
          | None => mret tt
          end;
      mret record
    end
  end.

(** The pairing of the handshake is the one the TLS identity stands for. *)
Definition check_identity (handshake : Handshake) : step unit :=
  match strip_prefix (he_identity E) PAIRING_IDENTITY_PREFIX with
  | Some id => if bool_decide (id = hs_pairing_id handshake) then mret tt else fail HE_IdentityMismatch
  | None =>
    if bool_decide (he_identity E = BOOTSTRAP_IDENTITY) then
      granted ← get ho_granted_pairing_id;
      match granted with
      | None => fail HE_PreAuth
      | Some id => if bool_decide (id = hs_pairing_id handshake) then mret tt else fail HE_IdentityMismatch
      end
    else fail HE_IdentityMismatch
  end.

(** The version, the capabilities and the ciphers of the session. *)
Definition negotiate (handshake : Handshake) (record : PairingRecord) : step unit :=
  if negb (hs_version handshake =? PROTOCOL_VERSION)
  then fail (HE_Codec (UnsupportedVersion (hs_version handshake))) else
  let peer := hs_capabilities handshake in
  _ ← put_clipboard (set_cs_sync
        (Capabilities_contains host_guest_capabilities CAP_TEXT_CLIPBOARD_SYNC
         && Capabilities_contains peer CAP_TEXT_CLIPBOARD_SYNC));
  if negb (Capabilities_contains peer CAP_AUTHENTICATED_UDP_REGISTRATION)
  then fail HE_MissingAuthenticatedRegistration else
  c2h ← lift HE_Cipher (DatagramCipher_derive (he_hkdf E) (rec_key record) (hs_session_salt handshake) ClientToHost);
  _ ← put (set_ho_c2h_cipher (Some c2h));
  h2c ← lift HE_Cipher (DatagramCipher_derive (he_hkdf E) (rec_key record) (hs_session_salt handshake) HostToClient);
  _ ← put (set_ho_h2c_cipher (Some h2c));
  _ ← put (set_ho_peer_caps peer);
  put (set_ho_peer_has_stream_options (Capabilities_contains peer CAP_STREAM_OPTIONS)).

Definition handshake_ack : Handshake :=
  mkHandshake (he_host_name E) (Z.min (he_logical_width E) 65535) (Z.min (he_logical_height E) 65535)
    (he_scale_factor E) PROTOCOL_VERSION
    (Capabilities_bitor (Capabilities_bitor (Capabilities_bitor CAP_STREAM_CONFIGURATION
      CAP_AUTHENTICATED_UDP_REGISTRATION) CAP_STREAM_OPTIONS) host_guest_capabilities)
    [] (replicate 16 Byte.x00).

(** [self.media_source.start(media_tx)?], its handle in the slot. *)
Definition start_media : step unit :=
  started ← ask (he_media_start E);
  if negb started then fail HE_Capture else
  _ ← emit (FX_MediaStarted None);
  put_media (fun m => set_ms_pipeline true (set_ms_receiver true m)).

(** The exchange of trust with a peer that knows it. *)
Definition exchange_trust (fresh : bool) : step unit :=
  _ ← when fresh (
        packet ← read_frame_until_admission;
        match packet with
        | None => fail HE_ConsentTimeout
        | Some packet =>
          '(header, payload) ← lift HE_Codec (split_packet packet);
          if negb (bool_decide (ph_packet_type header = PT_Control)) then fail HE_PreAuth else
          message ← lift HE_Codec (ControlMessage_decode payload);
          match message with CM_PairingTrustRequest _ => mret tt | _ => fail HE_PreAuth end
        end);
  trust ← get ho_session_trust;
  send_tcp_control (CM_PairingTrustGrant (mkPairingTrustGrant trust)).

(** The store learns of a new pairing, its authorization first. *)
Definition save_pairing (record : PairingRecord) : step unit :=
  trust ← get ho_session_trust;
  when (negb (bool_decide (trust = PT_GuestOnce))) (
    now ← ask (he_unix_ms E);
    if negb (valid_trust trust now) then _ ← send_session_end SE_GuestExpired; break_ else
    permissions ← get ho_grant_permissions;
    _ ← lift HE_Codec (PairingTrust_encode trust);
    ok ← ask (he_store_ok E);
    if negb ok then fail HE_Store else
    _ ← emit (FX_SetAuthorization (rec_id record) trust (Some permissions));
    ok ← ask (he_store_ok E);
    if negb ok then fail HE_Store else
    emit (FX_Saved record)).

Definition join_guests (record : PairingRecord) : step unit :=
  id ← ask (he_uuid E);
  trust ← get ho_session_trust;
  connected_at ← ask (he_now E);
  let guest := mkGuestSession id (rec_id record) (rec_name record) (he_tcp_peer E) trust connected_at in
  _ ← emit (FX_Joined guest);
  _ ← put (set_ho_active_guest (Some guest));
  put (set_ho_state SS_Authenticated).

Definition handle_handshake (payload : list byte) : step unit :=
  authenticated ← get is_authenticated;
  if authenticated : bool then fail HE_AlreadyAuthenticated else
  handshake ← lift HE_Codec (Handshake_decode payload);
  provisional ← get ho_provisional;
  let fresh := bool_decide (is_Some provisional) in
  record ← find_record handshake provisional;
  _ ← check_identity handshake;
  _ ← negotiate handshake record;
  knows_trust ← get (fun s => peer_has s CAP_PAIRING_TRUST);
  _ ← when (negb knows_trust) start_media;
  ack ← lift HE_Codec (Handshake_encode handshake_ack);
  _ ← send_tcp_packet PT_HandshakeAck ack;
  _ ← when knows_trust (exchange_trust fresh);
  _ ← when fresh (save_pairing record);
  _ ← put (set_ho_provisional None);
  current ← current_permissions;
  _ ← set_effective current;
  _ ← send_permissions current;
  _ ← put (set_ho_audio_allowed (gp_audio current));
  _ ← join_guests record;
  _ ← when knows_trust start_media;
  options ← get ho_peer_has_stream_options;
  _ ← when options (
        _ ← put (set_ho_last_sent_policy (policy_of current));
        displays ← ask (he_displays E);
        send_tcp_control (CM_HostDisplayList (mkHostDisplayList displays)));
  pong ← ask (he_now E);
  _ ← put (set_ho_last_pong pong);
  ping ← ask (he_now E);
  put (set_ho_next_ping (ping + HEARTBEAT_INTERVAL)).

Definition strip_modifiers (p : GuestPermissions) (event : InputEvent) : InputEvent :=
  if gp_keyboard p then event
  else mkInputEvent (ie_event_type event) (ie_x event) (ie_y event) (ie_key_code event) Modifiers_empty
         (ie_scroll_dx event) (ie_scroll_dy event).

Definition handle_input (sequence : Z) (payload : list byte) : step unit :=
  event ← lift HE_Codec (InputEvent_decode payload);
  permissions ← get ho_effective_permissions;
  gamepad ← get (fun s => peer_has s CAP_GAMEPAD);
  let event := strip_modifiers permissions event in
  if negb (allows permissions (ie_event_type event)) || (is_gamepad (ie_event_type event) && negb gamepad) then
    _ ← put (set_ho_input_disabled_warned true);
    _ ← ignore_failure (send_tcp_control (CM_InputAck (mkInputAckMessage sequence false 2)));
    continue_
  else
    success ← inject_input event;
    _ ← put (fun s => set_ho_injected_input (ho_injected_input s || success) s);
    ignore_failure (send_tcp_control (CM_InputAck (mkInputAckMessage sequence success (if success : bool then 0 else 1)))).

(** *** The control messages *)

Definition answer_rtt (probe : RttProbe) : step unit := send_tcp_control (CM_RttPong probe).

Definition handle_secure_attention (request : SecureAttentionRequest) : step unit :=
  guest ← get ho_active_guest;
  match guest with
  | None => fail HE_PreAuth
  | Some guest =>
    send_tcp_control (CM_SecureAttentionResponse
      (mkSecureAttentionResponse (sar_request_id request) (secure_attention false None guest)))
  end.

Definition handle_image_chunk (chunk : ClipboardImageChunk) : step unit :=
  c ← get ho_clipboard;
  allowed ← get (fun s => gp_clipboard (ho_effective_permissions s));
  peer ← get (fun s => peer_has s CAP_CLIPBOARD_IMAGE);
  if cs_sync c && allowed && peer && Capabilities_contains host_guest_capabilities CAP_CLIPBOARD_IMAGE then
    now ← ask (he_now E);
    let '(r, images) := assembly_push (he_read_png E) (cs_images c) chunk now in
    _ ← put_clipboard (set_cs_images images);
    match r with
    | Ok (Some bytes) => when (he_clipboard E) (emit (FX_ClipboardImage bytes))
    | Ok None | Err _ => mret tt
    end
  else put_clipboard (fun c => set_cs_images (assembly_cancel (cs_images c)) c).

Definition request_key_frame : step unit :=
  running ← get (fun s => ms_pipeline (ho_media s));
  when running (
    ok ← ask (he_force_key_frame E);
    if ok : bool then emit FX_KeyFrame else fail HE_Capture).

(** [media.update_bitrate]: whether it was applied. *)
Definition update_bitrate (bitrate : Z) : step bool :=
  ok ← ask (he_update_bitrate E);
  _ ← when ok (emit (FX_Bitrate bitrate));
  mret ok.

Definition adjust_bitrate (adjust : BitrateAdjust) : step unit :=
  running ← get (fun s => ms_pipeline (ho_media s));
  when ((0 <? ba_target_bitrate adjust) && running) (
    ok ← update_bitrate (ba_target_bitrate adjust);
    when ok (put_media (set_ms_bitrate (ba_target_bitrate adjust)))).

Definition reject_stream (request_id : Z) (reason : StreamConfigurationErrorCode) (message : rstring) : step unit :=
  send_tcp_control (CM_StreamConfigReject (mkStreamConfigurationReject request_id reason message)).

Definition configure_stream (req : StreamConfigurationRequest) : step unit :=
  let desired := scr_desired req in
  match reject_reason desired with
  | Some (reason, message) => reject_stream (scr_request_id req) reason message
  | None =>
    m ← get ho_media;
    applied ← (if ms_pipeline m : bool
               then ok ← update_bitrate (sc_bitrate desired); mret (if ok : bool then Some (sc_bitrate desired) else None)
               else mret (Some (ms_bitrate m)));
    match applied with
    | Some bitrate =>
      _ ← put_media (set_ms_bitrate bitrate);
      send_tcp_control (CM_StreamConfigResponse (mkStreamConfigurationResponse (scr_request_id req)
        (mkStreamConfiguration (he_pixel_width E) (he_pixel_height E) bitrate
          (he_frames_per_second E mod 65536))))
    | None =>
      reject_stream (scr_request_id req) SCE_UnsupportedBitrate (str_bytes "bitrate update was not applied")
    end
  end.

Definition resolve_codec (codec : StreamCodecPreference) : StreamCodecPreference :=
  match codec with SCP_Auto | SCP_Hevc => SCP_Hevc | SCP_H264 => SCP_H264 end.

(** [Some(&displays[request.display_index])], [request] and the active bitrate. *)
Definition restart_of (request : StreamOptionsRequest) (selected : HostDisplay) (active_bitrate : Z)
    : StreamRestart :=
  mkStreamRestart (scaled_to (hd_width selected) (sor_scale_permille request))
    (scaled_to (hd_height selected) (sor_scale_permille request))
    (sor_scale_permille request) (sor_fps request) (resolve_codec (sor_codec request))
    (Some (hd_name selected)) (if sor_bitrate request =? 0 then active_bitrate else sor_bitrate request).

(** The pipeline of the new options is started, takes over, and is announced. *)
Definition apply_options (request : StreamOptionsRequest) (selected : HostDisplay) : step unit :=
  active_bitrate ← get (fun s => ms_bitrate (ho_media s));
  let restart := restart_of request selected active_bitrate in
  started ← ask (he_media_start E);
  if negb started then
    error ← ask (he_error_text E);
    _ ← reject_stream (sor_request_id request) SCE_RejectedByPeer (str_bytes "pipeline start error: " ++ error);
    continue_
  else
  _ ← emit (FX_MediaStarted (Some restart));
  swap ← get (fun s => ms_swap (ho_media s));
  _ ← (if swap : bool then _ ← ask (he_swap_send E); mret tt
       else put_media (fun m => set_ms_dims (srt_width restart, srt_height restart) (set_ms_receiver true m)));
  _ ← replace_pipeline;
  forced ← ask (he_force_key_frame E);
  _ ← when forced (emit FX_KeyFrame);
  _ ← update_geometry;
  _ ← put_media (fun m =>
        set_ms_bitrate (srt_bitrate restart) (set_ms_selected_output (srt_output_name restart)
          (set_ms_scale (sor_scale_permille request) (set_ms_fps (sor_fps request)
            (set_ms_codec (srt_codec restart) m)))));
  send_tcp_control (CM_StreamOptionsActive
    (mkStreamOptionsActive (sor_request_id request) (srt_width restart) (srt_height restart) (sor_fps request)
      (srt_codec restart) (sor_display_index request) (srt_bitrate restart))).

Definition handle_stream_options (request : StreamOptionsRequest) : step unit :=
  displays ← ask (he_displays E);
  match validate_stream_options request displays with
  | Err (reason, message) => _ ← reject_stream (sor_request_id request) reason message; continue_
  | Ok _ =>
    if negb (he_restart_factory E) then
      _ ← reject_stream (sor_request_id request) SCE_RejectedByPeer
            (str_bytes "stream options are not supported on this host platform yet");
      continue_
    else
      match displays !! Z.to_nat (sor_display_index request) with
      | Some selected => apply_options request selected
      | None => mret tt   (* not reached: the index was validated *)
      end
  end.

Definition handle_clipboard_text (update : ClipboardSyncUpdate) : step unit :=
  _ ← put_clipboard (fun c => set_cs_images (assembly_cancel (cs_images c)) c);
  c ← get ho_clipboard;
  allowed ← get (fun s => gp_clipboard (ho_effective_permissions s));
  let inbound := match csu_direction update with CD_ClientToHost | CD_Bidirectional => true | CD_HostToClient => false end in
  when (cs_sync c && allowed && inbound && he_clipboard E) (emit (FX_ClipboardText (csu_text update))).

Definition local_capabilities : Capabilities :=
  Capabilities_bitor (Capabilities_bitor host_guest_capabilities CAP_STREAM_OPTIONS) CAP_STREAM_CONFIGURATION.

Definition handle_control (payload : list byte) : step unit :=
  control ← lift HE_Codec (ControlMessage_decode payload);
  peer ← get ho_peer_caps;
  if negb (supported_by (message_type control) local_capabilities peer) then fail HE_PreAuth else
  match control with
  | CM_RttPing probe => answer_rtt probe
  | CM_SecureAttentionRequest request => handle_secure_attention request
  | CM_PairingTrustRequest _ | CM_PairingTrustGrant _ | CM_GuestPermissions _ | CM_HostStatus _
  | CM_SessionEnded _ | CM_RttPong _ | CM_SecureAttentionResponse _ => fail HE_PreAuth
  | CM_ClipboardImageChunk chunk => handle_image_chunk chunk
  | CM_RequestKeyFrame => request_key_frame
  | CM_BitrateAdjust adjust => adjust_bitrate adjust
  | CM_StreamConfigRequest req => configure_stream req
  | CM_StreamOptionsRequest request => handle_stream_options request
  | CM_Ping => send_tcp_control CM_Pong
  | CM_Pong => now ← ask (he_now E); put (set_ho_last_pong now)
  | CM_ClipboardSyncUpdate update => handle_clipboard_text update
  | CM_Disconnect | CM_StopStream => break_
  | _ => mret tt
  end.

Definition dispatch (packet : list byte) : step unit :=
  '(header, payload) ← lift HE_Codec (split_packet packet);
  state ← get ho_state;
  if negb (state_allows state (ph_packet_type header)) then
    if bool_decide (state = SS_Authenticated) && bool_decide (ph_packet_type header = PT_Handshake)
    then fail HE_AlreadyAuthenticated else continue_
  else
    match ph_packet_type header with
    | PT_PairingRequest => handle_pairing_request payload
    | PT_Handshake => handle_handshake payload
    | PT_InputEvent =>
      if bool_decide (state = SS_Authenticated) then handle_input (ph_sequence header) payload else continue_
    | PT_Control =>
      if bool_decide (state = SS_Authenticated) then handle_control payload else continue_
    | _ => mret tt
    end.

(** ** The loop *)

Definition loop_turn : step unit :=
  _ ← check_stop;
  media_failed ← ask (he_media_failed E);
  packet ← read_frame;
  _ ← check_disconnect packet;
  _ ← check_topology media_failed;
  _ ← check_admission;
  _ ← authenticated_work;
  match packet with
  | None => continue_
  | Some packet => dispatch packet
  end.

(** The first [turns] turns; the result once the loop was left. *)
Fixpoint run_loop (turns : nat) (s : HostSession) : option (result SessionError unit) * HostSession :=
  match turns with
  | O => (None, s)
  | S turns =>
    match loop_turn s with
    | (Go _, s) | (Continue, s) => run_loop turns s
    | (Break, s) => (Some (Ok tt), s)
    | (Fail e, s) => (Some (Err e), s)
    end
  end.

(** After the loop: media and sender are stopped, and what the peer still holds
    is released. *)
Definition teardown (s : HostSession) : HostSession :=
  let m := ho_media s in
  let s := set_ho_audio_allowed false s in
  let s := if ms_sender m then set_ho_log (FX_SenderStopped :: ho_log s) s else s in
  let s := if ms_pipeline m then set_ho_log (FX_MediaStopped :: ho_log s) s else s in
  let s := set_ho_media (set_ms_receiver false (set_ms_swap false (set_ms_pipeline false (set_ms_sender false m)))) s in
  let s := if ho_injected_input s then (inject_input reset_event s).2 else s in
  let s := set_ho_state SS_Closed s in
  match ho_active_guest s with
  | Some guest => set_ho_active_guest None (set_ho_log (FX_Left (gs_id guest) :: ho_log s) s)
  | None => s
  end.

(** The variables before the loop; the questions are asked in this order. *)
Definition initial : HostSession :=
  let policy := he_policy E 0 in
  let topology := he_displays E 0 in
  let selected :=
    match he_output_name E with Some name => Some name | None => hd_name <$> primary_display topology end in
  mkHostSession SS_PreAuth None None PT_GuestOnce Capabilities_empty None
    (permission_ceiling policy true) (permission_ceiling (he_policy E 1) false) false None None None
    (mkMediaState false false false false (he_pixel_width E, he_pixel_height E) (he_bitrate E) topology selected
      1000 (Z.max 1 (he_frames_per_second E)) SCP_Auto (he_now E 3 + from_secs 2))
    (mkClipboardState false Assembly_default 0 (he_now E 4) (he_now E 5))
    false false (he_now E 1) (he_now E 2 + HEARTBEAT_INTERVAL) false (he_policy E 2) 0 [] 6 0.

(** [handle_connection], if the loop is left within [turns] turns. *)
Definition handle_connection (turns : nat) : option (result SessionError unit) * HostSession :=
  match run_loop turns initial with
  | (Some r, s) => (Some r, teardown s)
  | (None, s) => (None, s)
  end.

End Host.
