(* ===== verification/HostSafety.v ===== *)
(** * The host's session: safety

    What the log of a session can hold, whatever the peer sends and whatever the
    outside answers: who is admitted, what is injected, what crosses the
    clipboard, and what stays pressed.  A statement that is [calm] adds to the
    log nothing these properties look at and leaves the variables they depend on
    alone; the statements that are not calm are treated one by one. *)

From S2P Require Import Prelude Codec Packet Handshake Pairing Input Parity Control Transport.
From S2P Require Import UdpGcm ClipboardImage Admission Guests HostState HostSession.

(** ** What the log of a session may hold *)

(** The permissions in force, and whether a guest has joined; newest first. *)
Fixpoint current (log : list Effect) : option GuestPermissions :=
  match log with
  | [] => None
  | FX_Permissions p :: _ => Some p
  | _ :: log => current log
  end.
Fixpoint joined (log : list Effect) : bool :=
  match log with
  | [] => false
  | FX_Joined _ :: _ => true
  | _ :: log => joined log
  end.

(** An admitted guest for whom the permission is in force. *)
Definition in_force (log : list Effect) (permission : GuestPermissions -> bool) : Prop :=
  joined log = true /\ exists p, current log = Some p /\ permission p = true.

Definition event_permitted (e : InputEvent) (p : GuestPermissions) : bool :=
  allows p (ie_event_type e) && (gp_keyboard p || (ie_modifiers e =? Modifiers_empty)).

Definition is_clipboard (m : ControlMessage) : bool :=
  match m with CM_ClipboardSyncUpdate _ | CM_ClipboardImageChunk _ => true | _ => false end.

Section Safety.

Context (E : HostEnv).

(** The permissions are within what the host's own switches allowed when they
    were computed. *)
Definition within_policy (p : GuestPermissions) (policy : HostPolicy) : Prop :=
  (gp_keyboard p = true -> hp_allow_input policy = true) /\
  (gp_mouse p = true -> hp_allow_input policy = true) /\
  (gp_gamepad p = true -> hp_allow_input policy = true /\ he_gamepad E = true) /\
  (gp_clipboard p = true -> hp_allow_clipboard policy = true) /\
  (gp_audio p = true -> he_capture_audio E = true).

(** The pairing [id] may have a session: the TLS identity is its own and the
    store holds it with a valid trust, or the identity is the bootstrap one and
    the host's user has just granted it. *)
Definition admitted (log : list Effect) (id : rstring) (trust : PairingTrust) : Prop :=
  (he_identity E = PAIRING_IDENTITY_PREFIX ++ id /\
   exists n1 n2 n3 record permissions,
     store_load (he_store E n1) id = Some record /\
     authorization (he_store E n2) id = Ok (trust, permissions) /\
     valid_trust trust (he_unix_ms E n3) = true) \/
  (he_identity E = BOOTSTRAP_IDENTITY /\
   exists record, rec_id record = id /\ FX_Granted record trust ∈ log).

(** What an entry of the log requires of the entries before it. *)
Definition effect_ok (log : list Effect) (e : Effect) : Prop :=
  match e with
  | FX_Injected e _ => e = reset_event \/ in_force log (event_permitted e)
  | FX_ClipboardText _ | FX_ClipboardImage _ => in_force log gp_clipboard
  | FX_Control m => is_clipboard m = true -> in_force log gp_clipboard
  | FX_Permissions p => exists n, within_policy p (he_policy E n)
  | FX_Granted _ trust =>
    he_identity E = BOOTSTRAP_IDENTITY /\
    (exists n, he_consent E n = Some (Some trust)) /\
    exists n k, pairing_is_active (he_pairing_deadline E) (he_lockout E n) (he_now E k) = true
  | FX_Joined g => admitted log (gs_pairing_id g) (gs_trust g)
  | _ => True
  end.

Fixpoint log_ok (log : list Effect) : Prop :=
  match log with
  | [] => True
  | e :: log => effect_ok log e /\ log_ok log
  end.

(** The devices whose keys or buttons can stay pressed, the permission for each,
    and whether something was injected for it after the last release. *)
Inductive device : Type := Keyboard | Mouse | Gamepad.

#[export] Instance device_eq_dec : EqDecision device.
Proof. solve_decision. Defined.

Definition device_of (t : InputEventType) : device :=
  match t with
  | IE_KeyDown | IE_KeyUp | IE_FlagsChanged | IE_UnicodeChar => Keyboard
  | IE_GamepadAxis | IE_GamepadButtonDown | IE_GamepadButtonUp => Gamepad
  | _ => Mouse
  end.
Definition device_allowed (d : device) (p : GuestPermissions) : bool :=
  match d with Keyboard => gp_keyboard p | Mouse => gp_mouse p | Gamepad => gp_gamepad p end.

Definition is_reset (t : InputEventType) : bool := match t with IE_Reset => true | _ => false end.

Fixpoint unreleased (d : device) (log : list Effect) : bool :=
  match log with
  | [] => false
  | FX_Injected e success :: log =>
    if is_reset (ie_event_type e) then false
    else (success && bool_decide (device_of (ie_event_type e) = d)) || unreleased d log
  | _ :: log => unreleased d log
  end.

(** ** Calm statements *)

Definition quiet (e : Effect) : bool :=
  match e with
  | FX_Injected _ _ | FX_ClipboardText _ | FX_ClipboardImage _ | FX_Permissions _ | FX_Granted _ _
  | FX_Joined _ => false
  | FX_Control m => negb (is_clipboard m)
  | _ => true
  end.

(** The variables the properties depend on. *)
Definition core (s : HostSession) :=
  (ho_state s, ho_effective_permissions s, ho_provisional s, ho_granted_pairing_id s,
   ho_session_trust s, ho_injected_input s).

Definition quietly (s s' : HostSession) : Prop :=
  core s' = core s /\ exists l, ho_log s' = l ++ ho_log s /\ Forall (fun e => quiet e = true) l.

#[export] Instance quietly_preorder : PreOrder quietly.
Proof.
  split.
  - intros s. split; [done|]. by exists [].
  - intros s1 s2 s3 [C1 (l1 & L1 & F1)] [C2 (l2 & L2 & F2)]. split; [congruence|].
    exists (l2 ++ l1). split; [by rewrite L2, L1, app_assoc|]. by apply Forall_app.
Qed.

(** [calm c m]: [m] is calm, and starts the next turn only if [c]. *)
Definition calm (c : bool) {A} (m : step A) : Prop :=
  forall s, quietly s (m s).2 /\ ((m s).1 = Continue -> c = true).

Lemma calm_ret c {A} (a : A) : calm c (mret a).
Proof. intros s. by split. Qed.
Lemma calm_bind c {A B} (m : step A) (f : A -> step B) :
  calm c m -> (forall a, calm c (f a)) -> calm c (m ≫= f).
Proof.
  intros M F s. unfold mbind, step_bind. destruct (M s) as [Q C]. destruct (m s) as [[a| | |e] s1]; cbn in *.
  - destruct (F a s1) as [Q' C']. split; [by etrans|done].
  - split; [done|]. auto.
  - by split.
  - by split.
Qed.
Lemma calm_get c {A} (f : HostSession -> A) : calm c (get f).
Proof. intros s. by split. Qed.
Lemma calm_ask c {A} (f : nat -> A) : calm c (ask f).
Proof. intros s. split; [|done]. split; [done|]. by exists []. Qed.
Lemma calm_put c f : (forall s, core (f s) = core s /\ ho_log (f s) = ho_log s) -> calm c (put f).
Proof. intros H s. split; [|done]. destruct (H s) as [C L]. split; [done|]. by exists []. Qed.
Lemma calm_put_media c f : calm c (put_media f).
Proof. by apply calm_put. Qed.
Lemma calm_put_clipboard c f : calm c (put_clipboard f).
Proof. by apply calm_put. Qed.
Lemma calm_emit c e : quiet e = true -> calm c (emit e).
Proof. intros Q s. split; [|done]. split; [done|]. exists [e]. by repeat constructor. Qed.
Lemma calm_fail c {A} e : calm c (fail (A:=A) e).
Proof. intros s. by split. Qed.
Lemma calm_break c {A} : calm c (break_ (A:=A)).
Proof. intros s. by split. Qed.
Lemma calm_continue {A} : calm true (continue_ (A:=A)).
Proof. intros s. by split. Qed.
Lemma calm_when c b m : calm c m -> calm c (when b m).
Proof. intros M. destruct b; [done|apply calm_ret]. Qed.
Lemma calm_lift c {X A} (f : X -> SessionError) (r : result X A) : calm c (lift f r).
Proof. destruct r; [apply calm_ret|apply calm_fail]. Qed.
Lemma calm_ignore c m : calm c m -> calm c (ignore_failure m).
Proof.
  intros M s. destruct (M s) as [Q C]. unfold ignore_failure. by destruct (m s) as [[[]| | |e] s1]; split.
Qed.
Lemma calm_weaken c {A} (m : step A) : calm false m -> calm c m.
Proof. intros M s. destruct (M s) as [Q C]. split; [done|]. intros K. by apply C in K. Qed.

End Safety.

Create HintDb calm.
#[export] Hint Resolve calm_ret calm_get calm_ask calm_put_media calm_put_clipboard calm_fail calm_break
  calm_continue calm_lift : calm.

(** Goes through the statements of a definition, the calls in the database
    [calm] taken as they are. *)
Ltac calm_step :=
  match goal with
  | |- forall _, _ => intros
  | _ => solve [auto with calm nocore]
  | |- calm _ (put _) => apply calm_put; by intros
  | |- calm _ (emit _) => apply calm_emit; reflexivity
  | |- calm _ (_ ≫= _) => apply calm_bind
  | |- calm _ (when _ _) => apply calm_when
  | |- calm _ (ignore_failure _) => apply calm_ignore
  | |- calm _ (if ?b then _ else _) => destruct b eqn:?
  | |- calm _ (match ?x with _ => _ end) => destruct x
  | |- calm _ (let _ := _ in _) => cbv zeta
  end.
Ltac calm := repeat calm_step.

Section CalmParts.

Context (E : HostEnv).

Lemma calm_send_tcp_packet c t payload : calm c (send_tcp_packet E t payload).
Proof. unfold send_tcp_packet. calm. Qed.
Hint Resolve calm_send_tcp_packet : calm.

Lemma calm_send_tcp_control c m : is_clipboard m = false -> calm c (send_tcp_control E m).
Proof. intros H. unfold send_tcp_control. calm. apply calm_emit. cbn. by rewrite H. Qed.
Hint Extern 1 (calm _ (send_tcp_control _ _)) => apply calm_send_tcp_control; reflexivity : calm.

Lemma calm_send_pairing_reject c r : calm c (send_pairing_reject E r).
Proof. unfold send_pairing_reject. calm. Qed.
Lemma calm_send_session_end c r : calm c (send_session_end E r).
Proof. unfold send_session_end. calm. apply calm_send_tcp_control. by destruct a. Qed.
Lemma calm_send_permissions c p : calm c (send_permissions E p).
Proof. unfold send_permissions. calm. Qed.
Hint Resolve calm_send_pairing_reject calm_send_session_end calm_send_permissions : calm.

Lemma calm_read_frame c : calm c (read_frame E).
Proof.
  intros s. unfold read_frame.
  destruct (he_frame E (ho_frames s)) as [p|[[] []|e|]]; cbn; (split; [split; [done|by exists []]|done]).
Qed.
Lemma calm_read_frame_until c : calm c (read_frame_until_admission E).
Proof.
  intros s. unfold read_frame_until_admission.
  destruct (he_frame E (ho_frames s)); cbn; (split; [split; [done|by exists []]|done]).
Qed.
Hint Resolve calm_read_frame calm_read_frame_until : calm.

Lemma calm_check_stop c : calm c (check_stop E).
Proof. unfold check_stop. calm. Qed.
Lemma calm_check_disconnect c p : calm c (check_disconnect p).
Proof. unfold check_disconnect. calm. Qed.
Lemma calm_update_geometry c : calm c (update_geometry E).
Proof. unfold update_geometry. calm. Qed.
Lemma calm_replace_pipeline c : calm c replace_pipeline.
Proof. unfold replace_pipeline. calm. Qed.
Hint Resolve calm_check_stop calm_check_disconnect calm_update_geometry calm_replace_pipeline : calm.
Lemma calm_restart_media b : calm true (restart_media E b).
Proof. unfold restart_media. calm. Qed.
Hint Resolve calm_restart_media : calm.
Lemma calm_check_topology b : calm true (check_topology E b).
Proof. unfold check_topology. calm. Qed.
Lemma calm_check_admission c : calm c (check_admission E).
Proof. unfold check_admission. calm. Qed.

Lemma calm_guest_commands c l : calm c (guest_commands E l).
Proof. induction l as [|[] l IH]; cbn [guest_commands]; calm. Qed.
Hint Resolve calm_check_topology calm_check_admission calm_guest_commands : calm.
Lemma calm_check_end c : calm c (check_end E).
Proof. unfold check_end. calm. Qed.
Lemma calm_current_permissions c : calm c (current_permissions E).
Proof. unfold current_permissions. calm. Qed.
Lemma calm_discover_loop c n d : calm c (discover_loop E n d).
Proof. revert d. induction n; intros; cbn [discover_loop]; calm. Qed.
Hint Resolve calm_check_end calm_current_permissions calm_discover_loop : calm.
Lemma calm_discover_udp_peer c : calm c (discover_udp_peer E).
Proof. unfold discover_udp_peer. calm. Qed.
Lemma calm_start_sender c : calm c (start_sender E).
Proof. unfold start_sender. calm. Qed.
Lemma calm_update_policy c : calm c (update_policy E).
Proof. unfold update_policy. calm. Qed.
Lemma calm_heartbeat c now : calm c (heartbeat E now).
Proof. unfold heartbeat. calm. Qed.
Hint Resolve calm_discover_udp_peer calm_start_sender calm_update_policy calm_heartbeat : calm.

Lemma calm_is_pairing_active c : calm c (is_pairing_active E).
Proof. unfold is_pairing_active. calm. Qed.
Lemma calm_consent_deadline c : calm c (consent_deadline E).
Proof. unfold consent_deadline. calm. Qed.
Hint Resolve calm_is_pairing_active calm_consent_deadline : calm.
Lemma calm_ask_consent c r : calm c (ask_consent E r).
Proof. unfold ask_consent. calm. Qed.
Lemma calm_load_record c id : calm c (load_record E id).
Proof. unfold load_record. calm. Qed.
Lemma calm_load_authorization c id : calm c (load_authorization E id).
Proof. unfold load_authorization. calm. Qed.
Lemma calm_check_identity c h : calm c (check_identity E h).
Proof. unfold check_identity. calm. Qed.
Lemma calm_negotiate c h r : calm c (negotiate E h r).
Proof. unfold negotiate. calm. Qed.
Lemma calm_start_media c : calm c (start_media E).
Proof. unfold start_media. calm. Qed.
Lemma calm_exchange_trust c b : calm c (exchange_trust E b).
Proof. unfold exchange_trust. calm. Qed.
Lemma calm_save_pairing c r : calm c (save_pairing E r).
Proof. unfold save_pairing. calm. Qed.
Hint Resolve calm_ask_consent calm_load_record calm_load_authorization calm_check_identity calm_negotiate
  calm_start_media calm_exchange_trust calm_save_pairing : calm.

Lemma calm_handle_secure_attention c r : calm c (handle_secure_attention E r).
Proof. unfold handle_secure_attention. calm. Qed.
Lemma calm_request_key_frame c : calm c (request_key_frame E).
Proof. unfold request_key_frame. calm. Qed.
Lemma calm_update_bitrate c b : calm c (update_bitrate E b).
Proof. unfold update_bitrate. calm. Qed.
Hint Resolve calm_handle_secure_attention calm_request_key_frame calm_update_bitrate : calm.
Lemma calm_adjust_bitrate c b : calm c (adjust_bitrate E b).
Proof. unfold adjust_bitrate. calm. Qed.
Lemma calm_reject_stream c i r m : calm c (reject_stream E i r m).
Proof. unfold reject_stream. calm. Qed.
Hint Resolve calm_adjust_bitrate calm_reject_stream : calm.
Lemma calm_configure_stream c r : calm c (configure_stream E r).
Proof. unfold configure_stream. calm. Qed.
Lemma calm_apply_options r d : calm true (apply_options E r d).
Proof. unfold apply_options. calm. Qed.
Hint Resolve calm_configure_stream calm_apply_options : calm.
Lemma calm_handle_stream_options r : calm true (handle_stream_options E r).
Proof. unfold handle_stream_options. calm. Qed.

End CalmParts.

#[export] Hint Resolve calm_send_tcp_packet calm_send_pairing_reject calm_send_session_end
  calm_send_permissions calm_read_frame calm_read_frame_until calm_check_stop calm_check_disconnect
  calm_update_geometry calm_replace_pipeline calm_restart_media calm_check_topology calm_check_admission
  calm_check_end calm_current_permissions calm_discover_udp_peer calm_start_sender calm_update_policy
  calm_heartbeat calm_is_pairing_active calm_ask_consent calm_load_record calm_load_authorization
  calm_check_identity calm_negotiate calm_start_media calm_exchange_trust calm_save_pairing
  calm_handle_secure_attention calm_request_key_frame calm_update_bitrate calm_adjust_bitrate
  calm_reject_stream calm_configure_stream calm_apply_options calm_handle_stream_options : calm.
#[export] Hint Extern 1 (calm _ (send_tcp_control _ _)) => apply calm_send_tcp_control; reflexivity : calm.

(** ** The invariant of the loop *)

Section Invariant.

Context (E : HostEnv).

Record log_inv (s : HostSession) : Prop := {
  li_ok : log_ok E (ho_log s);
  li_released d : unreleased d (ho_log s) = true ->
    ho_injected_input s = true /\ exists p, current (ho_log s) = Some p /\ device_allowed d p = true
}.

(** Before authentication nothing was injected, and a pairing that was granted
    is in the log with its trust. *)
Record before_auth (s : HostSession) : Prop := {
  ba_released d : unreleased d (ho_log s) = false;
  ba_preauth : ho_state s = SS_PreAuth -> ho_provisional s = None;
  ba_none : ho_provisional s = None -> ho_granted_pairing_id s = None;
  ba_granted r : ho_provisional s = Some r ->
    ho_granted_pairing_id s = Some (rec_id r) /\ FX_Granted r (ho_session_trust s) ∈ ho_log s
}.

Record after_auth (s : HostSession) : Prop := {
  aa_joined : joined (ho_log s) = true;
  aa_current : current (ho_log s) = Some (ho_effective_permissions s)
}.

Record loop_inv (s : HostSession) : Prop := {
  in_log : log_inv s;
  in_before : ho_state s <> SS_Authenticated -> before_auth s;
  in_after : ho_state s = SS_Authenticated -> after_auth s
}.

(** A session that serves its guest. *)
Definition serving (s : HostSession) : Prop := loop_inv s /\ ho_state s = SS_Authenticated.

(** A property quiet steps preserve. *)
Definition stable (P : HostSession -> Prop) : Prop := forall s s', quietly s s' -> P s -> P s'.

Lemma current_quiet l log : Forall (fun e => quiet e = true) l -> current (l ++ log) = current log.
Proof. induction 1 as [|[] l Q _ IH]; by cbn in *. Qed.
Lemma joined_quiet l log : Forall (fun e => quiet e = true) l -> joined (l ++ log) = joined log.
Proof. induction 1 as [|[] l Q _ IH]; by cbn in *. Qed.
Lemma unreleased_quiet d l log : Forall (fun e => quiet e = true) l -> unreleased d (l ++ log) = unreleased d log.
Proof. induction 1 as [|[] l Q _ IH]; by cbn in *. Qed.
Lemma effect_ok_quiet log e : quiet e = true -> effect_ok E log e.
Proof. destruct e; cbn; try done. intros Q K. by rewrite K in Q. Qed.
Lemma log_ok_quiet l log : Forall (fun e => quiet e = true) l -> log_ok E log -> log_ok E (l ++ log).
Proof.
  intros F K. induction F as [|e l Q _ IH]; [done|]. cbn. split; [by apply effect_ok_quiet|done].
Qed.

Lemma quietly_core s s' : quietly s s' ->
  ho_state s' = ho_state s /\ ho_effective_permissions s' = ho_effective_permissions s /\
  ho_provisional s' = ho_provisional s /\ ho_granted_pairing_id s' = ho_granted_pairing_id s /\
  ho_session_trust s' = ho_session_trust s /\ ho_injected_input s' = ho_injected_input s.
Proof. intros [C _]. unfold core in C. by simplify_eq. Qed.

Lemma quietly_log s s' : quietly s s' ->
  current (ho_log s') = current (ho_log s) /\ joined (ho_log s') = joined (ho_log s) /\
  (forall d, unreleased d (ho_log s') = unreleased d (ho_log s)) /\
  (log_ok E (ho_log s) -> log_ok E (ho_log s')) /\ (forall e, e ∈ ho_log s -> e ∈ ho_log s').
Proof.
  intros [_ (l & -> & F)]. split_and!.
  - by apply current_quiet.
  - by apply joined_quiet.
  - intros d. by apply unreleased_quiet.
  - by apply log_ok_quiet.
  - intros e I. apply elem_of_app. by right.
Qed.

Ltac use_quietly Q :=
  let C := fresh "C" in let L := fresh "L" in
  pose proof (quietly_core _ _ Q) as (?C & ?C & ?C & ?C & ?C & ?C);
  pose proof (quietly_log _ _ Q) as (?L & ?L & ?L & ?L & ?L).

Lemma stable_log_inv : stable log_inv.
Proof.
  intros s s' Q [K1 K2]. use_quietly Q. split; [auto|]. intros d. rewrite L1, C4, L. apply K2.
Qed.
Lemma stable_loop_inv : stable loop_inv.
Proof.
  intros s s' Q [K1 K2 K3]. pose proof Q as Q'. use_quietly Q.
  split; [by apply (stable_log_inv s s')| |]; rewrite C.
  - intros N. destruct (K2 N) as [B1 B4 B2 B3]. split.
    + intros d. by rewrite L1.
    + by rewrite C, C1.
    + by rewrite C1, C2.
    + intros r. rewrite C1, C2, C3. intros P. destruct (B3 r P). split; [done|]. by apply L3.
  - intros A. destruct (K3 A) as [A1 A2]. split; congruence.
Qed.
Lemma stable_serving : stable serving.
Proof.
  intros s s' Q [K1 K2]. split; [by apply (stable_loop_inv s s')|]. use_quietly Q. congruence.
Qed.

(** ** Statements between assertions

    A statement that goes on establishes [Q]; one that starts the next turn
    leaves the invariant of the loop, and one that leaves the loop that of the
    log. *)
Definition triple (P : HostSession -> Prop) {A} (m : step A) (Q : A -> HostSession -> Prop) : Prop :=
  forall s, P s ->
  match m s with
  | (Go a, s') => Q a s'
  | (Continue, s') => loop_inv s'
  | (Break, s') | (Fail _, s') => log_inv s'
  end.

Lemma triple_bind (P : HostSession -> Prop) {A B} (m : step A) (f : A -> step B) R Q :
  triple P m R -> (forall a, triple (R a) (f a) Q) -> triple P (m ≫= f) Q.
Proof.
  intros M F s H. unfold mbind, step_bind. specialize (M s H).
  destruct (m s) as [[a| | |e] s1]; [|done..]. by apply F.
Qed.

Lemma triple_consequence (P P' : HostSession -> Prop) {A} (m : step A) Q Q' :
  (forall s, P' s -> P s) -> (forall a s, Q a s -> Q' a s) -> triple P m Q -> triple P' m Q'.
Proof. intros HP HQ M s H. specialize (M s (HP _ H)). destruct (m s) as [[]]; auto. Qed.

Lemma triple_pre (P P' : HostSession -> Prop) {A} (m : step A) Q :
  (forall s, P' s -> P s) -> triple P m Q -> triple P' m Q.
Proof. intros HP. by apply triple_consequence. Qed.
Lemma triple_post (P : HostSession -> Prop) {A} (m : step A) Q Q' :
  (forall a s, Q a s -> Q' a s) -> triple P m Q -> triple P m Q'.
Proof. intros HQ. by apply triple_consequence. Qed.

Lemma triple_calm (P : HostSession -> Prop) c {A} (m : step A) :
  calm c m -> stable P -> (forall s, P s -> if c then loop_inv s else log_inv s) -> triple P m (fun _ => P).
Proof.
  intros M S K s H. destruct (M s) as [Q C]. pose proof (S _ _ Q H) as H'.
  assert (L : log_inv (m s).2). { specialize (K _ H'). destruct c; [apply K|done]. }
  destruct (m s) as [[a| | |e] s1] eqn:X; cbn in *; try done.
  specialize (C eq_refl). subst c. by apply K.
Qed.

Lemma triple_get (P : HostSession -> Prop) {A} (f : HostSession -> A) :
  triple P (get f) (fun a s => P s /\ a = f s).
Proof. intros s H. by split. Qed.
Lemma triple_put (P : HostSession -> Prop) f (Q : HostSession -> Prop) :
  (forall s, P s -> Q (f s)) -> triple P (put f) (fun _ => Q).
Proof. intros K s H. by apply K. Qed.
Lemma triple_ret (P : HostSession -> Prop) {A} (a : A) (Q : A -> HostSession -> Prop) :
  (forall s, P s -> Q a s) -> triple P (mret a) Q.
Proof. intros K s H. by apply K. Qed.
Lemma triple_ask (P : HostSession -> Prop) {A} (f : nat -> A) :
  stable P -> triple P (ask f) (fun a s => P s /\ exists n, a = f n).
Proof.
  intros S s H. cbn. split; [|by eexists]. apply (S s); [|done]. split; [done|by exists []].
Qed.
Lemma triple_fail (P : HostSession -> Prop) {A} e (Q : A -> HostSession -> Prop) :
  (forall s, P s -> log_inv s) -> triple P (fail e) Q.
Proof. intros K s H. by apply K. Qed.
Lemma triple_continue (P : HostSession -> Prop) {A} (Q : A -> HostSession -> Prop) :
  (forall s, P s -> loop_inv s) -> triple P continue_ Q.
Proof. intros K s H. by apply K. Qed.
Lemma triple_emit (P : HostSession -> Prop) e (Q : HostSession -> Prop) :
  (forall s, P s -> Q (set_ho_log (e :: ho_log s) s)) -> triple P (emit e) (fun _ => Q).
Proof. intros K s H. by apply K. Qed.
Lemma triple_lift (P : HostSession -> Prop) {X A} (f : X -> SessionError) (r : result X A) :
  (forall s, P s -> log_inv s) -> triple P (lift f r) (fun a s => P s /\ r = Ok a).
Proof. intros K s H. destruct r; cbn; [done|by apply K]. Qed.
Lemma triple_when (P : HostSession -> Prop) b m :
  (b = true -> triple P m (fun _ => P)) -> triple P (when b m) (fun _ => P).
Proof. intros K. destruct b; [auto|]. by apply triple_ret. Qed.
Lemma triple_pure (P : HostSession -> Prop) (F : Prop) {A} (m : step A) Q :
  (F -> triple P m Q) -> triple (fun s => P s /\ F) m Q.
Proof. intros K s [H f]. by apply K. Qed.

Lemma serving_loop s : serving s -> loop_inv s.
Proof. by intros []. Qed.
Lemma serving_log s : serving s -> log_inv s.
Proof. intros [H _]. apply (in_log s H). Qed.
Lemma loop_log s : loop_inv s -> log_inv s.
Proof. apply in_log. Qed.
Lemma stable_and P Q : stable P -> stable Q -> stable (fun s => P s /\ Q s).
Proof. intros SP SQ s s' q [HP HQ]. split; [by apply (SP s)|by apply (SQ s)]. Qed.
Lemma stable_const (F : Prop) : stable (fun _ => F).
Proof. by intros s s' q f. Qed.
Lemma stable_effective f : stable (fun s => f (ho_effective_permissions s)).
Proof. intros s s' q. by rewrite (proj1 (proj2 (quietly_core _ _ q))). Qed.

(** *** What the loud statements preserve *)

Lemma serving_in_force s f : serving s -> f (ho_effective_permissions s) = true -> in_force (ho_log s) f.
Proof.
  intros [H A] F. destruct (in_after s H A) as [J C]. split; [done|]. by eexists.
Qed.

Lemma allows_device p e : allows p e = true -> is_reset e = false -> device_allowed (device_of e) p = true.
Proof. by destruct e. Qed.

Lemma serving_injected s s' e ok :
  serving s -> event_permitted e (ho_effective_permissions s) = true ->
  ho_log s' = FX_Injected e ok :: ho_log s -> ho_state s' = ho_state s ->
  ho_effective_permissions s' = ho_effective_permissions s ->
  ho_injected_input s' = ho_injected_input s || ok -> serving s'.
Proof.
  intros H V L C1 C2 C3. pose proof H as [[[K1 K2] _ K3] A]. destruct (K3 A) as [A1 A2].
  split; [|congruence]. split; [split| |]; rewrite ?L.
  - cbn. split; [|done]. right. by apply serving_in_force.
  - intros d. cbn. destruct (is_reset (ie_event_type e)) eqn:R; [done|]. rewrite C3.
    intros [U|U]%orb_true_iff.
    + apply andb_true_iff in U as [-> D%bool_decide_eq_true]. split; [by rewrite orb_true_r|].
      eexists. split; [done|]. rewrite <- D. apply allows_device; [|done].
      unfold event_permitted in V. by apply andb_true_iff in V as [? _].
    + destruct (K2 d U) as [-> ?]. by split.
  - congruence.
  - intros _. split; cbn; rewrite ?L; cbn; congruence.
Qed.

Lemma serving_clipboard s e :
  serving s -> gp_clipboard (ho_effective_permissions s) = true ->
  (e = FX_ClipboardText match e with FX_ClipboardText t => t | _ => [] end \/
   e = FX_ClipboardImage match e with FX_ClipboardImage t => t | _ => [] end \/
   e = FX_Control match e with FX_Control m => m | _ => CM_Ping end) ->
  serving (set_ho_log (e :: ho_log s) s).
Proof.
  intros H V F. pose proof (serving_in_force s gp_clipboard H V) as I.
  pose proof H as [[[K1 K2] _ K3] A]. destruct (K3 A) as [A1 A2].
  split; [|done]. destruct e; destruct F as [F|[F|F]]; try discriminate F;
    (split; [split|done|by split]); cbn; try done; (split; [|done]); done.
Qed.

Lemma keep_send_clipboard m :
  triple (fun s => serving s /\ gp_clipboard (ho_effective_permissions s) = true)
    (send_tcp_control E m)
    (fun _ s => serving s /\ gp_clipboard (ho_effective_permissions s) = true).
Proof.
  unfold send_tcp_control.
  assert (S : stable (fun s => serving s /\ gp_clipboard (ho_effective_permissions s) = true)).
  { apply stable_and; [apply stable_serving|apply (stable_effective (fun p => gp_clipboard p = true))]. }
  eapply triple_bind; [apply (triple_calm _ false); [apply calm_lift|done|intros s [H _]; by apply serving_log]|].
  intros a. eapply triple_bind; [apply (triple_calm _ false); [apply calm_send_tcp_packet|done|intros s [H _]; by apply serving_log]|].
  intros []. apply triple_emit. intros s [H V]. split; [|done]. apply serving_clipboard; [done|done|]. auto.
Qed.
End Invariant.

Create HintDb stable.
#[export] Hint Resolve stable_serving stable_loop_inv stable_log_inv stable_and stable_const : stable.
#[export] Hint Extern 2 (stable (fun s => gp_clipboard (ho_effective_permissions s) = true)) =>
  apply (stable_effective (fun p => gp_clipboard p = true)) : stable.
#[export] Hint Extern 2 (stable (fun s => ?a = ho_effective_permissions s)) =>
  apply (stable_effective (fun p => a = p)) : stable.

#[export] Hint Extern 2 (stable (fun s => ?a = gp_clipboard (ho_effective_permissions s))) =>
  apply (stable_effective (fun p => a = gp_clipboard p)) : stable.

(** A calm statement keeps a stable assertion that implies the invariant. *)
Ltac exits :=
  intros ? ?; try match goal with |- if ?c then _ else _ => cbv iota end;
  repeat match goal with H : _ /\ _ |- _ => destruct H end;
  solve [assumption | by apply serving_log | by apply loop_log | by apply serving_loop].
Ltac stays := eauto 6 with stable.
Ltac calmly c := apply (triple_calm _ _ c); [solve [calm; auto with calm] | stays | exits].
(** The next statement is calm. *)
Ltac next c := eapply triple_bind; [calmly c | intros ?].

Section Loud.

Context (E : HostEnv).
Local Abbreviation serving := (serving E).
Local Abbreviation loop_inv := (loop_inv E).
Local Abbreviation log_inv := (log_inv E).
Local Abbreviation triple := (triple E).

Lemma keep_send_chunks l :
  triple (fun s => serving s /\ gp_clipboard (ho_effective_permissions s) = true) (send_chunks E l)
    (fun _ s => serving s /\ gp_clipboard (ho_effective_permissions s) = true).
Proof.
  induction l as [|chunk l IH]; cbn [send_chunks]; [by apply triple_ret|].
  eapply triple_bind; [apply keep_send_clipboard|intros []; apply IH].
Qed.

(** A block guarded by the clipboard permission. *)
Lemma keep_guarded b m :
  (b = true ->
   triple (fun s => serving s /\ gp_clipboard (ho_effective_permissions s) = true) m (fun _ => serving)) ->
  triple (fun s => serving s /\ (b = true -> gp_clipboard (ho_effective_permissions s) = true)) (when b m)
    (fun _ => serving).
Proof.
  intros K. destruct b; cbn [when].
  - eapply triple_consequence; [| |apply K; done]; [|done]. intros s [H1 H2]. auto.
  - apply triple_ret. by intros s [].
Qed.

Lemma keep_poll_text now : triple serving (poll_text E now) (fun _ => serving).
Proof.
  unfold poll_text. next false.
  eapply triple_bind; [apply triple_get|intros allowed].
  eapply triple_pre; [|apply keep_guarded].
  - intros s [H ->]. split; [done|]. intros B. bool_prop. done.
  - intros _. next false.
    apply triple_post with (Q := fun _ s => serving s /\ gp_clipboard (ho_effective_permissions s) = true);
      [by intros ? ? []|].
    apply triple_when. intros _. next false.
    destruct a1; [apply keep_send_clipboard|by apply triple_ret].
Qed.

Lemma keep_poll_image now : triple serving (poll_image E now) (fun _ => serving).
Proof.
  unfold poll_image. next false.
  eapply triple_bind; [apply triple_get|intros allowed].
  next false.
  eapply triple_pre; [|apply keep_guarded].
  - intros s [H ->]. split; [done|]. intros B. bool_prop. done.
  - intros _. next false.
    apply triple_post with (Q := fun _ s => serving s /\ gp_clipboard (ho_effective_permissions s) = true);
      [by intros ? ? []|].
    apply triple_when. intros _. next false. destruct a2; [|by apply triple_ret].
    case_if; [apply triple_fail; intros s [H _]; by apply serving_log|].
    next false. apply keep_send_chunks.
Qed.

Lemma keep_emit_clipboard e :
  (match e with FX_ClipboardText _ | FX_ClipboardImage _ => true | _ => false end) = true ->
  triple (fun s => serving s /\ gp_clipboard (ho_effective_permissions s) = true) (emit e) (fun _ => serving).
Proof.
  intros F. apply triple_emit. intros s [H V]. apply serving_clipboard; [done|done|]. destruct e; try done; auto.
Qed.

Lemma keep_handle_clipboard_text u : triple serving (handle_clipboard_text E u) (fun _ => serving).
Proof.
  unfold handle_clipboard_text. next false. next false.
  eapply triple_bind; [apply triple_get|intros allowed]. cbv zeta.
  eapply triple_pre; [|apply keep_guarded; intros _; by apply keep_emit_clipboard].
  intros s [H ->]. split; [done|]. intros B. bool_prop. done.
Qed.

Lemma keep_handle_image_chunk chunk : triple serving (handle_image_chunk E chunk) (fun _ => serving).
Proof.
  unfold handle_image_chunk. next false.
  eapply triple_bind; [apply triple_get|intros allowed]. next false.
  case_if; [|apply triple_pre with (P := serving); [by intros s []|calmly false]].
  subst. apply triple_pre with (P := fun s => serving s /\ gp_clipboard (ho_effective_permissions s) = true);
    [intros s [K ?]; by split|].
  next false. destruct (assembly_push _ _ _ _) as [r images]. next false.
  destruct r as [[bytes|]|]; [|by apply triple_ret; intros ? []..].
  destruct (he_clipboard E); cbn [when]; [by apply keep_emit_clipboard|by apply triple_ret; intros ? []].
Qed.

(** *** Permissions *)

Lemma ceiling_within_policy p policy clipboard :
  within_policy E (intersect p (permission_ceiling E policy clipboard)) policy.
Proof.
  unfold within_policy, intersect, permission_ceiling, host_guest_capabilities. cbn.
  destruct (gp_keyboard p), (gp_mouse p), (gp_gamepad p), (gp_clipboard p), (gp_audio p), (hp_allow_input policy),
    (hp_allow_clipboard policy), (he_gamepad E), (he_wayland E), clipboard, (he_capture_audio E); cbn; split_and!; done.
Qed.

Lemma keep_current_permissions (P : HostSession -> Prop) :
  stable P -> triple P (current_permissions E) (fun p s => P s /\ exists n, within_policy E p (he_policy E n)).
Proof.
  intros S. unfold current_permissions. eapply triple_bind; [by apply triple_ask|]. intros policy.
  eapply triple_post; [|apply triple_get]. intros p s [[H [n ->]] ->]. split; [done|]. exists n.
  apply ceiling_within_policy.
Qed.

Lemma input_lost_device old new d :
  input_lost old new = false -> device_allowed d old = true -> device_allowed d new = true.
Proof.
  unfold input_lost. intros L D.
  destruct d; cbn in *; rewrite D in L; destruct (gp_keyboard new), (gp_mouse new), (gp_gamepad new), (gp_keyboard old),
    (gp_mouse old); done.
Qed.

(** The permissions change once nothing is pressed that they take away. *)
Lemma serving_permissions p s :
  serving s -> (exists n, within_policy E p (he_policy E n)) ->
  (input_lost (ho_effective_permissions s) p = true -> forall d, unreleased d (ho_log s) = false) ->
  serving (set_ho_log (FX_Permissions p :: ho_log s) (set_ho_effective_permissions p s)).
Proof.
  intros H N R. pose proof H as [[[K1 K2] _ K3] A]. destruct (K3 A) as [A1 A2].
  split; [|done]. split; [split|done|by split].
  - cbn. by split.
  - intros d. cbn. intros U. destruct (K2 d U) as (I & q & C & D). split; [done|]. exists p. split; [done|].
    destruct (input_lost (ho_effective_permissions s) p) eqn:L; [by rewrite R in U|].
    apply (input_lost_device (ho_effective_permissions s)); [done|congruence].
Qed.

Lemma serving_reset s n ok :
  serving s -> serving (set_ho_log (FX_Injected reset_event ok :: ho_log s) (set_ho_asked n s)).
Proof.
  intros H. pose proof H as [[[K1 K2] _ K3] A]. destruct (K3 A) as [A1 A2].
  split; [|done]. split; [split|done|by split].
  - cbn. split; [by left|done].
  - done.
Qed.

Lemma keep_refresh_permissions : triple serving (refresh_permissions E) (fun _ => serving).
Proof.
  unfold refresh_permissions.
  eapply triple_bind; [apply keep_current_permissions; stays|]. intros p.
  eapply triple_bind; [apply triple_get|]. intros old. cbv beta.
  case_bool_decide; cbn [when negb]; [apply triple_ret; by intros s [[? _] _]|].
  apply triple_bind with (R := fun _ s => serving s /\ (exists n, within_policy E p (he_policy E n)) /\
    (input_lost (ho_effective_permissions s) p = true -> forall d, unreleased d (ho_log s) = false)).
  - intros s [[K W] ->]. destruct (input_lost (ho_effective_permissions s) p) eqn:L; cbn [when].
    + cbn. split; [exact (serving_reset s _ _ K)|]. by split.
    + cbn. split; [done|]. split; [done|]. by rewrite L.
  - intros []. apply triple_bind with (R := fun _ => serving).
    + intros s (K & W & R). exact (serving_permissions p s K W R).
    + intros []. next false. calmly false.
Qed.

Lemma keep_handle_input sequence payload : triple serving (handle_input E sequence payload) (fun _ => serving).
Proof.
  unfold handle_input. next false.
  eapply triple_bind; [apply triple_get|]. intros p. next false. cbv zeta.
  case_if; [apply triple_pre with (P := serving); [by intros s []|]; calmly true|].
  bool_prop. apply triple_bind with (R := fun ok s => exists s0, serving s0 /\
    event_permitted (strip_modifiers p a) (ho_effective_permissions s0) = true /\
    ho_log s = FX_Injected (strip_modifiers p a) ok :: ho_log s0 /\ ho_state s = ho_state s0 /\
    ho_effective_permissions s = ho_effective_permissions s0 /\ ho_injected_input s = ho_injected_input s0).
  - intros s [K ->]. cbn. exists s. split_and!; try done. unfold event_permitted. apply andb_true_iff. split; [done|].
    unfold strip_modifiers. destruct (gp_keyboard (ho_effective_permissions s)); done.
  - intros ok. apply triple_bind with (R := fun _ => serving).
    + apply triple_put. intros s (s0 & K0 & V & L & C1 & C2 & C3).
      apply (serving_injected E s0 _ (strip_modifiers p a) ok); try done. cbn. by rewrite C3.
    + intros []. calmly false.
Qed.

Lemma keep_authenticated_work : triple loop_inv (authenticated_work E) (fun _ => loop_inv).
Proof.
  unfold authenticated_work. eapply triple_bind; [apply triple_get|]. intros auth.
  destruct auth; cbn [when]; [|apply triple_ret; by intros s []].
  apply triple_pre with (P := serving).
  { intros s [H A]. split; [done|]. unfold is_authenticated in A. symmetry in A. by apply bool_decide_eq_true in A. }
  apply triple_post with (Q := fun _ => serving); [by intros _ s []|].
  do 5 next false. eapply triple_bind; [apply keep_refresh_permissions|intros []].
  do 4 next false. eapply triple_bind; [apply keep_poll_image|intros []].
  do 2 next false. apply keep_poll_text.
Qed.

Lemma keep_handle_control payload : triple serving (handle_control E payload) (fun _ => serving).
Proof.
  unfold handle_control. next false. next false. case_if; [apply triple_fail, serving_log|].
  destruct a; try calmly true; [apply keep_handle_clipboard_text|apply keep_handle_image_chunk|unfold answer_rtt; calmly true].
Qed.

(** ** Pairing *)

(** What a statement returns, when it goes on. *)
Definition yields {A} (m : step A) (F : A -> Prop) : Prop := forall s a s', m s = (Go a, s') -> F a.

Lemma yields_any {A} (m : step A) : yields m (fun _ => True).
Proof. done. Qed.
Lemma yields_bind {A B} (m : step A) (f : A -> step B) F G :
  yields m F -> (forall a, F a -> yields (f a) G) -> yields (m ≫= f) G.
Proof.
  intros M H s b s'. unfold mbind, step_bind. destruct (m s) as [[a| | |e] s1] eqn:X; try done.
  intros Y. by apply (H a (M _ _ _ X) _ _ _ Y).
Qed.
Lemma yields_ask {A} (f : nat -> A) : yields (ask f) (fun a => exists n, a = f n).
Proof. intros s a s'. unfold ask. intros [= <- <-]. by eexists. Qed.
Lemma yields_ret {A} (a : A) (F : A -> Prop) : F a -> yields (mret a) F.
Proof. intros H s b s'. by intros [= <- <-]. Qed.
Lemma yields_fail {A} e (F : A -> Prop) : yields (fail e) F.
Proof. by intros s b s'. Qed.
Lemma yields_lift {X A} (f : X -> SessionError) (r : result X A) : yields (lift f r) (fun a => r = Ok a).
Proof. intros s a s'. destruct r; cbn; by intros [= <- <-]. Qed.

Lemma triple_yields (P : HostSession -> Prop) c {A} (m : step A) (F : A -> Prop) :
  calm c m -> yields m F -> stable P -> (forall s, P s -> if c then loop_inv s else log_inv s) ->
  triple P m (fun a s => P s /\ F a).
Proof.
  intros C Y S K s H. pose proof (triple_calm E P c m C S K s H) as T. specialize (Y s).
  destruct (m s) as [[]]; [split; [done|]; by eapply Y|done..].
Qed.

Definition pairing_was_active : Prop :=
  exists n k, pairing_is_active (he_pairing_deadline E) (he_lockout E n) (he_now E k) = true.

Lemma yields_is_pairing_active : yields (is_pairing_active E) (fun b => b = true -> pairing_was_active).
Proof.
  unfold is_pairing_active. eapply yields_bind; [apply yields_ask|]. intros now [k ->].
  eapply yields_bind; [apply yields_ask|]. intros lockout [n ->]. apply yields_ret. intros A. by exists n, k.
Qed.

Lemma yields_ask_consent r : yields (ask_consent E r) (fun t => exists n, he_consent E n = Some t).
Proof.
  unfold ask_consent. do 5 (eapply yields_bind; [apply yields_any|intros ? _]).
  eapply yields_bind; [apply yields_ask|]. intros approval [n ->].
  eapply yields_bind; [apply yields_any|intros ? _].
  destruct (he_consent E n) eqn:C; [apply yields_ret; by eexists|apply yields_fail].
Qed.

Lemma not_before s st : loop_inv s -> ho_state s = st -> st <> SS_Authenticated -> before_auth s.
Proof. intros H A N. apply (in_before E s H). congruence. Qed.

Lemma loop_inv_granted s record trust :
  loop_inv s -> ho_state s = SS_PreAuth -> ho_session_trust s = trust ->
  effect_ok E (ho_log s) (FX_Granted record trust) ->
  loop_inv (set_ho_state SS_PairingGranted (set_ho_provisional (Some record)
    (set_ho_granted_pairing_id (Some (rec_id record)) (set_ho_log (FX_Granted record trust :: ho_log s) s)))).
Proof.
  intros H A T O. pose proof (not_before s _ H A ltac:(done)) as [B1 B2 B3 B4]. destruct H as [[K1 K2] _ _].
  split; [split| |done].
  - cbn. by split.
  - intros d. cbn. intros U. by rewrite B1 in U.
  - intros _. split; cbn; try done. intros r [= <-]. rewrite T. split; [done|apply list_elem_of_here].
Qed.

Lemma loop_inv_trust s trust : loop_inv s -> ho_state s <> SS_Authenticated -> ho_provisional s = None ->
  loop_inv (set_ho_session_trust trust s).
Proof.
  intros H A N. pose proof (in_before E s H A) as [B1 B2 B3 B4]. destruct H as [[K1 K2] _ K3].
  split; [by split| |done]. intros _. split; cbn; try done. intros r P. congruence.
Qed.

Lemma stable_state st : stable (fun s => ho_state s = st).
Proof. intros s s' q. by rewrite (proj1 (quietly_core _ _ q)). Qed.
Lemma stable_provisional p : stable (fun s => ho_provisional s = p).
Proof. intros s s' q. by rewrite (proj1 (proj2 (proj2 (quietly_core _ _ q)))). Qed.
Lemma stable_trust t : stable (fun s => ho_session_trust s = t).
Proof. intros s s' q. by rewrite (proj1 (proj2 (proj2 (proj2 (proj2 (quietly_core _ _ q)))))). Qed.
Lemma stable_not_state st : stable (fun s => ho_state s <> st).
Proof. intros s s' q. by rewrite (proj1 (quietly_core _ _ q)). Qed.
Hint Resolve stable_state stable_not_state stable_provisional stable_trust : stable.

Lemma keep_grant_pairing request trust :
  he_identity E = BOOTSTRAP_IDENTITY -> (exists n, he_consent E n = Some (Some trust)) -> pairing_was_active ->
  triple (fun s => loop_inv s /\ ho_state s = SS_PreAuth) (grant_pairing E request trust) (fun _ => loop_inv).
Proof.
  intros B C P. unfold grant_pairing. do 2 next false.
  case_if; [apply triple_fail; exits|].
  apply triple_bind with (R := fun _ s => (loop_inv s /\ ho_state s = SS_PreAuth) /\ ho_session_trust s = trust).
  { apply triple_put. intros s [K A]. split; [|done]. split; [|done].
    apply loop_inv_trust; [done|congruence|]. by apply (ba_preauth s (not_before s _ K A ltac:(done))). }
  intros []. do 3 next false. cbv zeta. do 2 next false.
  intros s [[K A] T]. exact (loop_inv_granted s _ trust K A T (conj B (conj C P))).
Qed.

Lemma keep_handle_pairing_request payload :
  triple (fun s => loop_inv s /\ ho_state s = SS_PreAuth) (handle_pairing_request E payload) (fun _ => loop_inv).
Proof.
  unfold handle_pairing_request.
  eapply triple_bind.
  { apply (triple_yields _ false) with (F := fun a : bool => a = true -> he_identity E = BOOTSTRAP_IDENTITY).
    - calm. - case_bool_decide; [|by apply yields_ret]. by intros ????. - stays. - exits. }
  intros active. cbv beta. apply triple_pure. intros B. destruct active; cbn [negb].
  2:{ eapply triple_post; [|calmly true]. by intros ? ? []. }
  specialize (B eq_refl). next false.
  eapply triple_bind; [apply (triple_yields _ false); [calm|apply yields_ask_consent|stays|exits]|].
  intros approved. cbv beta. apply triple_pure. intros C. next false.
  eapply triple_bind.
  { apply (triple_yields _ false) with (F := fun a : bool => a = true -> pairing_was_active).
    - calm. - case_if; [by apply yields_ret|apply yields_is_pairing_active]. - stays. - exits. }
  intros again. cbv beta. apply triple_pure. intros A. destruct again; cbn [negb]; [|apply triple_fail; exits].
  destruct approved as [trust|]; [by apply keep_grant_pairing; auto|].
  eapply triple_post; [|calmly true]. by intros ? ? [].
Qed.

(** ** The handshake *)

(** Where the record of a handshake comes from. *)
Definition found (handshake : Handshake) (fresh : option PairingRecord) (record : PairingRecord)
    (trust : PairingTrust) : Prop :=
  match fresh with
  | Some r => record = r
  | None =>
    rec_id record = hs_pairing_id handshake /\
    exists n1 n2 n3 permissions,
      store_load (he_store E n1) (rec_id record) = Some record /\
      authorization (he_store E n2) (rec_id record) = Ok (trust, permissions) /\
      valid_trust trust (he_unix_ms E n3) = true
  end.

(** A handshake under way. *)
Definition shaking (fresh : option PairingRecord) (s : HostSession) : Prop :=
  loop_inv s /\ ho_state s <> SS_Authenticated /\ ho_provisional s = fresh.

Lemma stable_shaking fresh : stable (shaking fresh).
Proof.
  intros s s' q (K & A & P). split; [by apply (stable_loop_inv E s)|].
  pose proof (quietly_core _ _ q) as (C1 & _ & C2 & _). split; congruence.
Qed.
Lemma shaking_log fresh s : shaking fresh s -> log_inv s.
Proof. intros [K _]. by apply loop_log. Qed.

Lemma yields_load_record id :
  yields (load_record E id) (fun r => exists n, r = store_load (he_store E n) id).
Proof.
  unfold load_record. eapply yields_bind; [apply yields_any|intros ok _]. case_if; [apply yields_fail|].
  eapply yields_bind; [apply yields_ask|]. intros store [n ->]. apply yields_ret. by exists n.
Qed.
Lemma yields_load_authorization id :
  yields (load_authorization E id) (fun a => exists n, authorization (he_store E n) id = Ok a).
Proof.
  unfold load_authorization. eapply yields_bind; [apply yields_any|intros ok _]. case_if; [apply yields_fail|].
  eapply yields_bind; [apply yields_ask|]. intros store [n ->].
  intros s a s' H. exists n. by apply (yields_lift HE_Codec) in H.
Qed.

Lemma keep_find_record handshake fresh :
  triple (shaking fresh) (find_record E handshake fresh)
    (fun record s => shaking fresh s /\ found handshake fresh record (ho_session_trust s)).
Proof.
  unfold find_record. destruct fresh as [r|]; [by apply triple_ret|].
  pose proof (stable_shaking None) as S.
  eapply triple_bind; [apply (triple_yields _ false); [calm|apply yields_load_record|done|apply shaking_log]|].
  intros [record|]; cbv beta; apply triple_pure; intros [n1 L]; [|apply triple_fail; apply shaking_log].
  symmetry in L. pose proof (store_load_Some _ _ _ L) as [_ I].
  eapply triple_bind; [apply (triple_yields _ false); [calm|apply yields_load_authorization|done|apply shaking_log]|].
  intros [trust permissions]; cbv beta; apply triple_pure; intros [n2 Z].
  eapply triple_bind; [by apply triple_ask|]. intros now. cbv beta. apply triple_pure. intros [n3 ->].
  case_if; [apply triple_fail; apply shaking_log|].
  apply triple_bind with (R := fun _ s => shaking None s /\ ho_session_trust s = trust).
  { apply triple_put. intros s (K & A & P). split; [|done]. split; [|done]. by apply loop_inv_trust. }
  intros []. apply triple_bind with (R := fun _ s => shaking None s /\ ho_session_trust s = trust).
  { assert (S2 : stable (fun s => shaking None s /\ ho_session_trust s = trust)) by stays.
    apply (triple_calm _ _ false); [calm|done|]. intros s [K _]. by apply (shaking_log None). }
  intros []. apply triple_ret. intros s [K T]. split; [done|]. cbn. split; [done|].
  exists n1, n2, n3, permissions. rewrite T. split_and!; try done. by rewrite I.
Qed.

Lemma strip_prefix_Some s prefix rest : strip_prefix s prefix = Some rest -> s = prefix ++ rest.
Proof.
  unfold strip_prefix. case_bool_decide as H; [|done]. intros [= <-]. rewrite <- H at 1. symmetry. apply take_drop.
Qed.

Lemma granted_bootstrap log r t : log_ok E log -> FX_Granted r t ∈ log -> he_identity E = BOOTSTRAP_IDENTITY.
Proof.
  induction log as [|e log IH]; cbn; [by intros _ ?%not_elem_of_nil|].
  intros [O K] [<-|I]%elem_of_cons; [apply O|by apply IH].
Qed.

Lemma keep_check_identity handshake fresh record :
  triple (fun s => shaking fresh s /\ found handshake fresh record (ho_session_trust s))
    (check_identity E handshake)
    (fun _ s => shaking fresh s /\ admitted E (ho_log s) (rec_id record) (ho_session_trust s)).
Proof.
  intros s [[K [A P]] F]. pose proof (in_before E s K A) as [B1 B2 B3 B4].
  assert (X : log_inv s) by apply K. unfold check_identity.
  assert (G : forall r, fresh = Some r -> he_identity E = BOOTSTRAP_IDENTITY).
  { intros r ->. destruct (B4 r P) as [_ I]. by apply (granted_bootstrap _ _ _ (li_ok E s X) I). }
  destruct (strip_prefix (he_identity E) PAIRING_IDENTITY_PREFIX) as [id|] eqn:S.
  - case_bool_decide as D; [|done]. cbn. split; [done|]. left. apply strip_prefix_Some in S.
    destruct fresh as [r|]; [exfalso; specialize (G r eq_refl); rewrite S in G; discriminate G|].
    destruct F as [F (n1 & n2 & n3 & p & F1 & F2 & F3)]. split; [rewrite S; congruence|].
    by exists n1, n2, n3, record, p.
  - case_bool_decide as D; [|done]. unfold mbind, step_bind, get. cbn.
    destruct (ho_granted_pairing_id s) as [id|] eqn:GI; [|done]. case_bool_decide as DI; [|done]. cbn.
    split; [done|]. destruct fresh as [r|]; [|by specialize (B3 P)].
    cbn in F. subst r. destruct (B4 record P) as [_ I]. right. split; [done|]. by exists record.
Qed.

(** What is left of it once the provisional record is dropped. *)
Definition admitting (record : PairingRecord) (s : HostSession) : Prop :=
  log_inv s /\ (forall d, unreleased d (ho_log s) = false) /\
  admitted E (ho_log s) (rec_id record) (ho_session_trust s).

Lemma stable_admitted id : stable (fun s => admitted E (ho_log s) id (ho_session_trust s)).
Proof.
  intros s s' q. pose proof (quietly_core _ _ q) as (_ & _ & _ & _ & -> & _).
  pose proof (quietly_log E _ _ q) as (_ & _ & _ & _ & L).
  intros [?|[? (r & R & G)]]; [by left|right]. split; [done|]. exists r. auto.
Qed.
Lemma stable_admitting record : stable (admitting record).
Proof.
  intros s s' q (K & U & A). pose proof (quietly_log E _ _ q) as (_ & _ & Q & _).
  split; [by apply (stable_log_inv E s)|]. split; [intros d; by rewrite Q|]. by apply (stable_admitted _ s).
Qed.
Lemma admitting_log record s : admitting record s -> log_inv s.
Proof. by intros []. Qed.
Hint Resolve stable_shaking stable_admitted stable_admitting : stable.
Hint Resolve shaking_log admitting_log : core.

Lemma stable_in_force_of : stable (fun s => current (ho_log s) = Some (ho_effective_permissions s)).
Proof.
  intros s s' q. pose proof (quietly_core _ _ q) as (_ & -> & _). by pose proof (quietly_log E _ _ q) as (-> & _).
Qed.
Hint Resolve stable_in_force_of : stable.

Lemma admitting_permissions record p s :
  admitting record s -> (exists n, within_policy E p (he_policy E n)) ->
  admitting record (set_ho_log (FX_Permissions p :: ho_log s) (set_ho_effective_permissions p s)).
Proof.
  intros ([K1 K2] & U & A) W. split; [split|split].
  - cbn. by split.
  - intros d. cbn. intros V. by rewrite U in V.
  - done.
  - destruct A as [A|[B (r & R & G)]]; [by left|right]. split; [done|]. exists r. split; [done|].
    by apply list_elem_of_further.
Qed.

Lemma keep_join_guests record :
  triple (fun s => admitting record s /\ current (ho_log s) = Some (ho_effective_permissions s))
    (join_guests E record) (fun _ => serving).
Proof.
  intros s [([K1 K2] & U & A) C]. cbn. split; [|done]. split; [split|done|intros _; split; [done|exact C]].
  - cbn. by split.
  - intros d V. cbn in V. by rewrite U in V.
Qed.

Lemma keep_handle_handshake payload :
  triple (fun s => loop_inv s /\ ho_state s <> SS_Authenticated) (handle_handshake E payload) (fun _ => loop_inv).
Proof.
  unfold handle_handshake. next false. destruct a; [apply triple_fail; exits|]. next false.
  apply triple_bind with (R := shaking); [by intros s [K A]|]. intros fresh. cbv zeta.
  eapply triple_bind; [apply keep_find_record|]. intros record.
  eapply triple_bind; [apply keep_check_identity|]. intros [].
  assert (S1 : stable (fun s => shaking fresh s /\ admitted E (ho_log s) (rec_id record) (ho_session_trust s)))
    by stays.
  assert (X1 : forall s, shaking fresh s /\ admitted E (ho_log s) (rec_id record) (ho_session_trust s) -> log_inv s)
    by (intros s []; eauto).
  do 7 (eapply triple_bind; [apply (triple_calm _ _ false); [solve [calm; auto with calm]|exact S1|exact X1]|intros ?]).
  apply triple_bind with (R := fun _ => admitting record).
  { apply triple_put. intros s [(K & A & P) D]. split; [|split; [|exact D]].
    - destruct K as [[K1 K2] _ _]. by split.
    - apply (ba_released s (in_before E s K A)). }
  intros []. eapply triple_bind; [apply keep_current_permissions; stays|]. intros p.
  apply triple_bind with (R := fun _ s => admitting record s /\ current (ho_log s) = Some (ho_effective_permissions s)).
  { intros s [K W]. cbn. split; [exact (admitting_permissions record p s K W)|done]. }
  intros [].
  assert (S2 : stable (fun s => admitting record s /\ current (ho_log s) = Some (ho_effective_permissions s))) by stays.
  assert (X2 : forall s, admitting record s /\ current (ho_log s) = Some (ho_effective_permissions s) -> log_inv s)
    by (intros s []; eauto).
  do 2 (eapply triple_bind; [apply (triple_calm _ _ false); [solve [calm; auto with calm]|exact S2|exact X2]|intros ?]).
  eapply triple_bind; [apply keep_join_guests|]. intros [].
  apply triple_post with (Q := fun _ => serving); [by intros _ s []|]. do 6 next false. calmly false.
Qed.

(** ** The loop *)

Lemma keep_dispatch packet : triple loop_inv (dispatch E packet) (fun _ => loop_inv).
Proof.
  unfold dispatch. eapply triple_bind; [calmly false|]. intros [header payload].
  apply triple_bind with (R := fun st s => loop_inv s /\ ho_state s = st); [by intros s K|]. intros st.
  destruct (negb (state_allows st (ph_packet_type header))) eqn:N.
  { eapply triple_post; [|calmly true]. by intros ? ? []. }
  assert (Auth : triple (fun s => loop_inv s /\ ho_state s = SS_Authenticated) (handle_input E (ph_sequence header) payload)
    (fun _ => loop_inv)).
  { eapply triple_pre, triple_post, keep_handle_input; [done|]. by intros ? ? []. }
  assert (Control : triple (fun s => loop_inv s /\ ho_state s = SS_Authenticated) (handle_control E payload)
    (fun _ => loop_inv)).
  { eapply triple_pre, triple_post, keep_handle_control; [done|]. by intros ? ? []. }
  destruct (ph_packet_type header) eqn:T;
    try (by apply triple_ret; intros s []); destruct st; try discriminate N;
    rewrite ?bool_decide_true, ?bool_decide_false by done; try done.
  - eapply triple_pre; [|apply keep_handle_handshake]. intros s [K ->]. by split.
  - eapply triple_pre; [|apply keep_handle_handshake]. intros s [K ->]. by split.
  - apply keep_handle_pairing_request.
Qed.

Lemma keep_loop_turn : triple loop_inv (loop_turn E) (fun _ => loop_inv).
Proof.
  unfold loop_turn. do 4 next false. next true. next false.
  eapply triple_bind; [apply keep_authenticated_work|]. intros [].
  destruct a1 as [packet|]; [apply keep_dispatch|calmly true].
Qed.

Lemma loop_inv_initial : loop_inv (initial E).
Proof. split; [by split| |done]. intros _. by split. Qed.

Lemma run_loop_inv turns s :
  loop_inv s ->
  match run_loop E turns s with
  | (None, s') => loop_inv s'
  | (Some _, s') => log_inv s'
  end.
Proof.
  revert s. induction turns as [|turns IH]; intros s K; cbn [run_loop]; [done|].
  pose proof (keep_loop_turn s K) as T. destruct (loop_turn E s) as [[]]; [by apply IH|by apply IH|done|done].
Qed.

Lemma inject_input_eq e s :
  inject_input E e s =
  (Go (he_inject E (ho_asked s) e),
   set_ho_log (FX_Injected e (he_inject E (ho_asked s) e) :: ho_log s) (set_ho_asked (S (ho_asked s)) s)).
Proof. reflexivity. Qed.

(** The end of a session adds to the log at most a reset, and that if something
    was injected. *)
Lemma teardown_log s : exists pre ok post,
  ho_log (teardown E s) =
    pre ++ (if ho_injected_input s then [FX_Injected reset_event ok] else []) ++ post ++ ho_log s /\
  Forall (fun e => quiet e = true) pre /\ Forall (fun e => quiet e = true) post.
Proof.
  unfold teardown. exists (match ho_active_guest s with Some g => [FX_Left (gs_id g)] | None => [] end).
  eexists (he_inject E (ho_asked s) reset_event).
  exists ((if ms_pipeline (ho_media s) then [FX_MediaStopped] else []) ++
          (if ms_sender (ho_media s) then [FX_SenderStopped] else [])).
  destruct (ms_sender (ho_media s)), (ms_pipeline (ho_media s)), (ho_injected_input s) eqn:J; cbn; rewrite ?J;
    rewrite ?inject_input_eq; cbn; destruct (ho_active_guest s); cbn; by repeat constructor.
Qed.

Lemma handle_connection_log_ok turns : log_ok E (ho_log (handle_connection E turns).2).
Proof.
  unfold handle_connection. pose proof (run_loop_inv turns (initial E) loop_inv_initial) as T.
  destruct (run_loop E turns (initial E)) as [[r|] s]; [|apply T].
  destruct T as [T _]. cbn [snd]. destruct (teardown_log s) as (pre & ok & post & -> & F1 & F2).
  apply log_ok_quiet; [done|]. apply (log_ok_quiet E _ _ F2) in T.
  destruct (ho_injected_input s); [|done]. cbn. split; [by left|done].
Qed.

Lemma log_ok_suffix l1 e l2 : log_ok E (l1 ++ e :: l2) -> effect_ok E l2 e.
Proof. induction l1 as [|x l1 IH]; cbn; [by intros []|]. intros [_ K]. auto. Qed.

(** C3: no session without a pairing.  Whatever a peer sends, a guest joins the
    host only if the TLS identity of its connection is that of the guest's
    pairing and the store holds this pairing with a trust that is valid, or the
    connection was made with the bootstrap identity and the pairing was granted
    on it, after the host's user consented, with the trust the user gave, while
    pairing was open. *)
Theorem host_admits_only_paired turns later guest earlier :
  ho_log (handle_connection E turns).2 = later ++ FX_Joined guest :: earlier ->
  admitted E earlier (gs_pairing_id guest) (gs_trust guest) /\
  (forall record trust, FX_Granted record trust ∈ earlier ->
     he_identity E = BOOTSTRAP_IDENTITY /\ (exists n, he_consent E n = Some (Some trust)) /\ pairing_was_active).
Proof.
  intros L. pose proof (handle_connection_log_ok turns) as K. rewrite L in K. split.
  - by apply log_ok_suffix in K.
  - intros record trust I. apply list_elem_of_split in I as (l1 & l2 & ->).
    rewrite app_comm_cons, app_assoc in K. by apply log_ok_suffix in K.
Qed.


End Loud.

(** ** An example: a tablet pairs, presses a key and leaves *)

Definition toy_packet (t : PacketType) (payload : cresult (list byte)) : option (list byte) :=
  match (p ← payload; tcp_packet 0 t p) with Ok packet => Some packet | Err _ => None end.

Definition toy_key : InputEvent := mkInputEvent IE_KeyDown 0 0 30 MOD_SHIFT 0 0.

Definition toy_handshake : Handshake :=
  mkHandshake (str_bytes "tablet") 800 600 0x3f800000 PROTOCOL_VERSION CAP_AUTHENTICATED_UDP_REGISTRATION
    (str_bytes "P") (replicate 16 Byte.x05).

Definition toy_frames (n : nat) : result TlsError (option (list byte)) :=
  match n with
  | 0%nat => Ok (toy_packet PT_PairingRequest (PairingRequest_encode (mkPairingRequest (str_bytes "tablet"))))
  | 1%nat => Ok (toy_packet PT_Handshake (Handshake_encode toy_handshake))
  | 2%nat => Ok (toy_packet PT_InputEvent (InputEvent_encode toy_key))
  | 3%nat => Ok (toy_packet PT_Control (ControlMessage_encode CM_Disconnect))
  | _ => Err (TL_Io IK_WouldBlock false)
  end.

(** A host whose user lets an owner in, if [allow_input] with input. *)
Definition toy_env_at (frames : nat -> result TlsError (option (list byte))) (now : nat -> Instant)
    (restarts : bool) (store : PairingStore) (allow_input : bool) (identity : list byte) : HostEnv := {|
  he_host_name := str_bytes "desk"; he_logical_width := 800; he_logical_height := 600;
  he_pixel_width := 1600; he_pixel_height := 1200; he_scale_factor := 0x40000000;
  he_frames_per_second := 60; he_bitrate := 8000000; he_capture_audio := false; he_output_name := None;
  he_consent_sender := true; he_restart_factory := restarts; he_pairing_deadline := Some 10;
  he_identity := identity; he_tcp_peer := mkSocketAddr [] 7; he_admission_deadline := 10;
  he_gamepad := false; he_wayland := false; he_clipboard := false;
  he_hkdf := fun _ _ _ n => replicate (Z.to_nat n) Byte.x01; he_decrypt := fun _ _ _ _ => None;
  he_read_png := fun _ => true; he_now := now; he_unix_ms := fun _ => 5;
  he_lockout := fun _ => begin_pairing BootstrapLockout_default;
  he_policy := fun _ => mkHostPolicy allow_input false; he_displays := fun _ => [];
  he_aborted := fun _ => false; he_stop := fun _ => false; he_media_failed := fun _ => false;
  he_frame := frames; he_write := fun _ => Ok tt; he_consent_send := fun _ => true;
  he_consent := fun _ => Some (Some PT_Owner); he_uuid := fun _ => str_bytes "P";
  he_random_key := fun _ => replicate 32 Byte.x09; he_store := fun _ => store;
  he_store_ok := fun _ => true; he_commands := fun _ => []; he_recv_from := fun _ => UA_WouldBlock;
  he_clone_socket := fun _ => true; he_inject := fun _ _ => true; he_poll_image := fun _ => None;
  he_poll_text := fun _ => None; he_media_start := fun _ => true; he_error_text := fun _ => [];
  he_force_key_frame := fun _ => true; he_update_bitrate := fun _ => true; he_swap_send := fun _ => true;
  he_geometry := fun _ => None
|}.

Definition toy_env_with : PairingStore -> bool -> list byte -> HostEnv :=
  toy_env_at toy_frames (fun _ => 0) false.
Definition toy_env : bool -> list byte -> HostEnv := toy_env_with (mkPairingStore [] ∅).

Definition toy_record : PairingRecord :=
  mkPairingRecord (str_bytes "P") (str_bytes "tablet") (replicate 32 Byte.x09) 5.
Definition toy_guest : GuestSession :=
  mkGuestSession (str_bytes "P") (str_bytes "P") (str_bytes "tablet") (mkSocketAddr [] 7) PT_Owner 0.

(** What the properties look at, oldest first. *)
Definition loud_log (E : HostEnv) : list Effect :=
  rev (filter (fun e => quiet e = false) (ho_log (handle_connection E 9).2)).

(** The key is injected, and released at the end; if the host does not allow
    input it is not injected; and with another identity nothing happens. *)
Example toy_session :
  loud_log (toy_env true BOOTSTRAP_IDENTITY) =
    [FX_Granted toy_record PT_Owner; FX_Permissions (mkGuestPermissions true true false false false);
     FX_Joined toy_guest; FX_Injected toy_key true; FX_Injected reset_event true] /\
  loud_log (toy_env false BOOTSTRAP_IDENTITY) =
    [FX_Granted toy_record PT_Owner; FX_Permissions (mkGuestPermissions false false false false false);
     FX_Joined toy_guest] /\
  loud_log (toy_env true (str_bytes "maho-p1.P")) = [] /\
  (handle_connection (toy_env true BOOTSTRAP_IDENTITY) 9).1 = Some (Ok tt) /\
  (handle_connection (toy_env true (str_bytes "maho-p1.P")) 9).1 = Some (Err HE_UnknownPairing).
Proof. split_and!; by vm_compute. Qed.

Definition toy_log : list Effect := ho_log (handle_connection (toy_env true BOOTSTRAP_IDENTITY) 9).2.

Lemma host_admits_only_paired_witness :
  admitted (toy_env true BOOTSTRAP_IDENTITY) (drop 9 toy_log) (gs_pairing_id toy_guest) (gs_trust toy_guest) /\
  (forall record trust, FX_Granted record trust ∈ drop 9 toy_log ->
     he_identity (toy_env true BOOTSTRAP_IDENTITY) = BOOTSTRAP_IDENTITY /\
     (exists n, he_consent (toy_env true BOOTSTRAP_IDENTITY) n = Some (Some trust)) /\
     pairing_was_active (toy_env true BOOTSTRAP_IDENTITY)).
Proof.
  apply (host_admits_only_paired (toy_env true BOOTSTRAP_IDENTITY) 9 (take 8 toy_log) toy_guest (drop 9 toy_log)).
  vm_compute. reflexivity.
Defined.

