(* ===== verification/HostLiveness.v ===== *)
(** * The host's session: a paired device is served

    The counterpart of [HostSafety]: when the stream, the store and the media
    pipeline work, the handshake of a stored pairing whose trust holds is
    accepted, and the session it opens is the one it should be. *)

From S2P Require Import Prelude Codec Packet Handshake Pairing Input Parity Control Transport.
From S2P Require Import UdpGcm ClipboardImage Admission Guests HostState HostSession HostSafety.

(** A statement that goes on. *)
Definition total (P : HostSession -> Prop) {A} (m : step A) (Q : A -> HostSession -> Prop) : Prop :=
  forall s, P s -> exists a s', m s = (Go a, s') /\ Q a s'.

Lemma total_bind P {A B} (m : step A) (f : A -> step B) R Q :
  total P m R -> (forall a, total (R a) (f a) Q) -> total P (m ≫= f) Q.
Proof.
  intros M F s H. destruct (M s H) as (a & s1 & E1 & H1). destruct (F a s1 H1) as (b & s2 & E2 & H2).
  exists b, s2. unfold mbind, step_bind. by rewrite E1.
Qed.
Lemma total_pre (P P' : HostSession -> Prop) {A} (m : step A) Q :
  (forall s, P' s -> P s) -> total P m Q -> total P' m Q.
Proof. intros K M s H. apply M. auto. Qed.
Lemma total_post P {A} (m : step A) (Q Q' : A -> HostSession -> Prop) :
  (forall a s, Q a s -> Q' a s) -> total P m Q -> total P m Q'.
Proof. intros K M s H. destruct (M s H) as (a & s' & X & Y). exists a, s'. auto. Qed.
Lemma total_ret (P : HostSession -> Prop) {A} (a : A) (Q : A -> HostSession -> Prop) :
  (forall s, P s -> Q a s) -> total P (mret a) Q.
Proof. intros K s H. exists a, s. auto. Qed.
Lemma total_get (P : HostSession -> Prop) {A} (f : HostSession -> A) (Q : A -> HostSession -> Prop) :
  (forall s, P s -> Q (f s) s) -> total P (get f) Q.
Proof. intros K s H. exists (f s), s. auto. Qed.
Lemma total_put (P : HostSession -> Prop) f (Q : unit -> HostSession -> Prop) :
  (forall s, P s -> Q tt (f s)) -> total P (put f) Q.
Proof. intros K s H. exists tt, (f s). auto. Qed.
Lemma total_ask (P : HostSession -> Prop) {A} (f : nat -> A) (Q : A -> HostSession -> Prop) :
  (forall s n m, P s -> Q (f n) (set_ho_asked m s)) -> total P (ask f) Q.
Proof. intros K s H. exists (f (ho_asked s)), (set_ho_asked (S (ho_asked s)) s). auto. Qed.
Lemma total_emit (P : HostSession -> Prop) e (Q : unit -> HostSession -> Prop) :
  (forall s, P s -> Q tt (set_ho_log (e :: ho_log s) s)) -> total P (emit e) Q.
Proof. intros K s H. exists tt, (set_ho_log (e :: ho_log s) s). auto. Qed.
Lemma total_lift (P : HostSession -> Prop) {X A} (f : X -> SessionError) (a : A) (Q : A -> HostSession -> Prop) :
  (forall s, P s -> Q a s) -> total P (lift f (Ok a)) Q.
Proof. apply total_ret. Qed.
Lemma total_when (P : HostSession -> Prop) b m :
  total P m (fun _ => P) -> total P (when b m) (fun _ => P).
Proof. intros K. destruct b; [done|by apply total_ret]. Qed.

Lemma total_pure (P : HostSession -> Prop) (F : Prop) {A} (m : step A) Q :
  (F -> total P m Q) -> total (fun s => P s /\ F) m Q.
Proof. intros K s [H f]. by apply K. Qed.

(** Assertions about the variables a send leaves alone: those that ignore the
    counter and the log. *)
Definition lasting (P : HostSession -> Prop) : Prop :=
  (forall s n, P s -> P (set_ho_asked n s)) /\ (forall s l, P s -> P (set_ho_log l s)).

Lemma lasting_asked P {A} (f : nat -> A) (F : A -> Prop) :
  lasting P -> (forall n, F (f n)) -> total P (ask f) (fun a s => P s /\ F a).
Proof. intros [L _] H. apply total_ask. intros s n m K. split; auto. Qed.
Lemma lasting_emit P e : lasting P -> total P (emit e) (fun _ => P).
Proof. intros [_ L]. apply total_emit. auto. Qed.

Section Live.

Context (E : HostEnv).

(** The outside works, and the host's own name and displays fit the protocol. *)
Class Working : Prop := {
  wk_write n : he_write E n = Ok tt;
  wk_store n : he_store_ok E n = true;
  wk_media n : he_media_start E n = true;
  wk_displays n : HostDisplayList_wf (mkHostDisplayList (he_displays E n));
  wk_ack : Handshake_wf (handshake_ack E)
}.

Context `{W : Working}.

Lemma total_send_packet P t payload : lasting P -> total P (send_tcp_packet E t payload) (fun _ => P).
Proof.
  intros L. unfold send_tcp_packet.
  eapply total_bind; [apply (lasting_asked P _ (fun _ => True)); done|]. intros ms.
  apply total_bind with (R := fun _ => P); [apply total_lift; by intros s []|]. intros packet.
  apply total_bind with (R := fun a s => P s /\ a = Ok tt).
  { apply (lasting_asked P _ (fun a => a = Ok tt)); [done|apply wk_write]. }
  intros written s [H ->]. apply (lasting_emit P); [done|exact H].
Qed.

Lemma total_send_control P m : lasting P -> ControlMessage_wf m -> total P (send_tcp_control E m) (fun _ => P).
Proof.
  intros L M. destruct (ControlMessage_encode_total m M) as [bs B]. unfold send_tcp_control. rewrite B.
  apply total_bind with (R := fun _ => P); [by apply total_lift|]. intros payload.
  eapply total_bind; [by apply total_send_packet|]. intros []. by apply lasting_emit.
Qed.

Lemma total_send_permissions P p : lasting P -> total P (send_permissions E p) (fun _ => P).
Proof.
  intros L. unfold send_permissions.
  apply total_bind with (R := fun _ => P); [by apply total_get|]. intros b.
  apply total_bind with (R := fun _ => P); [by apply total_get|]. intros c.
  destruct b; [by apply total_send_control|]. apply total_when. by apply total_send_control.
Qed.

(** What no media start changes. *)
Definition without_media (P : HostSession -> Prop) : Prop := forall s m, P s -> P (set_ho_media m s).

Lemma total_start_media P : lasting P -> without_media P -> total P (start_media E) (fun _ => P).
Proof.
  intros L M. unfold start_media.
  apply total_bind with (R := fun a s => P s /\ a = true); [apply lasting_asked; [done|apply wk_media]|].
  intros a s [H ->]. revert s H. change (total P
    (_ ← emit (FX_MediaStarted None); put_media (fun m => set_ms_pipeline true (set_ms_receiver true m))) (fun _ => P)).
  eapply total_bind; [by apply lasting_emit|]. intros []. apply total_put. auto.
Qed.

(** ** The stored pairing *)

Context (handshake : Handshake) (record : PairingRecord) (trust : PairingTrust)
  (permissions : option GuestPermissions).

(** The store holds the pairing, with a trust that lasts; the identity is its
    own; the handshake offers what the host requires. *)
Class Paired : Prop := {
  pa_load n : store_load (he_store E n) (hs_pairing_id handshake) = Some record;
  pa_authorization n : authorization (he_store E n) (hs_pairing_id handshake) = Ok (trust, permissions);
  pa_valid n : valid_trust trust (he_unix_ms E n) = true;
  pa_wf : PairingTrust_wf trust;
  pa_key : len (rec_key record) = 32;
  pa_identity : he_identity E = PAIRING_IDENTITY_PREFIX ++ hs_pairing_id handshake;
  pa_handshake : Handshake_wf handshake;
  pa_registration : Capabilities_contains (hs_capabilities handshake) CAP_AUTHENTICATED_UDP_REGISTRATION = true
}.

Context `{K : Paired}.

Lemma paired_id : rec_id record = hs_pairing_id handshake.
Proof. by apply (store_load_Some (he_store E 0) _ _ (pa_load 0)). Qed.

(** The permissions of the pairing: those of the store, or what the session
    began with. *)
Definition granted (before : GuestPermissions) : GuestPermissions := default before permissions.

Definition trusted (p : GuestPermissions) (s : HostSession) : Prop :=
  ho_session_trust s = trust /\ ho_grant_permissions s = granted p.
Lemma lasting_trusted p : lasting (trusted p).
Proof. by split. Qed.
Lemma media_trusted p : without_media (trusted p).
Proof. intros s m H. exact H. Qed.

Lemma total_find_record p :
  total (fun s => ho_grant_permissions s = p) (find_record E handshake None)
    (fun r s => trusted p s /\ r = record).
Proof.
  unfold find_record, load_record, load_authorization. intros s H. cbn.
  unfold mbind, step_bind, ask. cbn. rewrite !wk_store. cbn. rewrite pa_load. cbn.
  rewrite !wk_store. cbn. rewrite paired_id, pa_authorization. cbn. rewrite pa_valid. cbn.
  unfold trusted, granted. destruct permissions as [q|] eqn:Q; cbn; do 2 eexists; (split; [done|]); by rewrite ?Q.
Qed.

Lemma total_check_identity P : total P (check_identity E handshake) (fun _ => P).
Proof.
  unfold check_identity. rewrite pa_identity. unfold strip_prefix.
  rewrite take_app_length, bool_decide_true, drop_app_length, bool_decide_true by done. by apply total_ret.
Qed.

(** The keys of the session. *)
Definition keyed (p : GuestPermissions) (s : HostSession) : Prop :=
  trusted p s /\
  Ok (ho_c2h_cipher s) = fmap (M:=result DatagramError) Some
    (DatagramCipher_derive (he_hkdf E) (rec_key record) (hs_session_salt handshake) ClientToHost) /\
  Ok (ho_h2c_cipher s) = fmap (M:=result DatagramError) Some
    (DatagramCipher_derive (he_hkdf E) (rec_key record) (hs_session_salt handshake) HostToClient) /\
  ho_peer_caps s = hs_capabilities handshake.

Lemma total_negotiate p : total (trusted p) (negotiate E handshake record) (fun _ => keyed p).
Proof.
  pose proof pa_handshake as (_ & _ & _ & _ & _ & V & _ & _ & _ & L).
  assert (D : forall d, exists c,
    DatagramCipher_derive (he_hkdf E) (rec_key record) (hs_session_salt handshake) d = Ok c).
  { intros d. unfold DatagramCipher_derive. rewrite pa_key, L. by eexists. }
  destruct (D ClientToHost) as [c1 E1], (D HostToClient) as [c2 E2].
  intros s [T1 T2]. unfold negotiate. rewrite V, E1, E2. cbn. rewrite pa_registration. cbn.
  do 2 eexists. split; [done|]. unfold keyed, trusted. rewrite E1, E2. by cbn.
Qed.

Lemma lasting_keyed p : lasting (keyed p).
Proof. split; intros s n H; exact H. Qed.
Lemma media_keyed p : without_media (keyed p).
Proof. intros s m H. exact H. Qed.

(** The permissions are in force. *)
Definition enabled (p : GuestPermissions) (s : HostSession) : Prop :=
  keyed p s /\
  exists n, ho_effective_permissions s =
    intersect (granted p) (permission_ceiling E (he_policy E n) (cs_sync (ho_clipboard s))).
Lemma lasting_enabled p : lasting (enabled p).
Proof. split; intros s n H; exact H. Qed.

(** The session that results. *)
Definition served (p : GuestPermissions) (s : HostSession) : Prop :=
  enabled p s /\ ho_state s = SS_Authenticated /\
  ho_audio_allowed s = gp_audio (ho_effective_permissions s) /\
  exists guest, ho_active_guest s = Some guest /\ gs_pairing_id guest = hs_pairing_id handshake /\
    gs_trust guest = trust.
Lemma lasting_served p : lasting (served p).
Proof. split; intros s n H; exact H. Qed.
Lemma media_served p : without_media (served p).
Proof. intros s m H. exact H. Qed.

Lemma total_current_permissions p :
  total (keyed p) (current_permissions E) (fun q s => keyed p s /\
    exists n, q = intersect (granted p) (permission_ceiling E (he_policy E n) (cs_sync (ho_clipboard s)))).
Proof.
  unfold current_permissions. intros s (T & C). do 2 eexists. split; [done|]. split; [by split|].
  exists (ho_asked s). cbn. by destruct T as [_ ->].
Qed.

Lemma total_set_effective p q :
  total (fun s => keyed p s /\
      exists n, q = intersect (granted p) (permission_ceiling E (he_policy E n) (cs_sync (ho_clipboard s))))
    (set_effective q) (fun _ s => enabled p s /\ ho_effective_permissions s = q).
Proof. intros s [T C]. do 2 eexists. split; [done|]. split; [|done]. by split. Qed.

Lemma total_exchange_trust p : total (keyed p) (exchange_trust E false) (fun _ => keyed p).
Proof.
  unfold exchange_trust. apply total_bind with (R := fun _ => keyed p); [by apply total_ret|]. intros [].
  apply total_bind with (R := fun t s => keyed p s /\ t = trust).
  { apply total_get. intros s H. split; [done|]. by destruct H as [[? _] _]. }
  intros t. apply total_pure. intros ->. apply total_send_control; [apply lasting_keyed|]. apply pa_wf.
Qed.

Lemma total_join p :
  total (fun s => enabled p s /\ ho_audio_allowed s = gp_audio (ho_effective_permissions s))
    (join_guests E record) (fun _ => served p).
Proof.
  intros s [H A]. unfold join_guests, mbind, step_bind, ask, get, put, emit. cbn. do 2 eexists. split; [done|].
  split; [exact H|]. split; [done|]. split; [done|]. eexists. split; [done|]. cbn. split; [apply paired_id|].
  by destruct H as [[[? _] _] _].
Qed.

End Live.

(** ** A guest that comes back *)

Definition toy_permissions : GuestPermissions := mkGuestPermissions false true false true false.
Definition toy_stored : PairingStore :=
  set_authorization (store_save (mkPairingStore [] ∅) toy_record) (str_bytes "P") (PT_GuestExpiring 9)
    (Some toy_permissions).
Definition toy_back : HostEnv := toy_env_with toy_stored true (str_bytes "maho-p1.P").

#[export] Instance toy_working : Working toy_back.
Proof. split; done. Qed.

#[export] Instance toy_paired :
  Paired toy_back toy_handshake toy_record (PT_GuestExpiring 9) (Some toy_permissions).
Proof. split; intros; by vm_compute. Qed.

