(* ===== verification/HostTermination.v ===== *)
(** * The host's session: a silent peer is dropped

    A session whose peer sends nothing more ends: before authentication at the
    admission deadline, after it by the heartbeat.  The loop has no bound of its
    own, so the number of turns is found from the clock, of which nothing is
    assumed but that it gets past every instant. *)

From S2P Require Import Prelude Codec Packet Handshake Pairing Input Parity Control Transport.
From S2P Require Import UdpGcm ClipboardImage Admission Guests HostState HostSession HostSafety.

(** What a turn without a packet leaves alone, and what only grows. *)
Record idle_step (s s' : HostSession) : Prop := {
  id_state : ho_state s' = ho_state s;
  id_pong : ho_last_pong s' = ho_last_pong s;
  id_asked : (ho_asked s <= ho_asked s')%nat;
  id_frames : (ho_frames s <= ho_frames s')%nat
}.

#[export] Instance idle_preorder : PreOrder idle_step.
Proof.
  split.
  - by intros s.
  - intros s1 s2 s3 [] []. split; (congruence || lia).
Qed.

(** [idle m]: [m] is such a step, and does not start the next turn. *)
Definition idle {A} (m : step A) : Prop := forall s, idle_step s (m s).2 /\ (m s).1 <> Continue.

Lemma idle_ret {A} (a : A) : idle (mret a).
Proof. intros s. by split. Qed.
Lemma idle_bind {A B} (m : step A) (f : A -> step B) :
  idle m -> (forall a, idle (f a)) -> idle (m ≫= f).
Proof.
  intros M F s. unfold mbind, step_bind. destruct (M s) as [Q C]. destruct (m s) as [[a| | |e] s1]; cbn in *.
  - destruct (F a s1) as [Q' C']. split; [by etrans|done].
  - done.
  - by split.
  - by split.
Qed.
Lemma idle_get {A} (f : HostSession -> A) : idle (get f).
Proof. intros s. by split. Qed.
Lemma idle_ask {A} (f : nat -> A) : idle (ask f).
Proof. intros s. split; [|done]. split; cbn; (done || lia). Qed.
Lemma idle_put f : (forall s, idle_step s (f s)) -> idle (put f).
Proof. intros H s. by split. Qed.
Lemma idle_put_media f : idle (put_media f).
Proof. apply idle_put. by split. Qed.
Lemma idle_put_clipboard f : idle (put_clipboard f).
Proof. apply idle_put. by split. Qed.
Lemma idle_emit e : idle (emit e).
Proof. intros s. by split. Qed.
Lemma idle_fail {A} e : idle (fail (A:=A) e).
Proof. intros s. by split. Qed.
Lemma idle_break {A} : idle (break_ (A:=A)).
Proof. intros s. by split. Qed.
Lemma idle_when b m : idle m -> idle (when b m).
Proof. intros M. destruct b; [done|apply idle_ret]. Qed.
Lemma idle_lift {X A} (f : X -> SessionError) (r : result X A) : idle (lift f r).
Proof. destruct r; [apply idle_ret|apply idle_fail]. Qed.
Lemma idle_ignore m : idle m -> idle (ignore_failure m).
Proof.
  intros M s. destruct (M s) as [Q C]. unfold ignore_failure. by destruct (m s) as [[[]| | |e] s1]; split.
Qed.

Create HintDb idle.
#[export] Hint Resolve idle_ret idle_get idle_ask idle_put_media idle_put_clipboard idle_fail idle_break
  idle_lift idle_emit : idle.

Ltac idle_part :=
  match goal with
  | |- forall _, _ => intros
  | _ => solve [auto with idle nocore]
  | |- idle (put _) => apply idle_put; by intros
  | |- idle (_ ≫= _) => apply idle_bind
  | |- idle (when _ _) => apply idle_when
  | |- idle (ignore_failure _) => apply idle_ignore
  | |- idle (if ?b then _ else _) => destruct b eqn:?
  | |- idle (match ?x with _ => _ end) => destruct x
  | |- idle (let _ := _ in _) => cbv zeta
  end.
Ltac idle := repeat idle_part.

Section Idle.

Context (E : HostEnv) (restarts : he_restart_factory E = true).

Lemma idle_send_tcp_packet t payload : idle (send_tcp_packet E t payload).
Proof. unfold send_tcp_packet. idle. Qed.
Hint Resolve idle_send_tcp_packet : idle.
Lemma idle_send_tcp_control m : idle (send_tcp_control E m).
Proof. unfold send_tcp_control. idle. Qed.
Hint Resolve idle_send_tcp_control : idle.
Lemma idle_send_session_end r : idle (send_session_end E r).
Proof. unfold send_session_end. idle. Qed.
Lemma idle_send_permissions p : idle (send_permissions E p).
Proof. unfold send_permissions. idle. Qed.
Lemma idle_inject_input e : idle (inject_input E e).
Proof. unfold inject_input. idle. Qed.
Hint Resolve idle_send_session_end idle_send_permissions idle_inject_input : idle.

Lemma idle_check_stop : idle (check_stop E).
Proof. unfold check_stop. idle. Qed.
Lemma idle_update_geometry : idle (update_geometry E).
Proof. unfold update_geometry. idle. Qed.
Lemma idle_replace_pipeline : idle replace_pipeline.
Proof. unfold replace_pipeline. idle. Qed.
Hint Resolve idle_check_stop idle_update_geometry idle_replace_pipeline : idle.
Lemma idle_restart_media b : idle (restart_media E b).
Proof. unfold restart_media. rewrite restarts. cbn [negb]. idle. Qed.
Hint Resolve idle_restart_media : idle.
Lemma idle_check_topology b : idle (check_topology E b).
Proof. unfold check_topology. idle. Qed.
Lemma idle_check_admission : idle (check_admission E).
Proof. unfold check_admission. idle. Qed.
Lemma idle_guest_commands l : idle (guest_commands E l).
Proof. induction l as [|[] l IH]; cbn [guest_commands]; idle. Qed.
Hint Resolve idle_check_topology idle_check_admission idle_guest_commands : idle.
Lemma idle_check_end : idle (check_end E).
Proof. unfold check_end. idle. Qed.
Lemma idle_current_permissions : idle (current_permissions E).
Proof. unfold current_permissions. idle. Qed.
Lemma idle_set_effective p : idle (set_effective p).
Proof. unfold set_effective. idle. Qed.
Hint Resolve idle_check_end idle_current_permissions idle_set_effective : idle.
Lemma idle_refresh_permissions : idle (refresh_permissions E).
Proof. unfold refresh_permissions. idle. Qed.
Lemma idle_discover_loop n d : idle (discover_loop E n d).
Proof. revert d. induction n; intros; cbn [discover_loop]; idle. Qed.
Hint Resolve idle_refresh_permissions idle_discover_loop : idle.
Lemma idle_discover_udp_peer : idle (discover_udp_peer E).
Proof. unfold discover_udp_peer. idle. Qed.
Lemma idle_start_sender : idle (start_sender E).
Proof. unfold start_sender. idle. Qed.
Lemma idle_send_chunks l : idle (send_chunks E l).
Proof. induction l; cbn [send_chunks]; idle. Qed.
Hint Resolve idle_discover_udp_peer idle_start_sender idle_send_chunks : idle.
Lemma idle_poll_image now : idle (poll_image E now).
Proof. unfold poll_image. idle. Qed.
Lemma idle_update_policy : idle (update_policy E).
Proof. unfold update_policy. idle. Qed.
Lemma idle_heartbeat now : idle (heartbeat E now).
Proof. unfold heartbeat. idle. Qed.
Lemma idle_poll_text now : idle (poll_text E now).
Proof. unfold poll_text. idle. Qed.
Hint Resolve idle_poll_image idle_update_policy idle_heartbeat idle_poll_text : idle.
Lemma idle_authenticated_work : idle (authenticated_work E).
Proof. unfold authenticated_work. idle. Qed.
Hint Resolve idle_authenticated_work : idle.
Lemma idle_check_disconnect p : idle (check_disconnect p).
Proof. unfold check_disconnect. idle. Qed.
Lemma idle_read_frame : idle (read_frame E).
Proof.
  intros s. unfold read_frame.
  destruct (he_frame E (ho_frames s)) as [p|[[] []|e|]]; cbn; (split; [split; cbn; (done || lia)|done]).
Qed.
Hint Resolve idle_check_disconnect idle_read_frame : idle.

(** ** A turn without a packet *)

(** The peer sends nothing any more. *)
Definition nothing_read (r : result TlsError (option (list byte))) : Prop :=
  match r with
  | Ok None | Err (TL_Io IK_WouldBlock _) | Err (TL_Io IK_TimedOut _) => True
  | _ => False
  end.
Definition peer_silent (s : HostSession) : Prop := forall n, (ho_frames s <= n)%nat -> nothing_read (he_frame E n).

Lemma peer_silent_idle s s' : idle_step s s' -> peer_silent s -> peer_silent s'.
Proof. intros [] P n L. apply P. lia. Qed.

(** [m] leaves the loop, or starts the next turn. *)
Definition turns {A} (m : step A) : Prop := forall s, peer_silent s ->
  match m s with
  | (Go _, _) => False
  | (Continue, s') => idle_step s s'
  | _ => True
  end.

Lemma turns_bind {A B} (m : step A) (f : A -> step B) :
  idle m -> (forall a, turns (f a)) -> turns (m ≫= f).
Proof.
  intros M F s P. unfold mbind, step_bind. destruct (M s) as [Q C]. destruct (m s) as [[a| | |e] s1]; cbn in *; [|done..].
  specialize (F a s1 (peer_silent_idle _ _ Q P)). destruct (f a s1) as [[]]; try done. by etrans.
Qed.

Lemma turns_read_frame {B} (f : option (list byte) -> step B) :
  turns (f None) -> turns (read_frame E ≫= f).
Proof.
  intros F s P. unfold mbind, step_bind, read_frame.
  assert (Q : idle_step s (set_ho_frames (S (ho_frames s)) s)) by (split; cbn; (done || lia)).
  specialize (P _ (le_n _)) as N. unfold nothing_read in N.
  destruct (he_frame E (ho_frames s)) as [[]|[[] ?|?|]]; try done.
  all:
    specialize (F _ (peer_silent_idle _ _ Q P)); destruct (f None _) as [[]]; try done; by etrans.
Qed.

Lemma turns_loop_turn : turns (loop_turn E).
Proof.
  unfold loop_turn. apply turns_bind; [idle|]. intros _. apply turns_bind; [idle|]. intros failed.
  apply turns_read_frame. do 4 (apply turns_bind; [idle|]; intros _). done.
Qed.

(** A step that starts with a question asks it. *)
Lemma asks {A B} (g : nat -> A) (f : A -> step B) s :
  (forall a, idle (f a)) -> (ho_asked s < ho_asked ((ask g ≫= f) s).2)%nat.
Proof.
  intros F. unfold mbind, step_bind, ask. destruct (F (g (ho_asked s)) (set_ho_asked (S (ho_asked s)) s)) as [[_ _ L _] _].
  cbn in *. lia.
Qed.

Lemma loop_turn_asks s s' : loop_turn E s = (Continue, s') -> peer_silent s -> (ho_asked s < ho_asked s')%nat.
Proof.
  intros T P. assert (L : (ho_asked s < ho_asked (check_stop E s).2)%nat).
  { unfold check_stop. apply asks. idle. }
  unfold loop_turn in T. unfold mbind at 1, step_bind at 1 in T.
  destruct (idle_check_stop s) as [Q C]. destruct (check_stop E s) as [[[]| | |e] s1]; cbn in *; try done.
  assert (R : turns (
    media_failed ← ask (he_media_failed E);
    packet ← read_frame E;
    _ ← check_disconnect packet;
    _ ← check_topology E media_failed;
    _ ← check_admission E;
    _ ← authenticated_work E;
    match packet with None => continue_ | Some packet => dispatch E packet end)).
  { apply turns_bind; [idle|]. intros failed.
    apply turns_read_frame. do 4 (apply turns_bind; [idle|]; intros _). done. }
  specialize (R s1 (peer_silent_idle _ _ Q P)). rewrite T in R. destruct R. lia.
Qed.

(** ** The turn that ends the session *)

Definition ends (P : HostSession -> Prop) {A} (m : step A) : Prop := forall s, P s ->
  match m s with (Break, _) | (Fail _, _) => True | _ => False end.

Definition preserved (P : HostSession -> Prop) : Prop := forall s s', idle_step s s' -> P s -> P s'.

Lemma ends_later P {A B} (m : step A) (f : A -> step B) :
  preserved P -> idle m -> (forall a, ends P (f a)) -> ends P (m ≫= f).
Proof.
  intros K M F s H. unfold mbind, step_bind. destruct (M s) as [Q C].
  destruct (m s) as [[a| | |e] s1]; cbn in *; try done. apply F. by apply (K s).
Qed.
Lemma ends_now P {A B} (m : step A) (f : A -> step B) : ends P m -> ends P (m ≫= f).
Proof.
  intros M s H. unfold mbind, step_bind. specialize (M s H). by destruct (m s) as [[a| | |e] s1].
Qed.
Lemma ends_get P {A B} (g : HostSession -> A) (f : A -> step B) a :
  (forall s, P s -> g s = a) -> ends P (f a) -> ends P (get g ≫= f).
Proof. intros G F s H. unfold mbind, step_bind, get. rewrite (G s H). by apply F. Qed.
Lemma ends_ask P {A B} (g : nat -> A) (F : A -> Prop) (f : A -> step B) :
  preserved P -> (forall s, P s -> F (g (ho_asked s))) -> (forall a, F a -> ends P (f a)) -> ends P (ask g ≫= f).
Proof.
  intros K G M s H. unfold mbind, step_bind, ask. apply M; [by apply G|]. apply (K s); [|done].
  split; cbn; (done || lia).
Qed.

(** Every reading of the clock from now on is past [t]. *)
Definition past (t : Instant) (s : HostSession) : Prop := forall n, (ho_asked s <= n)%nat -> t <= he_now E n.

Lemma preserved_and P Q : preserved P -> preserved Q -> preserved (fun s => P s /\ Q s).
Proof. intros HP HQ s s' H [? ?]. split; eauto. Qed.
Lemma preserved_past t : preserved (past t).
Proof. intros s s' [] P n L. apply P. lia. Qed.
Lemma preserved_state st : preserved (fun s => ho_state s = st).
Proof. intros s s' []. congruence. Qed.
Lemma preserved_pong t : preserved (fun s => ho_last_pong s = t).
Proof. intros s s' []. congruence. Qed.
Hint Resolve preserved_and preserved_past preserved_state preserved_pong : idle.

Lemma admission_ends st :
  st <> SS_Authenticated ->
  ends (fun s => ho_state s = st /\ past (he_admission_deadline E) s) (check_admission E).
Proof.
  intros N. unfold check_admission. apply ends_get with (a := false).
  { intros s [S _]. unfold is_authenticated. by rewrite S, bool_decide_false. }
  cbn [negb when]. eapply ends_ask with (F := fun now => he_admission_deadline E <= now).
  - auto with idle.
  - intros s [_ P]. by apply P.
  - intros now L s _. unfold checked_duration_since.
    destruct (now <=? he_admission_deadline E) eqn:X; cbn; [|done]. apply Z.leb_le in X.
    assert (he_admission_deadline E - now = 0) as -> by lia. done.
Qed.

Lemma heartbeat_ends pong now :
  pong + HEARTBEAT_TIMEOUT <= now -> ends (fun s => ho_last_pong s = pong) (heartbeat E now).
Proof.
  intros L. unfold heartbeat.
  apply ends_later; [auto with idle|idle|]. intros next. apply ends_later; [auto with idle|idle|]. intros _.
  apply ends_get with (a := pong); [done|]. intros s _. unfold saturating_duration_since, HEARTBEAT_TIMEOUT in *.
  rewrite (proj2 (Z.leb_le _ _)) by lia. done.
Qed.

Lemma work_ends pong :
  ends (fun s => ho_state s = SS_Authenticated /\ ho_last_pong s = pong /\ past (pong + HEARTBEAT_TIMEOUT) s)
    (authenticated_work E).
Proof.
  unfold authenticated_work. apply ends_get with (a := true).
  { intros s [S _]. unfold is_authenticated. by rewrite S, bool_decide_true. }
  cbn [when]. do 9 (apply ends_later; [auto 6 with idle|idle|]; intros ?).
  eapply ends_ask with (F := fun now => pong + HEARTBEAT_TIMEOUT <= now).
  - auto 6 with idle.
  - intros s (_&_&P). by apply P.
  - intros now L. do 2 (apply ends_later; [auto 6 with idle|idle|]; intros ?). apply ends_now.
    intros s (_&P&_). by apply (heartbeat_ends pong).
Qed.

(** When the clock is past the deadline and the timeout, the turn is the last. *)
Lemma loop_turn_ends s :
  past (Z.max (he_admission_deadline E) (ho_last_pong s + HEARTBEAT_TIMEOUT)) s ->
  match loop_turn E s with (Break, _) | (Fail _, _) => True | _ => False end.
Proof.
  intros P. set (Q := fun t => ho_state t = ho_state s /\ ho_last_pong t = ho_last_pong s /\
    past (Z.max (he_admission_deadline E) (ho_last_pong s + HEARTBEAT_TIMEOUT)) t).
  assert (K : preserved Q) by (unfold Q; auto 6 with idle).
  cut (ends Q (loop_turn E)). { intros M. by apply M. }
  unfold loop_turn. do 5 (apply ends_later; [done|idle|]; intros ?).
  destruct (decide (ho_state s = SS_Authenticated)) as [A|A].
  - apply ends_later; [done|idle|]. intros _. apply ends_now. intros t (T1&T2&T3).
    apply (work_ends (ho_last_pong s)). split_and!; [congruence|done|]. intros n L. specialize (T3 n L). lia.
  - apply ends_now. intros t (T1&T2&T3). apply (admission_ends (ho_state s) A). split; [done|].
    intros n L. specialize (T3 n L). lia.
Qed.

(** ** The run *)

Lemma run_loop_add m n s :
  run_loop E (m + n) s =
    match run_loop E m s with (None, s') => run_loop E n s' | r => r end.
Proof.
  revert s. induction m as [|m IH]; intros s; cbn [run_loop Nat.add]; [done|].
  destruct (loop_turn E s) as [[[]| | |e] s1]; auto.
Qed.

Lemma silent_turns k s :
  peer_silent s ->
  (exists j r, (run_loop E j s).1 = Some r) \/
  (exists s', run_loop E k s = (None, s') /\ idle_step s s' /\ (k <= ho_asked s')%nat).
Proof.
  intros P. induction k as [|k IH].
  - right. exists s. split_and!; [done|done|lia].
  - destruct IH as [?|(s1 & R & Q & L)]; [by left|].
    pose proof (peer_silent_idle _ _ Q P) as P1. pose proof (turns_loop_turn s1 P1) as T.
    pose proof (run_loop_add k 1 s) as X. rewrite R in X. cbn [run_loop] in X.
    replace (k + 1)%nat with (S k) in X by lia.
    destruct (loop_turn E s1) as [[[]| | |e] s2] eqn:Y; [done| | |].
    + right. exists s2. split_and!; [done|by etrans|]. pose proof (loop_turn_asks _ _ Y P1). lia.
    + left. by exists (S k), (Ok tt); rewrite X.
    + left. by exists (S k), (Err e); rewrite X.
Qed.

Lemma handle_connection_more turns more s r :
  handle_connection E turns = (None, s) -> (run_loop E more s).1 = Some r ->
  (handle_connection E (turns + more)).1 = Some r.
Proof.
  unfold handle_connection. rewrite run_loop_add.
  destruct (run_loop E turns (initial E)) as [[r'|] s']; intros X R; simplify_eq.
  destruct (run_loop E more s) as [[]]; by simplify_eq/=.
Qed.

(** C5: a session ends when its peer falls silent.  From whatever point of
    whatever session the peer sends nothing any more, the loop is left after
    finitely many turns, if only the clock gets past every instant: an admitted
    guest by the heartbeat, anyone else at the admission deadline.  (On a host
    that can restart its media: one that cannot starts the next turn early when
    its display is gone.) *)
Theorem silent_session_ends turns s :
  handle_connection E turns = (None, s) ->
  peer_silent s ->
  (forall t, exists n, forall m, (n <= m)%nat -> t <= he_now E m) ->
  exists more r, (handle_connection E (turns + more)).1 = Some r.
Proof.
  intros R P C. destruct (C (Z.max (he_admission_deadline E) (ho_last_pong s + HEARTBEAT_TIMEOUT))) as [n N].
  destruct (silent_turns n s P) as [(j & r & X)|(s1 & X & Q & L)].
  - exists j, r. by eapply handle_connection_more.
  - assert (Last : match loop_turn E s1 with (Break, _) | (Fail _, _) => True | _ => False end).
    { apply loop_turn_ends. rewrite (id_pong _ _ Q). intros m K. apply N. lia. }
    pose proof (run_loop_add n 1 s) as Y. rewrite X in Y. cbn [run_loop] in Y.
    destruct (loop_turn E s1) as [[[]| | |e] s2]; try done.
    + exists (n + 1)%nat, (Ok tt). eapply handle_connection_more; [done|]. by rewrite Y.
    + exists (n + 1)%nat, (Err e). eapply handle_connection_more; [done|]. by rewrite Y.
Qed.

End Idle.

(** A tablet that pairs and presses a key, and is heard of no more. *)
Definition toy_silent : HostEnv :=
  toy_env_at (fun n => if (n <? 3)%nat then toy_frames n else Err (TL_Io IK_WouldBlock false))
    (fun n => if (n <? 200)%nat then 0 else from_secs (Z.of_nat n)) true (mkPairingStore [] ∅) true BOOTSTRAP_IDENTITY.

Lemma silent_session_ends_witness :
  ho_state (handle_connection toy_silent 3).2 = SS_Authenticated /\
  exists more r, (handle_connection toy_silent (3 + more)).1 = Some r.
Proof.
  split; [by vm_compute|].
  apply (silent_session_ends toy_silent eq_refl 3 (handle_connection toy_silent 3).2).
  - by vm_compute.
  - intros n L. assert (E : ho_frames (handle_connection toy_silent 3).2 = 3%nat) by by vm_compute.
    rewrite E in L. cbn [he_frame toy_silent toy_env_at]. rewrite (proj2 (Nat.ltb_ge _ _) L). exact I.
  - intros t. exists (200 + Z.to_nat t)%nat. intros m L. cbn [he_now toy_silent toy_env_at].
    rewrite (proj2 (Nat.ltb_ge _ _)) by lia. unfold from_secs. lia.
Defined.
