(* ===== verification/HostSpeech.v ===== *)
(** * The host's session: it says only what its peer understands

    Some control messages belong to a capability both ends have to announce.
    The host's session checks the peer's at many places; this file shows that
    they cover everything it sends. *)

From S2P Require Import Prelude Codec Packet Handshake Pairing Input Parity Control Transport.
From S2P Require Import UdpGcm ClipboardImage Admission Guests HostState HostSession HostSafety.

Section Speech.

Context (E : HostEnv).

(** The message belongs to no capability, or to one both ends announced: the
    host in its acknowledgement, the peer in its handshake. *)
Definition understood (peer : Capabilities) (m : ControlMessage) : Prop :=
  supported_by (message_type m) (hs_capabilities (handshake_ack E)) peer = true.

Definition says (ok : ControlMessage -> Prop) (e : Effect) : Prop :=
  match e with FX_Control m => ok m | _ => True end.

(** What a step adds to the log, and what it leaves alone. *)
Record speech (ok : ControlMessage -> Prop) (s s' : HostSession) : Prop := {
  sp_caps : ho_peer_caps s' = ho_peer_caps s;
  sp_options : ho_peer_has_stream_options s' = ho_peer_has_stream_options s;
  sp_state : ho_state s' = ho_state s;
  sp_log : exists l, ho_log s' = l ++ ho_log s /\ Forall (says ok) l
}.

#[local] Instance speech_preorder ok : PreOrder (speech ok).
Proof.
  split.
  - intros s. split; [done..|]. by exists [].
  - intros s1 s2 s3 [A1 B1 C1 (l1 & L1 & F1)] [A2 B2 C2 (l2 & L2 & F2)]. split; [congruence..|].
    exists (l2 ++ l1). split; [by rewrite L2, L1, app_assoc|]. by apply Forall_app.
Qed.

Section Talking.

Context (c : Capabilities) (o : bool) (t : SessionState) (ok : ControlMessage -> Prop).

(** The peer's capabilities, whether it has stream options, the state. *)
Definition knows (s : HostSession) : Prop :=
  ho_peer_caps s = c /\ ho_peer_has_stream_options s = o /\ ho_state s = t.

Definition speaks (k : bool) {A} (m : step A) : Prop :=
  forall s, knows s -> speech ok s (m s).2 /\ ((m s).1 = Continue -> k = true).

Lemma knows_speech s s' : speech ok s s' -> knows s -> knows s'.
Proof. intros [] (?&?&?). unfold knows. split_and!; congruence. Qed.

Lemma speaks_ret k {A} (a : A) : speaks k (mret a).
Proof. intros s _. by split. Qed.
Lemma speaks_bind k {A B} (m : step A) (f : A -> step B) :
  speaks k m -> (forall a, speaks k (f a)) -> speaks k (m ≫= f).
Proof.
  intros M F s K. unfold mbind, step_bind. destruct (M s K) as [Q C].
  destruct (m s) as [[a| | |e] s1]; cbn in *; [|split; auto; done..].
  destruct (F a s1 (knows_speech _ _ Q K)) as [Q' C']. split; [by etrans|done].
Qed.
Lemma speaks_get_known k {A B} (g : HostSession -> A) (f : A -> step B) a :
  (forall s, knows s -> g s = a) -> speaks k (f a) -> speaks k (get g ≫= f).
Proof. intros G F s K. unfold mbind, step_bind, get. rewrite (G s K). by apply F. Qed.
Lemma speaks_get k {A} (f : HostSession -> A) : speaks k (get f).
Proof. intros s _. by split. Qed.
Lemma speaks_ask k {A} (f : nat -> A) : speaks k (ask f).
Proof. intros s _. split; [|done]. split; [done..|]. by exists []. Qed.
Lemma speaks_put k f : (forall s, speech ok s (f s)) -> speaks k (put f).
Proof. intros H s _. by split. Qed.
Lemma speaks_put_media k f : speaks k (put_media f).
Proof. apply speaks_put. intros s. split; [done..|]. by exists []. Qed.
Lemma speaks_put_clipboard k f : speaks k (put_clipboard f).
Proof. apply speaks_put. intros s. split; [done..|]. by exists []. Qed.
Lemma speaks_emit k e : says ok e -> speaks k (emit e).
Proof. intros H s _. split; [|done]. split; [done..|]. exists [e]. by repeat constructor. Qed.
Lemma speaks_fail k {A} e : speaks k (fail (A:=A) e).
Proof. intros s _. by split. Qed.
Lemma speaks_break k {A} : speaks k (break_ (A:=A)).
Proof. intros s _. by split. Qed.
Lemma speaks_continue {A} : speaks true (continue_ (A:=A)).
Proof. intros s _. by split. Qed.
Lemma speaks_when k b m : (b = true -> speaks k m) -> speaks k (when b m).
Proof. intros M. destruct b; [by apply M|apply speaks_ret]. Qed.
Lemma speaks_lift k {X A} (f : X -> SessionError) (r : result X A) : speaks k (lift f r).
Proof. destruct r; [apply speaks_ret|apply speaks_fail]. Qed.
Lemma speaks_ignore k m : speaks k m -> speaks k (ignore_failure m).
Proof.
  intros M s K. destruct (M s K) as [Q C]. unfold ignore_failure. by destruct (m s) as [[[]| | |e] s1]; split.
Qed.

End Talking.

End Speech.

Create HintDb speaks.
#[export] Hint Resolve speaks_ret speaks_get speaks_ask speaks_put_media speaks_put_clipboard speaks_fail
  speaks_break speaks_continue speaks_lift : speaks.

(** Goes through the statements of a definition.  What is known of the state is
    put in the place of the variable it is read from, and a message is looked up
    in the table of capabilities. *)
Ltac speak_step :=
  match goal with
  | |- forall _, _ => intros
  | _ => solve [auto with speaks nocore]
  | |- speaks _ _ _ _ _ (put _) => apply speaks_put; intros ?; split; [done..|by exists []]
  | |- speaks _ _ _ _ _ (emit _) => apply speaks_emit; exact I
  | |- speaks ?c _ _ _ _ (get (fun s => peer_has s ?cap) ≫= _) =>
      apply (speaks_get_known _ _ _ _ _ _ _ (Capabilities_contains c cap)); [intros ? (K & _ & _); unfold peer_has; rewrite K; reflexivity|]
  | |- speaks _ ?o _ _ _ (get ho_peer_has_stream_options ≫= _) =>
      apply (speaks_get_known _ _ _ _ _ _ _ o); [by intros ? (_ & K & _)|]
  | |- speaks ?c _ _ _ _ (get ho_peer_caps ≫= _) =>
      apply (speaks_get_known _ _ _ _ _ _ _ c); [by intros ? (K & _ & _)|]
  | |- speaks _ _ ?t _ _ (get is_authenticated ≫= _) =>
      apply (speaks_get_known _ _ _ _ _ _ _ (bool_decide (t = SS_Authenticated)));
      [intros ? (_ & _ & K); unfold is_authenticated; by rewrite K|]
  | |- speaks _ _ _ _ _ (_ ≫= _) => apply speaks_bind
  | |- speaks _ _ _ _ _ (when _ _) => apply speaks_when
  | |- speaks _ _ _ _ _ (ignore_failure _) => apply speaks_ignore
  | |- speaks _ _ _ _ _ (if ?b then _ else _) => destruct b eqn:?
  | |- speaks _ _ _ _ _ (match ?x with _ => _ end) => destruct x
  | |- speaks _ _ _ _ _ (let _ := _ in _) => cbv zeta
  end.
Ltac speak := repeat speak_step.
Ltac speak_next := apply speaks_bind; [solve [speak]|intros ?].

(** ** The parts of the session *)

Section Parts.

Context (E : HostEnv) (c : Capabilities) (o : bool) (t : SessionState) (ok : ControlMessage -> Prop).

(** Whatever the peer understands may be said. *)
Definition talk : Prop := forall m, understood E c m -> ok m.

Lemma host_announces cap :
  cap ∈ [CAP_HOST_STATUS; CAP_SESSION_ENDED; CAP_GUEST_PERMISSIONS; CAP_PAIRING_TRUST; CAP_RTT_PROBE] ->
  Capabilities_contains (hs_capabilities (handshake_ack E)) cap = true.
Proof.
  intros I. cbn [handshake_ack hs_capabilities]. unfold host_guest_capabilities.
  destruct (he_gamepad E), (he_wayland E);
    repeat (apply elem_of_cons in I as [->|I]; [vm_compute; reflexivity|]); by apply elem_of_nil in I.
Qed.

Lemma host_announces_clipboard :
  Capabilities_contains (host_guest_capabilities E) CAP_CLIPBOARD_IMAGE = true ->
  Capabilities_contains (hs_capabilities (handshake_ack E)) CAP_CLIPBOARD_IMAGE = true.
Proof.
  cbn [handshake_ack hs_capabilities]. unfold host_guest_capabilities.
  destruct (he_gamepad E), (he_wayland E); vm_compute; intros H; (reflexivity || discriminate H).
Qed.

Lemma no_secure_attention : Capabilities_contains (local_capabilities E) CAP_SECURE_ATTENTION = false.
Proof.
  unfold local_capabilities, host_guest_capabilities. by destruct (he_gamepad E), (he_wayland E); vm_compute.
Qed.

(** A message of a capability the peer announced, and one of none. *)
Lemma talk_of m cap :
  talk -> required_capability (message_type m) = Some cap ->
  Capabilities_contains (hs_capabilities (handshake_ack E)) cap = true ->
  Capabilities_contains c cap = true -> ok m.
Proof. intros T R A P. apply T. unfold understood, supported_by. by rewrite R, A, P. Qed.
Lemma talk_free m : talk -> required_capability (message_type m) = None -> ok m.
Proof. intros T R. apply T. unfold understood, supported_by. by rewrite R. Qed.

Local Abbreviation speaks := (speaks c o t ok).

Lemma speaks_send_tcp_packet k ty payload : speaks k (send_tcp_packet E ty payload).
Proof. unfold send_tcp_packet. speak. Qed.
Hint Resolve speaks_send_tcp_packet : speaks.
Lemma speaks_send k m : ok m -> speaks k (send_tcp_control E m).
Proof. intros H. unfold send_tcp_control. speak. by apply speaks_emit. Qed.
Lemma speaks_send_free k m :
  talk -> required_capability (message_type m) = None -> speaks k (send_tcp_control E m).
Proof. intros. apply speaks_send. by apply talk_free. Qed.
Lemma speaks_send_announced k m cap :
  talk -> required_capability (message_type m) = Some cap ->
  cap ∈ [CAP_HOST_STATUS; CAP_SESSION_ENDED; CAP_GUEST_PERMISSIONS; CAP_PAIRING_TRUST; CAP_RTT_PROBE] ->
  Capabilities_contains c cap = true -> speaks k (send_tcp_control E m).
Proof. intros T R I P. apply speaks_send. eapply talk_of; [done|done| |done]. by apply host_announces. Qed.

Lemma speaks_send_pairing_reject k r : speaks k (send_pairing_reject E r).
Proof. unfold send_pairing_reject. speak. Qed.
Lemma speaks_read_frame k : speaks k (read_frame E).
Proof.
  intros s _. unfold read_frame.
  destruct (he_frame E (ho_frames s)) as [p|[[] []|e|]]; cbn; (split; [split; [done..|by exists []]|done]).
Qed.
Lemma speaks_read_frame_until k : speaks k (read_frame_until_admission E).
Proof.
  intros s _. unfold read_frame_until_admission.
  destruct (he_frame E (ho_frames s)); cbn; (split; [split; [done..|by exists []]|done]).
Qed.
Lemma speaks_inject_input k e : speaks k (inject_input E e).
Proof. unfold inject_input. speak. Qed.
Hint Resolve speaks_send_pairing_reject speaks_read_frame speaks_read_frame_until speaks_inject_input : speaks.

Hint Extern 1 (speaks _ (send_tcp_control _ _)) => apply speaks_send_free; [assumption|reflexivity] : speaks.
Hint Extern 2 (speaks _ (send_tcp_control _ _)) =>
  eapply speaks_send_announced; [assumption|reflexivity|set_solver|assumption] : speaks.

Lemma speaks_send_session_end k r : talk -> speaks k (send_session_end E r).
Proof.
  intros T. unfold send_session_end. speak_step. destruct (Capabilities_contains c CAP_SESSION_ENDED) eqn:C; speak.
Qed.
Lemma speaks_send_permissions k p : talk -> speaks k (send_permissions E p).
Proof. intros T. unfold send_permissions. speak. Qed.
Hint Extern 1 (speaks _ (send_session_end _ _)) => apply speaks_send_session_end; assumption : speaks.
Hint Extern 1 (speaks _ (send_permissions _ _)) => apply speaks_send_permissions; assumption : speaks.

Lemma speaks_check_disconnect k p : speaks k (check_disconnect p).
Proof. unfold check_disconnect. speak. Qed.
Lemma speaks_update_geometry k : speaks k (update_geometry E).
Proof. unfold update_geometry. speak. Qed.
Lemma speaks_replace_pipeline k : speaks k replace_pipeline.
Proof. unfold replace_pipeline. speak. Qed.
Hint Resolve speaks_check_disconnect speaks_update_geometry speaks_replace_pipeline : speaks.

(** Before authentication nothing is said: no stream was configured yet. *)
Lemma speaks_check_stop k : (t = SS_Authenticated -> talk) -> speaks k (check_stop E).
Proof.
  intros T. unfold check_stop. do 3 speak_next. apply speaks_bind; [speak|]. intros aborted.
  destruct aborted; [speak|]. speak_next. apply speaks_when. intros _.
  speak_step.
  apply speaks_bind; [|speak]. apply speaks_when. intros A%bool_decide_eq_true. specialize (T A). speak.
Qed.
Lemma speaks_restart_media failed : (o = true -> talk) -> speaks true (restart_media E failed).
Proof.
  intros T. unfold restart_media. speak.
  all: match goal with O : o = true |- _ => specialize (T O) end; speak.
Qed.
Lemma speaks_check_topology failed : (o = true -> talk) -> speaks true (check_topology E failed).
Proof.
  intros T. unfold check_topology. speak_next. speak_next.
  apply speaks_when. intros _. do 4 speak_next. cbv zeta. destruct (_ && _); [speak|].
  speak_step. apply speaks_bind.
  { apply speaks_when. intros [O _]%andb_prop. specialize (T O). speak. }
  intros _. speak_next. apply speaks_when. intros _. by apply speaks_restart_media.
Qed.
Lemma speaks_check_admission k : speaks k (check_admission E).
Proof. unfold check_admission. speak. Qed.
Hint Resolve speaks_check_admission : speaks.

(** ** Of an authenticated session, or in its handshake *)

Context (T : talk).

Lemma speaks_guest_commands k l : speaks k (guest_commands E l).
Proof. induction l as [|[] l IH]; cbn [guest_commands]; speak. Qed.
Hint Resolve speaks_guest_commands : speaks.
Lemma speaks_check_end k : speaks k (check_end E).
Proof. unfold check_end. speak. Qed.
Lemma speaks_current_permissions k : speaks k (current_permissions E).
Proof. unfold current_permissions. speak. Qed.
Lemma speaks_set_effective k p : speaks k (set_effective p).
Proof. unfold set_effective. speak. Qed.
Hint Resolve speaks_check_end speaks_current_permissions speaks_set_effective : speaks.
Lemma speaks_refresh_permissions k : speaks k (refresh_permissions E).
Proof. unfold refresh_permissions. speak. Qed.
Lemma speaks_discover_loop k n d : speaks k (discover_loop E n d).
Proof. revert d. induction n; intros; cbn [discover_loop]; speak. Qed.
Hint Resolve speaks_refresh_permissions speaks_discover_loop : speaks.
Lemma speaks_discover_udp_peer k : speaks k (discover_udp_peer E).
Proof. unfold discover_udp_peer. speak. Qed.
Lemma speaks_start_sender k : speaks k (start_sender E).
Proof. unfold start_sender. speak. Qed.
Hint Resolve speaks_discover_udp_peer speaks_start_sender : speaks.
Lemma speaks_send_chunks k l :
  Capabilities_contains c CAP_CLIPBOARD_IMAGE = true ->
  Capabilities_contains (host_guest_capabilities E) CAP_CLIPBOARD_IMAGE = true ->
  speaks k (send_chunks E l).
Proof.
  intros P A. induction l; cbn [send_chunks]; [speak|]. apply speaks_bind; [|speak]. apply speaks_send.
  eapply talk_of; [done|reflexivity|by apply host_announces_clipboard|done].
Qed.
Lemma speaks_poll_image k now : speaks k (poll_image E now).
Proof.
  unfold poll_image. do 2 speak_next. speak_step. apply speaks_when.
  intros [[[[_ _]%andb_prop P]%andb_prop A]%andb_prop _]%andb_prop. speak. by apply speaks_send_chunks.
Qed.
Lemma speaks_update_policy k : speaks k (update_policy E).
Proof. unfold update_policy. speak. Qed.
Lemma speaks_heartbeat k now : speaks k (heartbeat E now).
Proof. unfold heartbeat. speak. Qed.
Lemma speaks_poll_text k now : speaks k (poll_text E now).
Proof. unfold poll_text. speak. Qed.
Hint Resolve speaks_poll_image speaks_update_policy speaks_heartbeat speaks_poll_text : speaks.
Lemma speaks_work_inside k :
  speaks k (
    clipboard ← get (fun s => gp_clipboard (ho_effective_permissions s));
    _ ← when (negb clipboard) (put_clipboard (fun c => set_cs_images (assembly_cancel (cs_images c)) c));
    now ← ask (he_now E);
    _ ← put_clipboard (fun c => set_cs_images (assembly_expire (cs_images c) now) c);
    _ ← check_end E;
    _ ← refresh_permissions E;
    registered ← get (fun s => bool_decide (is_Some (ho_udp_peer s)));
    _ ← when (negb registered) (discover_udp_peer E);
    _ ← start_sender E;
    now ← ask (he_now E);
    _ ← poll_image E now;
    _ ← update_policy E;
    _ ← heartbeat E now;
    poll_text E now).
Proof. speak. Qed.

Lemma speaks_start_media k : speaks k (start_media E).
Proof. unfold start_media. speak. Qed.
Lemma speaks_save_pairing k r : speaks k (save_pairing E r).
Proof. unfold save_pairing. speak. Qed.
Lemma speaks_exchange_trust k fresh :
  Capabilities_contains c CAP_PAIRING_TRUST = true -> speaks k (exchange_trust E fresh).
Proof. intros P. unfold exchange_trust. speak. Qed.
Hint Resolve speaks_start_media speaks_save_pairing : speaks.

Lemma speaks_handle_input sequence payload : speaks true (handle_input E sequence payload).
Proof. unfold handle_input. speak. Qed.
Lemma speaks_handle_image_chunk k chunk : speaks k (handle_image_chunk E chunk).
Proof. unfold handle_image_chunk. speak. Qed.
Lemma speaks_request_key_frame k : speaks k (request_key_frame E).
Proof. unfold request_key_frame. speak. Qed.
Lemma speaks_update_bitrate k b : speaks k (update_bitrate E b).
Proof. unfold update_bitrate. speak. Qed.
Lemma speaks_reject_stream k i r m : speaks k (reject_stream E i r m).
Proof. unfold reject_stream. speak. Qed.
Hint Resolve speaks_handle_input speaks_handle_image_chunk speaks_request_key_frame speaks_update_bitrate
  speaks_reject_stream : speaks.
Lemma speaks_adjust_bitrate k b : speaks k (adjust_bitrate E b).
Proof. unfold adjust_bitrate. speak. Qed.
Lemma speaks_configure_stream k r : speaks k (configure_stream E r).
Proof. unfold configure_stream. speak. Qed.
Lemma speaks_apply_options r d : speaks true (apply_options E r d).
Proof. unfold apply_options. speak. Qed.
Hint Resolve speaks_adjust_bitrate speaks_configure_stream speaks_apply_options : speaks.
Lemma speaks_handle_stream_options r : speaks true (handle_stream_options E r).
Proof. unfold handle_stream_options. speak. Qed.
Lemma speaks_handle_clipboard_text k u : speaks k (handle_clipboard_text E u).
Proof. unfold handle_clipboard_text. speak. Qed.
Hint Resolve speaks_handle_stream_options speaks_handle_clipboard_text : speaks.

(** The answer to a message belongs to the capability of the message. *)
Lemma speaks_handle_control payload : speaks true (handle_control E payload).
Proof.
  unfold handle_control. speak_next. speak_step. destruct (negb _) eqn:S; [speak|].
  apply negb_false_iff in S. destruct a; try (speak; fail).
  - (* SecureAttentionRequest *)
    exfalso. unfold supported_by in S. cbn [message_type required_capability] in S.
    by rewrite no_secure_attention in S.
  - (* RttPing *)
    unfold supported_by in S. cbn [message_type required_capability] in S. apply andb_prop in S as [_ S].
    unfold answer_rtt. speak.
Qed.
Hint Resolve speaks_handle_control : speaks.

End Parts.

(** The prefix of a handshake and a pairing, which say nothing. *)
Section Quiet.

Context (E : HostEnv) (c : Capabilities) (o : bool) (t : SessionState) (ok : ControlMessage -> Prop).
Local Abbreviation speaks := (speaks c o t ok).
Hint Resolve speaks_send_tcp_packet speaks_send_pairing_reject : speaks.

Lemma speaks_authenticated_work k : (t = SS_Authenticated -> talk E c ok) -> speaks k (authenticated_work E).
Proof.
  intros T. unfold authenticated_work. speak_step. apply speaks_when. intros A%bool_decide_eq_true.
  by apply speaks_work_inside, T.
Qed.

Lemma speaks_is_pairing_active k : speaks k (is_pairing_active E).
Proof. unfold is_pairing_active. speak. Qed.
Lemma speaks_consent_deadline k : speaks k (consent_deadline E).
Proof. unfold consent_deadline. speak. Qed.
Hint Resolve speaks_is_pairing_active speaks_consent_deadline : speaks.
Lemma speaks_ask_consent k r : speaks k (ask_consent E r).
Proof. unfold ask_consent. speak. Qed.
Lemma speaks_load_record k id : speaks k (load_record E id).
Proof. unfold load_record. speak. Qed.
Lemma speaks_load_authorization k id : speaks k (load_authorization E id).
Proof. unfold load_authorization. speak. Qed.
Hint Resolve speaks_ask_consent speaks_load_record speaks_load_authorization : speaks.
Lemma speaks_find_record k h fresh : speaks k (find_record E h fresh).
Proof. unfold find_record. speak. Qed.
Lemma speaks_check_identity k h : speaks k (check_identity E h).
Proof. unfold check_identity. speak. Qed.

End Quiet.

#[export] Hint Resolve speaks_send_tcp_packet speaks_send_pairing_reject speaks_read_frame speaks_check_disconnect
  speaks_check_admission speaks_is_pairing_active speaks_ask_consent speaks_find_record speaks_check_identity
  speaks_start_media : speaks.

(** ** The loop *)

Section Loop.

Context (E : HostEnv).

(** Everything said so far is understood; nothing was said. *)
Definition spoke (s : HostSession) : Prop := Forall (says (understood E (ho_peer_caps s))) (ho_log s).
Definition mute (s : HostSession) : Prop := Forall (says (fun _ => False)) (ho_log s).

Lemma mute_spoke s : mute s -> spoke s.
Proof. intros M. eapply Forall_impl; [exact M|]. by intros []. Qed.

Definition before (s : HostSession) : Prop :=
  mute s /\ ho_peer_has_stream_options s = false /\ ho_state s <> SS_Authenticated.

Record turn_inv (s : HostSession) : Prop := {
  ti_spoke : spoke s;
  ti_before : ho_state s <> SS_Authenticated -> before s
}.

Lemma before_turn s : mute s -> ho_peer_has_stream_options s = false -> turn_inv s.
Proof. intros M O. split; [by apply mute_spoke|]. by intros A. Qed.
Lemma authenticated_turn s : spoke s -> ho_state s = SS_Authenticated -> turn_inv s.
Proof. intros S A. by split. Qed.

Definition said (P : HostSession -> Prop) {A} (m : step A) (Q : A -> HostSession -> Prop) : Prop :=
  forall s, P s ->
  match m s with
  | (Go a, s') => Q a s'
  | (Continue, s') => turn_inv s'
  | (Break, s') | (Fail _, s') => spoke s'
  end.

Lemma said_bind P {A B} (m : step A) (f : A -> step B) R Q :
  said P m R -> (forall a, said (R a) (f a) Q) -> said P (m ≫= f) Q.
Proof.
  intros M F s H. unfold mbind, step_bind. specialize (M s H).
  destruct (m s) as [[a| | |e] s1]; [|done..]. by apply F.
Qed.
Lemma said_pre (P P' : HostSession -> Prop) {A} (m : step A) Q :
  (forall s, P' s -> P s) -> said P m Q -> said P' m Q.
Proof. intros K M s H. apply M. auto. Qed.
Lemma said_post P {A} (m : step A) (Q Q' : A -> HostSession -> Prop) :
  (forall a s, Q a s -> Q' a s) -> said P m Q -> said P m Q'.
Proof. intros K M s H. specialize (M s H). destruct (m s) as [[]]; auto. Qed.
Lemma said_get P {A} (f : HostSession -> A) : said P (get f) (fun a s => P s /\ a = f s).
Proof. intros s H. by split. Qed.
Lemma said_put (P : HostSession -> Prop) f (Q : HostSession -> Prop) :
  (forall s, P s -> Q (f s)) -> said P (put f) (fun _ => Q).
Proof. intros K s H. by apply K. Qed.
Lemma said_pure (P : HostSession -> Prop) (F : Prop) {A} (m : step A) Q :
  (F -> said P m Q) -> said (fun s => P s /\ F) m Q.
Proof. intros K s [H f]. by apply K. Qed.

Lemma speech_mute ok s s' : (forall m, ~ ok m) -> speech ok s s' -> mute s -> mute s'.
Proof.
  intros N [_ _ _ (l & L & F)] M. unfold mute. rewrite L. apply Forall_app. split; [|done].
  eapply Forall_impl; [exact F|]. intros []; cbn; try done. apply N.
Qed.
Lemma speech_spoke s s' : speech (understood E (ho_peer_caps s)) s s' -> spoke s -> spoke s'.
Proof.
  intros [C _ _ (l & L & F)] M. unfold spoke. rewrite L, C. by apply Forall_app.
Qed.

(** What says nothing, before authentication. *)
Lemma said_before k {A} (m : step A) :
  (forall c t, speaks c false t (fun _ => False) k m) -> said before m (fun _ => before).
Proof.
  intros M s (B & O & N). destruct (M (ho_peer_caps s) (ho_state s) s) as [Q C]; [done|].
  assert (B' : mute (m s).2) by (eapply speech_mute; [|exact Q|exact B]; auto).
  destruct Q as [_ O' S' _]. rewrite O in O'.
  destruct (m s) as [[a| | |e] s1]; cbn in *.
  - split_and!; [done|done|congruence].
  - by apply before_turn.
  - by apply mute_spoke.
  - by apply mute_spoke.
Qed.

(** What says what is understood. *)
Lemma said_talk c o t {A} (m : step A) :
  speaks c o t (understood E c) false m ->
  said (fun s => spoke s /\ knows c o t s) m (fun _ s => spoke s /\ knows c o t s).
Proof.
  intros M s [S K]. destruct (M s K) as [Q C]. pose proof (knows_speech _ _ _ _ _ _ Q K) as K'.
  assert (spoke (m s).2). { apply (speech_spoke s); [|done]. destruct K as [-> _]. exact Q. }
  destruct (m s) as [[a| | |e] s1]; cbn in *; try done. by discriminate (C eq_refl).
Qed.

Lemma said_turn k {A} (m : step A) :
  (forall c o t ok, (t = SS_Authenticated \/ o = true -> talk E c ok) -> speaks c o t ok k m) ->
  said turn_inv m (fun _ => turn_inv).
Proof.
  intros M s [S B]. destruct (decide (ho_state s = SS_Authenticated)) as [A'|N].
  - destruct (M (ho_peer_caps s) (ho_peer_has_stream_options s) (ho_state s) (understood E (ho_peer_caps s)))
      with (s := s) as [Q C]; [by intros _ x|done|].
    pose proof (speech_spoke _ _ Q S) as S'. destruct Q as [_ _ T _].
    destruct (m s) as [[a| | |e] s1]; cbn in *; try done; apply authenticated_turn; congruence.
  - destruct (B N) as (Mu & O & _).
    destruct (M (ho_peer_caps s) (ho_peer_has_stream_options s) (ho_state s) (fun _ => False))
      with (s := s) as [Q C]; [intros [|]; congruence|done|].
    pose proof (speech_mute _ _ _ (fun _ x => x) Q Mu) as Mu'. destruct Q as [_ O' T _].
    destruct (m s) as [[a| | |e] s1]; cbn in *.
    + apply before_turn; congruence.
    + apply before_turn; congruence.
    + by apply mute_spoke.
    + by apply mute_spoke.
Qed.

Ltac said_next := eapply said_bind; [apply (said_before true); intros; solve [speak]|intros ?].

Lemma said_handle_pairing_request payload : said before (handle_pairing_request E payload) (fun _ => turn_inv).
Proof.
  assert (K : forall s, before s -> turn_inv s) by (intros s (?&?&?); by apply before_turn).
  unfold handle_pairing_request. said_next. destruct a; cbn [negb].
  2:{ eapply said_post; [|apply (said_before true); intros; speak]. auto. }
  do 3 said_next. said_next. destruct a2; cbn [negb].
  2:{ eapply said_post; [|apply (said_before true); intros; speak]. auto. }
  destruct a0 as [trust|].
  2:{ eapply said_post; [|apply (said_before true); intros; speak]. auto. }
  unfold grant_pairing. do 2 said_next. destruct (_ && _).
  { eapply said_post; [|apply (said_before true); intros; speak]. auto. }
  do 9 said_next. apply said_put. intros s (?&?&?). by apply before_turn.
Qed.

(** *** The handshake *)

Definition mutely (s : HostSession) : Prop := mute s /\ ho_state s <> SS_Authenticated.

Lemma said_negotiate h r : said mutely (negotiate E h r) (fun _ => mutely).
Proof.
  assert (L : forall X A (f : X -> SessionError) (x : result X A), said mutely (lift f x) (fun _ => mutely)).
  { intros X A f [a|e] s [M ?]; cbn; [done|]. by apply mute_spoke. }
  assert (F : forall A e, said mutely (fail (A:=A) e) (fun _ => mutely)).
  { intros A e s [M ?]. by apply mute_spoke. }
  assert (P : forall f, (forall s, ho_log (f s) = ho_log s /\ ho_state (f s) = ho_state s) ->
    said mutely (put f) (fun _ => mutely)).
  { intros f K. apply said_put. intros s [M N]. destruct (K s) as [EL ES]. unfold mutely, mute. by rewrite EL, ES. }
  unfold negotiate. case_match; [apply F|]. eapply said_bind; [by apply P|]. intros ?. case_match; [apply F|].
  repeat (eapply said_bind; [first [apply L|by apply P]|]; intros ?). by apply P.
Qed.

Lemma said_known (P : HostSession -> Prop) {A} (m : step A) (Q : A -> HostSession -> Prop) :
  (forall c o t, t <> SS_Authenticated -> talk E c (understood E c) ->
     said (fun s => spoke s /\ knows c o t s) m Q) ->
  (forall s, P s -> mutely s) -> said P m Q.
Proof.
  intros K PM s H. destruct (PM s H) as [M N].
  apply (K (ho_peer_caps s) (ho_peer_has_stream_options s) (ho_state s) N); [by intros ? ?|].
  split; [by apply mute_spoke|done].
Qed.

Lemma said_get_known (P : HostSession -> Prop) {A B} (g : HostSession -> A) (f : A -> step B) a Q :
  (forall s, P s -> g s = a) -> said P (f a) Q -> said P (get g ≫= f) Q.
Proof. intros G F s H. unfold mbind, step_bind, get. rewrite (G s H). by apply F. Qed.

Ltac talk_next := eapply said_bind; [apply said_talk; solve [speak]|intros ?].

Lemma said_join_guests c o t record :
  said (fun s => spoke s /\ knows c o t s) (join_guests E record) (fun _ s => spoke s /\ knows c o SS_Authenticated s).
Proof.
  unfold join_guests. do 5 talk_next. apply said_put. by intros s [S (K1&K2&_)].
Qed.

Lemma said_handle_handshake payload : said before (handle_handshake E payload) (fun _ => turn_inv).
Proof.
  unfold handle_handshake. said_next. case_match.
  { eapply said_post; [|apply (said_before true); intros; solve [speak]]. intros ? s (?&?&?). by apply before_turn. }
  do 4 said_next.
  eapply said_bind; [apply said_pre with (P := mutely); [by intros s (?&?&?)|apply said_negotiate]|]. intros ?.
  apply said_known; [|done]. intros c o t N T.
  apply said_get_known with (a := Capabilities_contains c CAP_PAIRING_TRUST).
  { intros s [_ (<-&_&_)]. done. }
  do 3 talk_next. eapply said_bind.
  { apply said_talk, speaks_when. intros P. by apply speaks_exchange_trust. }
  intros ?. eapply said_bind.
  { apply said_talk, speaks_when. intros ?. by apply speaks_save_pairing. }
  intros ?. talk_next. eapply said_bind; [by apply said_talk, speaks_current_permissions|]. intros current.
  eapply said_bind; [by apply said_talk, speaks_set_effective|]. intros ?.
  eapply said_bind; [by apply said_talk, speaks_send_permissions|]. intros ?. talk_next.
  eapply said_bind; [apply said_join_guests|]. intros ?.
  eapply said_bind; [apply said_talk, speaks_when; intros _; apply speaks_start_media|]. intros ?.
  talk_next.
  eapply said_bind.
  { apply said_talk, speaks_when. intros ?. speak. by apply speaks_send_free. }
  intros ?. do 3 talk_next. eapply said_post; [|apply said_talk; speak].
  intros _ s [S (_&_&A)]. by apply authenticated_turn.
Qed.

Lemma said_dispatch packet : said turn_inv (dispatch E packet) (fun _ => turn_inv).
Proof.
  unfold dispatch. eapply said_bind; [apply (said_turn true); intros; speak|]. intros [header payload].
  eapply said_bind; [apply said_get|]. intros state.
  assert (Quit : forall A e Q, said (fun s => turn_inv s /\ state = ho_state s) (fail (A:=A) e) Q).
  { intros A e Q s [[S _] _]. exact S. }
  assert (Next : forall A Q, said (fun s => turn_inv s /\ state = ho_state s) (continue_ (A:=A)) Q).
  { intros A Q s [I _]. exact I. }
  assert (Auth : forall (m : step unit), state = SS_Authenticated ->
    (forall c o t, talk E c (understood E c) -> speaks c o t (understood E c) true m) ->
    said (fun s => turn_inv s /\ state = ho_state s) m (fun _ => turn_inv)).
  { intros m A M. eapply said_pre with (P := fun s => turn_inv s /\ ho_state s = SS_Authenticated).
    { intros s [I ->]. done. }
    intros s [[S B] A'].
    destruct (M (ho_peer_caps s) (ho_peer_has_stream_options s) (ho_state s) (fun _ x => x) s) as [Q C]; [done|].
    pose proof (speech_spoke _ _ Q S) as S'. destruct Q as [_ _ T _].
    destruct (m s) as [[a| | |e] s1]; cbn in *; try done; apply authenticated_turn; congruence. }
  assert (Before : forall (m : step unit), state <> SS_Authenticated -> said before m (fun _ => turn_inv) ->
    said (fun s => turn_inv s /\ state = ho_state s) m (fun _ => turn_inv)).
  { intros m N. apply said_pre. intros s [[_ B] ->]. auto. }
  destruct (state_allows state (ph_packet_type header)) eqn:Al; cbn [negb]; [|case_match; auto].
  assert (Done : said (fun s => turn_inv s /\ state = ho_state s) (mret tt) (fun _ => turn_inv)).
  { by intros s [I _]. }
  destruct (ph_packet_type header), state; try discriminate Al; cbn [bool_decide]; auto;
    try (apply Before; [discriminate|]; auto using said_handle_handshake, said_handle_pairing_request; fail);
    rewrite bool_decide_true by done; apply Auth; try done; intros;
    [by apply speaks_handle_input|by apply speaks_handle_control].
Qed.

Lemma said_loop_turn : said turn_inv (loop_turn E) (fun _ => turn_inv).
Proof.
  unfold loop_turn.
  eapply said_bind; [apply (said_turn true); intros; apply speaks_check_stop; auto|]. intros ?.
  eapply said_bind; [apply (said_turn true); intros; speak|]. intros failed.
  eapply said_bind; [apply (said_turn true); intros; speak|]. intros packet.
  eapply said_bind; [apply (said_turn true); intros; speak|]. intros ?.
  eapply said_bind; [apply (said_turn true); intros; apply speaks_check_topology; auto|]. intros ?.
  eapply said_bind; [apply (said_turn true); intros; speak|]. intros ?.
  eapply said_bind; [apply (said_turn true); intros; apply speaks_authenticated_work; auto|]. intros ?.
  destruct packet; [apply said_dispatch|apply (said_turn true); intros; speak].
Qed.

Lemma run_loop_spoke turns s : turn_inv s -> spoke (run_loop E turns s).2.
Proof.
  revert s. induction turns as [|turns IH]; intros s K; cbn [run_loop]; [apply K|].
  pose proof (said_loop_turn s K) as T. destruct (loop_turn E s) as [[]]; auto.
Qed.

Lemma teardown_spoke s : spoke s -> spoke (teardown E s).
Proof.
  intros S. unfold teardown, spoke.
  destruct (ms_sender (ho_media s)), (ms_pipeline (ho_media s)), (ho_injected_input s) eqn:J;
    cbn; rewrite ?J, ?inject_input_eq; cbn; destruct (ho_active_guest s); cbn;
    repeat (apply Forall_cons; split; [exact I|]); exact S.
Qed.

(** C6: the host never uses a capability its peer did not announce.  Every
    control message a session sends, in whatever order things happen, belongs to
    no capability or to one that is in the host's acknowledgement and in the
    peer's handshake: the check the receiving end makes of every message it
    gets. *)
Theorem host_says_what_peer_understands turns m :
  let s := (handle_connection E turns).2 in
  FX_Control m ∈ ho_log s ->
  supported_by (message_type m) (hs_capabilities (handshake_ack E)) (ho_peer_caps s) = true.
Proof.
  assert (K : turn_inv (initial E)) by (apply before_turn; [constructor|done]).
  pose proof (run_loop_spoke turns (initial E) K) as S. unfold handle_connection.
  destruct (run_loop E turns (initial E)) as [[r|] s]; cbn in *; intros I.
  - exact (proj1 (Forall_forall _ _) (teardown_spoke _ S) _ I).
  - exact (proj1 (Forall_forall _ _) S _ I).
Qed.

End Loop.

(** A guest that understands permissions and the host's status is told of both. *)
Definition toy_told : HostEnv :=
  toy_env_at (fun n => match n with
    | 1%nat => Ok (toy_packet PT_Handshake (Handshake_encode (mkHandshake (str_bytes "tablet") 800 600 0x3f800000
        PROTOCOL_VERSION (Capabilities_bitor CAP_AUTHENTICATED_UDP_REGISTRATION CAP_GUEST_PERMISSIONS)
        (str_bytes "P") (replicate 16 Byte.x05))))
    | _ => toy_frames n end)
    (fun _ => 0) true (mkPairingStore [] ∅) true BOOTSTRAP_IDENTITY.

Lemma host_says_what_peer_understands_witness :
  let s := (handle_connection toy_told 4).2 in
  let m := CM_GuestPermissions (mkGuestPermissions true true false false false) in
  FX_Control m ∈ ho_log s /\
  supported_by (message_type m) (hs_capabilities (handshake_ack toy_told)) (ho_peer_caps s) = true.
Proof.
  cbv zeta. assert (H : FX_Control (CM_GuestPermissions (mkGuestPermissions true true false false false))
    ∈ ho_log (handle_connection toy_told 4).2).
  { apply list_elem_of_lookup. exists 9%nat. vm_compute. reflexivity. }
  split; [exact H|]. exact (host_says_what_peer_understands toy_told 4 _ H).
Defined.
