(* ===== verification/FrameQueue.v ===== *)
(** * The queue between the receiver and the decoder

    [clients/rust/maho-app/src/frame_queue.rs]: a bounded queue of encoded frames
    that drops a chain of frames as soon as one of its references is lost, and
    asks for a key frame.  Every method holds the queue's lock, so the threads
    interleave whole methods.  The trace is not modelled; a lock is poisoned
    only by a panic of a method, and none of them panics. *)

From S2P Require Import Prelude Codec Media Assembler.

Definition FRAME_QUEUE_CAPACITY : Z := 4.
#[export] Hint Unfold FRAME_QUEUE_CAPACITY : limits.

(** The frame and the instant it was received at. *)
Definition QueuedFrame : Type := AssembledFrame * Instant.

Definition frame_id (f : QueuedFrame) : Z := fh_frame_id (asf_header f.1).
Definition is_key_frame (f : QueuedFrame) : bool := fh_is_key_frame (asf_header f.1).

Record FrameQueueState : Type := mkFrameQueueState {
  fq_frames : list QueuedFrame;
  fq_last_frame_id : option Z;
  fq_recovering : bool;
  fq_stopped : bool
}.

Definition FrameQueue_new : FrameQueueState := mkFrameQueueState [] None false false.

(** [bail!("frame queue stopped")]. *)
Inductive FrameQueueError : Type := FQ_Stopped.

(** Whether the frame is not the successor of the last one; [None]: it is late. *)
Definition discontinuity (last : option Z) (id : Z) : option bool :=
  match last with
  | None => Some false
  | Some last =>
    let advance := wrapping_sub32 id last in
    if (advance =? 0) || (SERIAL_HALF_RANGE <=? advance) then None else Some (negb (advance =? 1))
  end.

(** [true] requests one key frame. *)
Definition push (s : FrameQueueState) (frame : QueuedFrame)
    : result FrameQueueError bool * FrameQueueState :=
  if fq_stopped s then (Err FQ_Stopped, s) else
  let key := is_key_frame frame in
  let id := frame_id frame in
  match discontinuity (fq_last_frame_id s) id with
  | None => (Ok false, s)
  | Some discontinuous =>
    let drop := discontinuous || (len (fq_frames s) =? FRAME_QUEUE_CAPACITY) in
    let frames := if drop then [] else fq_frames s in
    let request_keyframe := drop && negb (fq_recovering s) && negb key in
    let recovering := drop || fq_recovering s in
    if recovering && negb key
    then (Ok request_keyframe, mkFrameQueueState frames (Some id) recovering false)
    else (Ok request_keyframe, mkFrameQueueState (frames ++ [frame]) (Some id) false false)
  end.

Inductive RecvTimeoutError : Type := RT_Timeout | RT_Disconnected.

(** The thread is woken, or its time is over; [None]: it goes on waiting. *)
Definition recv_timeout (s : FrameQueueState) (timed_out : bool)
    : option (result RecvTimeoutError QueuedFrame) * FrameQueueState :=
  if fq_stopped s then (Some (Err RT_Disconnected), s)
  else match fq_frames s with
       | [] => (if timed_out then Some (Err RT_Timeout) else None, s)
       | frame :: frames =>
         (Some (Ok frame), mkFrameQueueState frames (fq_last_frame_id s) (fq_recovering s) false)
       end.

Inductive RecvError : Type := RE_Stopped.

Definition recv (s : FrameQueueState) : option (result RecvError QueuedFrame) * FrameQueueState :=
  if fq_stopped s then (Some (Err RE_Stopped), s)
  else match fq_frames s with
       | [] => (None, s)
       | frame :: frames =>
         (Some (Ok frame), mkFrameQueueState frames (fq_last_frame_id s) (fq_recovering s) false)
       end.

(** [state.frames.drain(..key)] up to the first key frame, if there is one. *)
Fixpoint from_key (frames : list QueuedFrame) : option (list QueuedFrame) :=
  match frames with
  | [] => None
  | frame :: rest => if is_key_frame frame then Some frames else from_key rest
  end.

Definition decode_failed (s : FrameQueueState) : bool * FrameQueueState :=
  if fq_stopped s then (false, s)
  else match from_key (fq_frames s) with
       | Some frames => (false, mkFrameQueueState frames (fq_last_frame_id s) false false)
       | None => (negb (fq_recovering s), mkFrameQueueState [] (fq_last_frame_id s) true false)
       end.

Definition stop (s : FrameQueueState) : FrameQueueState :=
  mkFrameQueueState [] (fq_last_frame_id s) (fq_recovering s) true.

(** * Specification *)

(** What the threads do with a queue. *)
Inductive QueueOp : Type :=
| QO_Push (frame : QueuedFrame)
| QO_Recv
| QO_RecvTimeout (timed_out : bool)
| QO_DecodeFailed
| QO_Stop.

(** What the decoder and the session see of it. *)
Inductive QueueEvent : Type :=
| QE_Decode (frame : QueuedFrame)   (* a frame is handed to the decoder *)
| QE_Failed                         (* the decoder reports a failure *)
| QE_Request                        (* a key frame is requested *)
| QE_Recovered.                     (* a key frame ends the recovery *)

Definition requested (b : bool) : list QueueEvent := if b then [QE_Request] else [].
Definition decoded {E} (r : option (result E QueuedFrame)) : list QueueEvent :=
  match r with Some (Ok frame) => [QE_Decode frame] | _ => [] end.

Definition queue_op (s : FrameQueueState) (op : QueueOp) : list QueueEvent * FrameQueueState :=
  match op with
  | QO_Push frame =>
    match push s frame with
    | (Ok request, s') =>
      (requested request ++ (if fq_recovering s && negb (fq_recovering s') then [QE_Recovered] else []), s')
    | (Err _, s') => ([], s')
    end
  | QO_Recv => let '(r, s) := recv s in (decoded r, s)
  | QO_RecvTimeout timed_out => let '(r, s) := recv_timeout s timed_out in (decoded r, s)
  | QO_DecodeFailed => let '(request, s) := decode_failed s in (QE_Failed :: requested request, s)
  | QO_Stop => ([], stop s)
  end.

Fixpoint queue_ops (s : FrameQueueState) (ops : list QueueOp) : list QueueEvent * FrameQueueState :=
  match ops with
  | [] => ([], s)
  | op :: ops =>
    let '(events, s) := queue_op s op in
    let '(more, s) := queue_ops s ops in (events ++ more, s)
  end.

(** What the decoder can decode the next frame from. *)
Inductive reference : Type :=
| RF_Unknown              (* nothing was decoded yet *)
| RF_Frame (id : Z)       (* the frame before, decoded *)
| RF_Lost.                (* nothing: decoding failed *)

(** A key frame can be decoded always, another one only after the frame before it. *)
Definition fits (r : reference) (f : QueuedFrame) : Prop :=
  is_key_frame f = true \/
  match r with
  | RF_Unknown => True
  | RF_Frame id => wrapping_sub32 (frame_id f) id = 1
  | RF_Lost => False
  end.

Fixpoint decodable (r : reference) (events : list QueueEvent) : Prop :=
  match events with
  | [] => True
  | QE_Decode f :: events => fits r f /\ decodable (RF_Frame (frame_id f)) events
  | QE_Failed :: events => decodable RF_Lost events
  | _ :: events => decodable r events
  end.

Fixpoint reference_after (r : reference) (events : list QueueEvent) : reference :=
  match events with
  | [] => r
  | QE_Decode f :: events => reference_after (RF_Frame (frame_id f)) events
  | QE_Failed :: events => reference_after RF_Lost events
  | _ :: events => reference_after r events
  end.

(** [outstanding]: a key frame was requested and none came since. *)
Fixpoint requests_ok (outstanding : bool) (events : list QueueEvent) : Prop :=
  match events with
  | [] => True
  | QE_Request :: events => outstanding = false /\ requests_ok true events
  | QE_Recovered :: events => outstanding = true /\ requests_ok false events
  | _ :: events => requests_ok outstanding events
  end.

Fixpoint outstanding_after (outstanding : bool) (events : list QueueEvent) : bool :=
  match events with
  | [] => outstanding
  | QE_Request :: events => outstanding_after true events
  | QE_Recovered :: events => outstanding_after false events
  | _ :: events => outstanding_after outstanding events
  end.

(** * Theorems *)

Fixpoint chain (r : reference) (frames : list QueuedFrame) : Prop :=
  match frames with
  | [] => True
  | f :: frames => fits r f /\ chain (RF_Frame (frame_id f)) frames
  end.

(** What the last frame of a chain is the reference of. *)
Definition chain_end (r : reference) (frames : list QueuedFrame) : reference :=
  match last frames with Some f => RF_Frame (frame_id f) | None => r end.

(** The queue continues what was decoded; it forgets nothing while it is not
    recovering. *)
Record queue_inv (r : reference) (s : FrameQueueState) : Prop := {
  qi_chain : chain r (fq_frames s);
  qi_bound : len (fq_frames s) <= FRAME_QUEUE_CAPACITY;
  qi_recovering : fq_recovering s = true -> fq_frames s = [];
  qi_stopped : fq_stopped s = true -> fq_frames s = [];
  qi_last : fq_stopped s = false -> fq_recovering s = false ->
    match chain_end r (fq_frames s) with
    | RF_Unknown => fq_last_frame_id s = None
    | RF_Frame id => fq_last_frame_id s = Some id
    | RF_Lost => False
    end
}.

Lemma queue_inv_new : queue_inv RF_Unknown FrameQueue_new.
Proof. split; cbn; unfold FRAME_QUEUE_CAPACITY, len; naive_solver lia. Qed.

Lemma chain_snoc f frames : forall r,
  chain r frames -> fits (chain_end r frames) f -> chain r (frames ++ [f]).
Proof.
  induction frames as [|g frames IH]; cbn; intros r; [done|].
  intros [? ?] Hf. split; [done|]. apply IH; [done|].
  unfold chain_end in *. rewrite last_cons in Hf. by destruct (last frames).
Qed.

Lemma chain_end_snoc r frames f : chain_end r (frames ++ [f]) = RF_Frame (frame_id f).
Proof. unfold chain_end. by rewrite last_snoc. Qed.

Lemma fits_key r f : is_key_frame f = true -> fits r f.
Proof. by left. Qed.

(** The trivial parts of an invariant of a state that was computed. *)
Local Ltac split_inv :=
  split; cbn; try (intros; discriminate || done);
  try (unfold FRAME_QUEUE_CAPACITY, len in *; cbn in *; lia).

Lemma push_inv r s f : queue_inv r s -> queue_inv r (push s f).2.
Proof.
  intros Hq. unfold push. destruct (fq_stopped s) eqn:Est; [done|].
  destruct (discontinuity _ _) as [disc|] eqn:Ed; [|done]. destruct Hq as [Hc Hb Hr Hs Hl].
  set (drop := disc || _). destruct drop eqn:Edrop; cbn.
  - destruct (is_key_frame f) eqn:Ek; cbn; split_inv.
    split; [by apply fits_key|done].
  - destruct (fq_recovering s) eqn:Er; cbn.
    + destruct (is_key_frame f) eqn:Ek; cbn; rewrite Hr by done; split_inv.
      split; [by apply fits_key|done].
    + apply orb_false_iff in Edrop as [-> Hlen%Z.eqb_neq].
      split_inv.
      * apply chain_snoc; [done|]. specialize (Hl Est eq_refl).
        destruct (chain_end r (fq_frames s)) as [|id|]; [by right| |done].
        right. rewrite Hl in Ed. cbn in Ed. repeat case_match; simplify_eq.
        apply Z.eqb_eq. by destruct (_ =? 1).
      * unfold FRAME_QUEUE_CAPACITY, len in *. rewrite length_app. cbn. lia.
      * by rewrite chain_end_snoc.
Qed.

(** Taking the first frame of the queue. *)
Lemma pop_inv r s f frames :
  queue_inv r s -> fq_frames s = f :: frames -> fq_stopped s = false ->
  fits r f /\
  queue_inv (RF_Frame (frame_id f)) (mkFrameQueueState frames (fq_last_frame_id s) (fq_recovering s) false).
Proof.
  intros [Hc Hb Hr Hs Hl] Ef Est. rewrite Ef in *. destruct Hc as [Hf Hc].
  split; [done|]. split_inv.
  - intros Er. by specialize (Hr Er).
  - intros _ Er. specialize (Hl Est Er). unfold chain_end in *. rewrite last_cons in Hl.
    by destruct (last frames).
Qed.

Lemma from_key_Some frames frames' r r' :
  from_key frames = Some frames' -> chain r frames ->
  chain r' frames' /\ chain_end r' frames' = chain_end r frames /\ (length frames' <= length frames)%nat.
Proof.
  revert r. induction frames as [|f frames IH]; cbn; intros r E Hc; [done|]. destruct Hc as [Hf Hc].
  destruct (is_key_frame f) eqn:Ek.
  - injection E as <-. split; [split; [by apply fits_key|done]|]. split; [|done].
    unfold chain_end. rewrite !last_cons. by destruct (last frames).
  - destruct (IH _ E Hc) as (?&He&?). split; [done|]. split; [|lia].
    rewrite He. unfold chain_end. rewrite last_cons. by destruct (last frames).
Qed.

Lemma decode_failed_inv r s : queue_inv r s -> queue_inv RF_Lost (decode_failed s).2.
Proof.
  intros [Hc Hb Hr Hs Hl]. unfold decode_failed. destruct (fq_stopped s) eqn:Est.
  - cbn. rewrite Hs in * by done. by split; rewrite ?Est, ?Hs; cbn.
  - destruct (from_key _) as [frames|] eqn:Ek; cbn.
    + destruct (from_key_Some _ _ _ RF_Lost Ek Hc) as (?&He&?). split_inv.
      rewrite He. intros _ _. destruct (fq_recovering s) eqn:Er; [|by apply Hl].
      by rewrite Hr in Ek.
    + split_inv.
Qed.

Lemma stop_inv r s : queue_inv r s -> queue_inv r (stop s).
Proof. intros _. split_inv. Qed.

Lemma queue_op_inv r s op :
  queue_inv r s ->
  decodable r (queue_op s op).1 /\ queue_inv (reference_after r (queue_op s op).1) (queue_op s op).2.
Proof.
  intros Hq. destruct op as [f| |t| |]; cbn.
  - pose proof (push_inv r s f Hq) as Hp. destruct (push s f) as [[request|] s']; cbn in *; [|done].
    destruct request; cbn; case_match; cbn; done.
  - unfold recv. destruct (fq_stopped s) eqn:Est; [done|].
    destruct (fq_frames s) as [|f frames] eqn:Ef; [done|]. cbn.
    destruct (pop_inv _ _ _ _ Hq Ef Est). done.
  - unfold recv_timeout. destruct (fq_stopped s) eqn:Est; [done|].
    destruct (fq_frames s) as [|f frames] eqn:Ef; [by destruct t|]. cbn.
    destruct (pop_inv _ _ _ _ Hq Ef Est). done.
  - pose proof (decode_failed_inv r s Hq) as Hd. destruct (decode_failed s) as [request s']; cbn in *.
    destruct request; cbn; done.
  - split; [done|]. by apply stop_inv.
Qed.

Lemma decodable_app r e e' :
  decodable r (e ++ e') <-> decodable r e /\ decodable (reference_after r e) e'.
Proof. revert r. induction e as [|[] e IH]; cbn; intros r; rewrite ?IH; tauto. Qed.

Lemma reference_after_app r e e' : reference_after r (e ++ e') = reference_after (reference_after r e) e'.
Proof. revert r. induction e as [|[] e IH]; cbn; intros r; rewrite ?IH; done. Qed.

Lemma queue_ops_inv ops : forall r s, queue_inv r s ->
  decodable r (queue_ops s ops).1 /\ queue_inv (reference_after r (queue_ops s ops).1) (queue_ops s ops).2.
Proof.
  induction ops as [|op ops IH]; cbn; intros r s Hq; [done|].
  pose proof (queue_op_inv r s op Hq) as [Hd Hi]. destruct (queue_op s op) as [events s']; cbn in *.
  specialize (IH _ _ Hi). revert IH. destruct (queue_ops s' ops) as [more s'']; cbn in *; intros [Hd' Hi'].
  rewrite decodable_app, reference_after_app. split; [split; assumption|exact Hi'].
Qed.

(** Whatever is pushed, in whatever order the receiver and the decoder use
    the queue, and wherever decoding fails: every frame handed to the decoder is
    a key frame or the direct successor of the frame decoded before it (the very
    first one apart), so that nothing is decoded against a reference that was
    dropped or failed; and the queue never holds more than four frames. *)
Theorem decoder_gets_decodable_frames ops :
  let '(events, s) := queue_ops FrameQueue_new ops in
  decodable RF_Unknown events /\ len (fq_frames s) <= FRAME_QUEUE_CAPACITY.
Proof.
  pose proof (queue_ops_inv ops _ _ queue_inv_new) as [Hd Hi].
  destruct (queue_ops FrameQueue_new ops) as [events s]. split; [done|apply Hi].
Qed.

(** ** Requests *)

Lemma requests_ok_app o e e' :
  requests_ok o (e ++ e') <-> requests_ok o e /\ requests_ok (outstanding_after o e) e'.
Proof. revert o. induction e as [|[] e IH]; cbn; intros o; rewrite ?IH; tauto. Qed.

Lemma outstanding_after_app o e e' : outstanding_after o (e ++ e') = outstanding_after (outstanding_after o e) e'.
Proof. revert o. induction e as [|[] e IH]; cbn; intros o; rewrite ?IH; done. Qed.

Lemma push_requests s f :
  match push s f with
  | (Ok request, s') => (request = true <-> fq_recovering s = false /\ fq_recovering s' = true)
  | (Err _, s') => s' = s
  end.
Proof.
  unfold push. destruct (fq_stopped s); [done|]. destruct (discontinuity _ _) as [d|].
  2:{ destruct (fq_recovering s); naive_solver. }
  destruct (d || _), (is_key_frame f), (fq_recovering s); cbn; naive_solver.
Qed.

Lemma queue_op_requests r s op :
  queue_inv r s ->
  requests_ok (fq_recovering s) (queue_op s op).1 /\
  outstanding_after (fq_recovering s) (queue_op s op).1 = fq_recovering (queue_op s op).2.
Proof.
  intros Hq. destruct op as [f| |t| |]; cbn.
  - pose proof (push_requests s f) as Hp. destruct (push s f) as [[request|] s']; cbn; [|by subst].
    destruct request, (fq_recovering s), (fq_recovering s'); cbn; naive_solver.
  - unfold recv. destruct (fq_stopped s); [done|]. by destruct (fq_frames s).
  - unfold recv_timeout. destruct (fq_stopped s); [done|]. destruct (fq_frames s); [by destruct t|done].
  - unfold decode_failed. destruct (fq_stopped s); [done|].
    destruct (from_key (fq_frames s)) eqn:Ek; cbn; [|by destruct (fq_recovering s)].
    destruct (fq_recovering s) eqn:Er; [|done]. by rewrite (qi_recovering _ _ Hq Er) in Ek.
  - done.
Qed.

Lemma queue_ops_requests ops : forall r s, queue_inv r s ->
  requests_ok (fq_recovering s) (queue_ops s ops).1 /\
  outstanding_after (fq_recovering s) (queue_ops s ops).1 = fq_recovering (queue_ops s ops).2.
Proof.
  induction ops as [|op ops IH]; cbn; intros r s Hq; [done|].
  pose proof (queue_op_requests r s op Hq) as [Ho Ha]. pose proof (queue_op_inv r s op Hq) as [_ Hi].
  destruct (queue_op s op) as [events s']; cbn in *. specialize (IH _ _ Hi). revert IH.
  destruct (queue_ops s' ops) as [more s'']; cbn in *; intros [Ho' Ha'].
  rewrite requests_ok_app, outstanding_after_app, Ha. split; [split; assumption|exact Ha'].
Qed.

(** A loss costs one request for a key frame: a request is made when the
    queue starts to recover, none while it waits, and the next key frame that
    arrives ends the recovery; a request is outstanding exactly while frames are
    dropped for want of a reference. *)
Theorem key_frame_requested_once ops :
  let '(events, s) := queue_ops FrameQueue_new ops in
  requests_ok false events /\ outstanding_after false events = fq_recovering s.
Proof.
  pose proof (queue_ops_requests ops _ _ queue_inv_new) as H.
  destruct (queue_ops FrameQueue_new ops). exact H.
Qed.

(** A full queue drops what it holds and asks once for a key frame; the frames
    that follow are dropped until it comes. *)
Definition numbered (id : Z) (key : bool) : QueuedFrame :=
  (mkAssembledFrame (mkFrameHeader id 1 1 key 1 1) [] 0, 0).

Example overflow_recovers :
  let pushes := fun ids => map (fun id => QO_Push (numbered id false)) ids in
  (queue_ops FrameQueue_new (QO_Push (numbered 7 true) :: pushes [8; 9; 10; 11; 12]
     ++ [QO_Recv; QO_Push (numbered 13 true)] ++ pushes [14] ++ [QO_Recv; QO_Recv])).1
  = [QE_Request; QE_Recovered; QE_Decode (numbered 13 true); QE_Decode (numbered 14 false)].
Proof. reflexivity. Qed.
