(* ===== verification/RelayProto.v ===== *)
(** * The relay's protocol

    [clients/rust/maho-proto/src/relay.rs]: the frames a relay forwards, the
    identifiers and tokens of hosts, the control messages; and from
    [clients/rust/maho-host/src/relay.rs] the name a host registers under and its
    delay between attempts.  HMAC-SHA256 is a parameter; so is JSON, whose
    messages are the constructors of [RelayControl]. *)

From S2P Require Import Prelude Codec Text.

Definition RELAY_FRAME_HEADER_LEN : Z := 17.
Definition RELAY_CHANNEL_TCP : Z := 1.
Definition RELAY_CHANNEL_UDP : Z := 2.
Definition RELAY_MAX_PAYLOAD_LEN : Z := 2 * 1024 * 1024.
Definition RELAY_MAX_SESSIONS_PER_HOST : Z := 4.
Definition RELAY_CONNECTS_PER_MINUTE : Z := 100.
Definition RELAY_HOST_ID_MAX_LEN : Z := 128.
#[export] Hint Unfold RELAY_FRAME_HEADER_LEN RELAY_CHANNEL_TCP RELAY_CHANNEL_UDP RELAY_MAX_PAYLOAD_LEN
  RELAY_HOST_ID_MAX_LEN : limits.

(** ** Identifiers *)

(** ['.'], ['_'] and ['-']. *)
Definition is_id_byte (b : byte) : bool :=
  is_ascii_alphanumeric b || (byte_to_Z b =? 46) || (byte_to_Z b =? 95) || (byte_to_Z b =? 45).

Definition relay_host_id_ok (host_id : rstring) : bool :=
  if (len host_id =? 0) || (RELAY_HOST_ID_MAX_LEN <? len host_id) then false else forallb is_id_byte host_id.

(** The name a host registers under: the bytes of its name that are allowed. *)
Definition sanitize_host_id (name : rstring) : rstring :=
  let out := List.filter is_id_byte name in
  let out := if len out =? 0 then str_bytes "host" else out in
  take 128 out.

Definition next_backoff (current : Duration) : Duration :=
  Z.max (Z.min (current * 2) (from_secs 30)) (from_secs 1).

(** ** Tokens *)

Definition HEX_CHARS : list byte := str_bytes "0123456789abcdef".

Definition hex_char (digit : Z) : byte := nth (Z.to_nat digit) HEX_CHARS Byte.x00.

Section Tokens.

(** [HmacSha256::new_from_slice(secret)], [update], [finalize]. *)
Context (hmac : list byte -> list byte -> option (list byte)).

Definition relay_token (secret : list byte) (host_id : rstring) : rstring :=
  match hmac secret host_id with
  | None => []
  | Some mac =>
    mac ≫= fun b => [hex_char (Z.shiftr (byte_to_Z b) 4); hex_char (Z.land (byte_to_Z b) 15)]
  end.

(** The loop over [expected.bytes().zip(presented.bytes())]: [diff] and [non_hex]. *)
Fixpoint compare_tokens (expected presented : list byte) (diff non_hex : Z) : Z * Z :=
  match expected, presented with
  | a :: expected, b :: presented =>
    let non_hex := if is_ascii_hexdigit b then non_hex else Z.lor non_hex 1 in
    let diff := Z.lor diff (Z.lxor (byte_to_Z a) (byte_to_Z (to_ascii_lowercase b))) in
    compare_tokens expected presented diff non_hex
  | _, _ => (diff, non_hex)
  end.

Definition relay_token_matches (secret : list byte) (host_id presented : rstring) : bool :=
  if negb (len presented =? 64) then false else
  let expected := relay_token secret host_id in
  if negb (len expected =? 64) then false else
  let '(diff, non_hex) := compare_tokens expected presented 0 0 in
  (diff =? 0) && (non_hex =? 0).

End Tokens.

(** ** Frames *)

Record RelayFrame : Type := mkRelayFrame {
  rf_session_id : list byte;
  rf_channel : Z;
  rf_payload : list byte
}.

Definition channel_ok (channel : Z) : bool := (channel =? RELAY_CHANNEL_TCP) || (channel =? RELAY_CHANNEL_UDP).

Definition encode_relay_frame (session_id : list byte) (channel : Z) (payload : list byte) : cresult (list byte) :=
  if negb (channel_ok channel) then Err (UnknownRelayChannel channel)
  else if RELAY_MAX_PAYLOAD_LEN <? len payload
  then Err (LengthLimit "relay payload" (len payload) RELAY_MAX_PAYLOAD_LEN)
  else Ok (session_id ++ [Z_to_byte channel] ++ payload).

Definition decode_relay_frame (input : list byte) : cresult RelayFrame :=
  if len input <? RELAY_FRAME_HEADER_LEN
  then Err (Truncated "relay frame header" RELAY_FRAME_HEADER_LEN (len input)) else
  let channel := byte_to_Z (nth 16 input Byte.x00) in
  if negb (channel_ok channel) then Err (UnknownRelayChannel channel) else
  let payload_len := len input - RELAY_FRAME_HEADER_LEN in
  if RELAY_MAX_PAYLOAD_LEN <? payload_len
  then Err (LengthLimit "relay payload" payload_len RELAY_MAX_PAYLOAD_LEN)
  else Ok (mkRelayFrame (take 16 input) channel (drop 17 input)).

Inductive RelayControl : Type :=
| RC_Register (host_id token : rstring)
| RC_Registered (host_id : rstring)
| RC_Connect (host_id token : rstring)
| RC_Incoming (session_id : rstring)
| RC_Accept (session_id : rstring)
| RC_Connected
| RC_Ping
| RC_Pong
| RC_Error (code message : rstring).

(** * Theorems *)

(** ** Frames *)

Record RelayFrame_wf (f : RelayFrame) : Prop := {
  rfw_session : len (rf_session_id f) = 16;
  rfw_channel : channel_ok (rf_channel f) = true;
  rfw_payload : len (rf_payload f) <= RELAY_MAX_PAYLOAD_LEN
}.

Lemma channel_ok_u8 channel : channel_ok channel = true -> byte_to_Z (Z_to_byte channel) = channel.
Proof.
  unfold channel_ok. intros [E%Z.eqb_eq|E%Z.eqb_eq]%orb_true_iff; subst; reflexivity.
Qed.

Lemma encode_relay_frame_ok f :
  RelayFrame_wf f ->
  encode_relay_frame (rf_session_id f) (rf_channel f) (rf_payload f)
  = Ok (rf_session_id f ++ [Z_to_byte (rf_channel f)] ++ rf_payload f).
Proof.
  intros [S C P]. unfold encode_relay_frame. rewrite C. cbn [negb].
  rewrite (proj2 (Z.ltb_ge _ _)) by done. reflexivity.
Qed.

Lemma decode_encoded_frame f :
  RelayFrame_wf f ->
  decode_relay_frame (rf_session_id f ++ [Z_to_byte (rf_channel f)] ++ rf_payload f) = Ok f.
Proof.
  intros [S C P]. destruct f as [id channel payload]; cbn in *. unfold decode_relay_frame.
  assert (L : length id = 16%nat) by (unfold len in S; lia).
  autorewrite with len. len_facts. rewrite (proj2 (Z.ltb_ge _ _)) by (autounfold with limits; lia).
  rewrite app_nth2, L by lia. cbn [nth Nat.sub]. rewrite channel_ok_u8, C by done. cbn [negb].
  rewrite (proj2 (Z.ltb_ge _ _)) by (autounfold with limits in *; lia).
  rewrite take_app_length' by done.
  change (id ++ Z_to_byte channel :: payload) with (id ++ [Z_to_byte channel] ++ payload).
  rewrite app_assoc, drop_app_length'; [done|]. rewrite length_app. cbn. lia.
Qed.

Lemma decode_relay_frame_Ok input f :
  decode_relay_frame input = Ok f ->
  RelayFrame_wf f /\ input = rf_session_id f ++ [Z_to_byte (rf_channel f)] ++ rf_payload f.
Proof.
  unfold decode_relay_frame. destruct (len input <? _) eqn:L; [done|]. apply Z.ltb_ge in L.
  destruct (channel_ok _) eqn:C; [|done]. cbn [negb]. destruct (_ <? _) eqn:P; [done|]. apply Z.ltb_ge in P.
  intros X. simplify_eq. cbn. autounfold with limits in *.
  assert (L' : (17 <= length input)%nat) by (unfold len in L; lia).
  split.
  - split; cbn; [rewrite len_take; unfold len in *; lia|done|].
    rewrite len_drop. autounfold with limits. lia.
  - rewrite Z_to_byte_to_Z. rewrite <- (take_drop 16 input) at 1. f_equal.
    destruct (drop 16 input) as [|b rest] eqn:D.
    { apply (f_equal length) in D. rewrite length_drop in D. cbn in D. lia. }
    cbn. f_equal.
    + rewrite <- (take_drop 16 input), D. rewrite app_nth2; rewrite length_take_le by lia; [|lia].
      by rewrite Nat.sub_diag.
    + change rest with (drop 1 (b :: rest)). by rewrite <- D, drop_drop.
Qed.

(** ** Tokens *)

Lemma lor_zero a b : 0 <= a -> 0 <= b -> Z.lor a b = 0 <-> a = 0 /\ b = 0.
Proof. intros. apply Z.lor_eq_0_iff. Qed.

Lemma compare_tokens_spec expected presented : forall diff non_hex,
  length expected = length presented ->
  let '(d, h) := compare_tokens expected presented diff non_hex in
  (d = 0 <-> diff = 0 /\ expected = to_ascii_lowercase <$> presented) /\
  (h = 0 <-> non_hex = 0 /\ forallb is_ascii_hexdigit presented = true).
Proof.
  revert presented. induction expected as [|a expected IH]; intros [|b presented] diff non_hex L; try discriminate L.
  - cbn. naive_solver.
  - cbn [compare_tokens]. injection L as L.
    specialize (IH presented (Z.lor diff (Z.lxor (byte_to_Z a) (byte_to_Z (to_ascii_lowercase b))))
      (if is_ascii_hexdigit b then non_hex else Z.lor non_hex 1) L).
    destruct (compare_tokens _ _ _ _) as [d h]. destruct IH as [-> ->]. rewrite Z.lor_eq_0_iff, Z.lxor_eq_0_iff. split.
    + cbn. split.
      * intros [[-> E%byte_to_Z_inj] ->]. by subst.
      * intros [-> E]. injection E as -> ->. done.
    + cbn. destruct (is_ascii_hexdigit b); cbn; [done|].
      rewrite Z.lor_eq_0_iff. split; [intros [[_ X] _]; discriminate X|intros [_ X]; discriminate X].
Qed.

Lemma lowercase_hex b :
  is_ascii_hexdigit (to_ascii_lowercase b) = true -> is_ascii_hexdigit b = true.
Proof. destruct b; vm_compute; done. Qed.

Lemma hex_high b : is_ascii_hexdigit (hex_char (Z.shiftr (byte_to_Z b) 4)) = true.
Proof. by destruct b. Qed.
Lemma hex_low b : is_ascii_hexdigit (hex_char (Z.land (byte_to_Z b) 15)) = true.
Proof. by destruct b. Qed.

Lemma relay_token_hex hmac secret host_id : forallb is_ascii_hexdigit (relay_token hmac secret host_id) = true.
Proof.
  unfold relay_token. destruct (hmac secret host_id) as [mac|]; [|done].
  induction mac as [|b mac IH]; [done|]. cbn [mbind list_bind]. rewrite forallb_app, IH. cbn [forallb].
  by rewrite hex_high, hex_low.
Qed.

Lemma relay_token_len hmac secret host_id mac :
  hmac secret host_id = Some mac -> len (relay_token hmac secret host_id) = 2 * len mac.
Proof.
  intros E. unfold relay_token. rewrite E. clear E.
  induction mac as [|b mac IH]; [done|]. cbn [mbind list_bind]. rewrite len_app, IH, !len_cons, len_nil. lia.
Qed.

Lemma forallb_lowercase bs :
  forallb is_ascii_hexdigit (to_ascii_lowercase <$> bs) = true -> forallb is_ascii_hexdigit bs = true.
Proof.
  induction bs as [|b bs IH]; [done|]. cbn. intros [H1 H2]%andb_prop. rewrite lowercase_hex, IH by done. done.
Qed.

(** The comparison of a presented token, which looks at every character
    whatever the earlier ones were, accepts exactly the host's token, in upper or
    lower case: no other string, no prefix of it and no longer one. *)
Theorem token_comparison_exact hmac secret host_id presented :
  relay_token_matches hmac secret host_id presented = true <->
  len presented = 64 /\ to_ascii_lowercase <$> presented = relay_token hmac secret host_id.
Proof.
  unfold relay_token_matches. set (expected := relay_token hmac secret host_id).
  destruct (Z.eqb_spec (len presented) 64) as [L|L]; cbn [negb]; [|naive_solver].
  destruct (Z.eqb_spec (len expected) 64) as [X|X]; cbn [negb].
  2:{ split; [done|]. intros [_ Y]. exfalso. apply X. rewrite <- Y, len_fmap. exact L. }
  assert (S : length expected = length presented) by (unfold len in *; lia).
  pose proof (compare_tokens_spec expected presented 0 0 S) as C.
  destruct (compare_tokens expected presented 0 0) as [d h]. destruct C as [D H].
  rewrite andb_true_iff, !Z.eqb_eq, D, H. split; [naive_solver|]. intros [_ Y]. split_and!; [done..|].
  apply forallb_lowercase. rewrite Y. apply relay_token_hex.
Qed.

(** ** Host identifiers *)

Lemma forallb_take {A} (p : A -> bool) n l : forallb p l = true -> forallb p (take n l) = true.
Proof.
  revert n. induction l as [|a l IH]; intros [|n]; cbn; try done. intros [-> H]%andb_prop. by rewrite IH.
Qed.

(** A host can register whatever its name is. *)
Lemma sanitized_host_id_ok name : relay_host_id_ok (sanitize_host_id name) = true.
Proof.
  unfold sanitize_host_id, relay_host_id_ok. cbv zeta.
  set (out := if len (List.filter is_id_byte name) =? 0 then str_bytes "host" else List.filter is_id_byte name).
  assert (O : forallb is_id_byte out = true).
  { unfold out. case_match; [done|]. apply forallb_forall. by intros b [_ ?]%filter_In. }
  assert (N : 0 < len out).
  { unfold out. case_match eqn:Z; [done|]. apply Z.eqb_neq in Z. len_facts. lia. }
  assert (L : 0 < len (take 128 out) <= 128) by (rewrite len_take; unfold len in *; lia).
  autounfold with limits. rewrite (proj2 (Z.eqb_neq _ _)), (proj2 (Z.ltb_ge _ _)) by lia. by apply forallb_take.
Qed.

Lemma next_backoff_bounds d : from_secs 1 <= next_backoff d <= from_secs 30.
Proof. unfold next_backoff, from_secs. lia. Qed.
