(* ===== verification/Relay.v ===== *)
(** * The relay

    [clients/rust/maho-relay/src/lib.rs]: hosts register with it, clients connect
    to a registered host through it, and it forwards their frames.  Every
    WebSocket has a task; the tasks share the maps of hosts, sessions and rates,
    and run on several threads.  A task is the statement it is about to execute
    with the local variables it still needs, so that the tasks interleave
    between any two accesses to the shared maps, not only where the code awaits;
    an iteration over a map is one access.  Idle and accept timeouts and the
    ping interval are events that can happen at any time. *)

From Stdlib Require Import Sorted.
From S2P Require Import Prelude Codec Admission RelayProto.

Definition conn : Type := nat.
Definition IpAddr : Type := list byte.

Record RelayConfig : Type := mkRelayConfig {
  rc_auth_secret : list byte;
  rc_max_sessions_per_host : Z;
  rc_max_payload_len : Z;
  rc_max_session_duration : Duration;
  rc_connects_per_minute : Z
}.

Definition RelayConfig_from_secret (secret : list byte) : RelayConfig :=
  mkRelayConfig secret RELAY_MAX_SESSIONS_PER_HOST RELAY_MAX_PAYLOAD_LEN (from_secs (24 * 60 * 60))
    RELAY_CONNECTS_PER_MINUTE.

(** [None]: [RelayError::MissingSecret]. *)
Definition config_from_secret (secret : option (list byte)) : option RelayConfig :=
  match secret with
  | Some value => if len value =? 0 then None else Some (RelayConfig_from_secret value)
  | None => None
  end.

(** WebSocket messages. *)
Inductive Message : Type :=
| WS_Text (text : rstring)
| WS_Binary (bytes : list byte)
| WS_Ping (payload : list byte)
| WS_Pong (payload : list byte)
| WS_Close.

(** [accept_tx] is still there. *)
Record Session : Type := mkSession {
  ss_host_id : rstring;
  ss_client_tx : conn;
  ss_accept_tx : bool;
  ss_created : Instant
}.

(** The tasks of a host's socket ([host_socket]) and of a client's
    ([client_socket]). *)
Inductive Task : Type :=
| HT_First                                                     (* socket.recv() *)
| HT_Greet (host_id : rstring) (registered : Message)          (* socket.send(registered) *)
| HT_DropHost (host_id : rstring) (closing : bool)             (* drop_host: hosts.remove *)
| HT_DropScan (host_id : rstring) (closing : bool)             (* drop_host: the doomed sessions *)
| HT_DropSessions (host_id : rstring) (doomed : list rstring) (closing : bool)
| HT_Insert (host_id : rstring)                                (* hosts.insert *)
| HT_Loop (host_id : rstring)
| HT_Accepting (host_id : rstring) (client : conn)             (* sender.send(()) *)
| HT_Expire (host_id : rstring) (key : rstring)                (* the session is too old *)
| HT_Deliver (host_id : rstring) (client : conn) (bytes : list byte)
| HT_Draining                                                  (* writer.await *)
| CT_Start (host_id : rstring) (ip : IpAddr)                   (* allow_connect *)
| CT_Known (host_id : rstring)                                 (* hosts.contains_key *)
| CT_First (host_id : rstring)                                 (* socket.recv() *)
| CT_Count (host_id : rstring)                                 (* session_count *)
| CT_Insert (host_id : rstring)                                (* sessions.insert *)
| CT_Lookup (host_id : rstring) (uuid : list byte)             (* hosts.get *)
| CT_Notify (host_id : rstring) (uuid : list byte) (host_tx : conn)
| CT_Accept (host_id : rstring) (uuid : list byte) (host_tx : conn)
| CT_Greet (host_id : rstring) (uuid : list byte) (host_tx : conn) (connected : Message)
| CT_Loop (host_id : rstring) (uuid : list byte) (host_tx : conn)
| CT_Check (host_id : rstring) (uuid : list byte) (host_tx : conn) (bytes : list byte)
| CT_Alive (host_id : rstring) (uuid : list byte) (host_tx : conn) (bytes : list byte)
| CT_Send (host_id : rstring) (uuid : list byte) (host_tx : conn) (bytes : list byte)
| CT_Remove (uuid : list byte) (reply : option Message)        (* sessions.remove *)
| T_Done.

(** What happened, newest first. *)
Inductive RelayEffect : Type :=
| RE_In (c : conn) (m : Message)                               (* received from a socket *)
| RE_Out (c : conn) (m : Message)                              (* written to a socket *)
| RE_Session (c : conn) (host_id : rstring) (uuid : list byte)
| RE_Registered (c : conn) (host_id : rstring).

(** [rl_queues]: the channel of each task whose receiver still exists;
    [rl_accepted]: the clients whose [accept_rx] has got its [()]. *)
Record Relay : Type := mkRelay {
  rl_hosts : gmap rstring conn;
  rl_sessions : gmap rstring Session;
  rl_rates : gmap IpAddr (list Instant);
  rl_tasks : gmap conn Task;
  rl_queues : gmap conn (list Message);
  rl_accepted : gset conn;
  rl_log : list RelayEffect
}.

Definition Relay_new : Relay := mkRelay ∅ ∅ ∅ ∅ ∅ ∅ [].

Definition set_hosts (m : gmap rstring conn) (s : Relay) : Relay :=
  mkRelay m (rl_sessions s) (rl_rates s) (rl_tasks s) (rl_queues s) (rl_accepted s) (rl_log s).
Definition set_sessions (m : gmap rstring Session) (s : Relay) : Relay :=
  mkRelay (rl_hosts s) m (rl_rates s) (rl_tasks s) (rl_queues s) (rl_accepted s) (rl_log s).
Definition set_rates (m : gmap IpAddr (list Instant)) (s : Relay) : Relay :=
  mkRelay (rl_hosts s) (rl_sessions s) m (rl_tasks s) (rl_queues s) (rl_accepted s) (rl_log s).
Definition goto (c : conn) (t : Task) (s : Relay) : Relay :=
  mkRelay (rl_hosts s) (rl_sessions s) (rl_rates s) (<[c := t]> (rl_tasks s)) (rl_queues s) (rl_accepted s) (rl_log s).
Definition set_queues (m : gmap conn (list Message)) (s : Relay) : Relay :=
  mkRelay (rl_hosts s) (rl_sessions s) (rl_rates s) (rl_tasks s) m (rl_accepted s) (rl_log s).
Definition set_accepted (x : gset conn) (s : Relay) : Relay :=
  mkRelay (rl_hosts s) (rl_sessions s) (rl_rates s) (rl_tasks s) (rl_queues s) x (rl_log s).
Definition log (e : RelayEffect) (s : Relay) : Relay :=
  mkRelay (rl_hosts s) (rl_sessions s) (rl_rates s) (rl_tasks s) (rl_queues s) (rl_accepted s) (e :: rl_log s).

(** ** Channels *)

(** [tx.send(message)], and whether the receiver still exists. *)
Definition has_receiver (tx : conn) (s : Relay) : bool := bool_decide (is_Some (rl_queues s !! tx)).
Definition send (tx : conn) (m : Message) (s : Relay) : Relay :=
  match rl_queues s !! tx with
  | Some q => set_queues (<[tx := q ++ [m]]> (rl_queues s)) s
  | None => s
  end.
Definition new_channel (c : conn) (s : Relay) : Relay := set_queues (<[c := []]> (rl_queues s)) s.
Definition drop_channel (c : conn) (s : Relay) : Relay := set_queues (delete c (rl_queues s)) s.

(** The senders of a client's channel, and of its [accept_rx]: a session in the map
    holds them, or a host's task that took one out of it. *)
Definition session_holds (c : conn) (s : Relay) : bool :=
  existsb (fun e => bool_decide (ss_client_tx e.2 = c)) (map_to_list (rl_sessions s))
  || existsb (fun e => match e.2 with HT_Deliver _ client _ => bool_decide (client = c) | _ => false end)
       (map_to_list (rl_tasks s)).
Definition accept_pending (c : conn) (s : Relay) : bool :=
  existsb (fun e => bool_decide (ss_client_tx e.2 = c) && ss_accept_tx e.2) (map_to_list (rl_sessions s))
  || existsb (fun e => match e.2 with HT_Accepting _ client => bool_decide (client = c) | _ => false end)
       (map_to_list (rl_tasks s)).

(** The host channel a task holds a sender of. *)
Definition host_tx_of (t : Task) : option conn :=
  match t with
  | CT_Notify _ _ h | CT_Accept _ _ h | CT_Greet _ _ h _ | CT_Loop _ _ h | CT_Check _ _ h _ | CT_Alive _ _ h _
  | CT_Send _ _ h _ => Some h
  | _ => None
  end.
Definition host_held (c : conn) (s : Relay) : bool :=
  existsb (fun e => bool_decide (e.2 = c)) (map_to_list (rl_hosts s))
  || existsb (fun e => bool_decide (host_tx_of e.2 = Some c)) (map_to_list (rl_tasks s)).

Create HintDb relay discriminated.

Section Relay.

Context (hmac : list byte -> list byte -> option (list byte)) (text_of : RelayControl -> option rstring)
  (control_of : rstring -> option RelayControl) (uuid_text : list byte -> rstring) (config : RelayConfig).

(** [relay_token_matches(&config.auth_secret, ..)] *)
Definition token_ok (host_id token : rstring) : bool :=
  relay_token_matches hmac (rc_auth_secret config) host_id token.

Definition text_message (control : RelayControl) : option Message := WS_Text <$> text_of control.
Definition error_message (code message : string) : Message :=
  default WS_Close (text_message (RC_Error (str_bytes code) (str_bytes message))).

(** ** Shared state *)

Definition allow_connect (ip : IpAddr) (now : Instant) (s : Relay) : bool * Relay :=
  let hits := default [] (rl_rates s !! ip) in
  let hits := List.filter (fun stamp => saturating_duration_since now stamp <? from_secs 60) hits in
  if rc_connects_per_minute config <=? len hits mod 4294967296
  then (false, set_rates (<[ip := hits]> (rl_rates s)) s)
  else (true, set_rates (<[ip := hits ++ [now]]> (rl_rates s)) s).

Definition sessions_of (host_id : rstring) (s : Relay) : list rstring :=
  (map_to_list (filter (fun e => ss_host_id e.2 = host_id) (rl_sessions s))).*1.
Definition session_count (host_id : rstring) (s : Relay) : Z := len (sessions_of host_id s).

(** [Uuid::as_bytes] *)
Definition uuid_bytes (value : Z) : list byte := List.rev (le_bytes 16 value).

(** ** What happens to a task *)

Inductive Event : Type :=
| EV_Next                             (* it goes on to its next statement *)
| EV_Message (m : Message)            (* its socket has a message *)
| EV_Ended                            (* its socket ended or failed *)
| EV_Sent (ok : bool)                 (* a write to its socket is over *)
| EV_Uuid (value : Z)                 (* [Uuid::new_v4()] *)
| EV_Outgoing (ok : bool)             (* the first message of its channel is written *)
| EV_Tick                             (* the ping interval *)
| EV_Timeout.                         (* it was idle, or waited too long *)

(** An answer on the socket, and the end of the task. *)
Definition reply (c : conn) (m : Message) (s : Relay) : Relay := goto c T_Done (log (RE_Out c m) s).
Definition end_task (c : conn) (s : Relay) : Relay := drop_channel c (goto c T_Done s).

(** The end of [drop_host]. *)
Definition after_drop (host_id : rstring) (closing : bool) : Task :=
  if closing then HT_Draining else HT_Insert host_id.

(** [handle_host_text]. *)
Definition handle_host_text (c : conn) (host_id text : rstring) (s : Relay) : Relay :=
  match control_of text with
  | None | Some RC_Pong | Some RC_Ping => s
  | Some (RC_Accept session_id) =>
    match rl_sessions s !! session_id with
    | None => s
    | Some session =>
      if negb (bool_decide (ss_host_id session = host_id)) then s
      else if ss_accept_tx session
      then goto c (HT_Accepting host_id (ss_client_tx session))
             (set_sessions (<[session_id := mkSession (ss_host_id session) (ss_client_tx session) false
                (ss_created session)]> (rl_sessions s)) s)
      else s
    end
  | Some _ => send c (error_message "bad_frame" "unexpected host control") s
  end.

(** [forward_from_host]; [Uuid::from_slice] of sixteen bytes does not fail. *)
Definition forward_from_host (c : conn) (host_id : rstring) (bytes : list byte) (now : Instant) (s : Relay)
    : Relay :=
  match decode_relay_frame bytes with
  | Err _ => goto c (HT_DropHost host_id true) (send c (error_message "bad_frame" "invalid frame") s)
  | Ok frame =>
    if rc_max_payload_len config <? len (rf_payload frame)
    then goto c (HT_DropHost host_id true) (send c (error_message "bad_frame" "payload too large") s)
    else
      let key := uuid_text (rf_session_id frame) in
      match rl_sessions s !! key with
      | None => s
      | Some session =>
        if negb (bool_decide (ss_host_id session = host_id)) then s
        else if rc_max_session_duration config <? saturating_duration_since now (ss_created session)
        then goto c (HT_Expire host_id key) s
        else goto c (HT_Deliver host_id (ss_client_tx session) bytes) s
      end
  end.

(** The host's loop. *)
Definition host_loop (c : conn) (host_id : rstring) (e : Event) (now : Instant) (s : Relay) : Relay :=
  match e with
  | EV_Message m =>
    let s := log (RE_In c m) s in
    match m with
    | WS_Text text => handle_host_text c host_id text s
    | WS_Binary bytes => forward_from_host c host_id bytes now s
    | WS_Ping payload => send c (WS_Pong payload) s
    | WS_Pong _ => s
    | WS_Close => goto c (HT_DropHost host_id true) s
    end
  | EV_Tick => match text_message RC_Ping with Some m => send c m s | None => s end
  | EV_Ended | EV_Timeout => goto c (HT_DropHost host_id true) s
  | _ => s
  end.

(** The first checks of [forward_from_client]: the frame to send, stamped. *)
Definition stamp (uuid : list byte) (bytes : list byte) : option (list byte) :=
  match decode_relay_frame bytes with
  | Err _ => None
  | Ok frame =>
    if rc_max_payload_len config <? len (rf_payload frame) then None
    else if bool_decide (rf_session_id frame = replicate 16 Byte.x00) then Some (uuid ++ drop 16 bytes)
    else if negb (bool_decide (rf_session_id frame = uuid)) then None
    else Some bytes
  end.

(** A bad frame: an answer, and the end of the client's loop. *)
Definition bad_frame (c : conn) (uuid : list byte) (s : Relay) : Relay :=
  goto c (CT_Remove uuid None) (log (RE_Out c (error_message "bad_frame" "invalid frame")) s).

(** The client's loop. *)
Definition client_loop (c : conn) (host_id : rstring) (uuid : list byte) (host_tx : conn) (e : Event) (s : Relay)
    : Relay :=
  match e with
  | EV_Message m =>
    let s := log (RE_In c m) s in
    match m with
    | WS_Binary bytes =>
      match stamp uuid bytes with
      | Some bytes => goto c (CT_Check host_id uuid host_tx bytes) s
      | None => bad_frame c uuid s
      end
    | WS_Ping payload => log (RE_Out c (WS_Pong payload)) s
    | WS_Pong _ | WS_Text _ => s
    | WS_Close => goto c (CT_Remove uuid None) s
    end
  | EV_Outgoing ok =>
    match rl_queues s !! c with
    | Some (m :: q) =>
      let s := log (RE_Out c m) (set_queues (<[c := q]> (rl_queues s)) s) in
      if ok then s else goto c (CT_Remove uuid None) s
    | _ => if session_holds c s then s else goto c (CT_Remove uuid None) s
    end
  | EV_Ended | EV_Timeout => goto c (CT_Remove uuid None) s
  | _ => s
  end.

(** The first message of a socket. *)
Definition first_message (e : Event) : option (option rstring) :=
  match e with
  | EV_Message (WS_Text text) => Some (Some text)
  | EV_Message _ | EV_Ended => Some None
  | _ => None
  end.
Definition log_input (c : conn) (e : Event) (s : Relay) : Relay :=
  match e with EV_Message m => log (RE_In c m) s | _ => s end.

(** The host's writer: it ends, and with it the channel's receiver, when a write
    fails. *)
Definition host_writer (c : conn) (ok : bool) (s : Relay) : Relay :=
  match rl_queues s !! c with
  | Some (m :: q) =>
    let s := log (RE_Out c m) (set_queues (<[c := q]> (rl_queues s)) s) in
    if ok then s else drop_channel c s
  | _ => s
  end.

(** [host_socket]. *)
Definition host_event (c : conn) (t : Task) (e : Event) (now : Instant) (s : Relay) : Relay :=
  match e with
  | EV_Outgoing ok => host_writer c ok s
  | _ =>
    match t, e with
    | HT_First, _ =>
      match first_message e with
      | None => s
      | Some first =>
        let s := log_input c e s in
        match first ≫= control_of with
        | Some (RC_Register host_id token) =>
          if negb (relay_host_id_ok host_id) || negb (token_ok host_id token)
          then reply c (error_message "unauthorized" "invalid token") s
          else match text_message (RC_Registered host_id) with
               | Some m => goto c (HT_Greet host_id m) s
               | None => goto c T_Done s
               end
        | _ => reply c (error_message "unauthorized" "expected register") s
        end
      end
    | HT_Greet host_id m, EV_Sent ok =>
      let s := log (RE_Out c m) s in
      if ok then goto c (HT_DropHost host_id false) (new_channel c s) else goto c T_Done s
    | HT_DropHost host_id closing, EV_Next =>
      goto c (HT_DropScan host_id closing) (set_hosts (delete host_id (rl_hosts s)) s)
    | HT_DropScan host_id closing, EV_Next =>
      goto c (HT_DropSessions host_id (sessions_of host_id s) closing) s
    | HT_DropSessions host_id (id :: doomed) closing, EV_Next =>
      goto c (HT_DropSessions host_id doomed closing) (set_sessions (delete id (rl_sessions s)) s)
    | HT_DropSessions host_id [] closing, EV_Next => goto c (after_drop host_id closing) s
    | HT_Insert host_id, EV_Next =>
      goto c (HT_Loop host_id)
        (log (RE_Registered c host_id) (set_hosts (<[host_id := c]> (rl_hosts s)) s))
    | HT_Loop host_id, _ => host_loop c host_id e now s
    | HT_Accepting host_id client, EV_Next =>
      goto c (HT_Loop host_id) (set_accepted ({[client]} ∪ rl_accepted s) s)
    | HT_Expire host_id key, EV_Next =>
      goto c (HT_Loop host_id)
        (send c (error_message "session_expired" "session expired")
           (set_sessions (delete key (rl_sessions s)) s))
    | HT_Deliver host_id client bytes, EV_Next => goto c (HT_Loop host_id) (send client (WS_Binary bytes) s)
    | HT_Draining, EV_Next =>
      if bool_decide (default [] (rl_queues s !! c) = []) && negb (host_held c s) then end_task c s else s
    | _, _ => s
    end
  end.

(** [client_socket]. *)
Definition client_event (c : conn) (t : Task) (e : Event) (now : Instant) (s : Relay) : Relay :=
  match t, e with
  | CT_Start host_id ip, EV_Next =>
    let '(allowed, s) := allow_connect ip now s in
    if allowed : bool then goto c (CT_Known host_id) s
    else reply c (error_message "rate_limited" "too many connects") s
  | CT_Known host_id, EV_Next =>
    if bool_decide (is_Some (rl_hosts s !! host_id)) then goto c (CT_First host_id) s
    else reply c (error_message "not_found" "host is not registered") s
  | CT_First host_id, _ =>
    match first_message e with
    | None => s
    | Some first =>
      let s := log_input c e s in
      match first ≫= control_of with
      | Some (RC_Connect claimed token) =>
        if negb (bool_decide (claimed = host_id)) || negb (token_ok host_id token)
        then reply c (error_message "unauthorized" "invalid token") s
        else goto c (CT_Count host_id) s
      | _ => reply c (error_message "unauthorized" "expected connect") s
      end
    end
  | CT_Count host_id, EV_Next =>
    if rc_max_sessions_per_host config <=? session_count host_id s
    then reply c (error_message "session_limit" "too many sessions") s
    else goto c (CT_Insert host_id) s
  | CT_Insert host_id, EV_Uuid value =>
    let uuid := uuid_bytes value in
    goto c (CT_Lookup host_id uuid)
      (set_sessions (<[uuid_text uuid := mkSession host_id c true now]> (rl_sessions s))
         (log (RE_Session c host_id uuid) (new_channel c s)))
  | CT_Lookup host_id uuid, EV_Next =>
    match text_message (RC_Incoming (uuid_text uuid)) with
    | None => goto c (CT_Remove uuid None) s
    | Some _ =>
      match rl_hosts s !! host_id with
      | Some host_tx => goto c (CT_Notify host_id uuid host_tx) s
      | None => goto c (CT_Remove uuid (Some (error_message "not_found" "host is not registered"))) s
      end
    end
  | CT_Notify host_id uuid host_tx, EV_Next =>
    match text_message (RC_Incoming (uuid_text uuid)) with
    | None => goto c (CT_Remove uuid None) s
    | Some incoming =>
      if has_receiver host_tx s then goto c (CT_Accept host_id uuid host_tx) (send host_tx incoming s)
      else goto c (CT_Remove uuid (Some (error_message "not_found" "host is not registered"))) s
    end
  | CT_Accept host_id uuid host_tx, EV_Next =>
    if bool_decide (c ∈ rl_accepted s) then
      match text_message RC_Connected with
      | Some m => goto c (CT_Greet host_id uuid host_tx m) s
      | None => goto c (CT_Remove uuid None) s
      end
    else if accept_pending c s then s
    else goto c (CT_Remove uuid (Some (error_message "not_found" "host did not accept"))) s
  | CT_Accept host_id uuid host_tx, EV_Timeout =>
    goto c (CT_Remove uuid (Some (error_message "not_found" "host did not accept"))) s
  | CT_Greet host_id uuid host_tx m, EV_Sent ok =>
    let s := log (RE_Out c m) s in
    if ok : bool then goto c (CT_Loop host_id uuid host_tx) s else goto c (CT_Remove uuid None) s
  | CT_Loop host_id uuid host_tx, _ => client_loop c host_id uuid host_tx e s
  | CT_Check host_id uuid host_tx bytes, EV_Next =>
    if bool_decide (is_Some (rl_sessions s !! uuid_text uuid))
    then goto c (CT_Alive host_id uuid host_tx bytes) s else bad_frame c uuid s
  | CT_Alive host_id uuid host_tx bytes, EV_Next =>
    if bool_decide (rl_hosts s !! host_id = Some host_tx)
    then goto c (CT_Send host_id uuid host_tx bytes) s else bad_frame c uuid s
  | CT_Send host_id uuid host_tx bytes, EV_Next =>
    if has_receiver host_tx s
    then goto c (CT_Loop host_id uuid host_tx) (send host_tx (WS_Binary bytes) s) else bad_frame c uuid s
  | CT_Remove uuid answer, EV_Next =>
    let s := set_sessions (delete (uuid_text uuid) (rl_sessions s)) s in
    end_task c (match answer with Some m => log (RE_Out c m) s | None => s end)
  | _, _ => s
  end.

Definition is_host_task (t : Task) : bool :=
  match t with
  | HT_First | HT_Greet _ _ | HT_DropHost _ _ | HT_DropScan _ _ | HT_DropSessions _ _ _ | HT_Insert _ | HT_Loop _
  | HT_Accepting _ _ | HT_Expire _ _ | HT_Deliver _ _ _ | HT_Draining => true
  | _ => false
  end.

(** Sockets are opened on the routes [/register] and [/connect/{host_id}]; then
    their tasks take turns. *)
Inductive Input : Type :=
| IN_Host (c : conn)
| IN_Client (c : conn) (host_id : rstring) (ip : IpAddr)
| IN_Event (c : conn) (e : Event) (now : Instant).

Definition open_task (c : conn) (t : Task) (s : Relay) : Relay :=
  match rl_tasks s !! c with None => goto c t s | Some _ => s end.

Definition relay_input (s : Relay) (i : Input) : Relay :=
  match i with
  | IN_Host c => open_task c HT_First s
  | IN_Client c host_id ip => open_task c (CT_Start host_id ip) s
  | IN_Event c e now =>
    match rl_tasks s !! c with
    | Some t => if is_host_task t then host_event c t e now s else client_event c t e now s
    | None => s
    end
  end.

Definition relay_run (inputs : list Input) : Relay := foldl relay_input Relay_new inputs.

(** * Theorems *)

(** ** Isolation *)

(** The connection presented the host's token to register, or to connect. *)
Definition may_register (l : list RelayEffect) (h : conn) (host_id : rstring) : Prop :=
  exists text token, RE_In h (WS_Text text) ∈ l /\ control_of text = Some (RC_Register host_id token) /\
    relay_host_id_ok host_id = true /\ token_ok host_id token = true.
Definition may_connect (l : list RelayEffect) (c : conn) (host_id : rstring) : Prop :=
  exists text token, RE_In c (WS_Text text) ∈ l /\ control_of text = Some (RC_Connect host_id token) /\
    token_ok host_id token = true.

(** A client has the session [uuid] with the host [host_id]. *)
Definition has_session (l : list RelayEffect) (c : conn) (host_id : rstring) (uuid : list byte) : Prop :=
  RE_Session c host_id uuid ∈ l /\ may_connect l c host_id /\ len uuid = 16.

(** A frame that came from the client of the session [uuid], stamped with it. *)
Definition from_client (l : list RelayEffect) (host_id : rstring) (uuid bytes : list byte) : Prop :=
  exists c sent, has_session l c host_id uuid /\ RE_In c (WS_Binary sent) ∈ l /\ stamp uuid sent = Some bytes.
(** A frame that came from a host and names a session. *)
Definition from_host (l : list RelayEffect) (host_id : rstring) (bytes : list byte) : Prop :=
  exists h, may_register l h host_id /\ RE_In h (WS_Binary bytes) ∈ l.

(** Where a message for the socket [c] may come from. *)
Definition provenance (l : list RelayEffect) (c : conn) (m : Message) : Prop :=
  match m with
  | WS_Binary bytes =>
    (exists host_id uuid, has_session l c host_id uuid /\ from_host l host_id bytes /\
       uuid_text (take 16 bytes) = uuid_text uuid) \/
    (exists host_id uuid, may_register l c host_id /\ from_client l host_id uuid bytes)
  | _ => True
  end.

Fixpoint isolated (l : list RelayEffect) : Prop :=
  match l with
  | [] => True
  | RE_Out c m :: l => provenance l c m /\ isolated l
  | _ :: l => isolated l
  end.

(** What a task may do. *)
Definition task_ok (l : list RelayEffect) (c : conn) (t : Task) : Prop :=
  match t with
  | HT_Greet host_id m => may_register l c host_id /\ (forall b, m <> WS_Binary b)
  | HT_DropHost host_id _ | HT_DropScan host_id _ | HT_DropSessions host_id _ _ | HT_Insert host_id
  | HT_Loop host_id | HT_Accepting host_id _ | HT_Expire host_id _ => may_register l c host_id
  | HT_Deliver host_id client bytes => may_register l c host_id /\ provenance l client (WS_Binary bytes)
  | CT_Count host_id | CT_Insert host_id => may_connect l c host_id
  | CT_Lookup host_id uuid => has_session l c host_id uuid
  | CT_Notify host_id uuid h | CT_Accept host_id uuid h | CT_Loop host_id uuid h =>
    has_session l c host_id uuid /\ may_register l h host_id
  | CT_Greet host_id uuid h m =>
    (has_session l c host_id uuid /\ may_register l h host_id) /\ (forall b, m <> WS_Binary b)
  | CT_Check host_id uuid h bytes | CT_Alive host_id uuid h bytes | CT_Send host_id uuid h bytes =>
    (has_session l c host_id uuid /\ may_register l h host_id) /\ from_client l host_id uuid bytes
  | CT_Remove _ (Some m) => forall b, m <> WS_Binary b
  | _ => True
  end.

Record relay_inv (s : Relay) : Prop := {
  ri_hosts id h : rl_hosts s !! id = Some h -> may_register (rl_log s) h id;
  ri_sessions key session : rl_sessions s !! key = Some session ->
    exists uuid, key = uuid_text uuid /\ has_session (rl_log s) (ss_client_tx session) (ss_host_id session) uuid;
  ri_tasks c t : rl_tasks s !! c = Some t -> task_ok (rl_log s) c t;
  ri_queues c q m : rl_queues s !! c = Some q -> m ∈ q -> provenance (rl_log s) c m;
  ri_log : isolated (rl_log s)
}.

Lemma may_register_mono l l' h id : l ⊆ l' -> may_register l h id -> may_register l' h id.
Proof. intros I (t & k & ?&?). exists t, k. split; [by apply I|done]. Qed.
Lemma may_connect_mono l l' c id : l ⊆ l' -> may_connect l c id -> may_connect l' c id.
Proof. intros I (t & k & ?&?). exists t, k. split; [by apply I|done]. Qed.
Lemma has_session_mono l l' c id u : l ⊆ l' -> has_session l c id u -> has_session l' c id u.
Proof. intros I (?&?&?). split_and!; [by apply I|by eapply may_connect_mono|done]. Qed.
Lemma from_client_mono l l' id u b : l ⊆ l' -> from_client l id u b -> from_client l' id u b.
Proof. intros I (c & sent & ?&?&?). exists c, sent. split_and!; [by eapply has_session_mono|by apply I|done]. Qed.
Lemma from_host_mono l l' id b : l ⊆ l' -> from_host l id b -> from_host l' id b.
Proof. intros I (h & ?&?). exists h. split; [by eapply may_register_mono|by apply I]. Qed.
Lemma provenance_mono l l' c m : l ⊆ l' -> provenance l c m -> provenance l' c m.
Proof.
  intros I. destruct m; cbn; try done. intros [(id&u&?&?&?)|(id&u&?&?)].
  - left. exists id, u. eauto using has_session_mono, from_host_mono.
  - right. exists id, u. eauto using may_register_mono, from_client_mono.
Qed.
Lemma task_ok_mono l l' c t : l ⊆ l' -> task_ok l c t -> task_ok l' c t.
Proof.
  intros I. destruct t; cbn [task_ok]; try case_match; intros; destruct_and?; split_and?;
    eauto using may_register_mono, may_connect_mono, has_session_mono, from_client_mono, provenance_mono.
Qed.

Lemma provenance_plain l c m : (forall b, m <> WS_Binary b) -> provenance l c m.
Proof. destruct m; cbn; try done. intros N. by destruct (N bytes). Qed.
Lemma text_message_plain control m : text_message control = Some m -> forall b, m <> WS_Binary b.
Proof. unfold text_message. destruct (text_of control); cbn; [|done]. by intros [= <-] b. Qed.
Lemma error_message_plain code message b : error_message code message <> WS_Binary b.
Proof.
  unfold error_message. destruct (text_message _) as [m|] eqn:E; cbn; [|done]. by apply (text_message_plain _ _ E).
Qed.
Lemma provenance_error l c code message : provenance l c (error_message code message).
Proof. apply provenance_plain, error_message_plain. Qed.

(** Every change of the shared state keeps the invariant. *)
Lemma inv_log_mono e s :
  relay_inv s -> isolated (e :: rl_log s) -> relay_inv (log e s).
Proof.
  intros [Hh Hs Ht Hq Hl] He. assert (I : rl_log s ⊆ e :: rl_log s) by set_solver.
  split; cbn; try done.
  - eauto using may_register_mono.
  - intros k v Hk. destruct (Hs k v Hk) as (u & -> & ?). eauto using has_session_mono.
  - eauto using task_ok_mono.
  - eauto using provenance_mono.
Qed.
Lemma inv_log_in c m s : relay_inv s -> relay_inv (log (RE_In c m) s).
Proof. intros R. apply inv_log_mono; [done|]. apply R. Qed.
Lemma inv_log_session c id u s : relay_inv s -> relay_inv (log (RE_Session c id u) s).
Proof. intros R. apply inv_log_mono; [done|]. apply R. Qed.
Lemma inv_log_registered c id s : relay_inv s -> relay_inv (log (RE_Registered c id) s).
Proof. intros R. apply inv_log_mono; [done|]. apply R. Qed.
Lemma inv_log_out c m s : provenance (rl_log s) c m -> relay_inv s -> relay_inv (log (RE_Out c m) s).
Proof. intros P R. apply inv_log_mono; [done|]. split; [done|apply R]. Qed.
Lemma inv_goto c t s : task_ok (rl_log s) c t -> relay_inv s -> relay_inv (goto c t s).
Proof.
  intros P [Hh Hs Ht Hq Hl]. split; cbn; try done.
  intros c' t' [[<- <-]|[? ?]]%lookup_insert_Some; eauto.
Qed.
Lemma inv_set_queues m s :
  (forall c q x, m !! c = Some q -> x ∈ q -> provenance (rl_log s) c x) -> relay_inv s -> relay_inv (set_queues m s).
Proof. by intros P [Hh Hs Ht Hq Hl]; split. Qed.
Lemma inv_insert_queue c q s :
  Forall (provenance (rl_log s) c) q -> relay_inv s -> relay_inv (set_queues (<[c := q]> (rl_queues s)) s).
Proof.
  intros P R. apply inv_set_queues; [|done].
  intros c' q' x [[<- <-]|[? ?]]%lookup_insert_Some; [|by eapply R]. by apply Forall_forall.
Qed.
Lemma queue_provenance c q s : relay_inv s -> rl_queues s !! c = Some q -> Forall (provenance (rl_log s) c) q.
Proof. intros R Hq. apply Forall_forall. intros x. by eapply R. Qed.
Lemma inv_send tx m s : provenance (rl_log s) tx m -> relay_inv s -> relay_inv (send tx m s).
Proof.
  intros P R. unfold send. destruct (rl_queues s !! tx) eqn:E; [|done].
  apply inv_insert_queue; [|done]. apply Forall_app. split; [by apply queue_provenance|by constructor].
Qed.
Lemma inv_new_channel c s : relay_inv s -> relay_inv (new_channel c s).
Proof. by apply inv_insert_queue. Qed.
Lemma inv_drop_channel c s : relay_inv s -> relay_inv (drop_channel c s).
Proof. intros R. apply inv_set_queues; [|done]. intros c' q x [? ?]%lookup_delete_Some. by eapply R. Qed.
Lemma inv_delete_host id s : relay_inv s -> relay_inv (set_hosts (delete id (rl_hosts s)) s).
Proof. intros [Hh Hs Ht Hq Hl]. split; cbn; try done. intros ?? [? ?]%lookup_delete_Some. eauto. Qed.
Lemma inv_insert_host id h s :
  may_register (rl_log s) h id -> relay_inv s -> relay_inv (set_hosts (<[id := h]> (rl_hosts s)) s).
Proof. intros P [Hh Hs Ht Hq Hl]. split; cbn; try done. intros ?? [[<- <-]|[? ?]]%lookup_insert_Some; eauto. Qed.
Lemma inv_delete_session key s : relay_inv s -> relay_inv (set_sessions (delete key (rl_sessions s)) s).
Proof. intros [Hh Hs Ht Hq Hl]. split; cbn; try done. intros ?? [? ?]%lookup_delete_Some. eauto. Qed.
Lemma inv_insert_session key session s :
  (exists uuid, key = uuid_text uuid /\ has_session (rl_log s) (ss_client_tx session) (ss_host_id session) uuid) ->
  relay_inv s -> relay_inv (set_sessions (<[key := session]> (rl_sessions s)) s).
Proof. intros P [Hh Hs Ht Hq Hl]. split; cbn; try done. intros ?? [[<- <-]|[? ?]]%lookup_insert_Some; eauto. Qed.
Lemma inv_set_rates m s : relay_inv s -> relay_inv (set_rates m s).
Proof. by intros [Hh Hs Ht Hq Hl]; split. Qed.
Lemma inv_set_accepted x s : relay_inv s -> relay_inv (set_accepted x s).
Proof. by intros [Hh Hs Ht Hq Hl]; split. Qed.
Lemma rl_log_send tx m s : rl_log (send tx m s) = rl_log s.
Proof. unfold send. by case_match. Qed.

#[local] Hint Resolve inv_log_in inv_log_session inv_log_registered inv_log_out inv_goto inv_send inv_new_channel
  inv_drop_channel inv_delete_host inv_insert_host inv_delete_session inv_insert_session inv_set_rates
  inv_set_accepted provenance_error error_message_plain : relay.
Ltac relay_log := cbn [rl_log goto log set_hosts set_sessions set_rates set_queues set_accepted new_channel drop_channel];
  rewrite ?rl_log_send;
  cbn [rl_log goto log set_hosts set_sessions set_rates set_queues set_accepted new_channel drop_channel].

Lemma inv_goto_log c t s l : rl_log s = l -> task_ok l c t -> relay_inv s -> relay_inv (goto c t s).
Proof. intros <-. apply inv_goto. Qed.
Lemma rl_log_allow_connect ip now s : rl_log (allow_connect ip now s).2 = rl_log s.
Proof. unfold allow_connect. by case_match. Qed.
Lemma inv_allow_connect ip now s : relay_inv s -> relay_inv (allow_connect ip now s).2.
Proof. unfold allow_connect. case_match; cbn [snd]; auto with relay. Qed.

Lemma inv_reply c m s : provenance (rl_log s) c m -> relay_inv s -> relay_inv (reply c m s).
Proof. intros P R. apply inv_goto; [done|]. by apply inv_log_out. Qed.
Lemma inv_end_task c s : relay_inv s -> relay_inv (end_task c s).
Proof. intros R. apply inv_drop_channel, inv_goto; done. Qed.
Lemma inv_bad_frame c u s : relay_inv s -> relay_inv (bad_frame c u s).
Proof. intros R. apply inv_goto; [done|]. apply inv_log_out; [apply provenance_error|done]. Qed.
#[local] Hint Resolve inv_reply inv_end_task inv_bad_frame : relay.

(** The first message of a channel written to its socket. *)
Lemma inv_outgoing c m q s :
  relay_inv s -> rl_queues s !! c = Some (m :: q) ->
  relay_inv (log (RE_Out c m) (set_queues (<[c := q]> (rl_queues s)) s)).
Proof.
  intros R Hq. apply queue_provenance in Hq; [|done]. apply Forall_cons in Hq as [P Hq].
  apply inv_log_out; [done|]. by apply inv_insert_queue.
Qed.
#[local] Hint Resolve inv_outgoing : relay.

Lemma inv_handle_host_text c id text s :
  relay_inv s -> may_register (rl_log s) c id -> relay_inv (handle_host_text c id text s).
Proof.
  intros R P. unfold handle_host_text. repeat case_match; auto with relay. subst.
  apply inv_goto; [done|]. apply inv_insert_session; [|done]. cbn. by eapply R.
Qed.

Lemma inv_forward_from_host c id bytes now s :
  relay_inv s -> may_register (rl_log s) c id -> RE_In c (WS_Binary bytes) ∈ rl_log s ->
  relay_inv (forward_from_host c id bytes now s).
Proof.
  intros R P I. unfold forward_from_host. destruct (decode_relay_frame bytes) as [f|e] eqn:D.
  2: { apply inv_goto; [by relay_log|auto with relay]. }
  destruct (_ <? _); [apply inv_goto; [by relay_log|auto with relay]|].
  destruct (rl_sessions s !! _) as [session|] eqn:Hs; [|done].
  destruct (bool_decide (ss_host_id session = id)) eqn:Hb; [|done]. apply bool_decide_eq_true in Hb. cbn [negb].
  destruct (_ <? _); apply inv_goto; try done. split; [done|]. left.
  destruct (ri_sessions s R _ _ Hs) as (u & K & HS). rewrite Hb in HS. exists id, u.
  split_and!; [done|by exists c|]. apply decode_relay_frame_Ok in D as [[L _ _] ->].
  rewrite <- K. f_equal. apply take_app_length'. unfold len in L. lia.
Qed.

Lemma may_register_cons e l h id : may_register l h id -> may_register (e :: l) h id.
Proof. apply may_register_mono. set_solver. Qed.
Lemma may_connect_cons e l c id : may_connect l c id -> may_connect (e :: l) c id.
Proof. apply may_connect_mono. set_solver. Qed.
Lemma has_session_cons e l c id u : has_session l c id u -> has_session (e :: l) c id u.
Proof. apply has_session_mono. set_solver. Qed.

(** The side conditions the log answers for. *)
#[local] Hint Resolve may_register_cons may_connect_cons has_session_cons text_message_plain : relay.
#[local] Hint Extern 1 (provenance _ _ _) => exact I : relay.
#[local] Hint Extern 2 (task_ok _ _ _) => solve [relay_log; cbn [task_ok]; split_and?; auto with relay] : relay.

Lemma inv_host_writer c ok s : relay_inv s -> relay_inv (host_writer c ok s).
Proof. intros R. unfold host_writer. repeat case_match; auto with relay. Qed.

Lemma inv_host_loop c id e now s :
  relay_inv s -> may_register (rl_log s) c id -> relay_inv (host_loop c id e now s).
Proof.
  intros R P. unfold host_loop.
  assert (M : forall m, may_register (RE_In c m :: rl_log s) c id)
    by (intros m; apply (may_register_mono (rl_log s)); [set_solver|done]).
  destruct e as [|m| | | | | |]; auto with relay.
  - destruct m; auto with relay.
    + apply inv_handle_host_text; [auto with relay|apply M].
    + apply inv_forward_from_host; [auto with relay|apply M|]. cbn. set_solver.
  - case_match; auto with relay. apply inv_send; [|done]. by eapply provenance_plain, text_message_plain.
Qed.

Lemma may_register_in c text token id s :
  control_of text = Some (RC_Register id token) -> relay_host_id_ok id = true -> token_ok id token = true ->
  may_register (RE_In c (WS_Text text) :: rl_log s) c id.
Proof. intros. exists text, token. split_and!; try done. left. Qed.
Lemma may_connect_in c text token id s :
  control_of text = Some (RC_Connect id token) -> token_ok id token = true ->
  may_connect (RE_In c (WS_Text text) :: rl_log s) c id.
Proof. intros. exists text, token. split_and!; try done. left. Qed.

Lemma first_message_inv e first :
  first_message e = Some first ->
  (exists text, e = EV_Message (WS_Text text) /\ first = Some text) \/ first = None.
Proof. destruct e as [|m| | | | | |]; try done; [destruct m|]; intros [= <-]; eauto. Qed.

Lemma inv_log_input c e s : relay_inv s -> relay_inv (log_input c e s).
Proof. destruct e; cbn; auto with relay. Qed.
#[local] Hint Resolve inv_log_input inv_host_writer inv_host_loop : relay.

(** A first message that is not understood is answered with an error. *)
Lemma inv_host_first c e now s : relay_inv s -> relay_inv (host_event c HT_First e now s).
Proof.
  intros R. destruct (first_message e) as [first|] eqn:F.
  2: { destruct e as [|[]| | | | | |]; try done; cbn; auto with relay. }
  destruct (first_message_inv _ _ F) as [(text & -> & ->)| ->].
  2: { destruct e as [|m| | | | | |]; try done; cbn; [destruct m|]; try done; cbn; auto with relay. }
  cbn. destruct (control_of text) as [[]|] eqn:C; auto with relay.
  destruct (relay_host_id_ok host_id) eqn:?, (token_ok host_id token) eqn:?; cbn [negb orb]; auto with relay.
  destruct (text_message _) as [m|] eqn:T; auto with relay.
  apply inv_goto; [|auto with relay]. split; [by eapply may_register_in|by eapply text_message_plain].
Qed.

Lemma inv_host_event c t e now s :
  relay_inv s -> task_ok (rl_log s) c t -> relay_inv (host_event c t e now s).
Proof.
  intros R P. destruct t; [by apply inv_host_first| | | | | |pose proof (inv_host_loop _ _ e now s R P)|..];
    (destruct e as [| | | | |ok| |]; [| | | | |by apply inv_host_writer| |]); cbn in P; try done; cbn;
    try (destruct doomed; try done).
  - destruct P as [P N]. destruct ok; [apply inv_goto; [by relay_log; apply may_register_cons|]|];
      auto using provenance_plain with relay.
  - auto with relay.
  - auto with relay.
  - apply inv_goto; [by destruct closing|done].
  - auto with relay.
  - apply inv_goto; [by relay_log; apply may_register_cons|auto with relay].
  - auto with relay.
  - auto with relay.
  - destruct P as [P N]. apply inv_goto; [by relay_log|by apply inv_send].
  - case_match; auto with relay.
Qed.

(** The client's side. *)
Lemma len_uuid_bytes value : len (uuid_bytes value) = 16.
Proof. unfold uuid_bytes, len. rewrite length_rev. apply (len_le_bytes 16). Qed.
Lemma stamp_from_client l c id u bytes stamped :
  has_session l c id u -> stamp u bytes = Some stamped -> RE_In c (WS_Binary bytes) ∈ l ->
  from_client l id u stamped.
Proof. intros. by exists c, bytes. Qed.

(** A stamped frame carries the session identifier. *)
Lemma stamp_session u sent bytes : len u = 16 -> stamp u sent = Some bytes -> take 16 bytes = u.
Proof.
  intros L. unfold stamp. destruct (decode_relay_frame sent) as [f|] eqn:D; [|done].
  apply decode_relay_frame_Ok in D as [[Lf _ _] ->]. repeat case_match; try done; intros [= <-].
  - apply take_app_length'. unfold len in L. lia.
  - match goal with H : negb (bool_decide (_ = u)) = false |- _ =>
      apply negb_false_iff, bool_decide_eq_true in H as <- end.
    apply take_app_length'. unfold len in Lf. lia.
Qed.

Lemma inv_client_loop c id u h e s :
  relay_inv s -> has_session (rl_log s) c id u -> may_register (rl_log s) h id ->
  relay_inv (client_loop c id u h e s).
Proof.
  intros R P Q. unfold client_loop. destruct e as [|m| | | |ok| |]; auto with relay.
  - destruct m; auto with relay. destruct (stamp u bytes) as [stamped|] eqn:St; [|auto with relay].
    apply inv_goto; [|auto with relay]. cbn. split_and!; auto with relay.
    eapply stamp_from_client; [by apply has_session_cons|done|left].
  - repeat case_match; auto with relay.
Qed.
#[local] Hint Resolve inv_client_loop : relay.

Lemma inv_client_first c id e now s : relay_inv s -> relay_inv (client_event c (CT_First id) e now s).
Proof.
  intros R. cbn. destruct (first_message e) as [first|] eqn:F; [|done].
  destruct (first_message_inv _ _ F) as [(text & -> & ->)| ->]; [|cbn; auto with relay].
  cbn. destruct (control_of text) as [[]|] eqn:C; auto with relay.
  destruct (bool_decide (host_id = id)) eqn:B; [|cbn; auto with relay]. apply bool_decide_eq_true in B as ->.
  destruct (token_ok id token) eqn:T; cbn [negb orb]; [|auto with relay].
  apply inv_goto; [by eapply may_connect_in|auto with relay].
Qed.

Lemma inv_client_event c t e now s :
  relay_inv s -> task_ok (rl_log s) c t -> relay_inv (client_event c t e now s).
Proof.
  intros R P.
  destruct t; try done; try (by apply inv_client_first); cbn in P;
    repeat (match type of P with _ /\ _ => destruct P as [P ?] end); try (by apply inv_client_loop); destruct e; try done; cbn; auto with relay.
  - pose proof (inv_allow_connect ip now s R) as A. destruct (allow_connect ip now s) as [[] s']; cbn in A;
      auto with relay.
  - case_match; auto with relay.
  - case_match; auto with relay.
  - assert (HS : has_session (RE_Session c host_id (uuid_bytes value) :: rl_log s) c host_id (uuid_bytes value))
      by (split_and!; [left|by apply may_connect_cons|apply len_uuid_bytes]).
    apply inv_goto; [done|].
    apply (inv_insert_session _ _ (log (RE_Session c host_id (uuid_bytes value)) (new_channel c s)));
      [by exists (uuid_bytes value)|auto with relay].
  - destruct (text_message _); [|auto with relay]. destruct (rl_hosts s !! host_id) as [h|] eqn:Hh; auto with relay.
    apply inv_goto; [|done]. split; [done|by eapply R].
  - destruct (text_message _) as [m|] eqn:T; [|auto with relay]. case_match; [|auto with relay].
    apply inv_goto; [by relay_log|]. apply inv_send; [|done]. by eapply provenance_plain, text_message_plain.
  - case_match; [|case_match; auto with relay]. destruct (text_message _) as [m|] eqn:T; [|auto with relay].
    apply inv_goto; [|done]. split_and!; [done|done|]. by eapply text_message_plain.
  - assert (relay_inv (log (RE_Out c connected) s)) by auto using provenance_plain with relay.
    case_match; auto with relay.
  - case_match; auto with relay.
  - case_match; auto with relay.
  - case_match; [|auto with relay]. apply inv_goto; [by relay_log|]. apply inv_send; [|done].
    right. by exists host_id, uuid.
  - destruct reply0 as [m|]; [|auto with relay]. apply inv_end_task, inv_log_out; [by apply provenance_plain|].
    auto with relay.
Qed.

Lemma relay_inv_run inputs : relay_inv (relay_run inputs).
Proof.
  unfold relay_run. induction inputs as [|i inputs IH] using rev_ind.
  - split; cbn; set_solver.
  - rewrite foldl_snoc. set (s := foldl relay_input Relay_new inputs) in *. destruct i; cbn.
    + unfold open_task. case_match; auto with relay.
    + unfold open_task. case_match; auto with relay.
    + destruct (rl_tasks s !! c) as [t|] eqn:Ht; [|done]. apply (ri_tasks s IH) in Ht.
      case_match; [by apply inv_host_event|by apply inv_client_event].
Qed.

Lemma isolated_split l : isolated l -> forall later earlier c m,
  l = later ++ RE_Out c m :: earlier -> provenance earlier c m.
Proof.
  induction l as [|e l IH]; intros I later earlier c m E; [by destruct later|].
  destruct later as [|e' later]; cbn in E; simplify_eq; [by destruct I|].
  eapply IH; [|done]. by destruct e'; cbn in I; destruct_and?.
Qed.

(** C30: the relay keeps sessions apart, in every interleaving of its sockets' tasks
    ([relay_input] on any inputs, with any HMAC, JSON and UUID functions): a
    binary frame written to a client's socket was received from a connection
    that registered the host the client connected to, by presenting a token for it,
    and names a session of that client; one written to a host's socket was
    received from a client that presented a token for this host, and carries that
    client's session identifier, whatever the client wrote in its place. *)
Theorem relay_isolates_sessions inputs later earlier c bytes :
  rl_log (relay_run inputs) = later ++ RE_Out c (WS_Binary bytes) :: earlier ->
  (exists host_id uuid, has_session earlier c host_id uuid /\ from_host earlier host_id bytes /\
     uuid_text (take 16 bytes) = uuid_text uuid) \/
  (exists host_id uuid, may_register earlier c host_id /\ from_client earlier host_id uuid bytes /\
     take 16 bytes = uuid).
Proof.
  intros E. pose proof (isolated_split _ (ri_log _ (relay_inv_run inputs)) _ _ _ _ E) as [P|(id & u & R & P)].
  { by left. }
  right. exists id, u. split_and!; [done|done|]. destruct P as (c' & sent & (_&_&?) & _ & St).
  by eapply stamp_session.
Qed.

(** ** The rate of connects *)

Definition within_minute (now stamp : Instant) : bool := saturating_duration_since now stamp <? from_secs 60.
Definition in_window (t stamp : Instant) : bool := (t - from_secs 60 <? stamp) && (stamp <=? t).
Definition hits_of (ip : IpAddr) (accepted : list (IpAddr * Instant)) : list Instant :=
  map snd (List.filter (fun a => bool_decide (a.1 = ip)) accepted).

(** The accepted of a sequence of connects, as the relay decides them, and as a
    limiter that forgets nothing would. *)
Definition connect_step (st : list (IpAddr * Instant) * Relay) (call : IpAddr * Instant) :
    list (IpAddr * Instant) * Relay :=
  let '(allowed, s) := allow_connect call.1 call.2 st.2 in (if allowed : bool then st.1 ++ [call] else st.1, s).
Definition reference_step (accepted : list (IpAddr * Instant)) (call : IpAddr * Instant) : list (IpAddr * Instant) :=
  if len (List.filter (within_minute call.2) (hits_of call.1 accepted)) <? rc_connects_per_minute config
  then accepted ++ [call] else accepted.

(** After calls up to [now]: the pruned stamps decide like all of them, and no
    window has too many. *)
Record limiter_inv (now : Instant) (accepted : list (IpAddr * Instant)) (s : Relay) : Prop := {
  li_hits ip t : now <= t ->
    List.filter (within_minute t) (default [] (rl_rates s !! ip)) = List.filter (within_minute t) (hits_of ip accepted);
  li_past ip : Forall (fun stamp => stamp <= now) (hits_of ip accepted);
  li_window ip t : len (List.filter (in_window t) (hits_of ip accepted)) <= rc_connects_per_minute config
}.

Lemma filter_within_prune now t l :
  now <= t ->
  List.filter (within_minute t) (List.filter (within_minute now) l) = List.filter (within_minute t) l.
Proof.
  intros N. induction l as [|x l IH]; [done|]. cbn. destruct (within_minute now x) eqn:E; cbn; rewrite IH; [done|].
  unfold within_minute, saturating_duration_since in *. apply Z.ltb_ge in E.
  by rewrite (proj2 (Z.ltb_ge _ _)) by lia.
Qed.
Lemma filter_len_mono {A} (p q : A -> bool) l :
  Forall (fun x => p x = true -> q x = true) l -> len (List.filter p l) <= len (List.filter q l).
Proof.
  induction 1 as [|x l E _ IH]; [done|]. cbn. destruct (p x) eqn:P; [rewrite E by done|destruct (q x)];
    rewrite ?len_cons; lia.
Qed.
Lemma hits_of_snoc ip accepted call :
  hits_of ip (accepted ++ [call]) = hits_of ip accepted ++ (if bool_decide (call.1 = ip) then [call.2] else []).
Proof. unfold hits_of. rewrite List.filter_app, map_app. cbn. by case_bool_decide. Qed.

Lemma limiter_step now accepted s call :
  0 <= rc_connects_per_minute config < 4294967296 -> limiter_inv now accepted s -> now <= call.2 ->
  (connect_step (accepted, s) call).1 = reference_step accepted call /\
  limiter_inv call.2 (connect_step (accepted, s) call).1 (connect_step (accepted, s) call).2.
Proof.
  intros B [Hh Hp Hw] N. destruct call as [ip t]. cbn in N.
  unfold connect_step, reference_step, allow_connect. cbn [fst snd].
  change (fun stamp => saturating_duration_since t stamp <? from_secs 60) with (within_minute t).
  rewrite (Hh ip t N). set (recent := List.filter (within_minute t) (hits_of ip accepted)).
  assert (R : len recent <= rc_connects_per_minute config).
  { etrans; [|apply (Hw ip t)]. apply filter_len_mono. eapply Forall_impl; [apply (Hp ip)|]. cbn. intros x X.
    unfold within_minute, in_window, saturating_duration_since. rewrite Z.ltb_lt, andb_true_iff, Z.ltb_lt, Z.leb_le. lia. }
  assert (L : 0 <= len recent) by (unfold len; lia). rewrite Z.mod_small by lia.
  assert (Past : forall ip', Forall (fun stamp => stamp <= t) (hits_of ip' accepted))
    by (intros ip'; eapply Forall_impl; [apply Hp|]; cbn; lia).
  assert (Keep : forall x ip' t', t <= t' ->
    List.filter (within_minute t') (default [] (<[ip := recent ++ x]> (rl_rates s) !! ip')) =
    List.filter (within_minute t') (hits_of ip' accepted ++ if bool_decide (ip = ip') then x else [])).
  { intros x ip' t' T. rewrite List.filter_app. case_bool_decide as D; [subst ip'|].
    - rewrite lookup_insert_eq. cbn. rewrite List.filter_app. f_equal. by apply filter_within_prune.
    - rewrite lookup_insert_ne, app_nil_r by done. apply Hh. lia. }
  destruct (_ <=? len recent) eqn:E.
  - apply Z.leb_le in E. rewrite (proj2 (Z.ltb_ge _ _)) by done. split; [done|]. split; cbn; [|done|done].
    intros ip' t' T. specialize (Keep [] ip' t' T). rewrite app_nil_r in Keep. rewrite Keep.
    case_bool_decide; by rewrite app_nil_r.
  - apply Z.leb_gt in E. rewrite (proj2 (Z.ltb_lt _ _)) by done. split; [done|].
    split; cbn; intros ip'; setoid_rewrite hits_of_snoc; cbn [fst snd].
    + intros t' T. apply Keep. exact T.
    + apply Forall_app. split; [done|]. case_bool_decide; repeat constructor. lia.
    + intros t'. rewrite List.filter_app, len_app. specialize (Hw ip' t').
      case_bool_decide as D; [subst ip'|cbn; unfold len at 2; cbn; lia].
      destruct (in_window t' t) eqn:W; cbn; rewrite W; [|unfold len at 2; cbn; lia].
      enough (len (List.filter (in_window t') (hits_of ip accepted)) <= len recent) by (unfold len at 2; cbn; lia).
      apply filter_len_mono. eapply Forall_impl; [apply (Past ip)|]. cbn. intros x X. revert W.
      unfold within_minute, in_window, saturating_duration_since.
      rewrite !andb_true_iff, !Z.ltb_lt, !Z.leb_le. lia.
Qed.

(** The limit on connects: for connects in the order of their times, the relay
    admits exactly those that a limiter remembering every admitted connect would,
    although it forgets the stamps older than a minute; and of one address
    it admits at most [connects_per_minute] in any minute. *)
Theorem connects_rate_limited calls :
  0 <= rc_connects_per_minute config < 4294967296 -> Sorted Z.le calls.*2 ->
  let accepted := (foldl connect_step ([], Relay_new) calls).1 in
  accepted = foldl reference_step [] calls /\
  (forall ip t, len (List.filter (in_window t) (hits_of ip accepted)) <= rc_connects_per_minute config).
Proof.
  intros B So. cbn zeta.
  enough (G : forall now accepted s, HdRel Z.le now calls.*2 -> limiter_inv now accepted s ->
    (foldl connect_step (accepted, s) calls).1 = foldl reference_step accepted calls /\
    exists now', limiter_inv now' (foldl connect_step (accepted, s) calls).1 (foldl connect_step (accepted, s) calls).2).
  { destruct (G (default 0 (head calls.*2)) [] Relay_new) as (E & now' & I); [| |by split; [|apply I]].
    - destruct calls; by constructor.
    - split; [done|intros; apply Forall_nil_2|intros; apply (proj1 B)]. }
  induction calls as [|call calls IH]; cbn [foldl]; intros now accepted s Hd I; [by eauto|].
  cbn in So, Hd. inversion So as [|?? So' Hd']; subst. inversion Hd; subst.
  destruct (limiter_step now accepted s call B I) as [E I']; [done|].
  destruct (connect_step (accepted, s) call) as [a' s'] eqn:St. cbn in E, I'. subst a'.
  by apply (IH So' call.2).
Qed.

(** ** Forwarding *)

(** A client and its host talk; messages wait in their channels. *)
Record connected (host_id : rstring) (uuid : list byte) (c h : conn) (created : Instant) (to_client to_host : list Message)
    (s : Relay) : Prop := {
  cn_client : rl_tasks s !! c = Some (CT_Loop host_id uuid h);
  cn_host : rl_tasks s !! h = Some (HT_Loop host_id);
  cn_session : exists accept_tx, rl_sessions s !! uuid_text uuid = Some (mkSession host_id c accept_tx created);
  cn_live : rl_hosts s !! host_id = Some h;
  cn_to_client : rl_queues s !! c = Some to_client;
  cn_to_host : rl_queues s !! h = Some to_host
}.

(** The inputs of a socket's task, in order. *)
Definition events (c : conn) (now : Instant) (es : list Event) : list Input := map (fun e => IN_Event c e now) es.

Lemma decode_parts id channel payload :
  len id = 16 -> channel_ok channel = true -> len payload <= RELAY_MAX_PAYLOAD_LEN ->
  decode_relay_frame (id ++ [Z_to_byte channel] ++ payload) = Ok (mkRelayFrame id channel payload).
Proof. intros. by apply (decode_encoded_frame (mkRelayFrame id channel payload)). Qed.

Lemma relay_input_task c e now s t :
  rl_tasks s !! c = Some t ->
  relay_input s (IN_Event c e now) = if is_host_task t then host_event c t e now s else client_event c t e now s.
Proof. intros E. cbn. by rewrite E. Qed.
Lemma relay_input_goto c e now s t :
  relay_input (goto c t s) (IN_Event c e now) =
  if is_host_task t then host_event c t e now (goto c t s) else client_event c t e now (goto c t s).
Proof. apply relay_input_task. cbn. by rewrite lookup_insert_eq. Qed.

Lemma stamp_own uuid channel payload own :
  len uuid = 16 -> channel_ok channel = true -> len payload <= RELAY_MAX_PAYLOAD_LEN ->
  len payload <= rc_max_payload_len config -> own = uuid \/ own = replicate 16 Byte.x00 ->
  stamp uuid (own ++ [Z_to_byte channel] ++ payload) = Some (uuid ++ [Z_to_byte channel] ++ payload).
Proof.
  intros U C P M Ow. assert (L : len own = 16) by (by destruct Ow as [-> | ->]).
  unfold stamp. rewrite decode_parts by done. cbn [rf_payload rf_session_id].
  rewrite (proj2 (Z.ltb_ge _ _)) by done. rewrite drop_app_length' by (unfold len in L; lia).
  case_bool_decide as Zd; [done|]. destruct Ow as [->|]; [|done]. by rewrite bool_decide_true.
Qed.

Lemma client_frame_forwarded id uuid c h created qc qh s own channel payload now :
  connected id uuid c h created qc qh s -> c <> h ->
  len uuid = 16 -> channel_ok channel = true -> len payload <= RELAY_MAX_PAYLOAD_LEN ->
  len payload <= rc_max_payload_len config -> own = uuid \/ own = replicate 16 Byte.x00 ->
  connected id uuid c h created qc (qh ++ [WS_Binary (uuid ++ [Z_to_byte channel] ++ payload)])
    (foldl relay_input s
       (events c now [EV_Message (WS_Binary (own ++ [Z_to_byte channel] ++ payload)); EV_Next; EV_Next; EV_Next])).
Proof.
  intros [Tc Th [a Se] Li Qc Qh] N U C P M Ow. cbn [events map foldl].
  rewrite (relay_input_task _ _ _ _ _ Tc). cbn [is_host_task client_event client_loop]. rewrite stamp_own by done.
  rewrite relay_input_goto. cbn [is_host_task client_event].
  rewrite bool_decide_true by (cbn; by rewrite Se).
  rewrite relay_input_goto. cbn [is_host_task client_event]. rewrite bool_decide_true by done.
  rewrite relay_input_goto. cbn [is_host_task client_event].
  unfold has_receiver, send. cbn [rl_queues goto log]. rewrite Qh, bool_decide_true by done.
  split; cbn; try done; eauto; by simplify_map_eq.
Qed.

Lemma host_frame_forwarded id uuid c h created qc qh s channel payload now :
  connected id uuid c h created qc qh s -> c <> h ->
  len uuid = 16 -> channel_ok channel = true -> len payload <= RELAY_MAX_PAYLOAD_LEN ->
  len payload <= rc_max_payload_len config ->
  saturating_duration_since now created <= rc_max_session_duration config ->
  connected id uuid c h created (qc ++ [WS_Binary (uuid ++ [Z_to_byte channel] ++ payload)]) qh
    (foldl relay_input s (events h now [EV_Message (WS_Binary (uuid ++ [Z_to_byte channel] ++ payload)); EV_Next])).
Proof.
  intros [Tc Th [a Se] Li Qc Qh] N U C P M D. cbn [events map foldl].
  rewrite (relay_input_task _ _ _ _ _ Th). cbn [is_host_task host_event host_loop]. unfold forward_from_host.
  rewrite decode_parts by done. cbn [rf_payload rf_session_id]. rewrite (proj2 (Z.ltb_ge _ _)) by done.
  cbn [log rl_sessions]. rewrite Se. cbn [ss_host_id ss_created ss_client_tx].
  rewrite bool_decide_true by done. cbn [negb]. rewrite (proj2 (Z.ltb_ge _ _)) by done.
  rewrite relay_input_goto. cbn [is_host_task host_event]. unfold send. cbn [rl_queues goto log]. rewrite Qc.
  split; cbn; try done; eauto; by simplify_map_eq.
Qed.

(** A connected client and host exchange frames: a frame that the client encodes
    for its session, or with the session identifier left zero, reaches the end of the
    host's channel and decodes there to the client's session, channel and payload;
    one that the host encodes for the session reaches the end of the client's
    channel and decodes there; the client and the host are still connected, and
    the other direction's channel is as it was. *)
Theorem relay_forwards_both_ways id uuid c h created qc qh s own channel payload now :
  connected id uuid c h created qc qh s -> c <> h ->
  len uuid = 16 -> channel_ok channel = true -> len payload <= RELAY_MAX_PAYLOAD_LEN ->
  len payload <= rc_max_payload_len config -> own = uuid \/ own = replicate 16 Byte.x00 ->
  saturating_duration_since now created <= rc_max_session_duration config ->
  exists frame sent, encode_relay_frame own channel payload = Ok sent /\
    encode_relay_frame uuid channel payload = Ok frame /\
    decode_relay_frame frame = Ok (mkRelayFrame uuid channel payload) /\
    connected id uuid c h created qc (qh ++ [WS_Binary frame])
      (foldl relay_input s (events c now [EV_Message (WS_Binary sent); EV_Next; EV_Next; EV_Next])) /\
    connected id uuid c h created (qc ++ [WS_Binary frame]) qh
      (foldl relay_input s (events h now [EV_Message (WS_Binary frame); EV_Next])).
Proof.
  intros Cn N U C P M Ow D. assert (L : len own = 16) by (by destruct Ow as [-> | ->]).
  exists (uuid ++ [Z_to_byte channel] ++ payload), (own ++ [Z_to_byte channel] ++ payload).
  split_and!.
  - by apply (encode_relay_frame_ok (mkRelayFrame own channel payload)).
  - by apply (encode_relay_frame_ok (mkRelayFrame uuid channel payload)).
  - by apply decode_parts.
  - by apply client_frame_forwarded.
  - by apply host_frame_forwarded.
Qed.
End Relay.

(** ** Executions *)

(** Concrete functions for the executions below: control messages as
    length-prefixed fields after a tag, and a MAC that copies its inputs. *)
Definition toy_field (text : rstring) : list byte := Z_to_byte (len text) :: text.
Definition toy_split (text : list byte) : rstring * list byte :=
  match text with b :: rest => (take (Z.to_nat (byte_to_Z b)) rest, drop (Z.to_nat (byte_to_Z b)) rest) | [] => ([], []) end.
Definition toy_text_of (m : RelayControl) : option rstring :=
  Some match m with
  | RC_Register id token => Byte.x00 :: toy_field id ++ toy_field token
  | RC_Registered id => Byte.x01 :: toy_field id
  | RC_Connect id token => Byte.x02 :: toy_field id ++ toy_field token
  | RC_Incoming id => Byte.x03 :: toy_field id
  | RC_Accept id => Byte.x04 :: toy_field id
  | RC_Connected => [Byte.x05] | RC_Ping => [Byte.x06] | RC_Pong => [Byte.x07]
  | RC_Error code message => Byte.x08 :: toy_field code ++ toy_field message
  end.
Definition toy_control_of (text : rstring) : option RelayControl :=
  match text with
  | Byte.x00 :: rest => let '(id, rest) := toy_split rest in Some (RC_Register id (toy_split rest).1)
  | Byte.x02 :: rest => let '(id, rest) := toy_split rest in Some (RC_Connect id (toy_split rest).1)
  | Byte.x04 :: rest => Some (RC_Accept (toy_split rest).1)
  | _ => None
  end.
Definition toy_mac (key message : list byte) : option (list byte) := Some (take 32 (key ++ message ++ replicate 32 Byte.x00)).

Definition toy_config : RelayConfig :=
  mkRelayConfig (str_bytes "secret") 1 RELAY_MAX_PAYLOAD_LEN (from_secs 86400) RELAY_CONNECTS_PER_MINUTE.
Definition toy_run (inputs : list Input) : Relay := relay_run toy_mac toy_text_of toy_control_of (fun u => u) toy_config inputs.
Definition toy_text (m : RelayControl) : Event := EV_Message (WS_Text (default [] (toy_text_of m))).
Definition toy_token (host_id : rstring) : rstring := relay_token toy_mac (str_bytes "secret") host_id.

Definition desk : rstring := str_bytes "desk".
Definition toy_register (h : conn) : list Input :=
  IN_Host h :: events h 0 [toy_text (RC_Register desk (toy_token desk)); EV_Sent true; EV_Next; EV_Next; EV_Next; EV_Next].
(** A client up to the count of the host's sessions, and from there on. *)
Definition toy_counted (c : conn) : list Input :=
  IN_Client c desk [] :: events c 0 [EV_Next; EV_Next; toy_text (RC_Connect desk (toy_token desk)); EV_Next].
Definition toy_connected (h c : conn) (uuid : Z) : list Input :=
  events c 0 [EV_Uuid uuid; EV_Next; EV_Next]
  ++ events h 0 [EV_Outgoing true; toy_text (RC_Accept (uuid_bytes uuid)); EV_Next]
  ++ events c 0 [EV_Next; EV_Sent true].
Definition toy_session : list Input := toy_register 0%nat ++ toy_counted 1%nat ++ toy_connected 0%nat 1%nat 7.

(** The count of a host's sessions and the insertion of a new one are two accesses to
    the map: two clients that connect together both pass a limit of one. *)
Example session_limit_race :
  let s := toy_run (toy_register 0%nat ++ toy_counted 1%nat ++ toy_counted 2%nat ++ toy_connected 0%nat 1%nat 7 ++ toy_connected 0%nat 2%nat 8) in
  (session_count desk s, rl_tasks s !! 1%nat, rl_tasks s !! 2%nat)
  = (2, Some (CT_Loop desk (uuid_bytes 7) 0%nat), Some (CT_Loop desk (uuid_bytes 8) 0%nat)).
Proof. vm_compute. reflexivity. Qed.

(** A host registers again; the end of its first connection then unregisters the
    second, which goes on as if it were registered. *)
Example stale_connection_unregisters :
  let s := toy_run (toy_register 0%nat ++ toy_register 3%nat ++ events 0%nat 0 [EV_Ended; EV_Next]) in
  (rl_hosts s !! desk, rl_tasks s !! 3%nat) = (None, Some (HT_Loop desk)).
Proof. vm_compute. reflexivity. Qed.

Example toy_session_connected :
  connected (fun u => u) desk (uuid_bytes 7) 1%nat 0%nat 0 [] [] (toy_run toy_session).
Proof. split; try (vm_compute; reflexivity). exists false. vm_compute. reflexivity. Qed.

Definition toy_sent : list byte := replicate 16 Byte.x00 ++ [Byte.x01] ++ str_bytes "hi".
Definition toy_frame : list byte := uuid_bytes 7 ++ [Byte.x01] ++ str_bytes "hi".
Definition toy_forwarded : list Input :=
  toy_session ++ events 1%nat 0 [EV_Message (WS_Binary toy_sent); EV_Next; EV_Next; EV_Next]
  ++ events 0%nat 0 [EV_Outgoing true].

Lemma relay_isolates_sessions_witness :
  let earlier := List.tl (rl_log (toy_run toy_forwarded)) in
  rl_log (toy_run toy_forwarded) = [] ++ RE_Out 0%nat (WS_Binary toy_frame) :: earlier /\
  ((exists host_id uuid, has_session toy_mac toy_control_of toy_config earlier 0%nat host_id uuid /\
      from_host toy_mac toy_control_of toy_config earlier host_id toy_frame /\ take 16 toy_frame = uuid) \/
   (exists host_id uuid, may_register toy_mac toy_control_of toy_config earlier 0%nat host_id /\
      from_client toy_mac toy_control_of toy_config earlier host_id uuid toy_frame /\ take 16 toy_frame = uuid)).
Proof.
  split; [vm_compute; reflexivity|].
  apply (relay_isolates_sessions toy_mac toy_text_of toy_control_of (fun u => u) toy_config toy_forwarded []).
  vm_compute. reflexivity.
Defined.

Definition toy_limit : RelayConfig := mkRelayConfig [] 4 RELAY_MAX_PAYLOAD_LEN 0 1.
Definition toy_calls : list (IpAddr * Instant) := [([], 0); ([], from_secs 5); ([Byte.x01], from_secs 6); ([], from_secs 70)].
Lemma connects_rate_limited_witness :
  let accepted := (foldl (connect_step toy_limit) ([], Relay_new) toy_calls).1 in
  accepted = [([], 0); ([Byte.x01], from_secs 6); ([], from_secs 70)] /\
  (accepted = foldl (reference_step toy_limit) [] toy_calls /\
   (forall ip t, len (List.filter (in_window t) (hits_of ip accepted)) <= rc_connects_per_minute toy_limit)).
Proof.
  split; [vm_compute; reflexivity|].
  apply (connects_rate_limited toy_limit toy_calls); [by vm_compute|repeat constructor; by vm_compute].
Defined.

Lemma relay_forwards_both_ways_witness :
  let s := toy_run toy_session in
  exists frame sent, encode_relay_frame (replicate 16 Byte.x00) 1 (str_bytes "hi") = Ok sent /\
    encode_relay_frame (uuid_bytes 7) 1 (str_bytes "hi") = Ok frame /\
    decode_relay_frame frame = Ok (mkRelayFrame (uuid_bytes 7) 1 (str_bytes "hi")) /\
    connected (fun u => u) desk (uuid_bytes 7) 1%nat 0%nat 0 [] ([] ++ [WS_Binary frame])
      (foldl (relay_input toy_mac toy_text_of toy_control_of (fun u => u) toy_config) s
         (events 1%nat 5 [EV_Message (WS_Binary sent); EV_Next; EV_Next; EV_Next])) /\
    connected (fun u => u) desk (uuid_bytes 7) 1%nat 0%nat 0 ([] ++ [WS_Binary frame]) []
      (foldl (relay_input toy_mac toy_text_of toy_control_of (fun u => u) toy_config) s
         (events 0%nat 5 [EV_Message (WS_Binary frame); EV_Next])).
Proof.
  apply (relay_forwards_both_ways toy_mac toy_text_of toy_control_of (fun u => u) toy_config desk (uuid_bytes 7) 1%nat 0%nat 0
    [] [] (toy_run toy_session) (replicate 16 Byte.x00) 1 (str_bytes "hi") 5);
    [apply toy_session_connected|done|reflexivity|reflexivity|by vm_compute|by vm_compute|by right|by vm_compute].
Defined.
