(* ===== verification/AgentInput.v ===== *)
(** * The agent interface: from actions to input events

    [clients/rust/maho-app/src/agent_input.rs] and [input.rs]: an agent asks for
    clicks, drags, keys and text; they become the input events of the wire, and a
    tracker remembers what is held down.  Coordinates are [f32] as [Float] has
    them, their bits where they enter an event.  A hash set is drained in an
    order that is a parameter. *)

From Stdlib Require Import SpecFloat.
From S2P Require Import Prelude Text Float Codec Input.

(** ** Keys *)

Definition MEDIA_PLAY_PAUSE : Z := 0x100.
Definition MEDIA_NEXT : Z := 0x101.
Definition MEDIA_PREVIOUS : Z := 0x102.
Definition MEDIA_STOP : Z := 0x103.
Definition BROWSER_BACK : Z := 0x104.
Definition BROWSER_FORWARD : Z := 0x105.
Definition BROWSER_REFRESH : Z := 0x106.
Definition BROWSER_STOP : Z := 0x107.
Definition BROWSER_SEARCH : Z := 0x108.
Definition BROWSER_FAVORITES : Z := 0x109.
Definition BROWSER_HOME : Z := 0x10a.
Definition F21 : Z := 0x10b.
Definition F22 : Z := 0x10c.
Definition F23 : Z := 0x10d.
Definition F24 : Z := 0x10e.

(** [InputKeyMap::to_macos] of a Windows virtual key. *)
Definition to_macos (key : Z) : option Z :=
  match key with
  | 0x41 => Some 0x00 | 0x53 => Some 0x01 | 0x44 => Some 0x02 | 0x46 => Some 0x03 | 0x48 => Some 0x04
  | 0x47 => Some 0x05 | 0x5a => Some 0x06 | 0x58 => Some 0x07 | 0x43 => Some 0x08 | 0x56 => Some 0x09
  | 0x42 => Some 0x0b | 0x51 => Some 0x0c | 0x57 => Some 0x0d | 0x45 => Some 0x0e | 0x52 => Some 0x0f
  | 0x59 => Some 0x10 | 0x54 => Some 0x11 | 0x31 => Some 0x12 | 0x32 => Some 0x13 | 0x33 => Some 0x14
  | 0x34 => Some 0x15 | 0x36 => Some 0x16 | 0x35 => Some 0x17 | 0x3d => Some 0x18 | 0x39 => Some 0x19
  | 0x37 => Some 0x1a | 0x2d => Some 0x1b | 0x38 => Some 0x1c | 0x30 => Some 0x1d | 0xdd => Some 0x1e
  | 0x4f => Some 0x1f | 0x55 => Some 0x20 | 0xdb => Some 0x21 | 0x49 => Some 0x22 | 0x50 => Some 0x23
  | 0x0d => Some 0x24 | 0x4c => Some 0x25 | 0x4a => Some 0x26 | 0xde => Some 0x27 | 0x4b => Some 0x28
  | 0xba => Some 0x29 | 0xdc => Some 0x2a | 0xbc => Some 0x2b | 0xbf => Some 0x2c | 0x4e => Some 0x2d
  | 0x4d => Some 0x2e | 0xbe => Some 0x2f | 0x09 => Some 0x30 | 0x20 => Some 0x31 | 0xc0 => Some 0x32
  | 0x08 => Some 0x33 | 0x1b => Some 0x35 | 0x5b | 0x5c => Some 0x37 | 0x10 | 0xa0 => Some 0x38
  | 0x14 => Some 0x39 | 0x12 | 0xa4 => Some 0x3a | 0x11 | 0xa2 => Some 0x3b | 0xa1 => Some 0x3c
  | 0xa5 => Some 0x3d | 0xa3 => Some 0x3e | 0x70 => Some 0x7a | 0x71 => Some 0x78 | 0x72 => Some 0x63
  | 0x73 => Some 0x76 | 0x74 => Some 0x60 | 0x75 => Some 0x61 | 0x76 => Some 0x62 | 0x77 => Some 0x64
  | 0x78 => Some 0x65 | 0x79 => Some 0x6d | 0x7a => Some 0x67 | 0x7b => Some 0x6f | 0x7c => Some 0x69
  | 0x7d => Some 0x6b | 0x7e => Some 0x71 | 0x7f => Some 0x6a | 0x80 => Some 0x40 | 0x81 => Some 0x4f
  | 0x82 => Some 0x50 | 0x83 => Some 0x5a | 0x84 => Some F21 | 0x85 => Some F22 | 0x86 => Some F23
  | 0x87 => Some F24 | 0xb3 => Some MEDIA_PLAY_PAUSE | 0xb0 => Some MEDIA_NEXT | 0xb1 => Some MEDIA_PREVIOUS
  | 0xb2 => Some MEDIA_STOP | 0xa6 => Some BROWSER_BACK | 0xa7 => Some BROWSER_FORWARD
  | 0xa8 => Some BROWSER_REFRESH | 0xa9 => Some BROWSER_STOP | 0xaa => Some BROWSER_SEARCH
  | 0xab => Some BROWSER_FAVORITES | 0xac => Some BROWSER_HOME | 0xad => Some 0x4a | 0xae => Some 0x49
  | 0xaf => Some 0x48 | 0x60 => Some 0x52 | 0x61 => Some 0x53 | 0x62 => Some 0x54 | 0x63 => Some 0x55
  | 0x64 => Some 0x56 | 0x65 => Some 0x57 | 0x66 => Some 0x58 | 0x67 => Some 0x59 | 0x68 => Some 0x5b
  | 0x69 => Some 0x5c | 0x6a => Some 0x43 | 0x6b => Some 0x45 | 0x6d => Some 0x4e | 0x6e => Some 0x41
  | 0x6f => Some 0x4b | 0x90 => Some 0x47 | 0x92 => Some 0x51 | 0x100d => Some 0x4c | 0x25 => Some 0x7b
  | 0x27 => Some 0x7c | 0x28 => Some 0x7d | 0x26 => Some 0x7e | 0x24 => Some 0x73 | 0x23 => Some 0x77
  | 0x21 => Some 0x74 | 0x22 => Some 0x79 | 0x2e => Some 0x75
  | _ => None
  end.

Inductive AgentInputError : Type :=
| UnknownKey (key : rstring)
| UnmappableKey (key : rstring)
| EmptyHotkey
| InvalidCoordinates (x y : spec_float)
| ActionTooLarge (max_events : Z).

(** The names of the modifier keys, and of the other keys. *)
Definition MODIFIER_NAMES : list (list string * Z * Modifiers) :=
  [(["shift"; "leftshift"; "rightshift"], 0x10, MOD_SHIFT);
   (["ctrl"; "control"; "leftctrl"; "rightctrl"], 0x11, MOD_CONTROL);
   (["alt"; "option"; "leftalt"; "rightalt"], 0x12, MOD_OPTION);
   (["super"; "win"; "windows"; "cmd"; "command"; "meta"], 0x5B, MOD_COMMAND);
   (["capslock"], 0x14, MOD_CAPS_LOCK)].
Definition KEY_NAMES : list (list string * Z) :=
  [(["enter"; "return"], 0x0D); (["esc"; "escape"], 0x1B); (["tab"], 0x09); (["space"; " "], 0x20);
   (["backspace"], 0x08); (["delete"; "del"], 0x2E); (["insert"; "ins"], 0x2D); (["home"], 0x24);
   (["end"], 0x23); (["pageup"; "pgup"], 0x21); (["pagedown"; "pgdn"], 0x22); (["arrowup"; "up"], 0x26);
   (["arrowdown"; "down"], 0x28); (["arrowleft"; "left"], 0x25); (["arrowright"; "right"], 0x27); (["f1"], 0x70);
   (["f2"], 0x71); (["f3"], 0x72); (["f4"], 0x73); (["f5"], 0x74); (["f6"], 0x75); (["f7"], 0x76);
   (["f8"], 0x77); (["f9"], 0x78); (["f10"], 0x79); (["f11"], 0x7A); (["f12"], 0x7B); (["-"; "minus"], 0xBD);
   (["="; "equal"], 0xBB); (["["; "bracketleft"], 0xDB); (["]"; "bracketright"], 0xDD);
   (["\"; "backslash"], 0xDC); ([";"; "semicolon"], 0xBA); (["'"; "quote"], 0xDE); ([","; "comma"], 0xBC);
   (["."; "period"], 0xBE); (["/"; "slash"], 0xBF); (["`"; "grave"], 0xC0)].

Definition parse_key_name (name : rstring) : result AgentInputError (Z * Modifiers) :=
  let trimmed := trim name in
  let lower := lowercase trimmed in
  match find (fun e => one_of lower e.1.1) MODIFIER_NAMES with
  | Some (_, vk, mods) => Ok (vk, mods)
  | None =>
    match find (fun e => one_of lower e.1) KEY_NAMES with
    | Some (_, vk) => Ok (vk, Modifiers_empty)
    | None =>
      match trimmed with
      | [ch] =>
        if is_ascii_alphabetic ch
        then Ok (byte_to_Z (to_ascii_uppercase ch), if is_ascii_uppercase ch then MOD_SHIFT else Modifiers_empty)
        else if is_ascii_digit ch then Ok (byte_to_Z ch, Modifiers_empty)
        else Err (UnknownKey name)
      | _ => Err (UnknownKey name)
      end
    end
  end.

(** The loop of [parse_hotkey_string] over the parts of the hotkey. *)
Fixpoint parse_hotkey_parts (parts : list rstring) (combined_modifiers : Modifiers)
    : result AgentInputError (Z * Modifiers) :=
  match parts with
  | [] => Err EmptyHotkey
  | part :: rest =>
    match parse_key_name part with
    | Err e => Err e
    | Ok (key, mods) =>
      if len rest =? 0 then Ok (key, Modifiers_bitor combined_modifiers mods)
      else if mods =? Modifiers_empty then
        let lower := lowercase part in
        if one_of lower ["ctrl"; "control"]
        then parse_hotkey_parts rest (Modifiers_bitor combined_modifiers MOD_CONTROL)
        else if one_of lower ["alt"; "opt"; "option"]
        then parse_hotkey_parts rest (Modifiers_bitor combined_modifiers MOD_OPTION)
        else if one_of lower ["shift"] then parse_hotkey_parts rest (Modifiers_bitor combined_modifiers MOD_SHIFT)
        else if one_of lower ["super"; "win"; "cmd"; "command"]
        then parse_hotkey_parts rest (Modifiers_bitor combined_modifiers MOD_COMMAND)
        else Err (UnknownKey part)
      else parse_hotkey_parts rest (Modifiers_bitor combined_modifiers mods)
    end
  end.

Definition PLUS : byte := Byte.x2b.
Definition parse_hotkey_string (hotkey : rstring) : result AgentInputError (Z * Modifiers) :=
  let parts := List.filter (fun s => negb (len s =? 0)) (map trim (split PLUS hotkey)) in
  parse_hotkey_parts parts Modifiers_empty.

Definition require_macos_keycode (key : Z) (name : rstring) : result AgentInputError Z :=
  ok_or (to_macos key) (UnmappableKey name).

(** [ch]: a scalar value. *)
Definition synthesize_ascii_char (ch : Z) : option (Z * Modifiers) :=
  if (65 <=? ch) && (ch <=? 90) then Some (ch, MOD_SHIFT)
  else if (97 <=? ch) && (ch <=? 122) then Some (ch - 32, Modifiers_empty)
  else if (48 <=? ch) && (ch <=? 57) then Some (ch, Modifiers_empty)
  else match ch with
  | 32 => Some (0x20, Modifiers_empty) | 10 => Some (0x0D, Modifiers_empty)
  | 13 => Some (0x0D, Modifiers_empty) | 9 => Some (0x09, Modifiers_empty) | 45 => Some (0xBD, Modifiers_empty)
  | 95 => Some (0xBD, MOD_SHIFT) | 61 => Some (0xBB, Modifiers_empty) | 43 => Some (0xBB, MOD_SHIFT)
  | 91 => Some (0xDB, Modifiers_empty) | 123 => Some (0xDB, MOD_SHIFT) | 93 => Some (0xDD, Modifiers_empty)
  | 125 => Some (0xDD, MOD_SHIFT) | 92 => Some (0xDC, Modifiers_empty) | 124 => Some (0xDC, MOD_SHIFT)
  | 59 => Some (0xBA, Modifiers_empty) | 58 => Some (0xBA, MOD_SHIFT) | 39 => Some (0xDE, Modifiers_empty)
  | 34 => Some (0xDE, MOD_SHIFT) | 44 => Some (0xBC, Modifiers_empty) | 60 => Some (0xBC, MOD_SHIFT)
  | 46 => Some (0xBE, Modifiers_empty) | 62 => Some (0xBE, MOD_SHIFT) | 47 => Some (0xBF, Modifiers_empty)
  | 63 => Some (0xBF, MOD_SHIFT) | 96 => Some (0xC0, Modifiers_empty) | 126 => Some (0xC0, MOD_SHIFT)
  | 33 => Some (0x31, MOD_SHIFT) | 64 => Some (0x32, MOD_SHIFT) | 35 => Some (0x33, MOD_SHIFT)
  | 36 => Some (0x34, MOD_SHIFT) | 37 => Some (0x35, MOD_SHIFT) | 94 => Some (0x36, MOD_SHIFT)
  | 38 => Some (0x37, MOD_SHIFT) | 42 => Some (0x38, MOD_SHIFT) | 40 => Some (0x39, MOD_SHIFT)
  | 41 => Some (0x30, MOD_SHIFT)
  | _ => None
  end.

(** ** Coordinates *)

Definition normalize_agent_coordinates (x y : spec_float) (normalized : bool) (host_width host_height : spec_float)
    : result AgentInputError (spec_float * spec_float) :=
  if negb (is_finite x) || negb (is_finite y) then Err (InvalidCoordinates x y)
  else if normalized then Ok (clamp f32_0 f32_1 x, clamp f32_0 f32_1 (fsub binary32 f32_1 y))
  else if SFleb host_width f32_0 || SFleb host_height f32_0 then Ok (f32_0, f32_0)
  else Ok (clamp f32_0 f32_1 (fdiv binary32 x host_width),
           clamp f32_0 f32_1 (fsub binary32 f32_1 (fdiv binary32 y host_height))).

(** ** Actions *)

Inductive MouseButton : Type := Left | Right | Middle.
#[export] Instance MouseButton_eq_dec : EqDecision MouseButton.
Proof. solve_decision. Defined.
#[export] Instance MouseButton_countable : Countable MouseButton.
Proof.
  refine (inj_countable' (fun b => match b with Left => 0 | Right => 1 | Middle => 2 end)
    (fun n => match n with 0 => Left | 1 => Right | _ => Middle end) _); by intros [].
Defined.

Definition to_down_event_type (b : MouseButton) : InputEventType :=
  match b with Left => IE_LeftMouseDown | Right => IE_RightMouseDown | Middle => IE_MiddleMouseDown end.
Definition to_up_event_type (b : MouseButton) : InputEventType :=
  match b with Left => IE_LeftMouseUp | Right => IE_RightMouseUp | Middle => IE_MiddleMouseUp end.
Definition to_drag_event_type (b : MouseButton) : InputEventType :=
  match b with Left => IE_LeftMouseDragged | Right => IE_RightMouseDragged | Middle => IE_LeftMouseDragged end.

Inductive AgentAction : Type :=
| MouseMove (x y : spec_float) (normalized : bool)
| MouseDown (button : MouseButton)
| MouseUp (button : MouseButton)
| Click (x y : spec_float) (button : MouseButton) (count : Z) (normalized : bool)
| Drag (start_x start_y end_x end_y : spec_float) (button : MouseButton) (steps : Z) (duration_ms : Z)
    (normalized : bool)
| Scroll (dx dy : spec_float) (x y : option spec_float) (normalized : bool)
| KeyDown (key : rstring)
| KeyUp (key : rstring)
| KeyPress (key : rstring) (hold_ms : Z)
| Hotkey (keys : list rstring)
| TypeText (text : rstring) (delay_ms : Z) (paste_mode : bool)
| ReleaseAll.

(** ** What is held *)

Record InputStateTracker : Type := mkInputStateTracker {
  it_active_buttons : gset MouseButton;
  it_active_keys : gset Z;
  it_key_modifiers : gmap Z Modifiers;
  it_active_modifiers : Modifiers;
  it_last_action_at : Instant;
  it_hold_timeout : Duration
}.

Definition InputStateTracker_new (hold_timeout : Duration) (now : Instant) : InputStateTracker :=
  mkInputStateTracker ∅ ∅ ∅ Modifiers_empty now hold_timeout.
Definition InputStateTracker_default (now : Instant) : InputStateTracker :=
  InputStateTracker_new (from_millis 5000) now.

Definition record_button_down (button : MouseButton) (now : Instant) (t : InputStateTracker) : InputStateTracker :=
  mkInputStateTracker ({[button]} ∪ it_active_buttons t) (it_active_keys t) (it_key_modifiers t)
    (it_active_modifiers t) now (it_hold_timeout t).
Definition record_button_up (button : MouseButton) (now : Instant) (t : InputStateTracker) : InputStateTracker :=
  mkInputStateTracker (it_active_buttons t ∖ {[button]}) (it_active_keys t) (it_key_modifiers t)
    (it_active_modifiers t) now (it_hold_timeout t).
Definition record_key_down (key_code : Z) (modifiers : Modifiers) (now : Instant) (t : InputStateTracker)
    : InputStateTracker :=
  let entry := default Modifiers_empty (it_key_modifiers t !! key_code) in
  mkInputStateTracker (it_active_buttons t) ({[key_code]} ∪ it_active_keys t)
    (<[key_code := Modifiers_bitor entry modifiers]> (it_key_modifiers t))
    (Modifiers_bitor (it_active_modifiers t) modifiers) now (it_hold_timeout t).
Definition record_key_up (key_code : Z) (now : Instant) (t : InputStateTracker) : InputStateTracker :=
  let key_modifiers := delete key_code (it_key_modifiers t) in
  mkInputStateTracker (it_active_buttons t) (it_active_keys t ∖ {[key_code]}) key_modifiers
    (map_fold (fun _ mods acc => Modifiers_bitor acc mods) Modifiers_empty key_modifiers) now (it_hold_timeout t).

Definition tracker_is_empty (t : InputStateTracker) : bool :=
  bool_decide (it_active_buttons t = ∅) && bool_decide (it_active_keys t = ∅)
  && (it_active_modifiers t =? Modifiers_empty).
Definition tracker_clear (now : Instant) (t : InputStateTracker) : InputStateTracker :=
  mkInputStateTracker ∅ ∅ ∅ Modifiers_empty now (it_hold_timeout t).

Definition is_timed_out (now : Instant) (t : InputStateTracker) : bool :=
  negb (tracker_is_empty t) && (it_hold_timeout t <? saturating_duration_since now (it_last_action_at t)).
(** [checked_sub] fails before the start of the clock. *)
Definition mark_release_failed (now : Instant) (t : InputStateTracker) : InputStateTracker :=
  let backdated := now - (it_hold_timeout t + from_millis 1) in
  mkInputStateTracker (it_active_buttons t) (it_active_keys t) (it_key_modifiers t) (it_active_modifiers t)
    (if 0 <=? backdated then backdated else now) (it_hold_timeout t).

Section Conversion.

(** The order in which a hash set is drained. *)
Context (button_order : gset MouseButton -> list MouseButton) (key_order : gset Z -> list Z).

Definition pointer (event_type : InputEventType) (pos : spec_float * spec_float) (modifiers : Modifiers)
    : InputEvent :=
  mkInputEvent event_type (f32_bits pos.1) (f32_bits pos.2) 0 modifiers F32_ZERO F32_ZERO.
Definition key_at (event_type : InputEventType) (pos : spec_float * spec_float) (key_code : Z)
    (modifiers : Modifiers) : InputEvent :=
  mkInputEvent event_type (f32_bits pos.1) (f32_bits pos.2) key_code modifiers F32_ZERO F32_ZERO.

Definition release_all (pos : spec_float * spec_float) (now : Instant) (t : InputStateTracker)
    : list InputEvent * InputStateTracker :=
  (map (fun button => pointer (to_up_event_type button) pos (it_active_modifiers t))
     (button_order (it_active_buttons t))
   ++ map (fun key_code => key_at IE_KeyUp pos key_code (it_active_modifiers t)) (key_order (it_active_keys t))
   ++ [pointer IE_Reset pos Modifiers_empty],
   tracker_clear now t).

Definition check_timeout (pos : spec_float * spec_float) (now : Instant) (t : InputStateTracker)
    : option (list InputEvent) * InputStateTracker :=
  if is_timed_out now t then let '(events, t) := release_all pos now t in (Some events, t) else (None, t).

Definition MAX_ACTION_EVENTS : Z := 4096.

Definition event_bound (action : AgentAction) : Z :=
  match action with
  | Click _ _ _ count _ => Z.max count 1 * 2 + 1
  | Drag _ _ _ _ _ steps _ _ => Z.max steps 1 + 3
  | TypeText text _ _ => len (take (Z.to_nat (MAX_ACTION_EVENTS / 2 + 1)) (chars text)) * 2
  | _ => 0
  end.

(** [1..=n] *)
Definition steps_to (n : Z) : list Z := map (fun i => Z.of_nat i) (seq 1 (Z.to_nat n)).

(** The position at step [i] of a drag. *)
Definition drag_position (start finish : spec_float * spec_float) (step_count i : Z) : spec_float * spec_float :=
  let t := fdiv binary32 (of_int binary32 i) (of_int binary32 step_count) in
  let along a b := fadd binary32 a (fmul binary32 (fsub binary32 b a) t) in
  (along start.1 finish.1, along start.2 finish.2).

Definition click_pair (button : MouseButton) (pos : spec_float * spec_float) (modifiers : Modifiers)
    : list InputEvent :=
  [pointer (to_down_event_type button) pos modifiers; pointer (to_up_event_type button) pos modifiers].
Definition key_pair (pos : spec_float * spec_float) (key_code : Z) (modifiers : Modifiers) : list InputEvent :=
  [key_at IE_KeyDown pos key_code modifiers; key_at IE_KeyUp pos key_code modifiers].

(** The events of one character of a text. *)
Definition type_char (pos : spec_float * spec_float) (ch : Z) : list InputEvent :=
  match synthesize_ascii_char ch with
  | Some (key, mods) => match to_macos key with Some code => key_pair pos code mods | None => [] end
  | None => map (fun unit => InputEvent_unicode_char unit (f32_bits pos.1) (f32_bits pos.2)) (encode_utf16 ch)
  end.

(** [keys.join("+")] *)
Definition join_plus (keys : list rstring) : rstring :=
  match keys with [] => [] | key :: keys => key ++ (keys ≫= fun k => PLUS :: k) end.

(** What the conversion changes: the tracker and the current position. *)
Definition AgentState : Type := InputStateTracker * (spec_float * spec_float).

Definition convert_agent_action_to_events (action : AgentAction) (host_width host_height : spec_float)
    (now : Instant) (st : AgentState) : result AgentInputError (list InputEvent) * AgentState :=
  let '(t, pos) := st in
  let normalize x y normalized := normalize_agent_coordinates x y normalized host_width host_height in
  if MAX_ACTION_EVENTS <? event_bound action then (Err (ActionTooLarge MAX_ACTION_EVENTS), st) else
  match action with
  | MouseMove x y normalized =>
    match normalize x y normalized with
    | Err e => (Err e, st)
    | Ok pos => (Ok [pointer IE_MouseMove pos (it_active_modifiers t)], (t, pos))
    end
  | MouseDown button =>
    let t := record_button_down button now t in
    (Ok [pointer (to_down_event_type button) pos (it_active_modifiers t)], (t, pos))
  | MouseUp button =>
    let t := record_button_up button now t in
    (Ok [pointer (to_up_event_type button) pos (it_active_modifiers t)], (t, pos))
  | Click x y button count normalized =>
    match normalize x y normalized with
    | Err e => (Err e, st)
    | Ok pos =>
      (Ok (pointer IE_MouseMove pos (it_active_modifiers t)
           :: concat (replicate (Z.to_nat count) (click_pair button pos (it_active_modifiers t)))), (t, pos))
    end
  | Drag start_x start_y end_x end_y button steps _ normalized =>
    match normalize start_x start_y normalized with
    | Err e => (Err e, st)
    | Ok start =>
      match normalize end_x end_y normalized with
      | Err e => (Err e, st)
      | Ok finish =>
        let moved := pointer IE_MouseMove start (it_active_modifiers t) in
        let t := record_button_down button now t in
        let pressed := pointer (to_down_event_type button) start (it_active_modifiers t) in
        let step_count := Z.max steps 1 in
        let dragged :=
          map (fun i => pointer (to_drag_event_type button) (drag_position start finish step_count i)
                          (it_active_modifiers t)) (steps_to step_count) in
        let pos := drag_position start finish step_count step_count in
        let t := record_button_up button now t in
        let released := pointer (to_up_event_type button) finish (it_active_modifiers t) in
        (Ok (moved :: pressed :: dragged ++ [released]), (t, pos))
      end
    end
  | Scroll dx dy x y normalized =>
    let scrolled pos :=
      (Ok [mkInputEvent IE_ScrollWheel (f32_bits pos.1) (f32_bits pos.2) 0 (it_active_modifiers t) (f32_bits dx)
             (f32_bits dy)], (t, pos)) in
    match x, y with
    | Some px, Some py =>
      match normalize px py normalized with Err e => (Err e, st) | Ok pos => scrolled pos end
    | _, _ => scrolled pos
    end
  | KeyDown key =>
    match parse_key_name key with
    | Err e => (Err e, st)
    | Ok (k, mods) =>
      match require_macos_keycode k key with
      | Err e => (Err e, st)
      | Ok code =>
        let t := record_key_down code mods now t in
        (Ok [key_at IE_KeyDown pos code (it_active_modifiers t)], (t, pos))
      end
    end
  | KeyUp key =>
    match parse_key_name key with
    | Err e => (Err e, st)
    | Ok (k, _) =>
      match require_macos_keycode k key with
      | Err e => (Err e, st)
      | Ok code =>
        let t := record_key_up code now t in
        (Ok [key_at IE_KeyUp pos code (it_active_modifiers t)], (t, pos))
      end
    end
  | KeyPress key _ =>
    match parse_key_name key with
    | Err e => (Err e, st)
    | Ok (k, mods) =>
      match require_macos_keycode k key with
      | Err e => (Err e, st)
      | Ok code => (Ok (key_pair pos code mods), st)
      end
    end
  | Hotkey keys =>
    let combined := join_plus keys in
    match parse_hotkey_string combined with
    | Err e => (Err e, st)
    | Ok (k, mods) =>
      match require_macos_keycode k combined with
      | Err e => (Err e, st)
      | Ok code => (Ok (key_pair pos code mods), st)
      end
    end
  | TypeText text _ _ => (Ok (concat (map (type_char pos) (chars text))), st)
  | ReleaseAll => let '(events, t) := release_all pos now t in (Ok events, (t, pos))
  end.

End Conversion.

(** * Theorems *)

(** ** What the remote host holds *)

(** What is pressed at the other end, and what an event does to it. *)
Definition Held : Type := gset MouseButton * gset Z.
Definition press (h : Held) (e : InputEvent) : Held :=
  match ie_event_type e with
  | IE_LeftMouseDown => ({[Left]} ∪ h.1, h.2)
  | IE_RightMouseDown => ({[Right]} ∪ h.1, h.2)
  | IE_MiddleMouseDown => ({[Middle]} ∪ h.1, h.2)
  | IE_LeftMouseUp => (h.1 ∖ {[Left]}, h.2)
  | IE_RightMouseUp => (h.1 ∖ {[Right]}, h.2)
  | IE_MiddleMouseUp => (h.1 ∖ {[Middle]}, h.2)
  | IE_KeyDown => (h.1, {[ie_key_code e]} ∪ h.2)
  | IE_KeyUp => (h.1, h.2 ∖ {[ie_key_code e]})
  | IE_Reset => (∅, ∅)
  | _ => h
  end.
Definition pressed_by (events : list InputEvent) (h : Held) : Held := foldl press h events.

(** Everything held is on record. *)
Definition recorded (h : Held) (t : InputStateTracker) : Prop :=
  h.1 ⊆ it_active_buttons t /\ h.2 ⊆ it_active_keys t.
Definition within (h h' : Held) : Prop := h.1 ⊆ h'.1 /\ h.2 ⊆ h'.2.
#[export] Instance within_preorder : PreOrder within.
Proof. split; [by intros h|]. intros a b c [] []. split; by etrans. Qed.

Lemma recorded_within h h' t : within h h' -> recorded h' t -> recorded h t.
Proof. intros [] []. split; by etrans. Qed.

Lemma pressed_by_app es es' h : pressed_by (es ++ es') h = pressed_by es' (pressed_by es h).
Proof. apply foldl_app. Qed.
Lemma press_mono h h' e : within h h' -> within (press h e) (press h' e).
Proof. intros [A B]. unfold within, press. destruct (ie_event_type e); cbn; split; set_solver. Qed.
Lemma pressed_by_mono es h h' : within h h' -> within (pressed_by es h) (pressed_by es h').
Proof. revert h h'. induction es as [|e es IH]; intros h h' W; [done|]. cbn. by apply IH, press_mono. Qed.

(** Events that leave nothing more held than before. *)
Definition neutral (es : list InputEvent) : Prop := forall h, within (pressed_by es h) h.

Lemma neutral_nil : neutral [].
Proof. by intros h. Qed.
Lemma neutral_app es es' : neutral es -> neutral es' -> neutral (es ++ es').
Proof. intros N N' h. rewrite pressed_by_app. etrans; [apply N'|apply N]. Qed.
Lemma neutral_concat ess : Forall neutral ess -> neutral (concat ess).
Proof. induction 1; cbn; [apply neutral_nil|by apply neutral_app]. Qed.
Lemma neutral_key_pair pos code mods : neutral (key_pair pos code mods).
Proof. intros h. split; cbn; set_solver. Qed.
Lemma neutral_click_pair button pos mods : neutral (click_pair button pos mods).
Proof. intros h. destruct button; split; cbn; set_solver. Qed.
Lemma neutral_unicode c x y : neutral [InputEvent_unicode_char c x y].
Proof. by intros h. Qed.
Lemma neutral_drag button pos mods : neutral [pointer (to_drag_event_type button) pos mods].
Proof. intros h. by destruct button. Qed.

Lemma neutral_type_char pos ch : neutral (type_char pos ch).
Proof.
  unfold type_char. destruct (synthesize_ascii_char ch) as [[key mods]|].
  - destruct (to_macos key); [apply neutral_key_pair|apply neutral_nil].
  - induction (encode_utf16 ch) as [|u us IH]; cbn; [apply neutral_nil|].
    apply (neutral_app [_]); [apply neutral_unicode|done].
Qed.
Lemma neutral_map {A} (g : A -> InputEvent) l : (forall x, neutral [g x]) -> neutral (map g l).
Proof. intros N. induction l as [|x l IH]; cbn; [apply neutral_nil|]. by apply (neutral_app [_]). Qed.

Lemma recorded_neutral es h t : neutral es -> recorded h t -> recorded (pressed_by es h) t.
Proof. intros N. by apply recorded_within. Qed.

Lemma press_down button pos mods h : pressed_by [pointer (to_down_event_type button) pos mods] h = ({[button]} ∪ h.1, h.2).
Proof. by destruct button. Qed.
Lemma press_up button pos mods h : pressed_by [pointer (to_up_event_type button) pos mods] h = (h.1 ∖ {[button]}, h.2).
Proof. by destruct button. Qed.

Section Tracking.

Context (button_order : gset MouseButton -> list MouseButton) (key_order : gset Z -> list Z).
Local Abbreviation convert := (convert_agent_action_to_events button_order key_order).

Lemma release_all_resets pos now t h :
  pressed_by (release_all button_order key_order pos now t).1 h = (∅, ∅).
Proof. unfold release_all. cbn [fst]. by rewrite !pressed_by_app. Qed.

Lemma recorded_down button now h t :
  recorded h t -> recorded ({[button]} ∪ h.1, h.2) (record_button_down button now t).
Proof. intros [A B]. split; cbn; set_solver. Qed.
Lemma recorded_up button now h t :
  recorded h t -> recorded (h.1 ∖ {[button]}, h.2) (record_button_up button now t).
Proof. intros [A B]. split; cbn; set_solver. Qed.

(** An action that is refused changes nothing. *)
Lemma refused_changes_nothing action w h now st e st' :
  convert action w h now st = (Err e, st') -> st' = st.
Proof.
  destruct st as [t pos]. unfold convert_agent_action_to_events. destruct (_ <? _); [by intros [= _ <-]|].
  destruct action; repeat case_match; intros X; by simplify_eq.
Qed.

Lemma drag_recorded start finish button steps now h t pos1 :
  recorded h t ->
  recorded
    (pressed_by (pointer IE_MouseMove start (it_active_modifiers t)
       :: pointer (to_down_event_type button) start (it_active_modifiers t)
       :: map (fun i => pointer (to_drag_event_type button) (drag_position start finish steps i)
                          (it_active_modifiers t)) (steps_to steps)
          ++ [pointer (to_up_event_type button) pos1 (it_active_modifiers t)]) h)
    (record_button_up button now (record_button_down button now t)).
Proof.
  intros R. change (pressed_by (?m :: ?d :: ?es ++ [?u]) h) with (pressed_by (es ++ [u]) (pressed_by [d] h)).
  rewrite press_down, pressed_by_app, press_up.
  apply recorded_up, recorded_neutral; [|by apply recorded_down]. apply neutral_map. intros. apply neutral_drag.
Qed.

(** What is held at the other end is on record: when every button and key that
    is held is in the tracker, and an action is converted, then after its events
    everything held is in the tracker again, whatever the action; a refused
    action changes neither the tracker nor the position. *)
Theorem tracker_covers_held action w h now t pos r t' pos' held :
  recorded held t -> convert action w h now (t, pos) = (r, (t', pos')) ->
  match r with
  | Ok events => recorded (pressed_by events held) t'
  | Err _ => t' = t /\ pos' = pos
  end.
Proof.
  intros R E. destruct r as [events|e]; [|by apply refused_changes_nothing in E; simplify_eq].
  unfold convert_agent_action_to_events in E. destruct (_ <? _); [done|].
  destruct action; repeat case_match; simplify_eq; try done.
  - rewrite press_down. by apply recorded_down.
  - rewrite press_up. by apply recorded_up.
  - apply recorded_neutral; [|done]. apply (neutral_app [_]); [by intros ?|]. apply neutral_concat.
    apply Forall_replicate, neutral_click_pair.
  - by apply drag_recorded.
  - destruct R as [A B]. split; cbn; set_solver.
  - destruct R as [A B]. split; cbn; set_solver.
  - apply recorded_neutral; [apply neutral_key_pair|done].
  - apply recorded_neutral; [apply neutral_key_pair|done].
  - apply recorded_neutral; [|done]. apply neutral_concat, Forall_map, Forall_true. intros. apply neutral_type_char.
  - match goal with H : release_all _ _ ?pos _ _ = (?es, _) |- _ =>
      pose proof (release_all_resets pos now t held) as X; rewrite H in X; cbn [fst] in X; rewrite X end.
    split; set_solver.
Qed.

End Tracking.

(** ** The size of an action *)

Section Size.

Context (button_order : gset MouseButton -> list MouseButton) (key_order : gset Z -> list Z).
Hypothesis buttons_drained : forall s, button_order s ≡ₚ elements s.
Hypothesis keys_drained : forall s, key_order s ≡ₚ elements s.
Local Abbreviation convert := (convert_agent_action_to_events button_order key_order).

Lemma type_char_len pos ch : len (type_char pos ch) <= 2.
Proof.
  unfold type_char. destruct (synthesize_ascii_char ch) as [[key mods]|]; [by destruct (to_macos key)|].
  unfold len. rewrite length_map. apply (encode_utf16_len ch).
Qed.
Lemma concat_len_le {A} (k : Z) (ls : list (list A)) :
  Forall (fun l => len l <= k) ls -> len (concat ls) <= k * len ls.
Proof. induction 1; cbn; [by rewrite Z.mul_0_r|]. rewrite len_app, len_cons. lia. Qed.

(** The work of an action is bounded: at most 4096 events, or, when everything
    is released, one for each button and key held and a reset. *)
Theorem action_size_bounded action w h now t pos events st' :
  convert action w h now (t, pos) = (Ok events, st') ->
  len events <= match action with
                | ReleaseAll => Z.of_nat (size (it_active_buttons t)) + Z.of_nat (size (it_active_keys t)) + 1
                | _ => MAX_ACTION_EVENTS
                end.
Proof.
  unfold convert_agent_action_to_events. destruct (MAX_ACTION_EVENTS <? event_bound action) eqn:B; [done|].
  apply Z.ltb_ge in B. intros E. destruct action; repeat case_match; simplify_eq; try done; cbn [event_bound] in B.
  - rewrite len_cons. etrans; [apply Z.add_le_mono_l, (concat_len_le 2), Forall_replicate; done|].
    unfold len. rewrite length_replicate. lia.
  - rewrite !len_cons, len_app. unfold steps_to, len. rewrite !length_map, length_seq. cbn [length]. lia.
  - etrans; [apply (concat_len_le 2), Forall_map, Forall_true; intros; apply type_char_len|].
    unfold len in *. rewrite length_map. rewrite length_take in B.
    change (Z.to_nat (MAX_ACTION_EVENTS / 2 + 1)) with 2049%nat in B. unfold MAX_ACTION_EVENTS in *. lia.
  - match goal with H : release_all _ _ _ _ _ = (?es, _) |- _ => injection H as <- <- end.
    rewrite !len_app. unfold len. rewrite !length_map, buttons_drained, keys_drained. unfold size, set_size. cbn. lia.
Qed.

End Size.

(** ** Coordinates *)

Lemma normalized_on_screen x y normalized w h pos :
  is_nan w = false -> is_nan h = false ->
  normalize_agent_coordinates x y normalized w h = Ok pos -> on_screen pos.
Proof.
  intros Nw Nh. unfold normalize_agent_coordinates.
  destruct (is_finite x) eqn:Fx, (is_finite y) eqn:Fy; cbn [negb orb]; try done.
  pose proof (finite_not_nan _ Fx). pose proof (finite_not_nan _ Fy).
  assert (nonzero : forall v, SFleb v f32_0 = false -> SFeqb v f32_0 = false)
    by (intros v; unfold SFleb, SFeqb; by destruct (SFcompare v f32_0) as [[]|]).
  destruct normalized; [|destruct (SFleb w f32_0) eqn:W; [|destruct (SFleb h f32_0) eqn:Hh]]; cbn [orb];
    intros E; apply Ok_inj in E; subst pos.
  - split; apply clamp_unit_range; [done|by apply fsub_nan].
  - done.
  - done.
  - split; apply clamp_unit_range.
    + apply fdiv_nan; auto. by rewrite Fx.
    + apply fsub_nan; auto. apply fdiv_nan; auto. by rewrite Fy.
Qed.

(** A pointer the agent moves stays on the screen: whatever finite or other
    coordinates it asks for, and whatever the size of the screen, after a move, a
    click or a scroll the position is within the unit square, if it was before,
    and the first event of the action is at that position. *)
Theorem agent_pointer_on_screen button_order key_order action width height now t pos events t' pos' :
  match action with MouseMove _ _ _ | Click _ _ _ _ _ | Scroll _ _ _ _ _ => True | _ => False end ->
  on_screen pos ->
  convert_agent_action_to_events button_order key_order action (of_int binary32 width) (of_int binary32 height) now
    (t, pos) = (Ok events, (t', pos')) ->
  on_screen pos' /\ exists e rest, events = e :: rest /\ ie_x e = f32_bits pos'.1 /\ ie_y e = f32_bits pos'.2.
Proof.
  intros K On. unfold convert_agent_action_to_events. destruct (_ <? _); [done|]. intros E.
  pose proof (fun x y n => normalized_on_screen x y n (of_int binary32 width) (of_int binary32 height)) as N.
  destruct action; try done; repeat case_match; simplify_eq; (split; [|by eauto]);
    first [done | eapply N; [apply of_int_nan..|eassumption]].
Qed.

(** ** Text *)

(** The keys missing from the key map: of the printable ASCII characters, an
    agent's text types every one by one press and release of a key, except
    minus, underscore, equals and plus: nothing is sent for these, and no error
    reported. *)
Theorem text_drops_four_characters pos ch :
  32 <= ch <= 126 ->
  match type_char pos ch with
  | [] => ch = 45 \/ ch = 95 \/ ch = 61 \/ ch = 43
  | [down; up] =>
    ~ (ch = 45 \/ ch = 95 \/ ch = 61 \/ ch = 43) /\ ie_event_type down = IE_KeyDown /\ ie_event_type up = IE_KeyUp /\
    ie_key_code down = ie_key_code up
  | _ => False
  end.
Proof.
  intros R. assert (I : In ch (map (fun n => Z.of_nat n) (seq 32 95))).
  { apply in_map_iff. exists (Z.to_nat ch). split; [lia|]. apply in_seq. lia. }
  clear R. revert ch I. apply List.Forall_forall. cbn [seq map].
  repeat (constructor; [vm_compute; intuition congruence|]). constructor.
Qed.

(** [insert] is the virtual key 0x2d, which the map sends to the keycode of minus. *)
Example insert_types_minus :
  (parse_key_name (str_bytes "insert"), to_macos 0x2d, parse_key_name (str_bytes "-"), to_macos 0xbd)
  = (Ok (0x2d, Modifiers_empty), Some 0x1b, Ok (0xbd, Modifiers_empty), None).
Proof. reflexivity. Qed.

(** ** Concrete inputs *)

Definition toy_state : AgentState :=
  (record_button_down Right 3 (InputStateTracker_default 0), (f32_0, f32_1)).
Definition toy_convert (action : AgentAction) : result AgentInputError (list InputEvent) * AgentState :=
  convert_agent_action_to_events elements elements action (of_int binary32 1920) (of_int binary32 1080) 7 toy_state.

Lemma tracker_covers_held_witness :
  let held := ({[Right]}, ∅) : Held in
  recorded held toy_state.1 /\
  match toy_convert (KeyDown (str_bytes "A")) with
  | (Ok events, (t', _)) => recorded (pressed_by events held) t'
  | (Err _, (t', pos')) => t' = toy_state.1 /\ pos' = toy_state.2
  end.
Proof.
  cbn zeta. assert (R : recorded ({[Right]}, ∅) toy_state.1) by (split; cbn; set_solver). split; [done|].
  destruct (toy_convert (KeyDown (str_bytes "A"))) as [r [t' pos']] eqn:E.
  pose proof (tracker_covers_held elements elements (KeyDown (str_bytes "A")) (of_int binary32 1920)
    (of_int binary32 1080) 7 toy_state.1 toy_state.2 r t' pos' ({[Right]}, ∅) R E) as T.
  by destruct r.
Defined.

Lemma action_size_bounded_witness :
  exists events st', toy_convert (Click f32_0 f32_1 Left 2 true) = (Ok events, st') /\ len events <= MAX_ACTION_EVENTS.
Proof.
  do 2 eexists. split; [reflexivity|].
  eapply (action_size_bounded elements elements (fun _ => reflexivity _) (fun _ => reflexivity _)
    (Click f32_0 f32_1 Left 2 true) (of_int binary32 1920) (of_int binary32 1080) 7 toy_state.1 toy_state.2).
  reflexivity.
Defined.

Lemma agent_pointer_on_screen_witness :
  exists events t' pos', toy_convert (MouseMove (of_int binary32 4000) (of_int binary32 540) false) = (Ok events, (t', pos')) /\
    (on_screen pos' /\ exists e rest, events = e :: rest /\ ie_x e = f32_bits pos'.1 /\ ie_y e = f32_bits pos'.2).
Proof.
  do 3 eexists. split; [reflexivity|].
  eapply (agent_pointer_on_screen elements elements (MouseMove (of_int binary32 4000) (of_int binary32 540) false)
    1920 1080 7 toy_state.1 toy_state.2); [done|by vm_compute|reflexivity].
Defined.

Lemma text_drops_four_characters_witness :
  32 <= 45 <= 126 /\
  match type_char (f32_0, f32_0) 45 with
  | [] => 45 = 45 \/ 45 = 95 \/ 45 = 61 \/ 45 = 43
  | [down; up] =>
    ~ (45 = 45 \/ 45 = 95 \/ 45 = 61 \/ 45 = 43) /\ ie_event_type down = IE_KeyDown /\ ie_event_type up = IE_KeyUp /\
    ie_key_code down = ie_key_code up
  | _ => False
  end.
Proof. split; [lia|]. apply (text_drops_four_characters (f32_0, f32_0) 45). lia. Defined.
