(* ===== verification/AgentHttp.v ===== *)
(** * The agent server: requests

    [clients/rust/maho-app/src/agent_server.rs], [read_request],
    [check_auth_header] and the beginning of [handle_connection]: how a request is
    read from the socket, taken apart and authorized. *)

From S2P Require Import Prelude Text.

Definition CRLFCRLF : list byte := [CR; LF; CR; LF].
Definition LFLF : list byte := [LF; LF].
Definition COLON : byte := Byte.x3a.
Definition REQUEST_BUFFER : Z := 65536.

(** The kinds of error [read_request] returns. *)
Inductive ReadError : Type :=
| RE_InvalidInput
| RE_InvalidData
| RE_UnexpectedEof
| RE_TimedOut
| RE_Other.

(** The end of the headers and the length of the delimiter. *)
Definition find_delimiter (bytes : list byte) : option (nat * nat) :=
  match find_str CRLFCRLF bytes with
  | Some i => Some (i, 4%nat)
  | None => match find_str LFLF bytes with Some i => Some (i, 2%nat) | None => None end
  end.

(** The loop over the header lines. *)
Fixpoint content_length_of (headers : list rstring) (content_length : option Z) : result ReadError (option Z) :=
  match headers with
  | [] => Ok content_length
  | line :: headers =>
    match split_once COLON line with
    | None => Err RE_InvalidData
    | Some (name, value) =>
      if eq_ignore_ascii_case name (str_bytes "transfer-encoding") then Err RE_InvalidData
      else if eq_ignore_ascii_case name (str_bytes "content-length") then
        let value := trim value in
        if bool_decide (is_Some content_length) || (len value =? 0) || negb (forallb is_ascii_digit value)
        then Err RE_InvalidData
        else match parse_u64 value with
             | None => Err RE_InvalidInput
             | Some length => content_length_of headers (Some length)
             end
      else content_length_of headers content_length
    end
  end.

(** The size of the request, once its headers are complete. *)
Definition request_total (used : list byte) : result ReadError (option Z) :=
  match find_delimiter used with
  | None => Ok None
  | Some (header_end, delimiter_len) =>
    let headers := take header_end used in
    if negb (utf8_valid headers) then Err RE_InvalidData
    else match content_length_of (drop 1 (lines headers)) None with
         | Err e => Err e
         | Ok content_length =>
           let body_start := Z.of_nat (header_end + delimiter_len) in
           let length := default 0 content_length in
           if REQUEST_BUFFER - body_start <? length then Err RE_InvalidInput
           else Ok (Some (body_start + length))
         end
  end.

(** What the reads of the socket give; the deadline passes when there is nothing
    more. *)
Inductive ReadAnswer : Type :=
| RA_Data (bytes : list byte)
| RA_Failed.

(** A read takes at most the room it is given; the rest is for the next one, and an
    empty one is the end of the stream. *)
Fixpoint read_request_loop (fuel : nat) (used : list byte) (total : option Z) (answers : list ReadAnswer)
    : result ReadError (list byte) :=
  match fuel with
  | O => Err RE_TimedOut
  | S fuel =>
    if match total with Some total => total <=? len used | None => false end
    then Ok (take (Z.to_nat (default 0 total)) used)
    else if len used =? REQUEST_BUFFER then Err RE_InvalidInput
    else
      match answers with
      | [] => Err RE_TimedOut
      | RA_Failed :: _ => Err RE_Other
      | RA_Data bytes :: answers =>
        if len bytes =? 0 then (if len used =? 0 then Ok [] else Err RE_UnexpectedEof) else
        let n := Z.to_nat (Z.min (default REQUEST_BUFFER total - len used) (len bytes)) in
        let used := used ++ take n bytes in
        let answers := if len (drop n bytes) =? 0 then answers else RA_Data (drop n bytes) :: answers in
        match (match total with Some _ => Ok total | None => request_total used end) with
        | Err e => Err e
        | Ok total => read_request_loop fuel used total answers
        end
      end
  end.

(** Every turn reads a byte or ends, and the buffer has [REQUEST_BUFFER]. *)
Definition read_request (answers : list ReadAnswer) : result ReadError (list byte) :=
  read_request_loop (S (Z.to_nat REQUEST_BUFFER)) [] None answers.

Definition check_auth_header (auth_token : option rstring) (headers_text : rstring) : bool :=
  match auth_token with
  | None => true
  | Some expected =>
    existsb (fun line =>
      match split_once COLON line with
      | None => false
      | Some (name, value) =>
        let value := trim value in
        (eq_ignore_ascii_case name (str_bytes "Authorization")
         && bool_decide (strip_prefix_str (str_bytes "Bearer ") value = Some expected))
        || (eq_ignore_ascii_case name (str_bytes "X-Maho-Token") && bool_decide (value = expected))
      end) (drop 1 (lines headers_text))
  end.

Record Request : Type := mkRequest {
  rq_method : rstring;
  rq_path : rstring;
  rq_headers : rstring;
  rq_body : list byte
}.

(** [PR_Panic]: the slice of the body is out of bounds. *)
Inductive Parsed : Type := PR_Empty | PR_Malformed | PR_Panic | PR_Request (request : Request).

Definition parse_request (buf : list byte) : Parsed :=
  if len buf =? 0 then PR_Empty else
  let request_str := from_utf8_lossy buf in
  match lines request_str with
  | [] => PR_Empty
  | request_line :: _ =>
    match split_whitespace request_line with
    | method :: path :: _ =>
      match find_delimiter request_str with
      | None => PR_Request (mkRequest method path request_str [])
      | Some (idx, _) =>
        let offset := (idx + (if starts_with CRLFCRLF (drop idx request_str) then 4 else 2))%nat in
        if len buf <? Z.of_nat offset then PR_Panic
        else PR_Request (mkRequest method path (take idx request_str) (drop offset buf))
      end
    | _ => PR_Malformed
    end
  end.

(** * Theorems *)

(** ** The first delimiter *)

Lemma starts_with_length p s : starts_with p s = true -> (length p <= length s)%nat.
Proof. intros [rest ->]%starts_with_spec. rewrite length_app. lia. Qed.
Lemma starts_with_app_l p s x : starts_with p s = true -> starts_with p (s ++ x) = true.
Proof. intros [rest ->]%starts_with_spec. apply starts_with_spec. exists (rest ++ x). by rewrite app_assoc. Qed.
Lemma starts_with_app_inv p s x :
  (length p <= length s)%nat -> starts_with p (s ++ x) = true -> starts_with p s = true.
Proof.
  revert s. induction p as [|b p IH]; intros [|c s] L; cbn in *; try done; [lia|].
  intros [-> W]%andb_true_iff. apply IH; [lia|done].
Qed.
Lemma find_str_length p s i : find_str p s = Some i -> (i + length p <= length s)%nat.
Proof.
  revert i. induction s as [|b s IH]; intros i; cbn.
  - destruct (starts_with p []) eqn:W; [|done]. intros [= <-]. by apply starts_with_length in W.
  - destruct (starts_with p (b :: s)) eqn:W; [intros [= <-]; by apply starts_with_length in W|].
    destruct (find_str p s) as [j|] eqn:F; [|done]. intros [= <-]. specialize (IH j eq_refl). lia.
Qed.
(** An occurrence stays the first one when more follows. *)
Lemma find_str_app p s x i : find_str p s = Some i -> find_str p (s ++ x) = Some i.
Proof.
  revert i. induction s as [|b s IH]; intros i F.
  - cbn in F. destruct (starts_with p []) eqn:W; [|done]. injection F as <-.
    apply starts_with_length in W. destruct p; [by destruct x|cbn in W; lia].
  - pose proof (find_str_length _ _ _ F) as L. cbn [app find_str] in *.
    destruct (starts_with p (b :: s)) eqn:W.
    + change (b :: s ++ x) with ((b :: s) ++ x). by rewrite (starts_with_app_l p (b :: s) x W).
    + destruct (starts_with p (b :: s ++ x)) eqn:W'.
      * apply (starts_with_app_inv p (b :: s)) in W'; [congruence|cbn in *; lia].
      * destruct (find_str p s) as [j|] eqn:F'; [|done]. by rewrite (IH j eq_refl).
Qed.
Lemma find_str_take p n s : find_str p s = None -> find_str p (take n s) = None.
Proof.
  intros F. destruct (find_str p (take n s)) as [i|] eqn:E; [|done].
  apply (find_str_app _ _ (drop n s)) in E. rewrite take_drop in E. congruence.
Qed.

(** ** Reading *)

(** A request whose headers end with an empty line, with its body: the headers have
    no other empty line and announce the length of the body. *)
Record request_wf (head body : list byte) : Prop := {
  rw_utf8 : utf8_valid head = true;
  rw_first : find_str CRLFCRLF (head ++ CRLFCRLF) = Some (length head);
  rw_no_lflf : find_str LFLF (head ++ CRLFCRLF) = None;
  rw_length : exists announced, content_length_of (drop 1 (lines head)) None = Ok announced /\
    default 0 announced = len body;
  rw_size : len head + 4 + len body <= REQUEST_BUFFER
}.

Section Reading.

Context (head body : list byte) (WF : request_wf head body).
Local Abbreviation head_len := (length head + 4)%nat.
Local Abbreviation total := (len head + 4 + len body).
Local Abbreviation request := (head ++ CRLFCRLF ++ body).

(** What a part of the stream tells. *)
Lemma request_total_partial n extra :
  (n < head_len)%nat -> request_total (take n (request ++ extra)) = Ok None.
Proof.
  intros N. replace (take n (request ++ extra)) with (take n (head ++ CRLFCRLF)).
  2: { rewrite (app_assoc head), <- (app_assoc (head ++ CRLFCRLF)). symmetry. apply take_app_le.
       rewrite length_app. cbn. lia. }
  unfold request_total, find_delimiter.
  destruct (find_str CRLFCRLF (take n (head ++ CRLFCRLF))) as [i|] eqn:E.
  { pose proof (find_str_length _ _ _ E) as L. apply (find_str_app _ _ (drop n (head ++ CRLFCRLF))) in E.
    rewrite take_drop, (rw_first _ _ WF) in E. injection E as <-. rewrite length_take in L. cbn in L. lia. }
  by rewrite (find_str_take _ _ _ (rw_no_lflf _ _ WF)).
Qed.
Lemma request_total_complete n extra :
  (head_len <= n)%nat -> request_total (take n (request ++ extra)) = Ok (Some total).
Proof.
  intros N. replace (take n (request ++ extra)) with ((head ++ CRLFCRLF) ++ take (n - head_len) (body ++ extra)).
  2: { replace (request ++ extra) with ((head ++ CRLFCRLF) ++ body ++ extra) by (by rewrite <- !app_assoc).
       rewrite (take_app_ge (head ++ CRLFCRLF)) by (rewrite length_app; cbn; lia). by rewrite length_app. }
  unfold request_total, find_delimiter. rewrite (find_str_app _ _ _ _ (rw_first _ _ WF)).
  rewrite <- !app_assoc, take_app_length, (rw_utf8 _ _ WF). cbn [negb].
  destruct (rw_length _ _ WF) as (announced & -> & ->). pose proof (rw_size _ _ WF) as Z.
  rewrite (proj2 (Z.ltb_ge _ _)) by (unfold len in *; lia). do 2 f_equal. unfold len. lia.
Qed.

(** What [read_request] knows of the size, [n] bytes read. *)
Definition total_at (n : nat) : option Z := if decide (n < head_len)%nat then None else Some total.
Lemma request_total_at n extra :
  request_total (take n (request ++ extra)) = Ok (total_at n).
Proof. unfold total_at. case_decide; [by apply request_total_partial|apply request_total_complete; lia]. Qed.

Lemma total_at_later n m : (n <= m)%nat -> total_at n <> None -> total_at m = Some total.
Proof. unfold total_at. repeat case_decide; try done; lia. Qed.

(** Some of a chunk fits; what does not is the next one. *)
Lemma chunk_taken (stream c : list byte) (chunks : list (list byte)) n m :
  c ++ concat chunks = drop n stream -> (m <= length c)%nat ->
  take n stream ++ take m c = take (n + m) stream /\ drop m c ++ concat chunks = drop (n + m) stream.
Proof.
  intros E M. split.
  - rewrite <- take_take_drop, <- E, take_app_le by done. done.
  - rewrite <- drop_drop, <- E, drop_app_le by done. done.
Qed.

Lemma read_request_chunks extra : forall fuel n chunks,
  Forall (fun c => c <> []) chunks -> concat chunks = drop n (request ++ extra) ->
  (n <= length (request ++ extra))%nat -> (length request - n < fuel)%nat ->
  read_request_loop fuel (take n (request ++ extra)) (total_at n) (map RA_Data chunks) = Ok request.
Proof.
  pose proof (rw_size _ _ WF) as Sz. unfold REQUEST_BUFFER in Sz.
  assert (T : total = Z.of_nat (length request)) by (rewrite !length_app; unfold len; cbn; lia).
  induction fuel as [|fuel IH]; intros n chunks C E N F; [lia|].
  assert (U : len (take n (request ++ extra)) = Z.of_nat n) by (unfold len; rewrite length_take; lia).
  cbn [read_request_loop]. rewrite U.
  destruct (decide (length request <= n)%nat) as [Done|More].
  - assert (total_at n = Some total) as ->.
    { unfold total_at. rewrite !length_app in Done. cbn in Done. rewrite decide_False by lia. done. }
    rewrite (proj2 (Z.leb_le _ _)) by lia. 
    replace (Z.to_nat (default 0 (Some total))) with (length request)
      by (change (length request = Z.to_nat total); lia).
    rewrite take_take, Nat.min_l by done.
    by rewrite take_app_length.
  - assert (match total_at n with Some total => total <=? Z.of_nat n | None => false end = false) as ->.
    { unfold total_at. case_decide; [done|]. apply Z.leb_gt. lia. }
    rewrite (proj2 (Z.eqb_neq _ _)) by (unfold REQUEST_BUFFER; lia).
    assert (L : (length (drop n (request ++ extra)) <> 0)%nat) by (rewrite length_drop, length_app; lia).
    destruct chunks as [|c chunks]; [by rewrite <- E in L|]. apply Forall_cons in C as [C0 C]. cbn [map concat] in *.
    assert (0 < len c) by (unfold len; destruct c; [done|cbn; lia]). rewrite (proj2 (Z.eqb_neq _ _)) by lia.
    set (m := Z.to_nat (Z.min _ _)).
    assert (M : (1 <= m <= length c)%nat).
    { unfold m. assert (1 <= default REQUEST_BUFFER (total_at n) - Z.of_nat n); [|unfold len in *; lia].
      unfold total_at. case_decide; cbn; unfold REQUEST_BUFFER; lia. }
    destruct (chunk_taken _ _ _ n m E ltac:(lia)) as [-> E'].
    assert (match total_at n with Some _ => Ok (total_at n) | None => request_total (take (n + m) (request ++ extra)) end
            = Ok (total_at (n + m))) as ->.
    { rewrite request_total_at. destruct (total_at n) eqn:Tn; [|done]. rewrite <- Tn.
      rewrite (total_at_later n (n + m)) by (congruence || lia). unfold total_at in *. by case_decide. }
    assert (N' : (n + m <= length (request ++ extra))%nat).
    { assert (length (c ++ concat chunks) = length (drop n (request ++ extra))) as X by by rewrite E.
      rewrite length_drop, length_app in X. lia. }
    destruct (len (drop m c) =? 0) eqn:D.
    + apply Z.eqb_eq in D. assert (drop m c = []) as D' by (destruct (drop m c); [done|unfold len in D; cbn in D; lia]).
      rewrite D' in E'. apply IH; [done|done|done|lia].
    + apply Z.eqb_neq in D. apply (IH (n + m)%nat (drop m c :: chunks)); [|done|done|lia].
      constructor; [|done]. intros D'. by rewrite D' in D.
Qed.

End Reading.

(** A request is read whole, however it arrives: when the stream is a
    well-formed request and whatever follows it, cut in any non-empty pieces, the
    server reads exactly the request. *)
Theorem request_read_in_any_chunks head body extra chunks :
  request_wf head body -> Forall (fun c => c <> []) chunks ->
  concat chunks = head ++ CRLFCRLF ++ body ++ extra ->
  read_request (map RA_Data chunks) = Ok (head ++ CRLFCRLF ++ body).
Proof.
  intros WF C E. replace (head ++ CRLFCRLF ++ body ++ extra) with ((head ++ CRLFCRLF ++ body) ++ extra) in E
    by (by rewrite <- !app_assoc).
  pose proof (rw_size _ _ WF) as Sz. unfold REQUEST_BUFFER, len in Sz.
  unfold read_request. rewrite <- (read_request_chunks head body WF extra (S (Z.to_nat REQUEST_BUFFER)) 0 chunks);
    [|done|done|lia|rewrite !length_app; cbn; unfold REQUEST_BUFFER; lia].
  rewrite take_0. f_equal. unfold total_at. case_decide; [done|lia].
Qed.

(** ** Taking apart *)

(** What was read is taken apart where it was put together: for a well-formed
    request, even when its body is not text, the headers the server authorizes
    are the headers, the body it executes is the body, and no slice is out of
    bounds. *)
Theorem request_parts_agree head body :
  request_wf head body ->
  match parse_request (head ++ CRLFCRLF ++ body) with
  | PR_Request r => rq_headers r = head /\ rq_body r = body
  | PR_Panic => False
  | PR_Empty | PR_Malformed => True
  end.
Proof.
  intros WF. unfold parse_request. destruct (_ =? 0); [done|].
  rewrite from_utf8_lossy_app by apply WF.
  assert (from_utf8_lossy (CRLFCRLF ++ body) = CRLFCRLF ++ from_utf8_lossy body) as ->
    by (by apply from_utf8_lossy_app).
  destruct (lines _) as [|line ?]; [done|]. destruct (split_whitespace line) as [|method [|path ?]]; [done..|].
  unfold find_delimiter. rewrite (app_assoc head), (find_str_app _ _ _ _ (rw_first _ _ WF)), <- app_assoc.
  rewrite drop_app_length, starts_with_app, take_app_length.
  rewrite (proj2 (Z.ltb_ge _ _)) by (unfold len; rewrite !length_app; cbn; lia). cbn [rq_headers rq_body].
  split; [done|]. rewrite app_assoc. apply drop_app_length'. rewrite length_app. cbn. lia.
Qed.

(** A line feed instead of a carriage return and line feed is enough for the reader,
    and what it then reads depends on how it arrives: the parts of this request
    are an empty line of the body, and characters that a replacement makes
    longer. *)
Definition odd_head : list byte := str_bytes "POST /x" ++ [LF] ++ str_bytes "Content-Length: 9" ++ LFLF.
Definition odd_body : list byte := replicate 5 Byte.xff ++ CRLFCRLF.
Example odd_request_panics :
  (read_request (map RA_Data [odd_head; odd_body]), parse_request (odd_head ++ odd_body))
  = (Ok (odd_head ++ odd_body), PR_Panic).
Proof. vm_compute. reflexivity. Qed.
Example odd_request_refused : read_request (map RA_Data [odd_head ++ odd_body]) = Err RE_InvalidData.
Proof. vm_compute. reflexivity. Qed.

(** ** Authorization *)

(** The token is in a header of its own or behind [Bearer] in [Authorization]. *)
Definition presents (token : rstring) (line : rstring) : Prop :=
  exists name value, split_once COLON line = Some (name, value) /\
    (eq_ignore_ascii_case name (str_bytes "Authorization") = true /\ trim value = str_bytes "Bearer " ++ token \/
     eq_ignore_ascii_case name (str_bytes "X-Maho-Token") = true /\ trim value = token).

Lemma strip_prefix_str_spec prefix s rest : strip_prefix_str prefix s = Some rest <-> s = prefix ++ rest.
Proof.
  unfold strip_prefix_str. split.
  - destruct (starts_with prefix s) eqn:W; [|done]. apply starts_with_spec in W as [r ->].
    rewrite drop_app_length. by intros [= <-].
  - intros ->. by rewrite starts_with_app, drop_app_length.
Qed.

Lemma check_auth_spec token headers :
  check_auth_header (Some token) headers = true <-> Exists (presents token) (drop 1 (lines headers)).
Proof.
  cbn [check_auth_header]. rewrite existsb_exists, List.Exists_exists. split; intros (line & I & P); exists line; (split; [done|]).
  - cbn beta in P. unfold presents. destruct (split_once COLON line) as [[name value]|]; [|done].
    exists name, value. split; [done|].
    apply orb_true_iff in P as [[A B]%andb_true_iff|[A B]%andb_true_iff]; [left|right]; (split; [done|]).
    + apply bool_decide_eq_true in B. by apply strip_prefix_str_spec.
    + by apply bool_decide_eq_true in B.
  - destruct P as (name & value & -> & [[A B]|[A B]]); rewrite A.
    + by rewrite (proj2 (strip_prefix_str_spec _ _ _) B), (bool_decide_true (Some token = Some token)).
    + rewrite B, (bool_decide_true (token = token)) by done. apply orb_true_r.
Qed.

Definition toy_head : list byte := str_bytes "POST /x HTTP/1.1" ++ [CR; LF] ++ str_bytes "Content-Length: 2".
Definition toy_body : list byte := [Byte.xff; Byte.x61].
Lemma toy_request_wf : request_wf toy_head toy_body.
Proof.
  split; [vm_compute; reflexivity..| |by vm_compute].
  exists (Some 2). split; vm_compute; reflexivity.
Qed.

Lemma request_read_in_any_chunks_witness :
  read_request (map RA_Data [toy_head; CRLFCRLF; toy_body ++ [Byte.x00]]) = Ok (toy_head ++ CRLFCRLF ++ toy_body).
Proof.
  apply (request_read_in_any_chunks toy_head toy_body [Byte.x00]);
    [apply toy_request_wf|by repeat constructor|vm_compute; reflexivity].
Defined.

Lemma request_parts_agree_witness :
  parse_request (toy_head ++ CRLFCRLF ++ toy_body)
  = PR_Request (mkRequest (str_bytes "POST") (str_bytes "/x") toy_head toy_body) /\
  match parse_request (toy_head ++ CRLFCRLF ++ toy_body) with
  | PR_Request r => rq_headers r = toy_head /\ rq_body r = toy_body
  | PR_Panic => False
  | PR_Empty | PR_Malformed => True
  end.
Proof. split; [vm_compute; reflexivity|]. apply (request_parts_agree toy_head toy_body), toy_request_wf. Defined.
