(* ===== verification/AgentServer.v ===== *)
(** * The agent server

    [clients/rust/maho-app/src/agent_server.rs], [AgentServer::run],
    [handle_connection], [release_inputs], [handle_session_disconnect]: agents send
    actions over HTTP; the events they become are sent to the session's backend.
    Each connection is a task, the watchdog is another, and the jobs they hand to
    the blocking pool run on threads of their own: a job goes on when its
    connection is gone.  Two locks (the tracker's and the position's) are held
    by whoever changes what is held down; a job that holds them is one step, and
    the clock stands still in it.  A response is its status.  The backend, JSON
    and the drain order of hash sets are parameters. *)

From Stdlib Require Import SpecFloat.
From S2P Require Import Prelude Text Float Codec Input AgentInput AgentHttp.

Definition conn : Type := nat.

Definition MAX_CONNECTIONS : Z := 32.
Definition MAX_WORK : Z := 4.

(** What happened, newest first.  An input's [origin] is the connection it was sent
    for; [AE_Failed]: the backend refused an event of this action. *)
Inductive AgentEffect : Type :=
| AE_Request (c : conn) (bytes : list byte)
| AE_Input (origin : option conn) (event : InputEvent) (accepted : bool)
| AE_Failed (c : conn) (action : AgentAction)
| AE_Response (c : conn) (status : Z)
| AE_Disconnecting (c : conn)
| AE_Disconnected.

(** The tracker and the position, the calls of the backend, and the log. *)
Record Transaction : Type := mkTransaction {
  tx_tracker : InputStateTracker;
  tx_pos : spec_float * spec_float;
  tx_calls : nat;
  tx_log : list AgentEffect
}.
Definition set_tracker (t : InputStateTracker) (x : Transaction) : Transaction :=
  mkTransaction t (tx_pos x) (tx_calls x) (tx_log x).
Definition note (e : AgentEffect) (x : Transaction) : Transaction :=
  mkTransaction (tx_tracker x) (tx_pos x) (tx_calls x) (e :: tx_log x).

Section Server.

(** [backend.send_input_event], as the n-th call; [backend.supports_session_disconnect]. *)
Context (accepts : nat -> InputEvent -> bool) (supports_disconnect : bool).
Context (button_order : gset MouseButton -> list MouseButton) (key_order : gset Z -> list Z).
(** [serde_json::from_slice]. *)
Context (parse_action : list byte -> option AgentAction) (parse_batch : list byte -> option (list AgentAction)).
Context (auth_token : option rstring).

(** ** Transactions *)

Definition send_input_event (origin : option conn) (event : InputEvent) (x : Transaction) : bool * Transaction :=
  let accepted := accepts (tx_calls x) event in
  (accepted, mkTransaction (tx_tracker x) (tx_pos x) (S (tx_calls x)) (AE_Input origin event accepted :: tx_log x)).

(** The loop over the events of a release: how many were sent, whether one was not,
    and whether the reset was. *)
Fixpoint send_releases (origin : option conn) (events : list InputEvent) (sent : Z) (error reset_sent : bool)
    (x : Transaction) : Z * bool * bool * Transaction :=
  match events with
  | [] => (sent, error, reset_sent, x)
  | event :: events =>
    let '(ok, x) := send_input_event origin event x in
    if ok : bool
    then send_releases origin events (sent + 1) error
           (reset_sent || bool_decide (ie_event_type event = IE_Reset)) x
    else send_releases origin events sent true reset_sent x
  end.

(** What a release that was not sent leaves on record. *)
Definition record_again (now : Instant) (t : InputStateTracker) (event : InputEvent) : InputStateTracker :=
  match ie_event_type event with
  | IE_LeftMouseUp => record_button_down Left now t
  | IE_RightMouseUp => record_button_down Right now t
  | IE_MiddleMouseUp => record_button_down Middle now t
  | IE_KeyUp => record_key_down (ie_key_code event) (ie_modifiers event) now t
  | _ => t
  end.

Definition release_inputs (origin : option conn) (pos : spec_float * spec_float) (now : Instant) (x : Transaction)
    : Z * bool * Transaction :=
  let '(events, t) := release_all button_order key_order pos now (tx_tracker x) in
  let '(sent, error, reset_sent, x) := send_releases origin events 0 false false (set_tracker t x) in
  let x := if reset_sent then x else set_tracker (foldl (record_again now) (tx_tracker x) events) x in
  (sent, error, x).

(** What a batch has pressed and not released. *)
Record BatchHeld : Type := mkBatchHeld {
  bh_buttons : gset MouseButton;
  bh_keys : gmap Z Modifiers
}.
Definition batch_held (h : BatchHeld) (event : InputEvent) : BatchHeld :=
  match ie_event_type event with
  | IE_LeftMouseDown => mkBatchHeld ({[Left]} ∪ bh_buttons h) (bh_keys h)
  | IE_RightMouseDown => mkBatchHeld ({[Right]} ∪ bh_buttons h) (bh_keys h)
  | IE_MiddleMouseDown => mkBatchHeld ({[Middle]} ∪ bh_buttons h) (bh_keys h)
  | IE_LeftMouseUp => mkBatchHeld (bh_buttons h ∖ {[Left]}) (bh_keys h)
  | IE_RightMouseUp => mkBatchHeld (bh_buttons h ∖ {[Right]}) (bh_keys h)
  | IE_MiddleMouseUp => mkBatchHeld (bh_buttons h ∖ {[Middle]}) (bh_keys h)
  | IE_KeyDown => mkBatchHeld (bh_buttons h) (<[ie_key_code event := ie_modifiers event]> (bh_keys h))
  | IE_KeyUp => mkBatchHeld (bh_buttons h) (delete (ie_key_code event) (bh_keys h))
  | IE_Reset => mkBatchHeld ∅ ∅
  | _ => h
  end.

(** The answer to a refused event: what the backend holds is recorded again, and
    everything is released. *)
Definition record_batch (now : Instant) (h : BatchHeld) (t : InputStateTracker) : InputStateTracker :=
  let t := foldr (fun b t => record_button_down b now t) t (button_order (bh_buttons h)) in
  map_fold (fun k mods t => record_key_down k mods now t) t (bh_keys h).
Definition roll_back (c : conn) (action : AgentAction) (h : BatchHeld) (now : Instant) (x : Transaction)
    : Transaction :=
  let x := note (AE_Failed c action) x in
  (release_inputs (Some c) (tx_pos x) now (set_tracker (record_batch now h (tx_tracker x)) x)).2.

(** The loop over the events of an action; [None]: an event was refused. *)
Fixpoint dispatch_events (c : conn) (action : AgentAction) (events : list InputEvent) (now : Instant)
    (h : BatchHeld) (x : Transaction) : option BatchHeld * Transaction :=
  match events with
  | [] => (Some h, x)
  | event :: events =>
    let '(ok, x) := send_input_event (Some c) event x in
    if ok : bool then dispatch_events c action events now (batch_held h event) x
    else (None, roll_back c action h now x)
  end.

(** The loop over the actions, and the status of the answer. *)
Fixpoint dispatch_actions (c : conn) (actions : list AgentAction) (screen : Z * Z) (now : Instant)
    (h : BatchHeld) (x : Transaction) : Z * Transaction :=
  match actions with
  | [] => (200, x)
  | action :: actions =>
    let '(r, (t, pos)) :=
      convert_agent_action_to_events button_order key_order action (of_int binary32 screen.1)
        (of_int binary32 screen.2) now (tx_tracker x, tx_pos x) in
    let x := mkTransaction t pos (tx_calls x) (tx_log x) in
    match r with
    | Err _ => (400, x)
    | Ok events =>
      match dispatch_events c action events now h x with
      | (Some h, x) => dispatch_actions c actions screen now h x
      | (None, x) => (500, x)
      end
    end
  end.

(** The jobs that hold both locks; a disconnect answers whether it failed. *)
Inductive Job : Type :=
| J_Actions (actions : list AgentAction)
| J_Reset
| J_Disconnect.

Definition run_job (c : conn) (job : Job) (screen : Z * Z) (now : Instant) (x : Transaction) : Z * Transaction :=
  match job with
  | J_Actions actions => dispatch_actions c actions screen now (mkBatchHeld ∅ ∅) x
  | J_Reset | J_Disconnect =>
    let '(_, error, x) := release_inputs (Some c) (tx_pos x) now x in
    (if error : bool then 500 else 200, x)
  end.

(** ** Routes *)

Inductive Route : Type :=
| RT_Respond (status : Z)
| RT_ScreenInfo
| RT_Screenshot
| RT_WaitChange (last_frame_id : option Z) (timeout : Duration)
| RT_Input (actions : option (list AgentAction))
| RT_Reset
| RT_Disconnect.

(** The query of [wait_change]. *)
Definition EQUALS : byte := Byte.x3d.
Definition AMPERSAND : byte := Byte.x26.
Definition QUESTION : byte := Byte.x3f.
Definition wait_param (acc : option Z * Z) (param : rstring) : option Z * Z :=
  match split_once EQUALS param with
  | None => acc
  | Some (key, value) =>
    match parse_u64 value with
    | None => acc
    | Some v =>
      if one_of key ["last_frame_id"%string] then (Some v, acc.2)
      else if one_of key ["timeout_ms"%string] then (acc.1, Z.min v 30000)
      else acc
    end
  end.
Definition wait_query (path : rstring) : option Z * Z :=
  foldl wait_param (None, 5000) (split AMPERSAND (nth 1 (split QUESTION path) [])).

Definition route (r : Request) : Route :=
  let post := bool_decide (rq_method r = str_bytes "POST") in
  let get := bool_decide (rq_method r = str_bytes "GET") in
  let path := rq_path r in
  let tokened := check_auth_header auth_token (rq_headers r) in
  let guarded rt := if tokened then rt else RT_Respond 401 in
  if get && one_of path ["/api/v1/health"%string; "/health"%string] then RT_Respond 200
  else if get && one_of path ["/api/v1/screen/info"%string] then guarded RT_ScreenInfo
  else if get && starts_with (str_bytes "/api/v1/screen/screenshot") path then guarded RT_Screenshot
  else if get && starts_with (str_bytes "/api/v1/screen/wait_change") path
  then guarded (let '(last, ms) := wait_query path in RT_WaitChange last (from_millis ms))
  else if post && one_of path ["/api/v1/input/action"%string]
  then guarded (RT_Input (match parse_action (rq_body r) with Some a => Some [a] | None => None end))
  else if post && one_of path ["/api/v1/input/batch"%string] then guarded (RT_Input (parse_batch (rq_body r)))
  else if post && one_of path ["/api/v1/input/reset"%string] then guarded RT_Reset
  else if post && one_of path ["/api/v1/session/disconnect"%string] then guarded RT_Disconnect
  else RT_Respond 404.

(** The status that answers a request which could not be read. *)
Definition read_error_status (e : ReadError) : option Z :=
  match e with
  | RE_InvalidInput => Some 413
  | RE_TimedOut => Some 408
  | RE_InvalidData | RE_UnexpectedEof => Some 400
  | RE_Other => None
  end.

(** ** The server *)

(** Where a connection's task is. *)
Inductive Task : Type :=
| T_Read                                                (* read_request *)
| T_Info                                                (* work.blocking: a permit is awaited *)
| T_Screenshot
| T_Blocked                                             (* the answer of a job is awaited *)
| T_Wait (last_frame_id : option Z) (deadline : Instant)
| T_Lock (job : Job)                                    (* tracker.lock_owned() *)
| T_LockPos (job : Job)                                 (* current_pos.lock_owned() *)
| T_Recheck (job : Job)
| T_Permit (job : Job)                                  (* work.blocking: a permit is awaited *)
| T_Running (job : Job)                                 (* the job runs *)
| T_Answer (status : Z)                                 (* send_response *)
| T_Announce (status : Z)                               (* send_response of a disconnect *)
| T_Announced (status : Z) (written : bool)
| T_End.

(** What runs in the blocking pool, each with a permit. *)
Inductive Work : Type :=
| WK_Job (job : Job)
| WK_Screenshot
| WK_Info.

(** Where [run] is; [disconnect]: [session_disconnect_requested]. *)
Inductive RunStage : Type :=
| R_Loop
| R_Close (disconnect : bool)
| R_Abort (disconnect : bool)
| R_Drain (disconnect : bool)
| R_Final (disconnect : bool)
| R_Ended.

(** The watchdog's position, once it has copied it. *)
Record Server : Type := mkServer {
  sv_tx : Transaction;
  sv_tracker_lock : option conn;
  sv_pos_lock : option conn;
  sv_input_closed : bool;
  sv_done : bool;
  sv_disconnect : option conn;
  sv_screenshots : option conn;
  sv_tasks : gmap conn Task;
  sv_jobs : gmap conn Work;
  sv_watchdog : option (option (spec_float * spec_float));
  sv_shutdown : bool;
  sv_run : RunStage
}.

Definition set_sv_tx (v : Transaction) (s : Server) : Server :=
  mkServer v (sv_tracker_lock s) (sv_pos_lock s) (sv_input_closed s) (sv_done s) (sv_disconnect s)
    (sv_screenshots s) (sv_tasks s) (sv_jobs s) (sv_watchdog s) (sv_shutdown s) (sv_run s).
Definition set_sv_tracker_lock (v : option conn) (s : Server) : Server :=
  mkServer (sv_tx s) v (sv_pos_lock s) (sv_input_closed s) (sv_done s) (sv_disconnect s) (sv_screenshots s)
    (sv_tasks s) (sv_jobs s) (sv_watchdog s) (sv_shutdown s) (sv_run s).
Definition set_sv_pos_lock (v : option conn) (s : Server) : Server :=
  mkServer (sv_tx s) (sv_tracker_lock s) v (sv_input_closed s) (sv_done s) (sv_disconnect s) (sv_screenshots s)
    (sv_tasks s) (sv_jobs s) (sv_watchdog s) (sv_shutdown s) (sv_run s).
Definition set_sv_input_closed (v : bool) (s : Server) : Server :=
  mkServer (sv_tx s) (sv_tracker_lock s) (sv_pos_lock s) v (sv_done s) (sv_disconnect s) (sv_screenshots s)
    (sv_tasks s) (sv_jobs s) (sv_watchdog s) (sv_shutdown s) (sv_run s).
Definition set_sv_done (v : bool) (s : Server) : Server :=
  mkServer (sv_tx s) (sv_tracker_lock s) (sv_pos_lock s) (sv_input_closed s) v (sv_disconnect s) (sv_screenshots
    s) (sv_tasks s) (sv_jobs s) (sv_watchdog s) (sv_shutdown s) (sv_run s).
Definition set_sv_disconnect (v : option conn) (s : Server) : Server :=
  mkServer (sv_tx s) (sv_tracker_lock s) (sv_pos_lock s) (sv_input_closed s) (sv_done s) v (sv_screenshots s)
    (sv_tasks s) (sv_jobs s) (sv_watchdog s) (sv_shutdown s) (sv_run s).
Definition set_sv_screenshots (v : option conn) (s : Server) : Server :=
  mkServer (sv_tx s) (sv_tracker_lock s) (sv_pos_lock s) (sv_input_closed s) (sv_done s) (sv_disconnect s) v
    (sv_tasks s) (sv_jobs s) (sv_watchdog s) (sv_shutdown s) (sv_run s).
Definition set_sv_tasks (v : gmap conn Task) (s : Server) : Server :=
  mkServer (sv_tx s) (sv_tracker_lock s) (sv_pos_lock s) (sv_input_closed s) (sv_done s) (sv_disconnect s)
    (sv_screenshots s) v (sv_jobs s) (sv_watchdog s) (sv_shutdown s) (sv_run s).
Definition set_sv_jobs (v : gmap conn Work) (s : Server) : Server :=
  mkServer (sv_tx s) (sv_tracker_lock s) (sv_pos_lock s) (sv_input_closed s) (sv_done s) (sv_disconnect s)
    (sv_screenshots s) (sv_tasks s) v (sv_watchdog s) (sv_shutdown s) (sv_run s).
Definition set_sv_watchdog (v : option (option (spec_float * spec_float))) (s : Server) : Server :=
  mkServer (sv_tx s) (sv_tracker_lock s) (sv_pos_lock s) (sv_input_closed s) (sv_done s) (sv_disconnect s)
    (sv_screenshots s) (sv_tasks s) (sv_jobs s) v (sv_shutdown s) (sv_run s).
Definition set_sv_shutdown (v : bool) (s : Server) : Server :=
  mkServer (sv_tx s) (sv_tracker_lock s) (sv_pos_lock s) (sv_input_closed s) (sv_done s) (sv_disconnect s)
    (sv_screenshots s) (sv_tasks s) (sv_jobs s) (sv_watchdog s) v (sv_run s).
Definition set_sv_run (v : RunStage) (s : Server) : Server :=
  mkServer (sv_tx s) (sv_tracker_lock s) (sv_pos_lock s) (sv_input_closed s) (sv_done s) (sv_disconnect s)
    (sv_screenshots s) (sv_tasks s) (sv_jobs s) (sv_watchdog s) (sv_shutdown s) v.

Definition AgentServer_new (now : Instant) : Server :=
  let middle := literal binary32 1 (-1) in
  mkServer (mkTransaction (InputStateTracker_default now) (middle, middle) 0 []) None None false false None None ∅ ∅
    (Some None) false R_Loop.

Definition log (e : AgentEffect) (s : Server) : Server := set_sv_tx (note e (sv_tx s)) s.
Definition goto (c : conn) (t : Task) (s : Server) : Server := set_sv_tasks (<[c := t]> (sv_tasks s)) s.
Definition start (c : conn) (w : Work) (s : Server) : Server := set_sv_jobs (<[c := w]> (sv_jobs s)) s.

(** Guards that a task drops. *)
Definition drop_owner (c : conn) (o : option conn) : option conn := if decide (o = Some c) then None else o.
Definition unlock (c : conn) (s : Server) : Server :=
  set_sv_tracker_lock (drop_owner c (sv_tracker_lock s)) (set_sv_pos_lock (drop_owner c (sv_pos_lock s)) s).
(** The end of a task; the guards in a job that runs are the job's. *)
Definition finish_task (c : conn) (s : Server) : Server :=
  let s := set_sv_disconnect (drop_owner c (sv_disconnect s)) s in
  goto c T_End (match sv_jobs s !! c with Some _ => s | None =>
    set_sv_screenshots (drop_owner c (sv_screenshots s)) (unlock c s) end).
Definition answer (c : conn) (status : Z) (s : Server) : Server := goto c (T_Answer status) s.

(** A connection's request is read. *)
Definition handle_request (c : conn) (answers : list ReadAnswer) (now : Instant) (s : Server) : Server :=
  match read_request answers with
  | Err e => match read_error_status e with Some status => answer c status s | None => finish_task c s end
  | Ok buf =>
    let s := log (AE_Request c buf) s in
    match parse_request buf with
    | PR_Empty | PR_Panic => finish_task c s
    | PR_Malformed => answer c 400 s
    | PR_Request r =>
      match route r with
      | RT_Respond status => answer c status s
      | RT_ScreenInfo => goto c T_Info s
      | RT_Screenshot =>
        match sv_screenshots s with
        | Some _ => answer c 429 s
        | None => goto c T_Screenshot (set_sv_screenshots (Some c) s)
        end
      | RT_WaitChange last timeout => goto c (T_Wait last (now + timeout)) s
      | RT_Input actions =>
        if sv_input_closed s then answer c 409 s
        else match actions with None => answer c 400 s | Some actions => goto c (T_Lock (J_Actions actions)) s end
      | RT_Reset => if sv_input_closed s then answer c 409 s else goto c (T_Lock J_Reset) s
      | RT_Disconnect =>
        if negb supports_disconnect then answer c 501 s
        else match sv_disconnect s with
             | Some _ => answer c 409 s
             | None =>
               if sv_done s then answer c 409 s
               else goto c (T_Lock J_Disconnect) (set_sv_input_closed true (set_sv_disconnect (Some c) s))
             end
      end
    end
  end.

Definition has_permit (s : Server) : bool := Z.of_nat (size (sv_jobs s)) <? MAX_WORK.
Definition is_disconnect (job : Job) : bool := match job with J_Disconnect => true | _ => false end.

(** A task goes on, when what it waits for is there. *)
Definition task_next (c : conn) (t : Task) (s : Server) : Server :=
  match t with
  | T_Info => if has_permit s then start c WK_Info (goto c T_Blocked s) else s
  | T_Screenshot => if has_permit s then start c WK_Screenshot (goto c T_Blocked s) else s
  | T_Lock job =>
    match sv_tracker_lock s with
    | Some _ => s
    | None => goto c (T_LockPos job) (set_sv_tracker_lock (Some c) s)
    end
  | T_LockPos job =>
    match sv_pos_lock s with
    | Some _ => s
    | None => goto c (if is_disconnect job then T_Permit job else T_Recheck job) (set_sv_pos_lock (Some c) s)
    end
  | T_Recheck job => if sv_input_closed s then answer c 409 (unlock c s) else goto c (T_Permit job) s
  | T_Permit job => if has_permit s then start c (WK_Job job) (goto c (T_Running job) s) else s
  | T_Answer status => finish_task c (log (AE_Response c status) s)
  | T_Announced status written =>
    finish_task c (if (status =? 200) || written then set_sv_done true s else s)
  | _ => s
  end.

(** Its deadline is over. *)
Definition task_timeout (c : conn) (t : Task) (s : Server) : Server :=
  match t with
  | T_Info | T_Screenshot | T_Blocked | T_Lock _ | T_Permit _ | T_Running _ | T_Answer _ => finish_task c s
  | T_Announce status => goto c (T_Announced status false) s
  | _ => s
  end.

(** The response of a disconnect is written. *)
Definition announce (c : conn) (status : Z) (s : Server) : Server :=
  let s := log (AE_Response c status) s in
  goto c (T_Announced status true) (if status =? 200 then log (AE_Disconnecting c) s else s).

(** The frame that [wait_change] sees. *)
Definition wait_poll (c : conn) (last : option Z) (deadline : Instant) (frame : option Z) (now : Instant)
    (s : Server) : Server :=
  let changed := match frame with Some id => negb (bool_decide (last = Some id)) | None => false end in
  if changed || (deadline <=? now) then answer c 200 s else s.

(** A job of the pool is done; [status] is that of a screenshot. *)
Definition job_done (c : conn) (w : Work) (screen : Z * Z) (now : Instant) (status : Z) (s : Server) : Server :=
  let s := set_sv_jobs (delete c (sv_jobs s)) s in
  let waits := match sv_tasks s !! c with Some T_Blocked => true | _ => false end in
  match w with
  | WK_Info => if waits then answer c 200 s else s
  | WK_Screenshot =>
    let s := set_sv_screenshots (drop_owner c (sv_screenshots s)) s in
    if waits then answer c status s else s
  | WK_Job job =>
    let '(status, x) := run_job c job screen now (sv_tx s) in
    let s := unlock c (set_sv_tx x s) in
    match sv_tasks s !! c with
    | Some (T_Running _) => goto c (if is_disconnect job then T_Announce status else T_Answer status) s
    | _ => s
    end
  end.

(** The watchdog, after it has copied the position. *)
Definition watchdog_check (pos : spec_float * spec_float) (now : Instant) (s : Server) : Server :=
  let s := set_sv_watchdog (Some None) s in
  let x := sv_tx s in
  if is_timed_out now (tx_tracker x) then
    let '(_, error, x) := release_inputs None pos now x in
    set_sv_tx (if error : bool then set_tracker (mark_release_failed now (tx_tracker x)) x else x) s
  else s.

(** [connections.abort_all()]: every task is dropped with its guards. *)
Definition abort_all (s : Server) : Server :=
  let owner o := match o with Some c => if decide (is_Some (sv_jobs s !! c)) then o else None | None => None end in
  mkServer (sv_tx s) (owner (sv_tracker_lock s)) (owner (sv_pos_lock s)) (sv_input_closed s) (sv_done s) None
    (owner (sv_screenshots s)) ∅ (sv_jobs s) None (sv_shutdown s) (sv_run s).

(** The next statement of [run]. *)
Definition run_next (now : Instant) (s : Server) : Server :=
  match sv_run s with
  | R_Loop =>
    if sv_done s then set_sv_run (R_Close true) s
    else if sv_shutdown s then set_sv_run (R_Close false) s else s
  | R_Close d => set_sv_run (R_Abort d) (set_sv_input_closed true s)
  | R_Abort d => set_sv_run (R_Drain d) (abort_all s)
  | R_Drain d => if decide (sv_jobs s = ∅) then set_sv_run (R_Final d) s else s
  | R_Final true => set_sv_run R_Ended (log AE_Disconnected s)
  | R_Final false =>
    let x := sv_tx s in
    let x := if tracker_is_empty (tx_tracker x) then x else (release_inputs None (tx_pos x) now x).2 in
    set_sv_run R_Ended (set_sv_tx x s)
  | R_Ended => s
  end.

Inductive Event : Type :=
| EV_Accept (c : conn)
| EV_Joined (c : conn)
| EV_Request (c : conn) (answers : list ReadAnswer) (now : Instant)
| EV_Next (c : conn)
| EV_Timeout (c : conn)
| EV_Written (c : conn)
| EV_Frame (c : conn) (frame : option Z) (now : Instant)
| EV_Job (c : conn) (screen : Z * Z) (now : Instant) (status : Z)
| EV_Tick
| EV_Watchdog (now : Instant)
| EV_WatchdogTimeout
| EV_Shutdown
| EV_Run (now : Instant)
| EV_DrainTimeout.

Definition server_event (s : Server) (e : Event) : Server :=
  match e with
  | EV_Accept c =>
    match sv_run s, sv_tasks s !! c, sv_jobs s !! c with
    | R_Loop, None, None => if Z.of_nat (size (sv_tasks s)) + 1 <? MAX_CONNECTIONS then goto c T_Read s else s
    | _, _, _ => s
    end
  | EV_Joined c =>
    match sv_tasks s !! c with Some T_End => set_sv_tasks (delete c (sv_tasks s)) s | _ => s end
  | EV_Request c answers now =>
    match sv_tasks s !! c with Some T_Read => handle_request c answers now s | _ => s end
  | EV_Next c => match sv_tasks s !! c with Some t => task_next c t s | None => s end
  | EV_Timeout c => match sv_tasks s !! c with Some t => task_timeout c t s | None => s end
  | EV_Written c => match sv_tasks s !! c with Some (T_Announce status) => announce c status s | _ => s end
  | EV_Frame c frame now =>
    match sv_tasks s !! c with Some (T_Wait last deadline) => wait_poll c last deadline frame now s | _ => s end
  | EV_Job c screen now status =>
    match sv_jobs s !! c with Some w => job_done c w screen now status s | None => s end
  | EV_Tick =>
    match sv_watchdog s, sv_pos_lock s with
    | Some None, None => set_sv_watchdog (Some (Some (tx_pos (sv_tx s)))) s
    | _, _ => s
    end
  | EV_Watchdog now =>
    match sv_watchdog s, sv_tracker_lock s with
    | Some (Some pos), None => watchdog_check pos now s
    | _, _ => s
    end
  | EV_WatchdogTimeout => match sv_watchdog s with Some (Some _) => set_sv_watchdog (Some None) s | _ => s end
  | EV_Shutdown => set_sv_shutdown true s
  | EV_Run now => run_next now s
  | EV_DrainTimeout => match sv_run s with R_Drain _ => set_sv_run R_Ended s | _ => s end
  end.

Definition server_run (now : Instant) (events : list Event) : Server := foldl server_event (AgentServer_new now) events.

(** * Theorems *)

(** ** What the backend holds is on record *)

(** What the accepted events have pressed. *)
Fixpoint held_of (l : list AgentEffect) : Held :=
  match l with
  | [] => (∅, ∅)
  | AE_Input _ event true :: l => press (held_of l) event
  | _ :: l => held_of l
  end.

(** The actions that take something off the record. *)
Definition releases (action : AgentAction) : bool :=
  match action with MouseUp _ | KeyUp _ | Drag _ _ _ _ _ _ _ _ | ReleaseAll => true | _ => false end.
(** An event of such an action was refused, and so was a reset. *)
Definition lost (l : list AgentEffect) : Prop :=
  (exists c action, AE_Failed c action ∈ l /\ releases action = true) /\
  (exists origin event, AE_Input origin event false ∈ l /\ ie_event_type event = IE_Reset).

Definition tx_recorded (x : Transaction) : Prop := recorded (held_of (tx_log x)) (tx_tracker x).
Definition tx_ok (x : Transaction) : Prop := lost (tx_log x) \/ tx_recorded x.

Lemma lost_mono l l' : l ⊆ l' -> lost l -> lost l'.
Proof.
  intros I [(c & a & A & R) (o & e & B & T)]. split; [exists c, a|exists o, e]; (split; [by apply I|done]).
Qed.

Hypothesis buttons_drained : forall s, button_order s ≡ₚ elements s.
Hypothesis keys_drained : forall s, key_order s ≡ₚ elements s.

(** What [release_all] makes: one release for each, then a reset. *)
Definition is_up (e : InputEvent) : Prop :=
  match ie_event_type e with
  | IE_LeftMouseUp | IE_RightMouseUp | IE_MiddleMouseUp | IE_KeyUp | IE_Reset => True
  | _ => False
  end.
Lemma press_up_within e h : is_up e -> within (press h e) h.
Proof. unfold is_up, press, within. destruct (ie_event_type e); try done; intros _; cbn; split; set_solver. Qed.
Lemma release_all_ups pos now t : Forall is_up (release_all button_order key_order pos now t).1.
Proof.
  unfold release_all. cbn [fst]. repeat apply Forall_app_2; [..|by constructor]; apply Forall_map, Forall_true;
    [by intros []|done].
Qed.

(** A release that is not sent stays on record: after all of them are recorded again,
    the record is what it was. *)
Lemma record_again_buttons now pos mods bs t :
  it_active_buttons (foldl (record_again now) t (map (fun b => pointer (to_up_event_type b) pos mods) bs))
  = list_to_set bs ∪ it_active_buttons t /\
  it_active_keys (foldl (record_again now) t (map (fun b => pointer (to_up_event_type b) pos mods) bs))
  = it_active_keys t.
Proof.
  revert t. induction bs as [|b bs IH]; intros t; cbn [map foldl]; [split; [set_solver|done]|].
  destruct (IH (record_again now t (pointer (to_up_event_type b) pos mods))) as [-> ->].
  destruct b; cbn; split; set_solver.
Qed.
Lemma record_again_keys now pos mods ks t :
  it_active_keys (foldl (record_again now) t (map (fun k => key_at IE_KeyUp pos k mods) ks))
  = list_to_set ks ∪ it_active_keys t /\
  it_active_buttons (foldl (record_again now) t (map (fun k => key_at IE_KeyUp pos k mods) ks))
  = it_active_buttons t.
Proof.
  revert t. induction ks as [|k ks IH]; intros t; cbn [map foldl]; [split; [set_solver|done]|].
  destruct (IH (record_again now t (key_at IE_KeyUp pos k mods))) as [-> ->]. cbn. split; set_solver.
Qed.
Lemma record_again_all pos now t :
  let '(events, cleared) := release_all button_order key_order pos now t in
  it_active_buttons (foldl (record_again now) cleared events) = it_active_buttons t /\
  it_active_keys (foldl (record_again now) cleared events) = it_active_keys t.
Proof.
  unfold release_all. rewrite !foldl_app. cbn [foldl record_again pointer ie_event_type].
  set (t1 := foldl _ (tracker_clear now t) _).
  destruct (record_again_buttons now pos (it_active_modifiers t) (button_order (it_active_buttons t)) (tracker_clear now t))
    as [B1 K1]. fold t1 in B1, K1.
  destruct (record_again_keys now pos (it_active_modifiers t) (key_order (it_active_keys t)) t1) as [K2 B2].
  rewrite B2, K2, B1, K1. cbn [tracker_clear it_active_buttons it_active_keys]. split.
  - rewrite union_empty_r_L. apply set_eq. intros b. by rewrite elem_of_list_to_set, buttons_drained, elem_of_elements.
  - rewrite union_empty_r_L. apply set_eq. intros k. by rewrite elem_of_list_to_set, keys_drained, elem_of_elements.
Qed.

Definition is_reset (e : InputEvent) : bool := bool_decide (ie_event_type e = IE_Reset).

Lemma send_releases_app origin es es' : forall sent error reset_sent x,
  send_releases origin (es ++ es') sent error reset_sent x =
  let '(sent, error, reset_sent, x) := send_releases origin es sent error reset_sent x in
  send_releases origin es' sent error reset_sent x.
Proof.
  induction es as [|e es IH]; intros sent error reset_sent x; [done|]. cbn. destruct (accepts _ _); apply IH.
Qed.
(** The releases before the reset. *)
Lemma send_releases_spec origin events : forall sent error reset_sent x,
  Forall is_up events -> Forall (fun e => is_reset e = false) events ->
  let '(_, error', reset_sent', x') := send_releases origin events sent error reset_sent x in
  tx_tracker x' = tx_tracker x /\ tx_pos x' = tx_pos x /\ within (held_of (tx_log x')) (held_of (tx_log x)) /\
  tx_log x ⊆ tx_log x' /\ reset_sent' = reset_sent /\ (error' = false -> error = false).
Proof.
  induction events as [|e events IH]; intros sent error reset_sent x U N; cbn [send_releases]; [done|].
  apply Forall_cons in U as [Ue U]. apply Forall_cons in N as [Ne N]. unfold send_input_event.
  set (x1 := mkTransaction _ _ _ _). destruct (accepts (tx_calls x) e) eqn:A.
  - unfold is_reset in Ne. rewrite Ne, orb_false_r.
    specialize (IH (sent + 1) error reset_sent x1 U N).
    destruct (send_releases _ _ _ _ _ x1) as [[[? error'] reset'] x']. destruct IH as (T & P & W & L & R & E).
    split_and!; try done; [etrans; [apply W|]; cbn; by apply press_up_within|cbn in L; set_solver].
  - specialize (IH sent true reset_sent x1 U N).
    destruct (send_releases _ _ _ _ _ x1) as [[[? error'] reset'] x']. destruct IH as (T & P & W & L & R & E).
    split_and!; try done; [cbn in L; set_solver|]. intros E0. discriminate (E E0).
Qed.

(** A release keeps everything held on record, or nothing is held any more; when it
    reports no error, the record is empty. *)
Lemma release_inputs_spec origin pos now x :
  let '(_, error, x') := release_inputs origin pos now x in
  tx_pos x' = tx_pos x /\ tx_log x ⊆ tx_log x' /\
  (tx_recorded x -> tx_recorded x') /\
  (error = false -> tracker_is_empty (tx_tracker x') = true /\ held_of (tx_log x') = (∅, ∅)) /\
  (held_of (tx_log x') = (∅, ∅) \/
   exists event, AE_Input origin event false ∈ tx_log x' /\ ie_event_type event = IE_Reset).
Proof.
  unfold release_inputs. pose proof (record_again_all pos now (tx_tracker x)) as Again.
  pose proof (release_all_ups pos now (tx_tracker x)) as U.
  unfold release_all in *. cbn [fst] in U. set (t := tracker_clear now (tx_tracker x)) in *.
  set (ups := map _ (button_order _)) in *. set (keys := map _ (key_order _)) in *.
  set (reset := pointer IE_Reset pos Modifiers_empty) in *. rewrite (app_assoc ups) in *.
  apply Forall_app in U as [U _].
  assert (N : Forall (fun e => is_reset e = false) (ups ++ keys)).
  { apply Forall_app. split; apply Forall_map, Forall_true; [by intros []|done]. }
  rewrite send_releases_app.
  pose proof (send_releases_spec origin _ 0 false false (set_tracker t x) U N) as Sp.
  destruct (send_releases _ (ups ++ keys) _ _ _ _) as [[[sent error] reset_sent] x'].
  destruct Sp as (T & P & W & L & -> & E). cbn [set_tracker tx_pos tx_tracker tx_log] in *.
  cbn [send_releases]. unfold send_input_event. destruct (accepts (tx_calls x') reset) eqn:A; cbn [orb].
  - rewrite bool_decide_true by done. cbn [tx_pos tx_tracker tx_log held_of].
    split_and!; [done|set_solver|..]; [| |by left].
    + intros _. split; cbn; set_solver.
    + intros E0. split; [|done]. rewrite T. unfold tracker_is_empty. cbn. by rewrite !bool_decide_true.
  - destruct Again as [AB AK]. cbn [set_tracker tx_pos tx_tracker tx_log held_of]. rewrite T.
    split_and!; [done|set_solver| |done|right; exists reset; split; [left|done]].
    intros R. destruct R as [RB RK]. destruct W as [WB WK]. split; cbn [set_tracker tx_log tx_tracker held_of].
    + rewrite AB. by etrans.
    + rewrite AK. by etrans.
Qed.

(** ** A batch *)

(** What is held is on record or pressed by the batch. *)
Definition batch_of (h : BatchHeld) : Held := (bh_buttons h, dom (bh_keys h)).
Definition union_held (a b : Held) : Held := (a.1 ∪ b.1, a.2 ∪ b.2).
Definition on_record (t : InputStateTracker) : Held := (it_active_buttons t, it_active_keys t).

Lemma batch_of_held h e : batch_of (batch_held h e) = press (batch_of h) e.
Proof.
  unfold batch_of, batch_held, press. destruct (ie_event_type e); cbn; f_equal; try done.
  - by rewrite dom_insert_L.
  - by rewrite dom_delete_L.
Qed.
Lemma press_union a b e : is_reset e = false -> within (press (union_held a b) e) (union_held a (press b e)).
Proof.
  unfold is_reset, press, within, union_held. intros R%bool_decide_eq_false.
  destruct (ie_event_type e); try done; cbn; split; set_solver.
Qed.
Lemma union_held_mono a a' b : within a a' -> within (union_held a b) (union_held a' b).
Proof. intros [A B]. split; cbn; set_solver. Qed.

Lemma record_batch_covers now h t :
  within (union_held (on_record t) (batch_of h)) (on_record (record_batch now h t)).
Proof.
  unfold record_batch.
  assert (B : forall bs t, it_active_buttons (foldr (fun b t => record_button_down b now t) t bs)
              = list_to_set bs ∪ it_active_buttons t /\
              it_active_keys (foldr (fun b t => record_button_down b now t) t bs) = it_active_keys t).
  { clear t. induction bs as [|b bs IH]; intros t; cbn; [split; [set_solver|done]|].
    destruct (IH t) as [E1 E2]. rewrite E1, E2. split; [set_solver|done]. }
  destruct (B (button_order (bh_buttons h)) t) as [B1 B2]. set (t1 := foldr _ t _) in *.
  assert (K : forall m, it_active_keys (map_fold (fun k mods t => record_key_down k mods now t) t1 m)
              = dom m ∪ it_active_keys t1 /\
              it_active_buttons (map_fold (fun k mods t => record_key_down k mods now t) t1 m) = it_active_buttons t1).
  { intros m. apply (map_fold_weak_ind (fun r m => it_active_keys r = dom m ∪ it_active_keys t1 /\
      it_active_buttons r = it_active_buttons t1)); [split; [set_solver|done]|].
    intros k mods m' r _ [E1 E2]. cbn. rewrite E1, E2, dom_insert_L. split; [set_solver|done]. }
  destruct (K (bh_keys h)) as [K1 K2]. split; cbn [on_record union_held batch_of fst snd].
  - rewrite K2, B1. apply union_subseteq. split; [set_solver|]. intros b I.
    apply elem_of_union_l, elem_of_list_to_set. by rewrite buttons_drained, elem_of_elements.
  - rewrite K1, B2. set_solver.
Qed.

(** Actions that take nothing off the record only add to it. *)
Lemma convert_keeps_record action w h now t pos events t' pos' :
  releases action = false ->
  convert_agent_action_to_events button_order key_order action w h now (t, pos) = (Ok events, (t', pos')) ->
  within (on_record t) (on_record t') /\ Forall (fun e => is_reset e = false) events.
Proof.
  intros R E. unfold convert_agent_action_to_events in E. destruct (_ <? _); [done|].
  destruct action; try done; repeat case_match; simplify_eq; split; try done; try (by repeat constructor);
    try (split; cbn; set_solver); try (by destruct button; repeat constructor).
  - constructor; [done|]. apply Forall_concat, Forall_replicate. by destruct button; repeat constructor.
  - apply Forall_concat, Forall_map, Forall_true. intros ch. unfold type_char.
    destruct (synthesize_ascii_char ch) as [[key mods]|]; [by destruct (to_macos key); repeat constructor|].
    by apply Forall_map, Forall_true.
Qed.

Lemma roll_back_spec c action h now x :
  let x' := roll_back c action h now x in
  tx_log x ⊆ tx_log x' /\
  (within (held_of (tx_log x)) (union_held (on_record (tx_tracker x)) (batch_of h)) -> tx_recorded x') /\
  (releases action = true -> tx_ok x').
Proof.
  unfold roll_back. cbn zeta. set (y := set_tracker _ _).
  pose proof (release_inputs_spec (Some c) (tx_pos (note (AE_Failed c action) x)) now y) as R.
  destruct (release_inputs _ _ _ y) as [[sent error] x']. destruct R as (_ & L & Rec & _ & Last). cbn [snd].
  split_and!; [cbn in L; set_solver|..].
  - intros W. apply Rec. unfold tx_recorded, y. cbn.
    assert (within (held_of (tx_log x)) (on_record (record_batch now h (tx_tracker x)))) as [A B];
      [|by split]. etrans; [apply W|]. apply record_batch_covers.
  - intros Rel. destruct Last as [Empty|(event & I & T)].
    + right. unfold tx_recorded. rewrite Empty. split; cbn; set_solver.
    + left. split; [exists c, action|by exists (Some c), event]. split; [|done]. apply L. left.
Qed.

Lemma dispatch_events_spec c action now T0 : forall events h x,
  let '(r, x') := dispatch_events c action events now h x in
  tx_log x ⊆ tx_log x' /\
  match r with
  | Some _ => tx_tracker x' = tx_tracker x /\ tx_pos x' = tx_pos x /\
      held_of (tx_log x') = pressed_by events (held_of (tx_log x))
  | None =>
    (releases action = true \/
     Forall (fun e => is_reset e = false) events /\ T0 = on_record (tx_tracker x) /\
     within (held_of (tx_log x)) (union_held T0 (batch_of h))) -> tx_ok x'
  end.
Proof.
  induction events as [|e events IH]; intros h x; cbn [dispatch_events]; [done|].
  unfold send_input_event. set (x1 := mkTransaction _ _ _ _). destruct (accepts (tx_calls x) e) eqn:A.
  - specialize (IH (batch_held h e) x1). destruct (dispatch_events _ _ events _ _ x1) as [[h'|] x'];
      destruct IH as [L IH]; (split; [cbn in L; set_solver|]); [done|].
    intros [Rel|(N & E & W)]; apply IH; [by left|]. apply Forall_cons in N as [Ne N]. right. split_and!; [done|done|].
    cbn. rewrite batch_of_held. etrans; [by apply press_mono|]. by apply press_union.
  - destruct (roll_back_spec c action h now x1) as (L & Rec & Rel). split; [cbn in L; set_solver|].
    intros [X|(_ & -> & W)]; [by apply Rel|]. right. by apply Rec.
Qed.

Lemma dispatch_actions_ok c actions screen now : forall h x,
  tx_ok x -> let '(_, x') := dispatch_actions c actions screen now h x in tx_ok x' /\ tx_log x ⊆ tx_log x'.
Proof.
  induction actions as [|action actions IH]; intros h x Okx; cbn [dispatch_actions]; [done|].
  destruct (convert_agent_action_to_events _ _ _ _ _ _ _) as [r [t pos]] eqn:E.
  set (x1 := mkTransaction t pos (tx_calls x) (tx_log x)).
  destruct r as [events|e].
  2: { apply refused_changes_nothing in E. simplify_eq. split; [|done]. by destruct Okx; [left|right]. }
  pose proof (dispatch_events_spec c action now (on_record t) events h x1) as D.
  destruct (dispatch_events _ _ _ _ _ x1) as [[h'|] x'] eqn:Ed; destruct D as [L D]; cbn in L.
  - destruct D as (Tr & P & Hd). specialize (IH h' x'). destruct (dispatch_actions _ actions _ _ _ x') as [st x''].
    destruct IH as [I1 I2]; [|split; [done|by etrans]].
    destruct Okx as [Lost|Rec]; [left; by eapply lost_mono|right]. unfold tx_recorded. rewrite Tr, Hd.
    exact (tracker_covers_held button_order key_order action _ _ now _ _ (Ok events) t pos _ Rec E).
  - split; [|done]. destruct Okx as [Lost|[RB RK]]; [left; by eapply lost_mono|]. apply D.
    destruct (releases action) eqn:R; [by left|right].
    destruct (convert_keeps_record _ _ _ _ _ _ _ _ _ R E) as [[KB KK] N]. split_and!; [done|done|].
    split; cbn; set_solver.
Qed.

Lemma run_job_ok c job screen now x :
  tx_ok x -> let '(_, x') := run_job c job screen now x in tx_ok x' /\ tx_log x ⊆ tx_log x'.
Proof.
  intros Okx. destruct job; cbn [run_job]; [by apply dispatch_actions_ok|..];
    pose proof (release_inputs_spec (Some c) (tx_pos x) now x) as R;
    destruct (release_inputs _ _ _ x) as [[? ?] x']; destruct R as (_ & L & Rec & _); (split; [|done]);
    (destruct Okx as [Lost|?]; [left; by eapply lost_mono|right; by apply Rec]).
Qed.

(** ** Every reachable state *)

Definition sv_ok (s : Server) : Prop := tx_ok (sv_tx s).

Lemma tx_ok_note e x : (forall o ev a, e <> AE_Input o ev a) -> tx_ok x -> tx_ok (note e x).
Proof.
  intros N [Lost|R]; [left; eapply lost_mono; [|done]; cbn; set_solver|right].
  unfold tx_recorded. destruct e; try done. by destruct (N origin event accepted).
Qed.

(** The transaction and the log after an event: as they were, or a note, a job, or a
    release. *)
Inductive tx_step (P : conn -> Prop) : Transaction -> Transaction -> Prop :=
| TS_same x : tx_step P x x
| TS_note e x y : (forall o ev a, e <> AE_Input o ev a) -> tx_step P (note e x) y -> tx_step P x y
| TS_job c job screen now x : P c -> tx_step P x (run_job c job screen now x).2
| TS_release pos now x : tx_step P x (release_inputs None pos now x).2
| TS_failed pos now now' x :
  tx_step P x (set_tracker (mark_release_failed now (tx_tracker (release_inputs None pos now' x).2))
                 (release_inputs None pos now' x).2).

Lemma tx_step_ok P x y : tx_step P x y -> tx_ok x -> tx_ok y.
Proof.
  induction 1 as [x|e x y N _ IH|c job screen now x _|pos now x|pos now now' x]; intros Okx; [done|..].
  - by apply IH, tx_ok_note.
  - pose proof (run_job_ok c job screen now x Okx) as R. by destruct (run_job _ _ _ _ x), R.
  - pose proof (release_inputs_spec None pos now x) as R. destruct (release_inputs _ _ _ x) as [[? ?] x'].
    destruct R as (_ & L & Rec & _). destruct Okx as [Lost|?]; [left; by eapply lost_mono|right; by apply Rec].
  - pose proof (release_inputs_spec None pos now' x) as R. destruct (release_inputs _ _ _ x) as [[? ?] x'].
    destruct R as (_ & L & Rec & _). destruct Okx as [Lost|?]; [left; by eapply lost_mono|right; by apply Rec].
Qed.

Lemma tx_finish_task c s : sv_tx (finish_task c s) = sv_tx s.
Proof. unfold finish_task, goto. cbn. by case_match. Qed.
Lemma tx_log_server e s : sv_tx (log e s) = note e (sv_tx s).
Proof. done. Qed.
Lemma tx_handle_request P c answers now s : tx_step P (sv_tx s) (sv_tx (handle_request c answers now s)).
Proof.
  unfold handle_request. destruct (read_request answers) as [buf|e].
  - apply (TS_note _ (AE_Request c buf)); [done|]. repeat case_match; rewrite ?tx_finish_task; apply TS_same.
  - case_match; rewrite ?tx_finish_task; apply TS_same.
Qed.
Lemma tx_task_next P c t s : tx_step P (sv_tx s) (sv_tx (task_next c t s)).
Proof.
  destruct t; cbn [task_next]; repeat case_match; rewrite ?tx_finish_task, ?tx_log_server;
    first [apply TS_same | by apply (TS_note _ (AE_Response c status)), TS_same].
Qed.
Lemma tx_task_timeout c t s : sv_tx (task_timeout c t s) = sv_tx s.
Proof. by destruct t; cbn [task_timeout]; rewrite ?tx_finish_task. Qed.
Lemma tx_job_done (P : conn -> Prop) c w screen now status s :
  (forall j, w = WK_Job j -> P c) -> tx_step P (sv_tx s) (sv_tx (job_done c w screen now status s)).
Proof.
  intros Pc.
  unfold job_done. destruct w as [job| |].
  - pose proof (TS_job P c job screen now (sv_tx s) (Pc job eq_refl)) as J. cbn [sv_tx set_sv_jobs].
    destruct (run_job c job screen now (sv_tx s)) as [st x]. cbn in J. case_match; [case_match|]; done.
  - destruct (match _ with Some _ => _ | None => _ end); apply TS_same.
  - destruct (match _ with Some _ => _ | None => _ end); apply TS_same.
Qed.
Lemma tx_watchdog P pos now s : tx_step P (sv_tx s) (sv_tx (watchdog_check pos now s)).
Proof.
  unfold watchdog_check. cbn [sv_tx set_sv_watchdog]. case_match; [|apply TS_same].
  pose proof (TS_release P pos now (sv_tx s)) as R. pose proof (TS_failed P pos now now (sv_tx s)) as F.
  destruct (release_inputs _ _ _ _) as [[sent []] x]; done.
Qed.
Lemma tx_run_next P now s : tx_step P (sv_tx s) (sv_tx (run_next now s)).
Proof.
  unfold run_next. repeat case_match; cbn [sv_tx set_sv_run set_sv_tx log];
    first [apply TS_same | by apply TS_release | by apply (TS_note _ AE_Disconnected), TS_same].
Qed.

Definition has_job (s : Server) (c : conn) : Prop := exists j, sv_jobs s !! c = Some (WK_Job j).
Lemma server_event_step s e : tx_step (has_job s) (sv_tx s) (sv_tx (server_event s e)).
Proof.
  destruct e; cbn [server_event]; try (repeat case_match; apply TS_same).
  - case_match; [case_match|]; try apply TS_same. apply tx_handle_request.
  - case_match; [apply tx_task_next|apply TS_same].
  - case_match; [rewrite tx_task_timeout|]; apply TS_same.
  - repeat case_match; try apply TS_same. unfold announce.
    eapply (TS_note _ (AE_Response c _)); [done|]. case_match; [|apply TS_same].
    apply (TS_note _ (AE_Disconnecting c)); [done|apply TS_same].
  - repeat case_match; try apply TS_same; unfold wait_poll; case_match; apply TS_same.
  - destruct (sv_jobs s !! c) as [w|] eqn:W; [|apply TS_same]. apply tx_job_done. intros j ->. by exists j.
  - repeat case_match; try apply TS_same. apply tx_watchdog.
  - apply tx_run_next.
Qed.


(** ** The locks, the gate, and the end of a disconnect *)

(** What a connection's task and job are entitled to. *)
Definition inside (t : Task) : bool :=
  match t with T_LockPos _ | T_Recheck _ | T_Permit _ => true | _ => false end.
Definition disconnecting (t : Task) : bool :=
  match t with
  | T_Lock J_Disconnect | T_LockPos J_Disconnect | T_Recheck J_Disconnect | T_Permit J_Disconnect
  | T_Running J_Disconnect | T_Announce _ | T_Announced _ _ => true
  | _ => false
  end.
Definition ended (t : option Task) : bool := match t with None | Some T_End => true | _ => false end.

Record inv_at (s : Server) (c : conn) : Prop := {
  ia_job j : sv_jobs s !! c = Some (WK_Job j) ->
    sv_tracker_lock s = Some c /\ (ended (sv_tasks s !! c) = true \/ sv_tasks s !! c = Some (T_Running j));
  ia_other w : sv_jobs s !! c = Some w -> (forall j, w <> WK_Job j) ->
    ended (sv_tasks s !! c) = true \/ sv_tasks s !! c = Some T_Blocked;
  ia_running j : sv_tasks s !! c = Some (T_Running j) -> sv_jobs s !! c = Some (WK_Job j);
  ia_inside t : sv_tasks s !! c = Some t -> inside t = true -> sv_tracker_lock s = Some c;
  ia_disconnect t : sv_tasks s !! c = Some t -> disconnecting t = true ->
    sv_disconnect s = Some c /\ sv_input_closed s = true
}.

(** Another connection is not concerned. *)
Lemma inv_at_frame s s' c :
  inv_at s c -> sv_tasks s' !! c = sv_tasks s !! c -> sv_jobs s' !! c = sv_jobs s !! c ->
  (sv_tracker_lock s = Some c -> sv_tracker_lock s' = Some c) ->
  (sv_disconnect s = Some c -> sv_disconnect s' = Some c) ->
  (sv_input_closed s = true -> sv_input_closed s' = true) -> inv_at s' c.
Proof.
  intros [J O R I D] T Jb L Dc C. split; rewrite ?T, ?Jb; eauto.
  - intros j E. destruct (J j E). eauto.
  - intros t E X. destruct (D t E X). eauto.
Qed.

(** After a disconnect released everything: no input can follow. *)
Definition aborted (s : Server) : Prop :=
  sv_tasks s = ∅ /\ match sv_run s with R_Loop | R_Close _ | R_Abort _ => False | _ => True end.
Definition announcing (t : Task) : bool :=
  match t with T_Announce 200 | T_Announced 200 _ => true | _ => false end.
Record quiet (s : Server) : Prop := {
  qu_closed : sv_input_closed s = true;
  qu_empty : tracker_is_empty (tx_tracker (sv_tx s)) = true;
  qu_jobs c j : sv_jobs s !! c <> Some (WK_Job j);
  qu_tasks c t : sv_tasks s !! c = Some t ->
    match t with T_Permit _ | T_Running _ | T_Lock J_Disconnect | T_LockPos J_Disconnect => False | _ => True end;
  qu_gate : (exists c t, sv_disconnect s = Some c /\ sv_tasks s !! c = Some t /\ announcing t = true) \/
    sv_done s = true \/ aborted s
}.

Definition announced (s : Server) : Prop :=
  (exists c, AE_Disconnecting c ∈ tx_log (sv_tx s)) \/ (exists c t, sv_tasks s !! c = Some t /\ announcing t = true).

Record agent_inv (s : Server) : Prop := {
  ai_at c : inv_at s c;
  ai_quiet : announced s -> quiet s
}.

Lemma drop_owner_ne c c' o : c <> c' -> o = Some c' -> drop_owner c o = Some c'.
Proof. intros N ->. unfold drop_owner. rewrite decide_False; congruence. Qed.

(** A connection whose task has no claim. *)
Definition plain (t : Task) : bool :=
  negb (inside t) && negb (disconnecting t) && match t with T_Running _ => false | _ => true end.

Lemma inv_at_plain s c t :
  sv_tasks s !! c = Some t -> plain t = true -> sv_jobs s !! c = None -> inv_at s c.
Proof.
  intros T P J. unfold plain in P. apply andb_true_iff in P as [[I%negb_true_iff D%negb_true_iff]%andb_true_iff R].
  split; rewrite ?T, ?J; try done; intros; simplify_eq; congruence.
Qed.

(** What a connection's step may change. *)
Definition frame (c : conn) (s s' : Server) : Prop :=
  (forall c', c' <> c -> sv_tasks s' !! c' = sv_tasks s !! c' /\ sv_jobs s' !! c' = sv_jobs s !! c' /\
     (sv_tracker_lock s = Some c' -> sv_tracker_lock s' = Some c') /\
     (sv_disconnect s = Some c' -> sv_disconnect s' = Some c')) /\
  (sv_input_closed s = true -> sv_input_closed s' = true).
#[local] Instance frame_preorder c : PreOrder (frame c).
Proof.
  split; [by intros s|]. intros s1 s2 s3 [A B] [C D]. split; [|auto]. intros c' N.
  destruct (C c' N) as (-> & -> & ? & ?). destruct (A c' N) as (-> & -> & ? & ?).
  split_and!; auto.
Qed.
Lemma frame_goto c t s : frame c s (goto c t s).
Proof. split; [|done]. intros c' N. cbn. by rewrite lookup_insert_ne. Qed.
Lemma frame_start c w s : frame c s (start c w s).
Proof. split; [|done]. intros c' N. cbn. by rewrite lookup_insert_ne. Qed.
Lemma frame_end_job c s : frame c s (set_sv_jobs (delete c (sv_jobs s)) s).
Proof. split; [|done]. intros c' N. cbn. by rewrite lookup_delete_ne. Qed.
Lemma frame_unlock c s : frame c s (unlock c s).
Proof. split; [|done]. intros c' N. cbn. split_and!; try done. by apply drop_owner_ne. Qed.
Lemma frame_drop_disconnect c s : frame c s (set_sv_disconnect (drop_owner c (sv_disconnect s)) s).
Proof. split; [|done]. intros c' N. cbn. split_and!; try done. by apply drop_owner_ne. Qed.
Lemma frame_take_lock c s : sv_tracker_lock s = None -> frame c s (set_sv_tracker_lock (Some c) s).
Proof. intros E. split; [|done]. intros c' N. cbn. rewrite E. done. Qed.
Lemma frame_gate c s :
  sv_disconnect s = None -> frame c s (set_sv_input_closed true (set_sv_disconnect (Some c) s)).
Proof. intros E. split; [|done]. intros c' N. cbn. rewrite E. done. Qed.
Lemma frame_finish c s : frame c s (finish_task c s).
Proof.
  unfold finish_task. etrans; [apply frame_drop_disconnect|]. etrans; [|apply frame_goto].
  case_match; [done|]. etrans; [apply frame_unlock|done].
Qed.

Lemma inv_at_others c s s' :
  frame c s s' -> (forall c', inv_at s c') -> inv_at s' c -> forall c', inv_at s' c'.
Proof.
  intros [F C] A I c'. destruct (decide (c' = c)) as [->|N]; [done|]. destruct (F c' N) as (?&?&?&?).
  by apply (inv_at_frame s).
Qed.

(** The task and the job of one connection. *)
Lemma no_job s c t :
  inv_at s c -> sv_tasks s !! c = Some t -> match t with T_End | T_Blocked | T_Running _ => False | _ => True end ->
  sv_jobs s !! c = None.
Proof.
  intros [J O _ _ _] T N. destruct (sv_jobs s !! c) as [w|] eqn:E; [|done]. exfalso.
  destruct w as [j| |].
  - destruct (J j eq_refl) as [_ [X|X]]; rewrite T in X; [by destruct t|by simplify_eq].
  - destruct (O WK_Screenshot eq_refl) as [X|X]; [done|rewrite T in X; by destruct t|rewrite T in X; by simplify_eq].
  - destruct (O WK_Info eq_refl) as [X|X]; [done|rewrite T in X; by destruct t|rewrite T in X; by simplify_eq].
Qed.
Lemma inv_goto_plain s c t : plain t = true -> sv_jobs s !! c = None -> inv_at (goto c t s) c.
Proof. intros P J. apply (inv_at_plain _ _ t); [cbn; by rewrite lookup_insert_eq|done|done]. Qed.
Lemma inv_finish s c : inv_at s c -> inv_at (finish_task c s) c.
Proof.
  intros [J O R I D]. unfold finish_task.
  destruct (sv_jobs (set_sv_disconnect (drop_owner c (sv_disconnect s)) s) !! c) as [w|] eqn:E.
  - split; cbn; rewrite lookup_insert_eq; try (by intros; simplify_eq).
    + intros j X. destruct (J j X). auto.
    + intros w' X N. by left.
  - by apply inv_goto_plain.
Qed.
Lemma inv_at_same s s' c :
  inv_at s c -> sv_tasks s' = sv_tasks s -> sv_jobs s' = sv_jobs s -> sv_tracker_lock s' = sv_tracker_lock s ->
  sv_disconnect s' = sv_disconnect s -> (sv_input_closed s = true -> sv_input_closed s' = true) -> inv_at s' c.
Proof. intros A T J L D C. apply (inv_at_frame s); rewrite ?T, ?J, ?L, ?D; auto. Qed.

(** A step of a connection: what it changes elsewhere, and what holds of it after. *)
Definition step_at (c : conn) (s s' : Server) : Prop := frame c s s' /\ inv_at s' c.

Lemma step_plain s c t : plain t = true -> sv_jobs s !! c = None -> step_at c s (goto c t s).
Proof. intros P J. split; [apply frame_goto|by apply inv_goto_plain]. Qed.
Lemma step_finish s c : inv_at s c -> step_at c s (finish_task c s).
Proof. intros I. split; [apply frame_finish|by apply inv_finish]. Qed.
Lemma step_id s c : inv_at s c -> step_at c s s.
Proof. by split. Qed.
Lemma step_from s s1 s' c : frame c s s1 -> step_at c s1 s' -> step_at c s s'.
Proof. intros F [F' I]. split; [by etrans|done]. Qed.

Lemma step_request c answers now s :
  inv_at s c -> sv_tasks s !! c = Some T_Read -> step_at c s (handle_request c answers now s).
Proof.
  intros I T. pose proof (no_job s c _ I T Logic.I) as J. unfold handle_request, answer.
  destruct (read_request answers) as [buf|e]; [|case_match; [by apply step_plain|by apply step_finish]].
  apply (step_from s (log (AE_Request c buf) s)); [done|]. set (s1 := log _ s).
  assert (I1 : inv_at s1 c) by (by apply (inv_at_same s)).
  destruct (parse_request buf) as [| | |r]; [by apply step_finish|by apply step_plain|by apply step_finish|].
  destruct (route r); try (by apply step_plain).
  - case_match; [by apply step_plain|]. by apply (step_plain (set_sv_screenshots (Some c) s1)).
  - case_match; [by apply step_plain|]. case_match; by apply step_plain.
  - case_match; by apply step_plain.
  - case_match; [by apply step_plain|]. case_match; [by apply step_plain|]. case_match; [by apply step_plain|].
    apply (step_from s1 (set_sv_input_closed true (set_sv_disconnect (Some c) s1))); [by apply frame_gate|].
    split; [apply frame_goto|]. split; cbn; rewrite lookup_insert_eq; try (by intros; simplify_eq);
      change (sv_jobs s1) with (sv_jobs s); rewrite J; by intros.
Qed.

Lemma step_next c t s : inv_at s c -> sv_tasks s !! c = Some t -> step_at c s (task_next c t s).
Proof.
  intros I T. pose proof (step_id s c I) as Id.
  destruct t; cbn [task_next]; try done; unfold answer.
  - case_match; [|done]. pose proof (no_job s c _ I T Logic.I) as J.
    split; [etrans; [apply frame_goto|apply frame_start]|].
    split; cbn; rewrite !lookup_insert_eq; try (by intros; simplify_eq). intros w [= <-] _. by right.
  - case_match; [|done]. pose proof (no_job s c _ I T Logic.I) as J.
    split; [etrans; [apply frame_goto|apply frame_start]|].
    split; cbn; rewrite !lookup_insert_eq; try (by intros; simplify_eq). intros w [= <-] _. by right.
  - case_match; [done|]. pose proof (no_job s c _ I T Logic.I) as J.
    apply (step_from s (set_sv_tracker_lock (Some c) s)); [by apply frame_take_lock|]. split; [apply frame_goto|].
    destruct I as [_ _ _ _ D]. split; cbn; rewrite lookup_insert_eq, ?J; try (by intros; simplify_eq).
    intros t [= <-] X. destruct (D _ T); [by destruct job|done].
  - case_match; [done|]. pose proof (no_job s c _ I T Logic.I) as J.
    apply (step_from s (set_sv_pos_lock (Some c) s)); [done|]. split; [apply frame_goto|].
    destruct I as [_ _ _ In D]. pose proof (In _ T eq_refl) as L.
    split; cbn; rewrite lookup_insert_eq, ?J; try (by intros; destruct job; simplify_eq).
    intros t [= <-] X. destruct (D _ T); [by destruct job|done].
  - pose proof (no_job s c _ I T Logic.I) as J. case_match.
    + apply (step_from s (unlock c s)); [apply frame_unlock|]. by apply step_plain.
    + split; [apply frame_goto|]. destruct I as [_ _ _ In D]. pose proof (In _ T eq_refl) as L.
      split; cbn; rewrite lookup_insert_eq, ?J; try (by intros; simplify_eq).
      intros t [= <-] X. destruct (D _ T); [by destruct job|done].
  - case_match; [|done]. pose proof (no_job s c _ I T Logic.I) as J.
    split; [etrans; [apply frame_goto|apply frame_start]|].
    destruct I as [_ _ _ In D]. pose proof (In _ T eq_refl) as L.
    split; cbn; rewrite !lookup_insert_eq; try (by intros; simplify_eq).
    + intros j [= <-]. split; [exact L|by right].
    + intros w [= <-] N. by destruct (N job).
    + intros t [= <-] X. destruct (D _ T); [by destruct job|done].
  - apply (step_from s (log (AE_Response c status) s)); [done|]. apply step_finish. by apply (inv_at_same s).
  - case_match; [|by apply step_finish]. apply (step_from s (set_sv_done true s)); [done|]. apply step_finish.
    by apply (inv_at_same s).
Qed.

Lemma step_timeout c t s : inv_at s c -> sv_tasks s !! c = Some t -> step_at c s (task_timeout c t s).
Proof.
  intros I T. destruct t; cbn [task_timeout]; try (by apply step_id); try (by apply step_finish).
  pose proof (no_job s c _ I T Logic.I) as J. split; [apply frame_goto|]. destruct I as [_ _ _ _ D].
  split; cbn; rewrite lookup_insert_eq, ?J; try (by intros; simplify_eq).
  intros t [= <-] X. by destruct (D _ T).
Qed.
Lemma step_announce c status s :
  inv_at s c -> sv_tasks s !! c = Some (T_Announce status) -> step_at c s (announce c status s).
Proof.
  intros I T. pose proof (no_job s c _ I T Logic.I) as J. unfold announce.
  set (s1 := if status =? 200 then _ else _).
  assert (S1 : sv_tasks s1 = sv_tasks s /\ sv_jobs s1 = sv_jobs s /\ sv_tracker_lock s1 = sv_tracker_lock s /\
    sv_disconnect s1 = sv_disconnect s /\ sv_input_closed s1 = sv_input_closed s) by (unfold s1; by case_match).
  destruct S1 as (T1 & J1 & L1 & D1 & C1).
  assert (F : frame c s s1) by (split; [intros c' _; rewrite T1, J1, L1, D1; by split_and!|by rewrite C1]).
  apply (step_from s s1); [done|].
  split; [apply frame_goto|]. destruct I as [_ _ _ _ D]. destruct (D _ T eq_refl) as [Dc Cl].
  split; cbn; rewrite lookup_insert_eq, ?J1, ?J; try (by intros; simplify_eq).
  intros t _ _. by rewrite D1, C1.
Qed.
Lemma step_wait c last deadline frame now s :
  inv_at s c -> sv_tasks s !! c = Some (T_Wait last deadline) -> step_at c s (wait_poll c last deadline frame now s).
Proof.
  intros I T. pose proof (no_job s c _ I T Logic.I) as J. unfold wait_poll, answer.
  case_match; [by apply step_plain|by apply step_id].
Qed.
Lemma step_job c w screen now status s :
  inv_at s c -> sv_jobs s !! c = Some w -> step_at c s (job_done c w screen now status s).
Proof.
  intros I W. unfold job_done, answer. set (s1 := set_sv_jobs (delete c (sv_jobs s)) s).
  apply (step_from s s1); [apply frame_end_job|].
  assert (J1 : sv_jobs s1 !! c = None) by (cbn; by rewrite lookup_delete_eq).
  assert (Other : (forall j, w <> WK_Job j) -> inv_at s1 c).
  { intros N. destruct (ia_other _ _ I w W N) as [E|E].
    - split; rewrite ?J1; try done; intros t X; change (sv_tasks s1) with (sv_tasks s) in X; rewrite X in E; by destruct t.
    - split; rewrite ?J1; try done; intros t X; change (sv_tasks s1) with (sv_tasks s) in X; rewrite X in E;
        by simplify_eq. }
  destruct w as [job| |].
  - destruct (run_job c job screen now (sv_tx s1)) as [st x]. set (s2 := unlock c (set_sv_tx x s1)).
    apply (step_from s1 s2); [by apply (frame_unlock c (set_sv_tx x s1))|].
    assert (J2 : sv_jobs s2 !! c = None) by done.
    destruct (ia_job _ _ I job W) as [L [E|E]].
    + change (sv_tasks s2) with (sv_tasks s).
      assert (Id : step_at c s2 s2).
      { apply step_id. split; rewrite ?J2; try done; intros t X; change (sv_tasks s2) with (sv_tasks s) in X;
          rewrite X in E; by destruct t. }
      destruct (sv_tasks s !! c) as [[]|]; done.
    + change (sv_tasks s2) with (sv_tasks s). rewrite E. destruct (is_disconnect job) eqn:Dj; [|by apply step_plain].
      split; [apply frame_goto|]. destruct (ia_disconnect _ _ I _ E) as [Dc Cl]; [by destruct job|].
      split; cbn; rewrite lookup_insert_eq, ?lookup_delete_eq; by intros; simplify_eq.
  - set (s2 := set_sv_screenshots _ s1).
    assert (I2 : inv_at s2 c) by (by apply (inv_at_same s1); [apply Other|..]).
    apply (step_from s1 s2); [done|].
    destruct (match sv_tasks s1 !! c with Some _ => _ | None => _ end); [by apply step_plain|by apply step_id].
  - assert (I1 : inv_at s1 c) by (by apply Other).
    destruct (match sv_tasks s1 !! c with Some _ => _ | None => _ end); [by apply step_plain|by apply step_id].
Qed.

Lemma inv_at_watchdog pos now s c : inv_at s c -> inv_at (watchdog_check pos now s) c.
Proof.
  intros I. unfold watchdog_check. case_match; [|by apply (inv_at_same s)].
  destruct (release_inputs _ _ _ _) as [[sent []] x]; by apply (inv_at_same s).
Qed.
Lemma inv_at_abort s c : inv_at s c -> inv_at (abort_all s) c.
Proof.
  intros [J O _ _ _]. split; cbn; rewrite lookup_empty; try done.
  - intros j X. destruct (J j X) as [-> _]. rewrite X, decide_True by done. by split; [|left].
  - intros w X N. by left.
Qed.
Lemma inv_at_run now s c : inv_at s c -> inv_at (run_next now s) c.
Proof.
  intros I. unfold run_next. repeat case_match; try done; try (by apply (inv_at_same s)).
  apply (inv_at_same (abort_all s)); try done. by apply inv_at_abort.
Qed.

(** The connection an event is about. *)
Definition event_conn (e : Event) : option conn :=
  match e with
  | EV_Accept c | EV_Joined c | EV_Request c _ _ | EV_Next c | EV_Timeout c | EV_Written c | EV_Frame c _ _
  | EV_Job c _ _ _ => Some c
  | _ => None
  end.
Lemma server_event_at s e c : inv_at s c -> event_conn e = Some c -> step_at c s (server_event s e).
Proof.
  intros I Ec. pose proof (step_id s c I) as Id. destruct e; cbn in Ec; simplify_eq; cbn [server_event].
  - repeat case_match; try done. by apply step_plain.
  - destruct (sv_tasks s !! c) as [[]|] eqn:T; try done. split.
    + split; [|done]. intros c' N. cbn. by rewrite lookup_delete_ne.
    + destruct I as [J O R I D]. split; cbn; rewrite lookup_delete_eq; try done.
      * intros j X. destruct (J j X). by split; [|left].
      * intros w X N. by left.
  - destruct (sv_tasks s !! c) as [[]|] eqn:T; try done. by apply step_request.
  - destruct (sv_tasks s !! c) as [t|] eqn:T; [|done]. by apply step_next.
  - destruct (sv_tasks s !! c) as [t|] eqn:T; [|done]. by apply step_timeout.
  - destruct (sv_tasks s !! c) as [[]|] eqn:T; try done. by apply step_announce.
  - destruct (sv_tasks s !! c) as [[]|] eqn:T; try done. by apply step_wait.
  - destruct (sv_jobs s !! c) as [w|] eqn:W; [|done]. by apply step_job.
Qed.
Lemma server_event_inv_at s e : (forall c, inv_at s c) -> forall c, inv_at (server_event s e) c.
Proof.
  intros A. destruct (event_conn e) as [c|] eqn:Ec.
  - destruct (server_event_at s e c (A c) Ec) as [F I]. by apply (inv_at_others c s).
  - destruct e; try done; cbn [server_event]; try (repeat case_match; intros c'; by apply (inv_at_same s)).
    + repeat case_match; try done. intros c'. by apply inv_at_watchdog.
    + intros c'. by apply inv_at_run.
Qed.

Lemma server_run_inv_at now events c : inv_at (server_run now events) c.
Proof.
  revert c. unfold server_run. induction events as [|e events IH] using rev_ind.
  - intros c. by split; cbn.
  - rewrite foldl_snoc. by apply server_event_inv_at.
Qed.

(** Nothing is sent once everything is quiet. *)
Definition is_input (e : AgentEffect) : bool := match e with AE_Input _ _ _ => true | _ => false end.
Definition inputs (l : list AgentEffect) : list AgentEffect := List.filter is_input l.
Definition inputs_of (s : Server) : list AgentEffect := inputs (tx_log (sv_tx s)).

Definition quiet_task (t : Task) : Prop :=
  match t with T_Permit _ | T_Running _ | T_Lock J_Disconnect | T_LockPos J_Disconnect => False | _ => True end.
Definition silent (s s' : Server) : Prop := quiet s' /\ inputs_of s' = inputs_of s.

Lemma silent_same s s' :
  quiet s -> sv_input_closed s' = sv_input_closed s ->
  tx_tracker (sv_tx s') = tx_tracker (sv_tx s) -> inputs_of s' = inputs_of s ->
  sv_tasks s' = sv_tasks s -> sv_jobs s' = sv_jobs s -> sv_disconnect s' = sv_disconnect s ->
  (sv_done s = true -> sv_done s' = true) ->
  (aborted s -> aborted s') -> silent s s'.
Proof.
  intros [C E J T G] C' X L T' J' D' Dn R. split; [|done]. split; rewrite ?C', ?X, ?T', ?J', ?D'; try done.
  destruct G as [G|[G|G]]; auto.
Qed.
Lemma silent_trans s1 s2 s3 : silent s1 s2 -> (quiet s2 -> silent s2 s3) -> silent s1 s3.
Proof. intros [Q E] H23. destruct (H23 Q) as [Q' E']. split; [done|by rewrite E']. Qed.

Lemma silent_goto c t0 t s :
  quiet s -> sv_tasks s !! c = Some t0 -> quiet_task t -> (announcing t0 = true -> announcing t = true) ->
  silent s (goto c t s).
Proof.
  intros [C E J T G] T0 Qt A. split; [|done]. split; cbn; try done.
  - intros c' t'. destruct (decide (c' = c)) as [->|N].
    + rewrite lookup_insert_eq. by intros [= <-].
    + rewrite lookup_insert_ne by done. apply T.
  - destruct G as [(c1 & t1 & G1 & G2 & G3)|[G|[G1 G2]]]; [|by right; left|].
    + left. destruct (decide (c1 = c)) as [->|N].
      * exists c, t. rewrite lookup_insert_eq. simplify_eq. auto.
      * exists c1, t1. by rewrite lookup_insert_ne.
    + by rewrite G1, lookup_empty in T0.
Qed.
Lemma silent_finish c t0 s :
  quiet s -> sv_tasks s !! c = Some t0 -> (announcing t0 = true -> sv_done s = true) -> silent s (finish_task c s).
Proof.
  intros [C E J T G] T0 A.
  assert (F : forall s', sv_input_closed s' = sv_input_closed s -> sv_tx s' = sv_tx s -> sv_tasks s' = sv_tasks s ->
    sv_jobs s' = sv_jobs s -> sv_disconnect s' = drop_owner c (sv_disconnect s) -> sv_done s' = sv_done s ->
    silent s (goto c T_End s')).
  { intros s' C' X' T' J' D' N'. split; [|unfold inputs_of; cbn; by rewrite X']. split; cbn; rewrite ?C', ?X', ?J'; try done.
    - intros c' t'. rewrite T'. destruct (decide (c' = c)) as [->|N].
      + rewrite lookup_insert_eq. by intros [= <-].
      + rewrite lookup_insert_ne by done. apply T.
    - rewrite D', N', T'. destruct G as [(c1 & t1 & G1 & G2 & G3)|[G|[G1 G2]]]; [|by right; left|].
      + destruct (decide (c1 = c)) as [->|N]; [right; left; apply A; congruence|].
        left. exists c1, t1. rewrite lookup_insert_ne by done. split_and!; try done. by apply drop_owner_ne.
      + by rewrite G1, lookup_empty in T0. }
  unfold finish_task. case_match; by apply F.
Qed.
Lemma silent_id s : quiet s -> silent s s.
Proof. by split. Qed.


Ltac to_goto :=
  match goal with T : sv_tasks ?s !! ?c = Some ?t |- silent _ (goto ?c _ _) => apply (silent_goto c t) end; try done.
Ltac to_finish :=
  match goal with T : sv_tasks ?s !! ?c = Some ?t |- silent _ (finish_task ?c _) => apply (silent_finish c t) end; try done.
Lemma silent_request c answers now s :
  quiet s -> sv_tasks s !! c = Some T_Read -> silent s (handle_request c answers now s).
Proof.
  intros Q T. unfold handle_request, answer.
  destruct (read_request answers) as [buf|e]; [|case_match; [by to_goto|by to_finish]].
  apply (silent_trans s (log (AE_Request c buf) s)); [by apply silent_same|]. intros Q1. set (s1 := log _ s) in *.
  assert (T1 : sv_tasks s1 !! c = Some T_Read) by done.
  destruct (parse_request buf) as [| | |r]; [by to_finish|by to_goto|by to_finish|].
  destruct (route r); try (by to_goto).
  - case_match; [by to_goto|].
    apply (silent_trans s1 (set_sv_screenshots (Some c) s1)); [by apply silent_same|]. intros Q2. by to_goto.
  - rewrite (qu_closed _ Q1). by to_goto.
  - rewrite (qu_closed _ Q1). by to_goto.
  - case_match; [by to_goto|]. case_match eqn:D; [by to_goto|].
    case_match eqn:Dn; [by to_goto|]. exfalso.
    destruct (qu_gate _ Q1) as [(c' & t' & X & _)|[X|[X _]]]; [congruence..|]. by rewrite X, lookup_empty in T1.
Qed.
Lemma silent_next c t s :
  (forall c, inv_at s c) -> quiet s -> sv_tasks s !! c = Some t -> silent s (task_next c t s).
Proof.
  intros I Q T. pose proof (qu_tasks _ Q c t T) as Qt. pose proof (silent_id s Q) as Id.
  assert (Start : forall w, (forall j, w <> WK_Job j) -> announcing t = false -> silent s (start c w (goto c T_Blocked s))).
  { intros w N A. apply (silent_trans s (goto c T_Blocked s)); [eapply silent_goto; [done..|by rewrite A]|].
    intros [C E J K G]. split; [|done]. split; try done. intros c' j. cbn. destruct (decide (c' = c)) as [->|Nc].
    - rewrite lookup_insert_eq. intros [= X]. by eapply N.
    - rewrite lookup_insert_ne by done. apply J. }
  destruct t as [| | | | |job|job|job|job|job|st|st|st wr|]; cbn [task_next]; try done; unfold answer.
  - case_match; [by apply Start|done].
  - case_match; [by apply Start|done].
  - destruct (sv_tracker_lock s); [done|].
    apply (silent_trans s (set_sv_tracker_lock (Some c) s)); [by apply silent_same|].
    intros Q1. by to_goto.
  - destruct (sv_pos_lock s); [done|]. apply (silent_trans s (set_sv_pos_lock (Some c) s)); [by apply silent_same|].
    intros Q1. destruct job; by to_goto.
  - rewrite (qu_closed _ Q). apply (silent_trans s (unlock c s)); [by apply silent_same|].
    intros Q1. by to_goto.
  - apply (silent_trans s (log (AE_Response c st) s)); [by apply silent_same|]. intros Q1. by to_finish.
  - case_match eqn:X.
    + apply (silent_trans s (set_sv_done true s)); [by apply silent_same|]. intros Q1. by to_finish.
    + eapply silent_finish; [done..|]. intros A. cbn in A. exfalso. 
      assert (st = 200) as -> by (repeat case_match; congruence). done.
Qed.
Lemma silent_timeout c t s : quiet s -> sv_tasks s !! c = Some t -> silent s (task_timeout c t s).
Proof.
  intros Q T. destruct t; cbn [task_timeout]; try (by apply silent_id); try (by to_finish).
  by to_goto.
Qed.
Lemma silent_announce c status s :
  quiet s -> sv_tasks s !! c = Some (T_Announce status) -> silent s (announce c status s).
Proof.
  intros Q T. unfold announce. set (s1 := if status =? 200 then _ else _).
  apply (silent_trans s s1); [unfold s1; case_match; by apply silent_same|]. intros Q1.
  apply (silent_goto c (T_Announce status)); try done. unfold s1. by case_match.
Qed.
Lemma silent_wait c last deadline frame now s :
  quiet s -> sv_tasks s !! c = Some (T_Wait last deadline) -> silent s (wait_poll c last deadline frame now s).
Proof.
  intros Q T. unfold wait_poll, answer. case_match; [by to_goto|by apply silent_id].
Qed.
Lemma silent_job c w screen now status s :
  quiet s -> sv_jobs s !! c = Some w -> silent s (job_done c w screen now status s).
Proof.
  intros Q W. unfold job_done, answer. set (s1 := set_sv_jobs (delete c (sv_jobs s)) s).
  apply (silent_trans s s1).
  { destruct Q as [C E J T G]. split; [|done]. split; try done. intros c' j X.
    cbn in X. apply lookup_delete_Some in X as [_ X]. by apply (J c' j). }
  intros Q1. destruct w as [job| |]; [by destruct (qu_jobs _ Q c job)|..].
  - set (s2 := set_sv_screenshots _ s1). apply (silent_trans s1 s2); [by apply silent_same|]. intros Q2.
    destruct (sv_tasks s1 !! c) as [[]|] eqn:T; try (by apply silent_id). by to_goto.
  - destruct (sv_tasks s1 !! c) as [[]|] eqn:T; try (by apply silent_id). by to_goto.
Qed.
Lemma silent_watchdog pos now s : quiet s -> silent s (watchdog_check pos now s).
Proof.
  intros Q. unfold watchdog_check, is_timed_out. cbn [sv_tx set_sv_watchdog]. rewrite (qu_empty _ Q). cbn [negb andb].
  by apply silent_same.
Qed.
Lemma silent_run now s : quiet s -> silent s (run_next now s).
Proof.
  intros Q. pose proof (qu_closed _ Q) as C. unfold run_next. rewrite (qu_empty _ Q).
  destruct (sv_run s) as [|d|d|d|[]|] eqn:R; repeat case_match; try (by apply silent_id).
  4: { destruct Q as [_ E J T G]. split; [|done]. split; try done; right; right; by split. }
  all: apply silent_same; rewrite ?C; try done; intros [A1 A2]; rewrite ?R in A2; by split.
Qed.

Lemma server_event_silent s e : (forall c, inv_at s c) -> quiet s -> silent s (server_event s e).
Proof.
  intros I Q. pose proof (silent_id s Q) as Id. destruct e; cbn [server_event].
  - destruct (sv_run s) eqn:R; try done. destruct (sv_tasks s !! c) eqn:T; [done|].
    destruct (sv_jobs s !! c); [done|]. case_match; [|done]. destruct Q as [C E J K G]. split; [|done]. split; try done.
    + cbn. intros c' t'. destruct (decide (c' = c)) as [->|N].
      * rewrite lookup_insert_eq. by intros [= <-].
      * rewrite lookup_insert_ne by done. apply K.
    + destruct G as [(c1 & t1 & G1 & G2 & G3)|[G|[G1 G2]]]; [left|by right; left|by rewrite R in G2].
      exists c1, t1. cbn. rewrite lookup_insert_ne by congruence. done.
  - destruct (sv_tasks s !! c) as [[]|] eqn:T; try done. destruct Q as [C E J K G]. split; [|done]. split; try done.
    + cbn. intros c' t' X. apply lookup_delete_Some in X as [_ X]. by apply (K c').
    + destruct G as [(c1 & t1 & G1 & G2 & G3)|[G|[G1 G2]]]; [left|by right; left|by rewrite G1, lookup_empty in T].
      exists c1, t1. cbn. rewrite lookup_delete_ne; [done|]. intros ->. by simplify_eq.
  - destruct (sv_tasks s !! c) as [[]|] eqn:T; try done. by apply silent_request.
  - destruct (sv_tasks s !! c) as [t|] eqn:T; [|done]. by apply silent_next.
  - destruct (sv_tasks s !! c) as [t|] eqn:T; [|done]. by apply silent_timeout.
  - destruct (sv_tasks s !! c) as [[]|] eqn:T; try done. by apply silent_announce.
  - destruct (sv_tasks s !! c) as [[]|] eqn:T; try done. by apply silent_wait.
  - destruct (sv_jobs s !! c) as [w|] eqn:W; [|done]. by apply silent_job.
  - repeat case_match; try done; by apply silent_same.
  - repeat case_match; try done. by apply silent_watchdog.
  - repeat case_match; try done; by apply silent_same.
  - by apply silent_same.
  - by apply silent_run.
  - destruct (sv_run s) eqn:R; try done. apply silent_same; try done. intros [A1 A2]. by split.
Qed.

(** What a job, a release or the watchdog adds to the log. *)
Definition adds (P : AgentEffect -> Prop) (l l' : list AgentEffect) : Prop :=
  l ⊆ l' /\ forall e, e ∈ l' -> e ∈ l \/ P e.
#[local] Instance adds_preorder P : PreOrder (adds P).
Proof.
  split; [by intros l; split; [|left]|]. intros l1 l2 l3 [A B] [C D]. split; [by etrans|].
  intros e I. destruct (D e I) as [I2|]; [|by right]. by apply B.
Qed.
Lemma adds_cons (P : AgentEffect -> Prop) e l : P e -> adds P l (e :: l).
Proof. intros H0. split; [by right|]. intros e' [-> |I]%elem_of_cons; auto. Qed.
Lemma adds_weaken (P P' : AgentEffect -> Prop) l l' : (forall e, P e -> P' e) -> adds P l l' -> adds P' l l'.
Proof. intros W [A B]. split; [done|]. intros e I. destruct (B e I); auto. Qed.

(** The input of [origin], or a failure. *)
Definition input_of (origin : option conn) (e : AgentEffect) : Prop :=
  match e with AE_Input o _ _ => o = origin | AE_Failed _ _ => True | _ => False end.

Lemma adds_releases origin events : forall sent error reset_sent x,
  adds (input_of origin) (tx_log x) (tx_log (send_releases origin events sent error reset_sent x).2).
Proof.
  induction events as [|e events IH]; intros sent error reset_sent x; cbn [send_releases]; [done|].
  unfold send_input_event. destruct (accepts (tx_calls x) e); (etrans; [|apply IH]); by apply adds_cons.
Qed.
Lemma adds_release origin pos now x :
  adds (input_of origin) (tx_log x) (tx_log (release_inputs origin pos now x).2).
Proof.
  unfold release_inputs. destruct (release_all _ _ _ _ _) as [events t].
  pose proof (adds_releases origin events 0 false false (set_tracker t x)) as N.
  destruct (send_releases _ _ _ _ _ _) as [[[sent error] reset_sent] x']. cbn in N |- *. by destruct reset_sent.
Qed.
Lemma adds_dispatch_events c action now events : forall h x,
  adds (input_of (Some c)) (tx_log x) (tx_log (dispatch_events c action events now h x).2).
Proof.
  induction events as [|e events IH]; intros h x; cbn [dispatch_events]; [done|].
  unfold send_input_event. destruct (accepts (tx_calls x) e).
  - etrans; [|apply IH]. by apply adds_cons.
  - unfold roll_back. cbn [snd]. etrans; [|apply adds_release]. cbn [set_tracker note tx_log].
    etrans; [by apply (adds_cons _ (AE_Input (Some c) e false))|by apply adds_cons].
Qed.
Lemma adds_dispatch c actions screen now : forall h x,
  adds (input_of (Some c)) (tx_log x) (tx_log (dispatch_actions c actions screen now h x).2).
Proof.
  induction actions as [|action actions IH]; intros h x; cbn [dispatch_actions]; [done|].
  destruct (convert_agent_action_to_events _ _ _ _ _ _ _) as [[events|e] [t pos]]; [|done].
  set (x1 := mkTransaction _ _ _ _). pose proof (adds_dispatch_events c action now events h x1) as N.
  destruct (dispatch_events _ _ _ _ _ x1) as [[h'|] x']; [|done]. etrans; [exact N|apply IH].
Qed.
Lemma adds_job c job screen now x :
  adds (input_of (Some c)) (tx_log x) (tx_log (run_job c job screen now x).2).
Proof.
  destruct job; cbn [run_job]; [apply adds_dispatch|..];
    pose proof (adds_release (Some c) (tx_pos x) now x) as N; by destruct (release_inputs _ _ _ x) as [[? ?] ?].
Qed.

(** Who may say that a disconnect was announced. *)
Definition no_news : list AgentEffect -> list AgentEffect -> Prop := adds (fun e => forall c, e <> AE_Disconnecting c).
Lemma no_news_cons e l : (forall c, e <> AE_Disconnecting c) -> no_news l (e :: l).
Proof. by apply (adds_cons (fun e => forall c, e <> AE_Disconnecting c)). Qed.
Lemma no_news_input origin l l' : adds (input_of origin) l l' -> no_news l l'.
Proof. apply adds_weaken. by intros [] X c' E. Qed.

Definition unannounced (s s' : Server) : Prop := announced s' -> announced s.
#[local] Instance unannounced_preorder : PreOrder unannounced.
Proof. unfold unannounced. split; [by intros s|intros s1 s2 s3 A B X; auto]. Qed.
Lemma unannounced_same s s' :
  sv_tasks s' = sv_tasks s -> no_news (tx_log (sv_tx s)) (tx_log (sv_tx s')) -> unannounced s s'.
Proof.
  intros T [_ N] [[c X]|X]; [left; exists c|right; by rewrite <- T]. by destruct (N _ X) as [|X']; [|destruct (X' c)].
Qed.
Lemma unannounced_goto c t s : announcing t = false -> unannounced s (goto c t s).
Proof.
  intros A [X|(c' & t' & X & A')]; [by left|right]. exists c', t'. cbn in X.
  apply lookup_insert_Some in X as [[-> ->]|[_ X]]; [congruence|done].
Qed.
Lemma unannounced_finish c s : unannounced s (finish_task c s).
Proof.
  unfold finish_task. etrans; [|by apply unannounced_goto]. case_match; by apply unannounced_same.
Qed.
Lemma unannounced_log e s : (forall c, e <> AE_Disconnecting c) -> unannounced s (log e s).
Proof. intros N. apply unannounced_same; [done|by apply no_news_cons]. Qed.

Lemma unannounced_request c answers now s : unannounced s (handle_request c answers now s).
Proof.
  unfold handle_request, answer.
  destruct (read_request answers) as [buf|e]; [|case_match; [by apply unannounced_goto|apply unannounced_finish]].
  etrans; [by apply (unannounced_log (AE_Request c buf))|].
  repeat case_match; try (by apply unannounced_goto); try apply unannounced_finish;
    (etrans; [|by apply unannounced_goto]); by apply unannounced_same.
Qed.
Lemma unannounced_next c t s : unannounced s (task_next c t s).
Proof.
  destruct t; cbn [task_next]; unfold answer; repeat case_match; try done; try (by apply unannounced_goto);
    try apply unannounced_finish.
  all: try (etrans; [|by apply unannounced_goto]; by apply unannounced_same).
  - etrans; [by apply (unannounced_log (AE_Response c status))|apply unannounced_finish].
  - etrans; [by apply (unannounced_same s (set_sv_done true s))|apply unannounced_finish].
Qed.
Lemma unannounced_timeout c t s : sv_tasks s !! c = Some t -> unannounced s (task_timeout c t s).
Proof.
  intros T. destruct t; cbn [task_timeout]; try done; try apply unannounced_finish.
  destruct (announcing (T_Announce status)) eqn:A; [|by apply unannounced_goto].
  intros _. right. by exists c, (T_Announce status).
Qed.
Lemma unannounced_announce c status s :
  sv_tasks s !! c = Some (T_Announce status) -> unannounced s (announce c status s).
Proof.
  intros T. unfold announce. case_match eqn:E.
  - apply Z.eqb_eq in E as ->. intros _. right. by exists c, (T_Announce 200).
  - etrans; [by apply (unannounced_log (AE_Response c status))|]. apply unannounced_goto. cbn.
    repeat case_match; try done.
Qed.
Lemma unannounced_run now s : unannounced s (run_next now s).
Proof.
  unfold run_next. destruct (sv_run s) as [| | | |[]|]; repeat case_match; try done;
    try (apply unannounced_same; [done|apply (no_news_input None); first [done|apply adds_release]]).
  - intros [X|(c & t & X & _)]; [by left|]. cbn in X. by rewrite lookup_empty in X.
  - by apply unannounced_same, no_news_cons.
Qed.

(** A disconnect that released everything leaves the server quiet. *)
Lemma unannounced_job c w screen now status s :
  (forall c, inv_at s c) -> sv_jobs s !! c = Some w ->
  let s' := job_done c w screen now status s in
  announced s' -> announced s \/ quiet s' /\ held_of (tx_log (sv_tx s')) = (∅, ∅).
Proof.
  intros I W s'. unfold s', job_done, answer. set (s1 := set_sv_jobs (delete c (sv_jobs s)) s).
  assert (Old : forall s2, announced s2 -> unannounced s s2 -> announced s \/ quiet s2 /\ held_of (tx_log (sv_tx s2)) = (∅, ∅))
    by (intros s2 A U; by left; apply U).
  destruct w as [job| |].
  2,3: case_match; intros A; [eapply Old; [exact A|]; (etrans; [|by apply unannounced_goto]); by apply unannounced_same|by left].
  pose proof (no_news_input _ _ _ (adds_job c job screen now (sv_tx s1))) as N.
  destruct (run_job c job screen now (sv_tx s1)) as [st x] eqn:R. cbn in N.
  set (s2 := unlock c (set_sv_tx x s1)).
  assert (U2 : unannounced s s2) by (by apply unannounced_same).
  change (sv_tasks s2) with (sv_tasks s). destruct (ia_job _ _ (I c) job W) as [L _].
  destruct (sv_tasks s !! c) as [[| | | | | | | | |job'| | | |]|] eqn:T; try (by left; apply U2).
  destruct (is_disconnect job) eqn:Dj.
  2: { intros A. left. apply U2. by apply unannounced_goto in A. }
  destruct job; try done. pose proof (ia_running _ _ (I c) job' T) as W'. simplify_eq.
  destruct (ia_disconnect _ _ (I c) _ T eq_refl) as [Dc Cl].
  destruct (decide (st = 200)) as [->|Ns].
  2: { intros X. left. apply U2. apply unannounced_goto in X; [done|]. cbn. repeat case_match; try done. }
  intros _. right. cbn [run_job] in R. pose proof (release_inputs_spec (Some c) (tx_pos (sv_tx s1)) now (sv_tx s1)) as Sp.
  destruct (release_inputs _ _ _ (sv_tx s1)) as [[sent []] x']; [done|]. simplify_eq.
  destruct Sp as (_ & _ & _ & Sp & _). destruct (Sp eq_refl) as [Em Hd]. split; [|done].
  split; try done.
  - intros c' j X. cbn in X. apply lookup_delete_Some in X as [Nc X]. destruct (ia_job _ _ (I c') j X). congruence.
  - intros c' t X. cbn in X. apply lookup_insert_Some in X as [[<- <-]|[Nc X]]; [done|].
    destruct t as [| | | | |job|job|job|job|job| | | |]; try done.
    + destruct job; try done. destruct (ia_disconnect _ _ (I c') _ X eq_refl). congruence.
    + destruct job; try done. destruct (ia_disconnect _ _ (I c') _ X eq_refl). congruence.
    + pose proof (ia_inside _ _ (I c') _ X eq_refl). congruence.
    + pose proof (ia_running _ _ (I c') _ X) as Wj. destruct (ia_job _ _ (I c') _ Wj). congruence.
  - left. exists c, (T_Announce 200). cbn. by rewrite lookup_insert_eq.
Qed.

Lemma server_event_announced s e :
  (forall c, inv_at s c) -> announced (server_event s e) ->
  announced s \/ quiet (server_event s e) /\ held_of (tx_log (sv_tx (server_event s e))) = (∅, ∅).
Proof.
  intros I A. destruct e; cbn [server_event] in *.
  8: { destruct (sv_jobs s !! c) as [w|] eqn:W; [by apply unannounced_job|by left]. }
  all: left; revert A; match goal with |- announced ?s' -> _ => change (unannounced s s') end.
  - repeat case_match; try done. by apply unannounced_goto.
  - repeat case_match; try done. intros [X|(c' & t' & X & A)]; [by left|right]. exists c', t'.
    cbn in X. by apply lookup_delete_Some in X as [_ X].
  - repeat case_match; try done. apply unannounced_request.
  - repeat case_match; try done. apply unannounced_next.
  - destruct (sv_tasks s !! c) eqn:T; try done. by apply unannounced_timeout.
  - destruct (sv_tasks s !! c) as [[]|] eqn:T; try done. by apply unannounced_announce.
  - repeat case_match; try done. unfold wait_poll. case_match; try done. by apply unannounced_goto.
  - repeat case_match; try done; by apply unannounced_same.
  - repeat case_match; try done. apply unannounced_same.
    + unfold watchdog_check. repeat case_match; try done.
    + unfold watchdog_check. cbn [sv_tx set_sv_watchdog]. case_match; [|done].
      pose proof (no_news_input _ _ _ (adds_release None p now (sv_tx s))) as N.
      destruct (release_inputs _ _ _ _) as [[sent []] x]; exact N.
  - repeat case_match; try done; by apply unannounced_same.
  - by apply unannounced_same.
  - apply unannounced_run.
  - repeat case_match; try done; by apply unannounced_same.
Qed.

Lemma held_of_inputs l : held_of (inputs l) = held_of l.
Proof.
  induction l as [|e l IH]; [done|]. unfold inputs in *.
  destruct e as [|o ev []| | | |]; cbn [List.filter is_input held_of]; by rewrite ?IH.
Qed.

Definition settled (s : Server) : Prop :=
  announced s -> quiet s /\ held_of (tx_log (sv_tx s)) = (∅, ∅).
Lemma server_run_settled now events : settled (server_run now events).
Proof.
  unfold server_run. induction events as [|e events IH] using rev_ind.
  - intros [[c X]|(c & t & X & _)]; cbn in X; [by apply elem_of_nil in X|]. by rewrite lookup_empty in X.
  - pose proof (server_run_inv_at now events) as I. unfold server_run in I. rewrite foldl_snoc.
    rename IH into St. set (s := foldl _ _ events) in *. intros A.
    destruct (server_event_announced s e I A) as [A0|Q]; [|done]. destruct (St A0) as [Q H0].
    destruct (server_event_silent s e I Q) as [Q' E]. split; [done|].
    rewrite <- held_of_inputs. unfold inputs_of in E. by rewrite E, held_of_inputs.
Qed.

(** C17: a disconnect that an agent was told of is final: once its success is announced,
    the accepted events hold nothing down, the tracker is empty, and whatever comes
    after -- requests already admitted, other agents, the watchdog, jobs whose
    connection is gone, a second disconnect, the end of the server --, no input
    event is sent any more. *)
Theorem disconnect_is_final now events c more :
  AE_Disconnecting c ∈ tx_log (sv_tx (server_run now events)) ->
  held_of (tx_log (sv_tx (server_run now events))) = (∅, ∅) /\
  tracker_is_empty (tx_tracker (sv_tx (server_run now events))) = true /\
  inputs (tx_log (sv_tx (server_run now (events ++ more)))) = inputs (tx_log (sv_tx (server_run now events))).
Proof.
  intros A. destruct (server_run_settled now events) as [Q H0]; [by left; exists c|].
  split_and!; [done|apply Q|]. clear A H0. induction more as [|e more IH] using rev_ind; [by rewrite app_nil_r|].
  rewrite app_assoc. unfold server_run at 1. rewrite foldl_snoc. fold (server_run now (events ++ more)).
  rewrite <- IH.
  assert (Q' : quiet (server_run now (events ++ more))).
  { clear IH. induction more as [|e' more IH] using rev_ind; [by rewrite app_nil_r|].
    rewrite app_assoc. unfold server_run. rewrite foldl_snoc.
    by apply server_event_silent; [apply server_run_inv_at|]. }
  by apply server_event_silent; [apply server_run_inv_at|].
Qed.

(** ** Authorization *)

(** The connection has sent a request that carries the token. *)
Definition tokened (c : conn) (l : list AgentEffect) : Prop :=
  exists bytes r, AE_Request c bytes ∈ l /\ parse_request bytes = PR_Request r /\
    check_auth_header auth_token (rq_headers r) = true.
Lemma authorized_mono c l l' : l ⊆ l' -> tokened c l -> tokened c l'.
Proof. intros I (bytes & r & A & B). exists bytes, r. split; [by apply I|done]. Qed.

(** A task or a job that may send input. *)
Definition admitted (t : Task) : bool :=
  match t with T_Lock _ | T_LockPos _ | T_Recheck _ | T_Permit _ | T_Running _ => true | _ => false end.
Definition working (s : Server) (c : conn) : Prop :=
  (exists t, sv_tasks s !! c = Some t /\ admitted t = true) \/ (exists j, sv_jobs s !! c = Some (WK_Job j)).
Definition auth_inv (s : Server) (c : conn) : Prop :=
  (working s c -> tokened c (tx_log (sv_tx s))) /\
  (forall e a, AE_Input (Some c) e a ∈ tx_log (sv_tx s) -> tokened c (tx_log (sv_tx s))).

Lemma working_goto c t s : working (goto c t s) c -> admitted t = true \/ working s c.
Proof.
  intros [(t' & T & A)|J]; [left|by right; right]. cbn in T. rewrite lookup_insert_eq in T. by simplify_eq.
Qed.
Lemma working_finish c s : working (finish_task c s) c -> working s c.
Proof.
  unfold finish_task. intros [X|X]%working_goto; [done|]. by case_match.
Qed.

Lemma working_request c answers now s :
  let s' := handle_request c answers now s in
  working s' c -> working s c \/ tokened c (tx_log (sv_tx s')).
Proof.
  intros s'. unfold s', handle_request, answer.
  destruct (read_request answers) as [buf|e].
  2: { case_match; [by intros [X|X]%working_goto; [|left]|]. intros X%working_finish. by left. }
  destruct (parse_request buf) as [| | |r] eqn:P; try (by intros X%working_finish; left);
    try (by intros [X|X]%working_goto; [|left]).
  set (s1 := log (AE_Request c buf) s).
  assert (Au : check_auth_header auth_token (rq_headers r) = true -> tokened c (tx_log (sv_tx s1))).
  { intros A. exists buf, r. split; [left|done]. }
  assert (Rt : match route r with RT_Input _ | RT_Reset | RT_Disconnect => check_auth_header auth_token (rq_headers r) = true
    | _ => True end).
  { unfold route. destruct (check_auth_header auth_token (rq_headers r)); repeat case_match; done. }
  destruct (route r); try (by intros [X|X]%working_goto; [|left]).
  - case_match; by intros [X|X]%working_goto; [|left].
  - repeat case_match; try (by intros [X|X]%working_goto; [|left]). intros _. right. by apply Au.
  - repeat case_match; try (by intros [X|X]%working_goto; [|left]). intros _. right. by apply Au.
  - repeat case_match; try (by intros [X|X]%working_goto; [|left]). intros _. right. by apply Au.
Qed.
Lemma working_next c t s : sv_tasks s !! c = Some t -> working (task_next c t s) c -> working s c.
Proof.
  intros T. assert (A : admitted t = true -> working s c) by (intros A; left; by exists t).
  destruct t; cbn [task_next]; try (by intros _; apply A); unfold answer; try done.
  - case_match; [|done]. intros [(t & X & At)|(j & X)]; cbn in X; rewrite lookup_insert_eq in X; by simplify_eq.
  - case_match; [|done]. intros [(t & X & At)|(j & X)]; cbn in X; rewrite lookup_insert_eq in X; by simplify_eq.
  - intros X. by apply working_finish in X.
  - intros X%working_finish. by case_match.
Qed.
Lemma working_timeout c t s : working (task_timeout c t s) c -> working s c.
Proof. destruct t; cbn [task_timeout]; try done; try apply working_finish. by intros [X|X]%working_goto. Qed.
Lemma working_job c w screen now status s :
  sv_jobs s !! c = Some w -> working (job_done c w screen now status s) c -> working s c.
Proof.
  intros W. unfold job_done, answer. set (s1 := set_sv_jobs (delete c (sv_jobs s)) s).
  assert (W1 : forall s2, sv_tasks s2 = sv_tasks s -> sv_jobs s2 = sv_jobs s1 -> working s2 c -> working s c).
  { intros s2 T J [(t & X & A)|(j & X)]; [left; exists t; by rewrite <- T|].
    rewrite J in X. cbn in X. by rewrite lookup_delete_eq in X. }
  destruct w as [job| |].
  - intros _. right. by exists job.
  - case_match; [intros [X|X]%working_goto; [done|]; revert X|]; by apply W1.
  - case_match; [intros [X|X]%working_goto; [done|]; revert X|]; by apply W1.
Qed.

(** Input is sent for connections that have a job, and by the watchdog. *)
Definition sent_for (P : conn -> Prop) (e : AgentEffect) : Prop :=
  match e with AE_Input (Some c) _ _ => P c | _ => True end.
Lemma tx_step_adds P x y : tx_step P x y -> adds (sent_for P) (tx_log x) (tx_log y).
Proof.
  induction 1 as [x|e x y N _ IH|c job screen now x Pc|pos now x|pos now now' x]; [done|..].
  - etrans; [|exact IH]. apply adds_cons. destruct e; try done. by destruct (N origin event accepted).
  - eapply adds_weaken, adds_job. by intros []; cbn; intros; subst.
  - eapply adds_weaken, adds_release. by intros []; cbn; intros; subst.
  - eapply (adds_weaken _ _ _ _ _ (adds_release None pos now' x)). Unshelve. by intros []; cbn; intros; subst.
Qed.

Lemma server_event_working s e c :
  working (server_event s e) c -> (event_conn e = Some c \/ event_conn e = None) ->
  working s c \/ tokened c (tx_log (sv_tx (server_event s e))).
Proof.
  intros X [Ec|Ec]; destruct e; cbn in Ec; simplify_eq; cbn [server_event] in *; revert X.
  - repeat case_match; try (by left). by intros [X|X]%working_goto; [|left].
  - destruct (sv_tasks s !! c) as [[]|] eqn:T; try (by left). intros [(t & X & A)|(j & X)]; left.
    + cbn in X. by rewrite lookup_delete_eq in X.
    + right. by exists j.
  - destruct (sv_tasks s !! c) as [[]|] eqn:T; try (by left). apply working_request.
  - destruct (sv_tasks s !! c) as [t|] eqn:T; [|by left]. left. by apply (working_next c t).
  - destruct (sv_tasks s !! c) as [t|] eqn:T; [|by left]. left. by apply (working_timeout c t).
  - destruct (sv_tasks s !! c) as [[]|] eqn:T; try (by left). unfold announce. intros [X|X]%working_goto; [done|left].
    by case_match.
  - destruct (sv_tasks s !! c) as [[]|] eqn:T; try (by left). unfold wait_poll, answer. case_match; [|by left].
    by intros [X|X]%working_goto; [|left].
  - destruct (sv_jobs s !! c) as [w|] eqn:W; [|by left]. left. by apply (working_job c w screen now status).
  - repeat case_match; by left.
  - repeat case_match; try (by left). unfold watchdog_check. left.
    by repeat case_match.
  - repeat case_match; by left.
  - by left.
  - left. unfold run_next in *. repeat case_match; try done.
    destruct X as [(t & X & A)|X]; [cbn in X; by rewrite lookup_empty in X|by right].
  - repeat case_match; by left.
Qed.
Lemma server_event_auth s e :
  (forall c, inv_at s c) -> (forall c, auth_inv s c) -> forall c, auth_inv (server_event s e) c.
Proof.
  intros I A c. destruct (tx_step_adds _ _ _ (server_event_step s e)) as [L N]. destruct (A c) as [A1 A2].
  split.
  - intros X. assert (Y : working s c \/ tokened c (tx_log (sv_tx (server_event s e)))).
    { destruct (event_conn e) as [c0|] eqn:Ec; [|apply server_event_working; auto].
      destruct (decide (c0 = c)) as [->|Nc]; [apply server_event_working; auto|left].
      destruct (server_event_at s e c0 (I c0) Ec) as [[F _] _]. destruct (F c) as (T & J & _); [done|].
      unfold working in X. by rewrite T, J in X. }
    destruct Y as [Y|Y]; [|done]. by apply (authorized_mono _ _ _ L), A1.
  - intros ev a X. apply (authorized_mono _ _ _ L). destruct (N _ X) as [Y|Y]; [by eapply A2|]. apply A1. by right.
Qed.

(** C18: no agent moves the machine without the token: whatever the interleaving, each
    input event sent for a connection -- those of its jobs that outlive it
    included -- follows a request of that connection whose headers present the
    token, when the server has one. *)
Theorem inputs_are_authorized now events c event accepted :
  AE_Input (Some c) event accepted ∈ tx_log (sv_tx (server_run now events)) ->
  exists bytes r, AE_Request c bytes ∈ tx_log (sv_tx (server_run now events)) /\
    parse_request bytes = PR_Request r /\
    forall token, auth_token = Some token -> Exists (presents token) (drop 1 (lines (rq_headers r))).
Proof.
  intros X. assert (A : forall c, auth_inv (server_run now events) c).
  { clear X. induction events as [|e events IH] using rev_ind.
    - intros c'. split; [|intros e a X; by apply elem_of_nil in X].
      intros [(t & X & _)|(j & X)]; cbn in X; by rewrite lookup_empty in X.
    - unfold server_run. rewrite foldl_snoc. apply server_event_auth; [apply server_run_inv_at|done]. }
  destruct (A c) as [_ A2]. destruct (A2 _ _ X) as (bytes & r & R & P & C). exists bytes, r. split_and!; try done.
  intros token T. apply check_auth_spec. by rewrite <- T.
Qed.

(** ** Resources *)

Lemma size_frame {A} (m m' : gmap conn A) c :
  (forall c', c' <> c -> m' !! c' = m !! c') -> (is_Some (m' !! c) -> is_Some (m !! c)) -> (size m' <= size m)%nat.
Proof.
  intros F C. rewrite <- !size_dom. apply subseteq_size. intros c'. rewrite !elem_of_dom.
  destruct (decide (c' = c)) as [->|N]; [done|]. by rewrite F.
Qed.

Lemma size_frame_S {A} (m m' : gmap conn A) c :
  (forall c', c' <> c -> m' !! c' = m !! c') -> (size m' <= S (size m))%nat.
Proof.
  intros F. destruct (m' !! c) as [a|] eqn:E.
  - transitivity (size (<[c := a]> m)); [|rewrite map_size_insert; destruct (m !! c); unfold id; lia].
    apply (size_frame _ _ c); [intros c' N; rewrite lookup_insert_ne by done; by apply F|].
    intros _. by rewrite lookup_insert_eq.
  - transitivity (size m); [|lia]. apply (size_frame _ _ c); [done|]. rewrite E. by intros [].
Qed.

(** Only an accepted connection makes a task, and only a permit a job. *)
Lemma no_new_job s e c :
  event_conn e = Some c -> is_Some (sv_jobs (server_event s e) !! c) -> is_Some (sv_jobs s !! c) \/ has_permit s = true.
Proof.
  intros Ec.
  assert (Same : forall s', sv_jobs s' = sv_jobs s -> is_Some (sv_jobs s' !! c) -> is_Some (sv_jobs s !! c) \/ has_permit s = true)
    by (intros s' ->; by left).
  assert (Fin : forall s', sv_jobs (finish_task c s') = sv_jobs s') by (intros s'; unfold finish_task; cbn; by case_match).
  destruct e; cbn in Ec; simplify_eq; cbn [server_event].
  - apply Same. by repeat case_match.
  - apply Same. by repeat case_match.
  - apply Same. unfold handle_request, answer. by repeat case_match; rewrite ?Fin.
  - destruct (sv_tasks s !! c) as [t|]; [|by apply Same]. destruct t; cbn [task_next]; unfold answer;
      try (apply Same; by repeat case_match; rewrite ?Fin); (case_match; intros X; [by right|by left]).
  - apply Same. case_match; [|done]. destruct t; cbn [task_timeout]; by rewrite ?Fin.
  - apply Same. repeat case_match; try done. unfold announce. cbn. by case_match.
  - apply Same. repeat case_match; try done. unfold wait_poll. by case_match.
  - destruct (sv_jobs s !! c) as [w|] eqn:W; [|by rewrite W; left]. intros X. left. by exists w.
Qed.
Lemma no_new_task s e c :
  event_conn e = Some c -> is_Some (sv_tasks (server_event s e) !! c) ->
  is_Some (sv_tasks s !! c) \/ Z.of_nat (size (sv_tasks s)) + 1 < MAX_CONNECTIONS.
Proof.
  intros Ec. destruct (sv_tasks s !! c) as [t|] eqn:T; [by left; exists t|].
  destruct e; cbn in Ec; simplify_eq; cbn [server_event]; rewrite ?T; try (intros [? X]; congruence).
  - repeat case_match; try (intros [? X]; congruence). intros _. right. lia.
  - destruct (sv_jobs s !! c) as [w|]; [|intros [? X]; congruence]. unfold job_done. cbn [set_sv_jobs sv_tasks].
    destruct w; [|cbn; rewrite T; intros [? X]; cbn in X; congruence..].
    destruct (run_job _ _ _ _ _). cbn. rewrite T. intros [? X]. cbn in X. congruence.
Qed.

(** The load that agents can put on the server is bounded: whatever they send and
    whoever hangs, there are never more than 31 connections next to the
    watchdog nor more than 4 jobs in the blocking pool. *)
Theorem agent_load_bounded now events :
  Z.of_nat (size (sv_tasks (server_run now events))) < MAX_CONNECTIONS /\
  Z.of_nat (size (sv_jobs (server_run now events))) <= MAX_WORK.
Proof.
  induction events as [|e events IH] using rev_ind; [by vm_compute|].
  pose proof (server_run_inv_at now events) as I. unfold server_run in *. rewrite foldl_snoc.
  set (s := foldl _ _ events) in *. destruct (event_conn e) as [c|] eqn:Ec.
  - destruct (server_event_at s e c (I c) Ec) as [[F _] _]. unfold has_permit, MAX_WORK, MAX_CONNECTIONS in *.
    split.
    + destruct (decide (Z.of_nat (size (sv_tasks s)) + 1 < 32)).
      * enough (size (sv_tasks (server_event s e)) <= S (size (sv_tasks s)))%nat by lia.
        apply (size_frame_S _ _ c). intros c' N. by apply F.
      * enough (size (sv_tasks (server_event s e)) <= size (sv_tasks s))%nat by lia.
        apply (size_frame _ _ c); [intros c' N; by apply F|]. intros X. by destruct (no_new_task s e c Ec X).
    + destruct (Z.of_nat (size (sv_jobs s)) <? 4) eqn:P.
      * enough (size (sv_jobs (server_event s e)) <= S (size (sv_jobs s)))%nat by lia.
        apply (size_frame_S _ _ c). intros c' N. by apply F.
      * enough (size (sv_jobs (server_event s e)) <= size (sv_jobs s))%nat by lia.
        apply (size_frame _ _ c); [intros c' N; by apply F|]. intros X.
        destruct (no_new_job s e c Ec X) as [|X']; [done|]. unfold has_permit, MAX_WORK in X'. congruence.
  - assert (Same : forall s', sv_tasks s' = sv_tasks s \/ sv_tasks s' = ∅ -> sv_jobs s' = sv_jobs s ->
      Z.of_nat (size (sv_tasks s')) < MAX_CONNECTIONS /\ Z.of_nat (size (sv_jobs s')) <= MAX_WORK).
    { intros s' [-> | ->] ->; [done|]. rewrite map_size_empty. by destruct IH. }
    destruct e; try done; cbn [server_event]; try (repeat case_match; by apply Same; [left|]).
    + repeat case_match; try done. unfold watchdog_check. repeat case_match; by apply Same; [left|].
    + unfold run_next. repeat case_match; try done; try (by apply Same; [left|]). by apply Same; [right|].
Qed.
End Server.

(** * Runs *)

Definition toy_token : rstring := str_bytes "t".
Definition toy_request (path : string) : list byte :=
  str_bytes "POST " ++ str_bytes path ++ str_bytes " HTTP/1.1" ++ [CR; LF] ++ str_bytes "Authorization: Bearer t" ++
  [CR; LF] ++ str_bytes "Content-Length: 0" ++ CRLFCRLF.
Definition toy_server (accepts : nat -> InputEvent -> bool) (events : list Event) : Server :=
  server_run accepts true elements elements (fun _ => Some (KeyDown (str_bytes "a"))) (fun _ => None)
    (Some toy_token) 0 events.
Definition toy_start (c : conn) (path : string) : list Event :=
  [EV_Accept c; EV_Request c [RA_Data (toy_request path)] 10] ++ repeat (EV_Next c) 4.
Definition toy_accepts : nat -> InputEvent -> bool := fun _ _ => true.


Definition toy_disconnected : list Event :=
  toy_start 0%nat "/api/v1/input/action" ++ [EV_Job 0%nat (1920, 1080) 20 0] ++
  toy_start 1%nat "/api/v1/session/disconnect" ++ [EV_Job 1%nat (1920, 1080) 30 0; EV_Written 1%nat].
Definition toy_more : list Event := toy_start 2%nat "/api/v1/input/action" ++ [EV_Job 2%nat (1920, 1080) 40 0; EV_Tick].
Lemma disconnect_is_final_witness :
  length (inputs (tx_log (sv_tx (toy_server toy_accepts toy_disconnected)))) = 3%nat /\
  inputs (tx_log (sv_tx (toy_server toy_accepts (toy_disconnected ++ toy_more))))
  = inputs (tx_log (sv_tx (toy_server toy_accepts toy_disconnected))).
Proof.
  split; [vm_compute; reflexivity|].
  apply (disconnect_is_final toy_accepts true elements elements (fun _ => Some (KeyDown (str_bytes "a")))
    (fun _ => None) (Some toy_token) (fun s => reflexivity _) (fun s => reflexivity _) 0 toy_disconnected 1%nat).
  vm_compute. left.
Defined.

Lemma inputs_are_authorized_witness :
  let l := tx_log (sv_tx (toy_server toy_accepts (toy_start 0%nat "/api/v1/input/action" ++
    [EV_Timeout 0%nat; EV_Job 0%nat (1920, 1080) 20 0]))) in
  exists bytes r, AE_Request 0%nat bytes ∈ l /\ parse_request bytes = PR_Request r /\
    forall token, Some toy_token = Some token -> Exists (presents token) (drop 1 (lines (rq_headers r))).
Proof.
  cbn zeta. eapply (inputs_are_authorized toy_accepts true elements elements (fun _ => Some (KeyDown (str_bytes "a")))
    (fun _ => None) (Some toy_token) 0 _ 0%nat _ true).
  vm_compute. left.
Defined.

(** A key that is not released is forgotten: when its release and the reset after it
    are both refused, the backend holds it and no record of it is left. *)
Definition deaf (n : nat) (e : InputEvent) : bool := bool_decide (n = 0%nat).
Example refused_release_forgets_the_key :
  let run actions x := (run_job deaf elements elements 0%nat (J_Actions actions) (1920, 1080) 10 x).2 in
  let x := run [KeyUp (str_bytes "a")] (run [KeyDown (str_bytes "a")] (sv_tx (AgentServer_new 0))) in
  held_of (tx_log x) = (∅, {[0]}) /\ tracker_is_empty (tx_tracker x) = true.
Proof. vm_compute. split; reflexivity. Qed.
