(* ===== verification/ClientStore.v ===== *)
(** * The client's pairing store

    [clients/rust/maho-app/src/pairing.rs]: the records of the hosts a client is
    paired with, and the file that keeps them.  The operations of the file store
    are programs of system calls ([Prog]), so that those of several processes
    interleave between any two calls, any call can fail, and a process can die
    at any moment.  JSON is the value it holds, with the dates in it as numbers;
    the keychain of Apple systems is not modelled. *)

From Stdlib Require Import SpecFloat.
From stdpp Require Import pretty.
From S2P Require Import Prelude Text Float Codec Parity.

Inductive StoreError : Type :=
| SE_Io
| SE_Json
| SE_InvalidKeyLength (n : Z).

Definition PAIRING_KEY_SIZE : Z := 32.

(** ** Records *)

Record PairingEndpoint : Type := mkPairingEndpoint { pe_host : rstring; pe_tcp_port : Z; pe_udp_port : Z }.
#[export] Instance PairingEndpoint_eq_dec : EqDecision PairingEndpoint.
Proof. solve_decision. Defined.

Record PairingRecord : Type := mkPairingRecord {
  pr_id : rstring;
  pr_name : rstring;
  pr_key : list byte;
  pr_added_at_unix_ms : Z;
  pr_last_endpoint : option PairingEndpoint;
  pr_endpoint_aliases : list PairingEndpoint;
  pr_relay_url : option rstring;
  pr_relay_host_id : option rstring;
  pr_trust : PairingTrust
}.
Definition PairingRecord_new (id name : rstring) (key : list byte) (added_at_unix_ms : Z) : PairingRecord :=
  mkPairingRecord id name key added_at_unix_ms None [] None None PT_Owner.
Definition set_added_at (v : Z) (r : PairingRecord) : PairingRecord :=
  mkPairingRecord (pr_id r) (pr_name r) (pr_key r) v (pr_last_endpoint r) (pr_endpoint_aliases r)
    (pr_relay_url r) (pr_relay_host_id r) (pr_trust r).
Definition set_endpoints (last : option PairingEndpoint) (aliases : list PairingEndpoint) (r : PairingRecord)
    : PairingRecord :=
  mkPairingRecord (pr_id r) (pr_name r) (pr_key r) (pr_added_at_unix_ms r) last aliases
    (pr_relay_url r) (pr_relay_host_id r) (pr_trust r).
Definition set_trust (t : PairingTrust) (r : PairingRecord) : PairingRecord :=
  mkPairingRecord (pr_id r) (pr_name r) (pr_key r) (pr_added_at_unix_ms r) (pr_last_endpoint r)
    (pr_endpoint_aliases r) (pr_relay_url r) (pr_relay_host_id r) t.

Definition key_array (r : PairingRecord) : result StoreError (list byte) :=
  if len (pr_key r) =? PAIRING_KEY_SIZE then Ok (pr_key r) else Err (SE_InvalidKeyLength (len (pr_key r))).
Definition valid (r : PairingRecord) : bool := match key_array r with Ok _ => true | Err _ => false end.

Definition MAX_ENDPOINT_ALIASES : nat := 16.

Definition update_record_endpoint (endpoint : PairingEndpoint) (r : PairingRecord) : PairingRecord :=
  let aliases := filter (fun a => a <> endpoint) (pr_endpoint_aliases r) in
  let aliases :=
    match pr_last_endpoint r with
    | Some prev =>
      if negb (bool_decide (prev = endpoint)) && negb (bool_decide (prev ∈ aliases)) then aliases ++ [prev]
      else aliases
    | None => aliases
    end in
  let aliases := drop (length aliases - MAX_ENDPOINT_ALIASES) aliases in
  set_endpoints (Some endpoint) aliases r.

(** *** Dates *)

Definition SWIFT_REFERENCE_DATE_OFFSET : spec_float := of_int binary64 978307200.

Inductive JsonNumber : Type := JN_I64 (v : Z) | JN_U64 (v : Z) | JN_F64 (v : spec_float).

Definition serialize_added_at (value : Z) : spec_float :=
  fsub binary64 (fdiv binary64 (of_int binary64 value) (of_int binary64 1000)) SWIFT_REFERENCE_DATE_OFFSET.
Definition deserialize_added_at (n : JsonNumber) : Z :=
  match n with
  | JN_I64 value => Z.max value 0
  | JN_U64 value => value
  | JN_F64 value =>
    if SFltb (of_int binary64 1000000000000) value then to_int 0 U64_MAX value
    else if SFltb (of_int binary64 1000000000) value
    then to_int 0 U64_MAX (fmul binary64 value (of_int binary64 1000))
    else
      let unix_secs := fadd binary64 value SWIFT_REFERENCE_DATE_OFFSET in
      to_int 0 U64_MAX (fmul binary64 (fmax unix_secs (S754_zero false)) (of_int binary64 1000))
  end.

(** *** The contents of a file *)

Definition JsonRecord : Type := PairingRecord * JsonNumber.
Definition to_json (r : PairingRecord) : JsonRecord := (r, JN_F64 (serialize_added_at (pr_added_at_unix_ms r))).
Definition from_json (j : JsonRecord) : PairingRecord := set_added_at (deserialize_added_at j.2) j.1.
Definition to_vec (records : list PairingRecord) : result StoreError (list JsonRecord) :=
  if forallb (fun r => match PairingTrust_encode (pr_trust r) with Ok _ => true | Err _ => false end) records
  then Ok (map to_json records) else Err SE_Json.

Inductive File : Type := F_Records (records : list JsonRecord) | F_Other.

(** ** Operations on the records *)

Definition find_record (id : rstring) (records : list PairingRecord) : option PairingRecord :=
  List.find (fun r => bool_decide (pr_id r = id)) records.
Definition without (id : rstring) (records : list PairingRecord) : list PairingRecord :=
  filter (fun r => pr_id r <> id) records.
Definition find_by_host (host_name : rstring) (records : list PairingRecord) : option PairingRecord :=
  last (filter (fun r => eq_ignore_ascii_case (pr_name r) host_name = true \/ pr_id r = host_name) records).

Definition save_records (record : PairingRecord) (records : list PairingRecord) : list PairingRecord :=
  without (pr_id record) records ++ [record].

(** The first record with the identifier is changed, when its key is the expected one. *)
Fixpoint update_first (id : rstring) (endpoint : PairingEndpoint) (records : list PairingRecord)
    : list PairingRecord :=
  match records with
  | [] => []
  | r :: records =>
    if bool_decide (pr_id r = id) then update_record_endpoint endpoint r :: records
    else r :: update_first id endpoint records
  end.
Definition remember_records (id : rstring) (expected_key : list byte) (endpoint : PairingEndpoint)
    (records : list PairingRecord) : option (list PairingRecord) :=
  match find_record id records with
  | None => None
  | Some r => if bool_decide (pr_key r = expected_key) then Some (update_first id endpoint records) else None
  end.

(** * Lemmas *)

(** A record as it is read after it was written. *)
Definition reload (r : PairingRecord) : PairingRecord := from_json (to_json r).
Lemma reload_id r : pr_id (reload r) = pr_id r.
Proof. done. Qed.
Lemma valid_reload r : valid (reload r) = valid r.
Proof. done. Qed.

Lemma find_record_app id a b :
  find_record id (a ++ b) = match find_record id a with Some r => Some r | None => find_record id b end.
Proof. unfold find_record. induction a as [|r a IH]; [done|]. cbn. by destruct (bool_decide (pr_id r = id)). Qed.
Lemma find_record_single id r : find_record id [r] = if bool_decide (pr_id r = id) then Some r else None.
Proof. done. Qed.
Lemma find_record_map id (f : PairingRecord -> PairingRecord) l :
  (forall r, pr_id (f r) = pr_id r) -> find_record id (map f l) = f <$> find_record id l.
Proof. intros F. induction l as [|r l IH]; [done|]. cbn. rewrite F. by case_bool_decide. Qed.
Lemma find_record_without id id' l :
  find_record id (without id' l) = if bool_decide (id = id') then None else find_record id l.
Proof.
  unfold without, find_record in *. induction l as [|r l IH]; [by case_bool_decide|].
  destruct (decide (pr_id r = id')) as [<-|D].
  - rewrite filter_cons_False by (intros X; by apply X). rewrite IH. cbn [List.find].
    destruct (bool_decide_reflect (id = pr_id r)) as [->|Ne]; [done|]. by rewrite (bool_decide_false (pr_id r = id)).
  - rewrite filter_cons_True by done. cbn [List.find]. rewrite IH.
    destruct (bool_decide_reflect (pr_id r = id)) as [<-|Ne]; [|done]. by rewrite bool_decide_false.
Qed.
Lemma Forall_without (P : PairingRecord -> Prop) id l : Forall P l -> Forall P (without id l).
Proof. rewrite !Forall_forall. intros F r [_ I]%list_elem_of_filter. by apply F. Qed.

(** *** Endpoints *)

Lemma last_drop_short {A} n (l : list A) : (n < length l)%nat -> last (drop n l) = last l.
Proof.
  revert n. induction l as [|a l IH]; intros [|n] L; cbn in L; [lia|lia|done|].
  cbn [drop]. rewrite IH by lia. destruct l; [cbn in L; lia|done].
Qed.

(** The roaming history of a record: at most sixteen aliases, each once, none of
    them the last endpoint. *)
Definition history_ok (r : PairingRecord) : Prop :=
  NoDup (pr_endpoint_aliases r) /\ (length (pr_endpoint_aliases r) <= MAX_ENDPOINT_ALIASES)%nat /\
  match pr_last_endpoint r with Some e => e ∉ pr_endpoint_aliases r | None => True end.

Lemma update_record_endpoint_ok e r :
  history_ok r ->
  history_ok (update_record_endpoint e r) /\ pr_last_endpoint (update_record_endpoint e r) = Some e /\
  forall prev, pr_last_endpoint r = Some prev -> prev <> e -> last (pr_endpoint_aliases (update_record_endpoint e r)) = Some prev.
Proof.
  intros (N & L & I). unfold update_record_endpoint, history_ok. cbn [set_endpoints pr_endpoint_aliases pr_last_endpoint].
  set (kept := filter (fun a => a <> e) (pr_endpoint_aliases r)).
  assert (Nk : NoDup kept) by (by apply NoDup_filter).
  assert (Ek : e ∉ kept) by (unfold kept; rewrite list_elem_of_filter; naive_solver).
  set (aliases := match pr_last_endpoint r with Some _ => _ | None => kept end).
  assert (A : NoDup aliases /\ (e ∉ aliases) /\
    forall prev, pr_last_endpoint r = Some prev -> prev <> e -> last aliases = Some prev).
  { unfold aliases. destruct (pr_last_endpoint r) as [prev|]; [|done].
    destruct (bool_decide_reflect (prev = e)) as [->|Ne]; cbn [negb andb]; [by split_and!; [..|congruence]|].
    assert (Ip : prev ∉ kept) by (unfold kept; rewrite list_elem_of_filter; naive_solver).
    rewrite bool_decide_false by done. cbn [negb andb]. split_and!.
    - apply NoDup_app. split_and!; [done| |apply NoDup_singleton]. intros x X Y. set_solver.
    - set_solver.
    - intros prev' [= <-] _. apply last_snoc. }
  destruct A as (A1 & A2 & A3). set (n := (length aliases - MAX_ENDPOINT_ALIASES)%nat).
  assert (D : drop n aliases `sublist_of` aliases) by (apply sublist_drop).
  split_and!; [by eapply sublist_NoDup|rewrite length_drop; unfold n; lia| |done|].
  - intros X. apply A2. by eapply elem_of_sublist.
  - intros prev P Ne. specialize (A3 prev P Ne). rewrite last_drop_short; [done|].
    unfold n. destruct aliases; [done|cbn; unfold MAX_ENDPOINT_ALIASES; lia].
Qed.

(** A date after September 2032 is read back as one thirty-one years before: the
    seconds since 2001 that are written then pass the bound above which they are
    taken for seconds since 1970. *)
Example late_date_misread :
  pr_added_at_unix_ms (reload (PairingRecord_new [] [] [] 1978307201000)) = 1978307201000 - 978307200000 /\
  pr_added_at_unix_ms (reload (PairingRecord_new [] [] [] 1978307199000)) = 1978307199000.
Proof. vm_compute. split; reflexivity. Qed.
