(* ===== verification/StoreFile.v ===== *)
(** * The file of the client's pairing store

    [clients/rust/maho-app/src/pairing.rs], the [File] backend: [load_all] with its
    migration of older files, [save], [delete], [remember_endpoint], the writing
    of a temporary file that is renamed, and the lock between processes, which on
    Windows excludes nobody.  A function of the code is a program: its system calls
    in order, in continuation-passing style. *)

From stdpp Require Import pretty.
From S2P Require Import Prelude Text Float Codec Parity ClientStore.

(** ** Paths, files and system calls *)

Abbreviation Path := (list rstring) (only parsing).
Definition parent (p : Path) : option Path := match p with [] => None | _ => Some (removelast p) end.
Definition file_name (p : Path) : option rstring := last p.
Definition with_file_name (p : Path) (name : rstring) : Path := removelast p ++ [name].

Definition legacy_migration_candidates (path : Path) : list Path :=
  let first := with_file_name path (str_bytes "pairing-keys.json") in
  match parent path with
  | None => [first]
  | Some parent =>
    let legacy_dir := with_file_name parent (str_bytes "EclipticRD") in
    if bool_decide (legacy_dir = parent) then [first]
    else
      first :: match file_name path with Some name => [legacy_dir ++ [name]] | None => [] end
        ++ [legacy_dir ++ [str_bytes "pairing-keys.json"]]
  end.

(** [rename] replaces its target; the lock is [StoreFileLock]. *)
Inductive Call : Type :=
| C_Lock
| C_Unlock
| C_Exists (p : Path)
| C_Read (p : Path)
| C_CreateDirs (p : Path)
| C_Random
| C_OpenNew (p : Path)
| C_WriteAll (p : Path) (content : list JsonRecord)
| C_Sync (p : Path)
| C_Rename (p q : Path)
| C_SetPermissions (p : Path)
| C_Remove (p : Path).

Inductive Answer : Type :=
| A_Ok
| A_Bool (b : bool)
| A_File (f : File)
| A_NotFound
| A_AlreadyExists
| A_Number (n : Z)
| A_Failed.

Inductive Prog (A : Type) : Type :=
| Ret (a : A)
| Vis (c : Call) (k : Answer -> Prog A).
Arguments Ret {A} _.
Arguments Vis {A} _ _.

Declare Scope prog_scope.
Local Open Scope prog_scope.
Notation "x <-- c ; k" := (Vis c (fun x => k)) (at level 100, c at next level, right associativity) : prog_scope.

Abbreviation FS := (gmap Path File) (only parsing).

(** The answer of a call that may fail; [number] is the one drawn by
    [rand::random]. *)
Definition fs_call (fails : bool) (number : Z) (c : Call) (fs : FS) : Answer * FS :=
  match c with
  | C_Exists p => (A_Bool (negb fails && bool_decide (is_Some (fs !! p))), fs)
  | C_Read p =>
    if fails then (A_Failed, fs) else (match fs !! p with Some f => A_File f | None => A_NotFound end, fs)
  | C_Random => (A_Number number, fs)
  | C_OpenNew p =>
    if fails then (A_Failed, fs)
    else match fs !! p with Some _ => (A_AlreadyExists, fs) | None => (A_Ok, <[p := F_Other]> fs) end
  | C_WriteAll p content => if fails then (A_Failed, fs) else (A_Ok, <[p := F_Records content]> fs)
  | C_Rename p q =>
    if fails then (A_Failed, fs)
    else match fs !! p with Some f => (A_Ok, <[q := f]> (delete p fs)) | None => (A_NotFound, fs) end
  | C_Remove p => if fails then (A_Failed, fs) else (A_Ok, delete p fs)
  | _ => (if fails then A_Failed else A_Ok, fs)
  end.

(** ** The programs *)

Section Programs.

Context {A : Type}.

Definition read_file_records (path : Path) (k : result StoreError (list PairingRecord) -> Prog A) : Prog A :=
  bytes <-- C_Read path;
  match bytes with
  | A_File (F_Records l) => k (Ok (List.filter valid (map from_json l)))
  | A_File F_Other => k (Err SE_Json)
  | A_NotFound => k (Ok [])
  | _ => k (Err SE_Io)
  end.

(** The temporary file: [create_new], with a new name while the drawn one exists. *)
Definition temporary_name (stem : rstring) (n : Z) : rstring :=
  str_bytes "." ++ stem ++ str_bytes "." ++ str_bytes (pretty (Z.to_N n)) ++ str_bytes ".tmp".
Fixpoint open_temporary (tries : nat) (dir : Path) (stem : rstring) (k : result StoreError Path -> Prog A)
    : Prog A :=
  match tries with
  | O => k (Err SE_Io)
  | S tries =>
    n <-- C_Random;
    let candidate := dir ++ [temporary_name stem (match n with A_Number n => n | _ => 0 end)] in
    opened <-- C_OpenNew candidate;
    match opened with
    | A_Ok => k (Ok candidate)
    | A_AlreadyExists => open_temporary tries dir stem k
    | _ => k (Err SE_Io)
    end
  end.

Definition is_ok (a : Answer) : bool := match a with A_Ok => true | _ => false end.

Definition write_private_and_swap (temporary_path : Path) (bytes : list JsonRecord) (path : Path)
    (k : result StoreError unit -> Prog A) : Prog A :=
  written <-- C_WriteAll temporary_path bytes;
  if negb (is_ok written) then k (Err SE_Io) else
  synced <-- C_Sync temporary_path;
  if negb (is_ok synced) then k (Err SE_Io) else
  renamed <-- C_Rename temporary_path path;
  if negb (is_ok renamed) then k (Err SE_Io) else
  private <-- C_SetPermissions path;
  if negb (is_ok private) then k (Err SE_Io) else
  k (Ok tt).

Definition write_records (path : Path) (records : list PairingRecord) (k : result StoreError unit -> Prog A)
    : Prog A :=
  match parent path with
  | None => k (Err SE_Io)
  | Some dir =>
    created <-- C_CreateDirs dir;
    if negb (is_ok created) then k (Err SE_Io) else
    match to_vec records with
    | Err e => k (Err e)
    | Ok bytes =>
      open_temporary 8 dir (default (str_bytes "pairings") (file_name path)) (fun opened =>
      match opened with
      | Err e => k (Err e)
      | Ok temporary_path =>
        write_private_and_swap temporary_path bytes path (fun r =>
        match r with
        | Ok _ => k (Ok tt)
        | Err e => _removed <-- C_Remove temporary_path; k (Err e)
        end)
      end)
    end
  end.

Fixpoint migrate (path : Path) (candidates : list Path) (k : result StoreError (list PairingRecord) -> Prog A)
    : Prog A :=
  match candidates with
  | [] => read_file_records path k
  | legacy_path :: candidates =>
    exists_ <-- C_Exists legacy_path;
    match exists_ with
    | A_Bool true =>
      if bool_decide (legacy_path = path) then migrate path candidates k else
      read_file_records legacy_path (fun r =>
      match r with
      | Err e => k (Err e)
      | Ok [] => migrate path candidates k
      | Ok legacy_records =>
        write_records path legacy_records (fun r =>
        match r with Err e => k (Err e) | Ok _ => k (Ok legacy_records) end)
      end)
    | _ => migrate path candidates k
    end
  end.

Definition load_all (path : Path) (k : result StoreError (list PairingRecord) -> Prog A) : Prog A :=
  exists_ <-- C_Exists path;
  match exists_ with
  | A_Bool true => read_file_records path k
  | _ => migrate path (legacy_migration_candidates path) k
  end.

(** [let _lock = StoreFileLock::acquire(path)?; ...], dropped at the end. *)
Definition with_lock (body : (result StoreError A -> Prog (result StoreError A)) -> Prog (result StoreError A))
    : Prog (result StoreError A) :=
  locked <-- C_Lock;
  if negb (is_ok locked) then Ret (Err SE_Io) else
  body (fun r => _unlocked <-- C_Unlock; Ret r).

End Programs.

(** What the operations answer. *)
Inductive Reply : Type :=
| RP_Records (records : list PairingRecord)
| RP_Record (record : option PairingRecord)
| RP_Unit
| RP_Bool (b : bool).

Inductive Op : Type :=
| Op_LoadAll
| Op_Load (id : rstring)
| Op_FindByHost (host_name : rstring)
| Op_Save (record : PairingRecord)
| Op_Delete (id : rstring)
| Op_RememberEndpoint (id : rstring) (expected_key : list byte) (endpoint : PairingEndpoint).

Abbreviation Outcome := (result StoreError Reply) (only parsing).

(** [load_all] for an operation that only reads, with what it makes of the records. *)
Definition reading (path : Path) (f : list PairingRecord -> Reply) : Prog Outcome :=
  load_all path (fun r => match r with Err e => Ret (Err e) | Ok records => Ret (Ok (f records)) end).

(** Load, change and write under the lock; [None]: nothing is written. *)
Definition updating (path : Path) (f : list PairingRecord -> option (list PairingRecord)) (done none : Reply)
    : Prog Outcome :=
  with_lock (fun return_ =>
    load_all path (fun r =>
    match r with
    | Err e => return_ (Err e)
    | Ok records =>
      match f records with
      | None => return_ (Ok none)
      | Some records =>
        write_records path records (fun r =>
        match r with Err e => return_ (Err e) | Ok _ => return_ (Ok done) end)
      end
    end)).

Definition op_prog (path : Path) (op : Op) : Prog Outcome :=
  match op with
  | Op_LoadAll => reading path RP_Records
  | Op_Load id => reading path (fun l => RP_Record (find_record id l))
  | Op_FindByHost host_name => reading path (fun l => RP_Record (find_by_host host_name l))
  | Op_Save record =>
    match key_array record with
    | Err e => Ret (Err e)
    | Ok _ => updating path (fun l => Some (save_records record l)) RP_Unit RP_Unit
    end
  | Op_Delete id => updating path (fun l => Some (without id l)) RP_Unit RP_Unit
  | Op_RememberEndpoint id expected_key endpoint =>
    updating path (remember_records id expected_key endpoint) (RP_Bool true) (RP_Bool false)
  end.

(** ** Processes *)

Record World : Type := mkWorld {
  w_fs : FS;
  w_lock : option nat;
  w_procs : gmap nat (Op * Prog Outcome);
  (** the operations whose file was put in place, in order *)
  w_commits : list (nat * Op)
}.

Inductive Event : Type :=
| SE_Start (pid : nat) (op : Op)
| SE_Step (pid : nat) (fails : bool) (number : Z)
| SE_Crash (pid : nat).

Section World.

(** Whether the lock excludes others: it does on Unix.  A process that died is shown
    as one that answered an error. *)
Context (exclusive : bool) (path : Path).

Definition commits (c : Call) (a : Answer) : bool :=
  match c with C_Rename _ q => bool_decide (q = path) && is_ok a | _ => false end.
Definition resume (pid : nat) (op : Op) (p : Prog Outcome) (w : World) : World :=
  mkWorld (w_fs w) (w_lock w) (<[pid := (op, p)]> (w_procs w)) (w_commits w).
Definition unlock (pid : nat) (w : World) : World :=
  mkWorld (w_fs w) (if decide (w_lock w = Some pid) then None else w_lock w) (w_procs w) (w_commits w).

Definition world_event (w : World) (e : Event) : World :=
  match e with
  | SE_Start pid op =>
    match w_procs w !! pid with
    | Some _ => w
    | None => resume pid op (op_prog path op) w
    end
  | SE_Step pid fails number =>
    match w_procs w !! pid with
    | None => w
    | Some (_, Ret _) => w
    | Some (op, Vis C_Lock k) =>
      if fails then resume pid op (k A_Failed) w
      else if exclusive && bool_decide (is_Some (w_lock w)) then w
      else resume pid op (k A_Ok) (mkWorld (w_fs w) (Some pid) (w_procs w) (w_commits w))
    | Some (op, Vis C_Unlock k) => resume pid op (k A_Ok) (unlock pid w)
    | Some (op, Vis c k) =>
      let '(a, fs) := fs_call fails number c (w_fs w) in
      resume pid op (k a)
        (mkWorld fs (w_lock w) (w_procs w) (w_commits w ++ if commits c a then [(pid, op)] else []))
    end
  | SE_Crash pid =>
    match w_procs w !! pid with
    | None => w
    | Some (op, _) => resume pid op (Ret (Err SE_Io)) (unlock pid w)
    end
  end.
Definition world_run (w : World) (events : list Event) : World := foldl world_event w events.
Definition world_of (fs : FS) : World := mkWorld fs None ∅ [].

End World.

(** * Theorems *)

(** ** The operations on a list of records *)

(** What an operation writes, if it does, and what it answers. *)
Definition seq_op (op : Op) (v : list PairingRecord) : option (list PairingRecord) * Reply :=
  match op with
  | Op_LoadAll => (None, RP_Records v)
  | Op_Load id => (None, RP_Record (find_record id v))
  | Op_FindByHost host_name => (None, RP_Record (find_by_host host_name v))
  | Op_Save record => (Some (save_records record v), RP_Unit)
  | Op_Delete id => (Some (without id v), RP_Unit)
  | Op_RememberEndpoint id expected_key endpoint =>
    match remember_records id expected_key endpoint v with
    | Some v => (Some v, RP_Bool true)
    | None => (None, RP_Bool false)
    end
  end.
(** What is read of records that were written. *)
Definition stored (v : list PairingRecord) : list PairingRecord :=
  List.filter valid (map from_json (map to_json v)).
Definition apply_op (v : list PairingRecord) (op : Op) : list PairingRecord :=
  match (seq_op op v).1 with Some v => stored v | None => v end.
Definition apply_ops (v : list PairingRecord) (l : list (nat * Op)) : list PairingRecord :=
  foldl (fun v c => apply_op v c.2) v l.

Lemma apply_ops_snoc v l pid op : apply_ops v (l ++ [(pid, op)]) = apply_op (apply_ops v l) op.
Proof. unfold apply_ops. by rewrite foldl_snoc. Qed.

Section Linear.

Context (path : Path).

Definition view (fs : FS) : option (list PairingRecord) :=
  match fs !! path with
  | None => Some []
  | Some (F_Records l) => Some (List.filter valid (map from_json l))
  | Some F_Other => None
  end.
Definition no_legacy (fs : FS) : Prop :=
  forall q, q ∈ legacy_migration_candidates path -> q <> path -> fs !! q = None.

Context (dir : Path) (stem : rstring) (path_split : path = dir ++ [stem]).

Lemma parent_path : parent path = Some dir.
Proof. rewrite path_split. unfold parent. rewrite removelast_last. by destruct dir. Qed.
Lemma file_name_path : file_name path = Some stem.
Proof. rewrite path_split. apply last_snoc. Qed.

(** A temporary file is none of the files that are read. *)
Definition temporary (t : Path) : Prop := exists n, t = dir ++ [temporary_name stem n].
Lemma temporary_path t : temporary t -> t <> path.
Proof.
  intros [n ->] E. rewrite path_split in E. apply app_inj_2 in E as [_ E]; [|done]. injection E as E.
  apply (f_equal length) in E. unfold temporary_name in E. rewrite !length_app in E. cbn in E. lia.
Qed.
Lemma last_candidate q :
  q ∈ legacy_migration_candidates path -> last q = Some stem \/ last q = Some (str_bytes "pairing-keys.json").
Proof.
  unfold legacy_migration_candidates, with_file_name. rewrite parent_path, file_name_path.
  case_bool_decide; intros I; repeat (apply elem_of_cons in I as [-> |I]); try (by apply elem_of_nil in I);
    rewrite ?last_snoc; auto.
Qed.
Lemma temporary_candidate t q : temporary t -> q ∈ legacy_migration_candidates path -> t <> q.
Proof.
  intros [n ->] I E. apply (f_equal last) in E. rewrite last_snoc in E.
  destruct (last_candidate q I) as [L|L]; rewrite L in E; injection E as E.
  - apply (f_equal length) in E. unfold temporary_name in E. rewrite !length_app in E. cbn in E. lia.
  - discriminate E.
Qed.

(** ** Reading *)

Inductive loading (K : result StoreError (list PairingRecord) -> Prog Outcome) : Prog Outcome -> Prop :=
| LO_all : loading K (load_all path K)
| LO_migrate cs :
  (forall q, q ∈ cs -> q ∈ legacy_migration_candidates path) -> loading K (migrate path cs K).

Definition plain_call (c : Call) : bool :=
  match c with C_Lock | C_Unlock => false | _ => true end.
Lemma loading_step K P fs fails number :
  no_legacy fs -> loading K P ->
  exists c k, P = Vis c k /\ plain_call c = true /\
    let '(a, fs') := fs_call fails number c fs in
    fs' = fs /\ commits path c a = false /\
    (loading K (k a) \/ (exists e, k a = K (Err e)) \/ (exists v, view fs = Some v /\ k a = K (Ok v))).
Proof.
  intros N L.
  assert (Rd : exists c k, read_file_records path K = Vis c k /\ plain_call c = true /\
    let '(a, fs') := fs_call fails number c fs in
    fs' = fs /\ commits path c a = false /\
    (loading K (k a) \/ (exists e, k a = K (Err e)) \/ (exists v, view fs = Some v /\ k a = K (Ok v)))).
  { eexists _, _. split_and!; [done|done|]. cbn. destruct fails; [split_and!; [done..|right; left; eauto]|].
    unfold view. destruct (fs !! path) as [[l|]|]; split_and!; try done; right; eauto. }
  destruct L as [|cs I].
  - eexists _, _. split_and!; [done|done|]. cbn [fs_call]. split_and!; [done..|]. left.
    destruct (negb fails && bool_decide (is_Some (fs !! path))) eqn:E; [|by apply LO_migrate].
    apply (LO_migrate K []). intros q X. by apply elem_of_nil in X.
  - destruct cs as [|q cs]; [exact Rd|].
    assert (I' : forall q, q ∈ cs -> q ∈ legacy_migration_candidates path) by (intros q' X; apply I; by right).
    eexists _, _. split_and!; [done|done|]. cbn [fs_call]. split_and!; [done..|]. left.
    destruct (negb fails && bool_decide (is_Some (fs !! q))) eqn:E; [|by apply LO_migrate].
    apply andb_true_iff in E as [_ E%bool_decide_eq_true].
    case_bool_decide as Eq; [by apply LO_migrate|]. rewrite (N q) in E; [by destruct E|apply I; left|done].
Qed.

(** ** Writing *)

(** The program after an answer. *)
Definition advance (P : Prog Outcome) (a : Answer) : Prog Outcome := match P with Vis _ k => k a | P => P end.

Section Writing.

Context (records : list PairingRecord) (K : result StoreError unit -> Prog Outcome).

Definition after_swap (t : Path) (r : result StoreError unit) : Prog Outcome :=
  match r with Ok _ => K (Ok tt) | Err e => Vis (C_Remove t) (fun _ => K (Err e)) end.
Definition after_open (bytes : list JsonRecord) (opened : result StoreError Path) : Prog Outcome :=
  match opened with
  | Err e => K (Err e)
  | Ok t => write_private_and_swap t bytes path (after_swap t)
  end.
Definition swapping (t : Path) (bytes : list JsonRecord) : Prog Outcome :=
  write_private_and_swap t bytes path (after_swap t).

(** Where the write is; whether the file is in place. *)
Inductive writing (fs : FS) : bool -> Prog Outcome -> Prop :=
| WR_begin : writing fs false (write_records path records K)
| WR_open n bytes : to_vec records = Ok bytes -> writing fs false (open_temporary (S n) dir stem (after_open bytes))
| WR_new n bytes x :
  to_vec records = Ok bytes ->
  writing fs false (advance (open_temporary (S n) dir stem (after_open bytes)) (A_Number x))
| WR_write bytes t : to_vec records = Ok bytes -> temporary t -> writing fs false (swapping t bytes)
| WR_sync bytes t :
  to_vec records = Ok bytes -> temporary t -> fs !! t = Some (F_Records bytes) ->
  writing fs false (advance (swapping t bytes) A_Ok)
| WR_rename bytes t :
  to_vec records = Ok bytes -> temporary t -> fs !! t = Some (F_Records bytes) ->
  writing fs false (advance (advance (swapping t bytes) A_Ok) A_Ok)
| WR_private bytes t :
  temporary t -> writing fs true (advance (advance (advance (swapping t bytes) A_Ok) A_Ok) A_Ok)
| WR_remove b t e : temporary t -> writing fs b (after_swap t (Err e)).

Lemma no_legacy_insert fs q f :
  no_legacy fs -> (q = path \/ temporary q) -> no_legacy (<[q := f]> fs).
Proof.
  intros N Q q' I Nq. rewrite lookup_insert_ne; [by apply N|].
  destruct Q as [-> |T]; [congruence|by apply temporary_candidate].
Qed.
Lemma no_legacy_delete fs q : no_legacy fs -> no_legacy (delete q fs).
Proof. intros N q' I Nq. apply lookup_delete_None. right. by apply N. Qed.
Lemma view_insert fs t f : temporary t -> view (<[t := f]> fs) = view fs.
Proof. intros T. unfold view. rewrite lookup_insert_ne; [done|by apply temporary_path]. Qed.
Lemma view_delete fs t : temporary t -> view (delete t fs) = view fs.
Proof. intros T. unfold view. rewrite lookup_delete_ne; [done|by apply temporary_path]. Qed.
Lemma to_vec_stored bytes : to_vec records = Ok bytes -> List.filter valid (map from_json bytes) = stored records.
Proof. unfold to_vec. case_match; [|done]. by intros [= <-]. Qed.

Definition write_step (fs : FS) (b : bool) (P : Prog Outcome) (fails : bool) (number : Z) : Prop :=
  exists c k, P = Vis c k /\ plain_call c = true /\
    let '(a, fs') := fs_call fails number c fs in
    no_legacy fs' /\
    (if commits path c a then b = false /\ view fs' = Some (stored records) else view fs' = view fs) /\
    (writing fs' (b || commits path c a) (k a) \/ (exists e, k a = K (Err e)) \/
     (b || commits path c a = true /\ k a = K (Ok tt))).

#[local] Arguments open_temporary : simpl never.

Lemma writing_step fs b P fails number : no_legacy fs -> writing fs b P -> write_step fs b P fails number.
Proof.
  intros N W. destruct W as [|n bytes V|n bytes x V|bytes t V T|bytes t V T F|bytes t V T F|bytes t T|b t e T].
  - unfold write_step, write_records. rewrite parent_path, file_name_path. eexists _, _. split_and!; [done|done|].
    cbn [fs_call]. split_and!; [done|done|]. destruct fails; cbn; [right; left; eauto|].
    destruct (to_vec records) as [bytes|e] eqn:V; [left; by apply (WR_open fs 7 bytes)|right; left; eauto].
  - eexists _, _. split_and!; [done|done|]. cbn [fs_call]. split_and!; [done|done|]. left.
    exact (WR_new fs n bytes number V).
  - eexists _, _. split_and!; [done|done|]. set (t := dir ++ _).
    assert (T : temporary t) by (by eexists). cbn [fs_call]. destruct fails; [cbn; split_and!; eauto|].
    destruct (fs !! t); cbn; split_and!; try done.
    + destruct n as [|n]; [right; left; by eexists|left; by apply (WR_open _ n bytes)].
    + apply no_legacy_insert; [done|by right].
    + by apply view_insert.
    + left. by apply (WR_write _ bytes).
  - eexists _, _. split_and!; [done|done|]. cbn [fs_call]. destruct fails; cbn [commits].
    + split_and!; try done. left. by apply (WR_remove _ _ t).
    + split_and!; [apply no_legacy_insert; [done|by right]|by apply view_insert|]. left. apply (WR_sync _ bytes); try done.
      by rewrite lookup_insert_eq.
  - eexists _, _. split_and!; [done|done|]. cbn [fs_call]. split_and!; [done|done|]. left. destruct fails.
    + by apply (WR_remove _ _ t).
    + by apply (WR_rename _ bytes).
  - eexists _, _. split_and!; [done|done|]. cbn [fs_call]. destruct fails; [|rewrite F].
    + cbn. rewrite andb_false_r. split_and!; try done. left. by apply (WR_remove _ _ t).
    + cbn [commits is_ok]. rewrite bool_decide_true by done. cbn [andb]. split_and!.
      * apply no_legacy_insert; [by apply no_legacy_delete|by left].
      * done.
      * unfold view. rewrite lookup_insert_eq. f_equal. by apply to_vec_stored.
      * left. by apply (WR_private _ bytes).
  - eexists _, _. split_and!; [done|done|]. cbn [fs_call]. split_and!; [done|done|]. destruct fails.
    + left. by apply (WR_remove _ _ t).
    + right. right. done.
  - eexists _, _. split_and!; [done|done|]. cbn [fs_call]. destruct fails; cbn; split_and!; try done; eauto.
    + by apply no_legacy_delete.
    + by apply view_delete.
Qed.
End Writing.

(** ** The stages of a process *)

Definition K_read (f : list PairingRecord -> Reply) (r : result StoreError (list PairingRecord)) : Prog Outcome :=
  match r with Err e => Ret (Err e) | Ok records => Ret (Ok (f records)) end.
Definition return_ (r : Outcome) : Prog Outcome := Vis C_Unlock (fun _ => Ret r).
Definition K_write (done : Reply) (r : result StoreError unit) : Prog Outcome :=
  match r with Err e => return_ (Err e) | Ok _ => return_ (Ok done) end.
Definition K_load (f : list PairingRecord -> option (list PairingRecord)) (done none : Reply)
    (r : result StoreError (list PairingRecord)) : Prog Outcome :=
  match r with
  | Err e => return_ (Err e)
  | Ok records =>
    match f records with
    | None => return_ (Ok none)
    | Some records => write_records path records (K_write done)
    end
  end.

Definition updates (op : Op) (f : list PairingRecord -> option (list PairingRecord)) (done none : Reply) : Prop :=
  forall v, seq_op op v = match f v with Some v => (Some v, done) | None => (None, none) end.
Definition reads (op : Op) (f : list PairingRecord -> Reply) : Prop := forall v, seq_op op v = (None, f v).
Lemma op_shape op :
  (exists f, reads op f /\ op_prog path op = reading path f) \/
  (exists e, op_prog path op = Ret (Err e)) \/
  (exists f done none, updates op f done none /\ op_prog path op = updating path f done none).
Proof.
  destruct op; cbn [op_prog].
  - left. by eexists.
  - left. by eexists (fun l => RP_Record (find_record id l)).
  - left. by eexists (fun l => RP_Record (find_by_host host_name l)).
  - destruct (key_array record) as [key|e]; [|right; left; by exists e]. right. right.
    by eexists (fun l => Some (save_records record l)), _, _.
  - right. right. by eexists (fun l => Some (without id l)), _, _.
  - right. right. by eexists _, _, _.
Qed.

Context (v0 : list PairingRecord).

(** An answer that is the operation's at some point of the order of the writes; one
    that wrote is the next write there. *)
Definition answered (cm : list (nat * Op)) (pid : nat) (op : Op) (r : Outcome) : Prop :=
  match r with
  | Err _ => True
  | Ok reply =>
    exists l, l `prefix_of` cm /\ (seq_op op (apply_ops v0 l)).2 = reply /\
      (is_Some (seq_op op (apply_ops v0 l)).1 -> (l ++ [(pid, op)]) `prefix_of` cm)
  end.

Inductive stage (lock : option nat) (fs : FS) (cm : list (nat * Op)) (pid : nat) (op : Op) : Prog Outcome -> Prop :=
| SG_read f P : reads op f -> loading (K_read f) P -> stage lock fs cm pid op P
| SG_start f done none :
  updates op f done none -> pid ∉ cm.*1 -> stage lock fs cm pid op (updating path f done none)
| SG_load f done none P :
  updates op f done none -> lock = Some pid -> pid ∉ cm.*1 -> loading (K_load f done none) P ->
  stage lock fs cm pid op P
| SG_write f done none l records (b : bool) P :
  updates op f done none -> lock = Some pid -> pid ∉ l.*1 -> f (apply_ops v0 l) = Some records ->
  cm = l ++ (if b then [(pid, op)] else []) -> writing records (K_write done) fs b P ->
  stage lock fs cm pid op P
| SG_unlock r : lock = Some pid -> answered cm pid op r -> stage lock fs cm pid op (return_ r)
| SG_done r : answered cm pid op r -> stage lock fs cm pid op (Ret r).

Lemma answered_mono cm cm' pid op r : cm `prefix_of` cm' -> answered cm pid op r -> answered cm' pid op r.
Proof.
  intros Pf A. destruct r as [reply|e]; [|done]. destruct A as (l & A & B & C). exists l.
  split_and!; [by etrans|done|]. intros X. etrans; [by apply C|done].
Qed.
Lemma stage_stable lock fs cm pid op P lock' fs' cm' :
  stage lock fs cm pid op P ->
  (lock = Some pid -> lock' = lock /\ fs' = fs /\ cm' = cm) ->
  cm `prefix_of` cm' -> (pid ∈ cm'.*1 -> pid ∈ cm.*1) -> stage lock' fs' cm' pid op P.
Proof.
  intros S Holder Pf N. destruct S as [f P R L|f d n U Nc|f d n P U Lk Nc L|f d n l records b P U Lk Nc F E W|r Lk A|r A].
  - by apply (SG_read _ _ _ _ _ f).
  - apply SG_start; auto.
  - destruct (Holder Lk) as (-> & -> & ->). by apply (SG_load _ _ _ _ _ f d n).
  - destruct (Holder Lk) as (-> & -> & ->). by apply (SG_write _ _ _ _ _ f d n l records b).
  - destruct (Holder Lk) as (-> & -> & ->). by apply SG_unlock.
  - apply SG_done. by eapply answered_mono.
Qed.

Definition start_stage lock fs cm pid op : pid ∉ cm.*1 -> stage lock fs cm pid op (op_prog path op).
Proof.
  intros N. destruct (op_shape op) as [(f & R & ->)|[[e ->]|(f & d & n & U & ->)]].
  - apply (SG_read _ _ _ _ _ f); [done|]. apply LO_all.
  - by apply SG_done.
  - by apply SG_start.
Qed.

Record proc_step (lock : option nat) (fs : FS) (cm : list (nat * Op)) (pid : nat) (op : Op)
    (lock' : option nat) (fs' : FS) (cm' : list (nat * Op)) (P' : Prog Outcome) : Prop := {
  ps_stage : stage lock' fs' cm' pid op P';
  ps_view : view fs' = Some (apply_ops v0 cm');
  ps_legacy : no_legacy fs';
  ps_others q : q <> pid -> lock = Some q -> lock' = lock /\ fs' = fs /\ cm' = cm;
  ps_commits : cm' = cm \/ cm' = cm ++ [(pid, op)] /\ pid ∉ cm.*1
}.
Lemma ps_same lock fs cm pid op P' :
  view fs = Some (apply_ops v0 cm) -> no_legacy fs -> stage lock fs cm pid op P' ->
  proc_step lock fs cm pid op lock fs cm P'.
Proof. intros V N S. split; auto. Qed.

(** A step of a process that has not answered. *)
Definition call_result (lock : option nat) (fs : FS) (cm : list (nat * Op)) (pid : nat) (op : Op) (c : Call)
    (k : Answer -> Prog Outcome) (fails : bool) (number : Z) : option nat * FS * list (nat * Op) * Prog Outcome :=
  let '(a, fs') := fs_call fails number c fs in
  (lock, fs', cm ++ (if commits path c a then [(pid, op)] else []), k a).
Lemma plain_proc_step lock fs cm pid op c k fails number :
  plain_call c = true -> view fs = Some (apply_ops v0 cm) -> no_legacy fs -> stage lock fs cm pid op (Vis c k) ->
  let '(lock', fs', cm', P') := call_result lock fs cm pid op c k fails number in
  proc_step lock fs cm pid op lock' fs' cm' P'.
Proof.
  intros Pc V N S. unfold call_result.
  remember (Vis c k) as P eqn:EP.
  destruct S as [f P R L|f d n U Nc|f d n P U Lk Nc L|f d n l records b P U Lk Nc F E W|r Lk A|r A].
  - destruct (loading_step _ _ fs fails number N L) as (c' & k' & EP' & _ & X).
    rewrite EP in EP'. injection EP' as <- <-.
    destruct (fs_call fails number c fs) as [a fs']. destruct X as (-> & -> & X). rewrite app_nil_r.
    apply ps_same; [done|done|]. destruct X as [X|[[e ->]|(v & Ev & ->)]].
    + by apply (SG_read _ _ _ _ _ f).
    + by apply SG_done.
    + apply SG_done. exists cm. rewrite V in Ev. injection Ev as <-. split_and!; [done|by rewrite R|].
      rewrite R. by intros [].
  - unfold updating, with_lock in EP. injection EP as <- <-. done.
  - destruct (loading_step _ _ fs fails number N L) as (c' & k' & EP' & _ & X).
    rewrite EP in EP'. injection EP' as <- <-.
    destruct (fs_call fails number c fs) as [a fs']. destruct X as (-> & -> & X). rewrite app_nil_r.
    apply ps_same; [done|done|]. destruct X as [X|[[e ->]|(v & Ev & ->)]].
    + by apply (SG_load _ _ _ _ _ f d n).
    + by apply SG_unlock.
    + rewrite V in Ev. injection Ev as <-. cbn [K_load]. destruct (f (apply_ops v0 cm)) as [records|] eqn:F.
      * apply (SG_write _ _ _ _ _ f d n cm records false); try done; [by rewrite app_nil_r|]. apply WR_begin.
      * apply SG_unlock; [done|]. exists cm. pose proof (U (apply_ops v0 cm)) as Us. rewrite F in Us.
        rewrite Us. split_and!; [done|done|by intros []].
  - subst cm. destruct (writing_step _ _ fs b _ fails number N W) as (c' & k' & EP' & _ & X).
    rewrite EP in EP'. injection EP' as <- <-.
    destruct (fs_call fails number c fs) as [a fs']. destruct X as (N' & V' & X).
    pose proof (U (apply_ops v0 l)) as Us. rewrite F in Us.
    assert (Cm : (l ++ (if b then [(pid, op)] else [])) ++ (if commits path c a then [(pid, op)] else [])
      = l ++ (if b || commits path c a then [(pid, op)] else [])).
    { destruct (commits path c a); [destruct V' as [-> _]; by rewrite app_nil_r|]. by rewrite orb_false_r, app_nil_r. }
    rewrite Cm. split; [| |exact N'| |].
    + destruct X as [X|[[e ->]|[Eb ->]]].
      * by apply (SG_write _ _ _ _ _ f d n l records (b || commits path c a)).
      * by apply SG_unlock.
      * apply SG_unlock; [done|]. exists l. rewrite Us. rewrite Eb. split_and!; [by apply prefix_app_r|done|done].
    + destruct (commits path c a) eqn:Ec.
      * destruct V' as [-> ->]. cbn [orb]. rewrite apply_ops_snoc. unfold apply_op. by rewrite Us.
      * rewrite orb_false_r. by rewrite V'.
    + congruence.
    + destruct (commits path c a); [|rewrite orb_false_r; by left]. destruct V' as [-> _]. right.
      cbn [orb]. by rewrite app_nil_r.
  - unfold return_ in EP. injection EP as <- <-. done.
  - discriminate EP.
Qed.

(** ** All processes *)

Record world_inv (w : World) : Prop := {
  wi_view : view (w_fs w) = Some (apply_ops v0 (w_commits w));
  wi_legacy : no_legacy (w_fs w);
  wi_stage pid op P : w_procs w !! pid = Some (op, P) -> stage (w_lock w) (w_fs w) (w_commits w) pid op P;
  wi_commits pid : pid ∈ (w_commits w).*1 -> is_Some (w_procs w !! pid);
  wi_once : NoDup (w_commits w).*1
}.

Lemma world_inv_resume w pid op P lock' fs' cm' P' :
  world_inv w -> w_procs w !! pid = Some (op, P) ->
  proc_step (w_lock w) (w_fs w) (w_commits w) pid op lock' fs' cm' P' ->
  world_inv (resume pid op P' (mkWorld fs' lock' (w_procs w) cm')).
Proof.
  intros [V L S C O] E [St V' L' Ot Cm]. split; cbn; try done.
  - intros q opq Q X. apply lookup_insert_Some in X as [[<- [= <- <-]]|[N X]]; [done|].
    apply (stage_stable _ _ _ _ _ _ _ _ _ (S q opq Q X)); [by apply Ot| |].
    + destruct Cm as [-> |[-> _]]; [done|by apply prefix_app_r].
    + destruct Cm as [-> |[-> _]]; [done|]. rewrite fmap_app, elem_of_app. intros [I|I]; [done|].
      apply list_elem_of_singleton in I. cbn in I. congruence.
  - intros q I. destruct (decide (q = pid)) as [->|N]; [rewrite lookup_insert_eq; eauto|].
    rewrite lookup_insert_ne by done. apply C. destruct Cm as [-> |[-> _]]; [done|].
    rewrite fmap_app, elem_of_app in I. destruct I as [I|I]; [done|].
    apply list_elem_of_singleton in I. cbn in I. congruence.
  - destruct Cm as [-> |[-> Np]]; [done|]. rewrite fmap_app. apply NoDup_app. split_and!; [done| |apply NoDup_singleton].
    intros q I X. apply list_elem_of_singleton in X. cbn in X. congruence.
Qed.
Lemma world_same w : mkWorld (w_fs w) (w_lock w) (w_procs w) (w_commits w) = w.
Proof. by destruct w. Qed.

Lemma world_event_inv w e : world_inv w -> world_inv (world_event true path w e).
Proof.
  intros I. destruct I as [V L S C O] eqn:EI. clear EI. destruct e as [pid op|pid fails number|pid]; cbn [world_event].
  - destruct (w_procs w !! pid) as [[]|] eqn:E; [done|]. split; cbn; try done.
    + intros q opq Q X. apply lookup_insert_Some in X as [[<- [= <- <-]]|[N X]]; [|by apply S].
      apply start_stage. intros X. destruct (C pid X). congruence.
    + intros q X. destruct (decide (q = pid)) as [->|N]; [rewrite lookup_insert_eq; eauto|].
      rewrite lookup_insert_ne by done. by apply C.
  - destruct (w_procs w !! pid) as [[op [r|c k]]|] eqn:E; [done| |done].
    pose proof (S pid op _ E) as St. destruct (plain_call c) eqn:Pc.
    + pose proof (plain_proc_step _ _ _ _ _ c k fails number Pc V L St) as X. unfold call_result in X.
      destruct c; try done; destruct (fs_call _ _ _ _) as [a fs'];
        by apply (world_inv_resume w pid op _ _ _ _ _ I E).
    + remember (Vis c k) as P eqn:EP.
      destruct St as [f P R Ld|f d n U Nc|f d n P U Lk Nc Ld|f d n l records b P U Lk Nc F Ec W|r Lk A|r A].
      * destruct (loading_step _ _ (w_fs w) fails number L Ld) as (c' & k' & EP' & Pc' & _). congruence.
      * unfold updating, with_lock in EP. injection EP as <- <-. cbn beta iota.
        destruct fails.
        { rewrite <- (world_same w). apply (world_inv_resume w pid op _ _ _ _ _ I E).
          apply ps_same; [done|done|]. by apply SG_done. }
        case_bool_decide as Lk; [done|]. cbn [andb].
        apply (world_inv_resume w pid op _ _ _ _ _ I E).
        assert (Free : w_lock w = None) by (destruct (w_lock w); [by destruct Lk|done]).
        split; auto; [|by rewrite Free]. apply (SG_load _ _ _ _ _ f d n); try done. apply LO_all.
      * destruct (loading_step _ _ (w_fs w) fails number L Ld) as (c' & k' & EP' & Pc' & _). congruence.
      * destruct (writing_step _ _ (w_fs w) b _ fails number L W) as (c' & k' & EP' & Pc' & _). congruence.
      * unfold return_ in EP. injection EP as <- <-. cbn beta iota. unfold unlock. rewrite decide_True by done.
        apply (world_inv_resume w pid op _ _ _ _ _ I E). split; auto; [by apply SG_done|]. congruence.
      * discriminate EP.
  - destruct (w_procs w !! pid) as [[op P]|] eqn:E; [|done]. unfold unlock.
    apply (world_inv_resume w pid op _ _ _ _ _ I E). split; auto; [by apply SG_done|].
    intros q N Lq. rewrite decide_False; [done|]. congruence.
Qed.
End Linear.

(** C40: the pairing store loses nothing and invents nothing, whatever else runs:
    when several processes load, save, delete and remember endpoints in the same
    file, their system calls interleaved in any way, any of them failing and any
    process dying anywhere, what the file holds is always the result of
    the writes one after the other, each operation writing at most once; and
    each answer that is not an error is the one the operation has at some point
    of that order -- the point of its own write, if it wrote.  The lock is the one
    of Unix, and no older file is left to migrate. *)
Theorem pairing_store_serializable path fs v0 events :
  path <> [] -> view path fs = Some v0 -> no_legacy path fs ->
  let w := world_run true path (world_of fs) events in
  view path (w_fs w) = Some (apply_ops v0 (w_commits w)) /\
  NoDup (w_commits w).*1 /\
  forall pid op reply, w_procs w !! pid = Some (op, Ret (Ok reply)) ->
    exists l, l `prefix_of` w_commits w /\ (seq_op op (apply_ops v0 l)).2 = reply /\
      (is_Some (seq_op op (apply_ops v0 l)).1 -> (l ++ [(pid, op)]) `prefix_of` w_commits w).
Proof.
  intros Np V L w. destruct (exists_last Np) as (dir & stem & Ep).
  assert (I : world_inv path dir stem v0 w).
  { unfold w. clear w. induction events as [|e events IH] using rev_ind.
    - split; [exact V|exact L|intros pid op P X; cbn in X; by rewrite lookup_empty in X| |apply NoDup_nil_2].
      intros pid X. by apply elem_of_nil in X.
    - unfold world_run. rewrite foldl_snoc. by apply world_event_inv. }
  destruct I as [Vw Lw S _ O]. split_and!; [done|done|]. intros pid op reply E. pose proof (S pid op _ E) as St.
  remember (Ret (Ok reply)) as P eqn:EP.
  destruct St as [f P R Ld|f d n U Nc|f d n P U Lk Nc Ld|f d n l records b P U Lk Nc F Ec W|r Lk A|r A]; try done.
  - destruct (loading_step path _ _ (w_fs w) false 0 Lw Ld) as (c & k & EP' & _). congruence.
  - destruct (loading_step path _ _ (w_fs w) false 0 Lw Ld) as (c & k & EP' & _). congruence.
  - destruct (writing_step path dir stem Ep _ _ (w_fs w) b _ false 0 Lw W) as (c & k & EP' & _). congruence.
  - injection EP as ->. exact A.
Qed.

(** ** What an operation does to the records *)

Lemma stored_valid v : Forall (fun r => valid r = true) v -> stored v = map reload v.
Proof.
  unfold stored. rewrite map_map. induction 1 as [|r v V _ IH]; [done|]. cbn [map List.filter].
  change (from_json (to_json r)) with (reload r). by rewrite valid_reload, V, IH.
Qed.

(** A pairing that was saved is found again, with its key and all else that was
    saved of it, and no operation touches another pairing: after a save, the record
    of that host is the saved one, after a deletion there is none, and the
    records of all other hosts are what they were, as they are read back. *)
Theorem saved_pairing_found v r id :
  Forall (fun r => valid r = true) v -> valid r = true ->
  find_record (pr_id r) (apply_op v (Op_Save r)) = Some (reload r) /\
  find_record id (apply_op v (Op_Delete id)) = None /\
  (id <> pr_id r -> find_record id (apply_op v (Op_Save r)) = reload <$> (find_record id v) /\
    find_record id (apply_op v (Op_Delete (pr_id r))) = reload <$> (find_record id v)).
Proof.
  intros V Vr. unfold apply_op. cbn [seq_op fst]. unfold save_records.
  assert (W : forall id, Forall (fun r => valid r = true) (without id v)) by (intros; by apply Forall_without).
  rewrite !stored_valid; [|done..|by apply Forall_app_2; [|repeat constructor]].
  assert (F : forall id l, find_record id (map reload l) = reload <$> find_record id l)
    by (intros; by apply find_record_map).
  rewrite !F, !find_record_app, !find_record_without, !find_record_single.
  rewrite !(bool_decide_true (_ = _)) by done. split_and!; [done|done|]. intros N.
  rewrite !(bool_decide_false (id = pr_id r)), (bool_decide_false (pr_id r = id)) by congruence.
  split; [|done]. by destruct (find_record id v).
Qed.

(** ** Runs *)

Definition toy_path : Path := [str_bytes "home"; str_bytes "MahoRD"; str_bytes "client-pairings.json"].
Definition toy_pairing (id : string) : PairingRecord :=
  PairingRecord_new (str_bytes id) (str_bytes "host") (repeat Byte.x01 32) 0.
Definition toy_steps (pid n : nat) : list Event := repeat (SE_Step pid false (Z.of_nat pid)) n.
(** Two processes that save, each started while the other runs. *)
Definition toy_saves : list Event :=
  [SE_Start 1 (Op_Save (toy_pairing "a")); SE_Start 2 (Op_Save (toy_pairing "b"))] ++
  toy_steps 1 4 ++ toy_steps 2 7 ++ toy_steps 1 10 ++ toy_steps 2 15.
Definition ids (v : option (list PairingRecord)) : option (list rstring) := map pr_id <$> v.

Lemma pairing_store_serializable_witness :
  let w := world_run true toy_path (world_of ∅) toy_saves in
  ids (view toy_path (w_fs w)) = Some [str_bytes "a"; str_bytes "b"] /\
  view toy_path (w_fs w) = Some (apply_ops [] (w_commits w)).
Proof.
  cbn zeta. split; [by vm_compute|].
  apply (pairing_store_serializable toy_path ∅ [] toy_saves); [done|done|intros q _ _; apply lookup_empty].
Defined.

Lemma saved_pairing_found_witness :
  find_record (str_bytes "b") (apply_op [toy_pairing "a"] (Op_Save (toy_pairing "b"))) = Some (reload (toy_pairing "b")).
Proof.
  apply (saved_pairing_found [toy_pairing "a"] (toy_pairing "b") []); [|vm_compute; reflexivity].
  constructor; [vm_compute; reflexivity|constructor].
Defined.

(** Where the lock excludes nobody, the same interleaving loses a pairing: both
    processes load the same records, and the second file replaces the first. *)
Example windows_save_lost :
  let w := world_run false toy_path (world_of ∅) toy_saves in
  ids (view toy_path (w_fs w)) = Some [str_bytes "b"] /\ (w_commits w).*1 = [1%nat; 2%nat].
Proof. vm_compute. split; reflexivity. Qed.

(** A file from an earlier version is migrated by whoever loads first, and kept. *)
Definition legacy_path : Path := [str_bytes "home"; str_bytes "EclipticRD"; str_bytes "pairing-keys.json"].
Definition legacy_fs : FS := {[legacy_path := F_Records [to_json (toy_pairing "old")]]}.
Example legacy_migrated :
  let w := world_run true toy_path (world_of legacy_fs) ([SE_Start 1 (Op_Load (str_bytes "old"))] ++ toy_steps 1 20) in
  ids (view toy_path (w_fs w)) = Some [str_bytes "old"] /\ w_fs w !! legacy_path = legacy_fs !! legacy_path /\
  (w_procs w !! 1%nat) = Some (Op_Load (str_bytes "old"), Ret (Ok (RP_Record (Some (toy_pairing "old"))))).
Proof. vm_compute. split_and!; reflexivity. Qed.

(** The migration does not take the lock: a load that began it can replace a file
    to which another process has saved a pairing in the meantime. *)
Example migration_loses_a_save :
  let w := world_run true toy_path (world_of legacy_fs)
    ([SE_Start 1 Op_LoadAll; SE_Start 2 (Op_Save (toy_pairing "new"))] ++ toy_steps 1 5 ++ toy_steps 2 40 ++
     toy_steps 1 20) in
  ids (view toy_path (w_fs w)) = Some [str_bytes "old"] /\
  (snd <$> w_procs w !! 2%nat) = Some (Ret (Ok RP_Unit)).
Proof. vm_compute. split_and!; reflexivity. Qed.
