(* ===== verification/ClientRuntime.v ===== *)
(** * The client's runtime: its errors and its event slots

    [clients/rust/maho-app/src/session.rs]: [SessionError] with the kinds of
    I/O and TLS errors that decide whether a session is worth another handshake
    ([should_reconnect]), and [RuntimeEvents], the slots between the thread that
    reads the TLS stream and its consumer.  A method that holds the lock of the
    slots is one step; a wait is an operation that does not return yet. *)

From S2P Require Import Prelude Codec Packet Pairing Control UdpGcm Admission ClientStore ClientSession.

(** ** Errors *)

(** [io::ErrorKind]: the kinds the client tells apart; [EK_Other] is the kind of
    that name, [EK_Unlisted] all that are not named here. *)
Inductive IoErrorKind : Type :=
| EK_UnexpectedEof | EK_ConnectionReset | EK_ConnectionAborted | EK_BrokenPipe | EK_ConnectionRefused
| EK_TimedOut | EK_WouldBlock | EK_InvalidData | EK_NotConnected | EK_HostUnreachable | EK_NetworkUnreachable
| EK_Other | EK_Unlisted.

Inductive TlsPskError : Type :=
| TP_Identity (e : IdentityError)      (* InvalidIdentity, InvalidKeyLength *)
| TP_OpenSsl
| TP_Handshake
| TP_Io (kind : IoErrorKind)
| TP_Frame (e : CodecError)
| TP_InvalidFrameLength (n : Z).

(** [SessionError]; locks are never poisoned in the model. *)
Inductive ConnectError : Type :=
| XE_NotReady
| XE_PairingRejected (reason : PairingRejectReason)
| XE_PairingNotFound (id : rstring)
| XE_UnexpectedPacket (expected actual : PacketType)
| XE_HandshakeAckTimeout
| XE_NoAddress
| XE_TcpRuntimePanicked
| XE_TcpRuntimeStopped
| XE_TcpRuntimeAlreadyRunning
| XE_Protocol (e : CodecError)
| XE_Tls (e : TlsPskError)
| XE_Datagram (e : DatagramError)
| XE_PairingStore (e : StoreError)
| XE_Io (kind : IoErrorKind)
| XE_MissingAuthenticatedRegistration
| XE_Cancelled
| XE_Unsupported
| XE_PermissionDenied
| XE_InvalidClipboardImage.

Definition retryable_kind (kind : IoErrorKind) : bool :=
  match kind with
  | EK_UnexpectedEof | EK_ConnectionReset | EK_ConnectionAborted | EK_BrokenPipe | EK_ConnectionRefused
  | EK_TimedOut => true
  | _ => false
  end.
Definition should_reconnect (error : ConnectError) : bool :=
  match error with
  | XE_NotReady | XE_TcpRuntimeStopped | XE_TcpRuntimePanicked | XE_HandshakeAckTimeout => true
  | XE_Io kind => retryable_kind kind
  | XE_Tls (TP_Io EK_Other) => true
  | XE_Tls (TP_Io kind) => retryable_kind kind
  | _ => false
  end.

Definition retry_delay (attempt : Z) : Duration :=
  from_millis (500 * Z.shiftl 1 (Z.min (Z.max 0 (attempt - 1)) 4)).

(** An error of a method of [ClientSession]; [transport] says why a packet was refused. *)
Definition of_session (transport : ConnectError) (e : ClientSession.SessionError) : ConnectError :=
  match e with
  | CE_NotReady => XE_NotReady
  | CE_Protocol e => XE_Protocol e
  | CE_Datagram e => XE_Datagram e
  | CE_Media _ => XE_Io EK_InvalidData
  | CE_Transport => transport
  | CE_Unsupported => XE_Unsupported
  | CE_PermissionDenied => XE_PermissionDenied
  | CE_Cancelled => XE_Cancelled
  | CE_InvalidClipboardImage => XE_InvalidClipboardImage
  end.

(** ** The event slots *)

Abbreviation RuntimeEvent := (result ConnectError SessionEvent) (only parsing).

Record EventSlots : Type := mkEventSlots {
  es_clipboard : option rstring;
  es_ping : bool;
  es_stream_config : list ControlMessage;
  es_error : option ConnectError;
  es_closed : bool
}.
Definition EventSlots_default : EventSlots := mkEventSlots None false [] None false.
Definition STREAM_CONFIG_SLOTS : Z := 16.

Definition events_close (s : EventSlots) : EventSlots :=
  mkEventSlots (es_clipboard s) (es_ping s) (es_stream_config s) (es_error s) true.

Definition events_push (s : EventSlots) (event : RuntimeEvent) : EventSlots :=
  match event with
  | Ok (EV_Clipboard text) =>
    mkEventSlots (Some text) (es_ping s) (es_stream_config s) (es_error s) (es_closed s)
  | Ok EV_Ping => mkEventSlots (es_clipboard s) true (es_stream_config s) (es_error s) (es_closed s)
  | Ok (EV_StreamConfig message) =>
    let queue :=
      if STREAM_CONFIG_SLOTS <=? len (es_stream_config s) then tail (es_stream_config s)
      else es_stream_config s in
    mkEventSlots (es_clipboard s) (es_ping s) (queue ++ [message]) (es_error s) (es_closed s)
  | Err error => mkEventSlots (es_clipboard s) (es_ping s) (es_stream_config s) (Some error) (es_closed s)
  | Ok (EV_Ignored | EV_Frame _ | EV_Audio _ | EV_Cursor _ | EV_InputAck _ _ _) => s
  end.

Definition events_take (s : EventSlots) : option RuntimeEvent * EventSlots :=
  match es_clipboard s with
  | Some text =>
    (Some (Ok (EV_Clipboard text)), mkEventSlots None (es_ping s) (es_stream_config s) (es_error s) (es_closed s))
  | None =>
    if es_ping s then
      (Some (Ok EV_Ping), mkEventSlots None false (es_stream_config s) (es_error s) (es_closed s))
    else
      match es_stream_config s with
      | message :: queue =>
        (Some (Ok (EV_StreamConfig message)), mkEventSlots None false queue (es_error s) (es_closed s))
      | [] => (Err <$> es_error s, mkEventSlots None false [] None (es_closed s))
      end
  end.

Definition events_pending (s : EventSlots) : bool :=
  bool_decide (is_Some (es_clipboard s)) || es_ping s || negb (bool_decide (es_stream_config s = [])) ||
  bool_decide (is_Some (es_error s)).

Inductive EventsError : Type := VE_Empty | VE_Timeout | VE_Disconnected.

(** [ok_or(if slots.closed { Disconnected } else { .. })] *)
Definition events_result (empty : EventsError) (s : EventSlots) : result EventsError RuntimeEvent * EventSlots :=
  match events_take s with
  | (Some event, s) => (Ok event, s)
  | (None, s) => (Err (if es_closed s then VE_Disconnected else empty), s)
  end.
Definition events_try_recv : EventSlots -> result EventsError RuntimeEvent * EventSlots := events_result VE_Empty.

(** [None]: still waiting; [timed_out]: the timeout is over. *)
Definition events_recv_timeout (s : EventSlots) (timed_out : bool)
    : option (result EventsError RuntimeEvent) * EventSlots :=
  if negb (events_pending s) && negb (es_closed s) && negb timed_out then (None, s)
  else let '(r, s) := events_result VE_Timeout s in (Some r, s).
Definition events_recv (s : EventSlots) : option (result EventsError RuntimeEvent) * EventSlots :=
  if negb (events_pending s) && negb (es_closed s) then (None, s)
  else let '(r, s) := events_result VE_Disconnected s in (Some r, s).

(** ** What the consumer gets *)

Inductive EventsOp : Type :=
| EO_Push (event : RuntimeEvent)
| EO_TryRecv
| EO_RecvTimeout (timed_out : bool)
| EO_Recv
| EO_Close.

Definition received (r : option (result EventsError RuntimeEvent)) : list RuntimeEvent :=
  match r with Some (Ok event) => [event] | _ => [] end.
Definition events_op (s : EventSlots) (op : EventsOp) : list RuntimeEvent * EventSlots :=
  match op with
  | EO_Push event => ([], events_push s event)
  | EO_TryRecv => let '(r, s) := events_try_recv s in (received (Some r), s)
  | EO_RecvTimeout timed_out => let '(r, s) := events_recv_timeout s timed_out in (received r, s)
  | EO_Recv => let '(r, s) := events_recv s in (received r, s)
  | EO_Close => ([], events_close s)
  end.
Fixpoint events_ops (s : EventSlots) (ops : list EventsOp) : list RuntimeEvent * EventSlots :=
  match ops with
  | [] => ([], s)
  | op :: ops =>
    let '(events, s) := events_op s op in
    let '(more, s) := events_ops s ops in (events ++ more, s)
  end.

Definition pushed_of (ops : list EventsOp) : list RuntimeEvent :=
  omap (fun op => match op with EO_Push event => Some event | _ => None end) ops.
Definition configs_of (l : list RuntimeEvent) : list ControlMessage :=
  omap (fun e => match e with Ok (EV_StreamConfig m) => Some m | _ => None end) l.
Definition texts_of (l : list RuntimeEvent) : list rstring :=
  omap (fun e => match e with Ok (EV_Clipboard text) => Some text | _ => None end) l.
Definition errors_of (l : list RuntimeEvent) : list ConnectError :=
  omap (fun e => match e with Err e => Some e | _ => None end) l.
Definition pinged (l : list RuntimeEvent) : bool :=
  existsb (fun e => match e with Ok EV_Ping => true | _ => false end) l.

(** ** Theorems *)

(** What was got and what is still there, against what was pushed. *)
Record events_inv (pushed got : list RuntimeEvent) (s : EventSlots) : Prop := {
  ei_configs : configs_of got ++ es_stream_config s `sublist_of` configs_of pushed;
  ei_waiting : es_stream_config s `suffix_of` configs_of pushed;
  ei_bound : len (es_stream_config s) <= STREAM_CONFIG_SLOTS;
  ei_all : len (configs_of pushed) <= STREAM_CONFIG_SLOTS -> configs_of got ++ es_stream_config s = configs_of pushed;
  ei_texts : texts_of got ++ option_list (es_clipboard s) `sublist_of` texts_of pushed;
  ei_last_text : last (texts_of got ++ option_list (es_clipboard s)) = last (texts_of pushed);
  ei_errors : errors_of got ++ option_list (es_error s) `sublist_of` errors_of pushed;
  ei_last_error : last (errors_of got ++ option_list (es_error s)) = last (errors_of pushed);
  ei_ping : pinged got || es_ping s = pinged pushed
}.

Lemma last_snoc_option {A} (l : list A) (x : A) : last (l ++ option_list (Some x)) = Some x.
Proof. cbn. by rewrite last_snoc. Qed.

Lemma sublist_replace {A} (l m : list A) (o : option A) (x : A) :
  l ++ option_list o `sublist_of` m -> l ++ option_list (Some x) `sublist_of` m ++ [x].
Proof. intros S. cbn. apply sublist_app; [|done]. etrans; [|exact S]. apply sublist_inserts_r. reflexivity. Qed.

Lemma configs_of_app a b : configs_of (a ++ b) = configs_of a ++ configs_of b.
Proof. apply omap_app. Qed.
Lemma texts_of_app a b : texts_of (a ++ b) = texts_of a ++ texts_of b.
Proof. apply omap_app. Qed.
Lemma errors_of_app a b : errors_of (a ++ b) = errors_of a ++ errors_of b.
Proof. apply omap_app. Qed.
Lemma pinged_app a b : pinged (a ++ b) = pinged a || pinged b.
Proof. apply existsb_app. Qed.

(** Splits the events of one more into those before and it. *)
Ltac one_event :=
  rewrite ?configs_of_app, ?texts_of_app, ?errors_of_app, ?pinged_app;
  cbn [configs_of texts_of errors_of pinged omap list_omap existsb events_push
       es_clipboard es_ping es_stream_config es_error es_closed];
  rewrite ?app_nil_r, ?orb_false_r, ?orb_true_r.

Lemma suffix_sublist {A} (l k : list A) : l `suffix_of` k -> l `sublist_of` k.
Proof. intros [p ->]. by apply sublist_inserts_l. Qed.

(** The queue drops its oldest message when it is full. *)
Definition make_room (q : list ControlMessage) : list ControlMessage :=
  if STREAM_CONFIG_SLOTS <=? len q then tail q else q.
Lemma make_room_spec q :
  len q <= STREAM_CONFIG_SLOTS ->
  make_room q `suffix_of` q /\ len (make_room q) < STREAM_CONFIG_SLOTS /\
  (len q < STREAM_CONFIG_SLOTS -> make_room q = q).
Proof.
  unfold make_room, STREAM_CONFIG_SLOTS. intros B. case_if; [|by split_and!].
  destruct q as [|m q]; rewrite ?len_nil, ?len_cons in *; cbn [tail]; [lia|]. split_and!; [by exists [m]|lia|lia].
Qed.

Lemma config_pushed pushed got s m :
  events_inv pushed got s ->
  let queue := make_room (es_stream_config s) ++ [m] in
  configs_of got ++ queue `sublist_of` configs_of pushed ++ [m] /\
  queue `suffix_of` configs_of pushed ++ [m] /\
  len queue <= STREAM_CONFIG_SLOTS /\
  (len (configs_of pushed ++ [m]) <= STREAM_CONFIG_SLOTS -> configs_of got ++ queue = configs_of pushed ++ [m]).
Proof.
  intros [C W B A _ _ _ _ _]. cbn zeta. destruct (make_room_spec _ B) as (S' & L & E).
  split_and!.
  - rewrite app_assoc. apply sublist_app; [|done]. etrans; [|exact C].
    apply sublist_app; [done|by apply suffix_sublist].
  - apply suffix_snoc. by etrans.
  - rewrite len_app, len_cons, len_nil. lia.
  - rewrite len_app, len_cons, len_nil. intros F. apply suffix_length in W. unfold len in *.
    rewrite E, app_assoc by lia. f_equal. apply A. lia.
Qed.

Lemma events_push_inv pushed got s e :
  events_inv pushed got s -> events_inv (pushed ++ [e]) got (events_push s e).
Proof.
  intros I. pose proof I as [C W B A T LT E LE P].
  destruct e as [[ | | |text|m| | |]|e]; try (split; one_event; done).
  - split; one_event; try done; [by eapply sublist_replace|by rewrite last_snoc_option, last_snoc].
  - destruct (config_pushed _ _ _ m I) as (C' & W' & B' & A'). by split; one_event.
  - split; one_event; try done; [by eapply sublist_replace|by rewrite last_snoc_option, last_snoc].
Qed.

Lemma events_take_inv pushed got s :
  events_inv pushed got s ->
  events_inv pushed (got ++ option_list (events_take s).1) (events_take s).2.
Proof.
  intros [C W B A T LT E LE P]. destruct s as [[text|] [] [|m q] [e|] closed]; cbn in *;
    split; one_event; cbn [option_list]; rewrite ?app_nil_r in *; rewrite <- ?app_assoc; try done;
    try (by rewrite P || by rewrite orb_true_r in P).
  all: try (destruct W as [k ->]; exists (k ++ [m]); by rewrite <- app_assoc).
  all: try (rewrite ?len_cons in *; lia).
  all: by rewrite orb_false_r in P.
Qed.

(** What is still to be received, in the order of [take]. *)
Definition pending_of (s : EventSlots) : list RuntimeEvent :=
  option_list ((fun text => Ok (EV_Clipboard text)) <$> es_clipboard s) ++
  (if es_ping s then [Ok EV_Ping] else []) ++
  map (fun m => Ok (EV_StreamConfig m)) (es_stream_config s) ++ option_list (Err <$> es_error s).

Lemma pending_take s :
  pending_of s = option_list (events_take s).1 ++ pending_of (events_take s).2 /\
  (pending_of s = [] <-> (events_take s).1 = None) /\ es_closed (events_take s).2 = es_closed s.
Proof. by destruct s as [[text|] [] [|m q] [e|] closed]. Qed.
Lemma pending_nil s : pending_of s = [] -> (events_take s).2 = s.
Proof. by destruct s as [[text|] [] [|m q] [e|] closed]. Qed.
Lemma pending_empty s : pending_of s = [] -> s = mkEventSlots None false [] None (es_closed s).
Proof. by destruct s as [[text|] [] [|m q] [e|] closed]. Qed.

(** A receive either waits, or is a [take]. *)
Lemma events_result_take empty s :
  events_result empty s =
  (default (Err (if es_closed s then VE_Disconnected else empty)) (Ok <$> (events_take s).1), (events_take s).2).
Proof.
  unfold events_result. destruct (pending_take s) as (_ & _ & C).
  destruct (events_take s) as [[e|] s'] eqn:E; [done|]. cbn in *. by rewrite C.
Qed.

Lemma events_op_take s op :
  match op with EO_Push _ | EO_Close => False | _ => True end ->
  events_op s op = ([], s) \/ events_op s op = (option_list (events_take s).1, (events_take s).2).
Proof.
  assert (R : forall empty, received (Some (events_result empty s).1) = option_list (events_take s).1
    /\ (events_result empty s).2 = (events_take s).2).
  { intros empty. rewrite events_result_take. by destruct (events_take s).1. }
  destruct op as [e| |timed_out| |]; try done; intros _; cbn [events_op];
    unfold events_try_recv, events_recv_timeout, events_recv; repeat case_if; try (by left); right.
  - destruct (R VE_Empty) as [R1 R2]. destruct (events_result VE_Empty s). by rewrite <- R1, <- R2.
  - destruct (R VE_Timeout) as [R1 R2]. destruct (events_result VE_Timeout s). by rewrite <- R1, <- R2.
  - destruct (R VE_Disconnected) as [R1 R2]. destruct (events_result VE_Disconnected s). by rewrite <- R1, <- R2.
Qed.

Lemma events_op_inv pushed got s op events s' :
  events_inv pushed got s -> events_op s op = (events, s') ->
  events_inv (pushed ++ pushed_of [op]) (got ++ events) s'.
Proof.
  intros I E.
  assert (D : (exists e, op = EO_Push e) \/ op = EO_Close \/ match op with EO_Push _ | EO_Close => False | _ => True end)
    by (destruct op; eauto).
  destruct D as [[e ->]|[-> |T]].
  - injection E as <- <-. rewrite app_nil_r. by apply events_push_inv.
  - injection E as <- <-. cbn. rewrite !app_nil_r. by destruct I.
  - assert (pushed_of [op] = []) as -> by (by destruct op). rewrite app_nil_r.
    destruct (events_op_take s op T) as [E'|E']; rewrite E' in E; injection E as <- <-.
    + by rewrite app_nil_r.
    + by apply events_take_inv.
Qed.

Lemma events_ops_inv ops pushed got s events s' :
  events_inv pushed got s -> events_ops s ops = (events, s') ->
  events_inv (pushed ++ pushed_of ops) (got ++ events) s'.
Proof.
  revert pushed got s events s'. induction ops as [|op ops IH]; cbn [events_ops]; intros pushed got s events s' I E.
  - injection E as <- <-. by rewrite !app_nil_r.
  - destruct (events_op s op) as [e1 s1] eqn:E1, (events_ops s1 ops) as [e2 s2] eqn:E2. injection E as <- <-.
    rewrite app_assoc. replace (pushed ++ pushed_of (op :: ops)) with ((pushed ++ pushed_of [op]) ++ pushed_of ops).
    + eapply IH; [|exact E2]. by eapply events_op_inv.
    + rewrite <- app_assoc. f_equal. by destruct op.
Qed.

(** Once closed, the slots are drained by as many receives as events are waiting. *)
Lemma events_drain n s :
  es_closed s = true -> length (pending_of s) = n ->
  events_ops s (repeat EO_Recv n) = (pending_of s, mkEventSlots None false [] None true).
Proof.
  revert s. induction n as [|n IH]; intros s C L.
  - apply nil_length_inv in L. cbn. rewrite L. by rewrite (pending_empty _ L), C.
  - destruct (pending_take s) as (P & Z & C'). cbn [repeat events_ops events_op]. unfold events_recv.
    rewrite C, andb_false_r, events_result_take. destruct (events_take s) as [[e|] s1] eqn:T; cbn in *.
    + rewrite (IH s1), P; [done|congruence|]. rewrite P in L. cbn in L. lia.
    + destruct Z as [_ Z]. by rewrite (Z eq_refl) in L.
Qed.

Lemma configs_of_map q : configs_of (map (fun m => Ok (EV_StreamConfig m)) q) = q.
Proof. induction q as [|m q IH]; [done|]. cbn. by f_equal. Qed.
Lemma others_of_map q :
  texts_of (map (fun m => Ok (EV_StreamConfig m)) q) = [] /\
  errors_of (map (fun m => Ok (EV_StreamConfig m)) q) = [] /\
  pinged (map (fun m => Ok (EV_StreamConfig m)) q) = false.
Proof. by induction q as [|m q IH]. Qed.
Lemma pending_parts s :
  configs_of (pending_of s) = es_stream_config s /\ texts_of (pending_of s) = option_list (es_clipboard s) /\
  errors_of (pending_of s) = option_list (es_error s) /\ pinged (pending_of s) = es_ping s.
Proof.
  unfold pending_of. rewrite !configs_of_app, !texts_of_app, !errors_of_app, !pinged_app, configs_of_map.
  destruct (others_of_map (es_stream_config s)) as (-> & -> & ->).
  destruct s as [[text|] [] q [e|] closed]; cbn; by rewrite ?app_nil_r.
Qed.

(** C21: nothing the consumer of the runtime has to know is lost in the slots, in
    whatever way pushes and receives interleave.  Of what was received and what is
    still waiting together: the stream configuration messages are those pushed, in
    their order and none twice, all of them unless more than sixteen were pushed,
    and what waits is the newest; the last clipboard text, the last error and a
    ping are there if there was any.  At most nineteen events wait; once the
    producer has closed the slots no receive blocks, each gets the next of them,
    and then the end. *)
Theorem runtime_events_delivered ops :
  let (got, s) := events_ops EventSlots_default ops in
  let pushed := pushed_of ops in
  let all := got ++ pending_of s in
  configs_of all `sublist_of` configs_of pushed /\
  configs_of (pending_of s) `suffix_of` configs_of pushed /\
  (len (configs_of pushed) <= STREAM_CONFIG_SLOTS -> configs_of all = configs_of pushed) /\
  texts_of all `sublist_of` texts_of pushed /\ last (texts_of all) = last (texts_of pushed) /\
  errors_of all `sublist_of` errors_of pushed /\ last (errors_of all) = last (errors_of pushed) /\
  pinged all = pinged pushed /\
  len (pending_of s) <= 19 /\
  (let (drained, s') := events_ops (events_close s) (repeat EO_Recv (length (pending_of s))) in
   drained = pending_of s /\ (events_recv s').1 = Some (Err VE_Disconnected)).
Proof.
  destruct (events_ops EventSlots_default ops) as [got s] eqn:E. cbn zeta.
  assert (I : events_inv (pushed_of ops) got s).
  { apply (events_ops_inv ops [] [] EventSlots_default); [|exact E]. by split. }
  destruct I as [C W B A T LT Er LE P]. destruct (pending_parts s) as (Pc & Pt & Pe & Pp).
  rewrite configs_of_app, texts_of_app, errors_of_app, pinged_app, Pc, Pt, Pe, Pp.
  split_and!; try done.
  - unfold pending_of, STREAM_CONFIG_SLOTS, len in *. rewrite !length_app, length_map.
    destruct (es_clipboard s), (es_ping s), (es_error s); cbn; lia.
  - rewrite (events_drain (length (pending_of s)) (events_close s) eq_refl eq_refl).
    split; reflexivity.
Qed.
