(* ===== verification/ClientConnect.v ===== *)
(** * The client's connection

    [clients/rust/maho-app/src/session.rs]: [pair_with_pin_as], [reconnect],
    [connect_with_pairing], [connect_with_psk], [begin_handshake_with_trust],
    [open_relay_fallback], [send_packet], [read_tcp_packet], [send_udp],
    [disconnect].  The session is the [ClientSession] of that file with the rest
    of the fields of the code's ([Client]).  Each answer of the outside -- the
    resolver, the sockets, the TLS stack, the store, a random salt, and whether
    another thread has set or cleared the cancellation flag -- is a function of a
    counter of the questions asked, so nothing is assumed of any two answers.
    The clock is part of the state: it never goes back, and a wait that ends with
    a timeout lasted at least that long.  What the client does is a log, newest
    first.  Other threads do nothing else to the session meanwhile. *)

From S2P Require Import Prelude Codec Packet Handshake Pairing Media Parity Control UdpGcm Admission Guests.
From S2P Require RelayProto.
From S2P Require Import Assembler AudioReassembler ReceiverStats ClipboardImage Transport ClientSession ClientStore ClientRuntime.

(** ** The configuration *)

Record SessionConfig : Type := mkSessionConfig {
  sc_host : rstring;
  sc_tcp_port : Z;
  sc_udp_port : Z;
  sc_client_name : rstring;
  sc_connect_timeout : Duration;
  sc_handshake_ack_timeout : Duration
}.
Definition DEFAULT_TCP_PORT : Z := 19730.
Definition DEFAULT_UDP_PORT : Z := 19731.
Definition CONNECT_TIMEOUT : Duration := from_secs 10.
Definition HANDSHAKE_ACK_TIMEOUT : Duration := from_secs 10.
Definition SessionConfig_direct (host client_name : rstring) : SessionConfig :=
  mkSessionConfig host DEFAULT_TCP_PORT DEFAULT_UDP_PORT client_name CONNECT_TIMEOUT HANDSHAKE_ACK_TIMEOUT.

Definition implemented_capabilities : Capabilities :=
  fold_right Capabilities_bitor Capabilities_empty
    [CAP_STREAM_CONFIGURATION; CAP_TEXT_CLIPBOARD_SYNC; CAP_AUTHENTICATED_UDP_REGISTRATION; CAP_STREAM_OPTIONS;
     CAP_HOST_STATUS; CAP_SESSION_ENDED; CAP_GUEST_PERMISSIONS; CAP_SECURE_ATTENTION; CAP_RTT_PROBE;
     CAP_CLIPBOARD_IMAGE; CAP_PAIRING_TRUST].

(** ** The outside *)

(** What [connected_rx.recv_timeout] returns. *)
Inductive ConnectAnswer : Type :=
| CA_Result (r : result IoErrorKind unit)
| CA_Timeout
| CA_Disconnected.

Abbreviation Endpoint := (rstring * Z * Z)%type (only parsing).

(** A step of another thread: the one that reads TCP handles a frame, the answer to
    a packet it writes meanwhile being [written], or meets an error; a method of the
    session is called; the session is interrupted.  [shutdown] is the error of
    shutting down the socket, when the step ends the thread. *)
Inductive ThreadStep : Type :=
| TS_Frame (frame : list byte) (now : Instant) (unix_ms : Z) (written : result TlsPskError unit)
    (shutdown : option IoErrorKind)
| TS_Error (e : ConnectError) (shutdown : option IoErrorKind)
| TS_Session (o : ClientOp) (unix_ms : Z) (accepts : bool)
| TS_Interrupt.

Record ClientEnv : Type := mkClientEnv {
  ev_hkdf : list byte -> list byte -> list byte -> Z -> list byte;
  ev_encrypt : list byte -> list byte -> list byte -> list byte -> option (list byte * list byte);
  ev_bootstrap_psk : rstring -> result TlsPskError (list byte);
  ev_elapse : nat -> Duration;                    (* the time that passes before an answer *)
  ev_unix_ms : nat -> Z;
  ev_cancelled : nat -> option bool;              (* stored in the flag by another thread *)
  ev_resolve : nat -> rstring -> Z -> result IoErrorKind (list SocketAddr);
  ev_socket : nat -> result IoErrorKind unit;     (* a call on a socket, or of a thread *)
  ev_connected : nat -> ConnectAnswer;
  ev_tls_client : nat -> result TlsPskError unit; (* TlsPskClient::new *)
  ev_tls : nat -> PskIdentity -> result TlsPskError unit;
  ev_salt : nat -> list byte;
  ev_write_frame : nat -> result TlsPskError unit;
  ev_queue_frame : nat -> result TlsPskError unit;
  ev_flush : nat -> result TlsPskError unit;
  ev_read_frame : nat -> result TlsPskError (list byte);
  ev_load : nat -> result StoreError (list PairingRecord);
  ev_save : nat -> result StoreError unit;
  ev_udp_cancelled : nat -> bool;                 (* the UDP transport is cancelled by another thread *)
  ev_udp_receive : nat -> result IoErrorKind (list byte);
  ev_decrypt : list byte -> list byte -> list byte -> list byte -> option (list byte);
  ev_decodes : list byte -> bool;
  ev_relay_secret : nat -> option rstring;
  ev_relay_bridge : nat -> option Endpoint;
  ev_threads : nat -> list ThreadStep;            (* what other threads do during a wait *)
  ev_stopped : nat -> bool;                       (* the runtime was told to stop *)
  ev_woken : nat -> bool                          (* a sleep was cut short *)
}.

(** ** The state *)

Inductive ReconnectState : Type :=
| RC_Idle
| RC_Reconnecting (attempt : Z) (next_retry_ms : Z)
| RC_Reconnected
| RC_GaveUp (reason : ConnectError).

Inductive Effect : Type :=
| LX_Connected (address : SocketAddr)
| LX_Tls (psk : PskIdentity)
| LX_Sent (packet_type : PacketType) (payload : list byte)
| LX_Received (packet_type : PacketType) (payload : list byte)
| LX_Saved (record : PairingRecord)
| LX_Datagram (datagram : list byte)
| LX_Interrupted
| LX_Attempt (attempt : Z) (at_ : Instant).

(** The socket itself is the environment. *)
Record UdpTransport : Type := mkUdpTransport { ut_cancel : bool; ut_timeout : option Duration }.

(** The fields of the code's session that [ClientSession] leaves out: [co_tcp],
    [co_owner] say whether [tcp] and [tcp_runtime] are set, and
    [co_relay] whether the bridge to the relay runs.  [co_events] are the events
    of the thread that reads TCP, [co_output] those the runtime hands on. *)
Record Client : Type := mkClient {
  co_session : ClientSession;
  co_pairing : option PairingRecord;
  co_session_salt : option (list byte);
  co_pairing_trust : option PairingTrust;
  co_reconnect : ReconnectState;
  co_tcp : bool;
  co_interrupt_socket : bool;
  co_owner : bool;
  co_udp : option UdpTransport;
  co_udp_send : option DatagramCipher;
  co_next_udp_sequence : Z;
  co_registration_attempts : Z;
  co_relay_endpoint : option Endpoint;
  co_relay : bool;
  co_events : EventSlots;
  co_output : EventSlots;
  co_now : Instant;
  co_log : list Effect;
  co_asked : nat
}.

(** Assignment to one field. *)
Definition set_co_session (x : ClientSession) (c : Client) : Client :=
  mkClient x (co_pairing c) (co_session_salt c) (co_pairing_trust c) (co_reconnect c) (co_tcp c)
    (co_interrupt_socket c) (co_owner c) (co_udp c) (co_udp_send c) (co_next_udp_sequence c)
    (co_registration_attempts c) (co_relay_endpoint c) (co_relay c) (co_events c) (co_output c) (co_now
    c) (co_log c) (co_asked c).
Definition set_co_pairing (x : option PairingRecord) (c : Client) : Client :=
  mkClient (co_session c) x (co_session_salt c) (co_pairing_trust c) (co_reconnect c) (co_tcp c)
    (co_interrupt_socket c) (co_owner c) (co_udp c) (co_udp_send c) (co_next_udp_sequence c)
    (co_registration_attempts c) (co_relay_endpoint c) (co_relay c) (co_events c) (co_output c) (co_now
    c) (co_log c) (co_asked c).
Definition set_co_session_salt (x : option (list byte)) (c : Client) : Client :=
  mkClient (co_session c) (co_pairing c) x (co_pairing_trust c) (co_reconnect c) (co_tcp c)
    (co_interrupt_socket c) (co_owner c) (co_udp c) (co_udp_send c) (co_next_udp_sequence c)
    (co_registration_attempts c) (co_relay_endpoint c) (co_relay c) (co_events c) (co_output c) (co_now
    c) (co_log c) (co_asked c).
Definition set_co_pairing_trust (x : option PairingTrust) (c : Client) : Client :=
  mkClient (co_session c) (co_pairing c) (co_session_salt c) x (co_reconnect c) (co_tcp c)
    (co_interrupt_socket c) (co_owner c) (co_udp c) (co_udp_send c) (co_next_udp_sequence c)
    (co_registration_attempts c) (co_relay_endpoint c) (co_relay c) (co_events c) (co_output c) (co_now
    c) (co_log c) (co_asked c).
Definition set_co_reconnect (x : ReconnectState) (c : Client) : Client :=
  mkClient (co_session c) (co_pairing c) (co_session_salt c) (co_pairing_trust c) x (co_tcp c)
    (co_interrupt_socket c) (co_owner c) (co_udp c) (co_udp_send c) (co_next_udp_sequence c)
    (co_registration_attempts c) (co_relay_endpoint c) (co_relay c) (co_events c) (co_output c) (co_now
    c) (co_log c) (co_asked c).
Definition set_co_tcp (x : bool) (c : Client) : Client :=
  mkClient (co_session c) (co_pairing c) (co_session_salt c) (co_pairing_trust c) (co_reconnect c) x
    (co_interrupt_socket c) (co_owner c) (co_udp c) (co_udp_send c) (co_next_udp_sequence c)
    (co_registration_attempts c) (co_relay_endpoint c) (co_relay c) (co_events c) (co_output c) (co_now
    c) (co_log c) (co_asked c).
Definition set_co_interrupt_socket (x : bool) (c : Client) : Client :=
  mkClient (co_session c) (co_pairing c) (co_session_salt c) (co_pairing_trust c) (co_reconnect c)
    (co_tcp c) x (co_owner c) (co_udp c) (co_udp_send c) (co_next_udp_sequence c)
    (co_registration_attempts c) (co_relay_endpoint c) (co_relay c) (co_events c) (co_output c) (co_now
    c) (co_log c) (co_asked c).
Definition set_co_owner (x : bool) (c : Client) : Client :=
  mkClient (co_session c) (co_pairing c) (co_session_salt c) (co_pairing_trust c) (co_reconnect c)
    (co_tcp c) (co_interrupt_socket c) x (co_udp c) (co_udp_send c) (co_next_udp_sequence c)
    (co_registration_attempts c) (co_relay_endpoint c) (co_relay c) (co_events c) (co_output c) (co_now
    c) (co_log c) (co_asked c).
Definition set_co_udp (x : option UdpTransport) (c : Client) : Client :=
  mkClient (co_session c) (co_pairing c) (co_session_salt c) (co_pairing_trust c) (co_reconnect c)
    (co_tcp c) (co_interrupt_socket c) (co_owner c) x (co_udp_send c) (co_next_udp_sequence c)
    (co_registration_attempts c) (co_relay_endpoint c) (co_relay c) (co_events c) (co_output c) (co_now
    c) (co_log c) (co_asked c).
Definition set_co_udp_send (x : option DatagramCipher) (c : Client) : Client :=
  mkClient (co_session c) (co_pairing c) (co_session_salt c) (co_pairing_trust c) (co_reconnect c)
    (co_tcp c) (co_interrupt_socket c) (co_owner c) (co_udp c) x (co_next_udp_sequence c)
    (co_registration_attempts c) (co_relay_endpoint c) (co_relay c) (co_events c) (co_output c) (co_now
    c) (co_log c) (co_asked c).
Definition set_co_next_udp_sequence (x : Z) (c : Client) : Client :=
  mkClient (co_session c) (co_pairing c) (co_session_salt c) (co_pairing_trust c) (co_reconnect c)
    (co_tcp c) (co_interrupt_socket c) (co_owner c) (co_udp c) (co_udp_send c) x
    (co_registration_attempts c) (co_relay_endpoint c) (co_relay c) (co_events c) (co_output c) (co_now
    c) (co_log c) (co_asked c).
Definition set_co_registration_attempts (x : Z) (c : Client) : Client :=
  mkClient (co_session c) (co_pairing c) (co_session_salt c) (co_pairing_trust c) (co_reconnect c)
    (co_tcp c) (co_interrupt_socket c) (co_owner c) (co_udp c) (co_udp_send c) (co_next_udp_sequence c) x
    (co_relay_endpoint c) (co_relay c) (co_events c) (co_output c) (co_now c) (co_log c) (co_asked c).
Definition set_co_relay_endpoint (x : option Endpoint) (c : Client) : Client :=
  mkClient (co_session c) (co_pairing c) (co_session_salt c) (co_pairing_trust c) (co_reconnect c)
    (co_tcp c) (co_interrupt_socket c) (co_owner c) (co_udp c) (co_udp_send c) (co_next_udp_sequence c)
    (co_registration_attempts c) x (co_relay c) (co_events c) (co_output c) (co_now c) (co_log c)
    (co_asked c).
Definition set_co_relay (x : bool) (c : Client) : Client :=
  mkClient (co_session c) (co_pairing c) (co_session_salt c) (co_pairing_trust c) (co_reconnect c)
    (co_tcp c) (co_interrupt_socket c) (co_owner c) (co_udp c) (co_udp_send c) (co_next_udp_sequence c)
    (co_registration_attempts c) (co_relay_endpoint c) x (co_events c) (co_output c) (co_now c) (co_log
    c) (co_asked c).
Definition set_co_events (x : EventSlots) (c : Client) : Client :=
  mkClient (co_session c) (co_pairing c) (co_session_salt c) (co_pairing_trust c) (co_reconnect c)
    (co_tcp c) (co_interrupt_socket c) (co_owner c) (co_udp c) (co_udp_send c) (co_next_udp_sequence c)
    (co_registration_attempts c) (co_relay_endpoint c) (co_relay c) x (co_output c) (co_now c) (co_log c)
    (co_asked c).
Definition set_co_output (x : EventSlots) (c : Client) : Client :=
  mkClient (co_session c) (co_pairing c) (co_session_salt c) (co_pairing_trust c) (co_reconnect c)
    (co_tcp c) (co_interrupt_socket c) (co_owner c) (co_udp c) (co_udp_send c) (co_next_udp_sequence c)
    (co_registration_attempts c) (co_relay_endpoint c) (co_relay c) (co_events c) x (co_now c) (co_log c)
    (co_asked c).
Definition set_co_now (x : Instant) (c : Client) : Client :=
  mkClient (co_session c) (co_pairing c) (co_session_salt c) (co_pairing_trust c) (co_reconnect c)
    (co_tcp c) (co_interrupt_socket c) (co_owner c) (co_udp c) (co_udp_send c) (co_next_udp_sequence c)
    (co_registration_attempts c) (co_relay_endpoint c) (co_relay c) (co_events c) (co_output c) x (co_log
    c) (co_asked c).
Definition set_co_log (x : list Effect) (c : Client) : Client :=
  mkClient (co_session c) (co_pairing c) (co_session_salt c) (co_pairing_trust c) (co_reconnect c)
    (co_tcp c) (co_interrupt_socket c) (co_owner c) (co_udp c) (co_udp_send c) (co_next_udp_sequence c)
    (co_registration_attempts c) (co_relay_endpoint c) (co_relay c) (co_events c) (co_output c) (co_now
    c) x (co_asked c).
Definition set_co_asked (x : nat) (c : Client) : Client :=
  mkClient (co_session c) (co_pairing c) (co_session_salt c) (co_pairing_trust c) (co_reconnect c)
    (co_tcp c) (co_interrupt_socket c) (co_owner c) (co_udp c) (co_udp_send c) (co_next_udp_sequence c)
    (co_registration_attempts c) (co_relay_endpoint c) (co_relay c) (co_events c) (co_output c) (co_now
    c) (co_log c) x.

(** ** Operations as a monad

    An operation returns a value or an error ([?]), or nothing: its fuel ran out. *)

Definition op (A : Type) : Type := Client -> option (result ConnectError A) * Client.

#[export] Instance op_ret : MRet op := fun A a c => (Some (Ok a), c).
Definition op_bind {A B} (m : op A) (f : A -> op B) : op B := fun c =>
  match m c with
  | (Some (Ok a), c) => f a c
  | (Some (Err e), c) => (Some (Err e), c)
  | (None, c) => (None, c)
  end.
Declare Scope op_scope.
Notation "x ← m ; k" := (op_bind m (fun x : _ => k)) : op_scope.
Local Open Scope op_scope.

Definition fail {A} (e : ConnectError) : op A := fun c => (Some (Err e), c).
Definition out_of_fuel {A} : op A := fun c => (None, c).
Definition get {A} (f : Client -> A) : op A := fun c => (Some (Ok (f c)), c).
Definition put (f : Client -> Client) : op unit := fun c => (Some (Ok tt), f c).
Definition emit (e : Effect) : op unit := put (fun c => set_co_log (e :: co_log c) c).
Definition lift {E A} (f : E -> ConnectError) (r : result E A) : op A :=
  match r with Ok a => mret a | Err e => fail (f e) end.
Definition when (b : bool) (m : op unit) : op unit := if b then m else mret tt.

(** The [Result] of an operation, looked at. *)
Definition attempt {A} (m : op A) : op (result ConnectError A) := fun c =>
  match m c with (Some r, c) => (Some (Ok r), c) | (None, c) => (None, c) end.
Definition of_result {A} (r : result ConnectError A) : op A := fun c => (Some r, c).

Definition pass (d : Duration) : op unit := put (fun c => set_co_now (co_now c + Z.max 0 d) c).

Definition set_session (f : ClientSession -> ClientSession) (c : Client) : Client :=
  set_co_session (f (co_session c)) c.
Definition set_client_inner (f : SessionStateInner -> SessionStateInner) : Client -> Client :=
  set_session (fun s => set_inner s (f (cl_state s))).
Definition set_flag (cancelled : bool) (s : ClientSession) : ClientSession :=
  mkClientSession (cl_capabilities s) (cl_state s) (cl_last_input_ack s) cancelled (cl_image_sequence s)
    (cl_udp_receive s) (cl_udp_registered s) (cl_tcp_sent s).
Definition set_server (i : SessionStateInner) (server : Handshake) : SessionStateInner :=
  mkInner (in_state i) (in_next_tcp_sequence i) (Some server) (in_frames i) (in_receiver i) (in_audio i)
    (in_cursor i) (in_stream_state i) (in_parity i).
Definition session_state (c : Client) : SessionState := in_state (cl_state (co_session c)).
Definition session_info (c : Client) : SessionInfo := pas_info (in_parity (cl_state (co_session c))).
Definition put_state (st : SessionState) : op unit := put (set_client_inner (fun i => set_state i st)).

Definition set_ended (reason : option SessionEndReason) (i : SessionStateInner) : SessionStateInner :=
  let info := pas_info (in_parity i) in
  set_parity i (set_info (in_parity i)
    (mkSessionInfo (si_host_status info) (si_permissions info) reason (si_secure_attention_response info))).

Section Connection.

Context (env : ClientEnv).

Definition ask {A} (answer : nat -> A) : op A := fun c =>
  (Some (Ok (answer (co_asked c))),
   set_co_asked (S (co_asked c)) (set_co_now (co_now c + Z.max 0 (ev_elapse env (co_asked c))) c)).

(** [Instant::now()] *)
Definition clock : op Instant := _ ← ask (fun _ => tt); get co_now.
Definition io : op unit := r ← ask (ev_socket env); lift XE_Io r.

(** [self.cancelled.load()] *)
Definition is_cancelled : op bool :=
  stored ← ask (ev_cancelled env);
  _ ← match stored with Some b => put (set_session (set_flag b)) | None => mret tt end;
  get (fun c => cl_cancelled (co_session c)).
Definition check_cancelled : op unit :=
  cancelled ← is_cancelled; if cancelled then fail XE_Cancelled else mret tt.

(** [self.interrupt()]: the flag, the socket is shut down, UDP is cancelled. *)
Definition interrupt_session : op unit :=
  _ ← put (set_session interrupt);
  _ ← put (fun c => set_co_udp ((fun u => mkUdpTransport true (ut_timeout u)) <$> co_udp c) c);
  emit LX_Interrupted.

Definition resolve_one (host : rstring) (port : Z) : op SocketAddr :=
  addresses ← ask (fun n => ev_resolve env n host port);
  addresses ← lift XE_Io addresses;
  match addresses with address :: _ => mret address | [] => fail XE_NoAddress end.

(** *** The relay *)

Definition stop_relay_bridge : op unit :=
  _ ← put (set_co_relay false);
  put (set_co_relay_endpoint None).

Definition relay_host_id (pairing : PairingRecord) : rstring :=
  default (take 128 (List.filter RelayProto.is_id_byte (pr_name pairing))) (pr_relay_host_id pairing).

Definition open_relay_fallback (pairing : PairingRecord) : op (option Endpoint) :=
  match pr_relay_url pairing with
  | None => mret None
  | Some _ =>
    secret ← ask (ev_relay_secret env);
    match secret with
    | None => mret None
    | Some _ =>
      if len (relay_host_id pairing) =? 0 then mret None else
      _ ← stop_relay_bridge;
      _ ← put (set_co_relay true);
      spawned ← ask (ev_socket env);
      match spawned with
      | Err _ => mret None
      | Ok _ =>
        endpoint ← ask (ev_relay_bridge env);
        match endpoint with
        | None => _ ← stop_relay_bridge; mret None
        | Some endpoint => mret (Some endpoint)
        end
      end
    end
  end.

(** *** The TCP connection *)

(** What [connect_with_psk] resets; the audio reassembler is kept. *)
Definition reset_for_connect (i : SessionStateInner) : SessionStateInner :=
  let p := in_parity i in
  let info := pas_info p in
  let p := mkParityState (mkSessionInfo None None (si_ended info) (si_secure_attention_response info))
    (pas_rtt p) None None (pas_next_sas p) ImageAssembly_default (pas_clipboard_enabled p)
    (pas_completed_image p) in
  mkInner SS_Connecting (in_next_tcp_sequence i) (in_server i) (FrameAssembler_clear (in_frames i))
    ReceiverStats_default (in_audio i) (in_cursor i) (mkStreamState false None [] None None) p.

Definition CONNECT_SLICE : Duration := from_millis 25.

(** The loop around [connected_rx.recv_timeout]. *)
Fixpoint wait_connected (fuel : nat) (deadline : Instant) : op unit :=
  match fuel with
  | O => out_of_fuel
  | S fuel =>
    _ ← check_cancelled;
    now ← clock;
    let remaining := saturating_duration_since deadline now in
    if remaining =? 0 then fail (XE_Io EK_TimedOut) else
    answer ← ask (ev_connected env);
    match answer with
    | CA_Result r => lift XE_Io r
    | CA_Timeout => _ ← pass (Z.min remaining CONNECT_SLICE); wait_connected fuel deadline
    | CA_Disconnected => fail XE_TcpRuntimeStopped
    end
  end.
(** As many slices as the timeout has, and one for the last look at the clock. *)
Definition connect_fuel (timeout : Duration) : nat := S (S (Z.to_nat (timeout / CONNECT_SLICE))).

Definition tcp_address (config : SessionConfig) : op SocketAddr :=
  endpoint ← get co_relay_endpoint;
  match endpoint with
  | Some (host, tcp_port, _) => resolve_one host tcp_port
  | None => resolve_one (sc_host config) (sc_tcp_port config)
  end.
Definition udp_address (config : SessionConfig) : op SocketAddr :=
  endpoint ← get co_relay_endpoint;
  match endpoint with
  | Some (host, _, udp_port) => resolve_one host udp_port
  | None => resolve_one (sc_host config) (sc_udp_port config)
  end.

Definition tls_connect (psk : PskIdentity) : op unit :=
  client ← ask (ev_tls_client env);
  _ ← lift XE_Tls client;
  stream ← ask (fun n => ev_tls env n psk);
  match stream with
  | Ok _ => emit (LX_Tls psk)
  | Err e => _ ← check_cancelled; fail (XE_Tls e)
  end.

Definition connect_with_psk (config : SessionConfig) (psk : PskIdentity) (next_state : SessionState) : op unit :=
  owner ← get co_owner;
  if owner then fail XE_TcpRuntimeAlreadyRunning else
  _ ← check_cancelled;
  _ ← put (set_client_inner reset_for_connect);
  address ← tcp_address config;
  _ ← check_cancelled;
  now ← clock;
  _ ← io;                                        (* the connecting thread is spawned *)
  _ ← wait_connected (connect_fuel (sc_connect_timeout config)) (now + sc_connect_timeout config);
  _ ← emit (LX_Connected address);
  _ ← io; _ ← io; _ ← io;                        (* read timeout, write timeout, nodelay *)
  _ ← io;                                        (* try_clone *)
  _ ← put (set_co_interrupt_socket true);
  _ ← check_cancelled;
  _ ← tls_connect psk;
  _ ← check_cancelled;
  _ ← put (set_co_tcp true);
  put_state next_state.

(** *** Packets *)

(** What the TLS stream answers to a packet: without a runtime the packet is
    written; with one it is queued, and as much as possible is written. *)
Definition tcp_write : op (result TlsPskError unit) :=
  owner ← get co_owner;
  if owner then
    queued ← ask (ev_queue_frame env);
    match queued with
    | Err e => mret (Err e)
    | Ok _ =>
      flushed ← ask (ev_flush env);
      mret (match flushed with Err (TP_Io EK_WouldBlock) => Ok tt | r => r end)
    end
  else ask (ev_write_frame env).

(** Whether a packet is accepted now, and the error if it is not. *)
Definition tcp_answer : op (bool * ConnectError) :=
  tcp ← get co_tcp;
  if negb tcp then mret (false, XE_NotReady) else
  written ← tcp_write;
  mret (match written with Ok _ => (true, XE_NotReady) | Err e => (false, XE_Tls e) end).

(** A method of [ClientSession], which sends at most one packet. *)
Definition on_session {A}
    (f : (list (list byte) -> Z) -> (list (list byte) -> list byte -> bool) -> ClientSession ->
         result SessionError A * ClientSession) : op A :=
  unix_ms ← ask (ev_unix_ms env);
  answer ← tcp_answer;
  r ← (fun c => let '(r, s) := f (fun _ => unix_ms) (fun _ _ => answer.1) (co_session c) in
                (Some (Ok r), set_co_session s c));
  lift (of_session answer.2) r.

Definition send_packet (packet_type : PacketType) (payload : list byte) : op unit :=
  _ ← on_session (fun unix_ms accepts s => client_send_packet unix_ms accepts s packet_type payload);
  emit (LX_Sent packet_type payload).

Definition read_tcp_packet : op (PacketHeader * list byte) :=
  _ ← check_cancelled;
  tcp ← get co_tcp;
  if negb tcp then fail XE_NotReady else
  frame ← ask (ev_read_frame env);
  match frame with
  | Err e => _ ← check_cancelled; fail (XE_Tls e)
  | Ok frame =>
    _ ← check_cancelled;
    if len frame <? PACKET_HEADER_SIZE then fail (XE_Io EK_InvalidData) else
    header ← lift XE_Protocol (PacketHeader_decode (take 12 frame));
    _ ← emit (LX_Received (ph_packet_type header) (drop 12 frame));
    mret (header, drop 12 frame)
  end.

(** *** The handshake *)

(** The TLS read timed out while the acknowledgement was awaited. *)
Definition ack_error (e : ConnectError) : ConnectError :=
  match e with XE_Tls (TP_Io (EK_TimedOut | EK_WouldBlock)) => XE_HandshakeAckTimeout | e => e end.

Definition set_trust_of (pairing : PairingRecord) (trust : PairingTrust) : PairingRecord :=
  ClientStore.set_trust trust pairing.

Definition config_contains (capability : Capabilities) : op bool :=
  get (fun c => Capabilities_contains (cl_capabilities (co_session c)) capability).

(** The host's answer to the trust asked for. *)
Definition exchange_trust (server : Handshake) (pairing : PairingRecord) (preference : option PairingTrust)
    : op PairingRecord :=
  _ ← match preference with
      | Some trust =>
        payload ← lift XE_Protocol (ControlMessage_encode (CM_PairingTrustRequest (mkPairingTrustRequest trust)));
        send_packet PT_Control payload
      | None => mret tt
      end;
  packet ← read_tcp_packet;
  let '(header, payload) := packet in
  if negb (bool_decide (ph_packet_type header = PT_Control))
  then fail (XE_UnexpectedPacket PT_Control (ph_packet_type header)) else
  message ← lift XE_Protocol (ControlMessage_decode payload);
  match message with
  | CM_PairingTrustGrant grant => mret (set_trust_of pairing (ptg_trust grant))
  | CM_SessionEnded ended =>
    configured ← config_contains CAP_SESSION_ENDED;
    if Capabilities_contains (hs_capabilities server) CAP_SESSION_ENDED && configured then
      _ ← put (set_client_inner (set_ended (Some (se_reason ended))));
      _ ← interrupt_session;
      fail XE_PermissionDenied
    else fail XE_PermissionDenied
  | _ => fail XE_PermissionDenied
  end.

Definition store_load_all : op (list PairingRecord) := r ← ask (ev_load env); lift XE_PairingStore r.
Definition store_save (record : PairingRecord) : op unit :=
  r ← ask (ev_save env); _ ← lift XE_PairingStore r; emit (LX_Saved record).

(** What is persisted: nothing of a guest for once; a new pairing after the host
    has authorized it; of a stored one the trust the host has announced. *)
Definition persist (pairing : PairingRecord) (preference : option PairingTrust) (trust_negotiated : bool)
    : op unit :=
  if bool_decide (pr_trust pairing = PT_GuestOnce) then mret tt else
  match preference with
  | Some _ => store_save pairing
  | None =>
    if trust_negotiated then
      records ← store_load_all;
      match ClientStore.find_record (pr_id pairing) records with
      | Some stored =>
        if bool_decide (pr_trust stored = pr_trust pairing) then mret tt
        else store_save (set_trust_of stored (pr_trust pairing))
      | None => mret tt
      end
    else mret tt
  end.

Record ReadySession : Type := mkReadySession {
  rs_pairing : PairingRecord;
  rs_server : Handshake;
  rs_session_salt : list byte
}.

Definition UDP_READ_TIMEOUT : Duration := from_secs 6.

(** The UDP side: both ciphers, the socket, and a first registration. *)
Definition open_udp (config : SessionConfig) (pairing : PairingRecord) (salt : list byte)
    : op (DatagramCipher * DatagramCipher) :=
  key ← lift XE_PairingStore (key_array pairing);
  udp_send ← lift XE_Datagram (DatagramCipher_derive (ev_hkdf env) key salt ClientToHost);
  udp_receive ← lift XE_Datagram (DatagramCipher_derive (ev_hkdf env) key salt HostToClient);
  _ ← udp_address config;
  _ ← io; _ ← io; _ ← io;                        (* bind, connect, read timeout *)
  _ ← put (set_session (fun s => set_udp s (cl_udp_receive s) false));
  _ ← put (set_co_registration_attempts 0);
  unix_ms ← ask (ev_unix_ms env);
  let reg_header := mkPacketHeader PT_Ping 0 (unix_ms mod 4294967296) 0 in
  let '(reg_packet, udp_send) := seal_datagram (ev_encrypt env) udp_send reg_header [] in
  reg_packet ← lift XE_Datagram reg_packet;
  _ ← emit (LX_Datagram reg_packet);
  tcp ← get co_tcp;
  _ ← when tcp io;
  _ ← io;                                        (* UdpTransport::new *)
  mret (udp_send, udp_receive).

Definition client_handshake (config : SessionConfig) (pairing : PairingRecord) (capabilities : Capabilities)
    (salt : list byte) : Handshake :=
  mkHandshake (sc_client_name config) 0 0 0x3f800000 PROTOCOL_VERSION
    (Z.land capabilities implemented_capabilities) (pr_id pairing) salt.

(** The exchange of the two handshakes: what the host answered. *)
Definition exchange_handshake (config : SessionConfig) (pairing : PairingRecord) (salt : list byte)
    : op Handshake :=
  capabilities ← get (fun c => cl_capabilities (co_session c));
  _ ← put (set_co_pairing (Some pairing));
  _ ← put (set_co_session_salt (Some salt));
  _ ← put_state SS_AwaitingHandshakeAck;
  tcp ← get co_tcp;
  _ ← when tcp io;                               (* the read timeout *)
  payload ← lift XE_Protocol (Handshake_encode (client_handshake config pairing capabilities salt));
  _ ← send_packet PT_Handshake payload;
  packet ← attempt read_tcp_packet;
  packet ← of_result (match packet with Err e => Err (ack_error e) | r => r end);
  let '(header, payload) := packet in
  if negb (bool_decide (ph_packet_type header = PT_HandshakeAck))
  then fail (XE_UnexpectedPacket PT_HandshakeAck (ph_packet_type header)) else
  lift XE_Protocol (Handshake_decode payload).

(** The trust of the pairing, as negotiated. *)
Definition negotiate_trust (server : Handshake) (pairing : PairingRecord) (preference : option PairingTrust)
    (trust_negotiated : bool) : op PairingRecord :=
  if trust_negotiated then exchange_trust server pairing preference
  else if match preference with Some trust => negb (bool_decide (trust = PT_Owner)) | None => false end then
    _ ← interrupt_session; fail XE_Unsupported
  else mret pairing.

Definition begin_handshake_with_trust (config : SessionConfig) (pairing : PairingRecord)
    (preference : option PairingTrust) : op ReadySession :=
  salt ← ask (ev_salt env);
  server ← exchange_handshake config pairing salt;
  configured ← config_contains CAP_PAIRING_TRUST;
  let trust_negotiated := configured && Capabilities_contains (hs_capabilities server) CAP_PAIRING_TRUST in
  pairing ← negotiate_trust server pairing preference trust_negotiated;
  _ ← persist pairing preference trust_negotiated;
  _ ← put (set_co_pairing (Some pairing));
  _ ← put (set_co_pairing_trust (Some (pr_trust pairing)));
  if negb (Capabilities_contains (hs_capabilities server) CAP_AUTHENTICATED_UDP_REGISTRATION)
  then fail XE_MissingAuthenticatedRegistration else
  ciphers ← open_udp config pairing salt;
  let '(udp_send, udp_receive) := ciphers in
  _ ← put (set_co_udp (Some (mkUdpTransport false (Some UDP_READ_TIMEOUT))));
  _ ← put (set_co_udp_send (Some udp_send));
  _ ← put (set_session (fun s => set_udp s (Some udp_receive) (cl_udp_registered s)));
  options ← config_contains CAP_STREAM_OPTIONS;
  let supports := options && Capabilities_contains (hs_capabilities server) CAP_STREAM_OPTIONS in
  _ ← put (set_client_inner (fun i =>
    let t := in_stream_state i in
    set_server (set_stream i
      (mkStreamState supports (sts_active t) (sts_displays t) (sts_policy t) (sts_last_reject t))) server));
  _ ← put_state SS_Ready;
  mret (mkReadySession pairing server salt).

(** *** Connecting *)

Definition connect_with_pairing (config : SessionConfig) (pairing : PairingRecord) : op ReadySession :=
  _ ← check_cancelled;
  _ ← put (set_client_inner (set_ended None));
  psk ← lift (fun e => XE_Tls (TP_Identity e)) (PskIdentity_pairing (pr_id pairing) (pr_key pairing));
  _ ← put (set_co_relay_endpoint None);
  direct ← attempt (connect_with_psk config psk SS_AwaitingHandshakeAck);
  match direct with
  | Ok _ => begin_handshake_with_trust config pairing None
  | Err direct_error =>
    _ ← check_cancelled;
    endpoint ← open_relay_fallback pairing;
    match endpoint with
    | None => fail direct_error
    | Some endpoint =>
      _ ← put (set_co_relay_endpoint (Some endpoint));
      _ ← connect_with_psk config psk SS_AwaitingHandshakeAck;
      begin_handshake_with_trust config pairing None
    end
  end.

Definition reconnect (config : SessionConfig) (pairing_id : rstring) : op ReadySession :=
  records ← store_load_all;
  match ClientStore.find_record pairing_id records with
  | None => fail (XE_PairingNotFound pairing_id)
  | Some pairing => connect_with_pairing config pairing
  end.

Definition granted_record (grant : PairingGrant) (unix_ms : Z) : PairingRecord :=
  PairingRecord_new (pg_pairing_id grant) (pg_host_name grant) (pg_key grant) unix_ms.

(** The request for a pairing, and the record the host granted. *)
Definition request_pairing (config : SessionConfig) : op PairingRecord :=
  payload ← lift XE_Protocol (PairingRequest_encode (mkPairingRequest (sc_client_name config)));
  _ ← send_packet PT_PairingRequest payload;
  packet ← read_tcp_packet;
  let '(header, payload) := packet in
  match ph_packet_type header with
  | PT_PairingGrant =>
    grant ← lift XE_Protocol (PairingGrant_decode payload);
    unix_ms ← ask (ev_unix_ms env);
    mret (granted_record grant unix_ms)
  | PT_PairingReject =>
    reject ← lift XE_Protocol (PairingReject_decode payload);
    fail (XE_PairingRejected (prj_reason reject))
  | actual => fail (XE_UnexpectedPacket PT_PairingGrant actual)
  end.

Definition pair_with_pin_as (config : SessionConfig) (pin : rstring) (preference : PairingTrust)
    : op ReadySession :=
  _ ← put (set_client_inner (set_ended None));
  key ← lift XE_Tls (ev_bootstrap_psk env pin);
  _ ← connect_with_psk config (mkPskIdentity BOOTSTRAP_IDENTITY key) SS_AwaitingPairing;
  pairing ← request_pairing config;
  begin_handshake_with_trust config pairing (Some preference).
Definition pair_with_pin (config : SessionConfig) (pin : rstring) : op ReadySession :=
  pair_with_pin_as config pin PT_Owner.

(** *** UDP *)

Definition send_udp_registration : op unit :=
  udp ← get co_udp;
  cipher ← get co_udp_send;
  match udp, cipher with
  | Some _, Some cipher =>
    unix_ms ← ask (ev_unix_ms env);
    let reg_header := mkPacketHeader PT_Ping 0 (unix_ms mod 4294967296) 0 in
    let '(reg_packet, cipher) := seal_datagram (ev_encrypt env) cipher reg_header [] in
    _ ← put (set_co_udp_send (Some cipher));
    reg_packet ← lift XE_Datagram reg_packet;
    _ ← io;
    emit (LX_Datagram reg_packet)
  | _, _ => fail XE_NotReady
  end.

Definition send_udp (packet_type : PacketType) (payload : list byte) : op unit :=
  state ← get session_state;
  if negb (bool_decide (state = SS_Ready)) then fail XE_NotReady else
  _ ← put (fun c => set_co_next_udp_sequence (wrapping_add32 (co_next_udp_sequence c) 1) c);
  udp ← get co_udp;
  cipher ← get co_udp_send;
  sequence ← get co_next_udp_sequence;
  match udp, cipher with
  | Some _, Some cipher =>
    unix_ms ← ask (ev_unix_ms env);
    let '(datagram, cipher) :=
      seal_datagram (ev_encrypt env) cipher (mkPacketHeader packet_type sequence (unix_ms mod 4294967296) 0) payload in
    _ ← put (set_co_udp_send (Some cipher));
    datagram ← lift XE_Datagram datagram;
    _ ← io;
    emit (LX_Datagram datagram)
  | _, _ => fail XE_NotReady
  end.

Definition UDP_SLICE : Duration := from_millis 25.

(** [UdpTransport::receive]: reads of at most 25 ms until the deadline. *)
Fixpoint udp_receive (fuel : nat) (deadline : option Instant) : op (list byte) :=
  match fuel with
  | O => out_of_fuel
  | S fuel =>
    cancelled ← ask (ev_udp_cancelled env);
    _ ← when cancelled (put (fun c => set_co_udp ((fun u => mkUdpTransport true (ut_timeout u)) <$> co_udp c) c));
    cancelled ← get (fun c => match co_udp c with Some u => ut_cancel u | None => true end);
    if cancelled then fail XE_NotReady else
    slice ← match deadline with
            | None => mret UDP_SLICE
            | Some deadline =>
              now ← clock;
              let remaining := saturating_duration_since deadline now in
              if remaining =? 0 then fail (XE_Io EK_TimedOut) else mret (Z.min remaining UDP_SLICE)
            end;
    _ ← io;                                      (* set_read_timeout *)
    received ← ask (ev_udp_receive env);
    match received with
    | Ok datagram => mret datagram
    | Err (EK_WouldBlock | EK_TimedOut) => _ ← pass slice; udp_receive fuel deadline
    | Err kind => fail (XE_Io kind)
    end
  end.

Definition is_timeout (e : ConnectError) : bool :=
  match e with XE_Io (EK_TimedOut | EK_WouldBlock) => true | _ => false end.

(** [receive_udp_event_clock]. *)
Definition receive_udp_event_clock (fuel : nat) (at_ : option Instant) : op SessionEvent :=
  udp ← get co_udp;
  match udp with
  | None => fail XE_NotReady
  | Some udp =>
    deadline ← match ut_timeout udp with
               | Some timeout => now ← clock; mret (Some (now + timeout))
               | None => mret None
               end;
    received ← attempt (udp_receive fuel deadline);
    match received with
    | Err error =>
      registered ← get (fun c => cl_udp_registered (co_session c));
      _ ← when (is_timeout error && negb registered) (
        attempts ← get co_registration_attempts;
        _ ← put (set_co_registration_attempts (wrapping_add32 attempts 1));
        when (attempts <? 10) (_ ← attempt send_udp_registration; mret tt));
      fail error
    | Ok datagram =>
      received_at ← match at_ with Some at_ => mret at_ | None => clock end;
      now ← clock;
      on_session (fun unix_ms accepts s =>
        receive_udp_event (ev_decrypt env) (ev_decodes env) unix_ms accepts s datagram received_at now)
    end
  end.

(** *** Disconnecting *)

Definition clear_session (i : SessionStateInner) : SessionStateInner :=
  let p := drop_images (in_parity i) in
  mkInner SS_Disconnected (in_next_tcp_sequence i) (in_server i) (FrameAssembler_clear (in_frames i))
    ReceiverStats_default (audio_clear (in_audio i)) (in_cursor i) (in_stream_state i)
    (set_rtt p (pas_rtt p) None).

(** The socket is shut down; it may have been closed by the peer. *)
Definition shutdown_tcp : op unit :=
  tcp ← get co_tcp;
  _ ← put (set_co_tcp false);
  if tcp then
    r ← ask (ev_socket env);
    match r with Err EK_NotConnected => mret tt | r => lift XE_Io r end
  else mret tt.

Definition disconnect : op unit :=
  _ ← stop_relay_bridge;
  _ ← interrupt_session;
  trace_result ← ask (ev_socket env);
  _ ← put (set_client_inner clear_session);
  _ ← put (fun c => match co_pairing c with
                    | Some pairing => if bool_decide (pr_trust pairing = PT_GuestOnce)
                                      then set_co_pairing None c else c
                    | None => c
                    end);
  _ ← put (set_co_udp None);
  _ ← shutdown_tcp;
  _ ← put (set_co_udp_send None);
  _ ← put (set_session (fun s => set_udp s None (cl_udp_registered s)));
  lift XE_Io trace_result.

End Connection.
