(* ===== verification/ClientSafety.v ===== *)
(** * The client's connection: what holds of it

    Of every attempt to connect, whatever the network, the store and other threads
    do ([ClientConnect]): when it succeeds, what was exchanged
    ([client_ready_is_authenticated]); when it does not, what it leaves behind
    ([connect_returns_and_spares]); what is stored in a run
    ([only_authorized_pairings_stored]); and what [disconnect] leaves. *)

From S2P Require Import Prelude Codec Packet Handshake Pairing Media Parity Control UdpGcm Admission Guests.
From S2P Require RelayProto.
From S2P Require Import Assembler AudioReassembler ReceiverStats ClipboardImage Transport ClientSession ClientStore ClientRuntime.
From S2P Require Import ClientConnect.
Local Open Scope op_scope.

(** ** What an operation keeps

    [moves R m]: whatever [m] returns, the state afterwards is related to the one
    before.  A preorder is kept by a body when each of its statements keeps it. *)

Definition moves {A} (R : Client -> Client -> Prop) (m : op A) : Prop := forall c, R c (m c).2.

Section Moves.

Context (R : Client -> Client -> Prop) `{!PreOrder R}.

Lemma moves_same {A} (m : op A) : (forall c, (m c).2 = c) -> moves R m.
Proof. intros H c. by rewrite H. Qed.
Lemma moves_bind {A B} (m : op A) (f : A -> op B) : moves R m -> (forall a, moves R (f a)) -> moves R (op_bind m f).
Proof.
  intros M F c. specialize (M c). unfold op_bind.
  destruct (m c) as [[[a|e]|] c1]; cbn [fst snd] in *; [|done|done]. etrans; [exact M|apply F].
Qed.
Lemma moves_attempt {A} (m : op A) : moves R m -> moves R (attempt m).
Proof. intros M c. specialize (M c). unfold attempt. by destruct (m c) as [[r|] c1]. Qed.
Lemma moves_put f : (forall c, R c (f c)) -> moves R (put f).
Proof. intros H c. apply H. Qed.
Lemma moves_lift {E A} (f : E -> ConnectError) (r : result E A) : moves R (lift f r).
Proof. apply moves_same. by destruct r. Qed.
Lemma moves_when b m : moves R m -> moves R (when b m).
Proof. intros M. destruct b; [done|]. by apply moves_same. Qed.

End Moves.

Create HintDb moves.

(** Goes through a body, one statement at a time. *)
Ltac moves_step :=
  match goal with
  | |- moves _ (op_bind _ _) => apply moves_bind; [typeclasses eauto| |intros ?]
  | |- moves _ (attempt _) => apply moves_attempt
  | |- moves _ (when _ _) => apply moves_when; [typeclasses eauto|]
  | |- moves _ (lift _ _) => apply moves_lift; typeclasses eauto
  | |- moves _ _ => solve [eauto with moves typeclass_instances]
  | |- moves _ (put _) => apply moves_put; intros ?; try done
  | |- moves _ (if ?b then _ else _) => destruct b eqn:?
  | |- moves _ (match ?x with _ => _ end) => destruct x eqn:?
  | |- moves _ _ => apply moves_same; [typeclasses eauto|intros ?; done]
  end.
Ltac moving := repeat moves_step.

(** The fields a relation may speak of without knowing the clock, the counter of
    the questions and the cancellation flag: those a question can change. *)
Class AskStable (R : Client -> Client -> Prop) : Prop := {
  ask_stable_order :: PreOrder R;
  ask_stable_ask a n c : (co_asked c <= a)%nat -> co_now c <= n -> R c (set_co_asked a (set_co_now n c));
  ask_stable_flag b c : R c (set_session (set_flag b) c)
}.

Section Questions.

Context (env : ClientEnv) (R : Client -> Client -> Prop) `{!AskStable R}.

Lemma moves_ask {A} (f : nat -> A) : moves R (ask env f).
Proof. intros c. apply ask_stable_ask; cbn; lia. Qed.
Lemma moves_pass d : moves R (pass d).
Proof. intros c. apply (ask_stable_ask (co_asked c) (co_now c + Z.max 0 d) c); lia. Qed.
Hint Resolve moves_ask moves_pass : moves.
Lemma moves_clock : moves R (clock env).
Proof. unfold clock. moving. Qed.
Lemma moves_io : moves R (io env).
Proof. unfold io. moving. Qed.
Lemma moves_is_cancelled : moves R (is_cancelled env).
Proof. unfold is_cancelled. moving. apply ask_stable_flag. Qed.
Hint Resolve moves_clock moves_io moves_is_cancelled : moves.
Lemma moves_check : moves R (check_cancelled env).
Proof. unfold check_cancelled. moving. Qed.
Lemma moves_resolve host port : moves R (resolve_one env host port).
Proof. unfold resolve_one. moving. Qed.
Hint Resolve moves_check moves_resolve : moves.
Lemma moves_tcp_address config : moves R (tcp_address env config).
Proof. unfold tcp_address. moving. Qed.
Lemma moves_udp_address config : moves R (udp_address env config).
Proof. unfold udp_address. moving. Qed.
Lemma moves_wait fuel deadline : moves R (wait_connected env fuel deadline).
Proof. revert deadline. induction fuel as [|fuel IH]; intros; cbn [wait_connected]; moving. Qed.
Lemma moves_tcp_answer : moves R (tcp_answer env).
Proof. unfold tcp_answer, tcp_write. moving. Qed.
Lemma moves_load_all : moves R (store_load_all env).
Proof. unfold store_load_all. moving. Qed.

End Questions.

(** ** Quiet statements

    What is neither a new TLS connection nor a save leaves the connection, what was
    saved, and the configured capabilities as they are. *)

Definition plain (e : Effect) : Prop := match e with LX_Tls _ | LX_Saved _ => False | _ => True end.
Definition calm (c c' : Client) : Prop :=
  (exists l, co_log c' = l ++ co_log c /\ Forall plain l) /\
  cl_capabilities (co_session c') = cl_capabilities (co_session c).

#[local] Instance calm_stable : AskStable calm.
Proof.
  split.
  - split.
    + intros c. split; [by exists []|done].
    + intros c1 c2 c3 [(l & E & F) C] [(l' & E' & F') C']. split; [|by rewrite C'].
      exists (l' ++ l). rewrite E', E, app_assoc. by split; [|apply Forall_app_2].
  - intros. split; [by exists []|done].
  - intros. split; [by exists []|done].
Qed.

Lemma op_calm_emit e : plain e -> moves calm (emit e).
Proof. intros H c. split; [|done]. exists [e]. by repeat constructor. Qed.
Lemma op_calm_put f :
  (forall c, co_log (f c) = co_log c) ->
  (forall c, cl_capabilities (co_session (f c)) = cl_capabilities (co_session c)) -> moves calm (put f).
Proof. intros L C c. split; [exists []; by split; [apply L|]|apply C]. Qed.
Ltac op_calm_put := apply op_calm_put; intros ?; repeat case_match; done.

Lemma send_packet_capabilities unix_ms accepts s t payload :
  cl_capabilities (client_send_packet unix_ms accepts s t payload).2 = cl_capabilities s /\
  in_state (cl_state (client_send_packet unix_ms accepts s t payload).2) = in_state (cl_state s).
Proof. unfold client_send_packet. by repeat case_match. Qed.

Section Calm.

Context (env : ClientEnv).

#[local] Hint Resolve moves_ask moves_pass moves_clock moves_io moves_is_cancelled moves_check moves_resolve
  moves_tcp_address moves_udp_address moves_wait moves_tcp_answer moves_load_all : moves.
#[local] Hint Extern 1 (moves calm (put _)) => op_calm_put : moves.
#[local] Hint Extern 1 (moves calm (emit _)) => (apply op_calm_emit; done) : moves.

Lemma calm_interrupt : moves calm interrupt_session.
Proof. unfold interrupt_session. moving. Qed.
Lemma calm_stop_bridge : moves calm stop_relay_bridge.
Proof. unfold stop_relay_bridge. moving. Qed.
#[local] Hint Resolve calm_interrupt calm_stop_bridge : moves.
Lemma calm_relay pairing : moves calm (open_relay_fallback env pairing).
Proof. unfold open_relay_fallback. moving. Qed.
Lemma calm_send t payload : moves calm (send_packet env t payload).
Proof.
  unfold send_packet, on_session. moving. intros c.
  match goal with |- context [client_send_packet ?u ?a ?s t payload] =>
    pose proof (send_packet_capabilities u a s t payload) as [C _] end.
  case_match. cbn in *. split; [by exists []|done].
Qed.
#[local] Hint Resolve calm_relay calm_send : moves.
Lemma calm_read : moves calm (read_tcp_packet env).
Proof. unfold read_tcp_packet. moving. Qed.
#[local] Hint Resolve calm_read : moves.
Lemma calm_open_udp config pairing salt : moves calm (open_udp env config pairing salt).
Proof. unfold open_udp. moving. Qed.
Lemma calm_exchange_handshake config pairing salt : moves calm (exchange_handshake env config pairing salt).
Proof. unfold exchange_handshake, of_result. moving. Qed.
Lemma op_calm_negotiate server pairing preference b : moves calm (negotiate_trust env server pairing preference b).
Proof. unfold negotiate_trust, exchange_trust. moving. Qed.
Lemma calm_request config : moves calm (request_pairing env config).
Proof. unfold request_pairing. moving. Qed.

End Calm.

(** ** The connection in the log *)

(** The entries since the last TLS handshake, and its identity and key. *)
Fixpoint this_connection (log : list Effect) : list Effect :=
  match log with
  | [] | LX_Tls _ :: _ => []
  | e :: log => e :: this_connection log
  end.
Fixpoint connection_psk (log : list Effect) : option PskIdentity :=
  match log with
  | [] => None
  | LX_Tls psk :: _ => Some psk
  | _ :: log => connection_psk log
  end.

Lemma this_connection_app l log : Forall plain l -> this_connection (l ++ log) = l ++ this_connection log.
Proof. induction 1 as [|e l H _ IH]; [done|]. cbn. rewrite IH. by destruct e. Qed.
Lemma connection_psk_app l log : Forall plain l -> connection_psk (l ++ log) = connection_psk log.
Proof. induction 1 as [|e l H _ IH]; [done|]. cbn. rewrite IH. by destruct e. Qed.

(** Facts that more of the same connection does not change. *)
Definition stable (P : Client -> Prop) : Prop := forall c c', calm c c' -> P c -> P c'.

Definition saw (e : Effect) (c : Client) : Prop := e ∈ this_connection (co_log c).
Definition connected_as (psk : PskIdentity) (c : Client) : Prop := connection_psk (co_log c) = Some psk.
Definition configured (capabilities : Capabilities) (c : Client) : Prop :=
  cl_capabilities (co_session c) = capabilities.

Lemma stable_saw e : stable (saw e).
Proof.
  intros c c' [(l & E & F) _] S. unfold saw. rewrite E, this_connection_app by done. apply elem_of_app. by right.
Qed.
Lemma stable_connected_as psk : stable (connected_as psk).
Proof. intros c c' [(l & E & F) _] S. unfold connected_as. by rewrite E, connection_psk_app. Qed.
Lemma stable_configured caps : stable (configured caps).
Proof. intros c c' [_ C] S. unfold configured. by rewrite C. Qed.
Lemma op_stable_and P Q : stable P -> stable Q -> stable (fun c => P c /\ Q c).
Proof. intros HP HQ c c' C [p q]. split; [by eapply HP|by eapply HQ]. Qed.
Lemma stable_ex {A} (P : A -> Client -> Prop) : (forall a, stable (P a)) -> stable (fun c => exists a, P a c).
Proof. intros H c c' C [a p]. exists a. by eapply H. Qed.
Lemma stable_or P Q : stable P -> stable Q -> stable (fun c => P c \/ Q c).
Proof. intros HP HQ c c' C [p|q]; [left; by eapply HP|right; by eapply HQ]. Qed.
Lemma stable_impl (X : Prop) P : stable P -> stable (fun c => X -> P c).
Proof. intros HP c c' C p x. eapply HP; [done|by apply p]. Qed.
Lemma op_stable_const (X : Prop) : stable (fun _ => X).
Proof. by intros c c' _ x. Qed.
Create HintDb stable.
#[export] Hint Resolve stable_saw stable_connected_as stable_configured op_stable_and stable_ex stable_or stable_impl
  op_stable_const : stable.

(** Facts that a save does not change either. *)
Definition firm (P : Client -> Prop) : Prop := forall c r, P c -> P (set_co_log (LX_Saved r :: co_log c) c).
Lemma firm_saw e : firm (saw e).
Proof. intros c r S. by apply list_elem_of_further. Qed.
Lemma firm_connected_as psk : firm (connected_as psk).
Proof. by intros c r S. Qed.
Lemma firm_configured caps : firm (configured caps).
Proof. by intros c r S. Qed.
Lemma firm_and P Q : firm P -> firm Q -> firm (fun c => P c /\ Q c).
Proof. intros HP HQ c r [p q]. split; auto. Qed.
Lemma firm_ex {A} (P : A -> Client -> Prop) : (forall a, firm (P a)) -> firm (fun c => exists a, P a c).
Proof. intros H c r [a p]. exists a. by apply H. Qed.
Lemma firm_or P Q : firm P -> firm Q -> firm (fun c => P c \/ Q c).
Proof. intros HP HQ c r [p|q]; [left|right]; auto. Qed.
Lemma firm_const (X : Prop) : firm (fun _ => X).
Proof. by intros c r x. Qed.
#[export] Hint Resolve firm_saw firm_connected_as firm_configured firm_and firm_ex firm_or firm_const : stable.

Definition triple {A} (P : Client -> Prop) (m : op A) (Q : A -> Client -> Prop) (E : Client -> Prop) : Prop :=
  forall c, P c -> match m c with (Some (Ok a), c') => Q a c' | (_, c') => E c' end.

Lemma op_triple_bind {A B} P (m : op A) Q (f : A -> op B) S E :
  triple P m Q E -> (forall a, triple (Q a) (f a) S E) -> triple P (op_bind m f) S E.
Proof.
  intros M F c p. specialize (M c p). unfold op_bind.
  destruct (m c) as [[[a|e]|] c1]; [by apply F|done|done].
Qed.
Lemma op_triple_calm {A} P (m : op A) : moves calm m -> stable P -> triple P m (fun _ => P) P.
Proof. intros M S c p. specialize (M c). destruct (m c) as [[[a|e]|] c1]; by eapply S. Qed.
Lemma triple_conseq {A} (P P' : Client -> Prop) (m : op A) (Q Q' : A -> Client -> Prop) (E E' : Client -> Prop) :
  triple P m Q E -> (forall c, P' c -> P c) -> (forall a c, Q a c -> Q' a c) -> (forall c, E c -> E' c) ->
  triple P' m Q' E'.
Proof.
  intros M HP HQ HE c p. specialize (M c (HP c p)). destruct (m c) as [[[a|e]|] c1]; auto.
Qed.
Lemma triple_errors {A} P (m : op A) Q (E E' : Client -> Prop) :
  triple P m Q E -> (forall c, E c -> E' c) -> triple P m Q E'.
Proof. intros M H. by eapply triple_conseq. Qed.
Lemma op_triple_ret {A} (P : Client -> Prop) (a : A) (Q : A -> Client -> Prop) E :
  (forall c, P c -> Q a c) -> triple P (mret a) Q E.
Proof. intros H c p. by apply H. Qed.
Lemma op_triple_fail {A} (P : Client -> Prop) e (Q : A -> Client -> Prop) (E : Client -> Prop) :
  (forall c, P c -> E c) -> triple P (fail e) Q E.
Proof. intros H c p. by apply H. Qed.
Lemma op_triple_lift {X A} (P : Client -> Prop) (f : X -> ConnectError) (r : result X A) :
  triple P (lift f r) (fun a c => P c /\ r = Ok a) P.
Proof. intros c p. by destruct r. Qed.
Lemma op_triple_get {A} (P : Client -> Prop) (f : Client -> A) E :
  (forall c, P c -> E c) -> triple P (get f) (fun a c => P c /\ f c = a) E.
Proof. intros H c p. by split. Qed.
Lemma op_triple_emit (P : Client -> Prop) e :
  plain e -> stable P -> triple P (emit e) (fun _ c => P c /\ saw e c) P.
Proof.
  intros H S c p. assert (C : calm c (emit e c).2) by (by apply op_calm_emit). cbn in *.
  split; [by eapply S|]. unfold saw. cbn. destruct e; try done; apply list_elem_of_here.
Qed.
Lemma triple_attempt {A} P (m : op A) Q (E E' : Client -> Prop) :
  triple P m Q E -> (forall c, E c -> E' c) ->
  triple P (attempt m) (fun r c => match r with Ok a => Q a c | Err _ => E c end) E'.
Proof.
  intros M H c p. specialize (M c p). unfold attempt. destruct (m c) as [[[a|e]|] c1]; auto.
Qed.
Lemma triple_of_result {A} (P : Client -> Prop) (r : result ConnectError A) :
  triple P (of_result r) (fun a c => P c /\ r = Ok a) P.
Proof. intros c p. by destruct r. Qed.
Lemma op_triple_pure {A} (X : Prop) P (m : op A) Q E : (X -> triple P m Q E) -> triple (fun c => P c /\ X) m Q E.
Proof. intros H c [p x]. by apply H. Qed.

#[export] Hint Resolve moves_ask moves_pass moves_clock moves_io moves_is_cancelled moves_check moves_resolve
  moves_tcp_address moves_udp_address moves_wait moves_tcp_answer moves_load_all : moves.
#[export] Hint Resolve calm_interrupt calm_stop_bridge calm_relay calm_send calm_read calm_open_udp
  calm_exchange_handshake op_calm_negotiate calm_request : moves.
#[export] Hint Extern 1 (moves calm (put _)) => op_calm_put : moves.
#[export] Hint Extern 1 (moves calm (emit _)) => (apply op_calm_emit; done) : moves.

(** The next statement is quiet. *)
Ltac does lem := eapply op_triple_bind; [eapply triple_errors; [lem|intros ?; cbn beta; tauto]|intros ?; cbn beta].
Ltac quiet := does ltac:(apply op_triple_calm; [solve [moving]|solve [eauto 12 with stable]]).
(** It fails. *)
Ltac fails := apply op_triple_fail; intros ?; cbn beta; tauto.

Section Exchange.

Context (env : ClientEnv) (P : Client -> Prop) (HP : stable P).

Hint Resolve HP : stable.

Lemma send_packet_saw t payload :
  triple P (send_packet env t payload) (fun _ c => P c /\ saw (LX_Sent t payload) c) P.
Proof.
  unfold send_packet. eapply op_triple_bind.
  - apply op_triple_calm; [|exact HP]. unfold on_session. moving. intros c.
    match goal with |- context [client_send_packet ?u ?a ?s t payload] =>
      pose proof (send_packet_capabilities u a s t payload) as [C _] end.
    case_match. cbn in *. split; [by exists []|done].
  - intros ?. by apply op_triple_emit.
Qed.

Lemma read_packet_saw :
  triple P (read_tcp_packet env)
    (fun packet c => P c /\ saw (LX_Received (ph_packet_type packet.1) packet.2) c) P.
Proof.
  unfold read_tcp_packet. quiet. quiet. case_match; [fails|]. quiet. case_match.
  - quiet. case_match; [fails|]. quiet.
    eapply op_triple_bind; [by apply op_triple_emit|]. intros ?. by apply op_triple_ret.
  - quiet. fails.
Qed.

End Exchange.

Section Handshakes.

Context (env : ClientEnv) (P : Client -> Prop) (HP : stable P).

Hint Resolve HP : stable.

(** What was exchanged when the handshake succeeded. *)
Definition shook_hands (config : SessionConfig) (pairing : PairingRecord) (salt : list byte) (server : Handshake)
    (c : Client) : Prop :=
  exists capabilities sent ack,
    configured capabilities c /\
    Handshake_encode (client_handshake config pairing capabilities salt) = Ok sent /\
    saw (LX_Sent PT_Handshake sent) c /\
    saw (LX_Received PT_HandshakeAck ack) c /\ Handshake_decode ack = Ok server.

Lemma stable_shook config pairing salt server : stable (shook_hands config pairing salt server).
Proof. unfold shook_hands. eauto 20 with stable. Qed.

Lemma exchange_handshake_shook config pairing salt :
  triple P (exchange_handshake env config pairing salt)
    (fun server c => P c /\ shook_hands config pairing salt server c) P.
Proof.
  unfold exchange_handshake. eapply op_triple_bind; [by apply (op_triple_get P)|]. intros capabilities. cbn beta.
  quiet. quiet. quiet. quiet. quiet.
  does ltac:(apply op_triple_lift). rename a4 into sent. apply op_triple_pure. intros Esent.
  does ltac:(apply send_packet_saw; eauto with stable).
  eapply op_triple_bind.
  { eapply triple_attempt; [apply read_packet_saw; eauto with stable|intros ?; cbn beta; tauto]. }
  intros [[header payload]|e]; cbn beta iota zeta.
  - does ltac:(apply triple_of_result). apply op_triple_pure. intros [= <-]. cbn beta iota.
    case_match eqn:T; [fails|]. apply negb_false_iff, bool_decide_eq_true in T. cbn [fst snd] in *.
    refine (triple_conseq _ _ _ _ _ _ _ (op_triple_lift _ _ _) (fun _ p => p) _ _); [|intros ?; cbn beta; tauto].
    intros server c [[[[p C] S1] S2] D]. split; [exact p|]. rewrite T in S2.
    exists capabilities, sent, payload. by split_and!.
  - does ltac:(apply triple_of_result). apply op_triple_pure. done.
Qed.

(** The host's word on the trust of the pairing. *)
Definition granted (trust : PairingTrust) (c : Client) : Prop :=
  exists payload, saw (LX_Received PT_Control payload) c /\
    ControlMessage_decode payload = Ok (CM_PairingTrustGrant (mkPairingTrustGrant trust)).
Definition trust_settled (pairing : PairingRecord) (preference : option PairingTrust) (negotiated : bool)
    (p : PairingRecord) (c : Client) : Prop :=
  (negotiated = true /\ p = set_trust_of pairing (pr_trust p) /\ granted (pr_trust p) c) \/
  (negotiated = false /\ p = pairing /\ (preference = None \/ preference = Some PT_Owner)).

Lemma negotiate_trust_settled server pairing preference b :
  triple P (negotiate_trust env server pairing preference b)
    (fun p c => P c /\ trust_settled pairing preference b p c) P.
Proof.
  unfold negotiate_trust. destruct b.
  - unfold exchange_trust. quiet. eapply op_triple_bind; [by apply read_packet_saw|].
    intros [header payload]. cbn beta iota. case_match eqn:T; [fails|].
    apply negb_false_iff, bool_decide_eq_true in T. cbn [fst snd] in *. rewrite T.
    does ltac:(apply op_triple_lift). apply op_triple_pure. intros D. case_match; try fails.
    + does ltac:(apply op_triple_calm; [solve [moving]|solve [eauto 12 with stable]]).
      case_match; [|fails]. quiet. quiet. fails.
    + apply op_triple_ret. intros c [p S]. split; [done|]. left. split_and!; [done|by destruct pairing|].
      match goal with D : _ = Ok (CM_PairingTrustGrant ?g) |- _ => destruct g end. by exists payload.
  - case_match eqn:T.
    + quiet. fails.
    + apply op_triple_ret. intros c p. split; [done|]. right. split_and!; [done|done|].
      destruct preference as [t|]; [right|by left]. apply negb_false_iff, bool_decide_eq_true in T. by subst.
Qed.

End Handshakes.

(** ** What is saved *)

(** A record that may be saved, after the entries [log]: its trust is not that of
    a guest for once, and it is either the grant of this connection, with the trust the
    host announced or that of an owner; or a stored record with the trust the host announced. *)
Definition save_justified (env : ClientEnv) (r : PairingRecord) (log : list Effect) : Prop :=
  let heard t payload := LX_Received t payload ∈ this_connection log in
  let announced := exists payload, heard PT_Control payload /\
    ControlMessage_decode payload = Ok (CM_PairingTrustGrant (mkPairingTrustGrant (pr_trust r))) in
  pr_trust r <> PT_GuestOnce /\
  ((exists payload grant unix_ms, heard PT_PairingGrant payload /\ PairingGrant_decode payload = Ok grant /\
      r = set_trust_of (granted_record grant unix_ms) (pr_trust r) /\ (announced \/ pr_trust r = PT_Owner)) \/
   (exists n records stored, ev_load env n = Ok records /\
      ClientStore.find_record (pr_id r) records = Some stored /\ r = set_trust_of stored (pr_trust r) /\ announced)).

Fixpoint saves_ok (env : ClientEnv) (log : list Effect) : Prop :=
  match log with
  | [] => True
  | LX_Saved r :: log => save_justified env r log /\ saves_ok env log
  | _ :: log => saves_ok env log
  end.

Lemma saves_ok_app env l log : Forall plain l -> saves_ok env log -> saves_ok env (l ++ log).
Proof. intros F S. induction F as [|e l H _ IH]; [done|]. by destruct e. Qed.
Definition saved_ok (env : ClientEnv) (c : Client) : Prop := saves_ok env (co_log c).
Lemma stable_saved_ok env : stable (saved_ok env).
Proof. intros c c' [(l & E & F) _] S. unfold saved_ok. rewrite E. by apply saves_ok_app. Qed.
#[export] Hint Resolve stable_saved_ok : stable.

(** Where the record of a handshake comes from. *)
Definition origin (pairing : PairingRecord) (preference : option PairingTrust) (c : Client) : Prop :=
  preference = None \/
  exists payload grant unix_ms, saw (LX_Received PT_PairingGrant payload) c /\
    PairingGrant_decode payload = Ok grant /\ pairing = granted_record grant unix_ms.

Section Saving.

Context (env : ClientEnv) (P : Client -> Prop) (HP : stable P) (FP : firm P).

Hint Resolve HP : stable.

Lemma load_all_from : triple P (store_load_all env) (fun l c => P c /\ exists n, ev_load env n = Ok l) P.
Proof.
  intros c p. unfold store_load_all, op_bind, ask. cbn.
  assert (p' : P (set_co_asked (S (co_asked c)) (set_co_now (co_now c + Z.max 0 (ev_elapse env (co_asked c))) c))).
  { eapply HP; [|exact p]. apply ask_stable_ask; lia. }
  destruct (ev_load env (co_asked c)) as [l|e] eqn:E; cbn; [|done]. split; [done|]. by exists (co_asked c).
Qed.

Lemma save_is_ok r :
  triple (fun c => (P c /\ saved_ok env c) /\ save_justified env r (co_log c)) (store_save env r)
    (fun _ c => P c /\ saved_ok env c) (fun c => P c /\ saved_ok env c).
Proof.
  intros c [[p S] J]. unfold store_save, op_bind, ask. cbn.
  destruct (ev_save env (co_asked c)) as [[]|e]; cbn.
  - assert (H : calm c (set_co_asked (1 + co_asked c)%nat (set_co_now (co_now c + Z.max 0 (ev_elapse env (co_asked c))) c)))
      by (apply ask_stable_ask; cbn; lia).
    split; [|by split]. refine (FP _ _ _). by eapply HP.
  - split; [|done]. eapply HP; [|exact p]. apply ask_stable_ask; lia.
Qed.

End Saving.

Lemma find_record_id id l r : ClientStore.find_record id l = Some r -> pr_id r = id.
Proof.
  unfold ClientStore.find_record. intros H. apply List.find_some in H as [_ H].
  by apply bool_decide_eq_true in H.
Qed.

Section Persisting.

Context (env : ClientEnv) (P : Client -> Prop) (HP : stable P) (FP : firm P).

Hint Resolve HP : stable.

Lemma stable_granted trust : stable (granted trust).
Proof. unfold granted. eauto 10 with stable. Qed.
Hint Resolve stable_granted : stable.

Lemma persist_ok pairing0 pairing preference b :
  triple (fun c => (P c /\ saved_ok env c) /\ origin pairing0 preference c /\
                   trust_settled pairing0 preference b pairing c)
    (persist env pairing preference b)
    (fun _ c => P c /\ saved_ok env c) (fun c => P c /\ saved_ok env c).
Proof.
  unfold persist. case_match eqn:T; [apply op_triple_ret; intros c; tauto|]. apply bool_decide_eq_false in T.
  destruct preference as [t|].
  - eapply triple_conseq; [by apply (save_is_ok env P HP FP pairing)| |done|done]. intros c [I [O D]]. split; [exact I|].
    split; [done|]. left. destruct O as [O|(payload & grant & ms & S & E & ->)]; [done|].
    exists payload, grant, ms. split_and!; [exact S|exact E| |].
    + destruct D as [(_ & D & _)|(_ & -> & _)]; [exact D|done].
    + destruct D as [(_ & _ & D)|(_ & -> & _)]; [by left|by right].
  - destruct b; [|apply op_triple_ret; intros c; tauto].
    eapply (triple_conseq (fun c => (P c /\ saved_ok env c) /\ granted (pr_trust pairing) c)); [|
      intros c [I [_ [(_ & _ & G)|(? & _)]]]; done|intros ? c H; exact H|intros c H; exact H].
    does ltac:(apply load_all_from; eauto with stable). case_match eqn:F; [|apply op_triple_ret; intros c; tauto].
    case_match; [apply op_triple_ret; intros c; tauto|].
    eapply triple_conseq; [by apply (save_is_ok env P HP FP)| |done|done].
    intros c [[I G] (n & L)]. split; [exact I|]. split; [done|]. right. exists n. eexists _, _.
    split_and!; [exact L| |reflexivity|exact G]. cbn. by rewrite (find_record_id _ _ _ F).
Qed.

End Persisting.

(** ** A connection that is ready *)

(** What the log shows of a session that is ready, from the record [pairing] the
    handshake began with. *)
Definition ready_log (config : SessionConfig) (pairing : PairingRecord) (preference : option PairingTrust)
    (ready : ReadySession) (c : Client) : Prop :=
  shook_hands config pairing (rs_session_salt ready) (rs_server ready) c /\
  Capabilities_contains (hs_capabilities (rs_server ready)) CAP_AUTHENTICATED_UDP_REGISTRATION = true /\
  exists capabilities,
    configured capabilities c /\
    trust_settled pairing preference
      (Capabilities_contains capabilities CAP_PAIRING_TRUST &&
       Capabilities_contains (hs_capabilities (rs_server ready)) CAP_PAIRING_TRUST) (rs_pairing ready) c.

Section Begin.

Context (env : ClientEnv) (P : Client -> Prop) (HP : stable P) (FP : firm P).

Hint Resolve HP FP : stable.
Hint Resolve stable_granted stable_shook : stable.

Lemma stable_settled pairing preference b p : stable (trust_settled pairing preference b p).
Proof. unfold trust_settled. eauto 10 with stable. Qed.
Lemma stable_origin pairing preference : stable (origin pairing preference).
Proof. unfold origin. eauto 10 with stable. Qed.
Lemma firm_shook config pairing salt server : firm (shook_hands config pairing salt server).
Proof. unfold shook_hands. eauto 20 with stable. Qed.
Lemma firm_settled pairing preference b p : firm (trust_settled pairing preference b p).
Proof. unfold trust_settled, granted. eauto 20 with stable. Qed.
Hint Resolve stable_settled stable_origin firm_shook firm_settled : stable.

(** What is known when the host has answered and the trust is settled. *)
Definition answered (config : SessionConfig) (pairing : PairingRecord) (preference : option PairingTrust)
    (salt : list byte) (server : Handshake) (b : bool) (p : PairingRecord) (c : Client) : Prop :=
  shook_hands config pairing salt server c /\
  (exists capabilities, configured capabilities c /\
     Capabilities_contains capabilities CAP_PAIRING_TRUST &&
     Capabilities_contains (hs_capabilities server) CAP_PAIRING_TRUST = b) /\
  trust_settled pairing preference b p c.
Lemma stable_answered config pairing preference salt server b p :
  stable (answered config pairing preference salt server b p).
Proof. unfold answered. eauto 20 with stable. Qed.
Lemma firm_answered config pairing preference salt server b p :
  firm (answered config pairing preference salt server b p).
Proof. unfold answered. eauto 20 with stable. Qed.
Hint Resolve stable_answered firm_answered : stable.

Lemma config_contains_spec (Q : Client -> Prop) capability :
  triple Q (config_contains capability)
    (fun b c => Q c /\ exists caps, configured caps c /\ Capabilities_contains caps capability = b) Q.
Proof. intros c q. split; [done|]. by eexists. Qed.

Lemma begin_ready config pairing preference :
  triple (fun c => (P c /\ saved_ok env c) /\ origin pairing preference c)
    (begin_handshake_with_trust env config pairing preference)
    (fun ready c => (P c /\ saved_ok env c) /\ ready_log config pairing preference ready c)
    (fun c => P c /\ saved_ok env c).
Proof.
  unfold begin_handshake_with_trust. quiet. rename a into salt.
  does ltac:(apply exchange_handshake_shook; eauto 10 with stable). rename a into server.
  does ltac:(apply config_contains_spec). rename a into has_trust.
  set (b := has_trust && Capabilities_contains (hs_capabilities server) CAP_PAIRING_TRUST).
  does ltac:(apply (negotiate_trust_settled env); eauto 20 with stable). rename a into p.
  eapply (op_triple_bind _ _ (fun _ c => (P c /\ answered config pairing preference salt server b p c) /\ saved_ok env c)).
  { refine (triple_conseq _ _ _ _ _ _ _ (persist_ok env (fun c => P c /\ answered config pairing preference salt server b p c)
      _ _ pairing p preference b) _ _ _); [eauto with stable|eauto with stable| |done|intros c; cbn beta; tauto].
    intros c [[[[I O] S] (caps & C & B)] T]. split_and!; try tauto. split; [exact S|]. split; [|exact T].
    exists caps. split; [exact C|]. by rewrite B. }
  intros ?.
  cbn beta. quiet. quiet. case_match eqn:A; [fails|]. apply negb_false_iff in A.
  quiet. destruct a2 as [udp_send udp_receive]. quiet. quiet. quiet. quiet. quiet. quiet.
  apply op_triple_ret. intros c [[p0 (S & (caps & C & B) & T)] V]. split; [done|]. split; [exact S|].
  split; [exact A|]. exists caps. split; [exact C|]. cbn [rs_server rs_pairing]. by rewrite B.
Qed.

End Begin.

Section Connecting.

Context (env : ClientEnv).

Lemma tls_connect_as psk :
  triple (saved_ok env) (tls_connect env psk) (fun _ c => saved_ok env c /\ connected_as psk c) (saved_ok env).
Proof.
  unfold tls_connect. quiet. quiet. quiet. case_match.
  - intros c S. by split.
  - quiet. fails.
Qed.

Lemma connect_psk_as config psk st :
  triple (saved_ok env) (connect_with_psk env config psk st)
    (fun _ c => saved_ok env c /\ connected_as psk c) (saved_ok env).
Proof.
  unfold connect_with_psk. quiet. case_match; [fails|]. do 14 quiet.
  eapply op_triple_bind; [apply tls_connect_as|]. intros ?. cbn beta. quiet. quiet.
  eapply triple_errors; [apply op_triple_calm; [solve [moving]|eauto with stable]|intros ?; cbn beta; tauto].
Qed.

Lemma request_origin P config preference :
  stable P ->
  triple P (request_pairing env config) (fun p c => P c /\ origin p (Some preference) c) P.
Proof.
  intros HP. unfold request_pairing. quiet. quiet.
  eapply op_triple_bind; [by apply read_packet_saw|]. intros [header payload]. cbn beta iota.
  case_match eqn:T; try fails.
  - does ltac:(apply op_triple_lift). apply op_triple_pure. intros D. quiet. apply op_triple_ret.
    intros c [p S]. split; [done|]. right. cbn [fst snd] in S. rewrite T in S. by eexists payload, _, _.
  - does ltac:(apply op_triple_lift). apply op_triple_pure. intros D. fails.
Qed.

(** The connection of a pairing: made with its identity and key. *)
Lemma connect_with_pairing_ready config pairing :
  triple (saved_ok env) (connect_with_pairing env config pairing)
    (fun ready c => saved_ok env c /\ ready_log config pairing None ready c /\
       exists psk, PskIdentity_pairing (pr_id pairing) (pr_key pairing) = Ok psk /\ connected_as psk c)
    (saved_ok env).
Proof.
  unfold connect_with_pairing. quiet. quiet.
  does ltac:(apply op_triple_lift). rename a1 into psk.
  apply op_triple_pure. intros Epsk.
  assert (B : triple (fun c => saved_ok env c /\ connected_as psk c) (begin_handshake_with_trust env config pairing None)
    (fun ready c => saved_ok env c /\ ready_log config pairing None ready c /\
       exists psk, PskIdentity_pairing (pr_id pairing) (pr_key pairing) = Ok psk /\ connected_as psk c)
    (saved_ok env)).
  { refine (triple_conseq _ _ _ _ _ _ _ (begin_ready env (connected_as psk) _ _ config pairing None) _ _ _);
      [eauto with stable|eauto with stable| | |].
    - intros c [S C]. split; [by split|by left].
    - intros ready c [[C S] L]. split_and!; [done|done|]. by exists psk.
    - intros c [C S]. done. }
  quiet.
  eapply op_triple_bind; [eapply triple_attempt; [apply connect_psk_as|done]|]. intros [[]|e]; cbn beta iota; [exact B|].
  quiet. quiet. case_match; [|fails]. quiet.
  eapply op_triple_bind; [apply connect_psk_as|]. intros ?. exact B.
Qed.

Lemma reconnect_ready config id :
  triple (saved_ok env) (reconnect env config id)
    (fun ready c => saved_ok env c /\ exists pairing psk,
       pr_id pairing = id /\ (exists n records, ev_load env n = Ok records /\ ClientStore.find_record id records = Some pairing) /\
       ready_log config pairing None ready c /\
       PskIdentity_pairing (pr_id pairing) (pr_key pairing) = Ok psk /\ connected_as psk c)
    (saved_ok env).
Proof.
  unfold reconnect. eapply op_triple_bind; [apply load_all_from; eauto with stable|]. intros records. cbn beta.
  case_match eqn:F; [|fails].
  intros c [S [n L]]. pose proof (connect_with_pairing_ready config p c S) as T.
  destruct (connect_with_pairing env config p c) as [[[ready|e]|] c1]; [|done|done].
  destruct T as (S' & R & psk & E & C). split; [done|]. exists p, psk. split_and!; try done.
  - by apply find_record_id in F.
  - by exists n, records.
Qed.

Lemma pair_ready config pin preference :
  triple (saved_ok env) (pair_with_pin_as env config pin preference)
    (fun ready c => saved_ok env c /\ exists pairing key,
       origin pairing (Some preference) c /\ ready_log config pairing (Some preference) ready c /\
       ev_bootstrap_psk env pin = Ok key /\ connected_as (mkPskIdentity BOOTSTRAP_IDENTITY key) c)
    (saved_ok env).
Proof.
  unfold pair_with_pin_as. quiet. does ltac:(apply op_triple_lift). rename a0 into key.
  apply op_triple_pure. intros E. eapply op_triple_bind; [apply connect_psk_as|]. intros ?. cbn beta.
  does ltac:(apply (request_origin _ _ preference); eauto with stable). rename a1 into pairing.
  refine (triple_conseq _ _ _ _ _ _ _ (begin_ready env (fun c => connected_as (mkPskIdentity BOOTSTRAP_IDENTITY key) c /\
    origin pairing (Some preference) c) _ _ config pairing (Some preference)) _ _ _).
  - apply op_stable_and; [eauto with stable|apply stable_origin].
  - apply firm_and; [eauto with stable|]. unfold origin. eauto 20 with stable.
  - intros c [[S C] O]. by split_and!.
  - intros ready c [[[C O] S] L]. split; [done|]. by exists pairing, key.
  - intros c [_ S]. done.
Qed.

End Connecting.

(** ** The fields of a session that is ready *)

Lemma op_bind_ok {A B} (m : op A) (f : A -> op B) c b c' :
  op_bind m f c = (Some (Ok b), c') ->
  exists a c1, m c = (Some (Ok a), c1) /\ f a c1 = (Some (Ok b), c').
Proof. unfold op_bind. destruct (m c) as [[[a|e]|] c1] eqn:E; intros H; try done. by exists a, c1. Qed.
Ltac inv_op H a c1 H1 := apply op_bind_ok in H as (a & c1 & H1 & H).
Ltac inv_next H := let a := fresh in let c := fresh in let E := fresh in inv_op H a c E.
Ltac inv_put H := let a := fresh in let c := fresh in let E := fresh in inv_op H a c E; injection E as _ <-.
Ltac inv_get H := let a := fresh in let c := fresh in let E := fresh in inv_op H a c E; injection E as <- <-.

(** The fields that a handshake sets once. *)
Definition kept (c c' : Client) : Prop :=
  co_session_salt c' = co_session_salt c /\ co_pairing c' = co_pairing c /\ co_pairing_trust c' = co_pairing_trust c.
#[local] Instance kept_stable : AskStable kept.
Proof.
  split; [|by intros..]. split; [by intros c|].
  intros c1 c2 c3 (A & B & C) (A' & B' & C'). unfold kept. by rewrite A', B', C'.
Qed.
Lemma kept_put f : (forall c, kept c (f c)) -> moves kept (put f).
Proof. intros H c. apply H. Qed.
#[local] Hint Extern 1 (moves kept (put _)) => (apply kept_put; intros ?; by repeat case_match) : moves.
#[local] Hint Extern 1 (moves kept (emit _)) => (apply kept_put; done) : moves.

(** The ciphers of a session: derived from the pairing's key and the salt sent;
    one datagram was sealed. *)
Definition session_ciphers (env : ClientEnv) (ready : ReadySession) (send receive : DatagramCipher) : Prop :=
  exists key cipher header,
    key_array (rs_pairing ready) = Ok key /\
    DatagramCipher_derive (ev_hkdf env) key (rs_session_salt ready) ClientToHost = Ok cipher /\
    send = (seal_datagram (ev_encrypt env) cipher header []).2 /\
    DatagramCipher_derive (ev_hkdf env) key (rs_session_salt ready) HostToClient = Ok receive.

Definition ready_fields (env : ClientEnv) (ready : ReadySession) (c : Client) : Prop :=
  session_state c = SS_Ready /\
  in_server (cl_state (co_session c)) = Some (rs_server ready) /\
  co_pairing c = Some (rs_pairing ready) /\
  co_session_salt c = Some (rs_session_salt ready) /\
  co_pairing_trust c = Some (pr_trust (rs_pairing ready)) /\
  co_udp c = Some (mkUdpTransport false (Some UDP_READ_TIMEOUT)) /\
  exists send receive,
    co_udp_send c = Some send /\ cl_udp_receive (co_session c) = Some receive /\
    session_ciphers env ready send receive.

Section Fields.

Context (env : ClientEnv).

Lemma kept_send t payload : moves kept (send_packet env t payload).
Proof. unfold send_packet, on_session. moving. intros c. by case_match. Qed.
Hint Resolve kept_send : moves.
Lemma kept_read : moves kept (read_tcp_packet env).
Proof. unfold read_tcp_packet. moving. Qed.
Lemma kept_interrupt : moves kept interrupt_session.
Proof. unfold interrupt_session. moving. Qed.
Hint Resolve kept_read kept_interrupt : moves.
Lemma kept_negotiate server pairing preference b : moves kept (negotiate_trust env server pairing preference b).
Proof. unfold negotiate_trust, exchange_trust. moving. Qed.
Lemma kept_persist pairing preference b : moves kept (persist env pairing preference b).
Proof. unfold persist, store_save. moving. Qed.
Lemma kept_open_udp config pairing salt : moves kept (open_udp env config pairing salt).
Proof. unfold open_udp. moving. Qed.

Lemma exchange_handshake_salt config pairing salt c server c' :
  exchange_handshake env config pairing salt c = (Some (Ok server), c') -> co_session_salt c' = Some salt.
Proof.
  unfold exchange_handshake. intros H. do 3 inv_put H.
  revert H. match goal with |- ?m ?c = _ -> _ => assert (M : moves kept m); [|specialize (M c)] end.
  { unfold put_state, of_result. moving. }
  intros H. rewrite H in M. cbn in M. by destruct M as (-> & _).
Qed.

Lemma open_udp_ciphers config pairing server salt c send receive c' :
  open_udp env config pairing salt c = (Some (Ok (send, receive)), c') ->
  session_ciphers env (mkReadySession pairing server salt) send receive.
Proof.
  unfold open_udp. intros H.
  inv_op H key c1 H1. inv_op H cipher c2 H2. inv_op H cipher2 c3 H3.
  do 7 inv_next H.
  destruct (seal_datagram _ cipher _ []) as [packet sealed] eqn:S.
  do 5 inv_next H. injection H as <- <- _.
  unfold lift in H1, H2, H3. repeat case_match; try discriminate. injection H1 as <- _. injection H2 as <- _.
  injection H3 as <- _. eexists _, _, _. split_and!; [done|done| |done]. by rewrite S.
Qed.

Lemma begin_fields config pairing preference c ready c' :
  begin_handshake_with_trust env config pairing preference c = (Some (Ok ready), c') -> ready_fields env ready c'.
Proof.
  unfold begin_handshake_with_trust. intros H.
  inv_op H salt c1 H1. clear H1. inv_op H server c2 H2. apply exchange_handshake_salt in H2.
  inv_op H b c3 H3. injection H3 as _ <-.
  inv_op H p c4 H4. pose proof (kept_negotiate server pairing preference
    (b && Capabilities_contains (hs_capabilities server) CAP_PAIRING_TRUST) c2) as K4. rewrite H4 in K4. clear H4.
  inv_op H u c5 H5. pose proof (kept_persist p preference
    (b && Capabilities_contains (hs_capabilities server) CAP_PAIRING_TRUST) c4) as K5. rewrite H5 in K5. clear H5.
  do 2 inv_put H.
  case_match; [done|]. inv_op H ciphers c6 H6.
  pose proof (kept_open_udp config p salt
    (set_co_pairing_trust (Some (pr_trust p)) (set_co_pairing (Some p) c5))) as K6. rewrite H6 in K6.
  destruct ciphers as [send receive]. apply (open_udp_ciphers _ _ server) in H6.
  do 6 inv_put H. injection H as <- <-.
  destruct K4 as (K4 & _), K5 as (K5 & _), K6 as (K6 & P6 & T6). cbn in *.
  unfold ready_fields. cbn. split_and!; try done; [congruence|]. by exists send, receive.
Qed.

End Fields.

(** ** Every operation returns *)

Definition total {A} (m : op A) : Prop := forall c, (m c).1 <> None.

Lemma op_total_bind {A B} (m : op A) (f : A -> op B) : total m -> (forall a, total (f a)) -> total (op_bind m f).
Proof. intros M F c. specialize (M c). unfold op_bind. destruct (m c) as [[[a|e]|] c1]; [apply F|done|done]. Qed.
Lemma total_attempt {A} (m : op A) : total m -> total (attempt m).
Proof. intros M c. specialize (M c). unfold attempt. by destruct (m c) as [[r|] c1]. Qed.
Lemma op_total_lift {E A} (f : E -> ConnectError) (r : result E A) : total (lift f r).
Proof. intros c. by destruct r. Qed.
Lemma op_total_when b m : total m -> total (when b m).
Proof. intros M. by destruct b. Qed.

Create HintDb total.
Ltac total_step :=
  match goal with
  | |- total (op_bind _ _) => apply op_total_bind; [|intros ?]
  | |- total (attempt _) => apply total_attempt
  | |- total (when _ _) => apply op_total_when
  | |- total (lift _ _) => apply op_total_lift
  | |- total _ => solve [eauto with total]
  | |- total (if ?b then _ else _) => destruct b eqn:?
  | |- total (match ?x with _ => _ end) => destruct x eqn:?
  | |- total _ => intros ?; done
  end.
Ltac returns := repeat total_step.

(** The number of slices left until the deadline. *)
Definition slices (deadline now : Instant) : Z := (Z.max 0 (deadline - now) + CONNECT_SLICE - 1) / CONNECT_SLICE.

Lemma slices_next deadline now now' :
  now <= now' -> 0 < deadline - now' ->
  slices deadline (now' + Z.min (deadline - now') CONNECT_SLICE) + 1 <= slices deadline now.
Proof.
  intros L D. unfold slices. assert (S : 0 < CONNECT_SLICE) by done. revert S. generalize CONNECT_SLICE as s. intros s S.
  destruct (Z.le_gt_cases s (deadline - now')).
  - rewrite <- Z.div_add by lia. apply Z.div_le_mono; lia.
  - rewrite (Z.div_small (Z.max 0 _ + s - 1)) by lia.
    transitivity (1 * s / s); [by rewrite Z.div_mul by lia|]. apply Z.div_le_mono; lia.
Qed.

(** The clock does not go back. *)
Definition later (c c' : Client) : Prop := co_now c <= co_now c'.
#[local] Instance later_stable : AskStable later.
Proof. split; [split; [intros c|intros c1 c2 c3]|..]; unfold later; intros; cbn; lia. Qed.

Section Returns.

Context (env : ClientEnv).

Lemma total_io : total (io env).
Proof. unfold io. returns. Qed.
Lemma total_cancelled : total (is_cancelled env).
Proof. unfold is_cancelled. returns. Qed.
Hint Resolve total_io total_cancelled : total.
Lemma total_check : total (check_cancelled env).
Proof. unfold check_cancelled. returns. Qed.
Lemma total_resolve host port : total (resolve_one env host port).
Proof. unfold resolve_one. returns. Qed.
Hint Resolve total_check total_resolve : total.
Lemma total_on_session {A} (f : (list (list byte) -> Z) -> (list (list byte) -> list byte -> bool) -> ClientSession ->
  result SessionError A * ClientSession) : total (on_session env f).
Proof. unfold on_session, tcp_answer, tcp_write. returns. intros c. by case_match. Qed.
Lemma total_send t payload : total (send_packet env t payload).
Proof. unfold send_packet. returns. apply total_on_session. Qed.
Lemma total_read : total (read_tcp_packet env).
Proof. unfold read_tcp_packet. returns. Qed.
Hint Resolve total_send total_read : total.
Lemma total_begin config pairing preference : total (begin_handshake_with_trust env config pairing preference).
Proof.
  unfold begin_handshake_with_trust, exchange_handshake, negotiate_trust, exchange_trust, persist, open_udp,
    store_load_all, store_save, udp_address, of_result. returns.
Qed.

Lemma later_clock : moves later (clock env).
Proof. exact (moves_clock env later). Qed.
Lemma later_io : moves later (io env).
Proof. exact (moves_io env later). Qed.
Lemma later_check : moves later (check_cancelled env).
Proof. exact (moves_check env later). Qed.
Lemma clock_now c : (clock env c).1 = Some (Ok (co_now (clock env c).2)).
Proof. done. Qed.

Lemma wait_total fuel deadline c :
  slices deadline (co_now c) + 1 <= Z.of_nat fuel -> (wait_connected env fuel deadline c).1 <> None.
Proof.
  revert c. induction fuel as [|fuel IH]; intros c F.
  { exfalso. assert (0 <= slices deadline (co_now c)); [|lia]. apply Z.div_pos; [|done]. unfold CONNECT_SLICE, from_millis. lia. }
  cbn [wait_connected]. unfold op_bind at 1. pose proof (later_check c) as N1. pose proof (total_check c) as T.
  destruct (check_cancelled env c) as [[[[]|e]|] c1]; [|done|done]. cbn [fst snd] in *.
  unfold op_bind at 1. pose proof (later_clock c1) as N2. pose proof (clock_now c1) as E.
  destruct (clock env c1) as [[[now|e]|] c2]; [|done|done]. cbn [fst snd] in *. injection E as ->.
  unfold later in *. case_if; [done|]. unfold saturating_duration_since in *.
  unfold op_bind at 1. cbn [ask fst snd].
  set (c3 := set_co_asked _ _). assert (N3 : co_now c2 <= co_now c3) by (cbn; lia).
  destruct (ev_connected env (co_asked c2)) as [r| |]; [by destruct r| |done].
  unfold op_bind, pass, put. apply IH. cbn [co_now set_co_now].
  pose proof (slices_next deadline (co_now c) (co_now c2)).
  assert (M : forall a b, a <= b -> slices deadline b <= slices deadline a).
  { intros a b L. unfold slices. apply Z.div_le_mono; [done|]. lia. }
  etrans; [apply Z.add_le_mono_r, (M (co_now c2 + Z.min (deadline - co_now c2) CONNECT_SLICE)); lia|]. lia.
Qed.

Lemma connect_fuel_enough timeout now c :
  now <= co_now c -> slices (now + timeout) (co_now c) + 1 <= Z.of_nat (connect_fuel timeout).
Proof.
  intros L. unfold connect_fuel, slices. assert (S : 0 < CONNECT_SLICE) by done.
  revert S. generalize CONNECT_SLICE as s. intros s S.
  destruct (Z.le_gt_cases 0 timeout) as [T|T].
  - assert (0 <= timeout / s) by (by apply Z.div_pos).
    assert ((Z.max 0 (now + timeout - co_now c) + s - 1) / s <= timeout / s + 1); [|lia].
    rewrite <- (Z.div_add timeout 1 s) by lia. apply Z.div_le_mono; lia.
  - rewrite Z.div_small by lia. lia.
Qed.

Lemma total_connect_psk config psk st : total (connect_with_psk env config psk st).
Proof.
  unfold connect_with_psk, tcp_address, tls_connect. do 6 total_step. all: try (returns; fail).
  intros c. unfold op_bind at 1. pose proof (clock_now c) as E. destruct (clock env c) as [[[now|e]|] c1]; [|done|done].
  injection E as ->. cbn [snd]. unfold op_bind at 1. pose proof (total_io c1) as T. pose proof (later_io c1) as L.
  destruct (io env c1) as [[[[]|e]|] c2]; [|done|done]. cbn [snd] in L. unfold op_bind at 1.
  pose proof (wait_total (connect_fuel (sc_connect_timeout config)) (co_now c1 + sc_connect_timeout config) c2
    (connect_fuel_enough _ _ _ L)) as F.
  destruct (wait_connected _ _ _ c2) as [[[[]|e]|] c3]; [|done|done]. revert c3 F. intros c3 _.
  match goal with |- (?m c3).1 <> None => assert (total m) as H; [|apply H] end. returns.
Qed.
Hint Resolve total_connect_psk total_begin : total.

Lemma total_connect config pairing : total (connect_with_pairing env config pairing).
Proof. unfold connect_with_pairing, open_relay_fallback, stop_relay_bridge. returns. Qed.
Lemma total_reconnect config id : total (reconnect env config id).
Proof. unfold reconnect, store_load_all. returns. apply total_connect. Qed.
Lemma total_pair config pin preference : total (pair_with_pin_as env config pin preference).
Proof. unfold pair_with_pin_as, request_pairing. returns. Qed.

End Returns.

(** ** A connection that fails *)

(** What is left of a session that was ready: the same connection, keys and server. *)
Definition untouched (c c' : Client) : Prop :=
  co_log c' = co_log c /\ co_tcp c' = co_tcp c /\ co_owner c' = co_owner c /\ co_udp c' = co_udp c /\
  co_udp_send c' = co_udp_send c /\ co_pairing c' = co_pairing c /\ co_session_salt c' = co_session_salt c /\
  session_state c' = session_state c /\
  in_server (cl_state (co_session c')) = in_server (cl_state (co_session c)) /\
  cl_udp_receive (co_session c') = cl_udp_receive (co_session c) /\
  cl_tcp_sent (co_session c') = cl_tcp_sent (co_session c).
#[export] Instance untouched_stable : AskStable untouched.
Proof.
  split; [split|..]; unfold untouched.
  - done.
  - intros c1 c2 c3 H1 H2. repeat match goal with H : _ /\ _ |- _ => destruct H end. split_and!; congruence.
  - done.
  - done.
Qed.
Lemma untouched_put f : (forall c, untouched c (f c)) -> moves untouched (put f).
Proof. intros H c. apply H. Qed.
#[local] Hint Extern 1 (moves untouched (put _)) => (apply untouched_put; intros ?; by repeat case_match) : moves.

(** It does not become ready. *)
Definition unready (c c' : Client) : Prop := session_state c' = SS_Ready -> session_state c = SS_Ready.
#[local] Instance unready_stable : AskStable unready.
Proof. split; [split|..]; unfold unready; auto. Qed.
Lemma unready_put f : (forall c, unready c (f c)) -> moves unready (put f).
Proof. intros H c. apply H. Qed.
#[local] Hint Extern 1 (moves unready (put _)) => (apply unready_put; intros ?; unfold unready; cbn; by repeat case_match) : moves.
#[local] Hint Extern 1 (moves unready (emit _)) => (apply unready_put; intros ?; unfold unready; cbn; done) : moves.

(** What holds when the operation does not succeed. *)
Definition failing {A} (R : Client -> Client -> Prop) (m : op A) : Prop :=
  forall c, match m c with (Some (Ok _), _) => True | (_, c') => R c c' end.
Lemma failing_moves {A} R (m : op A) : moves R m -> failing R m.
Proof. intros M c. specialize (M c). by destruct (m c) as [[[a|e]|] c1]. Qed.
Lemma failing_bind {A B} R `{!PreOrder R} (m : op A) (f : A -> op B) :
  moves R m -> (forall a, failing R (f a)) -> failing R (op_bind m f).
Proof.
  intros M F c. specialize (M c). unfold op_bind. destruct (m c) as [[[a|e]|] c1]; cbn in *; [|done|done].
  specialize (F a c1). destruct (f a c1) as [[[b|e]|] c2]; [done|by etrans|by etrans].
Qed.

Section Failing.

Context (env : ClientEnv).

Lemma unready_send t payload : moves unready (send_packet env t payload).
Proof.
  unfold send_packet, on_session. moving. intros c. unfold unready, session_state.
  match goal with |- context [client_send_packet ?u ?a ?s t payload] =>
    pose proof (send_packet_capabilities u a s t payload) as [_ C] end.
  case_match. cbn in *. by rewrite C.
Qed.
Hint Resolve unready_send : moves.
Lemma unready_read : moves unready (read_tcp_packet env).
Proof. unfold read_tcp_packet. moving. Qed.
Lemma unready_interrupt : moves unready interrupt_session.
Proof. unfold interrupt_session. moving. Qed.
Hint Resolve unready_read unready_interrupt : moves.
Lemma unready_exchange config pairing salt : moves unready (exchange_handshake env config pairing salt).
Proof. unfold exchange_handshake, put_state, of_result. moving. Qed.
Lemma unready_negotiate server pairing preference b : moves unready (negotiate_trust env server pairing preference b).
Proof. unfold negotiate_trust, exchange_trust. moving. Qed.
Lemma unready_persist pairing preference b : moves unready (persist env pairing preference b).
Proof. unfold persist, store_save. moving. Qed.
Lemma unready_open_udp config pairing salt : moves unready (open_udp env config pairing salt).
Proof. unfold open_udp. moving. Qed.
Hint Resolve unready_exchange unready_negotiate unready_persist unready_open_udp : moves.

Lemma begin_failing config pairing preference : failing unready (begin_handshake_with_trust env config pairing preference).
Proof.
  unfold begin_handshake_with_trust, config_contains.
  do 7 (apply failing_bind; [typeclasses eauto|solve [moving]|intros ?]).
  case_match; [by apply failing_moves, moves_same; [typeclasses eauto|]|].
  apply failing_bind; [typeclasses eauto|solve [moving]|]. intros [send receive]. by intros c.
Qed.

Lemma request_unready config : moves unready (request_pairing env config).
Proof. unfold request_pairing. moving. Qed.

End Failing.

Definition not_ready (c : Client) : Prop := session_state c <> SS_Ready.
(** Not ready, or as ready as it was. *)
Definition spared (c0 c : Client) : Prop := not_ready c \/ untouched c0 c.

Lemma spared_untouched c0 c c' : untouched c c' -> spared c0 c -> spared c0 c'.
Proof.
  intros U [N|U0]; [left|right; by etrans]. destruct U as (_ & _ & _ & _ & _ & _ & _ & S & _).
  unfold not_ready. by rewrite S.
Qed.
Lemma triple_moves {A} (R : Client -> Client -> Prop) (P : Client -> Prop) (m : op A) :
  moves R m -> (forall c c', R c c' -> P c -> P c') -> triple P m (fun _ => P) P.
Proof. intros M S c p. specialize (M c). destruct (m c) as [[[a|e]|] c1]; by eapply S. Qed.
Lemma not_ready_unready c c' : unready c c' -> not_ready c -> not_ready c'.
Proof. unfold unready, not_ready. auto. Qed.

Section Sparing.

Context (env : ClientEnv) (c0 : Client).

Ltac untouching := does ltac:(apply (triple_moves untouched); [solve [moving]|exact (spared_untouched c0)]).

Lemma connect_psk_spares config psk st :
  st <> SS_Ready ->
  triple (spared c0) (connect_with_psk env config psk st) (fun _ => not_ready) (spared c0).
Proof.
  intros N. unfold connect_with_psk. untouching. case_match; [fails|]. untouching.
  eapply (op_triple_bind _ _ (fun _ => not_ready)); [by intros c _|]. intros ?.
  eapply triple_errors; [|intros ? ?; by left].
  apply (triple_moves unready); [|exact not_ready_unready].
  assert (St : moves unready (put_state st)) by (apply unready_put; intros c E; by destruct (N E)).
  unfold tls_connect. moving.
Qed.

Lemma begin_spares config pairing preference :
  triple not_ready (begin_handshake_with_trust env config pairing preference) (fun _ _ => True) (spared c0).
Proof.
  intros c N. pose proof (begin_failing env config pairing preference c) as F.
  destruct (begin_handshake_with_trust _ _ _ _ c) as [[[a|e]|] c1]; [done|left; by eapply not_ready_unready..].
Qed.

Lemma relay_untouched pairing : moves untouched (open_relay_fallback env pairing).
Proof. unfold open_relay_fallback, stop_relay_bridge. moving. Qed.
Hint Resolve relay_untouched : moves.

Lemma connect_spares config pairing :
  triple (spared c0) (connect_with_pairing env config pairing) (fun _ _ => True) (spared c0).
Proof.
  unfold connect_with_pairing. do 4 untouching.
  eapply op_triple_bind; [eapply triple_attempt; [by apply connect_psk_spares|done]|]. intros [[]|e]; cbn beta iota.
  - apply begin_spares.
  - untouching. untouching. case_match; [|fails]. untouching.
    eapply op_triple_bind; [by apply connect_psk_spares|]. intros ?. apply begin_spares.
Qed.

Lemma pair_spares config pin preference :
  triple (spared c0) (pair_with_pin_as env config pin preference) (fun _ _ => True) (spared c0).
Proof.
  unfold pair_with_pin_as. do 2 untouching.
  eapply op_triple_bind; [by apply connect_psk_spares|]. intros ?. cbn beta.
  eapply op_triple_bind; [|intros ?; apply begin_spares].
  eapply triple_errors; [apply (triple_moves unready); [apply request_unready|exact not_ready_unready]|].
  intros c N. by left.
Qed.

Lemma reconnect_spares config id :
  triple (spared c0) (reconnect env config id) (fun _ _ => True) (spared c0).
Proof. unfold reconnect. untouching. case_match; [|fails]. apply connect_spares. Qed.

End Sparing.

(** ** The three ways to connect *)

Inductive ConnectOp : Type :=
| KO_Pair (pin : rstring) (preference : PairingTrust)
| KO_Reconnect (pairing_id : rstring)
| KO_Connect (pairing : PairingRecord).
Definition connect_op (env : ClientEnv) (config : SessionConfig) (k : ConnectOp) : op ReadySession :=
  match k with
  | KO_Pair pin preference => pair_with_pin_as env config pin preference
  | KO_Reconnect id => reconnect env config id
  | KO_Connect pairing => connect_with_pairing env config pairing
  end.

(** How the connection with the TLS identity [psk] was authenticated. *)
Definition authenticated_by (env : ClientEnv) (config : SessionConfig) (k : ConnectOp) (psk : PskIdentity)
    (ready : ReadySession) (c : Client) : Prop :=
  match k with
  | KO_Pair pin preference =>
    (exists key, ev_bootstrap_psk env pin = Ok key /\ psk = mkPskIdentity BOOTSTRAP_IDENTITY key) /\
    exists pairing, origin pairing (Some preference) c /\ ready_log config pairing (Some preference) ready c
  | KO_Reconnect id =>
    exists pairing n records, ev_load env n = Ok records /\ ClientStore.find_record id records = Some pairing /\
      PskIdentity_pairing (pr_id pairing) (pr_key pairing) = Ok psk /\ ready_log config pairing None ready c
  | KO_Connect pairing =>
    PskIdentity_pairing (pr_id pairing) (pr_key pairing) = Ok psk /\ ready_log config pairing None ready c
  end.

Lemma connect_op_ok env config k c ready c' :
  saved_ok env c -> connect_op env config k c = (Some (Ok ready), c') ->
  saved_ok env c' /\ exists psk, connected_as psk c' /\ authenticated_by env config k psk ready c'.
Proof.
  intros S E. destruct k as [pin preference|id|pairing]; cbn [connect_op] in E.
  - pose proof (pair_ready env config pin preference c S) as T. rewrite E in T.
    destruct T as (S' & pairing & key & O & R & K & C). split; [done|]. eexists. split; [exact C|].
    split; [by exists key|by exists pairing].
  - pose proof (reconnect_ready env config id c S) as T. rewrite E in T.
    destruct T as (S' & pairing & psk & I & (n & l & L & F) & R & K & C). split; [done|]. exists psk.
    split; [done|]. by exists pairing, n, l.
  - pose proof (connect_with_pairing_ready env config pairing c S) as T. rewrite E in T.
    destruct T as (S' & R & psk & K & C). split; [done|]. by exists psk.
Qed.
Lemma connect_with_pairing_fields env config pairing c ready c' :
  connect_with_pairing env config pairing c = (Some (Ok ready), c') -> ready_fields env ready c'.
Proof.
  unfold connect_with_pairing. intros H. do 4 inv_next H. inv_next H.
  case_match; [by eapply begin_fields|]. do 2 inv_next H. case_match; [|done]. do 2 inv_next H.
  by eapply begin_fields.
Qed.
Lemma connect_op_fields env config k c ready c' :
  connect_op env config k c = (Some (Ok ready), c') -> ready_fields env ready c'.
Proof.
  destruct k as [pin preference|id|pairing]; cbn [connect_op].
  - unfold pair_with_pin_as. intros H. do 4 inv_next H. by eapply begin_fields.
  - unfold reconnect. intros H. inv_next H. case_match; [|done]. by eapply connect_with_pairing_fields.
  - apply connect_with_pairing_fields.
Qed.

(** C8: a session is ready only after an authenticated exchange, whichever way it
    was made and whatever the network, the store and other threads answered.  The
    last TLS handshake was made with the key of the pairing (or with the one
    derived from the PIN, and then the pairing was granted on that connection); on
    it the client sent its handshake with this salt, and the host
    acknowledged it with capabilities that include authenticated UDP registration; the
    trust is the one the host announced, if that was negotiated, and else the one
    before.  The session's server, pairing, salt and UDP ciphers are those of this
    exchange. *)
Theorem client_ready_is_authenticated env config k c ready c' :
  saved_ok env c -> connect_op env config k c = (Some (Ok ready), c') ->
  (exists psk, connected_as psk c' /\ authenticated_by env config k psk ready c') /\ ready_fields env ready c'.
Proof.
  intros S E. destruct (connect_op_ok env config k c ready c' S E) as [_ H].
  split; [exact H|]. by eapply connect_op_fields.
Qed.


(** ** Runs *)

(** Whatever the client does, one operation after the other. *)
Inductive SessionOp : Type :=
| SO_Connect (config : SessionConfig) (k : ConnectOp)
| SO_Disconnect
| SO_SendUdp (packet_type : PacketType) (payload : list byte)
| SO_ReceiveUdp (fuel : nat) (at_ : option Instant)
| SO_Session (o : ClientOp).

Definition session_op (env : ClientEnv) (c : Client) (o : SessionOp) : Client :=
  match o with
  | SO_Connect config k => (connect_op env config k c).2
  | SO_Disconnect => (disconnect env c).2
  | SO_SendUdp t payload => (send_udp env t payload c).2
  | SO_ReceiveUdp fuel at_ => (receive_udp_event_clock env fuel at_ c).2
  | SO_Session o =>
    set_co_session (client_op (ev_decrypt env) (ev_decodes env) (fun sent => ev_unix_ms env (length sent))
      (fun _ _ => co_tcp c) (co_session c) o) c
  end.
Definition session_ops (env : ClientEnv) : Client -> list SessionOp -> Client := foldl (session_op env).

(** Only saves matter to [saved_ok]. *)
Definition unsaved (c c' : Client) : Prop := exists l, co_log c' = l ++ co_log c /\ Forall plain l.
#[local] Instance unsaved_stable : AskStable unsaved.
Proof.
  split; [split|..].
  - by intros c; exists [].
  - intros c1 c2 c3 (l & E & F) (l' & E' & F'). exists (l' ++ l). rewrite E', E, app_assoc.
    by split; [|apply Forall_app_2].
  - by intros; exists [].
  - by intros; exists [].
Qed.
Lemma unsaved_put f : (forall c, co_log (f c) = co_log c) -> moves unsaved (put f).
Proof. intros H c. exists []. by rewrite <- (H c). Qed.
Lemma unsaved_emit e : plain e -> moves unsaved (emit e).
Proof. intros H c. exists [e]. by repeat constructor. Qed.
#[local] Hint Extern 1 (moves unsaved (put _)) => (apply unsaved_put; intros ?; by repeat case_match) : moves.
#[local] Hint Extern 1 (moves unsaved (emit _)) => (apply unsaved_emit; done) : moves.

Lemma unsaved_registration env : moves unsaved (send_udp_registration env).
Proof. unfold send_udp_registration. moving. Qed.
#[local] Hint Resolve unsaved_registration : moves.
Lemma unsaved_receive env fuel deadline : moves unsaved (udp_receive env fuel deadline).
Proof. revert deadline. induction fuel as [|fuel IH]; intros; cbn [udp_receive]; moving. Qed.
#[local] Hint Resolve unsaved_receive : moves.

Lemma session_op_saved env c o : saved_ok env c -> saved_ok env (session_op env c o).
Proof.
  intros S.
  assert (U : forall c', unsaved c c' -> saved_ok env c')
    by (intros c' (l & E & F); unfold saved_ok; rewrite E; by apply saves_ok_app).
  destruct o as [config k| |t payload|fuel at_|o]; cbn [session_op].
  - assert (T : triple (saved_ok env) (connect_op env config k) (fun _ => saved_ok env) (saved_ok env)).
    { destruct k; (eapply triple_conseq; [first [apply pair_ready|apply reconnect_ready|apply connect_with_pairing_ready]|done| |done]);
        by intros ready c' [S' _]. }
    specialize (T c S). by destruct (connect_op env config k c) as [[[a|e]|] c1].
  - apply U. generalize c. change (moves unsaved (disconnect env)). unfold disconnect, stop_relay_bridge, interrupt_session, shutdown_tcp. moving.
  - apply U. generalize c. change (moves unsaved (send_udp env t payload)). unfold send_udp. moving.
  - apply U. generalize c. change (moves unsaved (receive_udp_event_clock env fuel at_)).
    unfold receive_udp_event_clock, on_session. moving. intros c'. exists []. by case_match.
  - apply U. by exists [].
Qed.

(** C19: in every run, what the client stores of a pairing is what the host
    authorized: a record is saved only when, on the same connection, the host
    had granted that pairing, with the trust the host announced or that of an owner;
    or when it was stored already and the host announced its new trust.  A pairing for one
    session is never stored. *)
Theorem only_authorized_pairings_stored env c ops l1 r l2 :
  co_log c = [] -> co_log (session_ops env c ops) = l1 ++ LX_Saved r :: l2 ->
  save_justified env r l2 /\ pr_trust r <> PT_GuestOnce.
Proof.
  intros E L. assert (S : saved_ok env (session_ops env c ops)).
  { assert (S : saved_ok env c) by (unfold saved_ok; by rewrite E).
    clear L E. revert c S. induction ops as [|o ops IH]; [done|]. intros c S. apply IH. by apply session_op_saved. }
  unfold saved_ok in S. rewrite L in S. clear -S.
  assert (J : save_justified env r l2).
  { induction l1 as [|e l1 IH]; [by destruct S|]. destruct e; try by apply IH. destruct S as [_ S]. by apply IH. }
  split; [exact J|by destruct J].
Qed.

(** ** Disconnecting *)

Section Disconnecting.

Context (env : ClientEnv).

Lemma check_when_cancelled c :
  (forall n, ev_cancelled env n <> Some false) -> cl_cancelled (co_session c) = true ->
  exists c', check_cancelled env c = (Some (Err XE_Cancelled), c') /\ co_log c' = co_log c.
Proof.
  intros N C. unfold check_cancelled, is_cancelled, op_bind, ask, put, get. cbn.
  destruct (ev_cancelled env (co_asked c)) as [[]|] eqn:E; cbn.
  - by eexists.
  - by destruct (N (co_asked c)).
  - rewrite C. by eexists.
Qed.

Lemma connect_psk_when_cancelled config psk st c :
  (forall n, ev_cancelled env n <> Some false) -> cl_cancelled (co_session c) = true ->
  exists e c', connect_with_psk env config psk st c = (Some (Err e), c') /\ co_log c' = co_log c.
Proof.
  intros N C. unfold connect_with_psk. unfold op_bind at 1, get. destruct (co_owner c); [by eexists _, c|].
  destruct (check_when_cancelled c N C) as (c' & E & L). unfold op_bind at 1. rewrite E. by eexists _, c'.
Qed.

Lemma connect_when_cancelled config k c :
  (forall n, ev_cancelled env n <> Some false) -> cl_cancelled (co_session c) = true ->
  exists e c', connect_op env config k c = (Some (Err e), c') /\ co_log c' = co_log c.
Proof.
  intros N. assert (K : forall pairing c, cl_cancelled (co_session c) = true ->
    exists e c', connect_with_pairing env config pairing c = (Some (Err e), c') /\ co_log c' = co_log c).
  { intros pairing c0 C. unfold connect_with_pairing. unfold op_bind at 1.
    destruct (check_when_cancelled c0 N C) as (c' & E & L). rewrite E. by eexists _, c'. }
  intros C. destruct k as [pin preference|id|pairing]; cbn [connect_op].
  - unfold pair_with_pin_as. unfold op_bind at 1, put. unfold op_bind at 1.
    destruct (ev_bootstrap_psk env pin) as [key|e]; cbn [lift]; [|by eexists _, _].
    unfold mret, op_ret. unfold op_bind at 1.
    destruct (connect_psk_when_cancelled config (mkPskIdentity BOOTSTRAP_IDENTITY key) SS_AwaitingPairing
      (set_client_inner (set_ended None) c) N C) as (e & c' & E & L). rewrite E. by eexists _, c'.
  - unfold reconnect, store_load_all. unfold op_bind at 1. unfold op_bind at 1, ask.
    destruct (ev_load env (co_asked c)) as [l|e]; cbn [lift]; [|by eexists _, _].
    unfold mret, op_ret. case_match; [|by eexists _, _].
    match goal with |- context [connect_with_pairing env config p ?c1] => destruct (K p c1 C) as (e & c' & E & L) end.
    by eexists e, c'.
  - by apply K.
Qed.

Lemma shutdown_spec c :
  exists r asked now, shutdown_tcp env c = (Some r, set_co_asked asked (set_co_now now (set_co_tcp false c))).
Proof.
  unfold shutdown_tcp, op_bind, get, put, ask. cbn. destruct (co_tcp c).
  - change (co_asked (set_co_tcp false c)) with (co_asked c).
    destruct (ev_socket env (co_asked c)) as [[]|[]]; eexists _, _, _; reflexivity.
  - by eexists _, (co_asked c), (co_now c).
Qed.

(** What the steps of [disconnect] achieve one after the other. *)
Definition relay_off (c : Client) : Prop := co_relay c = false /\ cl_cancelled (co_session c) = true.
Definition media_cleared (c : Client) : Prop :=
  relay_off c /\ session_state c = SS_Disconnected /\
  in_frames (cl_state (co_session c)) = FrameAssembler_default /\
  pending_frames (in_audio (cl_state (co_session c))) = 0 /\
  pas_completed_image (in_parity (cl_state (co_session c))) = None.
Definition cleared (c : Client) : Prop :=
  media_cleared c /\ (forall p, co_pairing c = Some p -> pr_trust p <> PT_GuestOnce) /\ co_udp c = None.

Lemma op_triple_put (P Q : Client -> Prop) f E : (forall c, P c -> Q (f c)) -> triple P (put f) (fun _ => Q) E.
Proof. intros H c p. by apply H. Qed.

Lemma disconnect_clears :
  triple (fun _ => True) (disconnect env)
    (fun _ c => (cleared c /\ co_tcp c = false) /\ co_udp_send c = None /\ cl_udp_receive (co_session c) = None)
    (fun c => cleared c /\ co_tcp c = false).
Proof.
  unfold disconnect, stop_relay_bridge, interrupt_session, emit.
  eapply (op_triple_bind _ _ (fun _ c => co_relay c = false)).
  { eapply (op_triple_bind _ _ (fun _ c => co_relay c = false)); [by apply op_triple_put|intros ?; by apply op_triple_put]. }
  intros ?. eapply (op_triple_bind _ _ (fun _ => relay_off)).
  { eapply (op_triple_bind _ _ (fun _ => relay_off)); [apply op_triple_put; intros c H; by split|intros ?].
    eapply (op_triple_bind _ _ (fun _ => relay_off)); [|intros ?]; apply op_triple_put; intros c [H1 H2]; by split. }
  intros ?. eapply (op_triple_bind _ _ (fun _ => relay_off)); [by intros c|]. intros trace_result.
  eapply (op_triple_bind _ _ (fun _ => media_cleared)); [apply op_triple_put; intros c H; by split_and!|]. intros ?.
  eapply (op_triple_bind _ _ (fun _ c => media_cleared c /\ (forall p, co_pairing c = Some p -> pr_trust p <> PT_GuestOnce))).
  { apply op_triple_put. intros c M. case_match eqn:E; [case_match eqn:T|]; split; try done; intros q Q; [|congruence].
    apply bool_decide_eq_false in T. congruence. }
  intros ?. eapply (op_triple_bind _ _ (fun _ => cleared)); [apply op_triple_put; intros c [M Q]; by split_and!|]. intros ?.
  eapply (op_triple_bind _ _ (fun _ c => cleared c /\ co_tcp c = false)).
  { intros c M. destruct (shutdown_spec c) as ([[]|e] & asked & now & ->); by split. }
  intros ?. eapply (op_triple_bind _ _ (fun _ c => (cleared c /\ co_tcp c = false) /\ co_udp_send c = None));
    [apply op_triple_put; intros c M; split; [exact M|reflexivity]|]. intros ?.
  eapply (op_triple_bind _ _ (fun _ c => (cleared c /\ co_tcp c = false) /\ co_udp_send c = None /\
    cl_udp_receive (co_session c) = None)); [apply op_triple_put; intros c [[M U] Q]|].
  { split; [split; [exact M|exact U]|split; [exact Q|reflexivity]]. }
  intros ?.
  refine (triple_conseq _ _ _ _ _ _ _ (op_triple_lift _ _ _) (fun _ p => p) _ _); intros; cbn beta in *; tauto.
Qed.

Lemma total_shutdown : total (shutdown_tcp env).
Proof. intros c. by destruct (shutdown_spec c) as (r & asked & now & ->). Qed.
Hint Resolve total_shutdown : total.
Lemma total_disconnect : total (disconnect env).
Proof. unfold disconnect, stop_relay_bridge, interrupt_session. returns. Qed.

(** Disconnecting always completes, and leaves nothing of the session: no
    TLS connection, no UDP transport, no bridge to the relay, no frames, audio
    or images, no pairing that was for one session, and (unless shutting down the
    socket failed) no cipher.  Afterwards nothing is sent, and nothing makes the
    session ready; it is cancelled, so that as long as nobody clears the flag no
    attempt to connect gets as far as a socket. *)
Theorem disconnect_is_complete c :
  let (r, c') := disconnect env c in
  let i := cl_state (co_session c') in
  r <> None /\ in_state i = SS_Disconnected /\ co_tcp c' = false /\ co_udp c' = None /\ co_relay c' = false /\
  in_frames i = FrameAssembler_default /\ pending_frames (in_audio i) = 0 /\
  pas_completed_image (in_parity i) = None /\
  (forall p, co_pairing c' = Some p -> pr_trust p <> PT_GuestOnce) /\
  (r = Some (Ok tt) -> co_udp_send c' = None /\ cl_udp_receive (co_session c') = None) /\
  (forall unix_ms accepts ops,
     let s := client_ops (ev_decrypt env) (ev_decodes env) unix_ms accepts (co_session c') ops in
     in_state (cl_state s) = SS_Disconnected /\ cl_tcp_sent s = cl_tcp_sent (co_session c')) /\
  ((forall n, ev_cancelled env n <> Some false) -> forall config k,
     exists e c'', connect_op env config k c' = (Some (Err e), c'') /\ co_log c'' = co_log c').
Proof.
  pose proof (total_disconnect c) as T. pose proof (disconnect_clears c I) as D.
  destruct (disconnect env c) as [r c']. cbn zeta. cbn [fst] in T.
  assert (H : (cleared c' /\ co_tcp c' = false) /\
    (r = Some (Ok tt) -> co_udp_send c' = None /\ cl_udp_receive (co_session c') = None)).
  { destruct r as [[[]|e]|]; [|by split..]. by destruct D as [D1 D2]. }
  destruct H as [[(((R & C) & St & F & A & Im) & G & U) Tcp] Ci].
  split_and!; try done.
  - intros unix_ms accepts ops. destruct (ops_not_ready (ev_decrypt env) (ev_decodes env) unix_ms accepts ops
      (co_session c')) as [A' B]; [unfold session_state in St; congruence|]. cbn zeta. split; [|done].
    rewrite A'. exact St.
  - intros N config k. by apply connect_when_cancelled.
Qed.

End Disconnecting.

(** ** Examples *)

(** A network where everything succeeds; the host's packets are [frames]. *)
Definition toy_env (frames : nat -> list byte) (stored : list PairingRecord) : ClientEnv :=
  mkClientEnv (fun _ _ _ n => repeat Byte.x07 (Z.to_nat n)) toy_encrypt (fun _ => Ok (repeat Byte.x05 32))
    (fun _ => 1000) (fun _ => 0) (fun _ => None) (fun _ _ port => Ok [mkSocketAddr [] port]) (fun _ => Ok tt)
    (fun _ => CA_Result (Ok tt)) (fun _ => Ok tt) (fun _ _ => Ok tt) (fun _ => repeat Byte.x09 16)
    (fun _ => Ok tt) (fun _ => Ok tt) (fun _ => Ok tt) (fun n => Ok (frames n)) (fun _ => Ok stored) (fun _ => Ok tt)
    (fun _ => false) (fun _ => Err EK_TimedOut) (fun _ _ _ _ => None) (fun _ => true)
    (fun _ => Some (str_bytes "secret")) (fun _ => None) (fun _ => []) (fun _ => false) (fun _ => false).
Definition toy_frame (t : PacketType) (payload : cresult (list byte)) : list byte :=
  PacketHeader_to_bytes (mkPacketHeader t 1 0 0) ++ match payload with Ok b => b | Err _ => [] end.
Definition toy_host (capabilities : Capabilities) : Handshake :=
  mkHandshake (str_bytes "host") 1920 1080 0x3f800000 PROTOCOL_VERSION capabilities (str_bytes "id") (repeat Byte.x00 16).
Definition toy_ack (capabilities : Capabilities) : list byte :=
  toy_frame PT_HandshakeAck (Handshake_encode (toy_host capabilities)).
Definition toy_grant : list byte :=
  toy_frame PT_PairingGrant (PairingGrant_encode (mkPairingGrant (str_bytes "id") (str_bytes "host") (repeat Byte.x05 32))).
Definition toy_trust (trust : PairingTrust) : list byte :=
  toy_frame PT_Control (ControlMessage_encode (CM_PairingTrustGrant (mkPairingTrustGrant trust))).
Definition toy_config : SessionConfig := SessionConfig_direct (str_bytes "host") (str_bytes "client").
Definition toy_inner : SessionStateInner :=
  mkInner SS_Disconnected 0 None FrameAssembler_default ReceiverStats_default AudioFragmentReassembler_default
    CursorState_default (mkStreamState false None [] None None)
    (mkParityState (mkSessionInfo None None None None) [] None None 0 ImageAssembly_default true None).
Definition toy_client : Client :=
  mkClient (mkClientSession implemented_capabilities toy_inner None false 0 None false []) None None None RC_Idle
    false false false None None 0 0 None false EventSlots_default EventSlots_default 0 [] 0.
Definition toy_record : PairingRecord := PairingRecord_new (str_bytes "id") (str_bytes "host") (repeat Byte.x05 32) 0.

Definition toy_connect_env : ClientEnv := toy_env (fun _ => toy_ack CAP_AUTHENTICATED_UDP_REGISTRATION) [].
Definition toy_pair_env : ClientEnv :=
  toy_env (fun n =>
    if Nat.ltb n 20 then toy_grant
    else if Nat.ltb n 30 then toy_ack (Z.lor CAP_AUTHENTICATED_UDP_REGISTRATION CAP_PAIRING_TRUST)
    else toy_trust PT_Owner) [].

(** A stored pairing connects. *)
Lemma client_ready_is_authenticated_witness :
  match connect_op toy_connect_env toy_config (KO_Connect toy_record) toy_client with
  | (Some (Ok ready), c') =>
    rs_pairing ready = toy_record /\
    (exists psk, connected_as psk c' /\ authenticated_by toy_connect_env toy_config (KO_Connect toy_record) psk ready c') /\
    ready_fields toy_connect_env ready c'
  | _ => False
  end.
Proof.
  destruct (connect_op toy_connect_env toy_config (KO_Connect toy_record) toy_client) as [[[ready|e]|] c'] eqn:E.
  - split.
    + vm_compute in E. injection E as <- _. reflexivity.
    + exact (client_ready_is_authenticated toy_connect_env toy_config (KO_Connect toy_record) toy_client ready c' I E).
  - vm_compute in E. discriminate E.
  - vm_compute in E. discriminate E.
Defined.

(** A device pairs with a PIN: the granted pairing is stored. *)
Definition toy_paired : Client := session_ops toy_pair_env toy_client [SO_Connect toy_config (KO_Pair [] PT_Owner)].
Lemma only_authorized_pairings_stored_witness :
  let log := co_log toy_paired in
  session_state toy_paired = SS_Ready /\ log = take 1 log ++ LX_Saved toy_record :: drop 2 log /\
  save_justified toy_pair_env toy_record (drop 2 log) /\ pr_trust toy_record <> PT_GuestOnce.
Proof.
  cbn zeta. split; [vm_compute; reflexivity|]. split; [vm_compute; reflexivity|].
  apply (only_authorized_pairings_stored toy_pair_env toy_client
    [SO_Connect toy_config (KO_Pair [] PT_Owner)] (take 1 (co_log toy_paired)) toy_record (drop 2 (co_log toy_paired)));
    [reflexivity|vm_compute; reflexivity].
Defined.

(** A session whose connection goes over the relay and belongs to a runtime: another
    attempt to connect is refused, but has stopped the bridge. *)
Definition toy_relayed : Client :=
  set_co_owner true (set_co_relay true (set_client_inner (fun i => set_state i SS_Ready) toy_client)).
Definition toy_relay_record : PairingRecord :=
  mkPairingRecord (str_bytes "id") (str_bytes "host") (repeat Byte.x05 32) 0 None [] (Some (str_bytes "wss://relay")) None
    PT_Owner.
Example refused_connect_stops_relay :
  let (r, c') := connect_with_pairing toy_connect_env toy_config toy_relay_record toy_relayed in
  r = Some (Err XE_TcpRuntimeAlreadyRunning) /\ session_state c' = SS_Ready /\
  co_relay toy_relayed = true /\ co_relay c' = false.
Proof. vm_compute. by split_and!. Qed.

(** The audio of a host counts its frames from one in each session; the client
    keeps the number of the newest one over a reconnection, and drops what is older. *)
Definition toy_fragment (frame_id : Z) : AudioFragment :=
  mkAudioFragment (mkAudioFragmentHeader frame_id 0 1) (str_bytes "sound").
Definition toy_listening : Client :=
  set_client_inner (fun i => set_media i (in_frames i) (in_receiver i) (audio_push (in_audio i) (toy_fragment 500)).2)
    toy_client.
Example audio_silent_after_reconnect :
  let (r, c') := connect_with_pairing toy_connect_env toy_config toy_record toy_listening in
  (exists ready, r = Some (Ok ready)) /\
  (audio_push AudioFragmentReassembler_default (toy_fragment 1)).1 = Some (str_bytes "sound") /\
  (audio_push (in_audio (cl_state (co_session c'))) (toy_fragment 1)).1 = None /\
  (audio_push (in_audio (cl_state (co_session c'))) (toy_fragment 499)).1 = None /\
  (audio_push (in_audio (cl_state (co_session c'))) (toy_fragment 500)).1 = Some (str_bytes "sound").
Proof. vm_compute. split; [by eexists|by split_and!]. Qed.
