(* ===== verification/ClientSupervisor.v ===== *)
(** * The client's runtime thread

    [clients/rust/maho-app/src/session.rs]: [spawn_tcp_generation], the thread that
    owns the TLS connection of one generation; [spawn_tcp_runtime], the thread that
    hands its events on, probes the round-trip time, and connects again when the
    connection is lost ([supervise]).  During each wait of the supervisor the
    other threads take any number of steps ([ev_threads]).  A panic of a thread is
    not modelled, nor the flag that tells [SessionRuntime::stop] that a
    reconnection is running: the stop and the interruption it causes
    come from the environment. *)

From S2P Require Import Prelude Codec Packet Handshake Pairing Media Parity Control UdpGcm Admission Guests.
From S2P Require Import Assembler AudioReassembler ReceiverStats ClipboardImage Transport ClientSession ClientStore ClientRuntime.
From S2P Require Import ClientConnect.
Local Open Scope op_scope.

(** ** The thread of a generation *)

Definition push_event (e : RuntimeEvent) (c : Client) : Client := set_co_events (events_push (co_events c) e) c.
Definition push_output (e : RuntimeEvent) (c : Client) : Client := set_co_output (events_push (co_output c) e) c.

(** Its cleanup: the connection is closed, never used again. *)
Definition end_generation (shutdown : option IoErrorKind) (c : Client) : Client :=
  let c := set_co_owner false (set_co_tcp false c) in
  let c := set_client_inner (fun i => set_state i SS_Disconnected) c in
  let c := match shutdown with
           | Some EK_NotConnected | None => c
           | Some kind => push_event (Err (XE_Io kind)) c
           end in
  set_co_events (events_close (co_events c)) c.

Section Supervisor.

Context (env : ClientEnv) (config : SessionConfig) (epoch : Instant).

(** What a frame makes of the session. *)
Definition frame_event (frame : list byte) (now : Instant) (unix_ms : Z) (written : result TlsPskError unit)
    (s : ClientSession) : RuntimeEvent * ClientSession :=
  if len frame <? PACKET_HEADER_SIZE then (Err (XE_Io EK_InvalidData), s)
  else
    let accepts := match written with Ok _ => true | Err _ => false end in
    match tcp_frame_event (ev_decodes env) (fun _ => unix_ms) (fun _ _ => accepts) s frame now with
    | (Ok event, s) => (Ok event, s)
    | (Err e, s) => (Err (of_session (match written with Err e => XE_Tls e | Ok _ => XE_NotReady end) e), s)
    end.

Definition thread_step (c : Client) (step : ThreadStep) : Client :=
  match step with
  | TS_Frame frame now unix_ms written shutdown =>
    if co_owner c then
      let '(event, s) := frame_event frame now unix_ms written (co_session c) in
      let c := set_co_session s c in
      match event with
      | Ok EV_Ignored => c
      | Ok event => push_event (Ok event) c
      | Err e => end_generation shutdown (push_event (Err e) c)
      end
    else c
  | TS_Error e shutdown => if co_owner c then end_generation shutdown (push_event (Err e) c) else c
  | TS_Session o unix_ms accepts =>
    set_co_session (client_op (ev_decrypt env) (ev_decodes env) (fun _ => unix_ms) (fun _ _ => accepts && co_tcp c)
      (co_session c) o) c
  | TS_Interrupt => set_session interrupt c
  end.
Definition run_threads : op unit := steps ← ask env (ev_threads env); put (fun c => foldl thread_step c steps).

(** [spawn_tcp_generation]. *)
Definition spawn_tcp_generation : op unit :=
  state ← get session_state;
  if negb (bool_decide (state = SS_Ready)) then fail XE_NotReady else
  _ ← io env;                                    (* the runtime is built *)
  owner ← get co_owner;
  if owner then fail XE_TcpRuntimeAlreadyRunning else
  tcp ← get co_tcp;
  if negb tcp then fail XE_NotReady else
  _ ← io env; _ ← io env;                        (* try_clone, set_nonblocking *)
  registered ← ask env (ev_socket env);
  match registered with
  | Err kind => _ ← io env; fail (XE_Io kind)    (* set_nonblocking back *)
  | Ok _ =>
    _ ← put (set_co_events EventSlots_default);
    put (set_co_owner true)
  end.

(** [generation.stop()]: the thread may handle some more frames, and is joined. *)
Definition stop_generation : op unit :=
  _ ← run_threads;
  shutdown ← ask env (ev_socket env);
  put (fun c => if co_owner c
                then end_generation (match shutdown with Err kind => Some kind | Ok _ => None end) c else c).

(** ** Connecting again *)

Definition RECONNECT_WINDOW : Duration := from_secs 60.
Definition RECONNECT_TIMEOUT : Duration := from_secs 5.

Definition session_ended (c : Client) : bool := bool_decide (is_Some (si_ended (session_info c))).

Definition set_reconnecting (attempt : Z) (delay : Duration) (c : Client) : Client :=
  let c := set_co_reconnect (RC_Reconnecting attempt (delay / 1000000)) c in
  set_client_inner (fun i =>
    let p := in_parity i in
    set_parity i (set_rtt (set_images p (image_discard (pas_images p)) (pas_completed_image p)) (pas_rtt p) None)) c.

Definition connector_config (remaining : Duration) : SessionConfig :=
  mkSessionConfig (sc_host config) (sc_tcp_port config) (sc_udp_port config) (sc_client_name config)
    (Z.min remaining RECONNECT_TIMEOUT) (Z.min remaining RECONNECT_TIMEOUT).

(** The loop of the reconnection: whether it recovered, and the reason of the last failure. *)
Fixpoint reconnect_loop (fuel : nat) (pairing : PairingRecord) (deadline : Instant) (attempts : Z)
    (reason : ConnectError) : op (bool * ConnectError) :=
  match fuel with
  | O => out_of_fuel
  | S fuel =>
    let number := attempts + 1 in
    let delay := retry_delay number in
    now ← clock env;
    if deadline <=? now + delay then mret (false, reason) else
    _ ← put (set_reconnecting number delay);
    built ← ask env (ev_socket env);
    match built with
    | Err kind => mret (false, XE_Io kind)
    | Ok _ =>
      _ ← run_threads;
      woken ← ask env (ev_woken env);
      _ ← when (negb woken) (pass delay);
      cancelled ← (if woken then mret true else is_cancelled env);
      if cancelled then mret (false, reason) else
      now ← clock env;
      let remaining := saturating_duration_since deadline now in
      _ ← emit (LX_Attempt number now);
      connected ← attempt (connect_with_pairing env (connector_config remaining) pairing);
      match connected with
      | Ok _ =>
        spawned ← attempt spawn_tcp_generation;
        mret (match spawned with Ok _ => (true, reason) | Err e => (false, e) end)
      | Err e =>
        if should_reconnect e then reconnect_loop fuel pairing deadline number e else mret (false, e)
      end
    end
  end.
(** Eleven delays are more than the window. *)
Definition reconnect_fuel : nat := 11.

(** ** The supervisor *)

Inductive Turn : Type := TU_Continue (next_probe : Instant) | TU_Break.

(** The arm of the [match] for an error of the generation. *)
Definition recover (error : ConnectError) : op Turn :=
  _ ← stop_generation;
  pairing ← get (fun c => if session_ended c then None else co_pairing c);
  cancelled ← is_cancelled env;
  ended ← get session_ended;
  if cancelled && negb ended then mret TU_Break else
  cancelled ← is_cancelled env;
  match pairing with
  | Some pairing =>
    if cancelled || negb (should_reconnect error) || bool_decide (pr_trust pairing = PT_GuestOnce)
    then _ ← put (push_output (Err error)); mret TU_Break
    else
      now ← clock env;
      outcome ← reconnect_loop reconnect_fuel pairing (now + RECONNECT_WINDOW) 0 error;
      let '(recovered, reason) := outcome in
      _ ← put (set_co_reconnect (if recovered then RC_Reconnected else RC_GaveUp reason));
      if negb recovered then _ ← put (push_output (Err error)); mret TU_Break
      else now ← clock env; mret (TU_Continue now)
  | None => _ ← put (push_output (Err error)); mret TU_Break
  end.

Definition is_terminal (event : SessionEvent) : bool :=
  match event with EV_StreamConfig (CM_SessionEnded _) => true | _ => false end.
Definition HEARTBEAT_INTERVAL : Duration := from_secs 2.
Definition POLL_INTERVAL : Duration := from_millis 100.

(** [session.is_cancelled() && ended.is_none()] *)
Definition abandoned : op bool :=
  cancelled ← is_cancelled env;
  ended ← get session_ended;
  mret (cancelled && negb ended).

(** The probe of the round-trip time, when it is due. *)
Definition probe (next_probe : Instant) : op Instant :=
  now ← clock env;
  if next_probe <=? now then
    now ← clock env;
    _ ← attempt (on_session env (fun unix_ms accepts s => send_rtt_probe unix_ms accepts s epoch now));
    now ← clock env;
    mret (now + HEARTBEAT_INTERVAL)
  else mret next_probe.

(** The next event of the generation, within 100 ms. *)
Definition next_event : op (result EventsError RuntimeEvent) :=
  _ ← run_threads;
  r ← (fun c => let '(r, events) := events_result VE_Timeout (co_events c) in
                (Some (Ok r), set_co_events events c));
  _ ← when (match r with Err VE_Timeout => true | _ => false end) (pass POLL_INTERVAL);
  mret r.

Definition supervisor_turn (next_probe : Instant) : op Turn :=
  stopped ← ask env (ev_stopped env);
  quits ← (if stopped then mret true else abandoned);
  if quits then mret TU_Break else
  next_probe ← probe next_probe;
  event ← next_event;
  match event with
  | Ok (Ok event) =>
    _ ← put (push_output (Ok event));
    mret (if is_terminal event then TU_Break else TU_Continue next_probe)
  | Err VE_Timeout => mret (TU_Continue next_probe)
  | Ok (Err error) => recover error
  | Err _ => recover XE_TcpRuntimeStopped
  end.

Fixpoint supervise (turns : nat) (next_probe : Instant) : op unit :=
  match turns with
  | O => out_of_fuel
  | S turns =>
    turn ← supervisor_turn next_probe;
    match turn with
    | TU_Continue next_probe => supervise turns next_probe
    | TU_Break =>
      _ ← stop_generation;
      put (fun c => set_co_output (events_close (co_output c)) c)
    end
  end.

(** [spawn_tcp_runtime], with the first [turns] turns of its thread. *)
Definition spawn_tcp_runtime (turns : nat) : op unit :=
  _ ← spawn_tcp_generation;
  _ ← put (set_co_output EventSlots_default);
  now ← clock env;
  supervise turns now.

End Supervisor.
