(* ===== verification/ClientReconnect.v ===== *)
(** * The client's runtime thread: what holds of it

    Of the supervisor of [ClientSupervisor]: which errors lead to another connection
    and how that ends ([recover_outcome]), how many attempts are made and when
    ([reconnection_bounded]). *)

From S2P Require Import Prelude Codec Packet Handshake Pairing Media Parity Control UdpGcm Admission Guests.
From S2P Require Import Assembler AudioReassembler ReceiverStats ClipboardImage Transport ClientSession ClientStore ClientRuntime.
From S2P Require Import ClientConnect ClientSafety ClientSupervisor.
Local Open Scope op_scope.

(** ** Steady statements

    All but the supervisor's own statements leave its output alone, do not count as
    an attempt to connect again, and turn back neither the clock nor the count of
    the environment's answers. *)

Definition attempts_of (log : list Effect) : list (Z * Instant) :=
  omap (fun e => match e with LX_Attempt n at_ => Some (n, at_) | _ => None end) log.

Definition steady (c c' : Client) : Prop :=
  (co_output c' = co_output c /\ co_now c <= co_now c' /\ attempts_of (co_log c') = attempts_of (co_log c)) /\
  (co_asked c <= co_asked c')%nat.
#[local] Instance steady_stable : AskStable steady.
Proof.
  split; [split|..]; unfold steady.
  - intros c. split_and!; (done || lia).
  - intros c1 c2 c3 ((A & B & C) & D) ((A' & B' & C') & D'). split_and!; (congruence || lia).
  - intros. cbn. split_and!; (done || lia).
  - intros. cbn. split_and!; (done || lia).
Qed.
Lemma steady_put f :
  (forall c, co_output (f c) = co_output c /\ co_now (f c) = co_now c /\
             attempts_of (co_log (f c)) = attempts_of (co_log c) /\ co_asked (f c) = co_asked c) -> moves steady (put f).
Proof. intros H c. destruct (H c) as (A & B & C & D). split_and!; cbn; (done || lia). Qed.
#[local] Hint Extern 1 (moves steady (put _)) => (apply steady_put; intros ?; repeat case_match; by split_and!) : moves.
#[local] Hint Extern 1 (moves steady (emit _)) => (apply steady_put; intros ?; by split_and!) : moves.

Section Steady.

Context (env : ClientEnv).

Lemma steady_on_session {A} (f : (list (list byte) -> Z) -> (list (list byte) -> list byte -> bool) -> ClientSession ->
  result ClientSession.SessionError A * ClientSession) : moves steady (on_session env f).
Proof. unfold on_session. moving. intros c. case_match. cbn. split_and!; cbn; (done || lia). Qed.
Hint Resolve steady_on_session : moves.
Lemma steady_send t payload : moves steady (send_packet env t payload).
Proof. unfold send_packet. moving. Qed.
Lemma steady_read : moves steady (read_tcp_packet env).
Proof. unfold read_tcp_packet. moving. Qed.
Lemma steady_interrupt : moves steady interrupt_session.
Proof. unfold interrupt_session. moving. Qed.
Lemma steady_open_udp config pairing salt : moves steady (open_udp env config pairing salt).
Proof. unfold open_udp. moving. Qed.
Hint Resolve steady_send steady_read steady_interrupt steady_open_udp : moves.
Lemma steady_begin config pairing preference : moves steady (begin_handshake_with_trust env config pairing preference).
Proof.
  unfold begin_handshake_with_trust, exchange_handshake, negotiate_trust, exchange_trust, persist, store_save,
    put_state, config_contains, of_result. moving.
Qed.
Lemma steady_connect_psk config psk st : moves steady (connect_with_psk env config psk st).
Proof. unfold connect_with_psk, tls_connect, put_state. moving. Qed.
Hint Resolve steady_begin steady_connect_psk : moves.
Lemma steady_connect config pairing : moves steady (connect_with_pairing env config pairing).
Proof. unfold connect_with_pairing, open_relay_fallback, stop_relay_bridge. moving. Qed.
Lemma steady_spawn : moves steady (spawn_tcp_generation env).
Proof. unfold spawn_tcp_generation. moving. Qed.

Lemma thread_step_outside c step :
  co_output (thread_step env c step) = co_output c /\ co_now (thread_step env c step) = co_now c /\
  co_log (thread_step env c step) = co_log c /\ co_asked (thread_step env c step) = co_asked c.
Proof.
  destruct step as [frame now unix_ms written shutdown|e shutdown|o unix_ms accepts|]; cbn [thread_step]; try done.
  - case_match; [|done]. destruct (frame_event _ _ _ _ _ _) as [event s].
    destruct event as [[]|e]; try done. unfold end_generation. by destruct shutdown as [[]|].
  - case_match; [|done]. unfold end_generation. by destruct shutdown as [[]|].
Qed.
Lemma thread_steps_outside steps c :
  co_output (foldl (thread_step env) c steps) = co_output c /\ co_now (foldl (thread_step env) c steps) = co_now c /\
  co_log (foldl (thread_step env) c steps) = co_log c /\ co_asked (foldl (thread_step env) c steps) = co_asked c.
Proof.
  revert c. induction steps as [|step steps IH]; [done|]. intros c. cbn [foldl].
  destruct (IH (thread_step env c step)) as (-> & -> & -> & ->). apply thread_step_outside.
Qed.
Lemma steady_threads : moves steady (run_threads env).
Proof.
  unfold run_threads. moving. match goal with |- steady ?c (foldl _ _ ?l) =>
    destruct (thread_steps_outside l c) as (A & B & C & D) end. unfold steady. rewrite A, B, C, D. split_and!; (done || lia).
Qed.
Hint Resolve steady_threads : moves.
Lemma end_outside shutdown c :
  co_output (end_generation shutdown c) = co_output c /\ co_now (end_generation shutdown c) = co_now c /\
  co_log (end_generation shutdown c) = co_log c /\ co_asked (end_generation shutdown c) = co_asked c.
Proof. unfold end_generation. by destruct shutdown as [[]|]. Qed.
Lemma steady_stop : moves steady (stop_generation env).
Proof.
  unfold stop_generation. moving. case_match; [|reflexivity].
  match goal with |- steady ?c (end_generation ?s ?c) => destruct (end_outside s c) as (A & B & C & D) end.
  unfold steady. rewrite A, B, C, D. split_and!; (done || lia).
Qed.

End Steady.

(** ** The loop of a reconnection *)

(** Statements without an error. *)
Definition succeeds {A} (m : op A) : Prop := forall c, exists a c', m c = (Some (Ok a), c').

Lemma succeeds_bind {A B} (m : op A) (f : A -> op B) : succeeds m -> (forall a, succeeds (f a)) -> succeeds (op_bind m f).
Proof. intros M F c. destruct (M c) as (a & c1 & E). unfold op_bind. rewrite E. apply F. Qed.
Lemma succeeds_attempt {A} (m : op A) : total m -> succeeds (attempt m).
Proof. intros T c. specialize (T c). unfold attempt. destruct (m c) as [[r|] c1]; [by eexists _, _|done]. Qed.
Lemma succeeds_when b m : succeeds m -> succeeds (when b m).
Proof. intros M. destruct b; [done|]. intros c. by eexists _, _. Qed.

(** Runs one of them. *)
Lemma run_next {A B} (m : op A) (k : A -> op B) c (F : option (result ConnectError B) * Client -> Prop) :
  succeeds m -> moves steady m ->
  (forall a c1, steady c c1 -> m c = (Some (Ok a), c1) -> F (k a c1)) -> F (op_bind m k c).
Proof.
  intros S M H. destruct (S c) as (a & c1 & E). specialize (M c). rewrite E in M. unfold op_bind. rewrite E. by apply H.
Qed.

Create HintDb succeeds.
Ltac succeeds_step :=
  match goal with
  | |- succeeds (op_bind _ _) => apply succeeds_bind; [|intros ?]
  | |- succeeds (when _ _) => apply succeeds_when
  | |- succeeds _ => solve [eauto with succeeds]
  | |- succeeds (match ?x with _ => _ end) => destruct x
  | |- succeeds (if ?x then _ else _) => destruct x
  | |- succeeds _ => intros ?; by eexists _, _
  end.
Ltac succeeding := repeat succeeds_step.

(** The delays before the first [n] attempts, together. *)
Fixpoint backoff (n : nat) : Duration :=
  match n with O => 0 | S n => backoff n + retry_delay (Z.of_nat (S n)) end.

Lemma retry_delay_pos a : 0 < retry_delay a.
Proof.
  unfold retry_delay, from_millis. rewrite Z.shiftl_1_l.
  assert (0 < 2 ^ Z.min (Z.max 0 (a - 1)) 4) by (apply Z.pow_pos_nonneg; lia). lia.
Qed.
Lemma backoff_mono n m : (n <= m)%nat -> backoff n <= backoff m.
Proof. induction 1 as [|m _ IH]; [done|]. cbn [backoff]. pose proof (retry_delay_pos (Z.of_nat (S m))). lia. Qed.

Section Loop.

Context (env : ClientEnv) (config : SessionConfig).

Lemma succeeds_clock : succeeds (clock env).
Proof. unfold clock. succeeding. Qed.
Lemma succeeds_cancelled : succeeds (is_cancelled env).
Proof. unfold is_cancelled. succeeding. Qed.
Lemma succeeds_threads : succeeds (run_threads env).
Proof. unfold run_threads. succeeding. Qed.
Lemma succeeds_stop : succeeds (stop_generation env).
Proof. unfold stop_generation. succeeding. Qed.
Hint Resolve succeeds_clock succeeds_cancelled succeeds_threads succeeds_stop : succeeds.
Lemma total_spawn : total (spawn_tcp_generation env).
Proof. unfold spawn_tcp_generation, io. returns. Qed.

(** A new generation owns the connection of a session that is ready. *)
Lemma spawn_ready c c' :
  spawn_tcp_generation env c = (Some (Ok tt), c') ->
  session_state c' = SS_Ready /\ co_owner c' = true /\ co_tcp c' = true /\ co_events c' = EventSlots_default.
Proof.
  unfold spawn_tcp_generation. intros H. inv_get H. case_match eqn:R; [done|].
  apply negb_false_iff, bool_decide_eq_true in R.
  inv_op H u1 c1 E1. pose proof (moves_io env untouched c) as U1. rewrite E1 in U1. clear E1.
  inv_get H. case_match; [done|]. inv_get H. case_match eqn:T; [done|]. apply negb_false_iff in T.
  inv_op H u2 c2 E2. pose proof (moves_io env untouched c1) as U2. rewrite E2 in U2. clear E2.
  inv_op H u3 c3 E3. pose proof (moves_io env untouched c2) as U3. rewrite E3 in U3. clear E3.
  inv_op H r c4 E4. pose proof (moves_ask env untouched (ev_socket env) c3) as U4. rewrite E4 in U4. clear E4.
  assert (U : untouched c c4) by (etrans; [exact U1|]; etrans; [exact U2|]; by etrans).
  assert (V : untouched c1 c4) by (etrans; [exact U2|]; by etrans). clear U1 U2 U3 U4.
  destruct r as [[]|k].
  - inv_put H. injection H as <-. destruct U as (_ & _ & _ & _ & _ & _ & _ & S & _), V as (_ & V & _). cbn in *.
    split_and!; [|done| |done]; [exact (eq_trans S R)|exact (eq_trans V T)].
  - inv_next H. done.
Qed.

(** What the loop did after [n] attempts: the next ones, in order, each after its
    delays, while these fit before the deadline. *)
Definition loop_spec (n : nat) (deadline : Instant) (c : Client)
    (r : option (result ConnectError (bool * ConnectError)) * Client) : Prop :=
  match r with
  | (Some (Ok (recovered, _)), c') =>
    co_output c' = co_output c /\
    (exists new, attempts_of (co_log c') = new ++ attempts_of (co_log c) /\
       new.*1 = reverse (seqZ (Z.of_nat n + 1) (len new)) /\
       Forall (fun '(i, t) => co_now c + (backoff (Z.to_nat i) - backoff n) <= t /\
                              co_now c + (backoff (Z.to_nat i) - backoff n) < deadline) new) /\
    (recovered = true -> session_state c' = SS_Ready /\ co_owner c' = true /\ co_tcp c' = true)
  | _ => False
  end.

(** No attempt was made. *)
Lemma loop_none n deadline c c' reason :
  steady c c' -> loop_spec n deadline c (op_ret _ (false, reason) c').
Proof.
  intros ((O & _ & L) & _). split; [done|]. split; [|done]. exists []. by rewrite L.
Qed.

Lemma seqZ_reverse_snoc a k : reverse (seqZ a (Z.of_nat (S k))) = reverse (seqZ (a + 1) (Z.of_nat k)) ++ [a].
Proof. rewrite seqZ_cons by lia. rewrite reverse_cons. do 3 f_equal; lia. Qed.

Lemma reconnect_loop_spec pairing deadline fuel n reason c :
  (fuel <> 0)%nat -> deadline - co_now c <= backoff (n + fuel) - backoff n ->
  loop_spec n deadline c (reconnect_loop env config fuel pairing deadline (Z.of_nat n) reason c).
Proof.
  revert n reason c. induction fuel as [|fuel IH]; intros n reason c F D; [done|]. cbn [reconnect_loop].
  set (delay := retry_delay (Z.of_nat n + 1)).
  apply run_next; [succeeding|apply moves_clock; typeclasses eauto|]. intros now c1 S1 E1.
  assert (now = co_now c1) as -> by (by injection E1 as <- <-). clear E1.
  case_match eqn:L; [by apply loop_none|]. apply Z.leb_gt in L.
  apply run_next; [succeeding|solve [moving]|]. intros [] c2 S2 _.
  apply run_next; [succeeding|solve [moving]|]. intros built c3 S3 _.
  assert (S13 : steady c c3) by (etrans; [exact S1|]; by etrans).
  destruct built as [[]|kind]; [|by apply loop_none].
  apply run_next; [succeeding|apply steady_threads|]. intros [] c4 S4 _.
  apply run_next; [succeeding|solve [moving]|]. intros woken c5 S5 _.
  assert (S15 : steady c c5) by (etrans; [exact S13|]; by etrans).
  apply run_next; [succeeding|solve [moving]|]. intros [] c6 S6 E6.
  assert (S16 : steady c c6) by (by etrans).
  apply run_next; [by destruct woken; succeeding|destruct woken; solve [moving]|]. intros cancelled c7 S7 E7.
  assert (S17 : steady c c7) by (by etrans).
  destruct cancelled; [by apply loop_none|].
  assert (T : co_now c1 + delay <= co_now c7).
  { destruct woken; [done|]. destruct S2 as ((_ & S2 & _) & _), S3 as ((_ & S3 & _) & _), S4 as ((_ & S4 & _) & _), S5 as ((_ & S5 & _) & _), S7 as ((_ & S7 & _) & _).
    injection E6 as <-. pose proof (retry_delay_pos (Z.of_nat n + 1)). cbn in S7. unfold delay in *. lia. }
  apply run_next; [succeeding|apply moves_clock; typeclasses eauto|]. intros now c8 S8 E8.
  assert (now = co_now c8) as -> by (by injection E8 as <- <-). clear E8.
  assert (T8 : co_now c1 + delay <= co_now c8) by (destruct S8 as ((_ & S8 & _) & _); lia).
  assert (S18 : steady c c8) by (by etrans). clear S2 S3 S4 S5 S6 S7 S8 S13 S15 S16 S17 E6 E7 T.
  unfold op_bind at 1, emit, put. set (c9 := set_co_log _ c8).
  assert (A9 : attempts_of (co_log c9) = (Z.of_nat n + 1, co_now c8) :: attempts_of (co_log c)).
  { destruct S18 as ((_ & _ & A) & _). cbn. by rewrite <- A. }
  assert (B : backoff (S n) = backoff n + delay) by (cbn [backoff]; unfold delay; do 3 f_equal; lia).
  assert (N : co_now c <= co_now c1) by apply S1.
  assert (H9 : co_now c + (backoff (Z.to_nat (Z.of_nat n + 1)) - backoff n) <= co_now c8 /\
               co_now c + (backoff (Z.to_nat (Z.of_nat n + 1)) - backoff n) < deadline).
  { replace (Z.to_nat (Z.of_nat n + 1)) with (S n) by lia. rewrite B. lia. }
  apply run_next; [apply succeeds_attempt, total_connect|apply moves_attempt, steady_connect|].
  intros connected c10 S10 _. assert (O10 : co_output c10 = co_output c) by (destruct S10 as [[-> _] _]; apply S18).
  destruct S10 as ((_ & N10 & A10) & _). rewrite A9 in A10. cbn in N10.
  destruct connected as [ready|e].
  - apply run_next; [apply succeeds_attempt, total_spawn|apply moves_attempt, steady_spawn|].
    intros spawned c11 S11 E11. destruct S11 as ((O11 & _ & A11) & _).
    assert (Q : forall x, x = spawned -> loop_spec n deadline c
      (op_ret _ (match x with Ok _ => (true, reason) | Err e => (false, e) end) c11)); [|by apply Q].
    intros x ->. unfold attempt in E11.
    assert (New : exists new, attempts_of (co_log c11) = new ++ attempts_of (co_log c) /\
       new.*1 = reverse (seqZ (Z.of_nat n + 1) (len new)) /\
       Forall (fun '(i, t) => co_now c + (backoff (Z.to_nat i) - backoff n) <= t /\
                              co_now c + (backoff (Z.to_nat i) - backoff n) < deadline) new).
    { exists [(Z.of_nat n + 1, co_now c8)]. rewrite A11, A10. split_and!; [done|done|by apply Forall_singleton]. }
    destruct (spawn_tcp_generation env c10) as [[r|] cx] eqn:Sp; [|done]. injection E11 as -> ->.
    destruct spawned as [[]|e]; (split; [congruence|split; [exact New|]]); [|done].
    intros _. apply spawn_ready in Sp. tauto.
  - case_match.
    + assert (N2 : co_now c + delay <= co_now c10) by lia.
      pose proof (IH (S n) e c10) as R. replace (Z.of_nat (S n)) with (Z.of_nat n + 1) in R by lia.
      destruct fuel as [|fuel].
      { exfalso. rewrite (Nat.add_comm n 1) in D. change (1 + n)%nat with (S n) in D. lia. }
      specialize (R ltac:(done)). rewrite Nat.add_succ_comm in R. specialize (R ltac:(lia)).
      unfold loop_spec in R |- *.
      destruct (reconnect_loop _ _ _ _ _ _ _ c10) as [[[[recovered r]|e']|] c11]; [|done|done].
      destruct R as (O11 & (new & A11 & K & Fn) & Rd). split; [congruence|]. split; [|exact Rd].
      exists (new ++ [(Z.of_nat n + 1, co_now c8)]). rewrite A11, A10, <- app_assoc. split; [done|]. split.
      * rewrite fmap_app, K, len_app, len_cons, len_nil. unfold len.
        replace (Z.of_nat (length new) + (1 + 0)) with (Z.of_nat (S (length new))) by lia.
        rewrite seqZ_reverse_snoc. do 3 f_equal; lia.
      * apply Forall_app_2; [|by apply Forall_singleton]. eapply Forall_impl; [exact Fn|].
        intros [i t] [H1 H2]. lia.
    + split; [done|]. split; [|done]. exists [(Z.of_nat n + 1, co_now c8)]. rewrite A10.
      split_and!; [done|done|by apply Forall_singleton].
Qed.

(** ** The arm for an error *)

(** An error after which the client connects again: the session it stopped had not
    ended, and its pairing is one that is kept. *)
Definition eligible (error : ConnectError) (stopped : Client) : Prop :=
  should_reconnect error = true /\ session_ended stopped = false /\
  exists p, co_pairing stopped = Some p /\ pr_trust p <> PT_GuestOnce.

(** Attempts that are numbered from 1, the last first, each made after all of its
    delays, which are shorter than the window. *)
Definition paced (t0 : Instant) (new : list (Z * Instant)) : Prop :=
  new.*1 = reverse (seqZ 1 (len new)) /\
  Forall (fun '(i, t) => t0 + backoff (Z.to_nat i) <= t /\ backoff (Z.to_nat i) < RECONNECT_WINDOW) new.

Lemma backoff_window n : backoff n < RECONNECT_WINDOW -> (n <= 10)%nat.
Proof.
  intros H. destruct (decide (n <= 10)%nat) as [|L]; [done|]. pose proof (backoff_mono 11 n ltac:(lia)) as M.
  assert (RECONNECT_WINDOW <= backoff 11) by (by vm_compute). lia.
Qed.
Lemma paced_bound t0 new : paced t0 new -> len new <= 10.
Proof.
  intros [N F]. destruct new as [|[i t] new]; [done|]. rewrite Forall_cons in F. destruct F as [[_ F] _].
  apply backoff_window in F. unfold len in N |- *. cbn [length fmap list_fmap fst] in N |- *.
  rewrite seqZ_S, reverse_snoc in N. injection N as E _. lia.
Qed.

Definition recover_spec (error : ConnectError) (c : Client)
    (r : option (result ConnectError Turn) * Client) : Prop :=
  let stopped := (stop_generation env c).2 in
  match r with
  | (Some (Ok turn), c') =>
    (exists t0 new, co_now c <= t0 /\ attempts_of (co_log c') = new ++ attempts_of (co_log c) /\ paced t0 new /\
       (new <> [] -> eligible error stopped /\ (turn = TU_Break -> exists reason, co_reconnect c' = RC_GaveUp reason))) /\
    match turn with
    | TU_Continue _ =>
      eligible error stopped /\ session_state c' = SS_Ready /\ co_owner c' = true /\ co_tcp c' = true /\
      co_reconnect c' = RC_Reconnected /\ co_output c' = co_output c
    | TU_Break =>
      co_output c' = events_push (co_output c) (Err error) \/
      co_output c' = co_output c /\ cl_cancelled (co_session c') = true /\ session_ended c' = false
    end
  | _ => False
  end.

Lemma recover_none c c1 :
  steady c c1 -> exists t0 new, co_now c <= t0 /\ attempts_of (co_log c1) = new ++ attempts_of (co_log c) /\
    paced t0 new /\ new = [].
Proof. intros ((_ & N & A) & _). exists (co_now c1), []. rewrite A. by split_and!. Qed.

Lemma recover_behaves error c : recover_spec error c (recover env config error c).
Proof.
  unfold recover. apply run_next; [succeeding|apply steady_stop|]. intros [] c1 S1 E1.
  assert (Est : (stop_generation env c).2 = c1) by (by rewrite E1).
  apply run_next; [succeeding|solve [moving]|]. intros pairing c1' _ E. injection E as Ep <-.
  apply run_next; [succeeding|solve [moving]|]. intros cancelled c2 S2 E2.
  apply run_next; [succeeding|solve [moving]|]. intros ended c2' _ E. injection E as <- <-.
  assert (S12 : steady c c2) by (by etrans).
  assert (None1 : forall c3, steady c c3 -> co_output c3 = co_output c ->
    exists t0 new, co_now c <= t0 /\ attempts_of (co_log c3) = new ++ attempts_of (co_log c) /\ paced t0 new /\
       (new <> [] -> eligible error c1 /\ (TU_Break = TU_Break -> exists reason, co_reconnect c3 = RC_GaveUp reason))).
  { intros c3 S3 _. destruct (recover_none _ _ S3) as (t0 & new & ? & ? & ? & ->). by exists t0, []. }
  destruct (cancelled && negb (session_ended c2)) eqn:Q.
  { apply andb_true_iff in Q as [Q1 Q2]. apply negb_true_iff in Q2. pose proof S12 as [[O _] _].
    unfold recover_spec. rewrite Est. cbn [mret op_ret].
    split; [by apply None1|]. right. split_and!; [done| |done].
    unfold is_cancelled, op_bind in E2. cbn in E2. destruct (ev_cancelled env _); injection E2 as <- <-; done. }
  apply run_next; [succeeding|solve [moving]|]. intros cancelled' c3 S3 _.
  assert (S13 : steady c c3) by (by etrans).
  assert (Push : recover_spec error c ((_ ← put (push_output (Err error)); mret TU_Break) c3)).
  { unfold recover_spec. rewrite Est. cbn. destruct (recover_none _ _ S13) as (t0 & new & ? & ? & ? & ->). split; [by exists t0, []|].
    left. destruct S13 as [[O _] _]. by rewrite <- O. }
  destruct pairing as [pairing|]; [|exact Push].
  destruct (cancelled' || _ || _) eqn:El; [exact Push|]. clear Push None1 Q.
  apply orb_false_iff in El as [El G]. apply orb_false_iff in El as [_ R]. apply negb_false_iff in R.
  apply bool_decide_eq_false in G.
  assert (Eli : eligible error c1).
  { split; [done|]. destruct (session_ended c1); [done|]. split; [done|]. by exists pairing. }
  apply run_next; [succeeding|apply moves_clock; typeclasses eauto|]. intros now c4 S4 E4.
  assert (now = co_now c4) as -> by (by injection E4 as <- <-). clear E4.
  assert (S14 : steady c c4) by (by etrans). clear S1 S12 S13 S2 S3 S4 E1 E2.
  pose proof (reconnect_loop_spec pairing (co_now c4 + RECONNECT_WINDOW) reconnect_fuel 0 error c4 ltac:(done)) as L.
  specialize (L ltac:(assert (RECONNECT_WINDOW <= backoff 11) by (by vm_compute); cbn [reconnect_fuel Nat.add]; change (backoff 0) with 0; unfold reconnect_fuel; lia)).
  unfold op_bind at 1. destruct (reconnect_loop _ _ _ _ _ _ _ c4) as [[[[recovered reason]|e]|] c5]; [|done|done].
  destruct L as (O & (new & A & K & F) & Rd). destruct S14 as [[O4 [N4 A4]] _].
  assert (P : exists t0 new, co_now c <= t0 /\ attempts_of (co_log c5) = new ++ attempts_of (co_log c) /\ paced t0 new).
  { exists (co_now c4), new. split; [done|]. split; [congruence|]. split; [done|].
    eapply Forall_impl; [exact F|]. intros [i t]. change (backoff 0) with 0. lia. }
  destruct P as (t0 & new' & P1 & P2 & P3).
  unfold op_bind at 1, put. cbn [set_co_reconnect].
  destruct recovered; cbn [negb].
  - apply run_next; [succeeding|apply moves_clock; typeclasses eauto|]. intros now c6 S6 E6.
    injection E6 as <- <-. unfold recover_spec. rewrite Est. cbn. split.
    + exists t0, new'. split_and!; try done.
    + destruct (Rd eq_refl) as (? & ? & ?). split_and!; try done. cbn. congruence.
  - unfold recover_spec. rewrite Est. cbn. split.
    + exists t0, new'. split_and!; try done. intros _. split; [done|]. intros _. by exists reason.
    + left. congruence.
Qed.

End Loop.

(** ** The runtime told to stop *)

(** Each turn asks the environment at least once. *)
Definition counted (c c' : Client) : Prop := (co_asked c <= co_asked c')%nat.
#[local] Instance counted_stable : AskStable counted.
Proof. split; [split; [intros c|intros c1 c2 c3]|..]; unfold counted; intros; cbn in *; lia. Qed.

Lemma steady_counted {A} (m : op A) : moves steady m -> moves counted m.
Proof. intros M c. apply M. Qed.

Lemma counted_put f : (forall c, co_asked (f c) = co_asked c) -> moves counted (put f).
Proof. intros H c. unfold counted. cbn. rewrite H. lia. Qed.
#[local] Hint Extern 1 (moves counted (put _)) => (apply counted_put; intros ?; by repeat case_match) : moves.
#[local] Hint Extern 1 (moves counted (emit _)) => (apply counted_put; intros ?; done) : moves.

Section Stops.

Context (env : ClientEnv) (config : SessionConfig) (epoch : Instant).

Hint Resolve succeeds_clock succeeds_cancelled succeeds_threads succeeds_stop : succeeds.

Lemma counted_threads : moves counted (run_threads env).
Proof. apply steady_counted, steady_threads. Qed.
Lemma counted_stop : moves counted (stop_generation env).
Proof. apply steady_counted, steady_stop. Qed.
Lemma counted_spawn : moves counted (spawn_tcp_generation env).
Proof. apply steady_counted, steady_spawn. Qed.
Lemma counted_connect c pairing : moves counted (connect_with_pairing env c pairing).
Proof. apply steady_counted, steady_connect. Qed.
Hint Resolve counted_threads counted_stop counted_spawn counted_connect : moves.

Lemma counted_loop fuel pairing deadline attempts reason :
  moves counted (reconnect_loop env config fuel pairing deadline attempts reason).
Proof. revert attempts reason. induction fuel as [|fuel IH]; intros; cbn [reconnect_loop]; moving. Qed.
Hint Resolve counted_loop : moves.
Lemma counted_recover error : moves counted (recover env config error).
Proof. unfold recover. moving. Qed.
Lemma counted_probe next : moves counted (probe env epoch next).
Proof. unfold probe. moving. apply steady_counted, steady_on_session. Qed.
Lemma counted_next : moves counted (next_event env).
Proof. unfold next_event. moving. intros c. unfold counted. by destruct (events_result _ _) as [r events]. Qed.
Hint Resolve counted_recover counted_probe counted_next : moves.

Lemma succeeds_recover error : succeeds (recover env config error).
Proof.
  intros c. pose proof (recover_behaves env config error c) as H. unfold recover_spec in H.
  destruct (recover env config error c) as [[[turn|e]|] c']; [|done|done]. by eexists _, _.
Qed.
Lemma succeeds_probe next : succeeds (probe env epoch next).
Proof. unfold probe. succeeding. apply succeeds_attempt, total_on_session. Qed.
Lemma succeeds_next : succeeds (next_event env).
Proof. unfold next_event. succeeding. intros c. destruct (events_result _ _) as [r events]. by eexists _, _. Qed.
Hint Resolve succeeds_recover succeeds_probe succeeds_next : succeeds.

Lemma succeeds_turn next : succeeds (supervisor_turn env config epoch next).
Proof. unfold supervisor_turn, abandoned. succeeding. Qed.

Lemma turn_stops next c :
  ev_stopped env (co_asked c) = true -> exists c', supervisor_turn env config epoch next c = (Some (Ok TU_Break), c').
Proof. intros E. unfold supervisor_turn, op_bind, ask. cbn. rewrite E. cbn. by eexists. Qed.
Lemma turn_counts next c : (co_asked c < co_asked (supervisor_turn env config epoch next c).2)%nat.
Proof.
  unfold supervisor_turn. unfold op_bind at 1, ask. cbn [fst snd].
  match goal with |- context [(?m ?c1)] => match type of m with op _ =>
    assert (M : moves counted m); [|specialize (M c1)] end end.
  { unfold abandoned. moving. }
  eapply Nat.lt_le_trans; [|exact M]. cbn. lia.
Qed.

Lemma stop_disowns c : co_owner (stop_generation env c).2 = false.
Proof.
  unfold stop_generation. unfold op_bind at 1. destruct (succeeds_threads env c) as ([] & c1 & ->).
  unfold op_bind, ask, put. cbn [fst snd]. set (c2 := set_co_asked _ _). destruct (co_owner c2) eqn:O; [|done].
  unfold end_generation. cbn zeta. by destruct (ev_socket env _) as [[]|[]].
Qed.

Lemma supervise_stops N turns next c :
  (forall n, (N <= n)%nat -> ev_stopped env n = true) -> (N <= co_asked c + turns)%nat ->
  exists c', supervise env config epoch (S turns) next c = (Some (Ok tt), c') /\
    co_owner c' = false /\ es_closed (co_output c') = true.
Proof.
  intros Stop. revert next c.
  induction turns as [|turns IH]; intros next c H; cbn [supervise]; fold (supervise env config epoch).
  - destruct (turn_stops next c) as [c1 E]; [apply Stop; lia|].
    unfold op_bind at 1. rewrite E. unfold op_bind. destruct (succeeds_stop env c1) as ([] & c2 & E2).
    pose proof (stop_disowns c1) as D. rewrite E2 in D |- *. by eexists.
  - destruct (succeeds_turn next c) as (turn & c1 & E). pose proof (turn_counts next c) as K. rewrite E in K.
    unfold op_bind at 1. rewrite E. destruct turn as [next'|].
    + apply IH. cbn in K. lia.
    + unfold op_bind. destruct (succeeds_stop env c1) as ([] & c2 & E2).
      pose proof (stop_disowns c1) as D. rewrite E2 in D |- *. by eexists.
Qed.

End Stops.

(** ** What the client promises *)



(** C22: a runtime that is told to stop does: whatever else happens until then,
    reconnections included, its thread ends, the connection is nobody's, and a consumer
    that waits for an event is not left waiting. *)
Theorem runtime_stops env config epoch turns next c N :
  (forall n, (N <= n)%nat -> ev_stopped env n = true) -> (N < turns)%nat ->
  exists c', supervise env config epoch turns next c = (Some (Ok tt), c') /\
    co_owner c' = false /\ es_closed (co_output c') = true /\
    (events_recv (co_output c')).1 <> None.
Proof.
  intros Stop L. destruct turns as [|turns]; [lia|].
  destruct (supervise_stops env config epoch N turns next c Stop) as (c' & E & O & C); [lia|].
  exists c'. split_and!; try done. unfold events_recv. rewrite C, andb_false_r. by destruct (events_result _ _).
Qed.

(** *** At concrete inputs *)

(** Every connection is refused, and the runtime told to stop at the [n]-th answer. *)
Definition refusing_env (n : nat) : ClientEnv :=
  mkClientEnv (fun _ _ _ n => repeat Byte.x07 (Z.to_nat n)) toy_encrypt (fun _ => Ok (repeat Byte.x05 32))
    (fun _ => 1000) (fun _ => 0) (fun _ => None) (fun _ _ port => Ok [mkSocketAddr [] port]) (fun _ => Ok tt)
    (fun _ => CA_Result (Err EK_ConnectionRefused)) (fun _ => Ok tt) (fun _ _ => Ok tt) (fun _ => repeat Byte.x09 16)
    (fun _ => Ok tt) (fun _ => Ok tt) (fun _ => Ok tt) (fun _ => Ok []) (fun _ => Ok []) (fun _ => Ok tt)
    (fun _ => false) (fun _ => Err EK_TimedOut) (fun _ _ _ _ => None) (fun _ => true)
    (fun _ => Some (str_bytes "secret")) (fun _ => None) (fun _ => []) (fun m => Nat.leb n m) (fun _ => false).

(** A client whose connection was lost. *)
Definition lost_client : Client :=
  push_event (Err (XE_Tls (TP_Io EK_ConnectionReset))) (set_co_pairing (Some toy_record) toy_client).

Lemma runtime_stops_witness :
  (forall n, (3 <= n)%nat -> ev_stopped (refusing_env 3) n = true) /\ (3 < 5)%nat /\
  exists c', supervise (refusing_env 3) toy_config 0 5 0 lost_client = (Some (Ok tt), c') /\
    co_owner c' = false /\ es_closed (co_output c') = true /\ (events_recv (co_output c')).1 <> None.
Proof.
  assert (Stop : forall n, (3 <= n)%nat -> ev_stopped (refusing_env 3) n = true).
  { intros n H. by apply Nat.leb_le. }
  split; [exact Stop|]. split; [lia|]. apply (runtime_stops _ _ _ _ _ _ 3 Stop). lia.
Defined.

(** With every connection refused the ten attempts are made. *)
Example ten_attempts :
  let r := supervise (refusing_env 1000) toy_config 0 1 0 lost_client in
  reverse ((attempts_of (co_log r.2)).*1) = seqZ 1 10 /\
  co_reconnect r.2 = RC_GaveUp (XE_Io EK_ConnectionRefused).
Proof. vm_compute. by split. Qed.
