(* ===== verification/AudioQueue.v ===== *)
(** * The audio queue

    [clients/rust/maho-render/src/audio.rs]: [AudioQueue], the PCM samples between
    the session that receives them and the callback of the audio device, and
    [CallbackState::render], what that callback does.  An operation holds the queue's
    lock from its first access to its last, and is one step; [push_samples] stages
    its input in a ring before it takes the lock.  A sample is an [f32].  The output
    devices of [cpal] and the poisoning of a lock are not modelled. *)

From Stdlib Require Import SpecFloat.
From S2P Require Import Prelude Float.

Definition AUDIO_SAMPLE_RATE : Z := 48000.
Definition AUDIO_CHANNELS : Z := 2.
Definition AUDIO_QUEUE_CAPACITY : Z := AUDIO_SAMPLE_RATE * AUDIO_CHANNELS / 10.

Inductive AudioError : Type :=
| AE_MisalignedPcm (count : Z)
| AE_MisalignedSamples
| AE_NonFinitePcm
| AE_InvalidVolume (volume : spec_float).

Record QueueState : Type := mkQueueState {
  qs_samples : list spec_float;
  qs_volume : spec_float;
  qs_muted : bool;
  qs_underrun_samples : Z
}.
Definition QueueState_default : QueueState := mkQueueState [] f32_1 false 0.
Definition set_samples (samples : list spec_float) (s : QueueState) : QueueState :=
  mkQueueState samples (qs_volume s) (qs_muted s) (qs_underrun_samples s).

(** ** Pushing *)

(** [append_validated]: the oldest samples make room, and of too many new ones
    the oldest are skipped. *)
Definition append_validated (samples : list spec_float) (s : QueueState) : QueueState :=
  let skip := Z.max 0 (len samples - AUDIO_QUEUE_CAPACITY) in
  let retained := len samples - skip in
  let overflow := Z.max 0 (len (qs_samples s) + retained - AUDIO_QUEUE_CAPACITY) in
  set_samples (drop (Z.to_nat overflow) (qs_samples s) ++ drop (Z.to_nat skip) samples) s.

(** [bytes.chunks_exact(4)] and [f32::from_le_bytes]. *)
Fixpoint samples_of_bytes (bytes : list byte) : list spec_float :=
  match bytes with
  | a :: b :: c :: d :: bytes => f32_of_bits (le_value [a; b; c; d]) :: samples_of_bytes bytes
  | _ => []
  end.

Definition push_pcm_bytes (bytes : list byte) (s : QueueState) : result AudioError unit * QueueState :=
  if negb (len bytes mod (4 * AUDIO_CHANNELS) =? 0) then (Err (AE_MisalignedPcm (len bytes)), s)
  else
    let samples := samples_of_bytes bytes in
    if existsb (fun sample => negb (is_finite sample)) samples then (Err AE_NonFinitePcm, s)
    else (Ok tt, append_validated samples s).

(** [pending[ring] = sample; ring = (ring + 1) % AUDIO_QUEUE_CAPACITY] *)
Definition overwrite (sample : spec_float) (staged : list spec_float * Z) : list spec_float * Z :=
  let '(pending, ring) := staged in (<[Z.to_nat ring := sample]> pending, (ring + 1) mod AUDIO_QUEUE_CAPACITY).

(** The loop of [push_samples]: the staged samples, the position, and whether samples were overwritten. *)
Fixpoint stage (input pending : list spec_float) (ring : Z) (overflowed : bool)
    : result AudioError (list spec_float * Z * bool) :=
  match input with
  | [] => Ok (pending, ring, overflowed)
  | [_] => Err AE_MisalignedSamples
  | first :: second :: input =>
    if negb (is_finite first) || negb (is_finite second) then Err AE_NonFinitePcm
    else if len pending <? AUDIO_QUEUE_CAPACITY then stage input (pending ++ [first; second]) ring overflowed
    else
      let '(pending, ring) := overwrite second (overwrite first (pending, ring)) in
      stage input pending ring true
  end.

(** [VecDeque::rotate_left] *)
Definition rotate_left (n : nat) (l : list spec_float) : list spec_float := drop n l ++ take n l.

Definition push_samples (samples : list spec_float) (s : QueueState) : result AudioError unit * QueueState :=
  match stage samples [] 0 false with
  | Err e => (Err e, s)
  | Ok (pending, ring, overflowed) =>
    let pending := if overflowed then rotate_left (Z.to_nat ring) pending else pending in
    (Ok tt, append_validated pending s)
  end.

(** ** The other operations *)

Definition queued_samples (s : QueueState) : Z := len (qs_samples s).
Definition clear (s : QueueState) : QueueState := set_samples [] s.
Definition set_volume (volume : spec_float) (s : QueueState) : result AudioError unit * QueueState :=
  if negb (is_finite volume) || negb (SFleb f32_0 volume && SFleb volume f32_1)
  then (Err (AE_InvalidVolume volume), s)
  else (Ok tt, mkQueueState (qs_samples s) volume (qs_muted s) (qs_underrun_samples s)).
Definition set_muted (muted : bool) (s : QueueState) : QueueState :=
  mkQueueState (qs_samples s) (qs_volume s) muted (qs_underrun_samples s).

(** The loop of [drain_into], over the slots of the output: what it writes, how much
    it consumed. *)
Fixpoint drain_slots (slots : nat) (gain : spec_float) (s : QueueState) : list spec_float * Z * QueueState :=
  match slots with
  | O => ([], 0, s)
  | S slots =>
    match qs_samples s with
    | sample :: samples =>
      let '(output, consumed, s) := drain_slots slots gain (set_samples samples s) in
      (fmul binary32 sample gain :: output, consumed + 1, s)
    | [] =>
      let '(output, consumed, s) := drain_slots slots gain
        (mkQueueState [] (qs_volume s) (qs_muted s) ((qs_underrun_samples s + 1) mod 2 ^ 64)) in
      (f32_0 :: output, consumed, s)
    end
  end.

(** [drain_into], for an output of so many slots: what was consumed, and the output. *)
Definition drain_into (slots : nat) (s : QueueState) : result AudioError (Z * list spec_float) * QueueState :=
  if negb (Z.of_nat slots mod AUDIO_CHANNELS =? 0) then (Err AE_MisalignedSamples, s)
  else
    let gain := if qs_muted s then f32_0 else qs_volume s in
    let '(output, consumed, s) := drain_slots slots gain s in
    (Ok (consumed, output), s).

(** ** The callback of the device *)

Inductive AudioOutputEvent : Type :=
| AO_Callback (consumed_samples total_consumed_samples : Z)
| AO_Error (error : AudioError).

Record AudioOutputStatus : Type := mkAudioOutputStatus {
  os_callback_count : Z;
  os_consumed_samples : Z;
  os_underrun_samples : Z;
  os_error_count : Z;
  os_last_error : option AudioError
}.
Definition AudioOutputStatus_default : AudioOutputStatus := mkAudioOutputStatus 0 0 0 0 None.

(** The channel of [events] holds at most [cb_bound]; [None]: there is none, or its
    receiver is gone. *)
Record CallbackState : Type := mkCallbackState {
  cb_status : AudioOutputStatus;
  cb_events : option (list AudioOutputEvent);
  cb_bound : nat
}.

Definition notify (event : AudioOutputEvent) (c : CallbackState) : CallbackState :=
  match cb_events c with
  | Some events =>
    if (length events <? cb_bound c)%nat then mkCallbackState (cb_status c) (Some (events ++ [event])) (cb_bound c)
    else c
  | None => c
  end.
Definition record_error (error : AudioError) (c : CallbackState) : CallbackState :=
  let s := cb_status c in
  notify (AO_Error error)
    (mkCallbackState (mkAudioOutputStatus (os_callback_count s) (os_consumed_samples s) (os_underrun_samples s)
       ((os_error_count s + 1) mod 2 ^ 64) (Some error)) (cb_events c) (cb_bound c)).

(** [render], for an output of so many slots: what the device plays. *)
Definition render (slots : nat) (q : QueueState) (c : CallbackState)
    : list spec_float * QueueState * CallbackState :=
  let '(output, consumed, q, c) :=
    match drain_into slots q with
    | (Ok (consumed, output), q) => (output, consumed, q, c)
    | (Err error, q) => (replicate slots f32_0, 0, q, record_error error c)
    end in
  let s := cb_status c in
  let total := (os_consumed_samples s + consumed) mod 2 ^ 64 in
  let status := mkAudioOutputStatus ((os_callback_count s + 1) mod 2 ^ 64) total (qs_underrun_samples q)
                  (os_error_count s) (os_last_error s) in
  (output, q, notify (AO_Callback consumed total) (mkCallbackState status (cb_events c) (cb_bound c))).

(** ** A queue of stereo frames

    What the queue promises, without rings and offsets: it holds the newest
    hundred milliseconds of whole stereo frames. *)

Definition Frame : Type := spec_float * spec_float.
Definition FRAMES : nat := Z.to_nat 4800.
Definition samples_of (frames : list Frame) : list spec_float := concat (map (fun f => [f.1; f.2]) frames).

Definition newest {A} (n : nat) (l : list A) : list A := drop (length l - n) l.

Record Player : Type := mkPlayer {
  pl_frames : list Frame;
  pl_volume : spec_float;
  pl_muted : bool;
  pl_underrun : Z
}.
Definition Player_default : Player := mkPlayer [] f32_1 false 0.

(** The frames of an input: the first pair with a sample that is not finite, or
    the lone last sample, refuses it. *)
Fixpoint frames_of (samples : list spec_float) : result AudioError (list Frame) :=
  match samples with
  | [] => Ok []
  | [_] => Err AE_MisalignedSamples
  | l :: r :: samples =>
    if is_finite l && is_finite r
    then match frames_of samples with Ok frames => Ok ((l, r) :: frames) | Err e => Err e end
    else Err AE_NonFinitePcm
  end.
Definition frames_of_bytes (bytes : list byte) : result AudioError (list Frame) :=
  if negb (len bytes mod 8 =? 0) then Err (AE_MisalignedPcm (len bytes)) else frames_of (samples_of_bytes bytes).

Inductive AudioOp : Type :=
| AO_PushBytes (bytes : list byte)
| AO_PushSamples (samples : list spec_float)
| AO_Clear
| AO_SetVolume (volume : spec_float)
| AO_SetMuted (muted : bool)
| AO_Drain (slots : nat)
| AO_Underrun.

Definition audio_op (op : AudioOp) (s : QueueState) : result AudioError (Z * list spec_float) * QueueState :=
  let unit_result (r : result AudioError unit * QueueState) :=
    (match r.1 with Ok _ => Ok (0, []) | Err e => Err e end, r.2) in
  match op with
  | AO_PushBytes bytes => unit_result (push_pcm_bytes bytes s)
  | AO_PushSamples samples => unit_result (push_samples samples s)
  | AO_Clear => (Ok (0, []), clear s)
  | AO_SetVolume volume => unit_result (set_volume volume s)
  | AO_SetMuted muted => (Ok (0, []), set_muted muted s)
  | AO_Drain slots => drain_into slots s
  | AO_Underrun => (Ok (qs_underrun_samples s, []), s)
  end.

Definition player_push (frames : result AudioError (list Frame)) (p : Player)
    : result AudioError (Z * list spec_float) * Player :=
  match frames with
  | Err e => (Err e, p)
  | Ok frames =>
    (Ok (0, []), mkPlayer (newest FRAMES (pl_frames p ++ frames)) (pl_volume p) (pl_muted p) (pl_underrun p))
  end.
Definition player_op (op : AudioOp) (p : Player) : result AudioError (Z * list spec_float) * Player :=
  match op with
  | AO_PushBytes bytes => player_push (frames_of_bytes bytes) p
  | AO_PushSamples samples => player_push (frames_of samples) p
  | AO_Clear => (Ok (0, []), mkPlayer [] (pl_volume p) (pl_muted p) (pl_underrun p))
  | AO_SetVolume volume =>
    if is_finite volume && SFleb f32_0 volume && SFleb volume f32_1
    then (Ok (0, []), mkPlayer (pl_frames p) volume (pl_muted p) (pl_underrun p))
    else (Err (AE_InvalidVolume volume), p)
  | AO_SetMuted muted => (Ok (0, []), mkPlayer (pl_frames p) (pl_volume p) muted (pl_underrun p))
  | AO_Drain slots =>
    if Z.of_nat slots mod 2 =? 0 then
      let gain := if pl_muted p then f32_0 else pl_volume p in
      let played := take (slots / 2) (pl_frames p) in
      let missing := (slots - 2 * length played)%nat in
      (Ok (2 * len played, map (fun x => fmul binary32 x gain) (samples_of played) ++ replicate missing f32_0),
       mkPlayer (drop (slots / 2) (pl_frames p)) (pl_volume p) (pl_muted p)
         ((pl_underrun p + Z.of_nat missing) mod 2 ^ 64))
    else (Err AE_MisalignedSamples, p)
  | AO_Underrun => (Ok (pl_underrun p, []), p)
  end.

(** The answers to a sequence of calls. *)
Fixpoint answers {S} (op : AudioOp -> S -> result AudioError (Z * list spec_float) * S) (ops : list AudioOp) (s : S)
    : list (result AudioError (Z * list spec_float)) :=
  match ops with
  | [] => []
  | o :: ops => let '(r, s) := op o s in r :: answers op ops s
  end.

(** ** Keeping the newest *)

Lemma newest_short {A} n (l : list A) : (length l <= n)%nat -> newest n l = l.
Proof. intros L. unfold newest. by replace (length l - n)%nat with 0%nat by lia. Qed.
Lemma newest_length {A} n (l : list A) : length (newest n l) = Nat.min n (length l).
Proof. unfold newest. rewrite length_drop. lia. Qed.
Lemma newest_app {A} n (a b : list A) : newest n (newest n a ++ b) = newest n (a ++ b).
Proof.
  unfold newest. rewrite !length_app, length_drop. destruct (Nat.le_gt_cases (length a) n).
  - replace (length a - n)%nat with 0%nat by lia. cbn [drop]. do 2 f_equal. lia.
  - replace (drop (length a - n) a ++ b) with (drop (length a - n) (a ++ b)) by (apply drop_app_le; lia).
    rewrite drop_drop. f_equal. lia.
Qed.
Lemma newest_snoc {A} n (l : list A) x :
  (0 < n <= length l)%nat -> newest n (l ++ [x]) = drop 1 (newest n l) ++ [x].
Proof.
  intros L. unfold newest. rewrite length_app. cbn [length]. rewrite drop_drop.
  rewrite drop_app_le by lia. do 2 f_equal. lia.
Qed.
Lemma samples_of_app a b : samples_of (a ++ b) = samples_of a ++ samples_of b.
Proof. unfold samples_of. by rewrite map_app, concat_app. Qed.
Lemma samples_of_length frames : length (samples_of frames) = (2 * length frames)%nat.
Proof. induction frames as [|f frames IH]; [done|]. unfold samples_of in *. cbn [map concat length app]. lia. Qed.
Lemma samples_of_drop n frames : samples_of (drop n frames) = drop (2 * n) (samples_of frames).
Proof.
  revert n. induction frames as [|f frames IH]; intros n.
  { unfold samples_of. cbn [map concat]. rewrite !drop_nil. done. }
  destruct n as [|n]; [done|]. replace (2 * S n)%nat with (S (S (2 * n))) by lia. cbn [drop]. by rewrite IH.
Qed.
Lemma samples_of_newest n frames : samples_of (newest n frames) = newest (2 * n) (samples_of frames).
Proof. unfold newest. rewrite samples_of_drop, samples_of_length. f_equal. lia. Qed.

(** ** The ring *)

Definition CAPACITY : nat := 2 * FRAMES.
Lemma frames_pos : (0 < FRAMES)%nat.
Proof. unfold FRAMES. lia. Qed.
Lemma capacity : AUDIO_QUEUE_CAPACITY = Z.of_nat CAPACITY.
Proof. by vm_compute. Qed.
#[local] Opaque FRAMES.
Ltac cap_lia := pose proof frames_pos; unfold CAPACITY in *; lia.

(** The samples of the ring from its oldest on. *)
Definition unrolled (staged : list spec_float * Z) : list spec_float := rotate_left (Z.to_nat staged.2) staged.1.

Lemma overwrite_spec x pending ring :
  length pending = CAPACITY -> 0 <= ring < AUDIO_QUEUE_CAPACITY ->
  let staged := overwrite x (pending, ring) in
  length staged.1 = CAPACITY /\ 0 <= staged.2 < AUDIO_QUEUE_CAPACITY /\
  unrolled staged = drop 1 (unrolled (pending, ring)) ++ [x].
Proof.
  rewrite capacity. intros L R. unfold overwrite, unrolled, rotate_left. rewrite capacity. cbn [fst snd].
  rewrite length_insert. split; [done|]. split; [apply Z.mod_pos_bound; cap_lia|].
  destruct (lookup_lt_is_Some_2 pending (Z.to_nat ring)) as [y Y]; [lia|].
  pose proof (take_drop_middle pending (Z.to_nat ring) y Y) as E.
  set (a := take (Z.to_nat ring) pending) in *. set (b := drop (S (Z.to_nat ring)) pending) in *.
  assert (La : length a = Z.to_nat ring) by (unfold a; rewrite length_take; lia).
  assert (Lb : (Z.to_nat ring + S (length b))%nat = CAPACITY).
  { rewrite <- E in L. rewrite length_app in L. cbn [length] in L. lia. }
  assert (I : <[Z.to_nat ring := x]> (a ++ y :: b) = a ++ x :: b).
  { replace (Z.to_nat ring) with (length a + 0)%nat by lia. by rewrite insert_app_r. }
  rewrite <- E, I.
  replace (drop (Z.to_nat ring) (a ++ y :: b)) with (y :: b) by (rewrite <- La; by rewrite drop_app_length).
  replace (take (Z.to_nat ring) (a ++ y :: b)) with a by (rewrite <- La; by rewrite take_app_length).
  cbn [app drop]. destruct b as [|z b].
  - replace ((ring + 1) mod Z.of_nat CAPACITY) with 0; [cbn [Z.to_nat drop take]; by rewrite app_nil_r|].
    cbn [length] in Lb. replace (ring + 1) with (Z.of_nat CAPACITY) by lia. by rewrite Z.mod_same by (cap_lia).
  - cbn [length] in Lb. rewrite Z.mod_small by lia. replace (Z.to_nat (ring + 1)) with (length (a ++ [x])) by (rewrite length_app; cbn; lia).
    replace (a ++ x :: z :: b) with ((a ++ [x]) ++ z :: b) by (by rewrite <- app_assoc).
    rewrite drop_app_length, take_app_length. rewrite drop_0. by rewrite <- app_assoc.
Qed.

(** What the staging keeps of the frames read so far. *)
Definition staged_as (read pending : list spec_float) (ring : Z) (overflowed : bool) : Prop :=
  0 <= ring < AUDIO_QUEUE_CAPACITY /\ Nat.Even (length pending) /\ (length pending <= CAPACITY)%nat /\
  ((length pending < CAPACITY)%nat -> overflowed = false) /\ (overflowed = false -> ring = 0) /\
  unrolled (pending, ring) = newest CAPACITY read.

Lemma stage_spec input read pending ring overflowed :
  staged_as read pending ring overflowed ->
  match stage input pending ring overflowed, frames_of input with
  | Ok (pending, ring, overflowed), Ok frames => staged_as (read ++ samples_of frames) pending ring overflowed
  | Err e, Err e' => e = e'
  | _, _ => False
  end.
Proof.
  revert input read pending ring overflowed.
  fix IH 1. intros [|l [|r input]] read pending ring overflowed H; cbn [stage frames_of]; [by rewrite app_nil_r|done|].
  rewrite <- negb_andb. destruct (is_finite l && is_finite r); cbn [negb]; [|done].
  assert (Next : forall pending ring overflowed, staged_as (read ++ [l; r]) pending ring overflowed ->
    match stage input pending ring overflowed,
          match frames_of input with Ok frames => Ok ((l, r) :: frames) | Err e => Err e end with
    | Ok (pending, ring, overflowed), Ok frames => staged_as (read ++ samples_of frames) pending ring overflowed
    | Err e, Err e' => e = e'
    | _, _ => False
    end).
  { intros p' r' o' H'. specialize (IH input (read ++ [l; r]) p' r' o' H').
    destruct (stage input p' r' o') as [[[p2 r2] o2]|e], (frames_of input) as [frames|e']; try done.
    replace (samples_of ((l, r) :: frames)) with ([l; r] ++ samples_of frames) by done. by rewrite app_assoc. }
  destruct H as (R & Ev & Le & O1 & O2 & U). destruct (len pending <? AUDIO_QUEUE_CAPACITY) eqn:F; rewrite capacity in F; unfold len in F.
  - apply Z.ltb_lt in F. apply Next. pose proof (O2 (O1 ltac:(lia))) as ->. unfold staged_as.
    assert (length pending + 2 <= CAPACITY)%nat.
    { destruct Ev as [k Ek]. cap_lia. }
    rewrite length_app. cbn [length]. split_and!; [lia|lia| |lia|by intros; apply O1; lia|done|].
    + destruct Ev as [k Ek]. exists (S k). lia.
    + unfold unrolled, rotate_left in U |- *. cbn [fst snd] in U |- *. change (Z.to_nat 0) with 0%nat in U |- *.
      rewrite drop_0, take_0, app_nil_r in U |- *. rewrite U. assert (length read = length pending).
      { assert (LU := f_equal length U). rewrite newest_length in LU. lia. }
      rewrite newest_short by lia. rewrite newest_short; [done|]. rewrite length_app. cbn [length]. lia.
  - apply Z.ltb_ge in F. assert (L : length pending = CAPACITY) by lia.
    destruct (overwrite_spec l pending ring L R) as (L1 & R1 & U1).
    destruct (overwrite l (pending, ring)) as [p1 r1]. cbn [fst snd] in *.
    destruct (overwrite_spec r p1 r1 L1 R1) as (L2 & R2 & U2).
    destruct (overwrite r (p1, r1)) as [p2 r2]. cbn [fst snd] in *.
    apply Next. unfold staged_as. split_and!; [lia|lia|by rewrite L2, <- L|lia|rewrite L2; intros; lia|done|].
    assert (LR : (CAPACITY <= length read)%nat).
    { assert (LU := f_equal length U). unfold unrolled, rotate_left in LU. rewrite newest_length, length_app, length_drop, length_take in LU.
      cbn [fst snd] in LU. rewrite capacity in R. lia. }
    rewrite U2, U1, U. replace (read ++ [l; r]) with ((read ++ [l]) ++ [r]) by (by rewrite <- app_assoc).
    rewrite newest_snoc by (rewrite length_app; cbn [length]; cap_lia).
    by rewrite newest_snoc by (cap_lia).
Qed.

(** ** Every operation *)

Record refines (s : QueueState) (p : Player) : Prop := {
  rf_samples : qs_samples s = samples_of (pl_frames p);
  rf_volume : qs_volume s = pl_volume p;
  rf_muted : qs_muted s = pl_muted p;
  rf_underrun : qs_underrun_samples s = pl_underrun p;
  rf_bound : (length (pl_frames p) <= FRAMES)%nat;
  rf_range : 0 <= pl_underrun p < 2 ^ 64
}.

Lemma newest_app_r {A} n (a b : list A) : newest n (a ++ newest n b) = newest n (a ++ b).
Proof.
  unfold newest. rewrite !length_app, length_drop. destruct (Nat.le_gt_cases (length b) n).
  - replace (length b - n)%nat with 0%nat by lia. cbn [drop]. do 2 f_equal. lia.
  - rewrite !drop_app_ge by lia. rewrite drop_drop. f_equal. lia.
Qed.
Lemma append_newest samples s :
  (length (qs_samples s) <= CAPACITY)%nat ->
  append_validated samples s = set_samples (newest CAPACITY (qs_samples s ++ samples)) s.
Proof.
  intros L. unfold append_validated, newest, len. rewrite capacity. f_equal. rewrite length_app.
  destruct (Nat.le_gt_cases (length samples) CAPACITY).
  - replace (Z.to_nat (Z.max 0 (Z.of_nat (length samples) - Z.of_nat CAPACITY))) with 0%nat by lia. cbn [drop].
    rewrite drop_app_le by lia. do 2 f_equal. lia.
  - rewrite drop_app_ge by lia. rewrite drop_ge by lia. cbn [app]. f_equal. lia.
Qed.

Lemma push_refines s p xs frames :
  refines s p -> newest CAPACITY xs = newest CAPACITY (samples_of frames) ->
  refines (append_validated xs s)
    (mkPlayer (newest FRAMES (pl_frames p ++ frames)) (pl_volume p) (pl_muted p) (pl_underrun p)).
Proof.
  intros [E V M U B R] N. rewrite append_newest.
  - split; try done; cbn [set_samples qs_samples pl_frames].
    + rewrite samples_of_newest, samples_of_app, <- E. change (2 * FRAMES)%nat with CAPACITY.
      rewrite <- (newest_app_r _ _ xs), N. apply newest_app_r.
    + rewrite newest_length. lia.
  - rewrite E, samples_of_length. unfold CAPACITY. lia.
Qed.

Lemma pairs_ind {A} (P : list A -> Prop) :
  P [] -> (forall x, P [x]) -> (forall x y l, P l -> P (x :: y :: l)) -> forall l, P l.
Proof. intros P0 P1 P2. fix IH 1. intros [|x [|y l]]; [done|done|]. apply P2, IH. Qed.

Lemma frames_of_even samples :
  Nat.Even (length samples) ->
  if existsb (fun sample => negb (is_finite sample)) samples then frames_of samples = Err AE_NonFinitePcm
  else exists frames, frames_of samples = Ok frames /\ samples_of frames = samples.
Proof.
  induction samples as [|x|l r samples IH] using pairs_ind; intros E; cbn [existsb frames_of]; [by exists []|destruct E as [k E]; cbn in E; lia|].
  assert (E' : Nat.Even (length samples)) by (destruct E as [k E]; exists (k - 1)%nat; cbn [length] in E; lia).
  specialize (IH E'). destruct (is_finite l); cbn [negb orb andb]; [|done]. destruct (is_finite r); cbn [negb orb]; [|done].
  destruct (existsb _ samples); [by rewrite IH|]. destruct IH as (frames & -> & <-). by exists ((l, r) :: frames).
Qed.
Lemma samples_of_bytes_length k bytes : length bytes = (4 * k)%nat -> length (samples_of_bytes bytes) = k.
Proof.
  revert bytes. induction k as [|k IH]; intros bytes L; [by destruct bytes|].
  destruct bytes as [|a [|b [|c [|d bytes]]]]; cbn [length] in L; try lia. cbn [samples_of_bytes length].
  rewrite IH; lia.
Qed.

Lemma drain_slots_spec slots gain s :
  0 <= qs_underrun_samples s < 2 ^ 64 ->
  let played := take slots (qs_samples s) in
  let missing := (slots - length played)%nat in
  drain_slots slots gain s =
  (map (fun x => fmul binary32 x gain) played ++ replicate missing f32_0, len played,
   mkQueueState (drop slots (qs_samples s)) (qs_volume s) (qs_muted s)
     ((qs_underrun_samples s + Z.of_nat missing) mod 2 ^ 64)).
Proof.
  revert s. induction slots as [|slots IH]; intros s R; cbn [drain_slots].
  - rewrite take_0, drop_0. cbn. rewrite Z.add_0_r, Z.mod_small by done. by destruct s.
  - destruct (qs_samples s) as [|sample samples] eqn:E; cbn zeta.
    + rewrite IH by (cbn; apply Z.mod_pos_bound; lia). cbn [qs_samples qs_volume qs_muted qs_underrun_samples].
      rewrite !take_nil, !drop_nil. cbn [length map app replicate]. rewrite !Nat.sub_0_r.
      cbn [replicate]. do 2 f_equal. rewrite Zplus_mod_idemp_l. f_equal. lia.
    + rewrite IH by done. cbn [set_samples qs_samples qs_volume qs_muted qs_underrun_samples take drop map app length].
      rewrite len_cons. cbn [Nat.sub]. do 2 f_equal. lia.
Qed.

Lemma audio_op_refines op s p :
  refines s p -> (audio_op op s).1 = (player_op op p).1 /\ refines (audio_op op s).2 (player_op op p).2.
Proof.
  intros H. destruct op as [bytes|samples| |volume|muted|slots|]; cbn [audio_op player_op].
  - unfold push_pcm_bytes, frames_of_bytes. change (4 * AUDIO_CHANNELS) with 8.
    destruct (len bytes mod 8 =? 0) eqn:A; cbn [negb]; [|done]. apply Z.eqb_eq, Z.mod_divide in A as [k A]; [|done].
    assert (L : length (samples_of_bytes bytes) = (2 * Z.to_nat k)%nat) by (apply samples_of_bytes_length; unfold len in A; lia).
    pose proof (frames_of_even (samples_of_bytes bytes)) as F.
    specialize (F ltac:(exists (Z.to_nat k); lia)). destruct (existsb _ _); [by rewrite F|].
    destruct F as (frames & -> & E). split; [done|]. apply push_refines; [done|]. by rewrite E.
  - unfold push_samples. pose proof (stage_spec samples [] [] 0 false) as S.
    specialize (S ltac:(unfold staged_as; split_and!; (done || (by exists 0%nat) || (cbn; lia)))).
    destruct (stage samples [] 0 false) as [[[pending ring] overflowed]|e], (frames_of samples) as [frames|e']; try done;
      [|by subst e'].
    destruct S as (R & _ & _ & _ & O & U). split; [done|]. apply push_refines; [done|].
    assert (P : (if overflowed then rotate_left (Z.to_nat ring) pending else pending) = newest CAPACITY (samples_of frames)).
    { rewrite app_nil_l in U. rewrite <- U. destruct overflowed; [done|]. rewrite O by done. unfold unrolled, rotate_left.
      cbn [fst snd]. change (Z.to_nat 0) with 0%nat. by rewrite drop_0, take_0, app_nil_r. }
    rewrite P. apply (newest_app_r CAPACITY []).
  - split; [done|]. destruct H. split; try done. cbn. lia.
  - unfold set_volume. destruct (is_finite volume); [|done]. cbn [negb orb andb]. destruct (_ && _); [|done].
    split; [done|]. by destruct H.
  - split; [done|]. by destruct H.
  - unfold drain_into. change AUDIO_CHANNELS with 2. destruct (Z.of_nat slots mod 2 =? 0) eqn:E; cbn [negb]; [|done].
    destruct H as [Hs Hv Hm Hu Hb Hr]. rewrite drain_slots_spec by (by rewrite Hu). cbn zeta.
    rewrite Hs, Hv, Hm, Hu. apply Z.eqb_eq, Z.mod_divide in E as [k E]; [|done].
    assert (D : (slots / 2)%nat = Z.to_nat k) by (symmetry; apply (Nat.div_unique slots 2 _ 0); lia).
    assert (T : take slots (samples_of (pl_frames p)) = samples_of (take (slots / 2) (pl_frames p))).
    { rewrite D. rewrite <- (take_drop (Z.to_nat k) (pl_frames p)) at 1. rewrite samples_of_app.
      assert (L : length (samples_of (take (Z.to_nat k) (pl_frames p))) = (2 * Nat.min (Z.to_nat k) (length (pl_frames p)))%nat)
        by (by rewrite samples_of_length, length_take).
      destruct (Nat.le_gt_cases (length (pl_frames p)) (Z.to_nat k)).
      - rewrite drop_ge by done. rewrite app_nil_r. apply take_ge. lia.
      - rewrite take_app_le by lia. apply take_ge. lia. }
    rewrite T, samples_of_length. cbn [fst snd]. split; [unfold len; rewrite samples_of_length; do 3 f_equal; lia|].
    split; cbn [qs_samples qs_volume qs_muted qs_underrun_samples pl_frames pl_volume pl_muted pl_underrun]; try done.
    + rewrite samples_of_drop, D. f_equal. lia.
    + rewrite length_drop. lia.
    + apply Z.mod_pos_bound. lia.
  - split; [|done]. cbn. by rewrite (rf_underrun _ _ H).
Qed.

Lemma audio_ops_refine ops s p : refines s p -> answers audio_op ops s = answers player_op ops p.
Proof.
  revert s p. induction ops as [|op ops IH]; intros s p H; [done|]. cbn [answers].
  destruct (audio_op_refines op s p H) as [E H'].
  destruct (audio_op op s) as [r s'], (player_op op p) as [r' p']. cbn in E, H'. subst r'. f_equal. by apply IH.
Qed.

(** C35: the audio queue is a queue of whole stereo frames: in every sequence of
    calls each of them answers, the samples it plays included, as the queue that keeps
    the newest hundred milliseconds of what was pushed.  So however PCM comes, as bytes
    or as samples, and whatever is dropped or missing, no sample is altered or out of
    order, left and right are never exchanged, nothing that is refused changes the
    queue, and what is missing is silence and is counted. *)
Theorem audio_queue_refines_frames ops :
  answers audio_op ops QueueState_default = answers player_op ops Player_default.
Proof. apply audio_ops_refine. by split; cbn; try lia. Qed.

(** ** The callback *)

Lemma drain_slots_length gain n s : length (drain_slots n gain s).1.1 = n.
Proof.
  revert s. induction n as [|n IH]; intros s; [done|]. cbn [drain_slots].
  destruct (qs_samples s) as [|x l];
    match goal with |- context [drain_slots n gain ?t] => specialize (IH t); destruct (drain_slots n gain t) as [[o c] s1] end;
    cbn in *; by rewrite IH.
Qed.
(** The device always gets its whole buffer. *)
Lemma render_fills slots q c : length (render slots q c).1.1 = slots.
Proof.
  unfold render, drain_into. destruct (negb _); [by cbn; rewrite length_replicate|].
  match goal with |- context [drain_slots ?n ?g ?t] =>
    pose proof (drain_slots_length g n t) as G; destruct (drain_slots n g t) as [[o k] s1] end.
  done.
Qed.

(** Left and right after an overflow: of 4801 frames the first is dropped. *)
Example oldest_frame_dropped :
  let s := (push_samples (concat (replicate 4800 [f32_1; f32_0]) ++ [f32_0; f32_1]) QueueState_default).2 in
  queued_samples s = 9600 /\ take 2 (qs_samples s) = [f32_1; f32_0] /\ drop 9598 (qs_samples s) = [f32_0; f32_1].
Proof. vm_compute. by split_and!. Qed.
