(* ===== verification/Stun.v ===== *)
(** * The STUN client

    [clients/rust/maho-net/src/stun.rs]: one binding request to a STUN server, and
    the parsing of its response (RFC 5389) for the address the client has outside
    its network.  The name resolution, the random transaction identifier and what the
    socket receives are arguments. *)

From S2P Require Import Prelude Guests.

Definition MAGIC_COOKIE : Z := 0x2112a442.
Definition HEADER_SIZE : Z := 20.
Definition BINDING_REQUEST : Z := 0x0001.
Definition BINDING_SUCCESS_RESPONSE : Z := 0x0101.
Definition XOR_MAPPED_ADDRESS : Z := 0x0020.
Definition MAPPED_ADDRESS : Z := 0x0001.

(** The reasons of [StunError::Invalid]. *)
Inductive StunError : Type :=
| UE_Resolve
| UE_NoAddress
| UE_Io
| UE_Random
| UE_Timeout
| UE_Invalid (reason : string)
| UE_MissingMappedAddress.

(** An [Ipv4Addr] is its four bytes. *)
Definition is_ipv4 (a : SocketAddr) : bool := len (sa_ip a) =? 4.

Definition binding_request (transaction_id : list byte) : list byte :=
  be_bytes 2 BINDING_REQUEST ++ [Byte.x00; Byte.x00] ++ be_bytes 4 MAGIC_COOKIE ++ transaction_id.

(** [&data[from..to]], and [u16::from_be_bytes] of two bytes of it. *)
Definition slice (data : list byte) (from to : Z) : list byte := take (Z.to_nat (to - from)) (drop (Z.to_nat from) data).
Definition be16 (data : list byte) (offset : Z) : Z := be_value (slice data offset (offset + 2)).

Definition parse_xor_mapped_address (value : list byte) : option SocketAddr :=
  if (len value <? 8) || negb (be_value (slice value 1 2) =? 0x01) then None
  else
    let port := Z.lxor (be16 value 2) (Z.shiftr MAGIC_COOKIE 16) in
    let encoded_ip := be_value (slice value 4 8) in
    Some (mkSocketAddr (be_bytes 4 (Z.lxor encoded_ip MAGIC_COOKIE)) port).
Definition parse_mapped_address (value : list byte) : option SocketAddr :=
  if (len value <? 8) || negb (be_value (slice value 1 2) =? 0x01) then None
  else Some (mkSocketAddr (slice value 4 8) (be16 value 2)).

Definition parse_attribute (attribute_type : Z) (value : list byte) : option SocketAddr :=
  if attribute_type =? XOR_MAPPED_ADDRESS then parse_xor_mapped_address value
  else if attribute_type =? MAPPED_ADDRESS then parse_mapped_address value
  else None.

(** [usize::checked_add] *)
Definition checked_add (a b : Z) : option Z := if a + b <? 2 ^ 64 then Some (a + b) else None.

(** The loop over the attributes. *)
Fixpoint attributes_loop (fuel : nat) (data : list byte) (attributes_end offset : Z) : result StunError SocketAddr :=
  match fuel with
  | O => Err UE_MissingMappedAddress
  | S fuel =>
    if negb (offset + 4 <=? attributes_end) then Err UE_MissingMappedAddress
    else
      let attribute_type := be16 data offset in
      let attribute_length := be16 data (offset + 2) in
      let value_offset := offset + 4 in
      match checked_add value_offset attribute_length with
      | None => Err (UE_Invalid "attribute length overflow")
      | Some value_end =>
        if attributes_end <? value_end then Err (UE_Invalid "truncated attribute")
        else
          match parse_attribute attribute_type (slice data value_offset value_end) with
          | Some address => Ok address
          | None =>
            match checked_add attribute_length 3 with
            | None => Err (UE_Invalid "attribute padding overflow")
            | Some padded =>
              match checked_add value_offset (Z.land padded (Z.lnot 3)) with
              | None => Err (UE_Invalid "attribute offset overflow")
              | Some offset => attributes_loop fuel data attributes_end offset
              end
            end
          end
      end
  end.

Definition parse_binding_response (data transaction_id : list byte) : result StunError SocketAddr :=
  if len data <? HEADER_SIZE then Err (UE_Invalid "truncated header")
  else if negb (be16 data 0 =? BINDING_SUCCESS_RESPONSE) then Err (UE_Invalid "not a binding success response")
  else
    let message_length := be16 data 2 in
    if len data <? HEADER_SIZE + message_length then Err (UE_Invalid "truncated attributes")
    else if negb (bool_decide (slice data 4 8 = be_bytes 4 MAGIC_COOKIE)) then Err (UE_Invalid "wrong magic cookie")
    else if negb (bool_decide (slice data 8 20 = transaction_id)) then Err (UE_Invalid "transaction ID mismatch")
    else attributes_loop (length data) data (HEADER_SIZE + message_length) HEADER_SIZE.

(** ** The exchange *)

Inductive Received : Type :=
| RV_Timeout
| RV_Error
| RV_Datagram (source : SocketAddr) (bytes : list byte).

#[export] Instance SocketAddr_dec : EqDecision SocketAddr.
Proof. solve_decision. Defined.

Definition resolve_ipv4 (addresses : option (list SocketAddr)) : result StunError SocketAddr :=
  match addresses with
  | None => Err UE_Resolve
  | Some addresses =>
    match List.find is_ipv4 addresses with Some a => Ok a | None => Err UE_NoAddress end
  end.

(** [None]: still waiting when the answers of the socket are used up.  The buffer
    holds 2048 bytes. *)
Fixpoint receive_loop (server : SocketAddr) (transaction_id : list byte) (received : list Received)
    : option (result StunError SocketAddr) :=
  match received with
  | [] => None
  | RV_Timeout :: _ => Some (Err UE_Timeout)
  | RV_Error :: _ => Some (Err UE_Io)
  | RV_Datagram source bytes :: received =>
    if bool_decide (source = server) then Some (parse_binding_response (take 2048 bytes) transaction_id)
    else receive_loop server transaction_id received
  end.

(** [fetch_public_address]: what it sends, and its result. *)
Definition fetch_public_address (addresses : option (list SocketAddr)) (random : option (list byte)) (sent : bool)
    (received : list Received) : list (SocketAddr * list byte) * option (result StunError SocketAddr) :=
  match resolve_ipv4 addresses with
  | Err e => ([], Some (Err e))
  | Ok server =>
    match random with
    | None => ([], Some (Err UE_Random))
    | Some transaction_id =>
      ([(server, binding_request transaction_id)],
       if sent then receive_loop server transaction_id received else Some (Err UE_Io))
    end
  end.

(** ** Responses *)

(** An attribute of a response: its type, its value and its padding. *)
Record Attribute : Type := mkAttribute { at_type : Z; at_value : list byte; at_padding : list byte }.
Definition attribute_wf (a : Attribute) : Prop :=
  0 <= at_type a < 65536 /\ len (at_value a) < 65536 /\ len (at_padding a) = (- len (at_value a)) mod 4.
Definition attribute_bytes (a : Attribute) : list byte :=
  be_bytes 2 (at_type a) ++ be_bytes 2 (len (at_value a)) ++ at_value a ++ at_padding a.
Definition binding_response (transaction_id : list byte) (attributes : list Attribute) : list byte :=
  let body := concat (map attribute_bytes attributes) in
  be_bytes 2 BINDING_SUCCESS_RESPONSE ++ be_bytes 2 (len body) ++ be_bytes 4 MAGIC_COOKIE ++ transaction_id ++ body.

(** The values a server writes for an address. *)
Definition mapped_value (a : SocketAddr) : list byte := [Byte.x00; Byte.x01] ++ be_bytes 2 (sa_port a) ++ sa_ip a.
Definition xor_mapped_value (a : SocketAddr) : list byte :=
  [Byte.x00; Byte.x01] ++ be_bytes 2 (Z.lxor (sa_port a) (Z.shiftr MAGIC_COOKIE 16)) ++
  be_bytes 4 (Z.lxor (be_value (sa_ip a)) MAGIC_COOKIE).

(** The first attribute that has an address gives it. *)
Fixpoint first_address (attributes : list Attribute) : option SocketAddr :=
  match attributes with
  | [] => None
  | a :: attributes =>
    match parse_attribute (at_type a) (at_value a) with Some address => Some address | None => first_address attributes end
  end.

(** ** Reading a response *)

Lemma slice_app (a b c : list byte) from to :
  from = len a -> to = len a + len b -> slice (a ++ b ++ c) from to = b.
Proof.
  intros -> ->. unfold slice, len. rewrite Nat2Z.id, drop_app_length.
  replace (Z.to_nat (Z.of_nat (length a) + Z.of_nat (length b) - Z.of_nat (length a))) with (length b) by lia.
  apply take_app_length.
Qed.
Lemma be16_app (a c : list byte) z offset :
  offset = len a -> 0 <= z < 65536 -> be16 (a ++ be_bytes 2 z ++ c) offset = z.
Proof.
  intros -> Hz. unfold be16. rewrite slice_app; [|done|unfold len; rewrite be_bytes_length; lia].
  by apply be_value_be_bytes.
Qed.
Lemma len_be_bytes n z : len (be_bytes n z) = Z.of_nat n.
Proof. unfold len. by rewrite be_bytes_length. Qed.

Lemma land_lnot_3 x : Z.land x (Z.lnot 3) = 4 * (x / 4).
Proof.
  change 3 with (Z.ones 2). rewrite <- Z.ldiff_land, Z.ldiff_ones_r, Z.shiftl_mul_pow2, Z.shiftr_div_pow2 by lia.
  change (2 ^ 2) with 4. lia.
Qed.
Lemma padding_end n : 4 * ((n + 3) / 4) = n + (- n) mod 4.
Proof. Z.to_euclidean_division_equations. lia. Qed.

Lemma len_attribute a :
  attribute_wf a -> len (attribute_bytes a) = 4 + len (at_value a) + (- len (at_value a)) mod 4.
Proof. intros (_ & _ & P). unfold attribute_bytes. rewrite !len_app, !len_be_bytes, P. lia. Qed.

(** One attribute is read. *)
Lemma attributes_loop_step fuel pre a rest stop offset :
  attribute_wf a -> offset = len pre -> len pre + len (attribute_bytes a) <= stop -> stop < 2 ^ 32 ->
  attributes_loop (S fuel) (pre ++ attribute_bytes a ++ rest) stop offset =
  match parse_attribute (at_type a) (at_value a) with
  | Some address => Ok address
  | None => attributes_loop fuel (pre ++ attribute_bytes a ++ rest) stop (len pre + len (attribute_bytes a))
  end.
Proof.
  intros W -> L B. rewrite len_attribute in L |- * by done. destruct W as (T & V & P).
  pose proof (Z.mod_pos_bound (- len (at_value a)) 4 ltac:(lia)). pose proof (len_nonneg pre). pose proof (len_nonneg (at_value a)).
  cbn [attributes_loop]. destruct (len pre + 4 <=? stop) eqn:E; [|apply Z.leb_gt in E; lia]. cbn [negb].
  set (data := pre ++ attribute_bytes a ++ rest).
  assert (D1 : be16 data (len pre) = at_type a).
  { unfold data, attribute_bytes. rewrite <- app_assoc. by apply be16_app. }
  assert (D2 : be16 data (len pre + 2) = len (at_value a)).
  { unfold data, attribute_bytes. rewrite <- !app_assoc, (app_assoc pre).
    apply be16_app; [rewrite len_app, len_be_bytes; lia|lia]. }
  assert (D3 : slice data (len pre + 4) (len pre + 4 + len (at_value a)) = at_value a).
  { unfold data, attribute_bytes. rewrite <- !app_assoc, (app_assoc pre), (app_assoc (pre ++ _)).
    apply slice_app; rewrite !len_app, !len_be_bytes; lia. }
  rewrite D1, D2. unfold checked_add.
  destruct (len pre + 4 + len (at_value a) <? 2 ^ 64) eqn:E1; [|apply Z.ltb_ge in E1; lia].
  destruct (stop <? len pre + 4 + len (at_value a)) eqn:E2; [apply Z.ltb_lt in E2; lia|]. rewrite D3.
  destruct (parse_attribute _ _); [done|].
  destruct (len (at_value a) + 3 <? 2 ^ 64) eqn:E3; [|apply Z.ltb_ge in E3; lia]. rewrite land_lnot_3, padding_end.
  match goal with |- context [if ?b then _ else _] => destruct b eqn:E4 end; [|apply Z.ltb_ge in E4; lia]. f_equal. lia.
Qed.

Lemma attributes_loop_spec attributes : forall fuel pre rest,
  Forall attribute_wf attributes -> (length attributes < fuel)%nat ->
  let stop := len pre + len (concat (map attribute_bytes attributes)) in
  stop < 2 ^ 32 ->
  attributes_loop fuel (pre ++ concat (map attribute_bytes attributes) ++ rest) stop (len pre) =
  match first_address attributes with Some a => Ok a | None => Err UE_MissingMappedAddress end.
Proof.
  induction attributes as [|a attributes IH]; intros fuel pre rest W F stop B; (destruct fuel as [|fuel]; [lia|]).
  - cbn [attributes_loop first_address]. destruct (len pre + 4 <=? stop) eqn:E; [|done]. apply Z.leb_le in E.
    change (len pre + 4 <= len pre + 0) in E. lia.
  - apply Forall_cons in W as [Wa W]. cbn [map concat first_address]. rewrite <- app_assoc.
    assert (E : stop = len (pre ++ attribute_bytes a) + len (concat (map attribute_bytes attributes))).
    { unfold stop. cbn [map concat]. rewrite !len_app. lia. }
    pose proof (len_nonneg (concat (map attribute_bytes attributes))).
    rewrite attributes_loop_step; [|done|done|rewrite E, len_app; lia|done].
    destruct (parse_attribute _ _); [done|]. rewrite app_assoc, <- len_app, E. apply IH; [done|cbn in F; lia|].
    by rewrite <- E.
Qed.

Lemma attributes_fewer attributes : (length attributes <= length (concat (map attribute_bytes attributes)))%nat.
Proof.
  induction attributes as [|a attributes IH]; [done|]. cbn [map concat length]. rewrite length_app.
  assert (1 <= length (attribute_bytes a))%nat; [|lia]. unfold attribute_bytes. rewrite length_app, be_bytes_length. lia.
Qed.

Lemma parse_response transaction_id attributes trailing :
  len transaction_id = 12 -> Forall attribute_wf attributes -> len (concat (map attribute_bytes attributes)) < 65536 ->
  parse_binding_response (binding_response transaction_id attributes ++ trailing) transaction_id =
  match first_address attributes with Some a => Ok a | None => Err UE_MissingMappedAddress end.
Proof.
  intros T W B. unfold parse_binding_response, binding_response. set (body := concat (map attribute_bytes attributes)) in *.
  pose proof (len_nonneg body). pose proof (len_nonneg trailing).
  set (data := (_ ++ _) ++ trailing).
  assert (L : len data = HEADER_SIZE + len body + len trailing).
  { unfold data. rewrite !len_app, !len_be_bytes, T. unfold HEADER_SIZE. lia. }
  assert (D0 : be16 data 0 = BINDING_SUCCESS_RESPONSE).
  { unfold data. rewrite <- !app_assoc. by apply (be16_app []). }
  assert (D2 : be16 data 2 = len body).
  { unfold data. rewrite <- !app_assoc. by apply be16_app; [rewrite len_be_bytes|]. }
  assert (D4 : slice data 4 8 = be_bytes 4 MAGIC_COOKIE).
  { unfold data. rewrite <- !app_assoc, (app_assoc (be_bytes 2 _)).
    apply slice_app; rewrite !len_app, !len_be_bytes; lia. }
  assert (D8 : slice data 8 20 = transaction_id).
  { unfold data. rewrite <- !app_assoc, (app_assoc (be_bytes 2 _)), (app_assoc (be_bytes 2 _ ++ _)).
    apply slice_app; rewrite !len_app, !len_be_bytes; lia. }
  assert (F : (length attributes < length data)%nat).
  { pose proof (attributes_fewer attributes). unfold len, HEADER_SIZE in L. fold body in H1. unfold body in *. lia. }
  destruct (len data <? HEADER_SIZE) eqn:E; [apply Z.ltb_lt in E; lia|]. rewrite D0, D2, D4, D8. cbn [negb].
  destruct (len data <? HEADER_SIZE + len body) eqn:E2; [apply Z.ltb_lt in E2; lia|].
  rewrite !bool_decide_true by done. cbn [negb].
  set (head := be_bytes 2 BINDING_SUCCESS_RESPONSE ++ be_bytes 2 (len body) ++ be_bytes 4 MAGIC_COOKIE ++ transaction_id).
  assert (Lh : len head = HEADER_SIZE) by (unfold head; rewrite !len_app, !len_be_bytes, T; done).
  assert (Ed : data = head ++ body ++ trailing) by (unfold data, head; by rewrite <- !app_assoc).
  rewrite <- Lh at 1 2. rewrite Ed at 2. apply attributes_loop_spec; [done|done|].
  rewrite Lh. unfold HEADER_SIZE. fold body. lia.
Qed.

(** ** The values of the address attributes *)

Lemma ip_value ip : len ip = 4 -> be_bytes 4 (be_value ip) = ip /\ 0 <= be_value ip < 2 ^ 32.
Proof.
  intros L. assert (E : length ip = 4%nat) by (unfold len in L; lia). split; [by rewrite <- E, be_bytes_be_value|].
  unfold be_value. pose proof (le_value_range (rev ip)) as R. unfold len in R. rewrite length_rev, E in R. exact R.
Qed.
Lemma lxor_range a b n : 0 <= n -> 0 <= a < 2 ^ n -> 0 <= b < 2 ^ n -> 0 <= Z.lxor a b < 2 ^ n.
Proof.
  intros N A B. assert (P : 0 <= Z.lxor a b) by (apply Z.lxor_nonneg; lia). split; [done|].
  destruct (Z.eq_dec (Z.lxor a b) 0) as [->|Z0]; [lia|]. apply Z.log2_lt_pow2; [lia|].
  pose proof (Z.log2_lxor a b ltac:(lia) ltac:(lia)).
  assert (0 < n) by (destruct (Z.eq_dec n 0) as [->|]; [|lia]; assert (a = 0) by lia; assert (b = 0) by lia; by subst).
  assert (Z.log2 a < n) by (destruct (Z.eq_dec a 0) as [->|]; [done|apply Z.log2_lt_pow2; lia]).
  assert (Z.log2 b < n) by (destruct (Z.eq_dec b 0) as [->|]; [done|apply Z.log2_lt_pow2; lia]). lia.
Qed.
Lemma lxor_twice a b : Z.lxor (Z.lxor a b) b = a.
Proof. by rewrite Z.lxor_assoc, Z.lxor_nilpotent, Z.lxor_0_r. Qed.

Lemma parse_xor_mapped_value a :
  len (sa_ip a) = 4 -> 0 <= sa_port a < 65536 -> parse_xor_mapped_address (xor_mapped_value a) = Some a.
Proof.
  intros I P. destruct (ip_value _ I) as [Eip Rip].
  assert (Rp : 0 <= Z.lxor (sa_port a) (Z.shiftr MAGIC_COOKIE 16) < 2 ^ 16) by (by apply lxor_range).
  assert (Ri : 0 <= Z.lxor (be_value (sa_ip a)) MAGIC_COOKIE < 2 ^ 32) by (by apply lxor_range).
  unfold parse_xor_mapped_address, xor_mapped_value. set (port := Z.lxor (sa_port a) _) in *. set (ip := Z.lxor (be_value _) _) in *.
  set (value := [Byte.x00; Byte.x01] ++ be_bytes 2 port ++ be_bytes 4 ip).
  assert (L : len value = 8) by (unfold value; rewrite !len_app, !len_be_bytes; done). rewrite L. cbn [negb Z.ltb Z.compare orb].
  change (be_value (slice value 1 2)) with 1. cbn [Z.eqb Pos.eqb negb orb].
  assert (D2 : be16 value 2 = port) by (by apply (be16_app [Byte.x00; Byte.x01])).
  assert (D4 : slice value 4 8 = be_bytes 4 ip).
  { unfold value. rewrite <- (app_nil_r (be_bytes 4 ip)), app_assoc. by apply slice_app; rewrite ?len_app, !len_be_bytes. }
  rewrite D2, D4, be_value_be_bytes by done. unfold port, ip. rewrite !lxor_twice, Eip. by destruct a.
Qed.
Lemma parse_mapped_value a :
  len (sa_ip a) = 4 -> 0 <= sa_port a < 65536 -> parse_mapped_address (mapped_value a) = Some a.
Proof.
  intros I P. unfold parse_mapped_address, mapped_value. set (value := [Byte.x00; Byte.x01] ++ be_bytes 2 (sa_port a) ++ sa_ip a).
  assert (L : len value = 8) by (unfold value; rewrite !len_app, len_be_bytes, I; done). rewrite L. cbn [negb Z.ltb Z.compare orb].
  change (be_value (slice value 1 2)) with 1. cbn [Z.eqb Pos.eqb negb orb].
  assert (D2 : be16 value 2 = sa_port a) by (by apply (be16_app [Byte.x00; Byte.x01])).
  assert (D4 : slice value 4 8 = sa_ip a).
  { transitivity (slice (([Byte.x00; Byte.x01] ++ be_bytes 2 (sa_port a)) ++ sa_ip a ++ []) 4 8);
      [by rewrite app_nil_r, <- app_assoc|]. by apply slice_app; rewrite ?len_app, ?len_be_bytes, ?I. }
  rewrite D2, D4. by destruct a.
Qed.

(** ** What the client gets *)

Lemma first_address_app before a after address :
  first_address before = None -> parse_attribute (at_type a) (at_value a) = Some address ->
  first_address (before ++ a :: after) = Some address.
Proof.
  intros N P. induction before as [|b before IH]; cbn [app first_address] in *; [by rewrite P|].
  destruct (parse_attribute (at_type b) _); [done|]. by apply IH.
Qed.
Lemma receive_loop_foreign server transaction_id foreign received :
  Forall (fun r => match r with RV_Datagram source _ => source <> server | _ => False end) foreign ->
  receive_loop server transaction_id (foreign ++ received) = receive_loop server transaction_id received.
Proof.
  induction foreign as [|r foreign IH]; intros F; [done|]. apply Forall_cons in F as [Hr F].
  destruct r as [| |source bytes]; try done. cbn [app receive_loop]. rewrite bool_decide_false by done. by apply IH.
Qed.

(** The two attributes a server can write an address into. *)
Definition address_attribute (address : SocketAddr) (a : Attribute) : Prop :=
  at_type a = XOR_MAPPED_ADDRESS /\ at_value a = xor_mapped_value address \/
  at_type a = MAPPED_ADDRESS /\ at_value a = mapped_value address.

(** The client finds its address: whatever attributes the server writes before the
    one with the address, padded as the format has it, whatever follows
    in the datagram, and whatever others send meanwhile, the binding request is
    answered by that address. *)
Theorem stun_finds_address addresses server transaction_id address before a after trailing foreign more :
  let attributes := before ++ a :: after in
  let response := binding_response transaction_id attributes ++ trailing in
  resolve_ipv4 (Some addresses) = Ok server -> len transaction_id = 12 ->
  len (sa_ip address) = 4 -> 0 <= sa_port address < 65536 -> address_attribute address a ->
  Forall attribute_wf attributes -> first_address before = None ->
  len (concat (map attribute_bytes attributes)) < 65536 -> len response <= 2048 ->
  Forall (fun r => match r with RV_Datagram source _ => source <> server | _ => False end) foreign ->
  fetch_public_address (Some addresses) (Some transaction_id) true (foreign ++ RV_Datagram server response :: more) =
  ([(server, binding_request transaction_id)], Some (Ok address)).
Proof.
  intros attributes response R T I P A W N B L F. unfold fetch_public_address. rewrite R. do 2 f_equal.
  rewrite receive_loop_foreign by done. cbn [receive_loop]. rewrite bool_decide_true by done. f_equal.
  rewrite take_ge by (unfold len in L; lia). unfold response. rewrite parse_response by done.
  unfold attributes. rewrite (first_address_app before a after address); [done|done|].
  destruct A as [[-> ->]|[-> ->]]; unfold parse_attribute; cbn [Z.eqb Pos.eqb XOR_MAPPED_ADDRESS MAPPED_ADDRESS].
  - by apply parse_xor_mapped_value.
  - by apply parse_mapped_value.
Qed.

Lemma slice_take n (l : list byte) from to : 0 <= from -> to <= Z.of_nat n -> slice (take n l) from to = slice l from to.
Proof.
  intros F T. unfold slice. rewrite skipn_firstn_comm, take_take. f_equal. lia.
Qed.
Lemma slice_split (l : list byte) from middle to :
  0 <= from <= middle -> middle <= to -> slice l from to = slice l from middle ++ slice l middle to.
Proof.
  intros A B. unfold slice. replace (Z.to_nat (to - from)) with (Z.to_nat (middle - from) + Z.to_nat (to - middle))%nat by lia.
  rewrite <- take_take_drop, drop_drop. do 3 f_equal. lia.
Qed.
Lemma parse_accepts data transaction_id a :
  parse_binding_response data transaction_id = Ok a ->
  be16 data 0 = BINDING_SUCCESS_RESPONSE /\ slice data 4 20 = be_bytes 4 MAGIC_COOKIE ++ transaction_id.
Proof.
  unfold parse_binding_response. case_match; [done|].
  destruct (be16 data 0 =? _) eqn:T; cbn [negb]; [|done]. apply Z.eqb_eq in T.
  case_match; [done|]. destruct (decide (slice data 4 8 = be_bytes 4 MAGIC_COOKIE)) as [C|C];
    [rewrite (bool_decide_true _ C)|by rewrite (bool_decide_false _ C)]. cbn [negb].
  destruct (decide (slice data 8 20 = transaction_id)) as [I|I];
    [rewrite (bool_decide_true _ I)|by rewrite (bool_decide_false _ I)]. intros _. split; [done|].
  by rewrite (slice_split data 4 8 20), C, I by lia.
Qed.
Lemma receive_loop_accepts server transaction_id received a :
  receive_loop server transaction_id received = Some (Ok a) ->
  exists before bytes after, received = before ++ RV_Datagram server bytes :: after /\
    Forall (fun r => match r with RV_Datagram source _ => source <> server | _ => False end) before /\
    parse_binding_response (take 2048 bytes) transaction_id = Ok a.
Proof.
  induction received as [|r received IH]; [done|]. destruct r as [| |source bytes]; cbn [receive_loop]; try done.
  case_bool_decide as S; intros H.
  - subst source. injection H as H. by exists [], bytes, received.
  - destruct (IH H) as (before & b & after & -> & F & P). exists (RV_Datagram source bytes :: before), b, after.
    split; [done|]. split; [by constructor|done].
Qed.

(** An address is only taken from the server: the first datagram that came from the address
    asked, answering with the magic cookie and the transaction identifier of this
    request; and it is an IPv4 address. *)
Theorem stun_answer_authentic addresses random sent received address :
  (fetch_public_address addresses random sent received).2 = Some (Ok address) ->
  exists server transaction_id before bytes after,
    random = Some transaction_id /\ is_ipv4 server = true /\
    (fetch_public_address addresses random sent received).1 = [(server, binding_request transaction_id)] /\
    received = before ++ RV_Datagram server bytes :: after /\
    Forall (fun r => match r with RV_Datagram source _ => source <> server | _ => False end) before /\
    be16 bytes 0 = BINDING_SUCCESS_RESPONSE /\ slice bytes 4 20 = be_bytes 4 MAGIC_COOKIE ++ transaction_id.
Proof.
  unfold fetch_public_address, resolve_ipv4. destruct addresses as [addresses|]; [|done].
  destruct (List.find is_ipv4 addresses) as [server|] eqn:V; [|done]. apply List.find_some in V as [_ V].
  destruct random as [transaction_id|]; [|done]. cbn [fst snd]. destruct sent; [|done]. intros H.
  destruct (receive_loop_accepts _ _ _ _ H) as (before & bytes & after & E & F & P).
  apply parse_accepts in P as [P1 P2]. unfold be16 in *. rewrite slice_take in P1, P2 by lia.
  exists server, transaction_id, before, bytes, after. by split_and!.
Qed.

(** *** At concrete inputs *)

Definition toy_server : SocketAddr := mkSocketAddr [Byte.x08; Byte.x08; Byte.x08; Byte.x08] 19302.
Definition toy_outside : SocketAddr := mkSocketAddr [Byte.xcb; Byte.x00; Byte.x71; Byte.x07] 40000.
Definition toy_id : list byte := repeat Byte.x07 12.
(** A SOFTWARE attribute of three bytes and one of padding, then the address. *)
Definition toy_software : Attribute := mkAttribute 0x8022 (str_bytes "srv") [Byte.x00].
Definition toy_address : Attribute := mkAttribute XOR_MAPPED_ADDRESS (xor_mapped_value toy_outside) [].
Definition toy_response : list byte := binding_response toy_id [toy_software; toy_address] ++ [].
Definition toy_received : list Received := [RV_Datagram toy_outside (str_bytes "noise"); RV_Datagram toy_server toy_response].

Lemma stun_finds_address_witness :
  resolve_ipv4 (Some [toy_server]) = Ok toy_server /\ len toy_response <= 2048 /\
  fetch_public_address (Some [toy_server]) (Some toy_id) true toy_received =
  ([(toy_server, binding_request toy_id)], Some (Ok toy_outside)).
Proof.
  split; [vm_compute; reflexivity|]. split; [vm_compute; discriminate|].
  apply (stun_finds_address [toy_server] toy_server toy_id toy_outside [toy_software] toy_address [] []
    [RV_Datagram toy_outside (str_bytes "noise")] []); try (vm_compute; reflexivity).
  - vm_compute. split; [discriminate|reflexivity].
  - left. by split.
  - repeat constructor; try (vm_compute; discriminate); vm_compute; reflexivity.
  - vm_compute. discriminate.
  - repeat constructor. vm_compute. discriminate.
Defined.

Lemma stun_answer_authentic_witness :
  (fetch_public_address (Some [toy_server]) (Some toy_id) true toy_received).2 = Some (Ok toy_outside) /\
  exists server transaction_id before bytes after,
    Some toy_id = Some transaction_id /\ is_ipv4 server = true /\
    (fetch_public_address (Some [toy_server]) (Some toy_id) true toy_received).1 = [(server, binding_request transaction_id)] /\
    toy_received = before ++ RV_Datagram server bytes :: after /\
    Forall (fun r => match r with RV_Datagram source _ => source <> server | _ => False end) before /\
    be16 bytes 0 = BINDING_SUCCESS_RESPONSE /\ slice bytes 4 20 = be_bytes 4 MAGIC_COOKIE ++ transaction_id.
Proof.
  assert (E : (fetch_public_address (Some [toy_server]) (Some toy_id) true toy_received).2 = Some (Ok toy_outside))
    by (vm_compute; reflexivity).
  split; [exact E|]. exact (stun_answer_authentic _ _ _ _ _ E).
Defined.

(** A datagram with the server's address but another transaction identifier
    ends the request, though the server's own answer follows. *)
Example spoofed_reply_ends_request :
  (fetch_public_address (Some [toy_server]) (Some toy_id) true
     [RV_Datagram toy_server (binding_response (repeat Byte.x08 12) [toy_address]); RV_Datagram toy_server toy_response]).2 =
  Some (Err (UE_Invalid "transaction ID mismatch")).
Proof. vm_compute. reflexivity. Qed.
