(* ===== verification/Signaling.v ===== *)
(** * The exchange of candidates

    [clients/rust/maho-net/src/signaling.rs]: two clients that share a PIN exchange
    their addresses through an ntfy server that neither of them trusts.  PBKDF2,
    HKDF, AES-256-GCM, Base64 and JSON are parameters; the HTTP server is a list
    of answers, each with the time it took. *)

From S2P Require Import Prelude Text RelayProto.

Definition SIGNALING_SALT : list byte := str_bytes "erd/signaling/v3".
Definition POLL_INTERVAL : Duration := from_secs 1.
Definition EXCHANGE_TIMEOUT : Duration := from_secs 10.
Definition MAX_POLL_BODY_BYTES : Z := 256 * 1024.
Definition MAX_ENVELOPE_BYTES : Z := 16 * 1024.

Record SessionCandidate : Type := mkSessionCandidate {
  sc_role : rstring;
  sc_local_ip : rstring;
  sc_local_port : Z;
  sc_public_ip : rstring;
  sc_public_port : Z
}.

Inductive SignalingError : Type :=
| GE_Stretch
| GE_Random
| GE_Encrypt
| GE_Post
| GE_PostRejected (status : Z)
| GE_PollBodyTooLarge
| GE_Timeout.

Record SignalingClient : Type := mkSignalingClient {
  sg_role : rstring;
  sg_topic : rstring;
  sg_payload_key : list byte;
  sg_base_url : rstring
}.

Definition lower_hex (bytes : list byte) : rstring :=
  concat (map (fun b => [hex_char (Z.shiftr (byte_to_Z b) 4); hex_char (Z.land (byte_to_Z b) 15)]) bytes).

(** [str::trim_end_matches(c)] *)
Fixpoint trim_start_byte (c : byte) (s : rstring) : rstring :=
  match s with
  | b :: rest => if bool_decide (b = c) then trim_start_byte c rest else s
  | [] => []
  end.
Definition trim_end_byte (c : byte) (s : rstring) : rstring := rev (trim_start_byte c (rev s)).

(** ** The server's answers *)

(** How the chunks of a body end: the body is complete, the connection failed, or
    the time was over. *)
Inductive BodyEnd : Type := BE_Complete | BE_Failed | BE_Elapsed.

(** An answer to a poll: [po_response] is [None] when the request failed or took too
    long; else the length the server announced and the body's chunks. *)
Record Poll : Type := mkPoll {
  po_response : option (option Z * list (list byte) * BodyEnd);
  po_request_time : Duration;
  po_body_time : Duration
}.

(** [read_bounded_body], under its timeout ([None]). *)
Fixpoint read_chunks (body : list byte) (chunks : list (list byte)) (body_end : BodyEnd)
    : option (result SignalingError (list byte)) :=
  match chunks with
  | [] => match body_end with BE_Complete => Some (Ok body) | BE_Failed => Some (Err GE_Post) | BE_Elapsed => None end
  | chunk :: chunks =>
    if MAX_POLL_BODY_BYTES <? len body + len chunk then Some (Err GE_PollBodyTooLarge)
    else read_chunks (body ++ chunk) chunks body_end
  end.
Definition read_bounded_body (response : option Z * list (list byte) * BodyEnd)
    : option (result SignalingError (list byte)) :=
  let '(content_length, chunks, body_end) := response in
  if match content_length with Some length => MAX_POLL_BODY_BYTES <? length | None => false end
  then Some (Err GE_PollBodyTooLarge)
  else read_chunks [] chunks body_end.

Section Signaling.

Context (pbkdf2 : rstring -> list byte -> option (list byte)) (hkdf : list byte -> list byte -> list byte -> Z -> list byte)
  (encrypt : list byte -> list byte -> list byte -> option (list byte))
  (decrypt : list byte -> list byte -> list byte -> option (list byte))
  (base64 : list byte -> rstring) (base64_decode : rstring -> option (list byte))
  (to_json : SessionCandidate -> list byte) (of_json : list byte -> option SessionCandidate)
  (message_of : rstring -> option rstring).

(** [SignalingClient::with_base_url]. *)
Definition with_base_url (pin role base_url : rstring) : result SignalingError SignalingClient :=
  match pbkdf2 pin SIGNALING_SALT with
  | None => Err GE_Stretch
  | Some stretched =>
    let topic_seed := hkdf stretched SIGNALING_SALT (str_bytes "erd/topic") 32 in
    let key := hkdf stretched SIGNALING_SALT (str_bytes "erd/payload-key") 32 in
    Ok (mkSignalingClient role (str_bytes "erd3-" ++ lower_hex (take 14 topic_seed)) key
          (trim_end_byte Byte.x2f base_url))
  end.

Definition encrypt_payload (nonce : option (list byte)) (payload key : list byte) : result SignalingError rstring :=
  match nonce with
  | None => Err GE_Random
  | Some nonce =>
    match encrypt key nonce payload with
    | None => Err GE_Encrypt
    | Some ciphertext => Ok (base64 (nonce ++ ciphertext))
    end
  end.
Definition decrypt_payload (encoded : rstring) (key : list byte) : option (list byte) :=
  combined ← base64_decode encoded;
  if len combined <? 12 + 16 then None else decrypt key (take 12 combined) (drop 12 combined).

(** The closure of [find_map] in [peer_candidate_from_jsonl]. *)
Definition peer_candidate (own_role : rstring) (key : list byte) (line : rstring) : option SessionCandidate :=
  if MAX_ENVELOPE_BYTES <? len line then None
  else
    message ← message_of line;
    payload ← decrypt_payload message key;
    candidate ← of_json payload;
    if bool_decide (sc_role candidate = own_role) then None else Some candidate.
Fixpoint find_map {A} (f : rstring -> option A) (l : list rstring) : option A :=
  match l with
  | [] => None
  | x :: l => match f x with Some a => Some a | None => find_map f l end
  end.
Definition peer_candidate_from_jsonl (body : list byte) (own_role : rstring) (key : list byte)
    : option SessionCandidate :=
  if utf8_valid body then find_map (peer_candidate own_role key) (rev (lines body)) else None.

(** The answer to a poll: the result, if it is one. *)
Definition poll_result (c : SignalingClient) (poll : Poll) : option (result SignalingError SessionCandidate) :=
  response ← po_response poll;
  body ← read_bounded_body response;
  match body with
  | Ok body => Ok <$> peer_candidate_from_jsonl body (sg_role c) (sg_payload_key c)
  | Err GE_PollBodyTooLarge => Some (Err GE_PollBodyTooLarge)
  | Err _ => None
  end.

(** The loop, and when it ends; [None]: still polling when the answers are used up. *)
Fixpoint poll_loop (c : SignalingClient) (deadline now : Instant) (polls : list Poll)
    : option (result SignalingError SessionCandidate * Instant) :=
  match polls with
  | [] => None
  | poll :: polls =>
    if saturating_duration_since deadline now =? 0 then Some (Err GE_Timeout, now)
    else
      let now := now + Z.max 0 (po_request_time poll) + Z.max 0 (po_body_time poll) in
      match poll_result c poll with
      | Some r => Some (r, now)
      | None =>
        let remaining := saturating_duration_since deadline now in
        if remaining =? 0 then Some (Err GE_Timeout, now)
        else poll_loop c deadline (now + Z.min POLL_INTERVAL remaining) polls
      end
  end.

(** [exchange_candidate]: the message it posts, and its result. *)
Definition exchange_candidate (c : SignalingClient) (local : SessionCandidate) (nonce : option (list byte))
    (posted : option Z) (now : Instant) (polls : list Poll)
    : option (rstring * rstring) * option (result SignalingError SessionCandidate * Instant) :=
  match encrypt_payload nonce (to_json local) (sg_payload_key c) with
  | Err e => (None, Some (Err e, now))
  | Ok message =>
    let topic_url := sg_base_url c ++ str_bytes "/" ++ sg_topic c in
    (Some (topic_url, message),
     match posted with
     | None => Some (Err GE_Post, now)
     | Some status =>
       if negb ((200 <=? status) && (status <? 300)) then Some (Err (GE_PostRejected status), now)
       else poll_loop c (now + EXCHANGE_TIMEOUT) now polls
     end)
  end.

End Signaling.

(** ** Bodies *)

(** The lines of a JSONL body, each with its line feed. *)
Definition jsonl (l : list rstring) : list byte := concat (map (fun line => line ++ [LF]) l).
Definition line_ok (line : rstring) : Prop := Forall (fun b => b <> LF) line /\ last line <> Some CR.

Lemma strip_cr_ok line : last line <> Some CR -> strip_cr line = line.
Proof. unfold strip_cr. intros L. destruct (last line) as [b|]; [|done]. by rewrite bool_decide_false by congruence. Qed.
Lemma lines_from_line line rest : forall start,
  Forall (fun b => b <> LF) line -> last (start ++ line) <> Some CR ->
  lines_from start (line ++ [LF] ++ rest) = (start ++ line) :: lines_from [] rest.
Proof.
  induction line as [|b line IH]; intros start F L; cbn [app lines_from].
  - rewrite app_nil_r in *. rewrite bool_decide_true by done. by rewrite strip_cr_ok.
  - apply Forall_cons in F as [Hb F]. rewrite bool_decide_false by done. rewrite IH; [by rewrite <- app_assoc|done|].
    by rewrite <- app_assoc.
Qed.
Lemma lines_jsonl l : Forall line_ok l -> lines (jsonl l) = l.
Proof.
  unfold lines, jsonl. induction l as [|line l IH]; intros F; [done|]. apply Forall_cons in F as [[F1 F2] F].
  cbn [map concat]. rewrite <- app_assoc, lines_from_line by done. cbn [app]. by rewrite IH.
Qed.

(** A body within the budget is read whole, however it comes. *)
Lemma read_chunks_complete chunks body :
  len (body ++ concat chunks) <= MAX_POLL_BODY_BYTES ->
  read_chunks body chunks BE_Complete = Some (Ok (body ++ concat chunks)).
Proof.
  revert body. induction chunks as [|chunk chunks IH]; intros body L; cbn [read_chunks concat] in *; [by rewrite app_nil_r|].
  rewrite app_assoc, len_app in L. rewrite len_app in L. pose proof (len_nonneg (concat chunks)).
  destruct (MAX_POLL_BODY_BYTES <? _) eqn:E; [apply Z.ltb_lt in E; lia|]. rewrite IH; [by rewrite <- app_assoc|].
  rewrite !len_app. lia.
Qed.
Lemma read_chunks_bounded chunks body body_end read :
  len body <= MAX_POLL_BODY_BYTES -> read_chunks body chunks body_end = Some (Ok read) ->
  read = body ++ concat chunks /\ len read <= MAX_POLL_BODY_BYTES.
Proof.
  revert body. induction chunks as [|chunk chunks IH]; intros body L; cbn [read_chunks concat].
  - destruct body_end; [|done..]. intros [= <-]. by rewrite app_nil_r.
  - destruct (MAX_POLL_BODY_BYTES <? _) eqn:E; [done|]. apply Z.ltb_ge in E. intros H. apply IH in H; [|by rewrite len_app].
    by rewrite <- app_assoc in H.
Qed.

Lemma find_map_app {A} (f : rstring -> option A) a b :
  find_map f (a ++ b) = match find_map f a with Some x => Some x | None => find_map f b end.
Proof. induction a as [|x a IH]; [done|]. cbn [app find_map]. by destruct (f x). Qed.
Lemma find_map_none {A} (f : rstring -> option A) l : Forall (fun x => f x = None) l -> find_map f l = None.
Proof. induction 1 as [|x l H _ IH]; [done|]. cbn [find_map]. by rewrite H. Qed.
Lemma find_map_some {A} (f : rstring -> option A) l y : find_map f l = Some y -> exists x, x ∈ l /\ f x = Some y.
Proof.
  induction l as [|x l IH]; [done|]. cbn [find_map]. destruct (f x) as [z|] eqn:E.
  - intros [= ->]. exists x. split; [apply list_elem_of_here|done].
  - intros H. destruct (IH H) as (x' & I & E'). exists x'. split; [by apply list_elem_of_further|done].
Qed.

Section Exchange.

Context (pbkdf2 : rstring -> list byte -> option (list byte)) (hkdf : list byte -> list byte -> list byte -> Z -> list byte)
  (encrypt : list byte -> list byte -> list byte -> option (list byte))
  (decrypt : list byte -> list byte -> list byte -> option (list byte))
  (base64 : list byte -> rstring) (base64_decode : rstring -> option (list byte))
  (to_json : SessionCandidate -> list byte) (of_json : list byte -> option SessionCandidate)
  (message_of : rstring -> option rstring).

Abbreviation poll_loop := (poll_loop decrypt base64_decode of_json message_of).
Abbreviation poll_result := (poll_result decrypt base64_decode of_json message_of).
Abbreviation peer_candidate := (peer_candidate decrypt base64_decode of_json message_of).
Abbreviation exchange := (exchange_candidate encrypt decrypt base64 base64_decode to_json of_json message_of).

(** The loop goes on over answers without a result, while there is time. *)
Fixpoint quiet_until (c : SignalingClient) (deadline now : Instant) (polls : list Poll) : option Instant :=
  match polls with
  | [] => Some now
  | poll :: polls =>
    if deadline <=? now then None
    else match poll_result c poll with
         | Some _ => None
         | None =>
           let now := now + Z.max 0 (po_request_time poll) + Z.max 0 (po_body_time poll) in
           if deadline <=? now then None else quiet_until c deadline (now + Z.min POLL_INTERVAL (deadline - now)) polls
         end
  end.

Lemma remaining_zero deadline now : (saturating_duration_since deadline now =? 0) = (deadline <=? now).
Proof.
  unfold saturating_duration_since. destruct (deadline <=? now) eqn:E;
    [apply Z.leb_le in E; apply Z.eqb_eq; lia|apply Z.leb_gt in E; apply Z.eqb_neq; lia].
Qed.

Lemma poll_loop_quiet c deadline now before more later :
  quiet_until c deadline now before = Some later -> poll_loop c deadline now (before ++ more) = poll_loop c deadline later more.
Proof.
  revert now. induction before as [|poll before IH]; intros now; cbn [quiet_until app Signaling.poll_loop]; [by intros [= ->]|].
  rewrite !remaining_zero. destruct (deadline <=? now); [done|]. destruct (poll_result c poll); [done|].
  match goal with |- context [deadline <=? ?t] => set (after := t); destruct (deadline <=? after) eqn:E end; [done|].
  apply Z.leb_gt in E. replace (saturating_duration_since deadline after) with (deadline - after); [apply IH|].
  unfold saturating_duration_since. lia.
Qed.

(** Each turn takes a second or all the time that is left. *)
Lemma poll_loop_ends c deadline now polls n :
  deadline - now <= Z.of_nat n * POLL_INTERVAL -> (n < length polls)%nat -> poll_loop c deadline now polls <> None.
Proof.
  unfold POLL_INTERVAL, from_secs. revert now polls.
  induction n as [|n IH]; intros now [|poll polls] D L; cbn [length] in L; try lia;
    cbn [Signaling.poll_loop]; rewrite !remaining_zero; (destruct (deadline <=? now) eqn:E; [done|apply Z.leb_gt in E]); [lia|].
  destruct (poll_result c poll); [done|].
  match goal with |- context [deadline <=? ?t] => set (after := t); destruct (deadline <=? after) eqn:E2 end; [done|].
  apply Z.leb_gt in E2. apply IH; [|lia]. unfold POLL_INTERVAL, from_secs, saturating_duration_since, after in *. lia.
Qed.

(** An exchange ends: after ten polls the ten seconds are over. *)
Lemma exchange_ends c local nonce posted now polls :
  (11 <= length polls)%nat -> (exchange c local nonce posted now polls).2 <> None.
Proof.
  intros L. unfold exchange_candidate. destruct (encrypt_payload _ _ _ _ _); [|done].
  destruct posted as [status|]; [|done]. cbn [snd]. case_match; [done|].
  apply (poll_loop_ends c (now + EXCHANGE_TIMEOUT) now polls 10); [|lia]. unfold EXCHANGE_TIMEOUT, POLL_INTERVAL, from_secs. lia.
Qed.

Lemma poll_result_from c poll candidate :
  poll_result c poll = Some (Ok candidate) ->
  exists announced chunks body_end line message payload,
    po_response poll = Some (announced, chunks, body_end) /\ len (concat chunks) <= MAX_POLL_BODY_BYTES /\
    line ∈ lines (concat chunks) /\ len line <= MAX_ENVELOPE_BYTES /\ message_of line = Some message /\
    decrypt_payload decrypt base64_decode message (sg_payload_key c) = Some payload /\
    of_json payload = Some candidate /\ sc_role candidate <> sg_role c.
Proof.
  unfold Signaling.poll_result. destruct (po_response poll) as [[[announced chunks] body_end]|] eqn:R; [|done].
  cbn [mbind option_bind read_bounded_body]. case_match; [done|].
  destruct (read_chunks [] chunks body_end) as [[body|e]|] eqn:B; [|by destruct e|done].
  apply read_chunks_bounded in B as [-> B]; [|done]. cbn [app mbind option_bind].
  unfold peer_candidate_from_jsonl. destruct (utf8_valid _); [|done].
  destruct (find_map _ _) as [y|] eqn:P; [|done]. intros [= ->]. apply find_map_some in P as (line & I & P).
  apply list_elem_of_In, in_rev, list_elem_of_In in I. unfold Signaling.peer_candidate in P. case_match; [done|].
  destruct (message_of line) as [message|] eqn:M; [|done]. cbn [mbind option_bind] in P.
  destruct (decrypt_payload _ _ _ _) as [payload|] eqn:D; [|done]. cbn [mbind option_bind] in P.
  destruct (of_json payload) as [x|] eqn:J; [|done]. cbn [mbind option_bind] in P. case_bool_decide as O; [done|]. injection P as ->.
  exists announced, chunks, body_end, line, message, payload. split_and!; try done. by apply Z.ltb_ge.
Qed.

(** ** Two clients with one PIN *)


End Exchange.

(** *** At concrete inputs *)

Definition toy_encrypt (key nonce p : list byte) : option (list byte) := Some (p ++ replicate 16 Byte.x00).
Definition toy_decrypt (key nonce c : list byte) : option (list byte) := Some (take (length c - 16) c).
Definition toy_to_json (c : SessionCandidate) : list byte := sc_role c.
Definition toy_candidate (role : rstring) : SessionCandidate :=
  mkSessionCandidate role (str_bytes "10.0.0.2") 19731 (str_bytes "203.0.113.7") 40000.
Definition toy_of_json (p : list byte) : option SessionCandidate := Some (toy_candidate p).
Definition toy_pbkdf2 (pin : rstring) (salt : list byte) : option (list byte) := Some (pin ++ salt).
Definition toy_hkdf (key salt info : list byte) (n : Z) : list byte := take (Z.to_nat n) (info ++ key ++ replicate 32 Byte.x00).
Definition toy_client (role : string) : SignalingClient :=
  match with_base_url toy_pbkdf2 toy_hkdf (str_bytes "12345678") (str_bytes role) (str_bytes "https://ntfy.sh/") with
  | Ok c => c
  | Err _ => mkSignalingClient [] [] [] []
  end.
Definition toy_nonce : list byte := replicate 12 Byte.x41.
Definition toy_message : rstring := toy_nonce ++ str_bytes "host" ++ replicate 16 Byte.x00.
Definition toy_own : rstring := toy_nonce ++ str_bytes "client" ++ replicate 16 Byte.x00.
Definition toy_exchange (client : SignalingClient) (local : SessionCandidate) (polls : list Poll) :=
  exchange_candidate toy_encrypt toy_decrypt (fun x => x) (fun x => Some x) toy_to_json toy_of_json (fun x => Some x)
    client local (Some toy_nonce) (Some 200) 0 polls.
Definition toy_topic_url : rstring := str_bytes "https://ntfy.sh/" ++ sg_topic (toy_client "host").
(** A poll that fails, then the host's message in two pieces, before the client's own. *)
Definition toy_body : list byte := jsonl ([str_bytes "noise"] ++ toy_message :: [toy_own]).
Definition toy_polls : list Poll :=
  [mkPoll None 5 0] ++ mkPoll (Some (None, [take 20 toy_body; drop 20 toy_body], BE_Complete)) (7, 8).1 (7, 8).2 :: [].

