(* ===== verification/Touch.v ===== *)
(** * Touch input of the mobile clients

    [clients/rust/maho-mobile/src/touch.rs]: the viewport, which zooms and pans,
    and [TouchGestureHandler], which makes mouse events of touches: a touch
    drags the host's pointer, or moves it like a trackpad.  Coordinates are [f32]. *)

From Stdlib Require Import SpecFloat.
From S2P Require Import Prelude Codec Packet Input Float.

Inductive TouchPhase : Type := TH_Began | TH_Moved | TH_Ended | TH_Cancelled.
#[export] Instance TouchPhase_dec : EqDecision TouchPhase.
Proof. solve_decision. Defined.

Record TouchPoint : Type := mkTouchPoint {
  tp_id : Z;
  tp_x : spec_float;
  tp_y : spec_float;
  tp_phase : TouchPhase
}.

Record ViewportState : Type := mkViewport {
  vp_view_width : spec_float;
  vp_view_height : spec_float;
  vp_zoom : spec_float;
  vp_offset_x : spec_float;
  vp_offset_y : spec_float
}.
Definition ViewportState_default : ViewportState :=
  mkViewport (of_int binary32 1280) (of_int binary32 800) f32_1 f32_0 f32_0.

Inductive TouchError : Type :=
| CH_NonFiniteCoordinates (x y : spec_float)
| CH_InvalidViewportDimensions (width height : spec_float)
| CH_InvalidZoom (zoom : spec_float).

Definition fadd32 := fadd binary32.
Definition fsub32 := fsub binary32.
Definition fmul32 := fmul binary32.
Definition fdiv32 := fdiv binary32.

(** [x <= 0.0] *)
Definition not_positive (x : spec_float) : bool := SFleb x f32_0.

Definition ViewportState_new (view_width view_height : spec_float) : result TouchError ViewportState :=
  if negb (is_finite view_width) || negb (is_finite view_height) || not_positive view_width || not_positive view_height
  then Err (CH_InvalidViewportDimensions view_width view_height)
  else Ok (mkViewport view_width view_height f32_1 f32_0 f32_0).

Definition set_zoom (zoom center_x center_y : spec_float) (v : ViewportState)
    : result TouchError unit * ViewportState :=
  if negb (is_finite zoom) || negb (SFleb (decimal binary32 1 10) zoom && SFleb zoom (of_int binary32 10))
  then (Err (CH_InvalidZoom zoom), v)
  else if negb (is_finite center_x) || negb (is_finite center_y)
  then (Err (CH_NonFiniteCoordinates center_x center_y), v)
  else
    let old_zoom := vp_zoom v in
    if negb (is_finite old_zoom) || not_positive old_zoom then (Err (CH_InvalidZoom old_zoom), v)
    else
      let factor := fdiv32 zoom old_zoom in
      let new_offset_x := fsub32 center_x (fmul32 factor (fsub32 center_x (vp_offset_x v))) in
      let new_offset_y := fsub32 center_y (fmul32 factor (fsub32 center_y (vp_offset_y v))) in
      if negb (is_finite new_offset_x) || negb (is_finite new_offset_y)
      then (Err (CH_NonFiniteCoordinates new_offset_x new_offset_y), v)
      else (Ok tt, mkViewport (vp_view_width v) (vp_view_height v) zoom new_offset_x new_offset_y).

Definition pan (dx dy : spec_float) (v : ViewportState) : ViewportState :=
  if is_finite dx && is_finite dy then
    let next_x := fadd32 (vp_offset_x v) dx in
    let next_y := fadd32 (vp_offset_y v) dy in
    if is_finite next_x && is_finite next_y
    then mkViewport (vp_view_width v) (vp_view_height v) (vp_zoom v) next_x next_y
    else v
  else v.

Definition transform_to_host (x y : spec_float) (v : ViewportState) : result TouchError (spec_float * spec_float) :=
  if negb (is_finite x) || negb (is_finite y) then Err (CH_NonFiniteCoordinates x y)
  else if negb (is_finite (vp_view_width v)) || negb (is_finite (vp_view_height v))
          || not_positive (vp_view_width v) || not_positive (vp_view_height v)
  then Err (CH_InvalidViewportDimensions (vp_view_width v) (vp_view_height v))
  else if negb (is_finite (vp_zoom v)) || not_positive (vp_zoom v) then Err (CH_InvalidZoom (vp_zoom v))
  else if negb (is_finite (vp_offset_x v)) || negb (is_finite (vp_offset_y v))
  then Err (CH_NonFiniteCoordinates (vp_offset_x v) (vp_offset_y v))
  else
    let diff_x := fsub32 x (vp_offset_x v) in
    let diff_y := fsub32 y (vp_offset_y v) in
    if negb (is_finite diff_x) || negb (is_finite diff_y) then Err (CH_NonFiniteCoordinates diff_x diff_y)
    else
      let unzoomed_x := fdiv32 diff_x (vp_zoom v) in
      let unzoomed_y := fdiv32 diff_y (vp_zoom v) in
      if negb (is_finite unzoomed_x) || negb (is_finite unzoomed_y)
      then Err (CH_NonFiniteCoordinates unzoomed_x unzoomed_y)
      else
        let norm_x_raw := fdiv32 unzoomed_x (vp_view_width v) in
        let norm_y_raw := fdiv32 unzoomed_y (vp_view_height v) in
        if negb (is_finite norm_x_raw) || negb (is_finite norm_y_raw)
        then Err (CH_NonFiniteCoordinates norm_x_raw norm_y_raw)
        else Ok (clamp f32_0 f32_1 norm_x_raw, clamp f32_0 f32_1 (fsub32 f32_1 norm_y_raw)).

(** ** The gestures *)

Inductive TouchMode : Type := DirectTouch | TrackpadRelative.
#[export] Instance TouchMode_dec : EqDecision TouchMode.
Proof. solve_decision. Defined.

Record ActiveDirectTouch : Type := mkActiveDirectTouch {
  dt_id : Z;
  dt_last_emitted_norm_x : spec_float;
  dt_last_emitted_norm_y : spec_float
}.

Definition make_mouse_event (event_type : InputEventType) (x y : spec_float) : InputEvent :=
  mkInputEvent event_type (f32_bits x) (f32_bits y) 0 Modifiers_empty F32_ZERO F32_ZERO.
Definition make_relative_event (scroll_dx scroll_dy : spec_float) : InputEvent :=
  mkInputEvent IE_RelativeMove F32_ZERO F32_ZERO 0 Modifiers_empty (f32_bits scroll_dx) (f32_bits scroll_dy).

Record TouchGestureHandler : Type := mkHandler {
  gh_viewport : ViewportState;
  gh_mode : TouchMode;
  gh_primary_touch : option ActiveDirectTouch;
  gh_relative_baseline : option (Z * spec_float * spec_float)
}.
Definition TouchGestureHandler_new (viewport : ViewportState) (mode : TouchMode) : TouchGestureHandler :=
  mkHandler viewport mode None None.
Definition set_primary (primary : option ActiveDirectTouch) (h : TouchGestureHandler) : TouchGestureHandler :=
  mkHandler (gh_viewport h) (gh_mode h) primary (gh_relative_baseline h).
Definition set_baseline (baseline : option (Z * spec_float * spec_float)) (h : TouchGestureHandler)
    : TouchGestureHandler :=
  mkHandler (gh_viewport h) (gh_mode h) (gh_primary_touch h) baseline.

(** The release at the last position that was sent. *)
Definition release (primary : ActiveDirectTouch) : InputEvent :=
  make_mouse_event IE_LeftMouseUp (dt_last_emitted_norm_x primary) (dt_last_emitted_norm_y primary).

Definition set_mode (mode : TouchMode) (h : TouchGestureHandler) : option InputEvent * TouchGestureHandler :=
  if bool_decide (gh_mode h = mode) then (None, h)
  else
    let release_evt := match gh_mode h with DirectTouch => release <$> gh_primary_touch h | TrackpadRelative => None end in
    (release_evt, mkHandler (gh_viewport h) mode None None).

(** The touch the handler follows: its identifier is the one of [touch]. *)
Definition primary_of (touch : TouchPoint) (h : TouchGestureHandler) : option ActiveDirectTouch :=
  match gh_primary_touch h with
  | Some primary => if dt_id primary =? tp_id touch then Some primary else None
  | None => None
  end.
Definition baseline_of (touch : TouchPoint) (h : TouchGestureHandler) : option (spec_float * spec_float) :=
  match gh_relative_baseline h with
  | Some (prev_id, prev_x, prev_y) => if prev_id =? tp_id touch then Some (prev_x, prev_y) else None
  | None => None
  end.
Definition drop_baseline (touch : TouchPoint) (h : TouchGestureHandler) : TouchGestureHandler :=
  match baseline_of touch h with Some _ => set_baseline None h | None => h end.

Definition process_cancelled (touch : TouchPoint) (h : TouchGestureHandler) : option InputEvent * TouchGestureHandler :=
  match gh_mode h with
  | DirectTouch =>
    match primary_of touch h with
    | Some primary => (Some (release primary), set_primary None h)
    | None => (None, h)
    end
  | TrackpadRelative => (None, drop_baseline touch h)
  end.

Definition process_began (touch : TouchPoint) (h : TouchGestureHandler)
    : result TouchError (option InputEvent) * TouchGestureHandler :=
  match gh_mode h with
  | DirectTouch =>
    match gh_primary_touch h with
    | None =>
      match transform_to_host (tp_x touch) (tp_y touch) (gh_viewport h) with
      | Err e => (Err e, h)
      | Ok (norm_x, norm_y) =>
        (Ok (Some (make_mouse_event IE_LeftMouseDown norm_x norm_y)),
         set_primary (Some (mkActiveDirectTouch (tp_id touch) norm_x norm_y)) h)
      end
    | Some _ => (Ok None, h)
    end
  | TrackpadRelative =>
    match gh_relative_baseline h with
    | None => (Ok None, set_baseline (Some (tp_id touch, tp_x touch, tp_y touch)) h)
    | Some _ => (Ok None, h)
    end
  end.

Definition process_moved (touch : TouchPoint) (h : TouchGestureHandler)
    : result TouchError (option InputEvent) * TouchGestureHandler :=
  match gh_mode h with
  | DirectTouch =>
    match primary_of touch h with
    | Some primary =>
      match transform_to_host (tp_x touch) (tp_y touch) (gh_viewport h) with
      | Err e => (Err e, h)
      | Ok (norm_x, norm_y) =>
        (Ok (Some (make_mouse_event IE_LeftMouseDragged norm_x norm_y)),
         set_primary (Some (mkActiveDirectTouch (dt_id primary) norm_x norm_y)) h)
      end
    | None => (Ok None, h)
    end
  | TrackpadRelative =>
    match baseline_of touch h with
    | Some (prev_x, prev_y) =>
      let dx := fsub32 (tp_x touch) prev_x in
      let dy := fsub32 (tp_y touch) prev_y in
      if negb (is_finite dx) || negb (is_finite dy) then (Err (CH_NonFiniteCoordinates dx dy), h)
      else (Ok (Some (make_relative_event dx dy)), set_baseline (Some (tp_id touch, tp_x touch, tp_y touch)) h)
    | None => (Ok None, h)
    end
  end.

Definition process_ended (touch : TouchPoint) (h : TouchGestureHandler) : option InputEvent * TouchGestureHandler :=
  match gh_mode h with
  | DirectTouch =>
    match primary_of touch h with
    | Some primary =>
      let '(release_x, release_y) :=
        match transform_to_host (tp_x touch) (tp_y touch) (gh_viewport h) with
        | Ok pos => pos
        | Err _ => (dt_last_emitted_norm_x primary, dt_last_emitted_norm_y primary)
        end in
      (Some (make_mouse_event IE_LeftMouseUp release_x release_y), set_primary None h)
    | None => (None, h)
    end
  | TrackpadRelative => (None, drop_baseline touch h)
  end.

Definition process_touch (touch : TouchPoint) (h : TouchGestureHandler)
    : result TouchError (option InputEvent) * TouchGestureHandler :=
  let unchecked (r : option InputEvent * TouchGestureHandler) : result TouchError (option InputEvent) * TouchGestureHandler :=
    (Ok r.1, r.2) in
  let finite := is_finite (tp_x touch) && is_finite (tp_y touch) in
  match tp_phase touch with
  | TH_Cancelled => unchecked (process_cancelled touch h)
  | TH_Ended => unchecked (process_ended touch h)
  | TH_Began => if finite then process_began touch h else (Err (CH_NonFiniteCoordinates (tp_x touch) (tp_y touch)), h)
  | TH_Moved => if finite then process_moved touch h else (Err (CH_NonFiniteCoordinates (tp_x touch) (tp_y touch)), h)
  end.

(** ** What is sent of a sequence of touches *)

(** [GO_Viewport]: the application stored something through [viewport_mut]. *)
Inductive GestureOp : Type :=
| GO_Touch (touch : TouchPoint)
| GO_SetMode (mode : TouchMode)
| GO_Viewport (viewport : ViewportState).

Definition gesture_op (op : GestureOp) (h : TouchGestureHandler) : option InputEvent * TouchGestureHandler :=
  match op with
  | GO_Touch touch => let '(r, h) := process_touch touch h in (match r with Ok e => e | Err _ => None end, h)
  | GO_SetMode mode => set_mode mode h
  | GO_Viewport viewport => (None, mkHandler viewport (gh_mode h) (gh_primary_touch h) (gh_relative_baseline h))
  end.
Fixpoint gesture_ops (ops : list GestureOp) (h : TouchGestureHandler) : list InputEvent * TouchGestureHandler :=
  match ops with
  | [] => ([], h)
  | op :: ops =>
    let '(e, h) := gesture_op op h in
    let '(events, h) := gesture_ops ops h in
    (match e with Some e => e :: events | None => events end, h)
  end.

(** The left button of the host, down or up, after an event; [None]: the event makes no
    sense then. *)
Definition button_after (down : bool) (e : InputEvent) : option bool :=
  match ie_event_type e with
  | IE_LeftMouseDown => if down then None else Some true
  | IE_LeftMouseDragged => if down then Some true else None
  | IE_LeftMouseUp => if down then Some false else None
  | _ => Some down
  end.
Fixpoint button (down : bool) (events : list InputEvent) : option bool :=
  match events with
  | [] => Some down
  | e :: events => down ← button_after down e; button down events
  end.

(** An event of the mouse is on the screen, any other one is a relative motion. *)
Definition event_ok (e : InputEvent) : Prop :=
  ie_event_type e = IE_RelativeMove \/
  exists pos, on_screen pos /\ ie_x e = f32_bits pos.1 /\ ie_y e = f32_bits pos.2.

Definition held (h : TouchGestureHandler) : bool := bool_decide (is_Some (gh_primary_touch h)).

Record handler_inv (h : TouchGestureHandler) : Prop := {
  hi_mode : gh_mode h = TrackpadRelative -> gh_primary_touch h = None;
  hi_position : forall primary, gh_primary_touch h = Some primary ->
    on_screen (dt_last_emitted_norm_x primary, dt_last_emitted_norm_y primary)
}.

Lemma transform_on_screen x y v pos : transform_to_host x y v = Ok pos -> on_screen pos.
Proof.
  unfold transform_to_host. repeat (case_match; [done|]). intros E. apply Ok_inj in E. subst pos.
  match goal with F : negb (is_finite (fdiv32 (fdiv32 _ _) _)) || _ = false |- _ => apply orb_false_iff in F as [Fx Fy] end.
  apply negb_false_iff in Fx, Fy.
  split; apply clamp_unit_range; [by apply finite_not_nan|]. apply fsub_nan; [done|by apply finite_not_nan|done].
Qed.

Lemma inv_set_primary primary h :
  handler_inv h -> gh_mode h = DirectTouch ->
  on_screen (dt_last_emitted_norm_x primary, dt_last_emitted_norm_y primary) -> handler_inv (set_primary (Some primary) h).
Proof. intros I M On. split; cbn; [by rewrite M|]. by intros p [= <-]. Qed.
Lemma inv_clear_primary h : handler_inv h -> handler_inv (set_primary None h).
Proof. intros I. by split. Qed.
Lemma inv_set_baseline b h : handler_inv h -> handler_inv (set_baseline b h).
Proof. intros [M P]. by split. Qed.
Lemma primary_of_some touch h primary : primary_of touch h = Some primary -> gh_primary_touch h = Some primary.
Proof. unfold primary_of. repeat case_match; congruence. Qed.

(** One operation: the event fits the button, and the handler knows whether it is held. *)
Definition op_ok (h : TouchGestureHandler) (r : option InputEvent * TouchGestureHandler) : Prop :=
  handler_inv r.2 /\
  match r.1 with
  | Some e => event_ok e /\ button_after (held h) e = Some (held r.2)
  | None => held r.2 = held h
  end.

Lemma event_ok_mouse t x y : on_screen (x, y) -> event_ok (make_mouse_event t x y).
Proof. intros On. right. by exists (x, y). Qed.
Lemma held_some h primary : gh_primary_touch h = Some primary -> held h = true.
Proof. intros E. unfold held. by rewrite E. Qed.
Lemma held_none h : gh_primary_touch h = None -> held h = false.
Proof. intros E. unfold held. by rewrite E. Qed.
Lemma drop_baseline_ok touch h : handler_inv h -> op_ok h (None, drop_baseline touch h).
Proof. intros I. unfold drop_baseline. case_match; split; try done. by apply inv_set_baseline. Qed.
Lemma unchanged_ok h : handler_inv h -> op_ok h (None, h).
Proof. by split. Qed.

Lemma cancelled_ok touch h : handler_inv h -> op_ok h (process_cancelled touch h).
Proof.
  intros I. unfold process_cancelled. destruct (gh_mode h) eqn:M; [|by apply drop_baseline_ok].
  destruct (primary_of touch h) as [primary|] eqn:P; [|by apply unchanged_ok].
  apply primary_of_some in P. split; [by apply inv_clear_primary|]. split; [by apply event_ok_mouse, (hi_position _ I)|].
  cbn. by rewrite (held_some _ _ P).
Qed.
Lemma ended_ok touch h : handler_inv h -> op_ok h (process_ended touch h).
Proof.
  intros I. unfold process_ended. destruct (gh_mode h) eqn:M; [|by apply drop_baseline_ok].
  destruct (primary_of touch h) as [primary|] eqn:P; [|by apply unchanged_ok]. apply primary_of_some in P.
  assert (On : on_screen match transform_to_host (tp_x touch) (tp_y touch) (gh_viewport h) with
                         | Ok pos => pos | Err _ => (dt_last_emitted_norm_x primary, dt_last_emitted_norm_y primary) end).
  { destruct (transform_to_host _ _ _) as [pos|e] eqn:T; [by apply transform_on_screen in T|by apply (hi_position _ I)]. }
  destruct (match transform_to_host _ _ _ with Ok pos => pos | Err _ => _ end) as [x y].
  split; [by apply inv_clear_primary|]. split; [by apply event_ok_mouse|]. cbn. by rewrite (held_some _ _ P).
Qed.
Definition fallible (r : result TouchError (option InputEvent) * TouchGestureHandler) : option InputEvent * TouchGestureHandler :=
  (match r.1 with Ok e => e | Err _ => None end, r.2).
Lemma began_ok touch h : handler_inv h -> op_ok h (fallible (process_began touch h)).
Proof.
  intros I. unfold process_began. destruct (gh_mode h) eqn:M.
  - destruct (gh_primary_touch h) eqn:P; [by apply unchanged_ok|].
    destruct (transform_to_host _ _ _) as [[x y]|e] eqn:T; [|by apply unchanged_ok]. apply transform_on_screen in T.
    split; [by apply inv_set_primary|]. split; [by apply event_ok_mouse|]. cbn. by rewrite (held_none _ P).
  - destruct (gh_relative_baseline h); [by apply unchanged_ok|]. split; [by apply inv_set_baseline|done].
Qed.
Lemma moved_ok touch h : handler_inv h -> op_ok h (fallible (process_moved touch h)).
Proof.
  intros I. unfold process_moved. destruct (gh_mode h) eqn:M.
  - destruct (primary_of touch h) as [primary|] eqn:P; [|by apply unchanged_ok]. apply primary_of_some in P.
    destruct (transform_to_host _ _ _) as [[x y]|e] eqn:T; [|by apply unchanged_ok]. apply transform_on_screen in T.
    split; [by apply inv_set_primary|]. split; [by apply event_ok_mouse|]. cbn. by rewrite (held_some _ _ P).
  - destruct (baseline_of touch h) as [[px py]|]; [|by apply unchanged_ok].
    case_match; [by apply unchanged_ok|]. split; [by apply inv_set_baseline|]. split; [by left|done].
Qed.
Lemma gesture_op_ok op h : handler_inv h -> op_ok h (gesture_op op h).
Proof.
  intros I. destruct op as [touch|mode|viewport]; cbn [gesture_op].
  - assert (E : forall r, (let '(r, h) := r in (match r with Ok e => e | Err _ => None end, h)) = fallible r) by (by intros []).
    rewrite E. unfold process_touch. destruct (tp_phase touch).
    + destruct (_ && _); [by apply began_ok|by apply unchanged_ok].
    + destruct (_ && _); [by apply moved_ok|by apply unchanged_ok].
    + pose proof (ended_ok touch h I). by destruct (process_ended touch h).
    + pose proof (cancelled_ok touch h I). by destruct (process_cancelled touch h).
  - unfold set_mode. case_bool_decide as M; [by apply unchanged_ok|]. split; [by split|]. cbn [fst snd].
    destruct (gh_mode h) eqn:M'.
    + destruct (gh_primary_touch h) as [primary|] eqn:P; cbn [fmap option_fmap option_map].
      * split; [by apply event_ok_mouse, (hi_position _ I)|]. cbn. by rewrite (held_some _ _ P).
      * by rewrite (held_none _ P).
    + by rewrite (held_none _ (hi_mode _ I M')).
  - destruct I as [M P]. by split.
Qed.

Lemma gesture_ops_ok ops h :
  handler_inv h ->
  let '(events, h') := gesture_ops ops h in
  handler_inv h' /\ Forall event_ok events /\ button (held h) events = Some (held h').
Proof.
  revert h. induction ops as [|op ops IH]; intros h I; cbn [gesture_ops]; [done|].
  destruct (gesture_op_ok op h I) as [I' E]. destruct (gesture_op op h) as [e h']. cbn [fst snd] in *.
  specialize (IH h' I'). destruct (gesture_ops ops h') as [events h2]. destruct IH as (I2 & F & B).
  split; [done|]. destruct e as [e|].
  - destruct E as [E1 E2]. split; [by constructor|]. cbn [button]. by rewrite E2.
  - by rewrite <- E.
Qed.

(** C36: a touch never leaves a button stuck: whatever touches come, in whatever order and
    with whatever coordinates, and whatever happens to the mode and the viewport meanwhile, the
    host's left button goes down, is dragged and goes up in this order; it is down exactly
    when the handler follows a touch; all positions are on the screen.  And the end of
    that touch, or a change of the mode, releases it. *)
Theorem touch_never_sticks viewport mode ops :
  let '(events, h) := gesture_ops ops (TouchGestureHandler_new viewport mode) in
  button false events = Some (held h) /\ Forall event_ok events /\
  forall primary, gh_primary_touch h = Some primary ->
    (forall x y phase, phase = TH_Ended \/ phase = TH_Cancelled ->
       let '(r, h') := process_touch (mkTouchPoint (dt_id primary) x y phase) h in
       exists e, r = Ok (Some e) /\ ie_event_type e = IE_LeftMouseUp /\ gh_primary_touch h' = None) /\
    (forall mode', mode' <> gh_mode h ->
       let '(r, h') := set_mode mode' h in
       exists e, r = Some e /\ ie_event_type e = IE_LeftMouseUp /\ gh_primary_touch h' = None).
Proof.
  pose proof (gesture_ops_ok ops (TouchGestureHandler_new viewport mode)) as G.
  destruct (gesture_ops ops _) as [events h]. destruct G as (I & F & B); [by split|].
  split; [exact B|]. split; [exact F|]. intros primary P.
  assert (M : gh_mode h = DirectTouch) by (destruct (gh_mode h) eqn:M; [done|by rewrite (hi_mode _ I M) in P]).
  split.
  - intros x y phase Ph. assert (E : primary_of (mkTouchPoint (dt_id primary) x y phase) h = Some primary)
      by (unfold primary_of; rewrite P; cbn; by rewrite Z.eqb_refl).
    unfold process_touch. destruct Ph as [-> | ->]; cbn [tp_phase].
    + unfold process_ended. rewrite M, E. destruct (match transform_to_host _ _ _ with Ok _ => _ | Err _ => _ end) as [rx ry].
      by eexists.
    + unfold process_cancelled. rewrite M, E. by eexists.
  - intros mode' N. unfold set_mode. rewrite bool_decide_false by congruence. rewrite M, P. by eexists.
Qed.

(** ** The viewport *)

(** What [transform_to_host] asks of it. *)
Record viewport_valid (v : ViewportState) : Prop := {
  vv_width : is_finite (vp_view_width v) = true /\ not_positive (vp_view_width v) = false;
  vv_height : is_finite (vp_view_height v) = true /\ not_positive (vp_view_height v) = false;
  vv_zoom : is_finite (vp_zoom v) = true /\ not_positive (vp_zoom v) = false;
  vv_offset : is_finite (vp_offset_x v) = true /\ is_finite (vp_offset_y v) = true
}.

Lemma at_least_a_tenth zoom : SFleb (decimal binary32 1 10) zoom = true -> not_positive zoom = false.
Proof. destruct zoom as [s|s| |s m e]; try done; by destruct s. Qed.

(** Zooming and panning keep it so, and refuse what would not. *)
Lemma viewport_new_valid w h v : ViewportState_new w h = Ok v -> viewport_valid v.
Proof.
  unfold ViewportState_new. case_match eqn:E; [done|]. intros [= <-].
  apply orb_false_iff in E as [E Ph]. apply orb_false_iff in E as [E Pw]. apply orb_false_iff in E as [Fw Fh].
  apply negb_false_iff in Fw, Fh. by split.
Qed.
Lemma set_zoom_valid zoom x y v : viewport_valid v -> viewport_valid (set_zoom zoom x y v).2.
Proof.
  intros V. unfold set_zoom. destruct (is_finite zoom) eqn:F; [|done]. cbn [negb orb].
  destruct (SFleb (decimal binary32 1 10) zoom) eqn:Z; [|done]. cbn [andb]. repeat case_match; try done.
  destruct V as [W H' Zo O]. split; try done; cbn.
  - split; [done|by apply at_least_a_tenth].
  - match goal with E : negb (is_finite (fsub32 _ (fmul32 _ _))) || _ = false |- _ =>
      apply orb_false_iff in E as [Ex Ey] end. by apply negb_false_iff in Ex, Ey.
Qed.
Lemma pan_valid dx dy v : viewport_valid v -> viewport_valid (pan dx dy v).
Proof.
  intros V. unfold pan. repeat case_match; try done. destruct V. split; try done; cbn.
  match goal with E : is_finite (fadd32 _ _) && _ = true |- _ => by apply andb_true_iff in E end.
Qed.
