(* ===== verification/RelayBridge.v ===== *)
(** * The two ends of the relay

    [clients/rust/maho-app/src/relay.rs], [clients/rust/maho-host/src/relay.rs]: the
    bridge of a client, which listens on two local ports and carries what comes
    there in frames over one WebSocket, and the host's end, which opens a local
    connection for every session.  Each [select!] is a step: the arm that ran and what its
    awaited call answered.  A call of [select!] that was not chosen has no effect (they
    are cancellation-safe); the body of an arm is not interrupted. *)

From S2P Require Import Prelude Codec Text Guests RelayProto Relay.

(** [str::ends_with] and [trim_end_matches] of a text that is not empty. *)
Definition ends_with (suffix s : rstring) : bool := starts_with (rev suffix) (rev s).
Fixpoint trim_start_fuel (fuel : nat) (prefix s : rstring) : rstring :=
  match fuel with
  | O => s
  | S fuel => match strip_prefix_str prefix s with Some s => trim_start_fuel fuel prefix s | None => s end
  end.
Definition trim_end_matches (suffix s : rstring) : rstring := rev (trim_start_fuel (length s) (rev suffix) (rev s)).

Definition SLASH : rstring := str_bytes "/".
Definition with_scheme (base : rstring) : rstring :=
  let trimmed := trim_end_matches SLASH (trim base) in
  match strip_prefix_str (str_bytes "https://") trimmed with
  | Some rest => str_bytes "wss://" ++ rest
  | None =>
    match strip_prefix_str (str_bytes "http://") trimmed with
    | Some rest => str_bytes "ws://" ++ rest
    | None => trimmed
    end
  end.
Definition connect_url (base host_id : rstring) : rstring :=
  let root := trim_end_matches (str_bytes "/connect") (trim_end_matches (str_bytes "/register") (with_scheme base)) in
  root ++ str_bytes "/connect/" ++ host_id.
Definition register_url (base : rstring) : rstring :=
  let with_scheme := with_scheme base in
  if ends_with (str_bytes "/register") with_scheme then with_scheme else with_scheme ++ str_bytes "/register".

(** [load_auth_secret]: the environment's value and what the file holds. *)
Definition load_auth_secret (variable : option rstring) (file : option rstring) : option rstring :=
  match variable with
  | Some (_ :: _ as secret) => Some secret
  | _ =>
    match trim <$> file with
    | Some (_ :: _ as secret) => Some secret
    | _ => None
    end
  end.

(** ** The client's bridge *)

Section ClientBridge.

Context (control_of : rstring -> option RelayControl).

(** What the socket answers to [wait_connected]; [pong]: a pong could be sent. *)
Inductive WaitAnswer : Type :=
| WA_Timeout
| WA_Closed
| WA_Failed
| WA_Message (m : Message) (pong : bool).

Inductive BridgeError : Type :=
| RB_Io
| RB_TimedOut
| RB_Closed
| RB_Socket
| RB_Json
| RB_Relay (message : rstring).

(** [None]: still waiting. *)
Fixpoint wait_connected (answers : list WaitAnswer) : option (result BridgeError unit) :=
  match answers with
  | [] => None
  | WA_Timeout :: _ => Some (Err RB_TimedOut)
  | WA_Closed :: _ => Some (Err RB_Closed)
  | WA_Failed :: _ => Some (Err RB_Socket)
  | WA_Message (WS_Text text) _ :: answers =>
    match control_of text with
    | None => Some (Err RB_Json)
    | Some RC_Connected => Some (Ok tt)
    | Some (RC_Error _ message) => Some (Err (RB_Relay message))
    | Some _ => wait_connected answers
    end
  | WA_Message (WS_Ping _) pong :: answers => if pong then wait_connected answers else Some (Err RB_Socket)
  | WA_Message _ _ :: answers => wait_connected answers
  end.

End ClientBridge.

Definition NIL : list byte := replicate 16 Byte.x00.

Record ClientBridge : Type := mkClientBridge {
  cb_udp_peer : option SocketAddr;
  cb_tcp_uplink : list (list byte);
  cb_udp_uplink : list (list byte);
  cb_ended : bool
}.
Definition ClientBridge_new : ClientBridge := mkClientBridge None [] [] false.

(** A call that writes: all of it, or the first bytes before the failure. *)
Inductive Written : Type := WR_All | WR_Failed (bytes : nat).

Inductive BridgeEffect : Type :=
| BX_Tcp (bytes : list byte)                             (* written to the local stream *)
| BX_Udp (bytes : list byte) (peer : SocketAddr)         (* sent from the local socket *)
| BX_Socket (m : Message).                               (* sent to the relay *)

(** The arm that runs.  [AR_Socket]: [socket.next()], [None] at its end or failure;
    [AR_TcpRead]: [None] at the end of the stream or on failure. *)
Inductive BridgeArm : Type :=
| AR_Socket (incoming : option Message) (written : Written)
| AR_TcpUplink (written : Written)
| AR_UdpUplink (written : Written)
| AR_TcpRead (read : option (list byte))
| AR_UdpRead (read : option (list byte * SocketAddr)).

Definition end_bridge (s : ClientBridge) : ClientBridge :=
  mkClientBridge (cb_udp_peer s) (cb_tcp_uplink s) (cb_udp_uplink s) true.
Definition after_write (written : Written) (s : ClientBridge) : ClientBridge :=
  match written with WR_All => s | WR_Failed _ => end_bridge s end.
Definition tcp_write (bytes : list byte) (written : Written) : list BridgeEffect :=
  match written with WR_All => [BX_Tcp bytes] | WR_Failed n => [BX_Tcp (take n bytes)] end.
Definition if_written (e : BridgeEffect) (written : Written) : list BridgeEffect :=
  match written with WR_All => [e] | WR_Failed _ => [] end.

(** The head of an uplink queue goes to the relay. *)
Definition send_up (channel : Z) (payload : list byte) (written : Written) (s : ClientBridge)
    : list BridgeEffect * ClientBridge :=
  match encode_relay_frame NIL channel payload with
  | Err _ => ([], end_bridge s)
  | Ok frame => (if_written (BX_Socket (WS_Binary frame)) written, after_write written s)
  end.

Definition from_relay (m : Message) (written : Written) (s : ClientBridge) : list BridgeEffect * ClientBridge :=
  match m with
  | WS_Binary bytes =>
    match decode_relay_frame bytes with
    | Err _ => ([], s)
    | Ok frame =>
      if rf_channel frame =? RELAY_CHANNEL_TCP then (tcp_write (rf_payload frame) written, after_write written s)
      else if rf_channel frame =? RELAY_CHANNEL_UDP then
        match cb_udp_peer s with
        | None => ([], s)
        | Some peer => (if_written (BX_Udp (rf_payload frame) peer) written, after_write written s)
        end
      else ([], s)
    end
  | WS_Ping payload => (if_written (BX_Socket (WS_Pong payload)) written, after_write written s)
  | WS_Close | WS_Text _ | WS_Pong _ => ([], s)
  end.

(** A turn of the loop of [start_client_bridge]. *)
Definition bridge_turn (s : ClientBridge) (arm : BridgeArm) : list BridgeEffect * ClientBridge :=
  if cb_ended s then ([], s) else
  match arm with
  | AR_Socket None _ => ([], end_bridge s)
  | AR_Socket (Some m) written => from_relay m written s
  | AR_TcpUplink written =>
    match cb_tcp_uplink s with
    | [] => ([], s)                                        (* not ready *)
    | payload :: queue =>
      send_up RELAY_CHANNEL_TCP payload written (mkClientBridge (cb_udp_peer s) queue (cb_udp_uplink s) (cb_ended s))
    end
  | AR_UdpUplink written =>
    match cb_udp_uplink s with
    | [] => ([], s)
    | payload :: queue =>
      send_up RELAY_CHANNEL_UDP payload written (mkClientBridge (cb_udp_peer s) (cb_tcp_uplink s) queue (cb_ended s))
    end
  | AR_TcpRead None | AR_UdpRead None => ([], end_bridge s)
  | AR_TcpRead (Some bytes) =>
    ([], mkClientBridge (cb_udp_peer s) (cb_tcp_uplink s ++ [bytes]) (cb_udp_uplink s) (cb_ended s))
  | AR_UdpRead (Some (bytes, peer)) =>
    ([], mkClientBridge (Some peer) (cb_tcp_uplink s) (cb_udp_uplink s ++ [bytes]) (cb_ended s))
  end.
Fixpoint bridge_run (s : ClientBridge) (arms : list BridgeArm) : list BridgeEffect * ClientBridge :=
  match arms with
  | [] => ([], s)
  | arm :: arms =>
    let '(fx, s) := bridge_turn s arm in
    let '(more, s) := bridge_run s arms in
    (fx ++ more, s)
  end.

(** [start_client_bridge]: what it sends, and its result ([None]: still waiting).  The calls
    that can fail: the two local sockets, the connection to the relay, the sending. *)
Definition start_client_bridge (hmac : list byte -> list byte -> option (list byte))
    (text_of : RelayControl -> option rstring) (control_of : rstring -> option RelayControl)
    (host_id : rstring) (secret : list byte) (bound connected sent : bool) (answers : list WaitAnswer)
    : list Message * option (result BridgeError unit) :=
  if negb bound || negb connected then ([], Some (Err RB_Io))
  else
    match text_of (RC_Connect host_id (relay_token hmac secret host_id)) with
    | None => ([], Some (Err RB_Json))
    | Some connect => if sent then ([WS_Text connect], wait_connected control_of answers) else ([], Some (Err RB_Socket))
    end.
(** The task of the bridge: nobody connects within ten seconds, or its loop. *)
Definition bridge_task (accepted : bool) (arms : list BridgeArm) : list BridgeEffect :=
  if accepted then (bridge_run ClientBridge_new arms).1 else [].

(** ** The host's end *)

Inductive Downlink : Type := DL_Tcp (bytes : list byte) | DL_Udp (bytes : list byte).

(** The task of a session: its identifier, the messages for it, and whether it runs. *)
Record Link : Type := mkLink { lk_session : list byte; lk_downlink : list Downlink; lk_running : bool }.

(** [hr_sessions]: the task whose channel each session's [SessionLink] holds. *)
Record HostRelay : Type := mkHostRelay {
  hr_sessions : gmap rstring nat;
  hr_links : list Link;
  hr_outbound : list Message;
  hr_ended : bool
}.
Definition HostRelay_new : HostRelay := mkHostRelay ∅ [] [] false.

Inductive HostEffect : Type :=
| HX_Tcp (link : nat) (bytes : list byte)                (* written to a session's local stream *)
| HX_Udp (link : nat) (bytes : list byte)                (* sent from a session's local socket *)
| HX_Socket (m : Message).                               (* sent to the relay *)

(** [HA_Socket]: the relay's message; [set_up]: the local connections of a new session were
    made.  [HA_Outbound]: the first outgoing message.  The others are arms of a session's
    task. *)
Inductive HostArm : Type :=
| HA_Socket (incoming : option Message) (set_up : bool)
| HA_Outbound (written : Written)
| HA_Downlink (link : nat) (written : Written)
| HA_TcpRead (link : nat) (read : option (list byte))
| HA_UdpRead (link : nat) (read : option (list byte)).

Definition set_link (i : nat) (l : Link) (s : HostRelay) : HostRelay :=
  mkHostRelay (hr_sessions s) (<[i := l]> (hr_links s)) (hr_outbound s) (hr_ended s).
Definition push_out (m : Message) (s : HostRelay) : HostRelay :=
  mkHostRelay (hr_sessions s) (hr_links s) (hr_outbound s ++ [m]) (hr_ended s).
(** [serve_registration] returns: its map of sessions and the receiver of the outgoing
    messages go. *)
Definition end_registration (s : HostRelay) : HostRelay := mkHostRelay ∅ (hr_links s) [] true.
Definition stop_link (i : nat) (s : HostRelay) : HostRelay :=
  match hr_links s !! i with Some l => set_link i (mkLink (lk_session l) (lk_downlink l) false) s | None => s end.

Section HostRelay.

Context (text_of : RelayControl -> option rstring) (control_of : rstring -> option RelayControl)
  (parse_uuid : rstring -> option (list byte)) (uuid_text : list byte -> rstring).

(** [handle_text]; its errors are only logged. *)
Definition handle_text (text : rstring) (set_up : bool) (s : HostRelay) : HostRelay :=
  match control_of text with
  | Some (RC_Incoming session_id) =>
    match parse_uuid session_id with
    | None => s
    | Some session =>
      if negb set_up then s
      else
        let link := length (hr_links s) in
        let linked := mkHostRelay (<[session_id := link]> (hr_sessions s))
                        (hr_links s ++ [mkLink session [] false]) (hr_outbound s) (hr_ended s) in
        match text_of (RC_Accept session_id) with
        | None => linked
        | Some accept => push_out (WS_Text accept) (set_link link (mkLink session [] true) linked)
        end
    end
  | Some RC_Ping => match text_of RC_Pong with Some pong => push_out (WS_Text pong) s | None => s end
  | _ => s
  end.

(** [write_downlink]: a send to a task that ended fails, and is only logged. *)
Definition write_downlink (bytes : list byte) (s : HostRelay) : HostRelay :=
  match decode_relay_frame bytes with
  | Err _ => s
  | Ok frame =>
    match hr_sessions s !! uuid_text (rf_session_id frame) with
    | None => s
    | Some i =>
      match hr_links s !! i with
      | Some l =>
        let message := if rf_channel frame =? RELAY_CHANNEL_TCP then Some (DL_Tcp (rf_payload frame))
                       else if rf_channel frame =? RELAY_CHANNEL_UDP then Some (DL_Udp (rf_payload frame)) else None in
        match message with
        | Some message => if lk_running l then set_link i (mkLink (lk_session l) (lk_downlink l ++ [message]) true) s else s
        | None => s
        end
      | None => s
      end
    end
  end.

(** A packet a session's task read locally: its frame goes out, unless nobody sends any more. *)
Definition send_out (i : nat) (channel : Z) (bytes : list byte) (s : HostRelay) : HostRelay :=
  match hr_links s !! i with
  | Some l =>
    match encode_relay_frame (lk_session l) channel bytes with
    | Ok frame => if hr_ended s then stop_link i s else push_out (WS_Binary frame) s
    | Err _ => s
    end
  | None => s
  end.

(** The message a task takes from its channel. *)
Definition take_downlink (i : nat) (written : Written) (s : HostRelay) : list HostEffect * HostRelay :=
  match hr_links s !! i with
  | Some (mkLink session (message :: downlink) true) =>
    let s := set_link i (mkLink session downlink true) s in
    let s := match written with WR_All => s | WR_Failed _ => stop_link i s end in
    (match message, written with
     | DL_Tcp bytes, WR_All => [HX_Tcp i bytes]
     | DL_Tcp bytes, WR_Failed n => [HX_Tcp i (take n bytes)]
     | DL_Udp bytes, WR_All => [HX_Udp i bytes]
     | DL_Udp bytes, WR_Failed _ => []
     end, s)
  | Some (mkLink session [] true) =>
    (* the channel's sender is gone when the session's entry was replaced or dropped *)
    if existsb (fun e => Nat.eqb e.2 i) (map_to_list (hr_sessions s)) then ([], s) else ([], stop_link i s)
  | _ => ([], s)
  end.

Definition link_running (i : nat) (s : HostRelay) : bool :=
  match hr_links s !! i with Some l => lk_running l | None => false end.

(** A turn of one of the loops. *)
Definition host_turn (s : HostRelay) (arm : HostArm) : list HostEffect * HostRelay :=
  match arm with
  | HA_Socket incoming set_up =>
    if hr_ended s then ([], s) else
    match incoming with
    | None | Some WS_Close => ([], end_registration s)
    | Some (WS_Text text) => ([], handle_text text set_up s)
    | Some (WS_Binary bytes) => ([], write_downlink bytes s)
    | Some (WS_Ping payload) => ([], push_out (WS_Pong payload) s)
    | Some (WS_Pong _) => ([], s)
    end
  | HA_Outbound written =>
    match hr_outbound s with
    | [] => ([], s)
    | m :: queue =>
      let s := mkHostRelay (hr_sessions s) (hr_links s) queue (hr_ended s) in
      match written with WR_All => ([HX_Socket m], s) | WR_Failed _ => ([], end_registration s) end
    end
  | HA_Downlink i written => take_downlink i written s
  | HA_TcpRead i read =>
    if negb (link_running i s) then ([], s)
    else match read with None => ([], stop_link i s) | Some bytes => ([], send_out i RELAY_CHANNEL_TCP bytes s) end
  | HA_UdpRead i read =>
    if negb (link_running i s) then ([], s)
    else match read with None => ([], stop_link i s) | Some bytes => ([], send_out i RELAY_CHANNEL_UDP bytes s) end
  end.
Fixpoint host_run (s : HostRelay) (arms : list HostArm) : list HostEffect * HostRelay :=
  match arms with
  | [] => ([], s)
  | arm :: arms =>
    let '(fx, s) := host_turn s arm in
    let '(more, s) := host_run s arms in
    (fx ++ more, s)
  end.

End HostRelay.

(** * Theorems *)

(** ** The client's bridge carries what it is given *)

(** The payloads of the frames of a channel that were sent to the relay. *)
Definition sent_up (channel : Z) (fx : list BridgeEffect) : list (list byte) :=
  omap (fun e => match e with
                 | BX_Socket (WS_Binary bytes) =>
                   match decode_relay_frame bytes with
                   | Ok frame => if rf_channel frame =? channel then Some (rf_payload frame) else None
                   | Err _ => None
                   end
                 | _ => None
                 end) fx.
(** What was written to the local stream and sent from the local socket. *)
Definition tcp_out (fx : list BridgeEffect) : list byte :=
  concat (omap (fun e => match e with BX_Tcp bytes => Some bytes | _ => None end) fx).
Definition udp_out (fx : list BridgeEffect) : list (list byte) :=
  omap (fun e => match e with BX_Udp bytes _ => Some bytes | _ => None end) fx.

(** What the arms read locally, and got from the relay. *)
Definition tcp_reads (arms : list BridgeArm) : list (list byte) :=
  omap (fun a => match a with AR_TcpRead read => read | _ => None end) arms.
Definition udp_reads (arms : list BridgeArm) : list (list byte) :=
  omap (fun a => match a with AR_UdpRead (Some (bytes, _)) => Some bytes | _ => None end) arms.
Definition received (channel : Z) (arms : list BridgeArm) : list (list byte) :=
  omap (fun a => match a with
                 | AR_Socket (Some (WS_Binary bytes)) _ =>
                   match decode_relay_frame bytes with
                   | Ok frame => if rf_channel frame =? channel then Some (rf_payload frame) else None
                   | Err _ => None
                   end
                 | _ => None
                 end) arms.

(** A prefix, all of it while the bridge runs. *)
Definition carried {A} (done waiting all : list A) (ended : bool) : Prop :=
  exists rest, all = done ++ rest /\ (ended = false -> rest = waiting).

Record bridge_ok (s : ClientBridge) (arms : list BridgeArm) (r : list BridgeEffect * ClientBridge) : Prop := {
  bo_tcp_up : carried (sent_up RELAY_CHANNEL_TCP r.1) (cb_tcp_uplink r.2) (cb_tcp_uplink s ++ tcp_reads arms) (cb_ended r.2);
  bo_udp_up : carried (sent_up RELAY_CHANNEL_UDP r.1) (cb_udp_uplink r.2) (cb_udp_uplink s ++ udp_reads arms) (cb_ended r.2);
  bo_tcp_down : carried (tcp_out r.1) [] (concat (received RELAY_CHANNEL_TCP arms)) (cb_ended r.2);
  bo_udp_down : sublist (udp_out r.1) (received RELAY_CHANNEL_UDP arms);
  bo_ended : cb_ended s = true -> r = ([], s)
}.

Lemma carried_step {A} (d1 d2 w1 w2 all1 more : list A) (e1 e2 : bool) :
  carried d1 w1 all1 e1 -> (e1 = true -> d2 = [] /\ e2 = true) -> (e1 = false -> carried d2 w2 (w1 ++ more) e2) ->
  carried (d1 ++ d2) w2 (all1 ++ more) e2.
Proof.
  intros (rest & -> & R) E C. destruct e1.
  - destruct (E eq_refl) as [-> ->]. exists (rest ++ more). rewrite app_nil_r, app_assoc. by split.
  - rewrite (R eq_refl). destruct (C eq_refl) as (rest2 & E2 & R2). exists rest2. by rewrite <- !app_assoc, E2.
Qed.

Lemma encode_decode channel payload frame :
  encode_relay_frame NIL channel payload = Ok frame ->
  decode_relay_frame frame = Ok (mkRelayFrame NIL channel payload).
Proof.
  unfold encode_relay_frame. destruct (channel_ok channel) eqn:C; [|done]. cbn [negb]. case_match eqn:L; [done|].
  intros [= <-]. apply (decode_encoded_frame (mkRelayFrame NIL channel payload)). split; [done|done|by apply Z.ltb_ge].
Qed.
Lemma carried_nothing {A} (w : list A) e : carried [] w (w ++ []) e.
Proof. exists w. by rewrite app_nil_r. Qed.
Lemma carried_kept {A} (w : list A) x : carried [] (w ++ [x]) (w ++ [x]) false.
Proof. by exists (w ++ [x]). Qed.

Lemma send_up_ok channel payload written s :
  channel = RELAY_CHANNEL_TCP \/ channel = RELAY_CHANNEL_UDP ->
  let r := send_up channel payload written s in
  cb_tcp_uplink r.2 = cb_tcp_uplink s /\ cb_udp_uplink r.2 = cb_udp_uplink s /\ tcp_out r.1 = [] /\ udp_out r.1 = [] /\
  (cb_ended s = false -> carried (sent_up channel r.1) [] [payload] (cb_ended r.2)) /\
  (forall other, other <> channel -> sent_up other r.1 = []).
Proof.
  intros C. unfold send_up. destruct (encode_relay_frame NIL channel payload) as [frame|e] eqn:E; cbn zeta; cbn [fst snd].
  - apply encode_decode in E. destruct written; cbn; rewrite ?E; cbn.
    + split_and!; try done.
      * intros En. rewrite Z.eqb_refl. exists []. done.
      * intros other N. by rewrite (proj2 (Z.eqb_neq _ _)).
    + split_and!; try done. intros _. exists [payload]. done.
  - split_and!; try done. intros _. by exists [payload].
Qed.

Lemma nothing_ok s arm :
  tcp_reads [arm] = [] -> udp_reads [arm] = [] -> (cb_ended s = false -> received RELAY_CHANNEL_TCP [arm] = []) ->
  bridge_ok s [arm] ([], s).
Proof.
  intros T U R. split; cbn [fst snd].
  - rewrite T. apply carried_nothing.
  - rewrite U. apply carried_nothing.
  - exists (concat (received RELAY_CHANNEL_TCP [arm])). split; [done|]. intros E. by rewrite R.
  - apply sublist_nil_l.
  - done.
Qed.
Lemma ended_turn_ok s arm : cb_ended s = true -> bridge_ok s [arm] ([], s).
Proof.
  intros E. split; cbn [fst snd]; try done.
  - exists (cb_tcp_uplink s ++ tcp_reads [arm]). split; [done|congruence].
  - exists (cb_udp_uplink s ++ udp_reads [arm]). split; [done|congruence].
  - exists (concat (received RELAY_CHANNEL_TCP [arm])). split; [done|congruence].
  - apply sublist_nil_l.
Qed.
Lemma end_bridge_ok s arm : cb_ended s = false -> bridge_ok s [arm] ([], end_bridge s).
Proof.
  intros E. split; cbn [fst snd end_bridge cb_ended cb_tcp_uplink cb_udp_uplink]; try congruence.
  - exists (cb_tcp_uplink s ++ tcp_reads [arm]). by split.
  - exists (cb_udp_uplink s ++ udp_reads [arm]). by split.
  - exists (concat (received RELAY_CHANNEL_TCP [arm])). by split.
  - apply sublist_nil_l.
Qed.

Lemma from_relay_ok m written s :
  cb_ended s = false -> bridge_ok s [AR_Socket (Some m) written] (from_relay m written s).
Proof.
  intros En. unfold from_relay. destruct m as [text|bytes|payload|payload|]; try by apply nothing_ok.
  - destruct (decode_relay_frame bytes) as [frame|e] eqn:D;
      [|apply nothing_ok; [done..|]; intros _; cbn; by rewrite D].
    destruct (rf_channel frame =? RELAY_CHANNEL_TCP) eqn:C.
    + split; cbn [fst snd]; [..|congruence].
      * unfold tcp_reads. cbn. rewrite app_nil_r. by destruct written; exists (cb_tcp_uplink s).
      * unfold udp_reads. cbn. rewrite app_nil_r. by destruct written; exists (cb_udp_uplink s).
      * unfold received. cbn. rewrite D, C. cbn. rewrite app_nil_r.
        destruct written as [|n]; cbn; [by exists []; rewrite !app_nil_r|].
        exists (drop n (rf_payload frame)). rewrite app_nil_r, take_drop. by split.
      * destruct written; apply sublist_nil_l.
    + assert (T : received RELAY_CHANNEL_TCP [AR_Socket (Some (WS_Binary bytes)) written] = [])
        by (unfold received; cbn; by rewrite D, C).
      destruct (rf_channel frame =? RELAY_CHANNEL_UDP) eqn:C2; [|by apply nothing_ok].
      destruct (cb_udp_peer s) as [peer|]; [|by apply nothing_ok].
      assert (U : received RELAY_CHANNEL_UDP [AR_Socket (Some (WS_Binary bytes)) written] = [rf_payload frame])
        by (unfold received; cbn; by rewrite D, C2).
      split; cbn [fst snd]; [..|congruence].
      * unfold tcp_reads. cbn. rewrite app_nil_r. by destruct written; exists (cb_tcp_uplink s).
      * unfold udp_reads. cbn. rewrite app_nil_r. by destruct written; exists (cb_udp_uplink s).
      * rewrite T. by destruct written; exists [].
      * rewrite U. destruct written; cbn; [done|apply sublist_nil_l].
  - split; cbn [fst snd]; [..|congruence].
    + unfold tcp_reads. cbn. rewrite app_nil_r. by destruct written; exists (cb_tcp_uplink s).
    + unfold udp_reads. cbn. rewrite app_nil_r. by destruct written; exists (cb_udp_uplink s).
    + by destruct written; exists [].
    + destruct written; apply sublist_nil_l.
Qed.

Lemma uplink_ok channel payload written s queue arm (s' := if channel =? RELAY_CHANNEL_TCP
    then mkClientBridge (cb_udp_peer s) queue (cb_udp_uplink s) (cb_ended s)
    else mkClientBridge (cb_udp_peer s) (cb_tcp_uplink s) queue (cb_ended s)) :
  channel = RELAY_CHANNEL_TCP \/ channel = RELAY_CHANNEL_UDP -> cb_ended s = false ->
  (if channel =? RELAY_CHANNEL_TCP then cb_tcp_uplink s else cb_udp_uplink s) = payload :: queue ->
  tcp_reads [arm] = [] -> udp_reads [arm] = [] -> received RELAY_CHANNEL_TCP [arm] = [] ->
  bridge_ok s [arm] (send_up channel payload written s').
Proof.
  intros C En Q T U R. pose proof (send_up_ok channel payload written s' C) as (Qt & Qu & Ot & Ou & Own & Other).
  assert (En' : cb_ended s' = false) by (unfold s'; by destruct (_ =? _)). specialize (Own En').
  destruct (send_up channel payload written s') as [fx s2]. cbn [fst snd] in *.
  split; cbn [fst snd]; rewrite ?T, ?U, ?R, ?Ot, ?Ou, ?Qt, ?Qu, ?app_nil_r; [..|by exists []|apply sublist_nil_l|congruence].
  - destruct C as [-> | ->]; cbn [Z.eqb Pos.eqb RELAY_CHANNEL_TCP RELAY_CHANNEL_UDP] in *.
    + rewrite Q. destruct Own as (rest & E & F). cbn [s' cb_tcp_uplink]. exists (rest ++ queue).
      change (payload :: queue) with ([payload] ++ queue). rewrite E, <- app_assoc. split; [done|]. intros N. by rewrite F.
    + rewrite Other by done. by exists (cb_tcp_uplink s).
  - destruct C as [-> | ->]; cbn [Z.eqb Pos.eqb RELAY_CHANNEL_TCP RELAY_CHANNEL_UDP] in *.
    + rewrite Other by done. by exists (cb_udp_uplink s).
    + rewrite Q. destruct Own as (rest & E & F). cbn [s' cb_udp_uplink]. exists (rest ++ queue).
      change (payload :: queue) with ([payload] ++ queue). rewrite E, <- app_assoc. split; [done|]. intros N. by rewrite F.
Qed.

Lemma bridge_turn_ok s arm : bridge_ok s [arm] (bridge_turn s arm).
Proof.
  unfold bridge_turn. destruct (cb_ended s) eqn:En; [by apply ended_turn_ok|].
  destruct arm as [[m|] written|written|written|[bytes|]|[[bytes peer]|]]; try by apply end_bridge_ok.
  - by apply from_relay_ok.
  - destruct (cb_tcp_uplink s) as [|payload queue] eqn:Q; [by apply nothing_ok|].
    rewrite <- En. by apply (uplink_ok RELAY_CHANNEL_TCP payload written s queue); [left| | | | |].
  - destruct (cb_udp_uplink s) as [|payload queue] eqn:Q; [by apply nothing_ok|].
    rewrite <- En. by apply (uplink_ok RELAY_CHANNEL_UDP payload written s queue); [right| | | | |].
  - split; cbn; [apply carried_kept|apply carried_nothing|by exists []|done|congruence].
  - split; cbn; [apply carried_nothing|apply carried_kept|by exists []|done|congruence].
Qed.

Lemma bridge_run_ok arms : forall s, bridge_ok s arms (bridge_run s arms).
Proof.
  induction arms as [|arm arms IH]; intros s; cbn [bridge_run].
  { split; cbn; [apply carried_nothing|apply carried_nothing|by exists []|done|done]. }
  pose proof (bridge_turn_ok s arm) as T. destruct (bridge_turn s arm) as [fx s1]. specialize (IH s1).
  destruct (bridge_run s1 arms) as [more s2]. destruct T as [T1 T2 T3 T4 T5], IH as [R1 R2 R3 R4 R5]. cbn [fst snd] in *.
  assert (E : cb_ended s1 = true -> more = [] /\ s2 = s1) by (intros E; by specialize (R5 E) as [= -> ->]).
  split; cbn [fst snd].
  - unfold sent_up, tcp_reads in *. rewrite omap_app. change (arm :: arms) with ([arm] ++ arms). rewrite omap_app, app_assoc.
    eapply carried_step; [exact T1| |done]. intros F. destruct (E F) as [-> ->]. done.
  - unfold sent_up, udp_reads in *. rewrite omap_app. change (arm :: arms) with ([arm] ++ arms). rewrite omap_app, app_assoc.
    eapply carried_step; [exact T2| |done]. intros F. destruct (E F) as [-> ->]. done.
  - unfold tcp_out, received in *. rewrite omap_app, concat_app. change (arm :: arms) with ([arm] ++ arms).
    rewrite omap_app, concat_app. eapply carried_step; [exact T3| |done]. intros F. destruct (E F) as [-> ->]. done.
  - unfold udp_out, received in *. rewrite omap_app. change (arm :: arms) with ([arm] ++ arms). rewrite omap_app.
    by apply sublist_app.
  - intros F. specialize (T5 F) as [= -> ->]. by destruct (E F) as [-> ->].
Qed.

(** The client's bridge adds nothing, changes nothing and reorders nothing, whatever
    order its loop takes its arms in: the TCP frames it sends to the relay carry, in order,
    a prefix of what was read from the local stream, and with what waits in its
    queue all of it while it runs; the same holds of datagrams; and
    what it writes to the local stream is, byte for byte, a prefix of what the relay's TCP
    frames carried, and all of it while it runs; the datagrams it sends locally
    are among those that came, in their order. *)
Theorem client_bridge_faithful arms :
  let '(fx, s) := bridge_run ClientBridge_new arms in
  carried (sent_up RELAY_CHANNEL_TCP fx) (cb_tcp_uplink s) (tcp_reads arms) (cb_ended s) /\
  carried (sent_up RELAY_CHANNEL_UDP fx) (cb_udp_uplink s) (udp_reads arms) (cb_ended s) /\
  carried (tcp_out fx) [] (concat (received RELAY_CHANNEL_TCP arms)) (cb_ended s) /\
  sublist (udp_out fx) (received RELAY_CHANNEL_UDP arms).
Proof.
  pose proof (bridge_run_ok arms ClientBridge_new) as [T U D S _].
  destruct (bridge_run ClientBridge_new arms) as [fx s]. by split_and!.
Qed.

(** ** The tunnel

    A client's bridge, the relay and a host's end, one local packet at a time: each is
    carried through all three before the next one comes. *)

Section Tunnel.

Context (hmac : list byte -> list byte -> option (list byte)) (text_of : RelayControl -> option rstring)
  (control_of : rstring -> option RelayControl) (parse_uuid : rstring -> option (list byte))
  (uuid_text : list byte -> rstring) (config : RelayConfig).

Abbreviation relay_step := (relay_input hmac text_of control_of uuid_text config).
Abbreviation host_step := (host_run text_of control_of parse_uuid uuid_text).

Record Tunnel : Type := mkTunnel { tn_client : ClientBridge; tn_relay : Relay; tn_host : HostRelay }.

(** A packet at one of the local sockets, and one that comes out. *)
Inductive LocalPacket : Type :=
| LP_ClientTcp (bytes : list byte)
| LP_ClientUdp (bytes : list byte) (peer : SocketAddr)
| LP_HostTcp (bytes : list byte)
| LP_HostUdp (bytes : list byte).

Definition packet_bytes (p : LocalPacket) : list byte :=
  match p with LP_ClientTcp b | LP_ClientUdp b _ | LP_HostTcp b | LP_HostUdp b => b end.

Definition to_socket (fx : list BridgeEffect) : list Message :=
  omap (fun e => match e with BX_Socket m => Some m | _ => None end) fx.
Definition at_client (fx : list BridgeEffect) : list LocalPacket :=
  omap (fun e => match e with
                 | BX_Tcp bytes => Some (LP_ClientTcp bytes) | BX_Udp bytes peer => Some (LP_ClientUdp bytes peer)
                 | BX_Socket _ => None
                 end) fx.
Definition from_host_socket (fx : list HostEffect) : list Message :=
  omap (fun e => match e with HX_Socket m => Some m | _ => None end) fx.
Definition at_host (link : nat) (fx : list HostEffect) : list LocalPacket :=
  omap (fun e => match e with
                 | HX_Tcp i bytes => if Nat.eqb i link then Some (LP_HostTcp bytes) else None
                 | HX_Udp i bytes => if Nat.eqb i link then Some (LP_HostUdp bytes) else None
                 | HX_Socket _ => None
                 end) fx.
(** What the relay wrote to a socket between two of its states. *)
Definition relayed (x : conn) (before after : Relay) : list Message :=
  rev (omap (fun e => match e with RE_Out y m => if Nat.eqb x y then Some m else None | _ => None end)
         (take (length (rl_log after) - length (rl_log before)) (rl_log after))).

(** From the client to the host, and back. *)
Definition carry_up (c h : conn) (link : nat) (now : Instant) (arms : list BridgeArm) (t : Tunnel)
    : list LocalPacket * Tunnel :=
  let '(fx, b) := bridge_run (tn_client t) arms in
  let queued := foldl relay_step (tn_relay t)
    (concat (map (fun m => events c now [EV_Message m; EV_Next; EV_Next; EV_Next]) (to_socket fx))) in
  let written := relay_step queued (IN_Event h (EV_Outgoing true) now) in
  let '(hx, hr) := host_step (tn_host t)
    (concat (map (fun m => [HA_Socket (Some m) true; HA_Downlink link WR_All]) (relayed h queued written))) in
  (at_host link hx, mkTunnel b written hr).
Definition carry_down (c h : conn) (now : Instant) (arms : list HostArm) (t : Tunnel) : list LocalPacket * Tunnel :=
  let '(hx, hr) := host_step (tn_host t) arms in
  let queued := foldl relay_step (tn_relay t)
    (concat (map (fun m => events h now [EV_Message m; EV_Next]) (from_host_socket hx))) in
  let written := relay_step queued (IN_Event c (EV_Outgoing true) now) in
  let '(fx, b) := bridge_run (tn_client t) (map (fun m => AR_Socket (Some m) WR_All) (relayed c queued written)) in
  (at_client fx, mkTunnel b written hr).

Definition tunnel_step (c h : conn) (link : nat) (now : Instant) (t : Tunnel) (p : LocalPacket)
    : list LocalPacket * Tunnel :=
  match p with
  | LP_ClientTcp bytes => carry_up c h link now [AR_TcpRead (Some bytes); AR_TcpUplink WR_All] t
  | LP_ClientUdp bytes peer => carry_up c h link now [AR_UdpRead (Some (bytes, peer)); AR_UdpUplink WR_All] t
  | LP_HostTcp bytes => carry_down c h now [HA_TcpRead link (Some bytes); HA_Outbound WR_All] t
  | LP_HostUdp bytes => carry_down c h now [HA_UdpRead link (Some bytes); HA_Outbound WR_All] t
  end.
Fixpoint tunnel_run (c h : conn) (link : nat) (t : Tunnel) (packets : list (Instant * LocalPacket)) : list LocalPacket :=
  match packets with
  | [] => []
  | (now, p) :: packets => let '(out, t) := tunnel_step c h link now t p in out ++ tunnel_run c h link t packets
  end.

(** What should come out: the client's datagrams come from its last peer. *)
Fixpoint delivered (peer : option SocketAddr) (packets : list LocalPacket) : list LocalPacket :=
  match packets with
  | [] => []
  | LP_ClientTcp bytes :: packets => LP_HostTcp bytes :: delivered peer packets
  | LP_ClientUdp bytes peer :: packets => LP_HostUdp bytes :: delivered (Some peer) packets
  | LP_HostTcp bytes :: packets => LP_ClientTcp bytes :: delivered peer packets
  | LP_HostUdp bytes :: packets =>
    match peer with Some peer => [LP_ClientUdp bytes peer] | None => [] end ++ delivered peer packets
  end.

(** A session through the relay, with nothing in flight. *)
Record tunnelled (id : rstring) (uuid : list byte) (c h : conn) (created : Instant) (link : nat)
    (peer : option SocketAddr) (t : Tunnel) : Prop := {
  tu_client : tn_client t = mkClientBridge peer [] [] false;
  tu_relay : connected uuid_text id uuid c h created [] [] (tn_relay t);
  tu_session : hr_sessions (tn_host t) !! uuid_text uuid = Some link;
  tu_link : hr_links (tn_host t) !! link = Some (mkLink uuid [] true);
  tu_outbound : hr_outbound (tn_host t) = [];
  tu_running : hr_ended (tn_host t) = false
}.

Lemma host_writes id uuid c h created qc m qh now s :
  connected uuid_text id uuid c h created qc (m :: qh) s -> c <> h ->
  let s' := relay_step s (IN_Event h (EV_Outgoing true) now) in
  connected uuid_text id uuid c h created qc qh s' /\ relayed h s s' = [m].
Proof.
  intros [Tc Th Se Li Qc Qh] N s'. unfold s'. rewrite (relay_input_task _ _ _ _ _ _ _ _ _ _ Th).
  cbn [is_host_task host_event]. unfold host_writer. rewrite Qh. split.
  - split; cbn; try done; by simplify_map_eq.
  - unfold relayed. cbn [rl_log log set_queues length]. rewrite Nat.sub_succ_l, Nat.sub_diag by lia.
    cbn [take omap list_omap]. by rewrite Nat.eqb_refl, take_0.
Qed.
Lemma client_writes id uuid c h created m qc qh now s :
  connected uuid_text id uuid c h created (m :: qc) qh s -> c <> h ->
  let s' := relay_step s (IN_Event c (EV_Outgoing true) now) in
  connected uuid_text id uuid c h created qc qh s' /\ relayed c s s' = [m].
Proof.
  intros [Tc Th Se Li Qc Qh] N s'. unfold s'. rewrite (relay_input_task _ _ _ _ _ _ _ _ _ _ Tc).
  cbn [is_host_task client_event client_loop]. rewrite Qc. split.
  - split; cbn; try done; by simplify_map_eq.
  - unfold relayed. cbn [rl_log log set_queues length]. rewrite Nat.sub_succ_l, Nat.sub_diag by lia.
    cbn [take omap list_omap]. by rewrite Nat.eqb_refl, take_0.
Qed.

Lemma encode_small own channel bytes :
  channel_ok channel = true -> len bytes <= RELAY_MAX_PAYLOAD_LEN ->
  encode_relay_frame own channel bytes = Ok (own ++ [Z_to_byte channel] ++ bytes).
Proof. intros C L. unfold encode_relay_frame. rewrite C. cbn [negb]. by rewrite (proj2 (Z.ltb_ge _ _)). Qed.

Lemma carry_up_ok id uuid c h created link peer peer' now t arms channel bytes out :
  tunnelled id uuid c h created link peer t -> c <> h -> len uuid = 16 ->
  len bytes <= RELAY_MAX_PAYLOAD_LEN -> len bytes <= rc_max_payload_len config ->
  channel = RELAY_CHANNEL_TCP /\ out = LP_HostTcp bytes \/ channel = RELAY_CHANNEL_UDP /\ out = LP_HostUdp bytes ->
  bridge_run (tn_client t) arms =
    ([BX_Socket (WS_Binary (NIL ++ [Z_to_byte channel] ++ bytes))], mkClientBridge peer' [] [] false) ->
  let '(o, t') := carry_up c h link now arms t in o = [out] /\ tunnelled id uuid c h created link peer' t'.
Proof.
  intros [Tc Tr Ts Tl To Te] N U L M Ch B. assert (C : channel_ok channel = true) by (by destruct Ch as [[-> _]|[-> _]]).
  unfold carry_up. rewrite B. cbn [to_socket omap list_omap option_bind map concat app foldl].
  rewrite app_nil_r. pose proof (client_frame_forwarded hmac text_of control_of uuid_text config id uuid c h created [] []
    (tn_relay t) NIL channel bytes now Tr N U C L M (or_intror eq_refl)) as F. cbn [app] in F |- *.
  set (queued := foldl _ (tn_relay t) _) in *.
  destruct (host_writes id uuid c h created [] _ [] now queued F N) as [W R]. rewrite R.
  set (written := relay_step queued _) in *. clearbody written queued.
  cbn [map concat app host_run]. unfold host_turn at 1. rewrite Te. unfold write_downlink.
  pose proof (decode_parts uuid channel bytes U C L) as Dp. cbn [app] in Dp. rewrite Dp. cbn [rf_session_id rf_channel rf_payload]. rewrite Ts, Tl. cbn [lk_session lk_downlink].
  assert (Lt : (link < length (hr_links (tn_host t)))%nat) by (by eapply lookup_lt_Some).
  destruct Ch as [[-> ->]|[-> ->]]; cbn [Z.eqb Pos.eqb RELAY_CHANNEL_TCP RELAY_CHANNEL_UDP lk_running host_turn app];
    unfold take_downlink; cbn [set_link hr_links]; rewrite list_lookup_insert_eq by done;
    cbn [app at_host omap list_omap set_link hr_links]; rewrite Nat.eqb_refl; (split; [done|]);
    (split; cbn; try done; rewrite list_insert_insert_eq; by apply list_lookup_insert_eq).
Qed.

Lemma carry_down_ok id uuid c h created link peer now t arms channel bytes :
  tunnelled id uuid c h created link peer t -> c <> h -> len uuid = 16 ->
  len bytes <= RELAY_MAX_PAYLOAD_LEN -> len bytes <= rc_max_payload_len config ->
  saturating_duration_since now created <= rc_max_session_duration config ->
  channel = RELAY_CHANNEL_TCP \/ channel = RELAY_CHANNEL_UDP ->
  host_step (tn_host t) arms = ([HX_Socket (WS_Binary (uuid ++ [Z_to_byte channel] ++ bytes))], tn_host t) ->
  let '(o, t') := carry_down c h now arms t in
  o = (if channel =? RELAY_CHANNEL_TCP then [LP_ClientTcp bytes]
       else match peer with Some peer => [LP_ClientUdp bytes peer] | None => [] end) /\
  tunnelled id uuid c h created link peer t'.
Proof.
  intros [Tc Tr Ts Tl To Te] N U L M D Ch B. assert (C : channel_ok channel = true) by (by destruct Ch as [-> | ->]).
  unfold carry_down. rewrite B. cbn [from_host_socket omap list_omap option_bind map concat app foldl].
  rewrite app_nil_r. pose proof (host_frame_forwarded hmac text_of control_of uuid_text config id uuid c h created [] []
    (tn_relay t) channel bytes now Tr N U C L M D) as F. cbn [app] in F |- *.
  set (queued := foldl _ (tn_relay t) _) in *.
  destruct (client_writes id uuid c h created _ [] [] now queued F N) as [W R]. rewrite R.
  set (written := relay_step queued _) in *. clearbody written queued.
  cbn [map bridge_run]. unfold bridge_turn. rewrite Tc. cbn [cb_ended from_relay].
  pose proof (decode_parts uuid channel bytes U C L) as Dp. cbn [app] in Dp. rewrite Dp. cbn [rf_channel rf_payload].
  destruct Ch as [-> | ->]; cbn [Z.eqb Pos.eqb RELAY_CHANNEL_TCP RELAY_CHANNEL_UDP];
    [|cbn [cb_udp_peer]; destruct peer as [peer|]]; (split; [done|by split]).
Qed.

Lemma host_sends id uuid c h created link peer t channel bytes read :
  tunnelled id uuid c h created link peer t -> len bytes <= RELAY_MAX_PAYLOAD_LEN ->
  channel = RELAY_CHANNEL_TCP /\ read = HA_TcpRead link (Some bytes) \/
  channel = RELAY_CHANNEL_UDP /\ read = HA_UdpRead link (Some bytes) ->
  host_step (tn_host t) [read; HA_Outbound WR_All] =
  ([HX_Socket (WS_Binary (uuid ++ [Z_to_byte channel] ++ bytes))], tn_host t).
Proof.
  intros [Tc Tr Ts Tl To Te] L Ch. assert (C : channel_ok channel = true) by (by destruct Ch as [[-> _]|[-> _]]).
  assert (S : forall r, r = push_out (WS_Binary (uuid ++ [Z_to_byte channel] ++ bytes)) (tn_host t) ->
    host_step r [HA_Outbound WR_All] = ([HX_Socket (WS_Binary (uuid ++ [Z_to_byte channel] ++ bytes))], tn_host t)).
  { intros r ->. cbn. rewrite To. cbn. destruct (tn_host t). cbn in *. by subst. }
  assert (O : forall ch, ch = channel -> send_out link ch bytes (tn_host t) =
    push_out (WS_Binary (uuid ++ [Z_to_byte channel] ++ bytes)) (tn_host t)).
  { intros ch ->. unfold send_out. rewrite Tl. cbn [lk_session]. rewrite encode_small by done. by rewrite Te. }
  assert (Run : link_running link (tn_host t) = true) by (unfold link_running; by rewrite Tl).
  destruct Ch as [[-> ->]|[-> ->]]; cbn [host_run]; unfold host_turn at 1; rewrite Run; cbn [negb]; rewrite O by done;
    specialize (S _ eq_refl); cbn [host_run] in S;
    (destruct (host_turn _ _ _ _ _ _) as [fx s2]; cbn [app] in *; by rewrite app_nil_r in *).
Qed.

Lemma tunnel_step_ok id uuid c h created link peer now t p :
  tunnelled id uuid c h created link peer t -> c <> h -> len uuid = 16 ->
  len (packet_bytes p) <= RELAY_MAX_PAYLOAD_LEN -> len (packet_bytes p) <= rc_max_payload_len config ->
  saturating_duration_since now created <= rc_max_session_duration config ->
  let peer' := match p with LP_ClientUdp _ peer' => Some peer' | _ => peer end in
  let '(o, t') := tunnel_step c h link now t p in
  o ++ [] = delivered peer [p] /\ tunnelled id uuid c h created link peer' t'.
Proof.
  intros T N U L M D. pose proof (tu_client _ _ _ _ _ _ _ _ T) as Tc.
  destruct p as [bytes|bytes peer'|bytes|bytes]; cbn [packet_bytes tunnel_step delivered] in *.
  - assert (B : bridge_run (tn_client t) [AR_TcpRead (Some bytes); AR_TcpUplink WR_All] =
      ([BX_Socket (WS_Binary (NIL ++ [Z_to_byte RELAY_CHANNEL_TCP] ++ bytes))], mkClientBridge peer [] [] false))
      by (rewrite Tc; cbn; unfold send_up; by rewrite encode_small).
    pose proof (carry_up_ok id uuid c h created link peer peer now t _ RELAY_CHANNEL_TCP bytes (LP_HostTcp bytes)
      T N U L M (or_introl (conj eq_refl eq_refl)) B) as S.
    destruct (carry_up _ _ _ _ _ _) as [o t']. destruct S as [-> S]. by split.
  - assert (B : bridge_run (tn_client t) [AR_UdpRead (Some (bytes, peer')); AR_UdpUplink WR_All] =
      ([BX_Socket (WS_Binary (NIL ++ [Z_to_byte RELAY_CHANNEL_UDP] ++ bytes))], mkClientBridge (Some peer') [] [] false))
      by (rewrite Tc; cbn; unfold send_up; by rewrite encode_small).
    pose proof (carry_up_ok id uuid c h created link peer (Some peer') now t _ RELAY_CHANNEL_UDP bytes (LP_HostUdp bytes)
      T N U L M (or_intror (conj eq_refl eq_refl)) B) as S.
    destruct (carry_up _ _ _ _ _ _) as [o t']. destruct S as [-> S]. by split.
  - pose proof (carry_down_ok id uuid c h created link peer now t _ RELAY_CHANNEL_TCP bytes T N U L M D (or_introl eq_refl)
      (host_sends _ _ _ _ _ _ _ _ _ _ _ T L (or_introl (conj eq_refl eq_refl)))) as S.
    destruct (carry_down _ _ _ _ _) as [o t']. destruct S as [-> S]. by split.
  - pose proof (carry_down_ok id uuid c h created link peer now t _ RELAY_CHANNEL_UDP bytes T N U L M D (or_intror eq_refl)
      (host_sends _ _ _ _ _ _ _ _ _ _ _ T L (or_intror (conj eq_refl eq_refl)))) as S.
    destruct (carry_down _ _ _ _ _) as [o t']. destruct S as [-> S]. split; [|done]. cbn. by rewrite !app_nil_r.
Qed.


End Tunnel.

(** *** At concrete inputs *)

(** The relay of [Relay.toy_session], with a bridge and a host's end at its two sockets. *)
Definition toy_uuid : list byte := uuid_bytes 7.
Definition toy_tunnel : Tunnel :=
  let relay := toy_run toy_session in
  let drained := set_queues (<[1%nat := []]> (<[0%nat := []]> (rl_queues relay))) relay in
  mkTunnel ClientBridge_new drained (mkHostRelay {[toy_uuid := 0%nat]} [mkLink toy_uuid [] true] [] false).
Definition toy_peer : SocketAddr := mkSocketAddr [Byte.x7f; Byte.x00; Byte.x00; Byte.x01] 5000.
Definition toy_packets : list (Instant * LocalPacket) :=
  [(0, LP_ClientTcp (str_bytes "hello")); (0, LP_HostUdp (str_bytes "early")); (0, LP_ClientUdp (str_bytes "ping") toy_peer);
   (0, LP_HostUdp (str_bytes "frame")); (0, LP_HostTcp (str_bytes "bye"))].


(** The last bytes of a client that closes its stream are lost: they are read and queued,
    and the loop sees the end of the stream before it sends them. *)
Example last_bytes_lost :
  let '(fx, s) := bridge_run ClientBridge_new [AR_TcpRead (Some (str_bytes "bye")); AR_TcpRead None; AR_TcpUplink WR_All] in
  sent_up RELAY_CHANNEL_TCP fx = [] /\ cb_ended s = true.
Proof. by vm_compute. Qed.
