(* ===== verification/HostServer.v ===== *)
(** * The host's server

    [clients/rust/maho-host/src/session.rs]: [SessionWatch] and the watchdog,
    [serve_with_stop], the accept loop, and [serve_connection], the thread of a
    connection.  The loop, the threads of the connections and their watchdogs take
    their steps in any order.  What a session does between two ticks of its watch is
    [HostSession]; here it ticks, registers a media pipeline, and returns. *)

From S2P Require Import Prelude Admission Guests.

(** ** The watch of a session *)

Definition SESSION_STALL_TIMEOUT : Duration := from_secs 30.
Definition MAX_CONCURRENT_CONNECTIONS : Z := 16.
Definition PREAUTH_TIMEOUT : Duration := from_secs 10.

(** [Duration::as_millis] *)
Definition as_millis (d : Duration) : Z := d / 1000000.

Record SessionWatch : Type := mkSessionWatch {
  sw_origin : Instant;
  sw_progress_ms : Z;
  sw_timeout : Duration;
  sw_aborted : bool
}.
Definition SessionWatch_new (timeout : Duration) (now : Instant) : SessionWatch := mkSessionWatch now 0 timeout false.

Definition tick (now : Instant) (w : SessionWatch) : SessionWatch :=
  mkSessionWatch (sw_origin w) (as_millis (saturating_duration_since now (sw_origin w))) (sw_timeout w) (sw_aborted w).
Definition idle (now : Instant) (w : SessionWatch) : Duration :=
  from_millis (Z.max 0 (as_millis (saturating_duration_since now (sw_origin w)) - sw_progress_ms w)).
Definition abort (w : SessionWatch) : SessionWatch :=
  mkSessionWatch (sw_origin w) (sw_progress_ms w) (sw_timeout w) true.

Definition watchdog_should_abort (finished : bool) (idle timeout : Duration) : bool :=
  negb finished && (timeout <=? idle).

(** [(timeout / 4).clamp(50 ms, 1 s)] *)
Definition watchdog_poll (timeout : Duration) : Duration :=
  Z.max (from_millis 50) (Z.min (timeout / 4) (from_secs 1)).

(** ** Connections *)

Inductive Thread : Type := TR_Tls | TR_Serving | TR_Ended.

(** [hc_watchdog]: its watchdog runs.  [hc_pipeline]: a media pipeline is in its slot. *)
Record Connection : Type := mkConnection {
  hc_peer : SocketAddr;
  hc_admission_deadline : Instant;
  hc_thread : Thread;
  hc_finished : bool;
  hc_watch : SessionWatch;
  hc_watchdog : bool;
  hc_socket : bool;
  hc_pipeline : bool
}.
Definition set_thread (t : Thread) (c : Connection) : Connection :=
  mkConnection (hc_peer c) (hc_admission_deadline c) t (hc_finished c) (hc_watch c) (hc_watchdog c) (hc_socket c) (hc_pipeline c).
Definition set_watch (w : SessionWatch) (c : Connection) : Connection :=
  mkConnection (hc_peer c) (hc_admission_deadline c) (hc_thread c) (hc_finished c) w (hc_watchdog c) (hc_socket c) (hc_pipeline c).

(** [hs_active]: [active_connections]; [hs_serving]: the accept loop runs, [Err]: it returned
    an error. *)
Inductive Serving : Type := SV_Loop | SV_Stopped | SV_Failed.
Record HostServer : Type := mkHostServer {
  hs_serving : Serving;
  hs_stop : bool;
  hs_active : Z;
  hs_connections : list Connection;
  hs_lockout : BootstrapLockout;
  hs_refused : list SocketAddr
}.

(** [bind_with_media_advertising_and_factory] and the start of [serve_with_stop]: with a PIN the
    pairing window is open. *)
Definition HostServer_new (bootstrap_pin : bool) : HostServer :=
  mkHostServer SV_Loop false 0 []
    (if bootstrap_pin then begin_pairing BootstrapLockout_default else BootstrapLockout_default) [].

Definition set_connections (l : list Connection) (s : HostServer) : HostServer :=
  mkHostServer (hs_serving s) (hs_stop s) (hs_active s) l (hs_lockout s) (hs_refused s).
Definition set_connection (i : nat) (c : Connection) (s : HostServer) : HostServer :=
  set_connections (<[i := c]> (hs_connections s)) s.
Definition set_active (n : Z) (s : HostServer) : HostServer :=
  mkHostServer (hs_serving s) (hs_stop s) n (hs_connections s) (hs_lockout s) (hs_refused s).
Definition set_serving (x : Serving) (s : HostServer) : HostServer :=
  mkHostServer x (hs_stop s) (hs_active s) (hs_connections s) (hs_lockout s) (hs_refused s).
Definition set_lockout (x : BootstrapLockout) (s : HostServer) : HostServer :=
  mkHostServer (hs_serving s) (hs_stop s) (hs_active s) (hs_connections s) x (hs_refused s).

(** [tcp_listener.accept()] *)
Inductive Accepted : Type := AC_Peer (peer : SocketAddr) | AC_WouldBlock | AC_Failed.

(** What the TLS part of a connection's thread comes to: an error before the handshake (the
    store, the server's set-up), a handshake that failed, an error after it, or a
    stream, with or without a thread for its watchdog. *)
Inductive TlsAnswer : Type := TL_SetUpFailed | TL_Failed | TL_CloneFailed | TL_Stream (watchdog_spawned : bool).

Inductive ServerEvent : Type :=
| SE_Stop                                                    (* [stop] is stored *)
| SE_Accept (accepted : Accepted) (spawned : bool)           (* a turn of the accept loop *)
| SE_Tls (i : nat) (answer : TlsAnswer)
| SE_Tick (i : nat)                                          (* the session's loop *)
| SE_Pipeline (i : nat) (registered : bool)                  (* the session stores or takes its pipeline *)
| SE_Return (i : nat)                                        (* [handle_connection] returns *)
| SE_Watchdog (i : nat).                                     (* the watchdog wakes up *)

(** The permit of a thread is dropped when it ends. *)
Definition end_thread (i : nat) (c : Connection) (s : HostServer) : HostServer :=
  set_active (hs_active s - 1) (set_connection i (set_thread TR_Ended c) s).

Section Server.

Context (session_stall_timeout : Duration).

(** A turn of the loop of [serve_with_stop]. *)
Definition accept_turn (accepted : Accepted) (spawned : bool) (now : Instant) (s : HostServer) : HostServer :=
  match hs_serving s with
  | SV_Loop =>
    if hs_stop s then set_serving SV_Stopped s else
    match accepted with
    | AC_WouldBlock => s
    | AC_Failed => set_serving SV_Failed s
    | AC_Peer peer =>
      if MAX_CONCURRENT_CONNECTIONS <=? hs_active s
      then mkHostServer (hs_serving s) (hs_stop s) (hs_active s) (hs_connections s) (hs_lockout s) (peer :: hs_refused s)
      else
        let s := set_active (hs_active s + 1) s in
        if spawned : bool
        then set_connections (hs_connections s ++
               [mkConnection peer (now + PREAUTH_TIMEOUT) TR_Tls false (SessionWatch_new session_stall_timeout now) false true false]) s
        else set_active (hs_active s - 1) s                  (* the permit goes with the closure *)
    end
  | _ => s
  end.

(** The TLS part of [serve_connection]. *)
Definition tls_turn (i : nat) (answer : TlsAnswer) (now : Instant) (c : Connection) (s : HostServer) : HostServer :=
  match answer with
  | TL_SetUpFailed => end_thread i c s
  | TL_Failed => end_thread i c (set_lockout (record_failure (hs_lockout s) now).2 s)
  | TL_CloneFailed => end_thread i c s
  | TL_Stream watchdog_spawned =>
    set_connection i (mkConnection (hc_peer c) (hc_admission_deadline c) TR_Serving false
      (SessionWatch_new session_stall_timeout now) watchdog_spawned (hc_socket c) false) s
  end.

(** A turn of the watchdog's loop. *)
Definition watchdog_turn (now : Instant) (c : Connection) : Connection :=
  if watchdog_should_abort (hc_finished c) (idle now (hc_watch c)) (sw_timeout (hc_watch c))
  then mkConnection (hc_peer c) (hc_admission_deadline c) (hc_thread c) (hc_finished c) (abort (hc_watch c)) false false false
  else if hc_finished c
  then mkConnection (hc_peer c) (hc_admission_deadline c) (hc_thread c) (hc_finished c) (hc_watch c) false (hc_socket c) (hc_pipeline c)
  else c.

(** [handle_connection] returns: its teardown has taken the pipeline, and the guard sets
    [finished]. *)
Definition return_turn (i : nat) (c : Connection) (s : HostServer) : HostServer :=
  end_thread i (mkConnection (hc_peer c) (hc_admission_deadline c) (hc_thread c) true (hc_watch c) (hc_watchdog c) (hc_socket c) false) s.

Definition server_event (s : HostServer) (e : ServerEvent * Instant) : HostServer :=
  let '(e, now) := e in
  match e with
  | SE_Stop => mkHostServer (hs_serving s) true (hs_active s) (hs_connections s) (hs_lockout s) (hs_refused s)
  | SE_Accept accepted spawned => accept_turn accepted spawned now s
  | SE_Tls i answer =>
    match hs_connections s !! i with
    | Some c => match hc_thread c with TR_Tls => tls_turn i answer now c s | _ => s end
    | None => s
    end
  | SE_Tick i =>
    match hs_connections s !! i with
    | Some c => match hc_thread c with TR_Serving => set_connection i (set_watch (tick now (hc_watch c)) c) s | _ => s end
    | None => s
    end
  | SE_Pipeline i registered =>
    match hs_connections s !! i with
    | Some c =>
      match hc_thread c with
      | TR_Serving =>
        set_connection i (mkConnection (hc_peer c) (hc_admission_deadline c) (hc_thread c) (hc_finished c) (hc_watch c)
          (hc_watchdog c) (hc_socket c) registered) s
      | _ => s
      end
    | None => s
    end
  | SE_Return i =>
    match hs_connections s !! i with
    | Some c => match hc_thread c with TR_Serving => return_turn i c s | _ => s end
    | None => s
    end
  | SE_Watchdog i =>
    match hs_connections s !! i with
    | Some c => if hc_watchdog c then set_connection i (watchdog_turn now c) s else s
    | None => s
    end
  end.
Definition server_run (s : HostServer) (events : list (ServerEvent * Instant)) : HostServer := foldl server_event s events.

End Server.

(** * Theorems *)

(** ** Every event touches one connection *)

Definition target (e : ServerEvent) : option nat :=
  match e with
  | SE_Tls i _ | SE_Tick i | SE_Pipeline i _ | SE_Return i | SE_Watchdog i => Some i
  | SE_Stop | SE_Accept _ _ => None
  end.
(** What an event makes of the connection it names. *)
Definition connection_event (timeout : Duration) (e : ServerEvent * Instant) (c : Connection) : Connection :=
  let '(e, now) := e in
  match e, hc_thread c with
  | SE_Tls _ (TL_Stream w), TR_Tls =>
    mkConnection (hc_peer c) (hc_admission_deadline c) TR_Serving false (SessionWatch_new timeout now) w (hc_socket c) false
  | SE_Tls _ _, TR_Tls => set_thread TR_Ended c
  | SE_Tick _, TR_Serving => set_watch (tick now (hc_watch c)) c
  | SE_Pipeline _ registered, TR_Serving =>
    mkConnection (hc_peer c) (hc_admission_deadline c) (hc_thread c) (hc_finished c) (hc_watch c)
      (hc_watchdog c) (hc_socket c) registered
  | SE_Return _, TR_Serving =>
    mkConnection (hc_peer c) (hc_admission_deadline c) TR_Ended true (hc_watch c) (hc_watchdog c) (hc_socket c) false
  | SE_Watchdog _, _ => if hc_watchdog c then watchdog_turn now c else c
  | _, _ => c
  end.

Definition running (c : Connection) : bool := match hc_thread c with TR_Ended => false | _ => true end.
Definition running_connections (s : HostServer) : Z := len (filter (fun c => running c = true) (hs_connections s)).

Section Proofs.

Context (timeout : Duration).

Lemma alter_insert {A} (l : list A) i f x : l !! i = Some x -> alter f i l = <[i := f x]> l.
Proof.
  intros Hi. apply list_eq; intros j. pose proof (lookup_lt_Some _ _ _ Hi).
  rewrite list_lookup_alter, list_lookup_insert. case_decide.
  - subst. rewrite Hi, decide_True by done. done.
  - rewrite decide_False by tauto. done.
Qed.
Lemma alter_none {A} (l : list A) i f : l !! i = None -> alter f i l = l.
Proof. intros Hi. apply list_eq; intros j. rewrite list_lookup_alter. case_decide; [subst; by rewrite Hi | done]. Qed.

(** An event that names a connection replaces it. *)
Lemma targeted_connections s e now i :
  target e = Some i ->
  hs_connections (server_event timeout s (e, now)) = alter (connection_event timeout (e, now)) i (hs_connections s).
Proof.
  intros Ht. destruct (hs_connections s !! i) as [c |] eqn:Hc.
  - rewrite (alter_insert _ _ _ c) by done.
    destruct e; simplify_eq/=; rewrite Hc; unfold tls_turn, return_turn, end_thread in *;
      repeat case_match; simplify_eq/=; try done; symmetry; by apply list_insert_id.
  - rewrite alter_none by done. destruct e; simplify_eq/=; rewrite Hc; done.
Qed.

(** The threads that run are counted, and none runs again. *)
Lemma targeted_active s e now i :
  target e = Some i ->
  match hs_connections s !! i with
  | Some c =>
    hs_active (server_event timeout s (e, now)) =
    hs_active s - Z.b2z (running c) + Z.b2z (running (connection_event timeout (e, now) c))
  | None => hs_active (server_event timeout s (e, now)) = hs_active s
  end.
Proof.
  intros Ht. destruct (hs_connections s !! i) as [c |] eqn:Hc.
  - destruct e; simplify_eq/=; rewrite Hc;
      unfold running, tls_turn, return_turn, end_thread, watchdog_turn, set_watch, set_thread in *;
      repeat case_match; simplify_eq/=; try done; solve [lia | congruence].
  - destruct e; simplify_eq/=; rewrite Hc; done.
Qed.
Lemma event_running e c : Z.b2z (running (connection_event timeout e c)) <= Z.b2z (running c).
Proof.
  destruct e as [e now]. destruct e; unfold running, connection_event, watchdog_turn, set_watch, set_thread;
    repeat case_match; simplify_eq/=; try lia; congruence.
Qed.

(** The others leave the connections as they are, or add one. *)
Lemma untargeted_event s e now :
  target e = None ->
  let s' := server_event timeout s (e, now) in
  (hs_connections s' = hs_connections s /\ hs_active s' = hs_active s) \/
  (exists peer, hs_active s < MAX_CONCURRENT_CONNECTIONS /\ hs_active s' = hs_active s + 1 /\
     hs_connections s' = hs_connections s ++
       [mkConnection peer (now + PREAUTH_TIMEOUT) TR_Tls false (SessionWatch_new timeout now) false true false]).
Proof.
  intros Ht. destruct e as [| [peer | |] [] | | | | |]; try done; simpl; unfold accept_turn.
  all: try (left; by repeat case_match).
  all: destruct (hs_serving s); try (by left); destruct (hs_stop s); try (by left);
    destruct (MAX_CONCURRENT_CONNECTIONS <=? hs_active s) eqn:Hfull; try (by left); simpl.
  - right. exists peer. repeat split; try done; lia.
  - left. split; [done | lia].
Qed.

(** *** The count of [active_connections] *)

Lemma count_insert (l : list Connection) i c c' :
  l !! i = Some c ->
  len (filter (fun c => running c = true) (<[i := c']> l)) =
  len (filter (fun c => running c = true) l) - Z.b2z (running c) + Z.b2z (running c').
Proof.
  revert i. induction l as [| x l IH]; intros [| i] Hi; simplify_eq/=.
  - rewrite !filter_cons. destruct (running c), (running c'); simpl; rewrite ?len_cons; lia.
  - rewrite !filter_cons. destruct (running x); simpl; rewrite ?len_cons, (IH i) by done; lia.
Qed.

Definition counted (s : HostServer) : Prop :=
  hs_active s = running_connections s /\ hs_active s <= MAX_CONCURRENT_CONNECTIONS.

Lemma counted_event s e : counted s -> counted (server_event timeout s e).
Proof.
  destruct e as [e now]. unfold counted, running_connections. intros [Hc Hb]. destruct (target e) as [i |] eqn:Ht.
  - rewrite (targeted_connections _ _ _ _ Ht). pose proof (targeted_active s e now i Ht) as Ha.
    destruct (hs_connections s !! i) as [c |] eqn:Hi.
    + rewrite (alter_insert _ _ _ c), count_insert with (c := c) by done.
      pose proof (event_running (e, now) c). lia.
    + rewrite alter_none by done. lia.
  - destruct (untargeted_event s e now Ht) as [[Hl Ha] | (peer & Hr & Ha & Hl)]; rewrite Hl, Ha; [done |].
    rewrite filter_app, len_app, filter_cons_True, filter_nil by done. cbn [len length]. split; [| lia].
    unfold len in *. simpl. lia.
Qed.
Lemma counted_run s events : counted s -> counted (server_run timeout s events).
Proof. revert s. induction events as [| e events IH]; intros s Hs; [done |]. apply IH. by apply counted_event. Qed.
Lemma counted_new pin : counted (HostServer_new pin).
Proof. split; [done |]. unfold MAX_CONCURRENT_CONNECTIONS. simpl. lia. Qed.

(** *** The life of a connection *)

(** A thread that serves has not finished; its watch has the server's timeout; a watch that aborted has
    shut its socket and its watchdog is gone. *)
Definition connection_ok (c : Connection) : Prop :=
  (hc_thread c = TR_Serving -> hc_finished c = false) /\
  sw_timeout (hc_watch c) = timeout /\
  (hc_thread c = TR_Tls -> sw_aborted (hc_watch c) = false /\ hc_socket c = true /\ hc_watchdog c = false) /\
  (sw_aborted (hc_watch c) = true -> hc_socket c = false /\ hc_watchdog c = false) /\
  (hc_socket c = false -> sw_aborted (hc_watch c) = true).
Lemma connection_event_ok e c : connection_ok c -> connection_ok (connection_event timeout e c).
Proof.
  destruct e as [e now]. unfold connection_ok, connection_event. intros (Hf & Ht & Htls & Ha & Hs).
  destruct e; unfold watchdog_turn, set_watch, set_thread, tick, abort; repeat case_match; simpl;
    (split_and!; try naive_solver congruence).
Qed.
Lemma connections_event_ok s e :
  Forall connection_ok (hs_connections s) -> Forall connection_ok (hs_connections (server_event timeout s e)).
Proof.
  destruct e as [e now]. intros Hs. destruct (target e) as [i |] eqn:Ht.
  - rewrite (targeted_connections _ _ _ _ Ht). apply Forall_alter; [done |]. intros c _. apply connection_event_ok.
  - destruct (untargeted_event s e now Ht) as [[-> _] | (peer & _ & _ & ->)]; [done |].
    apply Forall_app_2, Forall_singleton; [done |]. repeat split; done.
Qed.
Lemma connections_run_ok s events :
  Forall connection_ok (hs_connections s) -> Forall connection_ok (hs_connections (server_run timeout s events)).
Proof. revert s. induction events as [| e events IH]; intros s Hs; [done |]. by apply IH, connections_event_ok. Qed.

(** What a run makes of a connection is what the events that name it make of it, in their order. *)
Definition events_of (i : nat) (events : list (ServerEvent * Instant)) : list (ServerEvent * Instant) :=
  filter (fun e => target e.1 = Some i) events.
Lemma connection_run s events i c :
  hs_connections s !! i = Some c ->
  hs_connections (server_run timeout s events) !! i =
  Some (foldl (fun c e => connection_event timeout e c) c (events_of i events)).
Proof.
  revert s c. induction events as [| [e now] events IH]; intros s c Hc; [done |].
  unfold events_of. rewrite filter_cons. change (server_run timeout s ((e, now) :: events))
    with (server_run timeout (server_event timeout s (e, now)) events).
  destruct (decide _) as [Ht | Ht]; cbn [fst] in Ht; cbn [foldl]; apply IH.
  - rewrite (targeted_connections _ _ _ _ Ht), list_lookup_alter. by rewrite decide_True, Hc.
  - destruct (target e) as [j |] eqn:Hj.
    + rewrite (targeted_connections _ _ _ _ Hj), list_lookup_alter, decide_False; [done | congruence].
    + destruct (untargeted_event s e now Hj) as [[-> _] | (peer & _ & _ & ->)]; [done |]. by apply lookup_app_l_Some.
Qed.
Lemma events_of_elem i events e : e ∈ events_of i events <-> target e.1 = Some i /\ e ∈ events.
Proof. unfold events_of. by rewrite list_elem_of_filter. Qed.

Lemma events_of_app i l k : events_of i (l ++ k) = events_of i l ++ events_of i k.
Proof. apply filter_app. Qed.
Lemma events_of_cons i e l : target e.1 = Some i -> events_of i (e :: l) = e :: events_of i l.
Proof. intros Ht. unfold events_of. by rewrite filter_cons_True. Qed.

(** *** A session between two ticks *)

Abbreviation connection_events := (foldl (fun c e => connection_event timeout e c)).

Definition between_ticks (e : ServerEvent * Instant) : Prop :=
  match e.1 with SE_Tick _ | SE_Return _ => False | _ => True end.
Definition wakes_late (w : SessionWatch) (e : ServerEvent * Instant) : Prop :=
  match e.1 with SE_Watchdog _ => timeout <= idle e.2 w | _ => False end.

Lemma stall_step e c :
  connection_ok c -> hc_thread c = TR_Serving -> between_ticks e ->
  let c' := connection_event timeout e c in
  hc_thread c' = TR_Serving /\
  sw_origin (hc_watch c') = sw_origin (hc_watch c) /\ sw_progress_ms (hc_watch c') = sw_progress_ms (hc_watch c) /\
  ((hc_watchdog c = true /\ wakes_late (hc_watch c) e /\ sw_aborted (hc_watch c') = true) \/
   (~ (hc_watchdog c = true /\ wakes_late (hc_watch c) e) /\
    sw_aborted (hc_watch c') = sw_aborted (hc_watch c) /\ hc_watchdog c' = hc_watchdog c)).
Proof.
  destruct e as [e now]. intros (Hf & Ht & _) Hs Hb. specialize (Hf Hs).
  destruct e; try done; unfold connection_event, wakes_late; simpl; rewrite ?Hs.
  1-3: try destruct answer; split_and!; try done; right; naive_solver.
  - split_and!; try done. right. naive_solver.
  - unfold watchdog_turn, watchdog_should_abort. rewrite Hf, Ht. simpl.
    destruct (hc_watchdog c) eqn:Hw, (timeout <=? idle now (hc_watch c)) eqn:Hi; simpl; rewrite ?Hw;
      split_and!; try done; [left | right ..]; split_and!; try done; try lia; naive_solver lia.
Qed.
Lemma idle_same now w w' :
  sw_origin w' = sw_origin w -> sw_progress_ms w' = sw_progress_ms w -> idle now w' = idle now w.
Proof. unfold idle. congruence. Qed.
Lemma stalled_session l c :
  connection_ok c -> hc_thread c = TR_Serving -> Forall between_ticks l ->
  let c' := connection_events c l in
  (connection_ok c' /\ hc_thread c' = TR_Serving) /\
  (sw_aborted (hc_watch c) = true \/ (hc_watchdog c = true /\ Exists (wakes_late (hc_watch c)) l) ->
   sw_aborted (hc_watch c') = true) /\
  (sw_aborted (hc_watch c) = false -> Forall (fun e => ~ wakes_late (hc_watch c) e) l ->
   sw_aborted (hc_watch c') = false).
Proof.
  revert c. induction l as [| e l IH]; intros c Hok Hs Hl; simpl.
  { split; [done |]. split; [| done]. intros [? | [_ Hx]]; [done | by apply Exists_nil in Hx]. }
  apply Forall_cons in Hl as [He Hl]. destruct (stall_step e c Hok Hs He) as (Hs' & Ho & Hp & Hstep).
  destruct (IH _ (connection_event_ok e c Hok) Hs' Hl) as (Hok' & Ha & Hn).
  assert (Hlate : forall x, wakes_late (hc_watch (connection_event timeout e c)) x <-> wakes_late (hc_watch c) x).
  { intros [[] now]; try done. unfold wakes_late. simpl. by rewrite (idle_same _ _ _ Ho Hp). }
  split; [done |]. split.
  - intros Hwake. apply Ha. destruct Hstep as [(_ & _ & ?) | (Hno & Hab & Hwd)]; [by left |].
    destruct Hwake as [? | [Hw Hx]]; [left; congruence |]. right. split; [congruence |].
    apply Exists_cons in Hx as [Hx | Hx]; [by destruct Hno |]. apply (Exists_impl _ _ _ Hx). intros x. apply Hlate.
  - intros Hab Hx. apply Forall_cons in Hx as [Hx Hxs]. apply Hn.
    + destruct Hstep as [(_ & ? & _) | (_ & ? & _)]; [done | congruence].
    + apply (Forall_impl _ _ _ Hxs). intros x Hn' Hx'. by apply Hn', Hlate.
Qed.

(** A session that returned is left to itself. *)
Lemma returned_stays l c :
  connection_ok c -> hc_thread c = TR_Ended -> hc_finished c = true ->
  let c' := connection_events c l in sw_aborted (hc_watch c') = sw_aborted (hc_watch c) /\ hc_socket c' = hc_socket c.
Proof.
  revert c. induction l as [| e l IH]; intros c Hok He Hf; [done |]. simpl.
  assert (let c' := connection_event timeout e c in
    hc_thread c' = TR_Ended /\ hc_finished c' = true /\ sw_aborted (hc_watch c') = sw_aborted (hc_watch c) /\
    hc_socket c' = hc_socket c) as (He' & Hf' & <- & <-).
  { destruct e as [[] now]; simpl; rewrite ?He; try done; [by destruct answer |].
    unfold watchdog_turn, watchdog_should_abort. rewrite Hf. simpl. by destruct (hc_watchdog c). }
  apply IH; [by apply connection_event_ok | done ..].
Qed.

(** The grain of the watch is a millisecond. *)
Lemma idle_after_tick w at_ now ms :
  sw_origin w <= at_ -> timeout = from_millis ms -> 0 < ms ->
  let w' := tick at_ w in
  (at_ + timeout <= now -> timeout <= idle now w') /\
  (now <= at_ + timeout - from_millis 1 -> idle now w' < timeout).
Proof.
  intros Ho -> Hm. unfold idle, tick, from_millis, as_millis, saturating_duration_since. simpl.
  split; intros Hn; Z.to_euclidean_division_equations; lia.
Qed.

End Proofs.


(** In every interleaving of the accept loop with the threads of the connections and
    their watchdogs, [active_connections] is the number of the connections' threads that
    have not ended, and it is at most [MAX_CONCURRENT_CONNECTIONS].  While the loop runs, a
    new peer gets a thread exactly when fewer than that run and its thread could be
    spawned, and otherwise every connection, and the count, stay as they were. *)
Theorem connections_are_bounded timeout pin events :
  let s := server_run timeout (HostServer_new pin) events in
  hs_active s = running_connections s /\
  running_connections s <= MAX_CONCURRENT_CONNECTIONS /\
  (hs_serving s = SV_Loop -> hs_stop s = false -> forall peer spawned now,
     let s' := server_event timeout s (SE_Accept (AC_Peer peer) spawned, now) in
     if (running_connections s <? MAX_CONCURRENT_CONNECTIONS) && spawned
     then running_connections s' = running_connections s + 1 /\
          map hc_peer (hs_connections s') = map hc_peer (hs_connections s) ++ [peer]
     else hs_connections s' = hs_connections s /\ hs_active s' = hs_active s).
Proof.
  intros s. destruct (counted_run timeout _ events (counted_new pin)) as [Hc Hb]. fold s in Hc, Hb.
  split_and!; [done | lia |]. intros Hl Hs peer spawned now s'.
  assert (counted s') as [Hc' _] by (by apply counted_event).
  unfold s' in *. clear s'. simpl in *. unfold accept_turn in *. rewrite Hl, Hs in *. rewrite Hc in *.
  destruct (MAX_CONCURRENT_CONNECTIONS <=? running_connections s) eqn:Hfull.
  - rewrite (proj2 (Z.ltb_ge _ _)) by lia. done.
  - rewrite (proj2 (Z.ltb_lt _ _)) by lia. destruct spawned; simpl in *.
    + split; [congruence |]. by rewrite map_app.
    + split; [done | lia].
Qed.
Definition toy_accepts : list (ServerEvent * Instant) :=
  (fun k => (SE_Accept (AC_Peer (mkSocketAddr [] (Z.of_nat k))) true, 0)) <$> seq 0 20.
Lemma connections_are_bounded_witness :
  let s := server_run SESSION_STALL_TIMEOUT (HostServer_new true) toy_accepts in
  running_connections s = 16 /\
  let s' := server_event SESSION_STALL_TIMEOUT s (SE_Accept (AC_Peer (mkSocketAddr [] 20)) true, 5) in
  if (running_connections s <? MAX_CONCURRENT_CONNECTIONS) && true
  then running_connections s' = running_connections s + 1 /\
       map hc_peer (hs_connections s') = map hc_peer (hs_connections s) ++ [mkSocketAddr [] 20]
  else hs_connections s' = hs_connections s /\ hs_active s' = hs_active s.
Proof.
  split; [by vm_compute |].
  apply (proj2 (proj2 (connections_are_bounded SESSION_STALL_TIMEOUT true toy_accepts))); by vm_compute.
Defined.

(** C29: The watchdog aborts exactly the sessions that stall.  Let a session
    tick its watch, and then neither tick nor return, whatever else happens on the server.
    If its watchdog, not yet gone, wakes up at least [session_stall_timeout] after the tick, the
    watch is aborted, the socket shut down and the watchdog gone.
    If it only wakes up when less than that (by a millisecond, the watch's grain) has
    passed, and had not aborted the session before, then the session is not aborted and
    the socket is open.  And once the session returns, its watchdog aborts nothing. *)
Theorem watchdog_aborts_stalled (ms : Z) pin before i c tick_at after :
  let timeout := from_millis ms in
  let s := server_run timeout (HostServer_new pin) before in
  0 < ms ->
  hs_connections s !! i = Some c ->
  hc_thread c = TR_Serving ->
  sw_origin (hc_watch c) <= tick_at ->
  (forall now, ((SE_Tick i, now) ∉ after) /\ ((SE_Return i, now) ∉ after)) ->
  exists c',
    hs_connections (server_run timeout s ((SE_Tick i, tick_at) :: after)) !! i = Some c' /\
    (hc_watchdog c = true -> (exists now, (SE_Watchdog i, now) ∈ after /\ tick_at + timeout <= now) ->
     sw_aborted (hc_watch c') = true /\ hc_socket c' = false /\ hc_watchdog c' = false) /\
    (hc_socket c = true -> (forall now, (SE_Watchdog i, now) ∈ after -> now <= tick_at + timeout - from_millis 1) ->
     sw_aborted (hc_watch c') = false /\ hc_socket c' = true) /\
    (forall returned_at later, exists c'',
       hs_connections (server_run timeout s (((SE_Tick i, tick_at) :: after) ++ (SE_Return i, returned_at) :: later)) !! i
         = Some c'' /\
       sw_aborted (hc_watch c'') = sw_aborted (hc_watch c') /\ hc_socket c'' = hc_socket c').
Proof.
  intros timeout s Hms Hc Hs Ho Hafter.
  assert (Hok : connection_ok timeout c).
  { apply (Forall_lookup_1 _ _ i) with (2 := Hc). by apply connections_run_ok, Forall_nil. }
  pose proof (idle_after_tick timeout (hc_watch c) tick_at) as Hidle.
  set (c1 := set_watch (tick tick_at (hc_watch c)) c).
  assert (Hc1 : connection_event timeout (SE_Tick i, tick_at) c = c1) by (simpl; by rewrite Hs).
  assert (Hok1 : connection_ok timeout c1) by (rewrite <- Hc1; by apply connection_event_ok).
  assert (Hbetween : Forall between_ticks (events_of i after)).
  { apply Forall_forall. intros [e now] [Ht He]%events_of_elem. specialize (Hafter now).
    destruct e; simplify_eq/=; try done; tauto. }
  destruct (stalled_session timeout (events_of i after) c1 Hok1 Hs Hbetween) as ([Hok' Hs'] & Hlate & Hearly).
  set (c' := foldl _ c1 (events_of i after)) in *.
  assert (Hrun : events_of i ((SE_Tick i, tick_at) :: after) = (SE_Tick i, tick_at) :: events_of i after).
  { by apply events_of_cons. }
  exists c'. split_and!.
  - by rewrite (connection_run timeout s _ i c Hc), Hrun; simpl; rewrite Hs.
  - intros Hw (now & Hin & Hnow).
    assert (sw_aborted (hc_watch c') = true) as Ha.
    { apply Hlate. right. split; [done |]. apply Exists_exists. exists (SE_Watchdog i, now). split; [by apply events_of_elem |].
      unfold wakes_late. simpl. by apply (Hidle now ms). }
    split; [done |]. by apply Hok'.
  - intros Hsock Hwake.
    assert (sw_aborted (hc_watch c') = false) as Ha.
    { apply Hearly.
      - destruct Hok as (_ & _ & _ & Hab & _). simpl. destruct (sw_aborted (hc_watch c)); [| done].
        destruct Hab as [? _]; [done | congruence].
      - apply Forall_forall. intros [[] now] [Ht He]%events_of_elem; unfold wakes_late; simpl; try tauto; simplify_eq/=.
        pose proof (proj2 (Hidle now ms Ho eq_refl Hms) (Hwake _ He)). lia. }
    split; [done |]. destruct Hok' as (_ & _ & _ & _ & Hsh). destruct (hc_socket c'); [done |]. by rewrite Hsh in Ha.
  - intros returned_at later.
    set (c2 := connection_event timeout (SE_Return i, returned_at) c').
    destruct (returned_stays timeout (events_of i later) c2) as [Ha Hsock];
      [by apply connection_event_ok | unfold c2; simpl; by rewrite Hs' ..|].
    eexists. split_and!; [| rewrite Ha | rewrite Hsock]; [| unfold c2; simpl; by rewrite Hs' ..].
    rewrite (connection_run timeout s _ i c Hc). rewrite events_of_app, Hrun, foldl_app.
    rewrite events_of_cons by done. simpl. by rewrite Hs.
Qed.

Definition toy_before : list (ServerEvent * Instant) :=
  [(SE_Accept (AC_Peer (mkSocketAddr [] 1)) true, 0); (SE_Tls 0 (TL_Stream true), from_secs 1)].
Definition toy_stall : list (ServerEvent * Instant) :=
  [(SE_Pipeline 0 true, from_secs 3); (SE_Accept (AC_Peer (mkSocketAddr [] 2)) true, from_secs 9);
   (SE_Watchdog 0, from_secs 20); (SE_Watchdog 0, from_secs 33)].
Lemma watchdog_aborts_stalled_witness :
  let s := server_run SESSION_STALL_TIMEOUT (HostServer_new false) toy_before in
  exists c c',
    hs_connections s !! 0%nat = Some c /\ sw_aborted (hc_watch c) = false /\
    hs_connections (server_run SESSION_STALL_TIMEOUT s ((SE_Tick 0, from_secs 2) :: toy_stall)) !! 0%nat = Some c' /\
    sw_aborted (hc_watch c') = true /\ hc_socket c' = false.
Proof.
  pose (c := mkConnection (mkSocketAddr [] 1) (from_secs 10) TR_Serving false
               (mkSessionWatch (from_secs 1) 0 (from_millis 30000) false) true true false).
  exists c. destruct (watchdog_aborts_stalled 30000 false toy_before 0 c (from_secs 2) toy_stall) as (c' & Hc' & Hlate & _);
    [lia | by vm_compute | done | by vm_compute | | ].
  { intros now. split; intros Hin; unfold toy_stall in Hin; set_solver. }
  exists c'. destruct Hlate as (Ha & Hs & _); [done | |].
  { exists (from_secs 33). split; [by right; right; right; left | by vm_compute]. }
  split_and!; [by vm_compute | done | exact Hc' | done | done].
Defined.
