(* ===== verification/NativePipeline.v ===== *)
(** * The native media pipeline

    [clients/rust/maho-host/src/native_pipeline.rs]: the hand-off between the capture
    thread, the session and the encoder thread ([Handoff]), the loop of the
    encoder ([run_encoder]) inside the thread of its worker ([Workers::spawn]), the slot
    of the newest audio block ([LatestAudio]), and the times of the submitted frames
    ([FrameTimes]).  Every method of [Handoff] holds the lock from its start to its
    end, or to its wait: it is one step, and the steps of the threads come in any
    order.  The encoder behind the trait [Encoder] answers with packets or an error. *)

From S2P Require Import Prelude.

(** ** The hand-off *)

Record Controls : Type := mkControls { ct_force_keyframe : bool; ct_bitrate : option Z }.
Definition Controls_default : Controls := mkControls false None.

Section Pipeline.

Context {T Output Error : Type}.

Record Work : Type := mkWork { wk_frame : option T; wk_controls : Controls }.

Record Handoff : Type := mkHandoff {
  hf_active : bool;
  hf_stopped : bool;
  hf_frame : option T;
  hf_controls : Controls
}.
Definition Handoff_new : Handoff := mkHandoff false false None Controls_default.

(** [cancelled] is set where [stopped] is. *)
Definition is_stopped (h : Handoff) : bool := hf_stopped h.
Definition activate (h : Handoff) : Handoff := mkHandoff true (hf_stopped h) (hf_frame h) (hf_controls h).
(** [None]: it waits. *)
Definition await_activation (h : Handoff) : option bool :=
  if negb (hf_active h) && negb (hf_stopped h) then None else Some (negb (hf_stopped h)).
Definition publish (frame : T) (h : Handoff) : bool * Handoff :=
  if hf_stopped h then (false, h)
  else (true, mkHandoff (hf_active h) (hf_stopped h) (Some frame) (hf_controls h)).
Definition control (force_keyframe : bool) (bitrate : option Z) (h : Handoff) : bool * Handoff :=
  if hf_stopped h then (false, h)
  else
    let c := hf_controls h in
    (true, mkHandoff (hf_active h) (hf_stopped h) (hf_frame h)
             (mkControls (ct_force_keyframe c || force_keyframe)
                (match bitrate with Some _ => bitrate | None => ct_bitrate c end))).

Definition is_default (c : Controls) : bool :=
  negb (ct_force_keyframe c) && match ct_bitrate c with None => true | Some _ => false end.
Definition has_frame (h : Handoff) : bool := match hf_frame h with Some _ => true | None => false end.
(** [None]: it waits; [Some None]: stopped. *)
Definition next (h : Handoff) : option (option Work) * Handoff :=
  if hf_stopped h then (Some None, h)
  else if has_frame h || negb (is_default (hf_controls h)) then
    (Some (Some (mkWork (hf_frame h) (hf_controls h))), mkHandoff (hf_active h) (hf_stopped h) None Controls_default)
  else (None, h).
(** [None]: stopped. *)
Definition reselect (w : Work) (h : Handoff) : option Work * Handoff :=
  if hf_stopped h then (None, h)
  else
    let c := hf_controls h in
    (Some (mkWork (match hf_frame h with Some f => Some f | None => wk_frame w end)
             (mkControls (ct_force_keyframe (wk_controls w) || ct_force_keyframe c)
                (match ct_bitrate c with Some b => Some b | None => ct_bitrate (wk_controls w) end))),
     mkHandoff (hf_active h) (hf_stopped h) None Controls_default).
Definition stop (h : Handoff) : Handoff := mkHandoff (hf_active h) true None Controls_default.

(** ** The encoder's thread *)

(** What a turn of the thread is answered: the initialisation, or the packets of
    [bitrate] and [encode], of which [emit] accepts those before the one at [refused]. *)
Inductive Answer : Type :=
| AN_Error (e : Error)
| AN_Packets (packets : list Output) (refused : option nat).

(** Where the thread is. *)
Inductive EncoderAt : Type :=
| ET_Await                                   (* [await_activation] *)
| ET_Initialize
| ET_Next
| ET_Bitrate (work : Work)                   (* the top of the inner loop *)
| ET_Reselect (work : Work)
| ET_Submit (work : Work)
| ET_Refused                                 (* [emit] refused: [handoff.stop()] *)
| ET_Exit (result : result Error unit)       (* [run_encoder] has returned; the guard is dropped *)
| ET_Ended (result : result Error unit).

Inductive Effect : Type :=
| NX_Published (frame : T) (accepted : bool)
| NX_Controlled (force_keyframe : bool) (bitrate : option Z) (accepted : bool)
| NX_Stopped
| NX_Bitrate (bitrate : Z)                   (* [encoder.bitrate] *)
| NX_Emitted (packet : Output) (accepted : bool)
| NX_Selected                                (* the work is fixed *)
| NX_ForceKeyframe                           (* [encoder.force_keyframe] *)
| NX_Encode (frame : T).                     (* [encoder.selected], [encoder.encode] *)

(** The loop over the packets: whether all were emitted. *)
Fixpoint emit_all (packets : list Output) (refused : option nat) : list Effect * bool :=
  match packets with
  | [] => ([], true)
  | packet :: packets =>
    match refused with
    | Some O => ([NX_Emitted packet false], false)
    | _ => let '(fx, all) := emit_all packets (pred <$> refused) in (NX_Emitted packet true :: fx, all)
    end
  end.

(** Where the thread goes after a call of the encoder. *)
Definition after_call (a : Answer) (goes_on : EncoderAt) : list Effect * EncoderAt :=
  match a with
  | AN_Error e => ([], ET_Exit (Err e))
  | AN_Packets packets refused =>
    let '(fx, all) := emit_all packets refused in (fx, if all : bool then goes_on else ET_Refused)
  end.

Context (critical : bool).

(** A turn of the thread [Workers::spawn] starts with [run_encoder] as its worker. *)
Definition encoder_turn (a : Answer) (t : EncoderAt) (h : Handoff) : list Effect * (EncoderAt * Handoff) :=
  match t with
  | ET_Await =>
    match await_activation h with
    | None => ([], (t, h))
    | Some false => ([], (ET_Ended (Ok tt), h))
    | Some true => ([], (ET_Initialize, h))
    end
  | ET_Initialize => ([], (match a with AN_Error e => ET_Exit (Err e) | AN_Packets _ _ => ET_Next end, h))
  | ET_Next =>
    let '(work, h) := next h in
    ([], (match work with None => t | Some None => ET_Exit (Ok tt) | Some (Some work) => ET_Bitrate work end, h))
  | ET_Bitrate work =>
    match ct_bitrate (wk_controls work) with
    | Some bitrate =>
      let work := mkWork (wk_frame work) (mkControls (ct_force_keyframe (wk_controls work)) None) in
      let '(fx, t) := after_call a (ET_Reselect work) in (NX_Bitrate bitrate :: fx, (t, h))
    | None => ([], (ET_Reselect work, h))
    end
  | ET_Reselect work =>
    let '(work, h) := reselect work h in
    match work with
    | None => ([], (ET_Exit (Ok tt), h))
    | Some work =>
      match ct_bitrate (wk_controls work) with
      | Some _ => ([], (ET_Bitrate work, h))
      | None => ([NX_Selected], (ET_Submit work, h))
      end
    end
  | ET_Submit work =>
    let forced := if ct_force_keyframe (wk_controls work) then [NX_ForceKeyframe] else [] in
    match wk_frame work with
    | None => (forced, (ET_Next, h))
    | Some frame => let '(fx, t) := after_call a ET_Next in (forced ++ NX_Encode frame :: fx, (t, h))
    end
  | ET_Refused => ([NX_Stopped], (ET_Exit (Ok tt), stop h))
  | ET_Exit result => if critical : bool then ([NX_Stopped], (ET_Ended result, stop h)) else ([], (ET_Ended result, h))
  | ET_Ended _ => ([], (t, h))
  end.

(** ** The threads together *)

Inductive Event : Type :=
| NE_Activate
| NE_Publish (frame : T)                                        (* the capture thread *)
| NE_Control (force_keyframe : bool) (bitrate : option Z)       (* the session *)
| NE_Stop                                                       (* the session, or another worker *)
| NE_Encoder (a : Answer).

Definition pipeline_event (s : EncoderAt * Handoff) (e : Event) : list Effect * (EncoderAt * Handoff) :=
  let '(t, h) := s in
  match e with
  | NE_Activate => ([], (t, activate h))
  | NE_Publish frame => let '(accepted, h) := publish frame h in ([NX_Published frame accepted], (t, h))
  | NE_Control k b => let '(accepted, h) := control k b h in ([NX_Controlled k b accepted], (t, h))
  | NE_Stop => ([NX_Stopped], (t, stop h))
  | NE_Encoder a => encoder_turn a t h
  end.
Fixpoint pipeline_run (s : EncoderAt * Handoff) (events : list Event) : list Effect * (EncoderAt * Handoff) :=
  match events with
  | [] => ([], s)
  | e :: events =>
    let '(fx, s) := pipeline_event s e in
    let '(fx', s) := pipeline_run s events in (fx ++ fx', s)
  end.
Definition pipeline_start : EncoderAt * Handoff := (ET_Await, Handoff_new).

End Pipeline.
Arguments Work : clear implicits.
Arguments Handoff : clear implicits.
Arguments Answer : clear implicits.
Arguments EncoderAt : clear implicits.
Arguments Effect : clear implicits.
Arguments Event : clear implicits.

(** ** The newest audio block *)

Record AudioBlock : Type := mkAudioBlock { ab_pcm : list byte; ab_captured_at : Instant }.
Record LatestAudio : Type := mkLatestAudio { la_block : option AudioBlock; la_notified : bool }.
Definition LatestAudio_default : LatestAudio := mkLatestAudio None false.
Definition MAX_AGE : Duration := from_millis 100.

Definition audio_publish (block : AudioBlock) (s : LatestAudio) : bool * LatestAudio :=
  (negb (la_notified s), mkLatestAudio (Some block) true).
Definition notification_rejected (s : LatestAudio) : LatestAudio := mkLatestAudio (la_block s) false.
Definition take_fresh (now : Instant) (s : LatestAudio) : option AudioBlock * LatestAudio :=
  (match la_block s with
   | Some block => if saturating_duration_since now (ab_captured_at block) <=? MAX_AGE then Some block else None
   | None => None
   end, mkLatestAudio None false).

(** The audio worker of [LinuxMediaSource::start], the channel of media events, and the
    sender thread of the session ([session.rs]): [ap_waiting] notifications wait in the channel. *)
Record AudioPath : Type := mkAudioPath {
  ap_slot : LatestAudio;
  ap_waiting : nat;
  ap_audio_allowed : bool;
  ap_sent : list AudioBlock
}.
Inductive AudioEvent : Type :=
| AV_Captured (block : AudioBlock) (room : bool)   (* [room]: [try_send] finds room *)
| AV_Receive (now : Instant)                       (* the sender's turn *)
| AV_Allowed (audio_allowed : bool).               (* the session stores [audio_allowed] *)

Definition audio_event (s : AudioPath) (e : AudioEvent) : AudioPath :=
  match e with
  | AV_Captured block room =>
    let '(notify, slot) := audio_publish block (ap_slot s) in
    if notify then
      if room : bool then mkAudioPath slot (S (ap_waiting s)) (ap_audio_allowed s) (ap_sent s)
      else mkAudioPath (notification_rejected slot) (ap_waiting s) (ap_audio_allowed s) (ap_sent s)
    else mkAudioPath slot (ap_waiting s) (ap_audio_allowed s) (ap_sent s)
  | AV_Receive now =>
    match ap_waiting s with
    | O => s
    | S waiting =>
      if negb (ap_audio_allowed s) then mkAudioPath (ap_slot s) waiting (ap_audio_allowed s) (ap_sent s)
      else
        let '(block, slot) := take_fresh now (ap_slot s) in
        mkAudioPath slot waiting (ap_audio_allowed s)
          (ap_sent s ++ match block with Some b => [b] | None => [] end)
    end
  | AV_Allowed audio_allowed => mkAudioPath (ap_slot s) (ap_waiting s) audio_allowed (ap_sent s)
  end.
Definition audio_run (s : AudioPath) (events : list AudioEvent) : AudioPath := foldl audio_event s events.
Definition audio_start (audio_allowed : bool) : AudioPath := mkAudioPath LatestAudio_default 0 audio_allowed [].

(** ** The times of the submitted frames *)

Record FrameTimes : Type := mkFrameTimes { fq_pending : gmap Z (Instant * Instant); fq_next_pts : Z }.
Definition FrameTimes_new : FrameTimes := mkFrameTimes ∅ 0.
Definition submitted (capture_at encode_started_at : Instant) (s : FrameTimes) : FrameTimes :=
  mkFrameTimes (<[fq_next_pts s := (capture_at, encode_started_at)]> (fq_pending s)) (fq_next_pts s + 1).
Definition times_take (pts : Z) (s : FrameTimes) : option (Instant * Instant) * FrameTimes :=
  (fq_pending s !! pts, mkFrameTimes (delete pts (fq_pending s)) (fq_next_pts s)).

(** * Theorems *)

(** ** What the encoder is given *)

Section Order.

Context {T Output Error : Type} (critical : bool).

(** What was asked for and not given to the encoder yet, and what was chosen for it. *)
Record Order : Type := mkOrder {
  od_stopped : bool;
  od_frame : option T;            (* the newest frame *)
  od_key : bool;                  (* a key frame was asked for *)
  od_rate : option Z;             (* the last bitrate asked for *)
  od_applied : option Z;          (* the last bitrate the encoder was given *)
  od_chosen : bool * option T
}.
Definition Order_new : Order := mkOrder false None false None None (false, None).

(** When an effect is as it should be. *)
Definition order_ok (o : Order) (fx : Effect T Output) : Prop :=
  match fx with
  | NX_Published _ accepted | NX_Controlled _ _ accepted => accepted = negb (od_stopped o)
  | NX_Selected => od_stopped o = false /\ od_applied o = od_rate o /\ od_chosen o = (false, None)
  | NX_ForceKeyframe => (od_chosen o).1 = true
  | NX_Encode frame => od_chosen o = (false, Some frame)
  | NX_Stopped | NX_Bitrate _ | NX_Emitted _ _ => True
  end.
Definition order_after (o : Order) (fx : Effect T Output) : Order :=
  match fx with
  | NX_Published frame accepted =>
    mkOrder (od_stopped o) (if accepted then Some frame else od_frame o) (od_key o) (od_rate o) (od_applied o) (od_chosen o)
  | NX_Controlled force_keyframe bitrate accepted =>
    mkOrder (od_stopped o) (od_frame o) (od_key o || accepted && force_keyframe)
      (if accepted then match bitrate with Some _ => bitrate | None => od_rate o end else od_rate o) (od_applied o) (od_chosen o)
  | NX_Stopped => mkOrder true (od_frame o) (od_key o) (od_rate o) (od_applied o) (od_chosen o)
  | NX_Bitrate bitrate => mkOrder (od_stopped o) (od_frame o) (od_key o) (od_rate o) (Some bitrate) (od_chosen o)
  | NX_Selected => mkOrder (od_stopped o) None false (od_rate o) (od_applied o) (od_key o, od_frame o)
  | NX_ForceKeyframe => mkOrder (od_stopped o) (od_frame o) (od_key o) (od_rate o) (od_applied o) (false, (od_chosen o).2)
  | NX_Encode _ => mkOrder (od_stopped o) (od_frame o) (od_key o) (od_rate o) (od_applied o) (false, None)
  | NX_Emitted _ _ => o
  end.
Fixpoint follows (o : Order) (log : list (Effect T Output)) : Prop :=
  match log with
  | [] => True
  | fx :: log => order_ok o fx /\ follows (order_after o fx) log
  end.
Lemma follows_app o fx log : follows o (fx ++ log) <-> follows o fx /\ follows (foldl order_after o fx) log.
Proof. revert o. induction fx as [| x fx IH]; intros o; simpl; [tauto |]. rewrite IH. tauto. Qed.

Lemma emit_all_order o packets refused :
  follows o (@emit_all T Output packets refused).1 /\ foldl order_after o (@emit_all T Output packets refused).1 = o.
Proof.
  revert refused. induction packets as [| p packets IH]; intros refused; [done |].
  destruct (IH (pred <$> refused)) as [Hf Ho]. simpl.
  destruct refused as [[| n] |]; try done; simpl in *; destruct (emit_all packets _); done.
Qed.
Lemma after_call_order o (a : Answer Output Error) goes_on :
  follows o (@after_call T Output Error a goes_on).1 /\ foldl order_after o (@after_call T Output Error a goes_on).1 = o /\
  let t := (after_call a goes_on).2 in t = goes_on \/ t = ET_Refused \/ exists e, t = ET_Exit (Err e).
Proof.
  destruct a as [e | packets refused]; simpl; [naive_solver |].
  destruct (emit_all_order o packets refused). destruct (emit_all packets refused) as [fx []]; naive_solver.
Qed.

(** *** The hand-off and the thread hold what the order says *)

Definition work_of (t : EncoderAt T Error) : Work T :=
  match t with ET_Bitrate w | ET_Reselect w => w | _ => mkWork None Controls_default end.
Definition chosen_of (t : EncoderAt T Error) : bool * option T :=
  match t with ET_Submit w => (ct_force_keyframe (wk_controls w), wk_frame w) | _ => (false, None) end.
Definition first_some {A} (x y : option A) : option A := match x with Some _ => x | None => y end.

Definition alive (t : EncoderAt T Error) : Prop :=
  match t with ET_Refused | ET_Exit _ | ET_Ended _ => False | _ => True end.

Record holds (s : EncoderAt T Error * Handoff T) (o : Order) : Prop := {
  holds_stopped : hf_stopped s.2 = od_stopped o;
  holds_chosen : od_chosen o = chosen_of s.1;
  holds_frame : od_stopped o = false -> alive s.1 -> od_frame o = first_some (hf_frame s.2) (wk_frame (work_of s.1));
  holds_key : od_stopped o = false -> alive s.1 ->
    od_key o = ct_force_keyframe (hf_controls s.2) || ct_force_keyframe (wk_controls (work_of s.1));
  holds_rate : od_stopped o = false -> alive s.1 ->
    od_rate o = first_some (ct_bitrate (hf_controls s.2)) (first_some (ct_bitrate (wk_controls (work_of s.1))) (od_applied o))
}.

Lemma holds_turn t h o (a : Answer Output Error) :
  holds (t, h) o ->
  let r := encoder_turn critical a t h in
  follows o r.1 /\ holds r.2 (foldl order_after o r.1).
Proof.
  intros [Hs Hc Hf Hk Hr]. destruct h as [active stopped frame [key rate]], o as [stopped' oframe okey orate applied chosen].
  simpl in *. subst stopped' chosen.
  destruct t as [| | | [wf [wk wr]] | [wf [wk wr]] | [wf [wk wr]] | | r | r]; simpl in *.
  - unfold await_activation. simpl. destruct active, stopped; split; try done; by constructor.
  - destruct a; split; try done; by constructor.
  - unfold next, has_frame, is_default. simpl. destruct stopped; [split; [done |]; by constructor |].
    destruct frame, key, rate; simpl; split; try done; constructor; try done; simpl; intros; rewrite ?Hf, ?Hk, ?Hr; by simpl.
  - destruct wr as [b |]; simpl.
    + destruct (after_call_order (mkOrder stopped oframe okey orate (Some b) (false, None)) a
        (ET_Reselect (mkWork wf (mkControls wk None)))) as (Hfx & Ho & Ht).
      destruct (after_call a _) as [fx t]; simpl in *. rewrite Ho. split; [done |].
      destruct Ht as [-> | [-> | [e ->]]]; by constructor.
    + split; [done |]. by constructor.
  - unfold reselect. simpl. destruct stopped; [split; [done |]; by constructor |].
    specialize (Hf eq_refl I). specialize (Hk eq_refl I). specialize (Hr eq_refl I).
    destruct rate as [b |], wr as [wr |]; simpl in *; subst.
    all: split; [done |]; constructor; simpl; try done; intros; try by destruct frame; try by destruct key, wk.
  - assert (Hplain : forall o, (od_chosen o = (false, wf) /\ od_stopped o = stopped /\
      (stopped = false -> od_frame o = frame /\ od_key o = key /\ od_rate o = first_some rate (od_applied o))) ->
      match wf with
      | None => holds (ET_Next, mkHandoff active stopped frame (mkControls key rate)) o
      | Some f => forall fx (t : EncoderAt T Error), after_call a ET_Next = (fx, t) ->
          order_ok o (NX_Encode f) /\ follows (order_after o (NX_Encode f)) fx /\
          holds (t, mkHandoff active stopped frame (mkControls key rate))
            (foldl order_after (order_after o (NX_Encode f)) fx)
      end).
    { intros [st' fr' k' r' ap' ch'] (Hch & Hst & Hrest). simpl in *. subst ch' st'. destruct wf as [f |].
      - intros fx t Ha.
        destruct (after_call_order (mkOrder stopped fr' k' r' ap' (false, None)) a ET_Next) as (Hfx & Ho & Ht).
        rewrite Ha in Hfx, Ho, Ht. simpl in *. rewrite Ho. split_and!; [done | done |].
        destruct Ht as [-> | [-> | [e ->]]]; constructor; simpl; try done; intros; destruct Hrest as (-> & -> & ->); try done;
          first [by destruct frame | by rewrite orb_false_r | by destruct rate].
      - constructor; simpl; try done; intros; destruct Hrest as (-> & -> & ->); try done;
          first [by destruct frame | by rewrite orb_false_r | by destruct rate]. }
    specialize (Hplain (mkOrder stopped oframe okey orate applied (false, wf))). simpl in Hplain.
    specialize (Hplain ltac:(split_and!; [done | done |]; intros Hst; rewrite (Hf Hst I), (Hk Hst I), (Hr Hst I);
      split_and!; [by destruct frame | by rewrite orb_false_r | done])).
    destruct wf as [f |].
    + destruct (after_call a ET_Next) as [fx t]. destruct (Hplain fx t eq_refl) as (? & ? & ?).
      destruct wk; simpl; split_and!; done.
    + by destruct wk.
  - split; [done |]. by constructor.
  - destruct critical; split; try done; by constructor.
  - split; [done |]. by constructor.
Qed.

Lemma holds_event s o (e : Event T Output Error) :
  holds s o -> let r := pipeline_event critical s e in follows o r.1 /\ holds r.2 (foldl order_after o r.1).
Proof.
  intros Hh. destruct s as [t h], e as [| f | k b | | a]; simpl; [| | | | by apply holds_turn].
  all: destruct Hh as [Hs Hc Hf Hk Hr], h as [active stopped frame [key rate]], o as [stopped' oframe okey orate applied chosen];
    simpl in *; subst stopped' chosen.
  - split; [done |]. by constructor.
  - unfold publish. simpl. destruct stopped; (split; [done |]); by constructor.
  - unfold control. simpl. destruct stopped; (split; [done |]); constructor; simpl; try done; intros _ Ha.
    + rewrite (Hk eq_refl Ha). by destruct key, k, (ct_force_keyframe _).
    + rewrite (Hr eq_refl Ha). by destruct b.
  - split; [done |]. by constructor.
Qed.
Lemma holds_run s o (events : list (Event T Output Error)) :
  holds s o -> let r := pipeline_run critical s events in follows o r.1 /\ holds r.2 (foldl order_after o r.1).
Proof.
  revert s o. induction events as [| e events IH]; intros s o Hh; [done |]. simpl.
  destruct (holds_event s o e Hh) as [Hfx Hh']. destruct (pipeline_event critical s e) as [fx s']; simpl in *.
  destruct (IH _ _ Hh') as [Hl Hh'']. destruct (pipeline_run critical s' events) as [fx' s'']; simpl in *.
  rewrite follows_app, foldl_app. done.
Qed.
Lemma holds_start : holds pipeline_start Order_new.
Proof. by constructor. Qed.

End Order.

(** C11: Whatever frames, key frame requests, bitrates and stops come from the other threads, in
    whatever order with the turns of the encoder's thread, and whatever the encoder and the
    channel answer, the encoder is given what was asked for: what it is submitted is, at the
    moment its work is fixed, the newest frame published and not submitted before, with a key
    frame forced before it exactly when one was asked for since the last, at the last bitrate
    asked for; only unencoded frames are superseded; nothing is chosen once the hand-off is
    stopped, and nothing accepted after it. *)
Theorem encoder_gets_newest {T Output Error : Type} (critical : bool) (events : list (Event T Output Error)) :
  follows Order_new (pipeline_run critical pipeline_start events).1.
Proof. apply (holds_run critical _ _ events holds_start). Qed.

(** ** The encoder is reached, and ends *)

Definition ready {T Output Error : Type} (packets : list Output) : Event T Output Error :=
  NE_Encoder (AN_Packets packets None).
Definition is_encode {T Output : Type} (fx : Effect T Output) : bool := match fx with NX_Encode _ => true | _ => false end.

Section Progress.

Context {T Output Error : Type} (critical : bool) (frame : T) (packets : list Output).

Lemma emit_all_accepted : @emit_all T Output packets None = ((@emit_all T Output packets None).1, true).
Proof. induction packets as [| p l IH]; [done |]. simpl in *. by rewrite IH. Qed.
Lemma after_call_ready (goes_on : EncoderAt T Error) :
  after_call (AN_Packets packets None) goes_on = ((@emit_all T Output packets None).1, goes_on).
Proof. simpl. by rewrite emit_all_accepted. Qed.

Definition encodes (n : nat) (t : EncoderAt T Error) (h : Handoff T) : Prop :=
  NX_Encode frame ∈ (pipeline_run critical (t, h) (replicate n (ready packets))).1.
Lemma encodes_submit n c h : encodes (S n) (ET_Submit (mkWork (Some frame) c)) h.
Proof.
  unfold encodes. simpl. rewrite emit_all_accepted. destruct (pipeline_run _ _ _) as [fx s]. simpl.
  apply elem_of_app. left. apply elem_of_app. right. by left.
Qed.
Lemma encodes_turn n t h s :
  (encoder_turn critical (AN_Packets packets None) t h).2 = s -> encodes n s.1 s.2 -> encodes (S n) t h.
Proof.
  intros <-. unfold encodes, ready. cbn [replicate pipeline_run pipeline_event].
  destruct (encoder_turn critical _ t h) as [fx [t' h']]. simpl. destruct (pipeline_run _ _ _) as [fx' s].
  simpl. intros Hin. apply elem_of_app. by right.
Qed.

End Progress.

(** The turns that are left once the hand-off is stopped. *)
Definition turns_left {T Error : Type} (t : EncoderAt T Error) : nat :=
  match t with
  | ET_Ended _ => 0
  | ET_Await | ET_Exit _ => 1
  | ET_Next | ET_Reselect _ | ET_Refused => 2
  | ET_Initialize | ET_Bitrate _ | ET_Submit _ => 3
  end.
Lemma stopped_turn {T Output Error : Type} (critical : bool) (a : Answer Output Error) (t : EncoderAt T Error) h :
  hf_stopped h = true ->
  let s := (encoder_turn critical a t h).2 in hf_stopped s.2 = true /\ (turns_left s.1 <= pred (turns_left t))%nat.
Proof.
  destruct h as [active stopped frame [key rate]]. simpl. intros ->.
  assert (Hcall : forall goes_on : EncoderAt T Error, (turns_left goes_on <= 2)%nat ->
      (turns_left (after_call a goes_on).2 <= 2)%nat).
  { intros goes_on Hg. destruct (after_call_order (T := T) Order_new a goes_on) as (_ & _ & [-> | [-> | [e ->]]]); simpl; lia. }
  Opaque after_call.
  destruct t as [| | | [wf [wk [wr |]]] | [wf [wk wr]] | [[wf |] [wk wr]] | | r | r]; simpl.
  - destruct active; simpl; split; (done || lia).
  - destruct a; simpl; split; (done || lia).
  - split; (done || lia).
  - destruct (after_call a _) as [fx t] eqn:Ht; simpl. split; [done |].
    pose proof (Hcall (ET_Reselect (mkWork wf (mkControls wk None)))) as Hg. rewrite Ht in Hg. simpl in Hg. lia.
  - split; (done || lia).
  - split; (done || lia).
  - destruct (after_call a _) as [fx t] eqn:Ht; simpl. split; [done |].
    pose proof (Hcall ET_Next) as Hg. rewrite Ht in Hg. simpl in Hg. lia.
  - split; (done || lia).
  - split; (done || lia).
  - destruct critical; simpl; split; (done || lia).
  - split; (done || lia).
Qed.
Lemma stopped_turns {T Output Error : Type} (critical : bool) (answers : list (Answer Output Error)) :
  forall (t : EncoderAt T Error) h,
  hf_stopped h = true ->
  (turns_left (pipeline_run critical (t, h) (map NE_Encoder answers)).2.1 <= turns_left t - length answers)%nat.
Proof.
  induction answers as [| a answers IH]; intros t h Hs; [simpl; lia |].
  destruct (stopped_turn critical a t h Hs) as [Hs' Hl]. cbn [map pipeline_run pipeline_event length].
  destruct (encoder_turn critical a t h) as [fx [t' h']]. simpl in *. specialize (IH t' h' Hs').
  destruct (pipeline_run _ _ _) as [fx' s]. simpl in *. lia.
Qed.

(** C23: Liveness of the pipeline.  After any history: a frame published to an activated
    pipeline that is not stopped, while the encoder's thread has not left its loop, is
    encoded within six turns of that thread, if meanwhile the encoder and the channel accept
    and nothing else is published, asked for or stopped.  And once the hand-off is stopped, the
    thread ends within three of its turns, whatever it is answered. *)
Theorem pipeline_progresses {T Output Error : Type} (critical : bool) (events : list (Event T Output Error)) :
  let '(t, h) := (pipeline_run critical pipeline_start events).2 in
  (forall frame (packets : list Output), hf_active h = true -> hf_stopped h = false -> alive t ->
     NX_Encode frame ∈ (pipeline_run critical (t, h) (NE_Publish frame :: replicate 6 (ready packets))).1) /\
  (hf_stopped h = true -> forall answers : list (Answer Output Error), length answers = 3%nat ->
     exists r, (pipeline_run critical (t, h) (map NE_Encoder answers)).2.1 = ET_Ended r).
Proof.
  destruct (pipeline_run critical pipeline_start events).2 as [t [active stopped slot [key rate]]]. split.
  - intros frame packets Ha Hs Ht. simpl in Ha, Hs. subst active stopped.
    cbn [pipeline_run pipeline_event publish hf_stopped].
    assert (encodes (Error := Error) critical frame packets 6 t (mkHandoff true false (Some frame) (mkControls key rate))) as Hen.
    { Opaque after_call.
      destruct t as [| | | [wf [wk [wr |]]] | [wf [wk [wr |]]] | [[wf |] [wk wr]] | | r | r]; try done; destruct rate.
      all: repeat first [apply encodes_submit
        | eapply encodes_turn; [simpl; try rewrite after_call_ready; reflexivity |]; cbn [fst snd]]. }
    unfold encodes, ready in *. destruct (pipeline_run _ _ _) as [fx s]. simpl in *. by right.
  - intros Hs answers Hl. simpl in Hs.
    pose proof (stopped_turns critical answers t (mkHandoff active stopped slot (mkControls key rate)) Hs) as Hend.
    assert (turns_left t <= 3)%nat by (destruct t; simpl; lia).
    destruct (pipeline_run _ _ _).2.1 as [| | | w | w | w | | r | r]; simpl in *; try lia. by exists r.
Qed.
Lemma pipeline_progresses_witness :
  let history := [NE_Activate; NE_Control false (Some 8); NE_Encoder (AN_Packets [] None); NE_Encoder (AN_Packets [] None);
                  NE_Encoder (AN_Packets [] None); NE_Control true (Some 4)] : list (Event Z Z unit) in
  let '(t, h) := (pipeline_run true pipeline_start history).2 in
  (pipeline_run true (t, h) (NE_Publish 1 :: replicate 6 (ready [2]))).1 =
    [NX_Published 1 true; NX_Bitrate 8; NX_Emitted 2 true; NX_Bitrate 4; NX_Emitted 2 true; NX_Selected; NX_ForceKeyframe;
     NX_Encode 1; NX_Emitted 2 true] /\
  NX_Encode 1 ∈ (pipeline_run true (t, h) (NE_Publish 1 :: replicate 6 (ready [2]))).1.
Proof.
  split; [by vm_compute |].
  apply (pipeline_progresses true
    ([NE_Activate; NE_Control false (Some 8); NE_Encoder (AN_Packets [] None); NE_Encoder (AN_Packets [] None);
      NE_Encoder (AN_Packets [] None); NE_Control true (Some 4)] : list (Event Z Z unit))); by vm_compute.
Defined.

(** ** The audio path *)

Definition keeps_allowed (e : AudioEvent) : Prop := match e with AV_Allowed audio_allowed => audio_allowed = true | _ => True end.

(** At most one notification waits, and only while the slot is marked. *)
Definition path_ok (s : AudioPath) : Prop :=
  (ap_waiting s <= 1)%nat /\ (ap_waiting s = 1%nat -> la_notified (ap_slot s) = true).
Lemma path_ok_event s e : path_ok s -> path_ok (audio_event s e).
Proof.
  destruct s as [[block notified] waiting allowed sent]. unfold path_ok. simpl. intros [Hw Hn].
  destruct e as [b room | now | allowed']; simpl; [| | done].
  - destruct notified; simpl; [done |]. assert (waiting = 0%nat) as -> by (destruct waiting as [| [|]]; [done | by specialize (Hn eq_refl) | lia]).
    destruct room; simpl; split; (lia || done).
  - destruct waiting as [| waiting]; [done |]. assert (waiting = 0%nat) as -> by lia.
    destruct allowed; simpl; split; (lia || done).
Qed.
Lemma path_ok_run s events : path_ok s -> path_ok (audio_run s events).
Proof. revert s. induction events as [| e events IH]; intros s Hs; [done |]. by apply IH, path_ok_event. Qed.

(** While audio is allowed, a marked slot has its notification. *)
Lemma allowed_run s events :
  path_ok s -> ap_audio_allowed s = true -> (la_notified (ap_slot s) = true -> ap_waiting s = 1%nat) ->
  Forall keeps_allowed events ->
  let s' := audio_run s events in
  ap_audio_allowed s' = true /\ (la_notified (ap_slot s') = true -> ap_waiting s' = 1%nat).
Proof.
  revert s. induction events as [| e events IH]; intros s Hok Ha Hn He; [done |].
  apply Forall_cons in He as [He Hevents]. simpl.
  assert (ap_audio_allowed (audio_event s e) = true /\
    (la_notified (ap_slot (audio_event s e)) = true -> ap_waiting (audio_event s e) = 1%nat)) as [Ha' Hn'];
    [| by apply IH; [apply path_ok_event | ..]].
  destruct s as [[block notified] waiting allowed sent], Hok as [Hw Hm]. simpl in *. subst allowed.
  destruct e as [b room | now | allowed]; simpl in *.
  - destruct notified; simpl; [done |]. destruct room; simpl; [| done].
    split; [done |]. destruct waiting as [| [|]]; [done | by specialize (Hm eq_refl) | lia].
  - destruct waiting as [| waiting]; done.
  - subst allowed. done.
Qed.

(** A slot that is marked without a notification stays so. *)
Definition deaf (s : AudioPath) : Prop := la_notified (ap_slot s) = true /\ ap_waiting s = 0%nat.
Lemma deaf_run s events : deaf s -> ap_sent (audio_run s events) = ap_sent s.
Proof.
  revert s. induction events as [| e events IH]; intros s Hd; [done |]. simpl.
  destruct s as [[block notified] waiting allowed sent], Hd as [Hn Hw]; simpl in *; subst.
  destruct e; simpl; by rewrite IH.
Qed.

(** The newest audio block is sent, until audio is revoked once.  As long as audio is
    allowed, whatever is captured, and whether or not the channel had room before: a block that is captured when
    there is room is sent at the sender's next turn, unless it is older than 100 ms by then.
    But the sender drops the notification of a block captured while audio is not
    allowed, without clearing the slot's mark: after that nothing is ever sent again, also
    when audio is allowed again. *)
Theorem audio_ends_when_revoked (events : list AudioEvent) (allowed : bool) :
  let s := audio_run (audio_start allowed) events in
  (allowed = true -> Forall keeps_allowed events -> forall block now,
     saturating_duration_since now (ab_captured_at block) <= MAX_AGE ->
     ap_sent (audio_run s [AV_Captured block true; AV_Receive now]) = ap_sent s ++ [block]) /\
  (ap_audio_allowed s = false -> ap_waiting s <> 0%nat -> forall now later,
     ap_sent (audio_run s (AV_Receive now :: later)) = ap_sent s).
Proof.
  intros s. assert (Hok : path_ok s) by (apply path_ok_run; split; [simpl; lia | done]). split.
  - intros -> Hevents block now Hage.
    destruct (allowed_run (audio_start true) events) as [Ha Hn]; [split; [simpl; lia | done] | done | done | done |].
    fold s in Ha, Hn. destruct s as [[b notified] waiting al sent]; simpl in *; subst al.
    apply Z.leb_le in Hage.
    destruct notified; [rewrite Hn by done |]; simpl; by rewrite Hage.
  - intros Ha Hw now later. destruct s as [[b notified] waiting al sent]; simpl in *; subst al.
    destruct Hok as [Hw' Hn]; simpl in *. destruct waiting as [| [|]]; [done | | lia]. simpl.
    rewrite deaf_run; [done |]. split; [by apply Hn | done].
Qed.
Definition toy_block (t : Z) : AudioBlock := mkAudioBlock [Byte.x01] (from_millis t).
Definition toy_revoked : list AudioEvent := [AV_Captured (toy_block 0) true; AV_Receive (from_millis 5); AV_Captured (toy_block 10) true; AV_Allowed false].
Lemma audio_ends_when_revoked_witness :
  ap_sent (audio_run (audio_start true) [AV_Captured (toy_block 0) true; AV_Receive (from_millis 5)]) = [toy_block 0] /\
  ap_sent (audio_run (audio_run (audio_start true) toy_revoked)
    (AV_Receive (from_millis 15) :: [AV_Allowed true; AV_Captured (toy_block 20) true; AV_Receive (from_millis 21)])) =
  ap_sent (audio_run (audio_start true) toy_revoked).
Proof.
  split.
  - apply (proj1 (audio_ends_when_revoked [] true) eq_refl (Forall_nil_2 _) (toy_block 0) (from_millis 5)). by vm_compute.
  - by apply (proj2 (audio_ends_when_revoked toy_revoked true)).
Defined.

(** ** The times of the frames *)

Inductive TimesOp : Type := TO_Submitted (times : Instant * Instant) | TO_Take (pts : Z).
Definition times_op (s : FrameTimes) (op : TimesOp) : FrameTimes :=
  match op with TO_Submitted times => submitted times.1 times.2 s | TO_Take pts => (times_take pts s).2 end.
Definition submissions (ops : list TimesOp) : list (Instant * Instant) :=
  omap (fun op => match op with TO_Submitted times => Some times | TO_Take _ => None end) ops.

Lemma times_next ops : fq_next_pts (foldl times_op FrameTimes_new ops) = len (submissions ops).
Proof.
  induction ops as [| op ops IH] using rev_ind; [done |]. unfold submissions in *. rewrite foldl_snoc, omap_app.
  destruct op as [times | pts]; simpl; rewrite ?len_app, IH; unfold len; simpl; lia.
Qed.
Lemma times_pending ops pts :
  0 <= pts -> TO_Take pts ∉ ops -> fq_pending (foldl times_op FrameTimes_new ops) !! pts = submissions ops !! Z.to_nat pts.
Proof.
  intros Hp. induction ops as [| op ops IH] using rev_ind; intros Hnot.
  { simpl. by rewrite lookup_empty. }
  rewrite elem_of_app, list_elem_of_singleton in Hnot. unfold submissions in *. rewrite foldl_snoc, omap_app.
  pose proof (times_next ops) as Hn. unfold submissions in Hn. destruct op as [[c e] | k]; simpl.
  - rewrite Hn. destruct (decide (pts = len (omap (fun op => match op with TO_Submitted times => Some times | TO_Take _ => None end) ops))) as [-> | Hne].
    + rewrite lookup_insert_eq, lookup_app_r by (unfold len; lia). unfold len. by rewrite Nat2Z.id, Nat.sub_diag.
    + rewrite lookup_insert_ne, IH by (done || tauto). unfold len in Hne.
      destruct (decide (Z.to_nat pts < length (omap (fun op => match op with TO_Submitted times => Some times | TO_Take _ => None end) ops))%nat).
      * by rewrite lookup_app_l.
      * rewrite lookup_ge_None_2 by lia. symmetry. apply lookup_ge_None_2. rewrite length_app. simpl. lia.
  - rewrite app_nil_r, lookup_delete_ne, IH by (done || naive_solver). done.
Qed.
Lemma times_taken ops ops' pts :
  pts < len (submissions ops) ->
  fq_pending (foldl times_op FrameTimes_new (ops ++ TO_Take pts :: ops')) !! pts = None.
Proof.
  intros Hp. induction ops' as [| op ops' IH] using rev_ind.
  - rewrite foldl_snoc. simpl. apply lookup_delete_eq.
  - rewrite app_comm_cons, app_assoc, foldl_snoc. destruct op as [[c e] | k]; simpl.
    + rewrite lookup_insert_ne, IH; [done |]. rewrite times_next. unfold submissions in *. rewrite omap_app, len_app.
      unfold len in *. lia.
    + rewrite lookup_delete_None. by right.
Qed.

(** An output is labelled with the times of the input whose number it bears, and only once. *)
Theorem output_times_exact ops ops' pts :
  0 <= pts < len (submissions ops) -> TO_Take pts ∉ ops ->
  (times_take pts (foldl times_op FrameTimes_new ops)).1 = submissions ops !! Z.to_nat pts /\
  (times_take pts (foldl times_op FrameTimes_new (ops ++ TO_Take pts :: ops'))).1 = None.
Proof. intros Hp Hnot. split; [apply times_pending; [lia | done] | apply times_taken; lia]. Qed.
