(* ===== verification/DesktopMedia.v ===== *)
(** * The desktop client's media pipeline

    [clients/rust/tauri-shell/src-tauri/src/lib.rs]: [run_media_pipeline] with its receiver
    and its decoder thread around a [FrameQueue], [decode_media_frame], the frames
    as the webview gets them (the closure of [connect_session]), and [FrameMailbox].
    The threads interleave between any two accesses to the queue and the stop flag.
    The decoder of the library is known by its answers; [CursorState] has the fields of a
    [CursorUpdate]. *)

From S2P Require Import Prelude Codec Media Assembler FrameQueue.

(** ** The pipeline *)

(** What [receive] returns. *)
Inductive Receive : Type :=
| RA_Frame (frame : QueuedFrame)
| RA_Event                        (* another event *)
| RA_TimedOut                     (* [TimedOut], [WouldBlock] *)
| RA_NotReady
| RA_Error.

(** What the decoder answers to [from_keyframe_auto] and [decode]. *)
Inductive Decoding : Type := DA_CreateFailed | DA_DecodeFailed | DA_Decoded.

(** Where the threads are. *)
Inductive ReceiverAt : Type := RX_Loop | RX_Receive | RX_Failed | RX_Close | RX_Join | RX_Done.
Inductive DecoderAt : Type := DX_Recv | DX_Check (frame : QueuedFrame) | DX_Decode (frame : QueuedFrame) | DX_Failed | DX_Ended.

(** [mp_codec]: [decoder] is [Some]. *)
Record MediaPipeline : Type := mkMediaPipeline {
  mp_stop : bool;
  mp_queue : FrameQueueState;
  mp_codec : bool;
  mp_receiver : ReceiverAt;
  mp_decoder : DecoderAt
}.
Definition MediaPipeline_new : MediaPipeline := mkMediaPipeline false FrameQueue_new false RX_Loop DX_Recv.

Inductive MediaEffect : Type :=
| MX_Create (frame : QueuedFrame)      (* [HevcDecoder::from_keyframe_auto] *)
| MX_Decode (frame : QueuedFrame)      (* [dec.decode] *)
| MX_Decoded (frame : QueuedFrame)     (* its frames go to the mailbox *)
| MX_Failed
| MX_Request                           (* [RequestKeyFrame] *)
| MX_Other.

Definition request_keyframe (b : bool) : list MediaEffect := if b then [MX_Request] else [].

(** A turn of the receiver. *)
Definition receiver_turn (answer : Receive) (s : MediaPipeline) : list MediaEffect * MediaPipeline :=
  let goto at_ := mkMediaPipeline (mp_stop s) (mp_queue s) (mp_codec s) at_ (mp_decoder s) in
  match mp_receiver s with
  | RX_Loop => ([], goto (if mp_stop s then RX_Close else RX_Receive))
  | RX_Receive =>
    match answer with
    | RA_Frame frame =>
      match push (mp_queue s) frame with
      | (Ok request, queue) =>
        (request_keyframe request, mkMediaPipeline (mp_stop s) queue (mp_codec s) RX_Loop (mp_decoder s))
      | (Err _, queue) => ([], mkMediaPipeline (mp_stop s) queue (mp_codec s) RX_Close (mp_decoder s))
      end
    | RA_Event => ([MX_Other], goto RX_Loop)
    | RA_TimedOut => ([], goto RX_Loop)
    | RA_NotReady => ([], goto RX_Close)
    | RA_Error => ([], goto RX_Failed)
    end
  | RX_Failed => ([], goto (if mp_stop s then RX_Close else RX_Loop))
  | RX_Close => ([], mkMediaPipeline (mp_stop s) (stop (mp_queue s)) (mp_codec s) RX_Join (mp_decoder s))
  | RX_Join => ([], goto (match mp_decoder s with DX_Ended => RX_Done | _ => RX_Join end))
  | RX_Done => ([], s)
  end.

(** [decode_media_frame]: what it calls, whether it succeeds, and whether there is a decoder then. *)
Definition decode_media_frame (answer : Decoding) (codec : bool) (frame : QueuedFrame) : list MediaEffect * bool * bool :=
  let created := if codec then [] else [MX_Create frame] in
  match codec, answer with
  | false, DA_CreateFailed => (created, false, false)
  | _, DA_Decoded => (created ++ [MX_Decode frame], true, true)
  | _, _ => (created ++ [MX_Decode frame], false, false)
  end.

(** A turn of the decoder's thread. *)
Definition decoder_turn (answer : Decoding) (s : MediaPipeline) : list MediaEffect * MediaPipeline :=
  let goto queue codec at_ := mkMediaPipeline (mp_stop s) queue codec (mp_receiver s) at_ in
  match mp_decoder s with
  | DX_Recv =>
    let '(received, queue) := recv (mp_queue s) in
    ([], goto queue (mp_codec s)
           (match received with None => DX_Recv | Some (Err _) => DX_Ended | Some (Ok frame) => DX_Check frame end))
  | DX_Check frame => ([], goto (mp_queue s) (mp_codec s) (if mp_stop s then DX_Ended else DX_Decode frame))
  | DX_Decode frame =>
    let '(fx, ok, codec) := decode_media_frame answer (mp_codec s) frame in
    if ok : bool then (fx ++ [MX_Decoded frame], goto (mp_queue s) codec DX_Recv)
    else (fx ++ [MX_Failed], goto (mp_queue s) codec DX_Failed)
  | DX_Failed =>
    let '(request, queue) := decode_failed (mp_queue s) in (request_keyframe request, goto queue (mp_codec s) DX_Recv)
  | DX_Ended => ([], s)
  end.

Inductive MediaEvent : Type :=
| ME_Receiver (answer : Receive)
| ME_Decoder (answer : Decoding)
| ME_Stop.                               (* [disconnect_with_stop] *)
Definition media_event (s : MediaPipeline) (e : MediaEvent) : list MediaEffect * MediaPipeline :=
  match e with
  | ME_Receiver answer => receiver_turn answer s
  | ME_Decoder answer => decoder_turn answer s
  | ME_Stop => ([], mkMediaPipeline true (mp_queue s) (mp_codec s) (mp_receiver s) (mp_decoder s))
  end.
Fixpoint media_run (s : MediaPipeline) (events : list MediaEvent) : list MediaEffect * MediaPipeline :=
  match events with
  | [] => ([], s)
  | e :: events =>
    let '(fx, s) := media_event s e in
    let '(fx', s) := media_run s events in (fx ++ fx', s)
  end.

(** ** A decoded frame for the webview *)

Record Nv12Frame : Type := mkNv12Frame {
  nv_width : Z;
  nv_height : Z;
  nv_timestamp_ms : Z;
  nv_y_plane : list byte;
  nv_uv_plane : list byte
}.
Definition div_ceil (a b : Z) : Z := (a + b - 1) / b.
Definition y_len (f : Nv12Frame) : Z := nv_width f * nv_height f.
Definition uv_len (f : Nv12Frame) : Z := nv_width f * div_ceil (nv_height f) 2.

(** The first [n] bytes of a plane, or the plane and what [resize] fills it up with. *)
Definition fill_plane (plane : list byte) (n : Z) (fill : byte) : list byte :=
  if n <=? len plane then take (Z.to_nat n) plane else plane ++ replicate (Z.to_nat (n - len plane)) fill.
Definition frame_buffer (f : Nv12Frame) (cursor : CursorUpdate) : list byte :=
  le_bytes 4 (nv_width f) ++ le_bytes 4 (nv_height f) ++ le_bytes 8 (nv_timestamp_ms f mod 2 ^ 64) ++
  fill_plane (nv_y_plane f) (y_len f) Byte.x00 ++ fill_plane (nv_uv_plane f) (uv_len f) Byte.x80 ++
  le_bytes 4 (cu_x cursor) ++ le_bytes 4 (cu_y cursor) ++ le_bytes 1 (cu_cursor_type cursor).

Record RawNv12Payload : Type := mkRawNv12Payload {
  rp_width : Z;
  rp_height : Z;
  rp_timestamp_ms : Z;
  rp_buffer : list byte
}.
Definition payload_of (f : Nv12Frame) (cursor : CursorUpdate) : RawNv12Payload :=
  mkRawNv12Payload (nv_width f) (nv_height f) (nv_timestamp_ms f) (frame_buffer f cursor).

(** ** The mailbox *)

Record FrameMailbox : Type := mkFrameMailbox { mb_latest : option RawNv12Payload; mb_pending_display : bool }.
Definition FrameMailbox_default : FrameMailbox := mkFrameMailbox None false.
Definition mailbox_publish (payload : RawNv12Payload) (m : FrameMailbox) : FrameMailbox := mkFrameMailbox (Some payload) true.
Definition take_snapshot (m : FrameMailbox) : option RawNv12Payload * FrameMailbox :=
  (if mb_pending_display m then mb_latest m else None, mkFrameMailbox (mb_latest m) false).

(** * Theorems *)

(** ** What the decoder is given *)

(** The decoder: not yet made, made with a frame, after a frame, or dropped after a failure. *)
Inductive Codec : Type := CK_New | CK_Fresh (frame : QueuedFrame) | CK_At (id : Z) | CK_Dropped.

Definition codec_ok (k : Codec) (fx : MediaEffect) : Prop :=
  match fx with
  | MX_Create frame => match k with CK_New => True | CK_Dropped => is_key_frame frame = true | _ => False end
  | MX_Decode frame =>
    match k with
    | CK_Fresh first => frame = first
    | CK_At id => is_key_frame frame = true \/ wrapping_sub32 (frame_id frame) id = 1
    | _ => False
    end
  | _ => True
  end.
Definition codec_after (k : Codec) (fx : MediaEffect) : Codec :=
  match fx with
  | MX_Create frame => CK_Fresh frame
  | MX_Decoded frame => CK_At (frame_id frame)
  | MX_Failed => CK_Dropped
  | _ => k
  end.
Fixpoint codec_follows (k : Codec) (log : list MediaEffect) : Prop :=
  match log with [] => True | fx :: log => codec_ok k fx /\ codec_follows (codec_after k fx) log end.
Lemma codec_follows_app k fx log :
  codec_follows k (fx ++ log) <-> codec_follows k fx /\ codec_follows (foldl codec_after k fx) log.
Proof. revert k. induction fx as [| x fx IH]; intros k; simpl; [tauto |]. rewrite IH. tauto. Qed.

(** What the decoder can decode next. *)
Definition coupled (codec : bool) (k : Codec) (r : reference) : Prop :=
  match k with
  | CK_New => codec = false /\ r = RF_Unknown
  | CK_At id => codec = true /\ r = RF_Frame id
  | CK_Dropped => codec = false /\ r = RF_Lost
  | CK_Fresh _ => False
  end.
Definition pipeline_ok (s : MediaPipeline) (k : Codec) : Prop :=
  match mp_decoder s with
  | DX_Recv => exists r, queue_inv r (mp_queue s) /\ coupled (mp_codec s) k r
  | DX_Check frame | DX_Decode frame =>
    queue_inv (RF_Frame (frame_id frame)) (mp_queue s) /\ exists r, coupled (mp_codec s) k r /\ fits r frame
  | DX_Failed => (exists r, queue_inv r (mp_queue s)) /\ mp_codec s = false /\ k = CK_Dropped
  | DX_Ended => True
  end.
(** The queue may change the way the receiver changes it. *)
Lemma pipeline_ok_queue s k queue at_ stop_ :
  (forall r, queue_inv r (mp_queue s) -> queue_inv r queue) ->
  pipeline_ok s k -> pipeline_ok (mkMediaPipeline stop_ queue (mp_codec s) at_ (mp_decoder s)) k.
Proof. intros Hq. unfold pipeline_ok. simpl. destruct (mp_decoder s); naive_solver. Qed.

Lemma receiver_ok answer s k :
  pipeline_ok s k ->
  let r := receiver_turn answer s in
  codec_follows k r.1 /\ foldl codec_after k r.1 = k /\ pipeline_ok r.2 k.
Proof.
  intros Hok. unfold receiver_turn.
  assert (Hrequest : forall b, codec_follows k (request_keyframe b) /\ foldl codec_after k (request_keyframe b) = k) by (intros []; done).
  destruct (mp_receiver s); simpl; try ((split; [done | split; [done |]]); try done; by apply pipeline_ok_queue).
  - destruct answer as [frame | | | |]; simpl; try ((split; [done | split; [done |]]); by apply pipeline_ok_queue).
    pose proof (fun r => push_inv r (mp_queue s) frame) as Hp. destruct (push (mp_queue s) frame) as [[request | e] queue]; simpl in *.
    + destruct (Hrequest request). (split; [done | split; [done |]]). by apply pipeline_ok_queue.
    + (split; [done | split; [done |]]). by apply pipeline_ok_queue.
Qed.

Lemma decoder_ok answer s k :
  pipeline_ok s k ->
  let r := decoder_turn answer s in
  codec_follows k r.1 /\ pipeline_ok r.2 (foldl codec_after k r.1).
Proof.
  destruct s as [stop_ queue codec rx dx]. unfold pipeline_ok, decoder_turn. simpl.
  destruct dx as [| frame | frame | |]; simpl.
  - intros (r & Hq & Hk). unfold recv. destruct (fq_stopped queue) eqn:Hs; [done |].
    destruct (fq_frames queue) as [| frame frames] eqn:Hf; simpl; [split; [done |]; by exists r |].
    destruct (pop_inv r queue frame frames Hq Hf Hs) as [Hfit Hq']. split; [done |]. split; [done |]. by exists r.
  - intros (Hq & r & Hk & Hfit). split; [done |]. destruct stop_; [done |]. split; [done |]. by exists r.
  - intros (Hq & r & Hk & Hfit). unfold decode_media_frame.
    destruct k as [| first | id |]; simpl in Hk; try done; destruct Hk as [-> ->]; destruct answer; simpl;
      unfold fits in Hfit; split_and!; try done; try tauto; try (by destruct Hfit); naive_solver.
  - intros ([r Hq] & -> & ->). pose proof (decode_failed_inv r queue Hq) as Hq'.
    destruct (decode_failed queue) as [[] queue']; simpl in *; split; try done; by exists RF_Lost.
  - done.
Qed.


(** ** The end of the pipeline *)

Definition receiver_left (at_ : ReceiverAt) : nat :=
  match at_ with RX_Join | RX_Done => 0 | RX_Close => 1 | RX_Loop | RX_Failed => 2 | RX_Receive => 3 end.
Definition decoder_left (at_ : DecoderAt) : nat :=
  match at_ with DX_Ended => 0 | DX_Recv | DX_Check _ => 1 | DX_Failed => 2 | DX_Decode _ => 3 end.
Definition is_receiver (e : MediaEvent) : bool := match e with ME_Receiver _ => true | _ => false end.
Definition is_decoder (e : MediaEvent) : bool := match e with ME_Decoder _ => true | _ => false end.
Definition receiver_turns (events : list MediaEvent) : nat :=
  length (filter (fun e => is_receiver e = true) events).
Definition decoder_turns (events : list MediaEvent) : nat :=
  length (filter (fun e => is_decoder e = true) events).

(** The queue is closed when the receiver waits, and the pipeline is left when the decoder has ended. *)
Definition closing (s : MediaPipeline) : Prop :=
  (receiver_left (mp_receiver s) = 0%nat -> fq_stopped (mp_queue s) = true) /\
  (mp_receiver s = RX_Done -> mp_decoder s = DX_Ended).

Lemma push_stopped q frame : fq_stopped q = true -> push q frame = (Err FQ_Stopped, q).
Proof. unfold push. by intros ->. Qed.
Lemma recv_stopped q : fq_stopped q = true -> recv q = (Some (Err RE_Stopped), q).
Proof. unfold recv. by intros ->. Qed.
Lemma decode_failed_stopped q : fq_stopped q = true -> decode_failed q = (false, q).
Proof. unfold decode_failed. by intros ->. Qed.
Lemma recv_keeps q : fq_stopped (recv q).2 = fq_stopped q.
Proof. unfold recv. destruct (fq_stopped q) eqn:E; [done |]. by destruct (fq_frames q). Qed.
Lemma decode_failed_keeps q : fq_stopped (decode_failed q).2 = fq_stopped q.
Proof. unfold decode_failed. destruct (fq_stopped q) eqn:E; [done |]. by destruct (from_key _). Qed.

Lemma decoder_queue answer s : fq_stopped (mp_queue (decoder_turn answer s).2) = fq_stopped (mp_queue s) /\
  mp_receiver (decoder_turn answer s).2 = mp_receiver s /\ mp_stop (decoder_turn answer s).2 = mp_stop s.
Proof.
  unfold decoder_turn. pose proof (recv_keeps (mp_queue s)). pose proof (decode_failed_keeps (mp_queue s)).
  destruct (mp_decoder s); simpl; try done.
  - by destruct (recv (mp_queue s)).
  - destruct (decode_media_frame _ _ _) as [[fx []] codec]; done.
  - by destruct (decode_failed (mp_queue s)).
Qed.
Lemma receiver_decoder answer s : mp_decoder (receiver_turn answer s).2 = mp_decoder s /\
  mp_stop (receiver_turn answer s).2 = mp_stop s.
Proof.
  unfold receiver_turn. destruct (mp_receiver s); try done. destruct answer; try done.
  by destruct (push (mp_queue s) frame) as [[] queue].
Qed.

Lemma closing_event s e : closing s -> closing (media_event s e).2.
Proof.
  intros [Hq Hd]. destruct e as [answer | answer |]; simpl; [| | done].
  - destruct (receiver_decoder answer s) as [He _]. unfold closing. rewrite He. unfold receiver_turn in *.
    destruct (mp_receiver s); simpl in *; try (by destruct (mp_stop s)); try naive_solver.
    + destruct answer as [frame | | | |]; simpl in *; try done. by destruct (push (mp_queue s) frame) as [[] queue].
    + by destruct (mp_decoder s).
  - destruct (decoder_queue answer s) as (Hs & Hr & _). unfold closing. rewrite Hs, Hr. split; [done |].
    intros Hrx. specialize (Hd Hrx). unfold decoder_turn. by rewrite Hd.
Qed.
Lemma closing_run s events : closing s -> closing (media_run s events).2.
Proof.
  revert s. induction events as [| e events IH]; intros s Hs; [done |]. simpl.
  pose proof (closing_event s e Hs) as He. destruct (media_event s e) as [fx s']; simpl in *. specialize (IH s' He).
  by destruct (media_run s' events).
Qed.

(** A turn of the receiver takes it nearer to its end, one of the others does not hinder it. *)
Lemma receiver_event s e :
  mp_stop s = true ->
  mp_stop (media_event s e).2 = true /\
  (receiver_left (mp_receiver (media_event s e).2) <=
   receiver_left (mp_receiver s) - match e with ME_Receiver _ => 1 | _ => 0 end)%nat.
Proof.
  intros Hs. destruct e as [answer | answer |]; simpl.
  - destruct (receiver_decoder answer s) as [_ ->]. split; [done |]. unfold receiver_turn.
    destruct (mp_receiver s) eqn:Hrx; simpl; rewrite ?Hs, ?Hrx; simpl; try lia.
    + destruct answer as [frame | | | |]; simpl; try lia. destruct (push (mp_queue s) frame) as [[] queue]; simpl; lia.
    + destruct (mp_decoder s); simpl; lia.
  - destruct (decoder_queue answer s) as (_ & -> & ->). split; [done | lia].
  - split; [done | lia].
Qed.
Lemma decoder_event s e :
  mp_stop s = true -> closing s -> receiver_left (mp_receiver s) = 0%nat ->
  (decoder_left (mp_decoder (media_event s e).2) <=
   decoder_left (mp_decoder s) - match e with ME_Decoder _ => 1 | _ => 0 end)%nat.
Proof.
  intros Hs [Hq _] Hr. specialize (Hq Hr). destruct e as [answer | answer |]; simpl.
  - destruct (receiver_decoder answer s) as [-> _]. lia.
  - unfold decoder_turn. destruct (mp_decoder s) as [| frame | frame | |] eqn:Hdx; simpl.
    + rewrite recv_stopped by done. simpl. lia.
    + rewrite Hs. simpl. lia.
    + destruct (decode_media_frame answer (mp_codec s) frame) as [[fx []] codec]; simpl; lia.
    + rewrite decode_failed_stopped by done. simpl. lia.
    + rewrite Hdx. simpl. lia.
  - lia.
Qed.

Lemma stopping_run s events :
  mp_stop s = true -> closing s ->
  let s' := (media_run s events).2 in
  mp_stop s' = true /\ closing s' /\
  (receiver_left (mp_receiver s') <= receiver_left (mp_receiver s) - receiver_turns events)%nat /\
  (receiver_left (mp_receiver s) = 0%nat ->
   (decoder_left (mp_decoder s') <= decoder_left (mp_decoder s) - decoder_turns events)%nat).
Proof.
  revert s. induction events as [| e events IH]; intros s Hs Hc; simpl; [split_and!; (done || unfold receiver_turns, decoder_turns; simpl; lia) |].
  destruct (receiver_event s e Hs) as [Hs' Hr]. pose proof (closing_event s e Hc) as Hc'.
  pose proof (decoder_event s e Hs Hc) as Hd. destruct (media_event s e) as [fx s1]; simpl in *.
  destruct (IH s1 Hs' Hc') as (Hs2 & Hc2 & Hr2 & Hd2). destruct (media_run s1 events) as [fx' s2]; simpl in *.
  unfold receiver_turns, decoder_turns in *. rewrite !filter_cons.
  split_and!; [done | done | |].
  - destruct e; simpl; lia.
  - intros Hz. specialize (Hd Hz). specialize (Hd2 ltac:(lia)). destruct e; simpl; lia.
Qed.
Lemma media_run_app s a b :
  media_run s (a ++ b) =
  let '(fx, s') := media_run s a in let '(fx', s'') := media_run s' b in (fx ++ fx', s'').
Proof.
  revert s. induction a as [| e a IH]; intros s; simpl; [by destruct (media_run s b) |].
  destruct (media_event s e) as [fx s1]. rewrite IH. destruct (media_run s1 a) as [fx1 s2].
  destruct (media_run s2 b) as [fx2 s3]. by rewrite app_assoc.
Qed.
Lemma media_run_app_state s a b : (media_run s (a ++ b)).2 = (media_run (media_run s a).2 b).2.
Proof. rewrite media_run_app. destruct (media_run s a) as [fx s']. simpl. by destruct (media_run s' b). Qed.

(** C24: The pipeline ends when it is told to.  Once a disconnect has set its stop flag, whatever
    happened before and whatever is still received and decoded: after three more turns of the
    receiver, three of the decoder's thread (anything between them), and the turn in which
    the receiver joins it, both threads have ended. *)
Theorem media_pipeline_ends events a b answer :
  let s := (media_run MediaPipeline_new events).2 in
  mp_stop s = true -> (3 <= receiver_turns a)%nat -> (3 <= decoder_turns b)%nat ->
  let s' := (media_run s (a ++ b ++ [ME_Receiver answer])).2 in
  mp_receiver s' = RX_Done /\ mp_decoder s' = DX_Ended.
Proof.
  intros s Hs Ha Hb. assert (Hc : closing s) by (apply closing_run; by split).
  rewrite !media_run_app_state.
  destruct (stopping_run s a Hs Hc) as (Hs1 & Hc1 & Hr1 & _). set (s1 := (media_run s a).2) in *.
  assert (receiver_left (mp_receiver s) <= 3)%nat by (destruct (mp_receiver s); simpl; lia).
  destruct (stopping_run s1 b Hs1 Hc1) as (Hs2 & Hc2 & Hr2 & Hd2). set (s2 := (media_run s1 b).2) in *.
  assert (decoder_left (mp_decoder s1) <= 3)%nat by (destruct (mp_decoder s1); simpl; lia).
  specialize (Hd2 ltac:(lia)). destruct Hc2 as [_ Hdone]. simpl. unfold receiver_turn.
  destruct (mp_decoder s2) eqn:Hd; simpl in Hd2; try lia.
  destruct (mp_receiver s2) eqn:Hr; simpl in Hr2; try lia; by rewrite ?Hd.
Qed.
Lemma media_pipeline_ends_witness :
  let receive := ME_Receiver RA_Error in
  let decode := ME_Decoder DA_Decoded in
  let s := (media_run MediaPipeline_new [receive; receive; ME_Stop]).2 in
  mp_stop s = true /\
  let s' := (media_run s ([receive; decode; receive; receive] ++ [decode; decode; decode] ++ [receive])).2 in
  mp_receiver s' = RX_Done /\ mp_decoder s' = DX_Ended.
Proof.
  split; [done |].
  apply (media_pipeline_ends [ME_Receiver RA_Error; ME_Receiver RA_Error; ME_Stop]
    [ME_Receiver RA_Error; ME_Decoder DA_Decoded; ME_Receiver RA_Error; ME_Receiver RA_Error]
    [ME_Decoder DA_Decoded; ME_Decoder DA_Decoded; ME_Decoder DA_Decoded]); [done | by vm_compute; lia ..].
Defined.

(** ** The frame the webview gets *)

Lemma fill_plane_length plane n fill : 0 <= n -> len (fill_plane plane n fill) = n.
Proof.
  intros Hn. unfold fill_plane, len. destruct (n <=? Z.of_nat (length plane)) eqn:E.
  - rewrite length_take. lia.
  - rewrite length_app, length_replicate. lia.
Qed.

(** The webview's reader: the header, the planes of the dimensions in it, and the cursor. *)
Definition read_buffer (buffer : list byte) : (Z * Z) * Z * (list byte * list byte) * list byte :=
  let width := le_value (take 4 buffer) in
  let height := le_value (take 4 (drop 4 buffer)) in
  let y := Z.to_nat (width * height) in
  let uv := Z.to_nat (width * div_ceil height 2) in
  ((width, height), le_value (take 8 (drop 8 buffer)),
   (take y (drop 16 buffer), take uv (drop (16 + y) buffer)), drop (16 + y + uv) buffer).

(** A frame buffer is framed as the webview reads it, whatever the decoder's planes: the
    dimensions and the timestamp come back, the planes have the sizes that belong to the
    dimensions, odd heights included, and are the decoder's when those are not shorter, and
    the cursor follows. *)
Theorem frame_buffer_framed (f : Nv12Frame) (cursor : CursorUpdate) :
  0 <= nv_width f < 2 ^ 32 -> 0 <= nv_height f < 2 ^ 32 ->
  let y := fill_plane (nv_y_plane f) (y_len f) Byte.x00 in
  let uv := fill_plane (nv_uv_plane f) (uv_len f) Byte.x80 in
  len (frame_buffer f cursor) = 16 + y_len f + uv_len f + 9 /\
  read_buffer (frame_buffer f cursor) =
    ((nv_width f, nv_height f), nv_timestamp_ms f mod 2 ^ 64, (y, uv), CursorUpdate_bytes cursor) /\
  len y = y_len f /\ len uv = uv_len f /\
  (len (nv_y_plane f) = y_len f -> y = nv_y_plane f) /\ (len (nv_uv_plane f) = uv_len f -> uv = nv_uv_plane f).
Proof.
  intros Hw Hh y uv.
  assert (Hy : 0 <= y_len f) by (unfold y_len; nia).
  assert (Huv : 0 <= uv_len f).
  { unfold uv_len, div_ceil. assert (0 <= (nv_height f + 2 - 1) / 2) by (Z.to_euclidean_division_equations; lia). nia. }
  pose proof (fill_plane_length (nv_y_plane f) _ Byte.x00 Hy) as Ly. fold y in Ly.
  pose proof (fill_plane_length (nv_uv_plane f) _ Byte.x80 Huv) as Luv. fold uv in Luv.
  split_and!; [| | done | done | |].
  - unfold frame_buffer. fold y uv. rewrite !len_app, Ly, Luv. unfold len. rewrite !le_bytes_length. lia.
  - unfold frame_buffer. fold y uv. fold (CursorUpdate_bytes cursor).
    set (w := le_bytes 4 (nv_width f)). set (h := le_bytes 4 (nv_height f)).
    set (t := le_bytes 8 (nv_timestamp_ms f mod 2 ^ 64)).
    assert (length w = 4%nat /\ length h = 4%nat /\ length t = 8%nat) as (Lw & Lh & Lt)
      by (unfold w, h, t; rewrite !le_bytes_length; done).
    assert (Vw : le_value w = nv_width f) by (by apply le_value_le_bytes_small).
    assert (Vh : le_value h = nv_height f) by (by apply le_value_le_bytes_small).
    assert (Vt : le_value t = nv_timestamp_ms f mod 2 ^ 64).
    { apply le_value_le_bytes_small. apply Z.mod_pos_bound. lia. }
    unfold read_buffer. rewrite (take_app_length' w) by done. rewrite (drop_app_length' w) by done.
    rewrite (take_app_length' h) by done. rewrite Vw, Vh.
    fold (y_len f) (uv_len f). set (rest := y ++ uv ++ CursorUpdate_bytes cursor).
    assert (D8 : drop 8 (w ++ h ++ t ++ rest) = t ++ rest).
    { rewrite (app_assoc w h). apply drop_app_length'. rewrite length_app. lia. }
    assert (D16 : drop 16 (w ++ h ++ t ++ rest) = rest).
    { change 16%nat with (8 + 8)%nat. rewrite <- drop_drop, D8. by apply drop_app_length'. }
    assert (D16n : forall n, drop (16 + n) (w ++ h ++ t ++ rest) = drop n rest) by (intros n; by rewrite <- drop_drop, D16).
    rewrite <- Nat.add_assoc, !D16n, D8, D16.
    rewrite (take_app_length' t), Vt by done. unfold rest, len in *.
    rewrite take_app_length', <- drop_drop, drop_app_length' by lia. rewrite take_app_length', drop_app_length' by lia. done.
  - intros He. unfold y, fill_plane. rewrite (proj2 (Z.leb_le _ _)) by lia. apply take_ge. unfold len in He. lia.
  - intros He. unfold uv, fill_plane. rewrite (proj2 (Z.leb_le _ _)) by lia. apply take_ge. unfold len in He. lia.
Qed.
Lemma frame_buffer_framed_witness :
  let f := mkNv12Frame 2 3 (-5) [Byte.x01; Byte.x02] (replicate 9 Byte.x03) in
  let cursor := mkCursorUpdate 0 0 7 in
  len (frame_buffer f cursor) = 35 /\ read_buffer (frame_buffer f cursor) =
    ((2, 3), 2 ^ 64 - 5, ([Byte.x01; Byte.x02; Byte.x00; Byte.x00; Byte.x00; Byte.x00], replicate 4 Byte.x03), CursorUpdate_bytes cursor).
Proof.
  destruct (frame_buffer_framed (mkNv12Frame 2 3 (-5) [Byte.x01; Byte.x02] (replicate 9 Byte.x03)) (mkCursorUpdate 0 0 7))
    as (Hl & Hr & _); [done | done |]. split; [exact Hl | exact Hr].
Defined.

(** The mailbox shows a frame at most once, and only the newest. *)
Lemma mailbox_newest_once payload m :
  take_snapshot (mailbox_publish payload m) = (Some payload, mkFrameMailbox (Some payload) false) /\
  (take_snapshot (take_snapshot m).2).1 = None.
Proof. by split. Qed.
