(* ===== verification/DesktopAudio.v ===== *)
(** * The desktop client's audio output

    [clients/rust/tauri-shell/src-tauri/src/lib.rs]: [DesktopAudio], whose worker thread
    applies the commands one after the other, and the end of a media event
    ([dispatch_media_event]).  [AudioQueue]s are shared between the session, the settings and
    the device that plays them: they live in a store, and a handle is an index.  The media
    thread pushes while it holds the lock of [playback], and a callback of a device takes
    samples from its own queue: both may come between any two commands.  The backend
    answers for the devices. *)

From Stdlib Require Import SpecFloat.
From S2P Require Import Prelude Codec Float AudioQueue.

Inductive DesktopAudioError : Type :=
| DE_Backend (error : rstring)              (* of the backend *)
| DE_Queue (error : AudioError)
| DE_UnknownOutput (id : rstring).          (* [Unknown or unsupported audio output] *)

Record DesktopAudioDevice : Type := mkDesktopAudioDevice { dd_id : rstring; dd_name : rstring; dd_supported : bool }.

Inductive AudioAction : Type :=
| AA_Start
| AA_Stop
| AA_Status
| AA_List
| AA_Volume (volume : spec_float)
| AA_Muted (muted : bool)
| AA_Device (device : option rstring).

(** [AudioOutputStatus], with its error as the text it is shown as. *)
Record OutputStatus : Type := mkOutputStatus { ou_consumed_samples : Z; ou_last_error : option rstring }.

(** What the backend answers while a command is applied: [devices()], [open], [status()]. *)
Record BackendAnswers : Type := mkBackendAnswers {
  an_devices : result rstring (list DesktopAudioDevice);
  an_open : result rstring unit;
  an_status : result rstring OutputStatus
}.

(** [da_queue], [da_error]: [AudioPlayback].  [da_output]: the queue a device plays, and the
    device that was asked for.  [da_queues]: the store. *)
Record DesktopAudio : Type := mkDesktopAudio {
  da_queue : option nat;
  da_error : option DesktopAudioError;
  da_output : option (nat * option rstring);
  da_volume : spec_float;
  da_muted : bool;
  da_device_id : option rstring;
  da_devices : list DesktopAudioDevice;
  da_session_active : bool;
  da_queues : list QueueState
}.
Definition DesktopAudio_new : DesktopAudio := mkDesktopAudio None None None f32_1 false None [] false [].

Definition set_playback (queue : option nat) (error : option DesktopAudioError) (s : DesktopAudio) : DesktopAudio :=
  mkDesktopAudio queue error (da_output s) (da_volume s) (da_muted s) (da_device_id s) (da_devices s) (da_session_active s) (da_queues s).
Definition set_output (output : option (nat * option rstring)) (s : DesktopAudio) : DesktopAudio :=
  mkDesktopAudio (da_queue s) (da_error s) output (da_volume s) (da_muted s) (da_device_id s) (da_devices s) (da_session_active s) (da_queues s).
Definition set_queues (queues : list QueueState) (s : DesktopAudio) : DesktopAudio :=
  mkDesktopAudio (da_queue s) (da_error s) (da_output s) (da_volume s) (da_muted s) (da_device_id s) (da_devices s) (da_session_active s) queues.
Definition set_settings (volume : spec_float) (muted : bool) (s : DesktopAudio) : DesktopAudio :=
  mkDesktopAudio (da_queue s) (da_error s) (da_output s) volume muted (da_device_id s) (da_devices s) (da_session_active s) (da_queues s).
Definition set_device (device : option rstring) (devices : list DesktopAudioDevice) (s : DesktopAudio) : DesktopAudio :=
  mkDesktopAudio (da_queue s) (da_error s) (da_output s) (da_volume s) (da_muted s) device devices (da_session_active s) (da_queues s).
Definition set_session (active : bool) (s : DesktopAudio) : DesktopAudio :=
  mkDesktopAudio (da_queue s) (da_error s) (da_output s) (da_volume s) (da_muted s) (da_device_id s) (da_devices s) active (da_queues s).

Definition Outcome (A : Type) : Type := result DesktopAudioError A * DesktopAudio.

(** [stop_output]: the queue is detached, the device released, the queue cleared. *)
Definition stop_output (s : DesktopAudio) : DesktopAudio :=
  let queue := da_queue s in
  let s := set_output None (set_playback None (da_error s) s) in
  match queue with
  | Some q => set_queues (alter clear q (da_queues s)) s
  | None => s
  end.

(** [start_output]: a queue of its own for every device. *)
Definition start_output (answers : BackendAnswers) (s : DesktopAudio) : Outcome unit :=
  let s := stop_output s in
  match set_volume (da_volume s) QueueState_default with
  | (Err e, _) => (Err (DE_Queue e), s)
  | (Ok _, queue) =>
    let queue := set_muted (da_muted s) queue in
    let handle := length (da_queues s) in
    let s := set_queues (da_queues s ++ [queue]) s in
    match an_open answers with
    | Err e => (Err (DE_Backend e), s)
    | Ok _ => (Ok tt, set_playback (Some handle) None (set_output (Some (handle, da_device_id s)) s))
    end
  end.

Record DesktopAudioStatus : Type := mkDesktopAudioStatus {
  ds_active : bool;
  ds_volume : spec_float;
  ds_muted : bool;
  ds_device_id : option rstring;
  ds_devices : list DesktopAudioDevice;
  ds_consumed_samples : Z;
  ds_error : option DesktopAudioError
}.

(** [snapshot]: a device that failed is released. *)
Definition snapshot (answers : BackendAnswers) (s : DesktopAudio) : Outcome DesktopAudioStatus :=
  match (match da_output s with None => Ok (mkOutputStatus 0 None) | Some _ => an_status answers end) with
  | Err e => (Err (DE_Backend e), s)
  | Ok status =>
    let s :=
      match ou_last_error status with
      | Some e => let s := stop_output s in set_playback (da_queue s) (Some (DE_Backend e)) s
      | None => s
      end in
    (Ok (mkDesktopAudioStatus (match da_output s with Some _ => true | None => false end) (da_volume s) (da_muted s)
           (da_device_id s) (da_devices s) (ou_consumed_samples status) (da_error s)), s)
  end.

(** The [match] of [apply]. *)
Definition apply_action (action : AudioAction) (answers : BackendAnswers) (s : DesktopAudio) : Outcome unit :=
  match action with
  | AA_Start => start_output answers (set_session true s)
  | AA_Stop => (Ok tt, stop_output (set_session false s))
  | AA_Status => (Ok tt, s)
  | AA_List =>
    match an_devices answers with
    | Ok devices => (Ok tt, set_device (da_device_id s) devices s)
    | Err e => (Err (DE_Backend e), s)
    end
  | AA_Volume volume =>
    match da_queue s with
    | Some q =>
      match da_queues s !! q with
      | Some queue =>
        match set_volume volume queue with
        | (Ok _, queue) => (Ok tt, set_settings volume (da_muted s) (set_queues (<[q := queue]> (da_queues s)) s))
        | (Err e, _) => (Err (DE_Queue e), s)
        end
      | None => (Ok tt, s)                     (* a handle is never dangling *)
      end
    | None =>
      match set_volume volume QueueState_default with
      | (Ok _, _) => (Ok tt, set_settings volume (da_muted s) s)
      | (Err e, _) => (Err (DE_Queue e), s)
      end
    end
  | AA_Muted muted =>
    let s := match da_queue s with Some q => set_queues (alter (set_muted muted) q (da_queues s)) s | None => s end in
    (Ok tt, set_settings (da_volume s) muted s)
  | AA_Device device =>
    let s := stop_output s in
    let start s := if da_session_active s then start_output answers s else (Ok tt, s) in
    match device with
    | None => start (set_device None (da_devices s) s)
    | Some id =>
      match an_devices answers with
      | Err e => (Err (DE_Backend e), s)
      | Ok devices =>
        let s := set_device (da_device_id s) devices s in
        if existsb (fun d => bool_decide (dd_id d = id) && dd_supported d) devices
        then start (set_device (Some id) devices s)
        else (Err (DE_UnknownOutput id), s)
      end
    end
  end.

Definition apply (action : AudioAction) (answers : BackendAnswers) (s : DesktopAudio) : Outcome DesktopAudioStatus :=
  let '(r, s) := apply_action action answers s in
  let '(r, s) :=
    match r with
    | Err e => (Err e, s)
    | Ok _ => snapshot answers s
    end in
  match r with
  | Err e => (Err e, set_playback (da_queue s) (Some e) s)
  | Ok status => (Ok status, s)
  end.

(** The audio of a media event. *)
Definition dispatch_audio (bytes : list byte) (s : DesktopAudio) : DesktopAudio :=
  match da_queue s with
  | None => s
  | Some q =>
    match da_queues s !! q with
    | None => s
    | Some queue =>
      match push_pcm_bytes bytes queue with
      | (Ok _, queue) => set_queues (<[q := queue]> (da_queues s)) s
      | (Err e, _) => set_playback (da_queue s) (Some (DE_Queue e)) s
      end
    end
  end.

Inductive DesktopEvent : Type :=
| DV_Action (action : AudioAction) (answers : BackendAnswers)
| DV_Audio (bytes : list byte)
| DV_Callback (slots : nat).                (* the device takes samples *)

Definition desktop_event (s : DesktopAudio) (e : DesktopEvent) : DesktopAudio :=
  match e with
  | DV_Action action answers => (apply action answers s).2
  | DV_Audio bytes => dispatch_audio bytes s
  | DV_Callback slots =>
    match da_output s with
    | Some (q, _) => set_queues (alter (fun queue => (drain_into slots queue).2) q (da_queues s)) s
    | None => s
    end
  end.
Definition desktop_run (s : DesktopAudio) (events : list DesktopEvent) : DesktopAudio := foldl desktop_event s events.

(** * Theorems *)

(** The device plays the queue that is pushed to, under the settings, while a session is
    active, on the device that is selected; every other queue is empty. *)
Record desktop_ok (s : DesktopAudio) : Prop := {
  do_volume : (set_volume (da_volume s) QueueState_default).1 = Ok tt;
  do_attached : da_output s = (fun q => (q, da_device_id s)) <$> da_queue s;
  do_session : da_session_active s = false -> da_queue s = None;
  do_settings : forall q, da_queue s = Some q -> exists queue,
    da_queues s !! q = Some queue /\ qs_volume queue = da_volume s /\ qs_muted queue = da_muted s;
  do_silent : forall q queue, da_queue s <> Some q -> da_queues s !! q = Some queue -> qs_samples queue = []
}.

Lemma set_volume_ok volume queue :
  (set_volume volume QueueState_default).1 = Ok tt ->
  set_volume volume queue = (Ok tt, mkQueueState (qs_samples queue) volume (qs_muted queue) (qs_underrun_samples queue)).
Proof. unfold set_volume. by destruct (negb _ || _). Qed.
Lemma set_volume_valid volume queue queue' :
  set_volume volume queue = (Ok tt, queue') -> (set_volume volume QueueState_default).1 = Ok tt.
Proof. unfold set_volume. by destruct (negb _ || _). Qed.

(** Changing the attached queue, or none. *)
Lemma silent_insert s q queue queue' k :
  da_queue s = Some q -> desktop_ok s -> da_queue s <> Some k -> <[q := queue]> (da_queues s) !! k = Some queue' -> qs_samples queue' = [].
Proof.
  intros Hq Hok Hk Hl. rewrite list_lookup_insert_ne in Hl by congruence. by apply (do_silent s Hok k).
Qed.
Lemma attached_ok s q queue queue' :
  da_queue s = Some q -> da_queues s !! q = Some queue ->
  qs_volume queue' = qs_volume queue -> qs_muted queue' = qs_muted queue ->
  desktop_ok s -> desktop_ok (set_queues (<[q := queue']> (da_queues s)) s).
Proof.
  intros Hq Hl Hv Hm Hok. pose proof Hok as [Hvol Hat Hse Hset Hsil]. destruct (Hset q Hq) as (queue0 & Hl0 & Hv0 & Hm0).
  simplify_eq. split; try done.
  - intros k Hk. simpl in Hk. rewrite Hq in Hk. injection Hk as <-. exists queue'. simpl.
    rewrite list_lookup_insert_eq by (by eapply lookup_lt_Some). by rewrite Hv, Hm.
  - intros k x Hk Hx. simpl in *. by apply (silent_insert s q queue' x k Hq Hok Hk).
Qed.
Lemma alter_some {A} (f : A -> A) (l : list A) q x : l !! q = Some x -> alter f q l = <[q := f x]> l.
Proof.
  intros Hq. apply list_eq; intros j. pose proof (lookup_lt_Some _ _ _ Hq).
  rewrite list_lookup_alter, list_lookup_insert. case_decide.
  - subst. rewrite Hq, decide_True by done. done.
  - rewrite decide_False by tauto. done.
Qed.

Lemma stop_output_ok s :
  desktop_ok s ->
  let s' := stop_output s in
  desktop_ok s' /\ da_queue s' = None /\ da_output s' = None /\ length (da_queues s') = length (da_queues s) /\
  da_session_active s' = da_session_active s /\ da_device_id s' = da_device_id s /\
  da_volume s' = da_volume s /\ da_muted s' = da_muted s.
Proof.
  intros Hok. pose proof Hok as [Hvol Hat Hse Hset Hsil]. unfold stop_output.
  destruct (da_queue s) as [q |] eqn:Hq; simpl.
  - destruct (Hset q eq_refl) as (queue & Hl & _). rewrite (alter_some _ _ _ queue) by done.
    split_and!; try done; [split; try done | by rewrite length_insert].
    simpl. intros k x _ Hx. destruct (decide (k = q)) as [-> | Hne].
    + rewrite list_lookup_insert_eq in Hx by (by eapply lookup_lt_Some). by injection Hx as <-.
    + rewrite list_lookup_insert_ne in Hx by done. apply (Hsil k); congruence.
  - split_and!; try done; split; try done; simpl; intros k x _ Hx; by apply (Hsil k).
Qed.

(** After a start: silence, or a new queue for the selected device. *)
Lemma start_output_ok answers s :
  desktop_ok s -> da_session_active s = true ->
  let s' := (start_output answers s).2 in
  desktop_ok s' /\ da_session_active s' = true /\ da_device_id s' = da_device_id s /\
  match da_output s' with
  | None => True
  | Some (q, _) => exists queue, da_queues s' !! q = Some queue /\ qs_samples queue = []
  end.
Proof.
  intros Hok Ha. destruct (stop_output_ok s Hok) as (Hok1 & Hq1 & Ho1 & _ & Hs1 & Hd1 & Hv1 & Hm1).
  unfold start_output. set (s1 := stop_output s) in *. pose proof Hok1 as [Hvol Hat Hse Hset Hsil].
  rewrite set_volume_ok by done. simpl.
  destruct (an_open answers) as [[] | e]; simpl.
  - split_and!; try congruence.
    + split; try done; simpl.
      * intros Hf. congruence.
      * intros q [= <-]. eexists. rewrite lookup_app_r by lia. rewrite Nat.sub_diag. split_and!; [done | by rewrite Hv1 | by rewrite Hm1].
      * intros q queue Hne Hl. destruct (decide (q < length (da_queues s1))%nat).
        -- rewrite lookup_app_l in Hl by done. apply (Hsil q); [congruence | done].
        -- rewrite lookup_app_r in Hl by lia. destruct (q - length (da_queues s1))%nat eqn:Hs; [exfalso; apply Hne; f_equal; lia | done].
    + eexists. rewrite lookup_app_r by lia. by rewrite Nat.sub_diag.
  - split_and!; try congruence.
    + split; try done; simpl.
      * intros q Hq. congruence.
      * intros q queue Hne Hl. destruct (decide (q < length (da_queues s1))%nat).
        -- rewrite lookup_app_l in Hl by done. by apply (Hsil q).
        -- rewrite lookup_app_r in Hl by lia. by destruct (q - length (da_queues s1))%nat; simplify_eq/=.
    + by rewrite Ho1.
Qed.

Lemma snapshot_ok answers s :
  desktop_ok s ->
  let s' := (snapshot answers s).2 in
  desktop_ok s' /\ (da_output s' = None \/ s' = s).
Proof.
  intros Hok. destruct (stop_output_ok s Hok) as ([Hvol Hat Hse Hset Hsil] & _ & Ho & _). unfold snapshot.
  destruct (match da_output s with None => _ | Some _ => _ end) as [[consumed [e |]] | e]; simpl; try (by split; [| right]).
  split; [by split | by left].
Qed.
(** The error of a command changes nothing else. *)
Lemma error_ok s e : desktop_ok s -> desktop_ok (set_playback (da_queue s) e s).
Proof. intros [Hvol Hat Hse Hset Hsil]. by split. Qed.

(** After a change of the device, or a start: silence, or a queue that was empty. *)
Definition fresh (s : DesktopAudio) : Prop :=
  match da_output s with
  | None => True
  | Some (q, _) => exists queue, da_queues s !! q = Some queue /\ qs_samples queue = []
  end.

Definition action_leaves (action : AudioAction) (s : DesktopAudio) : Prop :=
  match action with
  | AA_Stop => da_output s = None
  | AA_Start => fresh s
  | AA_Device device => fresh s /\ (da_output s <> None -> da_device_id s = device)
  | _ => True
  end.
Lemma silence_leaves action s : da_output s = None -> action_leaves action s.
Proof. intros Ho. destruct action; simpl; unfold fresh; rewrite ?Ho; done. Qed.

Lemma device_ok s device devices : desktop_ok s -> da_output s = None -> desktop_ok (set_device device devices s).
Proof.
  intros [Hvol Hat Hse Hset Hsil] Ho. split; try done. simpl. rewrite Ho in Hat |- *. by destruct (da_queue s).
Qed.
Lemma apply_action_ok action answers s :
  desktop_ok s ->
  let s' := (apply_action action answers s).2 in
  desktop_ok s' /\
  action_leaves action s'.
Proof.
  intros Hok. destruct action as [| | | | volume | muted | device]; simpl.
  - assert (Hok' : desktop_ok (set_session true s)) by (destruct Hok; by split).
    by destruct (start_output_ok answers (set_session true s) Hok' eq_refl) as (? & _ & _ & ?).
  - assert (desktop_ok (stop_output (set_session false s)) /\ da_output (stop_output (set_session false s)) = None) as [? ?].
    { destruct (stop_output_ok s Hok) as ([Hvol Hat Hse Hset Hsil] & Hq & Ho & _). unfold stop_output in *. simpl in *.
      destruct (da_queue s) as [q |]; simpl in *; by split; [split |]. }
    done.
  - done.
  - destruct (an_devices answers) as [devices | e]; simpl; split; try done. destruct Hok. by split.
  - destruct (da_queue s) as [q |] eqn:Hq.
    + destruct (do_settings s Hok q Hq) as (queue & Hl & Hv & Hm). rewrite Hl.
      destruct (set_volume volume queue) as [[[] | e] queue'] eqn:Hset; simpl; [| done]. split; [| done].
      pose proof (set_volume_valid _ _ _ Hset) as Hvalid. rewrite set_volume_ok in Hset by done. injection Hset as <-.
      pose proof Hok as [Hvol Hat Hse Hsettings Hsil]. split; try done; simpl.
      * intros k Hk. rewrite Hq in Hk. injection Hk as <-. eexists.
        rewrite list_lookup_insert_eq by (by eapply lookup_lt_Some). by split_and!.
      * intros k x Hk Hx. by apply (silent_insert s q _ x k Hq Hok Hk Hx).
    + destruct (set_volume volume QueueState_default) as [[[] | e] queue'] eqn:Hset; simpl; [| done]. split; [| done].
      pose proof Hok as [Hvol Hat Hse Hsettings Hsil]. split; try done; simpl.
      * by rewrite Hset.
      * intros k Hk. congruence.
  - split; [| done]. destruct (da_queue s) as [q |] eqn:Hq.
    + destruct (do_settings s Hok q Hq) as (queue & Hl & Hv & Hm). rewrite (alter_some _ _ _ queue) by done.
      pose proof Hok as [Hvol Hat Hse Hsettings Hsil]. split; try done; simpl.
      * intros k Hk. rewrite Hq in Hk. injection Hk as <-. eexists.
        rewrite list_lookup_insert_eq by (by eapply lookup_lt_Some). by split_and!.
      * intros k x Hk Hx. by apply (silent_insert s q _ x k Hq Hok Hk Hx).
    + pose proof Hok as [Hvol Hat Hse Hsettings Hsil]. split; try done; simpl. intros k Hk. congruence.
  - destruct (stop_output_ok s Hok) as (Hok1 & Hq1 & Ho1 & _ & Hs1 & _). set (s1 := stop_output s) in *.
    assert (Hstart : forall s2, desktop_ok s2 -> da_output s2 = None -> da_device_id s2 = device ->
      let s' := (if da_session_active s2 then start_output answers s2 else (Ok tt, s2)).2 in
      desktop_ok s' /\ fresh s' /\ (da_output s' <> None -> da_device_id s' = device)).
    { intros s2 Hok2 Ho2 Hd2. destruct (da_session_active s2) eqn:Ha; simpl.
      - destruct (start_output_ok answers s2 Hok2 Ha) as (? & _ & Hd & ?). split_and!; try done. by rewrite Hd.
      - split_and!; [done | unfold fresh; by rewrite Ho2 | done]. }
    destruct device as [id |].
    + destruct (an_devices answers) as [devices | e]; simpl.
      * destruct (existsb _ devices); simpl.
        -- apply (Hstart (set_device (Some id) devices (set_device (da_device_id s1) devices s1)));
             [apply device_ok; [by apply device_ok | done] | done | done].
        -- split_and!; [by apply device_ok | unfold fresh; simpl; by rewrite Ho1 | simpl; by rewrite Ho1].
      * split_and!; [done | unfold fresh; by rewrite Ho1 | by rewrite Ho1].
    + apply (Hstart (set_device None (da_devices s1) s1)); [by apply device_ok | done | done].
Qed.

Lemma drain_slots_settings n gain queue :
  let queue' := (drain_slots n gain queue).2 in qs_volume queue' = qs_volume queue /\ qs_muted queue' = qs_muted queue.
Proof.
  revert queue. induction n as [| n IH]; intros queue; [done |]. cbn [drain_slots].
  destruct (qs_samples queue) as [| x l];
    match goal with |- context [drain_slots n gain ?t] => specialize (IH t); destruct (drain_slots n gain t) as [[o c] s1] end; done.
Qed.
Lemma desktop_event_ok s e : desktop_ok s -> desktop_ok (desktop_event s e).
Proof.
  intros Hok. destruct e as [action answers | bytes | slots]; simpl.
  - destruct (apply_action_ok action answers s Hok) as [Hok1 _]. unfold apply.
    destruct (apply_action action answers s) as [[[] | e] s1]; simpl in *; [| by apply error_ok].
    destruct (snapshot_ok answers s1 Hok1) as [Hok2 _]. destruct (snapshot answers s1) as [[status | e] s2]; simpl in *;
      [done | by apply error_ok].
  - unfold dispatch_audio. destruct (da_queue s) as [q |] eqn:Hq; [| done].
    destruct (do_settings s Hok q Hq) as (queue & Hl & _). rewrite Hl. unfold push_pcm_bytes.
    destruct (negb _); [rewrite <- Hq; by apply error_ok |].
    destruct (existsb _ _); [rewrite <- Hq; by apply error_ok |]. by apply (attached_ok s q queue).
  - destruct (da_output s) as [[q d] |] eqn:Ho; [| done]. rewrite (do_attached s Hok) in Ho.
    destruct (da_queue s) as [q' |] eqn:Hq; [| done]. injection Ho as -> _.
    destruct (do_settings s Hok q Hq) as (queue & Hl & _). rewrite (alter_some _ _ _ queue) by done.
    assert (qs_volume (drain_into slots queue).2 = qs_volume queue /\ qs_muted (drain_into slots queue).2 = qs_muted queue) as [Hv Hm].
    { unfold drain_into. destruct (negb _); [done |].
      match goal with |- context [drain_slots ?n ?g ?t] =>
        pose proof (drain_slots_settings n g t) as Hk; destruct (drain_slots n g t) as [[o c] queue'] end. done. }
    by apply (attached_ok s q queue).
Qed.
Lemma desktop_new_ok : desktop_ok DesktopAudio_new.
Proof. by split. Qed.
Lemma desktop_run_ok events : desktop_ok (desktop_run DesktopAudio_new events).
Proof.
  assert (forall s, desktop_ok s -> desktop_ok (desktop_run s events)) as H.
  { induction events as [| e events IH]; intros s Hs; [done |]. by apply IH, desktop_event_ok. }
  apply H, desktop_new_ok.
Qed.

(** C25: Whatever commands, media and callbacks come, whatever the devices answer: when a device plays,
    a session is active, it is the selected device, and its queue is the one the media is pushed to,
    with the volume and the mute that are shown; every queue that is not played is empty.
    A stop leaves no output, and a start or a change of the device, accepted or refused, leaves either no
    output or the selected device with a queue that holds nothing from before. *)
Theorem desktop_audio_plays_selected (events : list DesktopEvent) :
  let s := desktop_run DesktopAudio_new events in
  match da_output s with
  | Some (q, device) =>
    da_queue s = Some q /\ device = da_device_id s /\ da_session_active s = true /\
    exists queue, da_queues s !! q = Some queue /\ qs_volume queue = da_volume s /\ qs_muted queue = da_muted s
  | None => da_queue s = None
  end /\
  Forall (fun k => fst <$> da_output s = Some k.1 \/ qs_samples k.2 = []) (imap pair (da_queues s)) /\
  (forall action answers, action_leaves action (apply action answers s).2).
Proof.
  intros s. pose proof (desktop_run_ok events) as Hok. fold s in Hok. pose proof Hok as [Hvol Hat Hse Hset Hsil]. split_and!.
  - rewrite Hat. destruct (da_queue s) as [q |]; simpl; [| done]. split_and!; [done | done | | by apply Hset].
    destruct (da_session_active s); [done |]. by specialize (Hse eq_refl).
  - apply Forall_forall. intros [k queue] Hin. apply elem_of_lookup_imap in Hin as (i & x & [= -> ->] & Hl). simpl.
    rewrite Hat. destruct (decide (da_queue s = Some i)) as [-> | Hne]; [by left | right; by apply (Hsil i)].
  - intros action answers. destruct (apply_action_ok action answers s Hok) as [Hok1 Hact]. unfold apply.
    assert (Herr : forall s1 e, action_leaves action s1 -> action_leaves action (set_playback (da_queue s1) e s1)) by (by destruct action).
    destruct (apply_action action answers s) as [[[] | e] s1]; simpl in *; [| by apply Herr].
    destruct (snapshot_ok answers s1 Hok1) as [_ Hs]. destruct (snapshot answers s1) as [[status | e] s2]; simpl in *; [| apply Herr].
    all: destruct Hs as [Hs | ->]; [by apply silence_leaves | done].
Qed.

(** A device that is unknown silences the session; the next start plays the one selected before. *)
Definition toy_answers : BackendAnswers :=
  mkBackendAnswers (Ok [mkDesktopAudioDevice (str_bytes "output-0") (str_bytes "Speakers") true]) (Ok tt) (Ok (mkOutputStatus 0 None)).
Example rejected_device_is_silent :
  let s := desktop_run DesktopAudio_new [DV_Action AA_Start toy_answers; DV_Action (AA_Device (Some (str_bytes "output-7"))) toy_answers] in
  da_output s = None /\ da_error s = Some (DE_UnknownOutput (str_bytes "output-7")) /\
  da_output (desktop_event s (DV_Action AA_Start toy_answers)) = Some (1%nat, None).
Proof. by vm_compute. Qed.
