(* ===== verification/HostList.v ===== *)
(** * The desktop client's list of hosts, and its connection

    [clients/rust/tauri-shell/src-tauri/src/lib.rs] (module [commands]): the hosts found on the
    LAN and by Tailscale, matched with the pairings and merged into one list
    ([merge_discovery_results]), those the user hid ([hidden_hosts.rs]), the classes of
    errors of [maho-app/src/error.rs], and [connect] with the pairings it tries.
    The JSON of Tailscale is read into [Peer]s; messages for people are left out. *)

From S2P Require Import Prelude Text Codec Pairing Parity ClientStore ClientRuntime.

(** ** Hosts *)

(** [last_seen] is [None] in all of them. *)
Record HostItem : Type := mkHostItem {
  hi_id : rstring;
  hi_name : rstring;
  hi_ip : rstring;
  hi_os : rstring;
  hi_online : bool;
  hi_paired : bool;
  hi_tcp_port : option Z;
  hi_udp_port : option Z
}.
Record DiscoveredHost : Type := mkDiscoveredHost {
  dh_id : rstring;
  dh_name : rstring;
  dh_ip : rstring;
  dh_os : rstring;
  dh_tcp_port : Z;
  dh_udp_port : Z
}.

(** [iter().find] *)
Fixpoint find_first {A} (p : A -> bool) (l : list A) : option A :=
  match l with [] => None | x :: l => if p x then Some x else find_first p l end.

Definition has_endpoint (host : rstring) (r : PairingRecord) : bool :=
  match pr_last_endpoint r with Some e => bool_decide (pe_host e = host) | None => false end
  || existsb (fun alias => bool_decide (pe_host alias = host)) (pr_endpoint_aliases r).
Definition has_name (name : rstring) (r : PairingRecord) : bool := eq_ignore_ascii_case (trim (pr_name r)) name.

Definition match_pairing_record (ip name : rstring) (records : list PairingRecord) : option PairingRecord :=
  match find_first (has_endpoint ip) (rev records) with
  | Some r => Some r
  | None => find_first (has_name (trim name)) (rev records)
  end.

Definition resolve_pairing_id_for_host (host : rstring) (records : list PairingRecord) : option rstring :=
  let trimmed_host := trim host in
  match trimmed_host with
  | [] => None
  | _ =>
    match find_first (has_endpoint trimmed_host) (rev records) with
    | Some r => Some (pr_id r)
    | None => pr_id <$> find_first (has_name trimmed_host) (rev records)
    end
  end.

(** *** Tailscale *)

(** The values of [Peer]; [pp_ips]: [TailscaleIPs]. *)
Record Peer : Type := mkPeer { pp_host_name : rstring; pp_os : option rstring; pp_online : bool; pp_ips : list rstring }.

Definition is_mobile (p : Peer) : bool :=
  match pp_os p with
  | Some os => one_of (lowercase os) ["ios"; "android"; "tvos"; "watchos"; "visionos"]%string
  | None => false
  end.
Definition online_names (peers : list Peer) : list rstring :=
  map (fun p => lowercase (trim (pp_host_name p))) (filter (fun p => pp_online p = true) peers).
Definition peer_host (records : list PairingRecord) (online : list rstring) (p : Peer) : option HostItem :=
  match pp_ips p with
  | [] | [] :: _ => None
  | ip :: _ =>
    let matched := match_pairing_record ip (pp_host_name p) records in
    let paired := match matched with Some _ => true | None => false end in
    if negb (pp_online p) && (negb paired || existsb (fun n => bool_decide (n = lowercase (trim (pp_host_name p)))) online)
    then None
    else Some (mkHostItem (match matched with Some r => pr_id r | None => ip end) (pp_host_name p) ip
                 (match pp_os p with Some os => os | None => str_bytes "unknown" end) (pp_online p) paired None None)
  end.
(** [hosts_from_tailscale_output], of the peers in the output. *)
Definition hosts_of_peers (peers : list Peer) (records : list PairingRecord) : list HostItem :=
  let peers := filter (fun p => is_mobile p = false) peers in
  omap (peer_host records (online_names peers)) peers.

(** *** Merging *)

(** The items in [by_id], and the order of their first appearance. *)
Definition Merged : Type := gmap rstring (HostItem * bool) * list rstring.
Definition merge_item (replace : HostItem * bool -> HostItem * bool -> bool) (m : Merged) (item : HostItem * bool) : Merged :=
  let '(by_id, order) := m in
  let id := hi_id item.1 in
  match by_id !! id with
  | Some existing => (if replace existing item then <[id := item]> by_id else by_id, order)
  | None => (<[id := item]> by_id, order ++ [id])
  end.
(** The items in their order; each is removed as it is taken. *)
Fixpoint take_items (by_id : gmap rstring (HostItem * bool)) (order : list rstring) : list HostItem :=
  match order with
  | [] => []
  | id :: order =>
    match by_id !! id with
    | Some item => item.1 :: take_items (delete id by_id) order
    | None => take_items by_id order
    end
  end.
Definition merge_items (replace : HostItem * bool -> HostItem * bool -> bool) (items : list (HostItem * bool)) : list HostItem :=
  let '(by_id, order) := foldl (merge_item replace) (∅, []) items in take_items by_id order.

(** In [dedupe_host_items], and where the sources are merged: [.2] is [is_lan]. *)
Definition dedupe_replaces (existing item : HostItem * bool) : bool := negb (hi_online existing.1) && hi_online item.1.
Definition merge_replaces (existing item : HostItem * bool) : bool :=
  match hi_online existing.1, hi_online item.1 with
  | false, true => true
  | true, false => false
  | true, true => negb existing.2 && item.2
  | false, false => false
  end.

Definition lan_item (records : list PairingRecord) (h : DiscoveredHost) : HostItem :=
  let matched := match_pairing_record (dh_ip h) (dh_name h) records in
  mkHostItem (match matched with Some r => pr_id r | None => dh_id h end) (dh_name h) (dh_ip h) (dh_os h) true
    (match matched with Some _ => true | None => false end) (Some (dh_tcp_port h)) (Some (dh_udp_port h)).
(** The hosts of Tailscale whose address was not seen yet. *)
Fixpoint unseen (seen_ips : list rstring) (hosts : list HostItem) : list HostItem :=
  match hosts with
  | [] => []
  | h :: hosts =>
    if existsb (fun ip => bool_decide (ip = hi_ip h)) seen_ips then unseen seen_ips hosts
    else h :: unseen (hi_ip h :: seen_ips) hosts
  end.

(** [None]: a source failed. *)
Definition merge_discovery_results (lan : option (list DiscoveredHost)) (tailscale : option (list HostItem))
    (records : list PairingRecord) : option (list HostItem) :=
  match lan, tailscale with
  | None, None => None
  | Some lan, None => Some (merge_items dedupe_replaces (map (fun h => (lan_item records h, true)) lan))
  | None, Some tailscale => Some (merge_items dedupe_replaces (map (fun h => (h, false)) tailscale))
  | Some lan, Some tailscale =>
    Some (merge_items merge_replaces
      (map (fun h => (lan_item records h, true)) lan ++ map (fun h => (h, false)) (unseen (map dh_ip lan) tailscale)))
  end.

(** *** Hidden hosts *)

(** [load_hidden_hosts_from_path], [save_hidden_hosts_to_path]: trimmed, not empty, each once. *)
Fixpoint clean_names (seen : list rstring) (names : list rstring) : list rstring :=
  match names with
  | [] => []
  | name :: names =>
    let trimmed := trim name in
    match trimmed with
    | [] => clean_names seen names
    | _ =>
      if existsb (fun s => bool_decide (s = lowercase trimmed)) seen then clean_names seen names
      else trimmed :: clean_names (lowercase trimmed :: seen) names
    end
  end.
(** [add_hidden_host] and [remove_hidden_host], on the names in the file. *)
Definition add_hidden_host (name : rstring) (file : list rstring) : list rstring :=
  match trim name with
  | [] => file
  | trimmed =>
    let current := clean_names [] file in
    if existsb (fun existing => eq_ignore_ascii_case existing trimmed) current then file
    else clean_names [] (current ++ [trimmed])
  end.
Definition remove_hidden_host (name : rstring) (file : list rstring) : list rstring :=
  match trim name with
  | [] => file
  | trimmed => clean_names [] (filter (fun existing => eq_ignore_ascii_case existing trimmed = false) (clean_names [] file))
  end.
Definition is_hidden (hidden_names : list rstring) (h : HostItem) : bool :=
  let hidden := filter (fun s => s <> []) (map (fun n => lowercase (trim n)) hidden_names) in
  existsb (fun s => bool_decide (s = lowercase (trim (hi_name h)))) hidden.
Definition filter_hidden_hosts (hosts : list HostItem) (hidden_names : list rstring) : list HostItem :=
  filter (fun h => is_hidden hidden_names h = false) hosts.

(** ** Errors *)

Inductive IpcErrorCode : Type :=
| IC_PairingRequired | IC_PairingDenied | IC_PairingLockedOut | IC_PairingDisabled | IC_CredentialRejected | IC_InvalidPin
| IC_ConsentTimeout | IC_HandshakeTimeout | IC_RemoteClosed | IC_NetworkUnreachable | IC_CleanupFailed | IC_Cancelled
| IC_ConnectionFailed | IC_IncompatiblePeer.
Inductive IpcErrorStage : Type := IS_Client | IS_Connect | IS_Preauth | IS_TlsPsk | IS_Handshake | IS_Runtime | IS_Cleanup.
(** Without its text; [retryable] is [is_retryable_by_default] of the code ([IpcError::new]). *)
Record IpcError : Type := mkIpcError { ie_code : IpcErrorCode; ie_stage : IpcErrorStage }.
Definition pairing_required : IpcError := mkIpcError IC_PairingRequired IS_Preauth.
Definition invalid_pin : IpcError := mkIpcError IC_InvalidPin IS_Client.
Definition client_failed : IpcError := mkIpcError IC_ConnectionFailed IS_Client.

Definition is_retryable_by_default (c : IpcErrorCode) : bool :=
  match c with
  | IC_ConsentTimeout | IC_HandshakeTimeout | IC_NetworkUnreachable | IC_ConnectionFailed => true
  | _ => false
  end.

Definition classify_io_error (kind : IoErrorKind) (default_stage : IpcErrorStage) : IpcError :=
  match kind with
  | EK_ConnectionRefused | EK_HostUnreachable | EK_NetworkUnreachable => mkIpcError IC_NetworkUnreachable IS_Connect
  | EK_ConnectionReset | EK_UnexpectedEof | EK_BrokenPipe => mkIpcError IC_RemoteClosed default_stage
  | EK_TimedOut => mkIpcError IC_HandshakeTimeout default_stage
  | _ => mkIpcError IC_ConnectionFailed default_stage
  end.
Definition classify_session_error (err : ConnectError) : IpcError :=
  match err with
  | XE_PairingRejected PRR_DeniedByHost => mkIpcError IC_PairingDenied IS_Preauth
  | XE_PairingRejected PRR_LockedOut => mkIpcError IC_PairingLockedOut IS_Preauth
  | XE_PairingRejected PRR_PairingDisabled => mkIpcError IC_PairingDisabled IS_Preauth
  | XE_PairingNotFound _ => pairing_required
  | XE_HandshakeAckTimeout => mkIpcError IC_HandshakeTimeout IS_Handshake
  | XE_MissingAuthenticatedRegistration => mkIpcError IC_IncompatiblePeer IS_Handshake
  | XE_Tls (TP_Io kind) => classify_io_error kind IS_TlsPsk
  | XE_Tls _ => mkIpcError IC_ConnectionFailed IS_TlsPsk
  | XE_Io kind => classify_io_error kind IS_Connect
  | XE_NoAddress => mkIpcError IC_NetworkUnreachable IS_Connect
  | _ => mkIpcError IC_ConnectionFailed IS_Connect
  end.
Definition is_pairing_auth_error (e : IpcError) : bool :=
  match ie_code e with
  | IC_PairingDenied | IC_PairingLockedOut | IC_PairingDisabled | IC_PairingRequired => true
  | _ => match ie_stage e with IS_Preauth | IS_TlsPsk => true | _ => false end
  end.

(** ** Connecting *)

Inductive ConnectEffect : Type :=
| CE_Disconnect                                                                  (* [disconnect_internal] *)
| CE_ClearMetrics                                                                (* [state.clear_metrics] *)
| CE_EnableClipboard                                                             (* [state.clipboard_enabled] is set *)
| CE_Session (pin : option rstring) (pairing_id : option rstring) (owner : bool).   (* [connect_session] *)

Section Connect.

Context {Response : Type}.

(** The answers to the calls of a kind, in their order: whether a disconnect fails, the records
    the store holds ([None]: an error), what a session comes to. *)
Record ConnectAnswers : Type := mkConnectAnswers {
  ca_cleanup_fails : nat -> bool;
  ca_records : nat -> option (list PairingRecord);
  ca_session : nat -> result IpcError Response
}.
Context (answers : ConnectAnswers).

Definition present (s : option rstring) : option rstring := s ← trim <$> s; match s with [] => None | _ => Some s end.
Definition valid_pin (trimmed : rstring) : bool := (len trimmed =? 8) && forallb is_ascii_digit trimmed.
Definition has_id (id : rstring) (r : PairingRecord) : bool := bool_decide (pr_id r = id).

(** The other pairings of the host. *)
Definition fallback_ids (host primary_id : rstring) (records : list PairingRecord) : list rstring :=
  let primary_name := (fun r => lowercase (trim (pr_name r))) <$> find_first (has_id primary_id) records in
  take 2 (map pr_id (filter (fun r =>
    negb (has_id primary_id r) &&
    (has_endpoint host r || bool_decide (Some (lowercase (trim (pr_name r))) = primary_name)) = true) (rev records))).

(** The loop over them: [n] sessions were tried. *)
Fixpoint try_fallbacks (n : nat) (ids : list rstring) : list ConnectEffect * option Response :=
  match ids with
  | [] => ([], None)
  | id :: ids =>
    match ca_session answers n with
    | Ok response => ([CE_ClearMetrics; CE_Session None (Some id) true], Some response)
    | Err _ =>
      let '(fx, r) := try_fallbacks (S n) ids in (CE_ClearMetrics :: CE_Session None (Some id) true :: CE_Disconnect :: fx, r)
    end
  end.

(** The pairing to connect with; it has to be in the store. *)
Definition effective_pairing_id (host : rstring) (pin pairing_id : option rstring) : result IpcError (option rstring) :=
  match present pin, present pairing_id with
  | None, None =>
    match ca_records answers 0 with
    | None => Err client_failed
    | Some records =>
      match resolve_pairing_id_for_host host records with
      | Some id => Ok (Some id)
      | None => Err pairing_required
      end
    end
  | _, trimmed_id => Ok trimmed_id
  end.
Definition check_pairing (pin : option rstring) (id : option rstring) : result IpcError unit :=
  match present pin, id with
  | None, Some id =>
    match ca_records answers 1 with
    | None => Err client_failed
    | Some records => match find_first (has_id id) records with Some _ => Ok tt | None => Err pairing_required end
    end
  | _, _ => Ok tt
  end.

(** From the first session on; disconnect 0 was before. *)
Definition connect_sessions (host : rstring) (pin first_id : option rstring) (owner : bool)
    : list ConnectEffect * result IpcError Response :=
  let first := CE_Session pin first_id owner in
  match ca_session answers 0 with
  | Ok response => ([first], Ok response)
  | Err first_error =>
    let ids :=
      match present pin, first_id with
      | None, Some id =>
        if is_pairing_auth_error first_error
        then fallback_ids host id (match ca_records answers 2 with Some records => records | None => [] end)
        else []
      | _, _ => []
      end in
    match try_fallbacks 1 ids with
    | (fx, Some response) => (first :: CE_Disconnect :: fx, Ok response)
    | (fx, None) =>
      (first :: CE_Disconnect :: fx ++ [CE_Disconnect],
       Err (if ca_cleanup_fails answers (2 + length ids) then mkIpcError (ie_code first_error) IS_Cleanup else first_error))
    end
  end.

Definition connect (host : rstring) (pin pairing_id : option rstring) (owner : option bool)
    : list ConnectEffect * result IpcError Response :=
  if ca_cleanup_fails answers 0 then ([CE_Disconnect], Err (mkIpcError IC_CleanupFailed IS_Cleanup))
  else
    let reset := [CE_Disconnect; CE_ClearMetrics; CE_EnableClipboard] in
    if match present pin with Some trimmed => negb (valid_pin trimmed) | None => false end then (reset, Err invalid_pin)
    else
      match effective_pairing_id host pin pairing_id with
      | Err e => (reset, Err e)
      | Ok id =>
        match check_pairing pin id with
        | Err e => (reset, Err e)
        | Ok _ =>
          let '(fx, r) := connect_sessions host pin id (match owner with Some owner => owner | None => true end) in
          (reset ++ fx, r)
        end
      end.

End Connect.
Arguments ConnectAnswers : clear implicits.

(** * Theorems *)

(** ** The merged list *)

(** The best of the items of an identity, the first one first. *)
Definition winner (replace : HostItem * bool -> HostItem * bool -> bool) (items : list (HostItem * bool)) : option (HostItem * bool) :=
  match items with
  | [] => None
  | x :: items => Some (foldl (fun best item => if replace best item then item else best) x items)
  end.
Definition of_id (id : rstring) (items : list (HostItem * bool)) : list (HostItem * bool) :=
  filter (fun x => hi_id x.1 = id) items.

Section Merge.

Context (replace : HostItem * bool -> HostItem * bool -> bool).

Lemma winner_snoc items x :
  winner replace (items ++ [x]) =
  Some (match winner replace items with Some best => if replace best x then x else best | None => x end).
Proof. destruct items as [| y items]; [done |]. simpl. by rewrite foldl_snoc. Qed.

Record merged_ok (items : list (HostItem * bool)) (m : Merged) : Prop := {
  mg_winner : forall id, m.1 !! id = winner replace (of_id id items);
  mg_order : NoDup m.2;
  mg_ids : forall id, id ∈ m.2 <-> is_Some (m.1 !! id)
}.
Lemma merge_item_ok items m x : merged_ok items m -> merged_ok (items ++ [x]) (merge_item replace m x).
Proof.
  intros [Hw Hn Hi]. destruct m as [by_id order]. unfold merge_item. simpl in *.
  assert (Hof : forall id, winner replace (of_id id (items ++ [x])) =
    if decide (hi_id x.1 = id)
    then Some (match by_id !! id with Some best => if replace best x then x else best | None => x end) else by_id !! id).
  { intros id. unfold of_id. rewrite filter_app, filter_cons, filter_nil. destruct (decide _).
    - rewrite winner_snoc. by rewrite Hw.
    - rewrite app_nil_r. by rewrite Hw. }
  destruct (by_id !! hi_id x.1) as [existing |] eqn:He; split; simpl.
  - intros id. rewrite Hof. destruct (decide (hi_id x.1 = id)) as [<- | Hne].
    + rewrite He. destruct (replace existing x); [by rewrite lookup_insert_eq | done].
    + destruct (replace existing x); [by rewrite lookup_insert_ne | done].
  - done.
  - intros id. rewrite Hi. destruct (replace existing x); [| done].
    destruct (decide (hi_id x.1 = id)) as [<- | Hne]; [by rewrite lookup_insert_eq, He | by rewrite lookup_insert_ne].
  - intros id. rewrite Hof. destruct (decide (hi_id x.1 = id)) as [<- | Hne].
    + by rewrite He, lookup_insert_eq.
    + by rewrite lookup_insert_ne.
  - apply NoDup_app. split_and!; [done | | apply NoDup_singleton].
    intros id Hin Hx%list_elem_of_singleton. subst id. apply Hi in Hin as [? ?]. congruence.
  - intros id. rewrite elem_of_app, list_elem_of_singleton, Hi.
    destruct (decide (hi_id x.1 = id)) as [<- | Hne]; [rewrite lookup_insert_eq; split; [eauto | by right] |].
    rewrite lookup_insert_ne by done. naive_solver.
Qed.
Lemma merge_fold_ok items : merged_ok items (foldl (merge_item replace) (∅, []) items).
Proof.
  induction items as [| x items IH] using rev_ind.
  - split; simpl; [intros id; by rewrite lookup_empty | apply NoDup_nil_2 |].
    intros id. rewrite elem_of_nil, lookup_empty. split; [done | by intros []].
  - rewrite foldl_snoc. by apply merge_item_ok.
Qed.

Lemma take_items_spec by_id order :
  NoDup order -> (forall id, id ∈ order -> is_Some (by_id !! id)) ->
  map Some (take_items by_id order) = map (fun id => fst <$> by_id !! id) order.
Proof.
  revert by_id. induction order as [| id order IH]; intros by_id Hn Hs; [done |]. apply NoDup_cons in Hn as [Hnot Hn].
  simpl. destruct (Hs id) as [item Hitem]; [by left |]. rewrite Hitem. simpl. f_equal.
  rewrite IH; [| done |].
  - apply map_ext_in. intros k Hk. rewrite lookup_delete_ne; [done |]. intros ->. by apply Hnot, list_elem_of_In.
  - intros k Hk. rewrite lookup_delete_ne; [apply Hs; by right |]. by intros ->.
Qed.
(** Every identity once, with its best item. *)
Lemma merge_items_spec items :
  exists order,
    NoDup order /\ (forall id, id ∈ order <-> exists x, x ∈ items /\ hi_id x.1 = id) /\
    map Some (merge_items replace items) = map (fun id => fst <$> winner replace (of_id id items)) order.
Proof.
  unfold merge_items. pose proof (merge_fold_ok items) as [Hw Hn Hi].
  destruct (foldl (merge_item replace) (∅, []) items) as [by_id order]. simpl in *. exists order. split_and!; [done | |].
  - intros id. rewrite Hi, Hw. unfold of_id. split.
    + intros [x Hx]. destruct (filter _ items) as [| y l] eqn:Hf; [done |]. exists y.
      assert (y ∈ filter (fun x : HostItem * bool => hi_id x.1 = id) items) as Hy by (rewrite Hf; by left).
      apply list_elem_of_filter in Hy. tauto.
    + intros (x & Hx & Hid). assert (x ∈ filter (fun x : HostItem * bool => hi_id x.1 = id) items) as Hy by (by apply list_elem_of_filter).
      destruct (filter _ items) as [| y l]; [by apply elem_of_nil in Hy | by eexists].
  - rewrite take_items_spec; [| done | intros id; apply Hi]. apply map_ext. intros id. by rewrite Hw.
Qed.

End Merge.

(** The best of two is at least as good. *)
Definition online_or (x y : HostItem * bool) : Prop := hi_online y.1 = true -> hi_online x.1 = true.
Definition better (x y : HostItem * bool) : Prop :=
  (hi_online y.1 = true -> hi_online x.1 = true) /\
  (hi_online y.1 = true -> y.2 = true -> x.2 = true).

Lemma winner_best (replace : HostItem * bool -> HostItem * bool -> bool) (rel : HostItem * bool -> HostItem * bool -> Prop)
    `{!Reflexive rel} `{!Transitive rel} :
  (forall x y, if replace x y then rel y x else rel x y) ->
  forall items best, winner replace items = Some best -> best ∈ items /\ Forall (rel best) items.
Proof.
  intros Hrel items. induction items as [| x items IH] using rev_ind; intros best Hb; [done |].
  rewrite winner_snoc in Hb. injection Hb as <-. destruct (winner replace items) as [b |] eqn:Hw.
  - destruct (IH b eq_refl) as [Hin Hall]. pose proof (Hrel b x) as Hr. destruct (replace b x).
    + split; [apply elem_of_app; right; by left |]. apply Forall_app. split; [| by apply Forall_singleton].
      apply (Forall_impl _ _ _ Hall). intros y Hy. by transitivity b.
    + split; [apply elem_of_app; by left |]. apply Forall_app. split; [done | by apply Forall_singleton].
  - destruct items as [| y items]; [| done]. split; [by left |]. by apply Forall_singleton.
Qed.
#[local] Instance better_refl : Reflexive better.
Proof. intros x. by split. Qed.
#[local] Instance better_trans : Transitive better.
Proof. intros x y z [H1 H2] [H3 H4]. split; auto. Qed.
#[local] Instance online_or_refl : Reflexive online_or.
Proof. intros x. by unfold online_or. Qed.
#[local] Instance online_or_trans : Transitive online_or.
Proof. intros x y z H1 H2. unfold online_or in *. auto. Qed.
Lemma merge_replaces_better x y : if merge_replaces x y then better y x else better x y.
Proof.
  unfold merge_replaces, better. destruct (hi_online x.1), (hi_online y.1), x.2, y.2; simpl; naive_solver.
Qed.
Lemma dedupe_replaces_online x y : if dedupe_replaces x y then online_or y x else online_or x y.
Proof. unfold dedupe_replaces, online_or. destruct (hi_online x.1), (hi_online y.1); simpl; naive_solver. Qed.

Lemma merged_list_exact replace items :
  (forall id best, winner replace (of_id id items) = Some best ->
     best ∈ of_id id items /\ Forall (better best) (of_id id items)) ->
  let hosts := merge_items replace items in
  NoDup (map hi_id hosts) /\
  (forall id, id ∈ map hi_id hosts <-> exists x, x ∈ items /\ hi_id x.1 = id) /\
  (forall h, h ∈ hosts -> exists is_lan, (h, is_lan) ∈ items /\ forall x, x ∈ items -> hi_id x.1 = hi_id h ->
     (hi_online x.1 = true -> hi_online h = true) /\ (hi_online x.1 = true -> x.2 = true -> is_lan = true)).
Proof.
  intros Hbest hosts. destruct (merge_items_spec replace items) as (order & Hn & Hids & Hmap). fold hosts in Hmap.
  assert (Hwin : forall id, id ∈ order -> exists best, winner replace (of_id id items) = Some best).
  { intros id (x & Hx & Hid)%Hids. unfold of_id.
    assert (x ∈ filter (fun x : HostItem * bool => hi_id x.1 = id) items) as Hy by (by apply list_elem_of_filter).
    destruct (filter _ items) as [| y l]; [by apply elem_of_nil in Hy | by eexists]. }
  assert (Hof : forall id best, winner replace (of_id id items) = Some best -> hi_id best.1 = id).
  { intros id best Hb. destruct (Hbest id best Hb) as [Hin _]. unfold of_id in Hin. apply list_elem_of_filter in Hin. tauto. }
  assert (Hmapid : map hi_id hosts = order).
  { apply (inj (fmap Some)). change (map Some (map hi_id hosts) = map Some order).
    transitivity (map (fmap hi_id) (map Some hosts)); [by rewrite !map_map |]. rewrite Hmap, map_map.
    apply map_ext_in. intros id Hin%list_elem_of_In. destruct (Hwin id Hin) as [best Hb]. rewrite Hb. simpl. f_equal. by apply Hof. }
  rewrite Hmapid. split_and!; [done | done |].
  intros h Hh. assert (Some h ∈ map Some hosts) as Hsome by (by apply list_elem_of_fmap_2).
  rewrite Hmap in Hsome. apply list_elem_of_fmap in Hsome as (id & Hb & Hid).
  destruct (Hwin id Hid) as [[best is_lan] Hw]. rewrite Hw in Hb. simpl in Hb. injection Hb as ->. exists is_lan.
  destruct (Hbest id _ Hw) as [Hin Hall]. pose proof (Hof id _ Hw) as Hbid. simpl in Hbid. unfold of_id in Hin, Hall.
  apply list_elem_of_filter in Hin as [_ Hin]. split; [done |]. intros x Hx Hxid. rewrite Forall_forall in Hall.
  apply (Hall x). apply list_elem_of_filter. split; [congruence | done].
Qed.

(** The items the sources offer; [true]: of the LAN. *)
Definition offered (lan : option (list DiscoveredHost)) (tailscale : option (list HostItem)) (records : list PairingRecord)
    : list (HostItem * bool) :=
  let of_lan := map (fun h => (lan_item records h, true)) (match lan with Some lan => lan | None => [] end) in
  match lan, tailscale with
  | Some lan, Some tailscale => of_lan ++ map (fun h => (h, false)) (unseen (map dh_ip lan) tailscale)
  | _, Some tailscale => map (fun h => (h, false)) tailscale
  | _, None => of_lan
  end.


(** ** What a pairing is matched by *)

Lemma find_first_spec {A} (p : A -> bool) (l : list A) :
  match find_first p l with
  | Some x => exists before after, l = before ++ x :: after /\ p x = true /\ Forall (fun y => p y = false) before
  | None => Forall (fun y => p y = false) l
  end.
Proof.
  induction l as [| x l IH]; simpl; [by apply Forall_nil |]. destruct (p x) eqn:Hp; [by exists [], l |].
  destruct (find_first p l) as [y |]; [| by apply Forall_cons].
  destruct IH as (before & after & -> & Hy & Hb). exists (x :: before), after. split_and!; [done | done |]. by apply Forall_cons.
Qed.
Lemma find_last_spec {A} (p : A -> bool) (l : list A) :
  match find_first p (rev l) with
  | Some x => exists before after, l = before ++ x :: after /\ p x = true /\ Forall (fun y => p y = false) after
  | None => Forall (fun y => p y = false) l
  end.
Proof.
  pose proof (find_first_spec p (rev l)) as H. destruct (find_first p (rev l)) as [x |].
  - destruct H as (before & after & Hl & Hx & Hb). exists (rev after), (rev before).
    apply (f_equal (@rev A)) in Hl. rewrite rev_involutive, rev_app_distr in Hl. simpl in Hl. rewrite <- app_assoc in Hl.
    split_and!; [done | done |]. apply Forall_forall. intros y Hy. rewrite Forall_forall in Hb. apply Hb.
    by apply list_elem_of_In, in_rev, list_elem_of_In.
  - apply Forall_forall. intros y Hy. rewrite Forall_forall in H. apply H.
    apply list_elem_of_In, in_rev. rewrite rev_involutive. by apply list_elem_of_In.
Qed.
(** The newest record with the address of the host; without one, the newest with its name. *)
Lemma resolved_pairing host records id :
  resolve_pairing_id_for_host host records = Some id ->
  exists before r after, records = before ++ r :: after /\ pr_id r = id /\
    ((has_endpoint (trim host) r = true /\ Forall (fun x => has_endpoint (trim host) x = false) after) \/
     (has_name (trim host) r = true /\ Forall (fun x => has_endpoint (trim host) x = false) records /\
      Forall (fun x => has_name (trim host) x = false) after)).
Proof.
  unfold resolve_pairing_id_for_host. pose proof (find_last_spec (has_endpoint (trim host)) records) as He.
  pose proof (find_last_spec (has_name (trim host)) records) as Hn.
  destruct (trim host) as [| b s] eqn:Ht; [done |]. destruct (find_first (has_endpoint _) _) as [r |].
  - intros [= <-]. destruct He as (before & after & -> & Hr & Ha). exists before, r, after. naive_solver.
  - destruct (find_first (has_name _) _) as [r |]; [| done]. simpl. intros [= <-].
    destruct Hn as (before & after & Hl & Hr & Ha). exists before, r, after. naive_solver.
Qed.

(** ** The sessions of a connect *)

Definition is_session (fx : ConnectEffect) : bool := match fx with CE_Session _ _ _ => true | _ => false end.
(** Whether a session is left. *)
Definition after (before : bool) (fx : ConnectEffect) : bool :=
  match fx with CE_Session _ _ _ => true | CE_Disconnect => false | _ => before end.
Fixpoint sessions (log : list ConnectEffect) : nat :=
  match log with [] => 0 | fx :: log => (if is_session fx then 1 else 0) + sessions log end.
Lemma sessions_app l k : sessions (l ++ k) = (sessions l + sessions k)%nat.
Proof. induction l as [| x l IH]; simpl; [done |]. rewrite IH. lia. Qed.
(** Every session starts when the one before it is gone. *)
Fixpoint isolated (connected : bool) (log : list ConnectEffect) : Prop :=
  match log with
  | [] => True
  | fx :: log => (is_session fx = true -> connected = false) /\ isolated (after connected fx) log
  end.
Fixpoint connected (before : bool) (log : list ConnectEffect) : bool :=
  match log with [] => before | fx :: log => connected (after before fx) log end.
Lemma isolated_app b l k : isolated b (l ++ k) <-> isolated b l /\ isolated (connected b l) k.
Proof. revert b. induction l as [| x l IH]; intros b; simpl; [tauto |]. rewrite IH. tauto. Qed.
Lemma connected_app b l k : connected b (l ++ k) = connected (connected b l) k.
Proof. revert b. induction l as [| x l IH]; intros b; simpl; [done | apply IH]. Qed.

Section ConnectProofs.

Context {Response : Type} (answers : ConnectAnswers Response).

(** A session without a PIN uses a pairing of the store. *)
Definition stored (fx : ConnectEffect) : Prop :=
  match fx with
  | CE_Session pin id _ =>
    present pin = None -> exists i k records, id = Some i /\ ca_records answers k = Some records /\ i ∈ map pr_id records
  | _ => True
  end.

Lemma fallback_ids_stored host primary_id records :
  (length (fallback_ids host primary_id records) <= 2)%nat /\
  Forall (fun id => id ∈ map pr_id records) (fallback_ids host primary_id records).
Proof.
  unfold fallback_ids. split; [rewrite length_take; lia |]. apply Forall_take, Forall_forall.
  intros id (r & -> & Hr)%list_elem_of_fmap. apply list_elem_of_filter in Hr as [_ Hr].
  apply list_elem_of_fmap_2. by apply list_elem_of_In, in_rev, list_elem_of_In.
Qed.
Lemma try_fallbacks_ok n ids k records :
  ca_records answers k = Some records -> Forall (fun id => id ∈ map pr_id records) ids ->
  let '(log, r) := try_fallbacks answers n ids in
  isolated false log /\ (sessions log <= length ids)%nat /\ Forall stored log /\
  connected false log = match r with Some _ => true | None => false end.
Proof.
  intros Hk. revert n. induction ids as [| id ids IH]; intros n Hids; [done |].
  apply Forall_cons in Hids as [Hid Hids]. simpl.
  assert (Hstored : stored (CE_Session None (Some id) true)) by (intros _; eauto 10).
  destruct (ca_session answers n) as [response | e].
  - simpl. split; [done |]. split; [lia |]. split; [by repeat (apply Forall_cons; split) | done].
  - specialize (IH (S n) Hids). destruct (try_fallbacks answers (S n) ids) as [log r]. destruct IH as (Hi & Hs & Hst & Hc).
    simpl. split; [done |]. split; [lia |]. split; [| done]. by repeat (apply Forall_cons; split).
Qed.

Lemma checked_pairing pin id :
  check_pairing answers pin id = Ok tt -> present pin = None ->
  match id with Some i => exists records, ca_records answers 1 = Some records /\ i ∈ map pr_id records | None => True end.
Proof.
  unfold check_pairing. intros Hc Hp. rewrite Hp in Hc. destruct id as [i |]; [| done].
  destruct (ca_records answers 1) as [records |]; [| done]. pose proof (find_first_spec (has_id i) records) as Hf.
  destruct (find_first (has_id i) records) as [r |]; [| done]. exists records. split; [done |].
  destruct Hf as (before & after & -> & Hr & _). unfold has_id in Hr. apply bool_decide_eq_true in Hr as <-.
  rewrite map_app. apply elem_of_app. right. by left.
Qed.
Lemma effective_pairing host pin pairing_id id :
  effective_pairing_id answers host pin pairing_id = Ok id -> present pin = None -> id <> None.
Proof.
  unfold effective_pairing_id. intros He Hp. rewrite Hp in He. destruct (present pairing_id) as [i |]; [congruence |].
  destruct (ca_records answers 0) as [records |]; [| done]. destruct (resolve_pairing_id_for_host host records); congruence.
Qed.

Lemma connect_sessions_ok host pin id owner :
  check_pairing answers pin id = Ok tt -> (present pin = None -> id <> None) ->
  let '(log, r) := connect_sessions answers host pin id owner in
  isolated false log /\ (sessions log <= match present pin with Some _ => 1 | None => 3 end)%nat /\ Forall stored log /\
  connected false log = match r with Ok _ => true | Err _ => false end.
Proof.
  intros Hc Hid. unfold connect_sessions.
  assert (Hfirst : stored (CE_Session pin id owner)).
  { intros Hp. pose proof (checked_pairing pin id Hc Hp) as Hs. specialize (Hid Hp). destruct id as [i |]; [| done].
    destruct Hs as (records & ? & ?). eauto 10. }
  destruct (ca_session answers 0) as [response | e].
  { simpl. split; [done |]. split; [destruct (present pin); lia |]. split; [by apply Forall_singleton | done]. }
  set (ids := match present pin, id with None, Some _ => _ | _, _ => _ end).
  assert (Hids : exists k records, (ids = [] \/ ca_records answers k = Some records) /\ Forall (fun id => id ∈ map pr_id records) ids /\
    (length ids <= match present pin with Some _ => 0 | None => 2 end)%nat).
  { unfold ids. destruct (present pin) as [p |]; [exists 0%nat, []; split; [by left |]; split; [by apply Forall_nil | simpl; lia] |].
    destruct id as [i |]; [| exists 0%nat, []; split; [by left |]; split; [by apply Forall_nil | simpl; lia]].
    destruct (is_pairing_auth_error e); [| exists 0%nat, []; split; [by left |]; split; [by apply Forall_nil | simpl; lia]].
    destruct (ca_records answers 2) as [records |] eqn:Hr.
    - destruct (fallback_ids_stored host i records). exists 2%nat, records. split; [by right |]; split; done.
    - exists 0%nat, []. unfold fallback_ids. split; [by left |]; split; [by apply Forall_nil | simpl; lia]. }
  destruct Hids as (k & records & Hk & Hall & Hlen).
  assert (Htry : let '(log, r) := try_fallbacks answers 1 ids in
    isolated false log /\ (sessions log <= length ids)%nat /\ Forall stored log /\
    connected false log = match r with Some _ => true | None => false end).
  { destruct Hk as [-> | Hk]; [done |]. by apply (try_fallbacks_ok 1 ids k records). }
  destruct (try_fallbacks answers 1 ids) as [log [response |]]; destruct Htry as (Hi & Hs & Hst & Hcon); simpl.
  - split; [done |]. split; [destruct (present pin); simpl in *; lia |]. split; [| done].
    apply Forall_cons; split; [done | by apply Forall_cons].
  - rewrite isolated_app, connected_app, sessions_app. simpl. split; [done |]. split; [| split; [| done]].
    + destruct (present pin); simpl in *; lia.
    + apply Forall_cons; split; [done |]. apply Forall_cons; split; [done |]. apply Forall_app; split; [done | by apply Forall_singleton].
Qed.

End ConnectProofs.

(** C10: Whatever the store and the sessions answer, [connect] leaves what it reports: a success ends with the
    session it started, a failure with a disconnect.  No session starts before the one before it is
    disconnected; there are at most three, and one if a PIN is given; and without a PIN, each
    uses the key of a pairing that the store held. *)
Theorem connect_leaves_one_session {Response : Type} (answers : ConnectAnswers Response) host pin pairing_id owner :
  let '(log, r) := connect answers host pin pairing_id owner in
  isolated true log /\
  (sessions log <= match present pin with Some _ => 1 | None => 3 end)%nat /\
  Forall (stored answers) log /\
  connected true log = match r with Ok _ => true | Err _ => false end.
Proof.
  assert (Hnone : forall (log : list ConnectEffect) (e : IpcError), log = [CE_Disconnect] \/ log = [CE_Disconnect; CE_ClearMetrics; CE_EnableClipboard] ->
    isolated true log /\ (sessions log <= match present pin with Some _ => 1 | None => 3 end)%nat /\ Forall (stored answers) log /\
    connected true log = match (Err e : result IpcError Response) with Ok _ => true | Err _ => false end).
  { intros log e [-> | ->]; simpl; (split; [done |]; split; [lia |]; split; [by repeat (apply Forall_cons; split) | done]). }
  unfold connect. destruct (ca_cleanup_fails answers 0); [by apply (Hnone _ client_failed); auto |].
  destruct (match present pin with Some trimmed => negb (valid_pin trimmed) | None => false end); [by apply (Hnone _ client_failed); auto |].
  destruct (effective_pairing_id answers host pin pairing_id) as [id | e] eqn:He; [| by apply (Hnone _ client_failed); auto].
  destruct (check_pairing answers pin id) as [[] | e] eqn:Hc; [| by apply (Hnone _ client_failed); auto].
  pose proof (connect_sessions_ok answers host pin id (match owner with Some owner => owner | None => true end) Hc
    (effective_pairing answers host pin pairing_id id He)) as Hs.
  destruct (connect_sessions _ _ _ _ _) as [log r]. destruct Hs as (Hi & Hn & Hst & Hcon). simpl.
  split; [done |]. split; [done |]. split; [by repeat (apply Forall_cons; split) | done].
Qed.

(** A PIN is checked without the spaces around it, and used with them. *)
Example pin_used_untrimmed :
  let answers := mkConnectAnswers (Response := unit) (fun _ => false) (fun _ => None) (fun _ => Err client_failed) in
  (connect answers (str_bytes "desk") (Some (str_bytes " 12345678")) None None).1 =
    [CE_Disconnect; CE_ClearMetrics; CE_EnableClipboard; CE_Session (Some (str_bytes " 12345678")) None true; CE_Disconnect; CE_Disconnect].
Proof. by vm_compute. Qed.
